(* ===== verification/_CoqProject ===== *)
-Q . S2P
Prelude.v
CLib.v
Crc8.v
Nvram.v
NvramFlash.v
NvramCommit.v
NvramCli.v
Owipcalc.v
OwipcalcProps.v
OwipcalcV6.v
OwipcalcMain.v
HashSpec.v
Mkhash.v
MkhashProps.v
KconfigExpr.v
KconfigMenu.v
KconfigSimp.v
KconfigJoin.v
KconfigDups.v
KconfigProps.v
KconfigPrint.v
KconfigSym.v
KconfigSymProps.v
KconfigSymSpec.v
KconfigSymCalc.v
KconfigSymOrder.v
KconfigChoice.v
KconfigSet.v
KconfigSetProps.v
KconfigLookup.v
KconfigConf.v
KconfigConfProps.v
KconfigFile.v
KconfigTree.v
KconfigTreeLemmas.v
KconfigTreeSteps.v
KconfigTreeProps.v
KconfigParse.v
KconfigParseProps.v
KconfigWrite.v
KconfigWriteProps.v
KconfigCheck.v
KconfigCheckProps.v
KconfigCheckSound.v
KconfigCheckFull.v
MtdMd5.v
Mtd.v
MtdCrc.v
MtdKernel.v
MtdSim.v
MtdDev.v
MtdTrx.v
MtdTrxProps.v
MtdFix.v
MtdFixProps.v
MtdJffs2.v
MtdTarget.v
MtdWrite.v
MtdWriteProps.v
MtdMain.v
MtdMainProps.v
MtdTargetProps.v
MtdEraseProps.v
MtdJffs2Props.v
MtdImagetag.v
MtdImagetagProps.v
MtdFis.v
MtdFisProps.v
