(* ===== verification/Prelude.v ===== *)
(** * Verification of C programs of the SourceMaster (ROOter / OpenWrt) tree

    The repository is a router distribution: a build system around many
    packages.  This library models programs of it that carry their own logic
    and proves them correct.  Each is a self-contained C program; they share
    the C language, the C library and the conventions of this file.

    ** The programs and the files that model them

    - [Prelude] (this file): fixed-width integers, run-time faults and the
      [result] monad, byte strings and memory reads and writes.  [CLib]: the
      target (byte order, signedness of [char], width of [long]) as the class
      [Arch], and the C library functions that the sources call.

    - nvram (src/package/utils/nvram/src): the settings store of Broadcom
      routers.  [Crc8] is crc.c.  [Nvram] is the hash table of nvram.c
      ([nvram_get], [nvram_set], [nvram_unset], [nvram_getall],
      [_nvram_realloc], [_nvram_free]); the state is the record [handle], and
      the success of each allocation is an input.  [NvramFlash] is the image
      in the flash ([_nvram_rehash], [nvram_commit], [nvram_open],
      [nvram_close]) over the bytes of the mapping.  [NvramCli] is the rest
      of nvram.c (device and staging file) and cli.c with the whole of [main];
      the files of the system are the record [world].  [NvramCommit] holds the
      proofs about images.

    - owipcalc (src/feeds/packages/net/owipcalc/src): the address calculator.
      [Owipcalc] holds every operation of owipcalc.c, the operation table,
      [runop] and [main] of main.c, in a state monad whose state is the stack
      of addresses, the output flags and the output.  [OwipcalcProps] and
      [OwipcalcV6] prove the IPv4 and IPv6 operations, [OwipcalcMain] the
      printing, parsing and the command line.

    - mkhash (src/scripts/mkhash.c): the MD5 and SHA-256 tool of the build.
      [Mkhash] translates it from the block functions to [main];
      [HashSpec] states RFC 1321 and FIPS 180-4; [MkhashProps] relates them.

    - kconfig (src/scripts/config): the configuration language of the build.
      [KconfigExpr] is expr.c (with the constants and [sym_get_string_value]
      of symbol.c and the string buffers of util.c), [KconfigMenu] the
      rewriting of dependencies in menu.c.  [KconfigSimp], [KconfigJoin] and
      [KconfigDups] hold the lemmas about the simplifier, [KconfigProps] and
      [KconfigPrint] its theorems.  [KconfigSym] is the calculation of symbol
      values in symbol.c ([sym_calc_value] and all it calls: visibility,
      defaults, selections, choices, ranges) over the state of the symbol
      table; [KconfigSymProps] proves what every step of it keeps,
      [KconfigSymSpec] describes the values without reference to the order of
      evaluation, [KconfigSymCalc], [KconfigSymOrder] and [KconfigChoice] show
      that the calculation follows the description.  [KconfigSet] and
      [KconfigSetProps] are the operations that set values,
      [KconfigLookup] the hash table of names, [KconfigConf] the reading of
      .config files and the printers of confdata.c, [KconfigConfProps] and
      [KconfigFile] what reading a file gives.  [KconfigTree] is the tree of
      menu entries of menu.c, linked by pointers that are positions in a list,
      with [menu_finalize]; [KconfigTreeLemmas] relates the pointers to
      forests, [KconfigTreeSteps] and [KconfigTreeProps] show what each step
      does to them.  [KconfigParse] is what the actions of parser.y and
      [conf_parse] do to the tree, [KconfigParseProps] the order of its
      entries.  [KconfigWrite] is the walk over the tree by [conf_write] and
      [conf_write_defconfig], [KconfigWriteProps] the round trip of a whole
      file.  [KconfigCheck] is the check for recursive dependencies
      ([sym_check_deps] and what it calls); [KconfigCheckProps] bounds it,
      [KconfigCheckSound] and [KconfigCheckFull] relate it to the description
      of the values.

    - mtd (src/package/system/mtd/src): the tool that writes firmware to the
      flash.  [Mtd] holds the variables of the program, the monad of its runs
      (state, [exit] and faults), the kernel as the class [Kernel] (open,
      read, write, ioctls, mmap as operations on an abstract state), which
      functions a target links (the class [Target]), and the functions of
      mtd.c on devices: [mtd_open], [mtd_check], [mtd_unlock], [mtd_erase] and
      so on.  [MtdMd5] is md5.c, [MtdCrc] crc32.c, [MtdTrx] trx.c, [MtdFix]
      seama.c, wrg.c and wrgg.c (one definition with the three layouts as
      parameter), [MtdJffs2] jffs2.c, [MtdImagetag] imagetag.c
      (which takes the place of trx.c on two targets), [MtdFis] fis.c and the
      parts of mtd.c that use it, [MtdTarget] linksys_bootcount.c and
      tpl_ramips_recoveryflag.c, [MtdWrite] the check of an image, writing,
      dumping and verifying, [MtdMain] the options and [main].  [MtdKernel]
      states what the kernel promises (the class [KernelLaws]: which bytes a
      call reads or changes, that it may fail, how often it may ask to be
      called again) and the rules for runs; [MtdSim] is a kernel that keeps
      the promises and can be run; [MtdDev] holds what the proofs share about
      devices with bad blocks.  [MtdTrxProps], [MtdFixProps],
      [MtdWriteProps], [MtdMainProps], [MtdEraseProps], [MtdTargetProps],
      [MtdJffs2Props], [MtdImagetagProps] and [MtdFisProps] hold the theorems;
      those about runs are proved for every kernel that keeps the promises.

    ** What the theorems show

    - Checksums: the CRC-8 table loop is division by the generator
      polynomial, and detects any change of one byte.
    - The variable table refines a finite map under every sequence of
      operations and of allocation failures; commit, reopen and re-read keep
      the variables; the writer stays inside the partition for any values;
      opening any bytes ends; "set ... commit" followed by "get" reads the new
      value.  The partition is mapped below 2 GiB there, or has a word to spare.
      The cases in which the code does not do this are stated too (a partition
      filled to its last word, or mapped higher and full, a value lost to a
      failed allocation, the checksum display on big-endian CPUs).
    - Address arithmetic agrees with 32-bit and 128-bit arithmetic, masks and
      inclusion with sets of addresses, parsing with printing, on each byte
      order; where the C code is undefined or steps wrongly, the theorem says
      for which arguments.  [main] ends on every command line.
    - The streaming hash functions equal the standards on every message and
      every way of splitting it into chunks; the command prints what it
      should.
    - The expression simplifier ends on every dependency: [expr_transform]
      reaches a normal form, [expr_eliminate_dups] shrinks the tree in each
      pass; in a well-typed table ([typed]) it keeps the value of every
      dependency that compares no symbol with a quoted 0, 1 or 2 ([plain]; such
      a constant equals n, m or y as a number only), [expr_eq] is sound, and the
      rewritings used for menus keep visibility; printed expressions read back.
    - The calculation of symbol values ends on every table, keeps values to
      their types and, when the dependencies are acyclic, gives every symbol
      the value that the description states, whatever the order in which
      symbols are calculated; a selected symbol is at least as high as what
      selects it, at most one symbol of a choice is y; a value that is
      accepted from the user is the value calculated; the hash table keeps
      names unique.
    - The parser and [menu_finalize] return on all statements that the grammar
      accepts, and the entries of the tree, read from top to bottom, are those
      of the Kconfig files in their order: making submenus and dissolving
      blocks loses, repeats and reorders none.  A configuration file that
      [conf_write] writes from this tree holds every symbol once, and is read
      back with the same values.
    - The check for recursive dependencies is sound: a table that it passes
      has an order of evaluation, so that the theorems about calculated values
      apply to it; it reports nothing on a table without cycles, and it ends.
    - The mtd tool: "mtd write" leaves the image, padded to whole blocks, in
      the good blocks of the device from its start, and touches neither bad
      blocks nor other devices, whatever short or interrupted reads the kernel
      gives; when something fails the exit status says so, and an image in a
      regular file is refused only if the target does not accept it.  "mtd erase"
      erases exactly the good blocks.  The fix-ups of headers make the
      checksum or digest that of the data in the good blocks and change
      nothing else.  The boot counter reads 0 after it has been reset.  The
      digests and CRC-32 are those of their standards.  A jffs2 node that is
      appended to a block is read back by the walk over it; a node that does
      not fit is not noticed, which is stated too.  A partition table keeps its
      other records when partitions are replaced, and the new ones lie one
      after the other in the space of the old ones; fewer new ones than old
      ones make the program fault, which is stated too.

    ** Conventions

    A w-bit unsigned integer is a [Z] with its reductions written out ([u8],
    [u32], ...), a signed one its value ([s32]).  Operations that the language
    leaves undefined give a [Fault].  A C string is the list of its bytes
    before the NUL.  Recursion that is not structural has fuel, with
    [OutOfFuel] for the end of it; the theorems about termination show that
    the fuel given by the definitions is enough for every input: the length
    of the mapping for the parser of images, the number of arguments for
    command lines, the size of the expressions for [expr_eq] (two calls for
    each node), the square of it for [expr_eliminate_dups1] (a walk of the
    tree for each level of nesting), the size for the passes of
    [expr_eliminate_dups], a weight that doubles under negation for
    [expr_transform], the number of symbols left to calculate for
    [sym_calc_value] (a choice whose values are set counts again), and twice
    the number of unchecked symbols and two for [sym_check_deps], and the
    number of menu entries for the walks over the tree.  The loops of
    the mtd tool that the kernel can prolong have a bound as parameter: the
    theorems ask for more than the size of the device, times the number of
    times a call can be interrupted where it is repeated; the other loops take
    theirs from the size of a block or of the device.

    ** What is not modelled

    Input and output beyond the bytes read and written (locking, [msync],
    permissions), the text of usage messages, floating point (the percentage
    that "nvram show" prints is a parameter), [inet_pton] and [inet_ntop] for
    IPv6 (the class [Inet6] of [Owipcalc]), [getopt] (its result is an argument
    of [main]).  In kconfig, the tables of the parser and the lexer (generated),
    the preprocessor, the flags that tell a front end what to redraw, the text
    of the report on a recursive dependency, the texts shown for an entry and
    the user interfaces are not modelled; texts are compared by their contents where the source
    compares the pointers to them, which matters only to the redraw flags.  In
    mtd, [getopt], the MD5 of libubox (a parameter of [mtd_verify]) and messages
    are not modelled, and [mtd_write] is that of the build without FIS_SUPPORT:
    [MtdFis] has the code that it has in addition, but not their composition.
    Other programs of the tree (drivers, LuCI bindings, modem tools) are
    listed in the manifest. *)

From Stdlib Require Export ZArith Lia.
From stdpp Require Export base tactics numbers option strings gmap list.

Open Scope Z_scope.

(** ** C integer notations *)

Declare Scope cint_scope.
Delimit Scope cint_scope with cint.

(** Bit operations of the source, on the (non-negative) value of a word. *)
Notation "x .& y" := (Z.land x y) (at level 40, left associativity) : cint_scope.
Notation "x .| y" := (Z.lor x y) (at level 50, left associativity) : cint_scope.
Notation "x .^ y" := (Z.lxor x y) (at level 45, left associativity) : cint_scope.
Notation "x .<< n" := (Z.shiftl x n) (at level 37, left associativity) : cint_scope.
Notation "x .>> n" := (Z.shiftr x n) (at level 37, left associativity) : cint_scope.
Open Scope cint_scope.

(** Conversion to the unsigned types of the source. *)
Definition u8 (z : Z) : Z := z mod 2 ^ 8.
Definition u16 (z : Z) : Z := z mod 2 ^ 16.
Definition u32 (z : Z) : Z := z mod 2 ^ 32.
Definition u64 (z : Z) : Z := z mod 2 ^ 64.

(** Conversion to the 32-bit signed [int] (two's complement). *)
Definition s32 (z : Z) : Z :=
  let r := u32 z in if r <? 2 ^ 31 then r else r - 2 ^ 32.

(** ** Run-time faults

    A run of the C code either returns or hits an operation the language
    leaves undefined. *)

Inductive fault :=
  | NullDeref      (** a NULL pointer is dereferenced *)
  | OutOfBounds    (** an access outside the object *)
  | BadShift       (** a shift by at least the width of the operand *)
  | BadUnion       (** a union read through a member it does not hold *)
  | DivZero        (** a division or a remainder by 0 *)
  | OutOfFuel.     (** the model's recursion bound; proved unreachable *)

#[export] Instance fault_eq_dec : EqDecision fault.
Proof. solve_decision. Defined.

Inductive result (A : Type) :=
  | Ret (a : A)
  | Fault (f : fault).
Arguments Ret {A} _.
Arguments Fault {A} _.

#[export] Instance result_ret : MRet result := @Ret.
#[export] Instance result_bind : MBind result := λ A B k m,
  match m with Ret a => k a | Fault f => Fault f end.

(** The result of a run that is known to return. *)
Definition returns {A} (m : result A) : bool :=
  match m with Ret _ => true | Fault _ => false end.
Definition of_option {A} (f : fault) (o : option A) : result A :=
  match o with Some a => Ret a | None => Fault f end.

Lemma bind_ret_inv {A B} (m : result A) (k : A → result B) (b : B) :
  (m ≫= k) = Ret b → ∃ a, m = Ret a ∧ k a = Ret b.
Proof. destruct m; naive_solver. Qed.

(** ** Arithmetic helpers *)

Lemma u8_range z : 0 ≤ u8 z < 256.
Proof. apply Z.mod_pos_bound. lia. Qed.
Lemma u32_range z : 0 ≤ u32 z < 2 ^ 32.
Proof. apply Z.mod_pos_bound. lia. Qed.
Lemma u64_range z : 0 ≤ u64 z < 2 ^ 64.
Proof. apply Z.mod_pos_bound. lia. Qed.
Lemma u8_small z : 0 ≤ z < 256 → u8 z = z.
Proof. intros. by apply Z.mod_small. Qed.
Lemma u32_small z : 0 ≤ z < 2 ^ 32 → u32 z = z.
Proof. intros. by apply Z.mod_small. Qed.
Lemma u64_small z : 0 ≤ z < 2 ^ 64 → u64 z = z.
Proof. intros. by apply Z.mod_small. Qed.

(** A mask of low ones is a remainder. *)
Lemma land_ones_mod z n : 0 ≤ n → Z.land z (2 ^ n - 1) = z mod 2 ^ n.
Proof.
  intros. rewrite <- Z.land_ones by done. f_equal. by rewrite Z.ones_equiv, Z.sub_1_r.
Qed.
Lemma land_255 z : Z.land z 255 = z mod 256.
Proof. apply (land_ones_mod z 8). lia. Qed.
Lemma land_63 z : Z.land z 63 = z mod 64.
Proof. apply (land_ones_mod z 6). lia. Qed.
Lemma land_65535 z : Z.land z 65535 = z mod 65536.
Proof. apply (land_ones_mod z 16). lia. Qed.

(** Values below [2 ^ n] are closed under the bit operations. *)
Lemma lt_pow2_bits z n :
  0 ≤ n → 0 ≤ z → (∀ i, n ≤ i → Z.testbit z i = false) → z < 2 ^ n.
Proof.
  intros Hn Hz Hb. destruct (decide (z = 0)) as [->|Hnz]; [lia|].
  apply Z.log2_lt_pow2; [lia|].
  destruct (Z.lt_ge_cases (Z.log2 z) n) as [|Hge]; [done|].
  specialize (Hb _ Hge). rewrite Z.bit_log2 in Hb by lia. done.
Qed.
Lemma bits_above z n i : 0 ≤ n → 0 ≤ z < 2 ^ n → n ≤ i → Z.testbit z i = false.
Proof.
  intros. destruct (decide (z = 0)) as [->|]; [apply Z.bits_0|].
  apply Z.bits_above_log2; [lia|].
  apply Z.lt_le_trans with n; [apply Z.log2_lt_pow2; lia|done].
Qed.
Lemma land_range x y n :
  0 ≤ n → 0 ≤ x < 2 ^ n → 0 ≤ y → 0 ≤ Z.land x y < 2 ^ n.
Proof.
  intros. split; [apply Z.land_nonneg; lia|].
  apply lt_pow2_bits; [done|apply Z.land_nonneg; lia|].
  intros. by rewrite Z.land_spec, (bits_above x n i).
Qed.
Lemma lor_range x y n :
  0 ≤ n → 0 ≤ x < 2 ^ n → 0 ≤ y < 2 ^ n → 0 ≤ Z.lor x y < 2 ^ n.
Proof.
  intros. split; [apply Z.lor_nonneg; lia|].
  apply lt_pow2_bits; [done|apply Z.lor_nonneg; lia|].
  intros. by rewrite Z.lor_spec, (bits_above x n i), (bits_above y n i).
Qed.
Lemma lxor_range x y n :
  0 ≤ n → 0 ≤ x < 2 ^ n → 0 ≤ y < 2 ^ n → 0 ≤ Z.lxor x y < 2 ^ n.
Proof.
  intros. assert (0 ≤ Z.lxor x y) by (apply Z.lxor_nonneg; lia). split; [done|].
  apply lt_pow2_bits; [done..|].
  intros. by rewrite Z.lxor_spec, (bits_above x n i), (bits_above y n i).
Qed.
Lemma shiftr_range x k n : 0 ≤ k → 0 ≤ x < 2 ^ n → 0 ≤ Z.shiftr x k < 2 ^ n.
Proof.
  intros. split; [apply Z.shiftr_nonneg; lia|].
  rewrite Z.shiftr_div_pow2 by done.
  apply Z.le_lt_trans with x; [|lia].
  apply Z.div_le_upper_bound; [lia|]. nia.
Qed.

(** Disjoint operands: [|] is [+]. *)
Lemma lor_shiftl_add x y n :
  0 ≤ n → 0 ≤ x < 2 ^ n → Z.lor x (Z.shiftl y n) = x + y * 2 ^ n.
Proof.
  intros Hn Hx. rewrite <- Z.shiftl_mul_pow2 by done.
  assert (Z.land x (Z.shiftl y n) = 0) as Hd.
  { apply Z.bits_inj'. intros i Hi. rewrite Z.land_spec, Z.bits_0.
    destruct (Z.lt_ge_cases i n).
    - rewrite Z.shiftl_spec_low by lia. by rewrite andb_false_r.
    - by rewrite (bits_above x n i). }
  rewrite Z.add_nocarry_lxor by done. symmetry. by apply Z.lxor_lor.
Qed.

(** ** Bytes *)

(** A byte buffer: every cell is an [unsigned char]. *)
Definition bytes_wf (l : list Z) : Prop := Forall (λ b, 0 ≤ b < 256) l.

#[export] Instance bytes_wf_dec l : Decision (bytes_wf l).
Proof. apply _. Defined.

(** A boolean property of all bytes, by enumeration. *)
Lemma byte_forall (P : Z → bool) :
  forallb P (seqZ 0 256) = true → ∀ b, 0 ≤ b < 256 → P b = true.
Proof.
  intros Hall b Hb. rewrite forallb_forall in Hall. apply Hall.
  apply list_elem_of_In, elem_of_seqZ. lia.
Qed.

(** The [n] low-order bytes of a value, least significant first. *)
Fixpoint le_bytes (n : nat) (z : Z) : list Z :=
  match n with
  | O => []
  | S n => z mod 256 :: le_bytes n (z / 256)
  end.
Definition be_bytes (n : nat) (z : Z) : list Z := reverse (le_bytes n z).

(** The value of a byte string, least significant byte first. *)
Fixpoint le_val (l : list Z) : Z :=
  match l with
  | [] => 0
  | b :: l => b + 256 * le_val l
  end.
Definition be_val (l : list Z) : Z := le_val (reverse l).

Lemma length_le_bytes n z : length (le_bytes n z) = n.
Proof. revert z. induction n; intros; simpl; auto. Qed.
Lemma length_be_bytes n z : length (be_bytes n z) = n.
Proof. unfold be_bytes. by rewrite length_reverse, length_le_bytes. Qed.

Lemma le_bytes_wf n z : bytes_wf (le_bytes n z).
Proof.
  revert z. induction n as [|n IH]; intros; simpl; constructor; [|apply IH].
  apply Z.mod_pos_bound. lia.
Qed.
Lemma bytes_wf_reverse l : bytes_wf (reverse l) ↔ bytes_wf l.
Proof. unfold bytes_wf. by rewrite reverse_Permutation. Qed.
Lemma be_bytes_wf n z : bytes_wf (be_bytes n z).
Proof. apply bytes_wf_reverse, le_bytes_wf. Qed.

Lemma le_val_bound l : bytes_wf l → 0 ≤ le_val l < 256 ^ Z.of_nat (length l).
Proof.
  induction 1 as [|b l Hb Hl IH]; simpl; [lia|].
  rewrite Nat2Z.inj_succ, Z.pow_succ_r by lia. lia.
Qed.
Lemma be_val_bound l : bytes_wf l → 0 ≤ be_val l < 256 ^ Z.of_nat (length l).
Proof.
  intros. unfold be_val. rewrite <- (length_reverse l).
  apply le_val_bound. by apply bytes_wf_reverse.
Qed.

Lemma le_val_bytes n z : le_val (le_bytes n z) = z mod 256 ^ Z.of_nat n.
Proof.
  revert z. induction n as [|n IH]; intros; simpl; [by rewrite Z.mod_1_r|].
  rewrite IH, Nat2Z.inj_succ, Z.pow_succ_r, Z.rem_mul_r by lia. lia.
Qed.
Lemma be_val_bytes n z : be_val (be_bytes n z) = z mod 256 ^ Z.of_nat n.
Proof. unfold be_val, be_bytes. by rewrite reverse_involutive, le_val_bytes. Qed.

Lemma le_bytes_add n k z : le_bytes (n + k) z = le_bytes n z ++ le_bytes k (z / 256 ^ Z.of_nat n).
Proof.
  revert z. induction n as [|n IH]; intros z; [by rewrite Z.div_1_r|]. cbn [le_bytes Nat.add app]. f_equal.
  rewrite IH, Nat2Z.inj_succ, Z.pow_succ_r by lia. do 2 f_equal. apply Z.div_div; lia.
Qed.
Lemma le_bytes_mod n z : le_bytes n (z mod 256 ^ Z.of_nat n) = le_bytes n z.
Proof.
  revert z. induction n as [|n IH]; intros z; [done|]. cbn [le_bytes].
  rewrite Nat2Z.inj_succ, Z.pow_succ_r by lia. assert (0 < 256 ^ Z.of_nat n) by (apply Z.pow_pos_nonneg; lia).
  rewrite Z.rem_mul_r by lia. rewrite (Z.mul_comm 256), Z.mod_add, Z.mod_mod, Z.div_add by lia. f_equal.
  rewrite (Z.div_small (z mod 256)), Z.add_0_l by (apply Z.mod_pos_bound; lia). apply IH.
Qed.

Lemma le_bytes_val l : bytes_wf l → le_bytes (length l) (le_val l) = l.
Proof.
  induction 1 as [|b l Hb Hl IH]; simpl; [done|].
  replace (b + 256 * le_val l) with (b + le_val l * 256) by lia.
  rewrite Z.mod_add, Z.div_add, Z.mod_small, Z.div_small by lia.
  by rewrite Z.add_0_l, IH.
Qed.
Lemma be_bytes_val l : bytes_wf l → be_bytes (length l) (be_val l) = l.
Proof.
  intros. unfold be_val, be_bytes. rewrite <- (length_reverse l).
  rewrite le_bytes_val by (by apply bytes_wf_reverse). apply reverse_involutive.
Qed.
Lemma le_val_app l k :
  le_val (l ++ k) = le_val l + 256 ^ Z.of_nat (length l) * le_val k.
Proof.
  induction l as [|b l IH]; simpl; [lia|].
  rewrite IH, Nat2Z.inj_succ, Z.pow_succ_r by lia. lia.
Qed.
Lemma be_val_app l k :
  be_val (l ++ k) = be_val l * 256 ^ Z.of_nat (length k) + be_val k.
Proof. unfold be_val. rewrite reverse_app, le_val_app, length_reverse. lia. Qed.
Lemma be_val_cons b l :
  be_val (b :: l) = b * 256 ^ Z.of_nat (length l) + be_val l.
Proof.
  change (b :: l) with ([b] ++ l). rewrite be_val_app. unfold be_val at 1. simpl. lia.
Qed.

(** ** Byte memory

    An object of the C program (a mapping, a buffer) is the list of its bytes;
    an access outside it is a fault. *)

Definition mread (m : list Z) (pos n : nat) : result (list Z) :=
  if decide (pos + n ≤ length m)%nat then Ret (take n (drop pos m))
  else Fault OutOfBounds.
Definition mwrite (m : list Z) (pos : nat) (bs : list Z) : result (list Z) :=
  if decide (pos + length bs ≤ length m)%nat
  then Ret (take pos m ++ bs ++ drop (pos + length bs) m)
  else Fault OutOfBounds.
(** [memset(&m[pos], v, n)] *)
Definition mset (m : list Z) (pos : nat) (v : Z) (n : nat) : result (list Z) :=
  mwrite m pos (replicate n v).

(** Looking at one byte, and at a byte of a written region. *)
Definition mget (m : list Z) (pos : nat) : result Z := of_option OutOfBounds (m !! pos).

Section memory_laws.
Context (m : list Z) (pos : nat) (bs : list Z).
Hypothesis Hin : (pos + length bs ≤ length m)%nat.

Lemma mwrite_ret : mwrite m pos bs = Ret (take pos m ++ bs ++ drop (pos + length bs) m).
Proof. unfold mwrite. by rewrite decide_True. Qed.
Lemma length_mwrite : length (take pos m ++ bs ++ drop (pos + length bs) m) = length m.
Proof. rewrite !length_app, length_take, length_drop. lia. Qed.
Lemma mwrite_read_same :
  mread (take pos m ++ bs ++ drop (pos + length bs) m) pos (length bs) = Ret bs.
Proof.
  unfold mread. rewrite decide_True by (rewrite length_mwrite; done).
  rewrite drop_app_length' by (rewrite length_take; lia).
  by rewrite take_app_length.
Qed.
End memory_laws.

Lemma mwrite_inv m pos bs m' :
  mwrite m pos bs = Ret m' →
  (pos + length bs ≤ length m)%nat ∧ m' = take pos m ++ bs ++ drop (pos + length bs) m.
Proof. unfold mwrite. case_decide; naive_solver. Qed.
Lemma mwrite_length m pos bs m' : mwrite m pos bs = Ret m' → length m' = length m.
Proof. intros [? ->]%mwrite_inv. by apply length_mwrite. Qed.
Lemma mwrite_wf m pos bs m' :
  bytes_wf m → bytes_wf bs → mwrite m pos bs = Ret m' → bytes_wf m'.
Proof.
  intros Hm Hb [? ->]%mwrite_inv. unfold bytes_wf in *.
  rewrite !Forall_app. split_and!; auto using Forall_take, Forall_drop.
Qed.
(** Bytes before and after a write are kept. *)
Lemma mwrite_lookup_out m pos bs m' i :
  mwrite m pos bs = Ret m' → (i < pos ∨ pos + length bs ≤ i)%nat → m' !! i = m !! i.
Proof.
  intros [? ->]%mwrite_inv [Hi|Hi].
  - rewrite lookup_app_l by (rewrite length_take; lia). by apply lookup_take_lt.
  - rewrite lookup_app_r by (rewrite length_take; lia). rewrite length_take.
    rewrite lookup_app_r by lia. rewrite lookup_drop. f_equal. lia.
Qed.
Lemma mwrite_lookup_in m pos bs m' i :
  mwrite m pos bs = Ret m' → (i < length bs)%nat → m' !! (pos + i)%nat = bs !! i.
Proof.
  intros [? ->]%mwrite_inv Hi.
  rewrite lookup_app_r by (rewrite length_take; lia). rewrite length_take.
  rewrite lookup_app_l by lia. f_equal. lia.
Qed.

(** Two adjacent writes are one. *)
Lemma mwrite_app m pos a b m1 m2 :
  mwrite m pos a = Ret m1 → mwrite m1 (pos + length a) b = Ret m2 →
  mwrite m pos (a ++ b) = Ret m2.
Proof.
  intros Hm1 Hm2. pose proof (mwrite_length _ _ _ _ Hm1) as Hl.
  apply mwrite_inv in Hm1 as [H1 ->]. apply mwrite_inv in Hm2 as [H2 ->]. rewrite Hl in H2.
  assert (length (take pos m ++ a) = pos + length a)%nat as Hpa
    by (rewrite length_app, length_take; lia).
  rewrite mwrite_ret by (rewrite length_app; lia). f_equal.
  rewrite (app_assoc _ a (drop (pos + length a) m)).
  rewrite take_app_length' by done. rewrite drop_app_ge by lia.
  rewrite Hpa, drop_drop, length_app, <- !app_assoc. do 4 f_equal. lia.
Qed.
Lemma mwrite_nil m pos : (pos ≤ length m)%nat → mwrite m pos [] = Ret m.
Proof. intros. rewrite mwrite_ret by (simpl; lia). simpl. by rewrite Nat.add_0_r, take_drop. Qed.

(** Accesses to an object given by its parts. *)
Lemma mwrite_at m (a b c b' : list Z) k :
  m = a ++ b ++ c → k = length a → length b' = length b →
  mwrite m k b' = Ret (a ++ b' ++ c).
Proof.
  intros -> -> Hl. rewrite mwrite_ret by (rewrite !length_app; lia).
  rewrite take_app_length, Hl. do 3 f_equal.
  rewrite (app_assoc a b c). apply drop_app_length'. by rewrite length_app.
Qed.
Lemma mread_at m (a b c : list Z) k n :
  m = a ++ b ++ c → k = length a → n = length b → mread m k n = Ret b.
Proof.
  intros -> -> ->. unfold mread. rewrite decide_True by (rewrite !length_app; lia).
  by rewrite drop_app_length, take_app_length.
Qed.

Lemma split_at {A} n (l : list A) :
  (n ≤ length l)%nat → ∃ a b, l = a ++ b ∧ length a = n.
Proof. intros. exists (take n l), (drop n l). by rewrite take_drop, length_take_le. Qed.

(** ** Proof automation *)

Create HintDb cbytes.
Create Rewrite HintDb clen.
#[export] Hint Resolve le_bytes_wf be_bytes_wf u8_range u32_range : cbytes.
#[export] Hint Resolve Forall_nil_2 Forall_cons_2 Forall_app_2 Forall_take Forall_drop : cbytes.
#[export] Hint Rewrite length_le_bytes length_be_bytes @length_app @length_take
  @length_drop @length_replicate @length_reverse : clen.

(** Take a monadic run apart step by step. *)
Ltac run_inv :=
  repeat match goal with
  | H : mbind _ _ = Ret _ |- _ =>
      let a := fresh "r" in let Ha := fresh "Hr" in
      apply bind_ret_inv in H; destruct H as (a & Ha & H)
  | H : mret _ = Ret _ |- _ => injection H as H
  | H : Ret _ = Ret _ |- _ => injection H as H
  | H : Fault _ = Ret _ |- _ => discriminate H
  end.
(** Case analysis on the tests of the code, with the facts they decide. *)
Ltac case_tests :=
  repeat match goal with
  | |- context [if ?b then _ else _] => let E := fresh "Etest" in destruct b eqn:E
  | H : context [if ?b then _ else _] |- _ => let E := fresh "Etest" in destruct b eqn:E
  end.
