(* ===== verification/CLib.v ===== *)
(** * The platform and the parts of the C library the sources use

    The implementation-defined choices of the target (byte order, signedness
    of [char], width of [long]) are fields of [Arch]; the string and number
    functions of the C library ([strchr], [strtoul], [sprintf], ...) are
    written out as the C standard describes them.  A C string is the list of
    its bytes before the terminating NUL. *)

From S2P Require Import Prelude.
Open Scope Z_scope.
Open Scope cint_scope.

(** ** The target *)

Class Arch := {
  big_endian : bool;      (** ath79, powerpc: [true]; bcm47xx, x86, arm: [false] *)
  char_signed : bool;     (** mips, x86: [true]; arm: [false] *)
  long_bits : Z;          (** width of [unsigned long] *)
  long_bits_ok : long_bits = 32 ∨ long_bits = 64
}.

Definition mipsel : Arch :=
  {| big_endian := false; char_signed := true; long_bits := 32; long_bits_ok := or_introl eq_refl |}.
Definition mips_be : Arch :=
  {| big_endian := true; char_signed := true; long_bits := 32; long_bits_ok := or_introl eq_refl |}.
Definition arm : Arch :=
  {| big_endian := false; char_signed := false; long_bits := 32; long_bits_ok := or_introl eq_refl |}.
Definition x86_64 : Arch :=
  {| big_endian := false; char_signed := true; long_bits := 64; long_bits_ok := or_intror eq_refl |}.

(** ** Words in memory *)

Section words.
Context {A : Arch}.

(** The bytes of a [uint32_t] object, and back. *)
Definition u32_bytes (z : Z) : list Z :=
  if big_endian then be_bytes 4 z else le_bytes 4 z.
Definition u32_of (l : list Z) : Z := if big_endian then be_val l else le_val l.

Definition htonl (z : Z) : Z := if big_endian then u32 z else be_val (le_bytes 4 z).
Definition ntohl (z : Z) : Z := htonl z.

(** The value of a plain [char] that holds byte [b]. *)
Definition char_val (b : Z) : Z := if char_signed && (128 <=? b) then b - 256 else b.

Definition ULONG_MAX : Z := 2 ^ long_bits - 1.

Lemma length_u32_bytes z : length (u32_bytes z) = 4%nat.
Proof. unfold u32_bytes. case_match; [apply length_be_bytes|apply length_le_bytes]. Qed.
Lemma u32_bytes_wf z : bytes_wf (u32_bytes z).
Proof. unfold u32_bytes. case_match; auto with cbytes. Qed.
Lemma u32_of_bytes z : u32_of (u32_bytes z) = u32 z.
Proof.
  unfold u32_of, u32_bytes. case_match; [rewrite be_val_bytes|rewrite le_val_bytes]; done.
Qed.
Lemma u32_bytes_of l : bytes_wf l → length l = 4%nat → u32_bytes (u32_of l) = l.
Proof.
  intros Hl H4. unfold u32_of, u32_bytes. rewrite <- H4.
  case_match; [by apply be_bytes_val|by apply le_bytes_val].
Qed.
Lemma u32_of_range l : bytes_wf l → length l = 4%nat → 0 ≤ u32_of l < 2 ^ 32.
Proof.
  intros Hl H4. unfold u32_of.
  case_match; [pose proof (be_val_bound l Hl)|pose proof (le_val_bound l Hl)];
    rewrite H4 in *; simpl in *; lia.
Qed.
(** [ntohl] of the host word that holds the bytes [l] is their big-endian value. *)
Lemma ntohl_of l : bytes_wf l → length l = 4%nat → ntohl (u32_of l) = be_val l.
Proof.
  intros Hl H4. pose proof (be_val_bound l Hl) as Hb. rewrite H4 in Hb.
  unfold ntohl, htonl, u32_of. case_match; [by apply u32_small|].
  by rewrite <- H4, le_bytes_val.
Qed.
Lemma u32_bytes_htonl z : u32_bytes (htonl z) = be_bytes 4 z.
Proof.
  unfold u32_bytes, htonl. case_match.
  - unfold u32. rewrite <- (be_val_bytes 4), <- (length_be_bytes 4 z) at 1.
    rewrite length_be_bytes. rewrite <- (be_bytes_val (be_bytes 4 z)) at 2 by auto with cbytes.
    by rewrite length_be_bytes.
  - rewrite <- (le_bytes_val (be_bytes 4 z)) by auto with cbytes.
    rewrite length_be_bytes. f_equal.
Qed.
End words.

(** ** Strings *)

(** A string literal of the source. *)
Definition cs (s : string) : list Z :=
  (λ c, Z.of_N (Ascii.N_of_ascii c)) <$> String.list_ascii_of_string s.

(** A well-formed C string value: no NUL inside. *)
Definition cstr_wf (s : list Z) : Prop := Forall (λ b, 0 < b < 256) s.
#[export] Instance cstr_wf_dec s : Decision (cstr_wf s).
Proof. apply _. Defined.

(** [strchr(s, c)]: the index of the first [c]. *)
Fixpoint strchr (s : list Z) (c : Z) : option nat :=
  match s with
  | [] => None
  | b :: s => if b =? c then Some O else S <$> strchr s c
  end.

(** The C string that starts at a position of an object; running off the end
    of the object is a fault. *)
Fixpoint cstr_scan (l : list Z) : option (list Z) :=
  match l with
  | [] => None
  | b :: l => if b =? 0 then Some [] else cons b <$> cstr_scan l
  end.
Definition cstr_at (m : list Z) (pos : nat) : result (list Z) :=
  of_option OutOfBounds (cstr_scan (drop pos m)).

Lemma cstr_scan_app s r : cstr_wf s → cstr_scan (s ++ 0 :: r) = Some s.
Proof.
  induction 1 as [|b s Hb Hs IH]; simpl; [done|].
  by rewrite (proj2 (Z.eqb_neq b 0)), IH by lia.
Qed.
Lemma cstr_at_app p s r k : cstr_wf s → k = length p → cstr_at (p ++ s ++ 0 :: r) k = Ret s.
Proof.
  intros Hs ->. unfold cstr_at. by rewrite drop_app_length, cstr_scan_app.
Qed.
Lemma strchr_app n c v : c ∉ n → strchr (n ++ c :: v) c = Some (length n).
Proof.
  induction n as [|b n IH]; intros Hc; simpl; [by rewrite Z.eqb_refl|].
  apply not_elem_of_cons in Hc as [Hb Hc].
  by rewrite (proj2 (Z.eqb_neq b c)), IH by congruence.
Qed.

Definition isspace (c : Z) : bool := ((9 <=? c) && (c <=? 13)) || (c =? 32).
(** The value of an alphanumeric digit in the widest base. *)
Definition digit_val (c : Z) : option Z :=
  if (48 <=? c) && (c <=? 57) then Some (c - 48)
  else if (97 <=? c) && (c <=? 122) then Some (c - 87)
  else if (65 <=? c) && (c <=? 90) then Some (c - 55)
  else None.
Definition is_digit (base c : Z) : bool :=
  match digit_val c with Some d => d <? base | None => false end.

Fixpoint skip_spaces (s : list Z) : list Z :=
  match s with
  | [] => []
  | c :: s' => if isspace c then skip_spaces s' else s
  end.

(** Read digits as long as there are any: the value and the rest. *)
Fixpoint digits_run (base : Z) (s : list Z) (acc : Z) : Z * list Z :=
  match s with
  | [] => (acc, [])
  | c :: s' =>
      match digit_val c with
      | Some d => if d <? base then digits_run base s' (acc * base + d) else (acc, s)
      | None => (acc, s)
      end
  end.

(** The "0x" prefix and base detection of [strtoul]. *)
Definition strtoul_base (s : list Z) (base : Z) : Z * list Z :=
  match s with
  | z :: x :: d :: r =>
      if ((base =? 0) || (base =? 16)) && (z =? 48) && ((x =? 120) || (x =? 88)) && is_digit 16 d
      then (16, d :: r)
      else if base =? 0 then (if z =? 48 then 8 else 10, s) else (base, s)
  | z :: _ => if base =? 0 then (if z =? 48 then 8 else 10, s) else (base, s)
  | [] => (if base =? 0 then 10 else base, s)
  end.

(** [strtoul(s, &r, base)]: the value and the string at [r]. *)
Definition strtoul `{Arch} (s : list Z) (base : Z) : Z * list Z :=
  let s1 := skip_spaces s in
  let '(neg, s2) :=
    match s1 with
    | c :: r => if c =? 45 then (true, r) else if c =? 43 then (false, r) else (false, s1)
    | [] => (false, s1)
    end in
  let '(b, s3) := strtoul_base s2 base in
  match s3 with
  | d :: _ =>
      if is_digit b d then
        let '(v, r) := digits_run b s3 0 in
        (if ULONG_MAX <? v then ULONG_MAX else if neg then (- v) mod 2 ^ long_bits else v, r)
      else (0, s)
  | [] => (0, s)
  end.

(** Does [strtoul] set [errno] to [ERANGE]? *)
Definition strtoul_erange `{Arch} (s : list Z) (base : Z) : bool :=
  let s1 := skip_spaces s in
  let s2 := match s1 with
            | c :: r => if (c =? 45) || (c =? 43) then r else s1
            | [] => s1
            end in
  let '(b, s3) := strtoul_base s2 base in
  match s3 with
  | d :: _ => is_digit b d && (ULONG_MAX <? (digits_run b s3 0).1)
  | [] => false
  end.

(** ** Number formatting *)

(** The digits of [v], most significant first; [fuel] bounds their number. *)
Fixpoint digits_of (base : Z) (fuel : nat) (v : Z) (acc : list Z) : list Z :=
  match fuel with
  | O => acc
  | S f =>
      let acc := v mod base :: acc in
      if v / base =? 0 then acc else digits_of base f (v / base) acc
  end.
Definition hexdig (upper : bool) (d : Z) : Z :=
  if d <? 10 then 48 + d else if upper then 55 + d else 87 + d.
(** ["%0<width>X"] / ["%0<width>x"] of a 32-bit value. *)
Definition fmt_hex (upper : bool) (width : nat) (v : Z) : list Z :=
  let ds := digits_of 16 8 v [] in
  replicate (width - length ds) 48 ++ (hexdig upper <$> ds).
(** ["%u"] of a 32-bit value. *)
Definition fmt_u (v : Z) : list Z := (λ d, 48 + d) <$> digits_of 10 10 v [].

(** The value digits denote. *)
Definition digits_value (base : Z) (ds : list Z) (acc : Z) : Z :=
  foldl (λ a d, a * base + d) acc ds.

Lemma digits_of_ok base fuel v acc :
  1 < base → 0 ≤ v < base ^ Z.of_nat fuel → (0 < fuel)%nat →
  Forall (λ d, 0 ≤ d < base) acc →
  Forall (λ d, 0 ≤ d < base) (digits_of base fuel v acc) ∧
  digits_value base (digits_of base fuel v acc) 0 = digits_value base acc v ∧
  digits_of base fuel v acc ≠ [].
Proof.
  intros Hb. revert v acc. induction fuel as [|f IH]; intros v acc Hv Hf Hacc; [lia|].
  simpl. pose proof (Z.mod_pos_bound v base ltac:(lia)).
  pose proof (Z.div_mod v base ltac:(lia)) as Hdm.
  rewrite Nat2Z.inj_succ, Z.pow_succ_r in Hv by lia.
  destruct (Z.eqb_spec (v / base) 0) as [E|E].
  - split_and!; [by constructor| |done]. unfold digits_value. simpl.
    f_equal. rewrite E in Hdm. lia.
  - assert (0 ≤ v / base) by (apply Z.div_pos; lia).
    assert (v / base < base ^ Z.of_nat f) by (apply Z.div_lt_upper_bound; lia).
    destruct f as [|f]; [simpl in *; lia|].
    destruct (IH (v / base) (v mod base :: acc)) as (IH1 & IH2 & IH3); [lia|lia|by constructor|].
    split_and!; [done| |done]. rewrite IH2. unfold digits_value. simpl. f_equal. lia.
Qed.

Lemma hexdig_digit upper d : 0 ≤ d < 16 → digit_val (hexdig upper d) = Some d.
Proof.
  intros Hd. unfold digit_val, hexdig.
  destruct upper, (Z.ltb_spec d 10);
    repeat (match goal with |- context [?a <=? ?b] => destruct (Z.leb_spec a b) end; simpl);
    solve [lia | f_equal; lia].
Qed.
Lemma hexdig_range upper d : 0 ≤ d < 16 → 48 ≤ hexdig upper d ≤ 102.
Proof. intros. unfold hexdig. case_match; [|case_match]; lia. Qed.

(** Reading back a run of digits. *)
Lemma digits_run_map base (f : Z → Z) ds rest acc :
  Forall (λ d, 0 ≤ d < base ∧ digit_val (f d) = Some d) ds →
  match rest with [] => True | c :: _ => is_digit base c = false end →
  digits_run base ((f <$> ds) ++ rest) acc = (digits_value base ds acc, rest).
Proof.
  intros Hds Hr. revert acc. induction Hds as [|d ds [Hd Hf] Hds IH]; intros acc; simpl.
  - destruct rest as [|c r]; simpl; [done|]. unfold is_digit in Hr.
    destruct (digit_val c); [by rewrite Hr|done].
  - rewrite Hf, (proj2 (Z.ltb_lt d base)) by lia. apply IH.
Qed.

Lemma digits_value_zeros base n acc ds :
  digits_value base (replicate n 0 ++ ds) (acc * 0) = digits_value base ds 0.
Proof.
  rewrite Z.mul_0_r. unfold digits_value. rewrite foldl_app. f_equal.
  induction n as [|n IH]; simpl; [done|]. by rewrite Z.mul_0_l, Z.add_0_l.
Qed.

(** [fmt_hex] as a digit list. *)
Lemma fmt_hex_digits upper width v :
  0 ≤ v < 2 ^ 32 →
  ∃ ds, fmt_hex upper width v = hexdig upper <$> ds ∧ ds ≠ [] ∧
        Forall (λ d, 0 ≤ d < 16) ds ∧ digits_value 16 ds 0 = v.
Proof.
  intros Hv. destruct (digits_of_ok 16 8 v []) as (Hd & Hval & Hne); [lia..|by constructor|].
  exists (replicate (width - length (digits_of 16 8 v [])) 0 ++ digits_of 16 8 v []).
  split_and!.
  - unfold fmt_hex. rewrite fmap_app, fmap_replicate. done.
  - intros [_ ?]%app_eq_nil. done.
  - apply Forall_app. split; [|done]. apply Forall_replicate. lia.
  - pose proof (digits_value_zeros 16 (width - length (digits_of 16 8 v [])) 0 (digits_of 16 8 v [])) as Hz.
    rewrite Z.mul_0_r in Hz. by rewrite Hz, Hval.
Qed.

Lemma fmt_hex_wf upper width v : 0 ≤ v < 2 ^ 32 → cstr_wf (fmt_hex upper width v).
Proof.
  intros (ds & -> & _ & Hds & _)%(fmt_hex_digits upper width v).
  unfold cstr_wf. apply Forall_fmap. eapply Forall_impl; [exact Hds|].
  intros d Hd. pose proof (hexdig_range upper d Hd). simpl. lia.
Qed.

Lemma strtoul_0x `{Arch} d r :
  is_digit 16 d = true →
  strtoul (cs "0x" ++ d :: r) 0 =
    let '(v, r') := digits_run 16 (d :: r) 0 in
    (if ULONG_MAX <? v then ULONG_MAX else v, r').
Proof.
  intros Hd. unfold strtoul. change (cs "0x" ++ d :: r) with (48 :: 120 :: d :: r).
  simpl skip_spaces. cbv beta iota zeta delta [Z.eqb Pos.eqb].
  unfold strtoul_base. rewrite Hd. cbv beta iota zeta delta [Z.eqb Pos.eqb andb orb].
  by rewrite Hd.
Qed.
(** The round trip of ["0x%0<width>X"] through [strtoul(s, NULL, 0)]. *)
Lemma strtoul_fmt_hex `{Arch} upper width v :
  0 ≤ v < 2 ^ 32 → strtoul (cs "0x" ++ fmt_hex upper width v) 0 = (v, []).
Proof.
  intros Hv. destruct (fmt_hex_digits upper width v Hv) as (ds & -> & Hne & Hds & Hval).
  destruct ds as [|d ds]; [done|].
  assert (Forall (λ d, 0 ≤ d < 16 ∧ digit_val (hexdig upper d) = Some d) (d :: ds)) as Hall.
  { eapply Forall_impl; [exact Hds|]. intros x Hx. split; [done|by apply hexdig_digit]. }
  pose proof (digits_run_map 16 (hexdig upper) (d :: ds) [] 0 Hall I) as Hrun.
  rewrite app_nil_r, Hval in Hrun.
  assert (is_digit 16 (hexdig upper d) = true) as Hdig.
  { apply Forall_cons in Hall as [[Hd Hdv] _]. unfold is_digit. rewrite Hdv. apply Z.ltb_lt. lia. }
  rewrite fmap_cons in Hrun |- *. rewrite strtoul_0x, Hrun by done.
  replace (ULONG_MAX <? v) with false; [done|].
  symmetry. apply Z.ltb_ge. unfold ULONG_MAX. destruct long_bits_ok as [->| ->]; lia.
Qed.

(** Decimal digits. *)
Lemma dec_digit d : 0 ≤ d < 10 → digit_val (48 + d) = Some d.
Proof.
  intros. unfold digit_val. rewrite (proj2 (Z.leb_le 48 _)), (proj2 (Z.leb_le _ 57)) by lia.
  cbn [andb]. f_equal. lia.
Qed.
Lemma fmt_u_digits v :
  0 ≤ v < 2 ^ 32 →
  ∃ ds, fmt_u v = (λ d, 48 + d) <$> ds ∧ ds ≠ [] ∧ Forall (λ d, 0 ≤ d < 10) ds ∧ digits_value 10 ds 0 = v.
Proof.
  intros Hv. destruct (digits_of_ok 10 10 v []) as (Hd & Hval & Hne); [lia..|by constructor|].
  by exists (digits_of 10 10 v []).
Qed.
Lemma fmt_u_chars v : 0 ≤ v < 2 ^ 32 → Forall (λ c, 48 ≤ c ≤ 57) (fmt_u v) ∧ fmt_u v ≠ [].
Proof.
  intros (ds & -> & Hne & Hds & _)%fmt_u_digits. split; [|by destruct ds].
  apply Forall_fmap. eapply Forall_impl; [exact Hds|]. simpl. lia.
Qed.

(** The round trip of ["%u"] through [strtoul(s, &r, 10)]. *)
Lemma strtoul_fmt_u `{Arch} v : 0 ≤ v < 2 ^ 32 → strtoul (fmt_u v) 10 = (v, []).
Proof.
  intros Hv. destruct (fmt_u_digits v Hv) as (ds & -> & Hne & Hds & Hval).
  destruct ds as [|d ds]; [done|].
  assert (Forall (λ d, 0 ≤ d < 10 ∧ digit_val (48 + d) = Some d) (d :: ds)) as Hall.
  { eapply Forall_impl; [exact Hds|]. intros x Hx. split; [done|by apply dec_digit]. }
  pose proof (digits_run_map 10 (λ d, 48 + d) (d :: ds) [] 0 Hall I) as Hrun.
  rewrite app_nil_r, Hval in Hrun. apply Forall_cons in Hds as [Hd _].
  rewrite fmap_cons in Hrun |- *. set (c := 48 + d) in *. set (r := (λ d, 48 + d) <$> ds) in *.
  assert (isspace c = false ∧ (c =? 45) = false ∧ (c =? 43) = false) as (H1 & H2 & H3).
  { unfold isspace, c. rewrite (proj2 (Z.leb_gt _ 13)), andb_false_r by lia.
    rewrite !(proj2 (Z.eqb_neq _ _)) by lia. done. }
  assert (strtoul_base (c :: r) 10 = (10, c :: r)) as Hb by (by destruct r as [|? [|??]]).
  assert (is_digit 10 c = true) as Hdig.
  { unfold is_digit, c. rewrite dec_digit by done. apply Z.ltb_lt. lia. }
  unfold strtoul. cbn [skip_spaces]. rewrite H1, H2, H3, Hb, Hdig, Hrun.
  replace (ULONG_MAX <? v) with false; [done|].
  symmetry. apply Z.ltb_ge. unfold ULONG_MAX. destruct long_bits_ok as [->| ->]; lia.
Qed.

Lemma strchr_notin s c : c ∉ s → strchr s c = None.
Proof.
  induction s as [|b s IH]; intros Hc; [done|]. apply not_elem_of_cons in Hc as [Hb Hc]. cbn.
  by rewrite (proj2 (Z.eqb_neq b c)), IH by congruence.
Qed.
