(* ===== verification/Crc8.v ===== *)
(** * CRC-8 of the nvram library (package/utils/nvram/src/crc.c)

    [hndcrc8] is the table-driven loop of the source; [crc8_serial] is the
    bit-serial division by the polynomial the comment of crc.c names
    (x^8 + x^7 + x^6 + x^4 + x^2 + 1, least significant bit first: 0xAB). *)

From S2P Require Import Prelude CLib.
Open Scope Z_scope.
Open Scope cint_scope.

Module Crc8.

Definition crc8_table : list Z := [
   0x00; 0xF7; 0xB9; 0x4E; 0x25; 0xD2; 0x9C; 0x6B;
   0x4A; 0xBD; 0xF3; 0x04; 0x6F; 0x98; 0xD6; 0x21;
   0x94; 0x63; 0x2D; 0xDA; 0xB1; 0x46; 0x08; 0xFF;
   0xDE; 0x29; 0x67; 0x90; 0xFB; 0x0C; 0x42; 0xB5;
   0x7F; 0x88; 0xC6; 0x31; 0x5A; 0xAD; 0xE3; 0x14;
   0x35; 0xC2; 0x8C; 0x7B; 0x10; 0xE7; 0xA9; 0x5E;
   0xEB; 0x1C; 0x52; 0xA5; 0xCE; 0x39; 0x77; 0x80;
   0xA1; 0x56; 0x18; 0xEF; 0x84; 0x73; 0x3D; 0xCA;
   0xFE; 0x09; 0x47; 0xB0; 0xDB; 0x2C; 0x62; 0x95;
   0xB4; 0x43; 0x0D; 0xFA; 0x91; 0x66; 0x28; 0xDF;
   0x6A; 0x9D; 0xD3; 0x24; 0x4F; 0xB8; 0xF6; 0x01;
   0x20; 0xD7; 0x99; 0x6E; 0x05; 0xF2; 0xBC; 0x4B;
   0x81; 0x76; 0x38; 0xCF; 0xA4; 0x53; 0x1D; 0xEA;
   0xCB; 0x3C; 0x72; 0x85; 0xEE; 0x19; 0x57; 0xA0;
   0x15; 0xE2; 0xAC; 0x5B; 0x30; 0xC7; 0x89; 0x7E;
   0x5F; 0xA8; 0xE6; 0x11; 0x7A; 0x8D; 0xC3; 0x34;
   0xAB; 0x5C; 0x12; 0xE5; 0x8E; 0x79; 0x37; 0xC0;
   0xE1; 0x16; 0x58; 0xAF; 0xC4; 0x33; 0x7D; 0x8A;
   0x3F; 0xC8; 0x86; 0x71; 0x1A; 0xED; 0xA3; 0x54;
   0x75; 0x82; 0xCC; 0x3B; 0x50; 0xA7; 0xE9; 0x1E;
   0xD4; 0x23; 0x6D; 0x9A; 0xF1; 0x06; 0x48; 0xBF;
   0x9E; 0x69; 0x27; 0xD0; 0xBB; 0x4C; 0x02; 0xF5;
   0x40; 0xB7; 0xF9; 0x0E; 0x65; 0x92; 0xDC; 0x2B;
   0x0A; 0xFD; 0xB3; 0x44; 0x2F; 0xD8; 0x96; 0x61;
   0x55; 0xA2; 0xEC; 0x1B; 0x70; 0x87; 0xC9; 0x3E;
   0x1F; 0xE8; 0xA6; 0x51; 0x3A; 0xCD; 0x83; 0x74;
   0xC1; 0x36; 0x78; 0x8F; 0xE4; 0x13; 0x5D; 0xAA;
   0x8B; 0x7C; 0x32; 0xC5; 0xAE; 0x59; 0x17; 0xE0;
   0x2A; 0xDD; 0x93; 0x64; 0x0F; 0xF8; 0xB6; 0x41;
   0x60; 0x97; 0xD9; 0x2E; 0x45; 0xB2; 0xFC; 0x0B;
   0xBE; 0x49; 0x07; 0xF0; 0x9B; 0x6C; 0x22; 0xD5;
   0xF4; 0x03; 0x4D; 0xBA; 0xD1; 0x26; 0x68; 0x9F].

(** One step of the loop: [crc8_table[(crc ^ *pdata++) & 0xff]]. *)
Definition crc8_step (crc b : Z) : Z :=
  nth (Z.to_nat ((crc .^ b) .& 0xff)) crc8_table 0.

(** [hndcrc8(pdata, nbytes, crc)]; [pdata] is what is left of the object the
    pointer points into. *)
Fixpoint hndcrc8 (pdata : list Z) (nbytes : nat) (crc : Z) {struct nbytes} : result Z :=
  match nbytes with
  | O => Ret crc
  | S n =>
      match pdata with
      | [] => Fault OutOfBounds
      | b :: pdata => hndcrc8 pdata n (crc8_step crc b)
      end
  end.

(** ** Reference: bit-serial division *)

Definition crc8_bit (c : Z) : Z :=
  if Z.odd c then (c .>> 1) .^ 0xAB else c .>> 1.
Definition crc8_byte (crc b : Z) : Z := Nat.iter 8 crc8_bit (crc .^ b).
Definition crc8_serial (data : list Z) (crc : Z) : Z := foldl crc8_byte crc data.

(** ** Lemmas *)

Lemma crc8_index_byte x : 0 ≤ x < 256 → x .& 0xff = x.
Proof. intros. rewrite land_255. by apply Z.mod_small. Qed.

Lemma lxor_byte c b : 0 ≤ c < 256 → 0 ≤ b < 256 → 0 ≤ c .^ b < 256.
Proof. intros. by apply (lxor_range c b 8). Qed.

Lemma crc8_table_serial x :
  0 ≤ x < 256 → nth (Z.to_nat x) crc8_table 0 = Nat.iter 8 crc8_bit x.
Proof.
  intros Hx. apply Z.eqb_eq.
  by refine (byte_forall (λ x, nth (Z.to_nat x) crc8_table 0 =? Nat.iter 8 crc8_bit x) _ x Hx);
    vm_compute.
Qed.

Lemma crc8_step_serial c b :
  0 ≤ c < 256 → 0 ≤ b < 256 → crc8_step c b = crc8_byte c b.
Proof.
  intros. unfold crc8_step, crc8_byte.
  rewrite crc8_index_byte by (by apply lxor_byte). by apply crc8_table_serial, lxor_byte.
Qed.

Lemma crc8_step_range c b : 0 ≤ c < 256 → 0 ≤ b < 256 → 0 ≤ crc8_step c b < 256.
Proof.
  intros Hc Hb. pose proof (lxor_byte c b Hc Hb) as Hx. unfold crc8_step.
  rewrite crc8_index_byte by done.
  pose proof (byte_forall (λ x, (0 <=? nth (Z.to_nat x) crc8_table 0) &&
    (nth (Z.to_nat x) crc8_table 0 <? 256)) ltac:(vm_compute; reflexivity) _ Hx) as Ht.
  simpl in Ht. apply andb_prop in Ht as [?%Z.leb_le ?%Z.ltb_lt]. done.
Qed.

(** The table is a permutation of the bytes: it has a left inverse. *)
Definition crc8_inv (y : Z) : Z :=
  default 0 (head (filter (λ x, nth (Z.to_nat x) crc8_table 0 = y) (seqZ 0 256))).

Lemma crc8_table_inv x : 0 ≤ x < 256 → crc8_inv (nth (Z.to_nat x) crc8_table 0) = x.
Proof.
  intros Hx. apply Z.eqb_eq.
  by refine (byte_forall (λ x, crc8_inv (nth (Z.to_nat x) crc8_table 0) =? x) _ x Hx);
    vm_compute.
Qed.

Lemma crc8_step_inj c b c' b' :
  0 ≤ c < 256 → 0 ≤ b < 256 → 0 ≤ c' < 256 → 0 ≤ b' < 256 →
  crc8_step c b = crc8_step c' b' → c .^ b = c' .^ b'.
Proof.
  intros Hc Hb Hc' Hb' Heq. unfold crc8_step in Heq.
  rewrite !crc8_index_byte in Heq by (by apply lxor_byte).
  apply (f_equal crc8_inv) in Heq. by rewrite !crc8_table_inv in Heq by (by apply lxor_byte).
Qed.

(** The loop over a whole buffer, as a fold. *)
Lemma hndcrc8_foldl data rest crc :
  hndcrc8 (data ++ rest) (length data) crc = Ret (foldl crc8_step crc data).
Proof. revert crc. induction data; intros; simpl; auto. Qed.

Lemma hndcrc8_take data n crc :
  (n ≤ length data)%nat → hndcrc8 data n crc = Ret (foldl crc8_step crc (take n data)).
Proof.
  intros Hn. rewrite <- (hndcrc8_foldl (take n data) (drop n data)).
  by rewrite take_drop, length_take_le.
Qed.

Lemma crc8_foldl_range data crc :
  bytes_wf data → 0 ≤ crc < 256 → 0 ≤ foldl crc8_step crc data < 256.
Proof.
  intros Hd. revert crc. induction Hd as [|b data Hb Hd IH]; intros crc Hc; simpl; [done|].
  apply IH. by apply crc8_step_range.
Qed.

Lemma crc8_foldl_inj data c c' :
  bytes_wf data → 0 ≤ c < 256 → 0 ≤ c' < 256 →
  foldl crc8_step c data = foldl crc8_step c' data → c = c'.
Proof.
  intros Hd. revert c c'. induction Hd as [|b data Hb Hd IH]; intros c c' Hc Hc' Heq; [done|].
  apply IH in Heq; [|by apply crc8_step_range..].
  apply crc8_step_inj in Heq; [|done..].
  apply (f_equal (λ z, z .^ b)) in Heq.
  by rewrite !Z.lxor_assoc, !Z.lxor_nilpotent, !Z.lxor_0_r in Heq.
Qed.

(** Changing one byte changes the remainder. *)
Lemma crc8_foldl_byte l b b' r crc :
  bytes_wf l → bytes_wf r → 0 ≤ b < 256 → 0 ≤ b' < 256 → 0 ≤ crc < 256 →
  foldl crc8_step crc (l ++ b :: r) = foldl crc8_step crc (l ++ b' :: r) → b = b'.
Proof.
  intros Hl Hr Hb Hb' Hc Heq. rewrite !foldl_app in Heq. simpl in Heq.
  pose proof (crc8_foldl_range l crc Hl Hc) as Hc'.
  apply crc8_foldl_inj in Heq; [|done|by apply crc8_step_range..].
  apply crc8_step_inj in Heq; [|done..].
  apply (f_equal (Z.lxor (foldl crc8_step crc l))) in Heq.
  by rewrite <- !Z.lxor_assoc, !Z.lxor_nilpotent, !Z.lxor_0_l in Heq.
Qed.

(** ** Properties *)

(** C2: over any bytes and from any byte start value, the table loop of
    [hndcrc8] computes the bit-serial remainder by the polynomial
    x^8 + x^7 + x^6 + x^4 + x^2 + 1 of its comment, and never reads past the
    [nbytes] bytes it was given. *)
Theorem hndcrc8_polynomial data rest crc :
  bytes_wf data → 0 ≤ crc < 256 →
  hndcrc8 (data ++ rest) (length data) crc = Ret (crc8_serial data crc).
Proof.
  intros Hd Hc. rewrite hndcrc8_foldl. f_equal. revert crc Hc.
  induction Hd as [|b data Hb Hd IH]; intros crc Hc; simpl; [done|].
  rewrite IH by (by apply crc8_step_range). unfold crc8_serial. simpl.
  by rewrite crc8_step_serial.
Qed.

Lemma hndcrc8_polynomial_witness :
  hndcrc8 (cs "123456789" ++ [7]) 9 0xff = Ret (crc8_serial (cs "123456789") 0xff).
Proof.
  apply (hndcrc8_polynomial (cs "123456789") [7] 0xff); [|lia].
  apply (bool_decide_unpack _). vm_compute. exact I.
Defined.

(** the checksum detects every change of a single byte: two buffers that
    differ in exactly one byte never have the same CRC-8. *)
Theorem hndcrc8_detects_byte l b b' r crc :
  bytes_wf (l ++ b :: r) → 0 ≤ b' < 256 → 0 ≤ crc < 256 → b ≠ b' →
  hndcrc8 (l ++ b :: r) (length (l ++ b :: r)) crc ≠
  hndcrc8 (l ++ b' :: r) (length (l ++ b' :: r)) crc.
Proof.
  intros (Hl & Hbr)%Forall_app Hb' Hc Hne Heq.
  apply Forall_cons in Hbr as [Hb Hr].
  rewrite <- (app_nil_r (l ++ b :: r)), <- (app_nil_r (l ++ b' :: r)) in Heq at 1.
  rewrite !hndcrc8_foldl in Heq. injection Heq as Heq. by apply crc8_foldl_byte in Heq.
Qed.

Lemma hndcrc8_detects_byte_witness :
  hndcrc8 [1; 2; 3] 3 0xff ≠ hndcrc8 [1; 5; 3] 3 0xff.
Proof.
  apply (hndcrc8_detects_byte [1] 2 5 [3] 0xff); [|lia..].
  apply (bool_decide_unpack _). vm_compute. exact I.
Defined.

End Crc8.
