(* ===== verification/Nvram.v ===== *)
(** * The nvram variable table (package/utils/nvram/src/nvram.c)

    The handle with its 257 hash buckets, and the operations on the table:
    [hash], [_nvram_free], [_nvram_realloc], [nvram_get], [nvram_set],
    [nvram_unset], [nvram_getall].  The abstract view of a handle is a finite
    map from names to values; the operations refine its lookup, insert and
    delete.  Flash contents (rehash, commit, open) are in NvramFlash. *)

From S2P Require Import Prelude CLib.
Open Scope Z_scope.
Open Scope cint_scope.

Module Nvram.

(** ** State *)

(** [struct nvram_tuple]; the [next] links are the order of the bucket list.
    [t_value] is [None] for a NULL pointer. *)
Record tuple := Tuple { t_name : list Z; t_value : option (list Z) }.

#[export] Instance tuple_eq_dec : EqDecision tuple.
Proof. solve_decision. Defined.

(** [struct nvram_handle]; [h_base] is the address the partition is mapped at
    and [h_mmap] its bytes. *)
Record handle := Handle {
  h_base : Z;
  h_mmap : list Z;
  h_length : Z;
  h_offset : Z;
  h_hash : list (list tuple);
  h_dead : list tuple
}.

Definition NVRAM_BUCKETS : nat := 257.

Definition set_hash (f : list (list tuple) → list (list tuple)) (h : handle) : handle :=
  Handle (h_base h) (h_mmap h) (h_length h) (h_offset h) (f (h_hash h)) (h_dead h).
Definition set_dead (f : list tuple → list tuple) (h : handle) : handle :=
  Handle (h_base h) (h_mmap h) (h_length h) (h_offset h) (h_hash h) (f (h_dead h)).
Definition set_mmap (m : list Z) (h : handle) : handle :=
  Handle (h_base h) m (h_length h) (h_offset h) (h_hash h) (h_dead h).

(** The outcomes of the allocator calls to come; after the listed ones every
    call succeeds. *)
Abbreviation allocs := (list bool).
Definition malloc (al : allocs) : bool * allocs :=
  match al with [] => (true, []) | b :: al => (b, al) end.

Section ops.
Context {A : Arch}.

(** ** Operations *)

Definition hash (s : list Z) : Z := foldl (λ h c, u32 (31 * h + char_val c)) 0 s.

(** [hash(name) % NVRAM_ARRAYSIZE(h->nvram_hash)] *)
Definition bucket_of (name : list Z) : nat := Z.to_nat (hash name mod 257).
Definition bucket (h : handle) (i : nat) : list tuple := default [] (h_hash h !! i).

(** Free all tuples. *)
Definition _nvram_free (h : handle) : handle :=
  set_dead (λ _, []) (set_hash (λ _, replicate NVRAM_BUCKETS []) h).

(** What [_nvram_realloc] returns: NULL (with the tuple it was given as the
    call leaves it), or a tuple, [fresh] when it is not the one passed in. *)
Inductive realloc_res :=
  | RNull (t : option tuple)
  | RTuple (u : tuple) (fresh : bool).

(** "Copy value" of [_nvram_realloc]. *)
Definition copy_value (t : tuple) (fresh : bool) (value : list Z) (al : allocs)
    : realloc_res * allocs :=
  if bool_decide (t_value t = Some value) then (RTuple t fresh, al)
  else
    let '(ok, al) := malloc al in
    if ok then (RTuple (Tuple (t_name t) (Some value)) fresh, al)
    else (RNull (if fresh then None else Some (Tuple (t_name t) None)), al).

Definition _nvram_realloc (h : handle) (t : option tuple) (name value : list Z) (al : allocs)
    : realloc_res * allocs :=
  if u32 (h_length h - h_offset h) <? Z.of_nat (length value) + 1 then (RNull t, al)
  else
    match t with
    | Some t => copy_value t false value al
    | None =>
        let '(ok, al) := malloc al in
        if ok then copy_value (Tuple name None) true value al else (RNull None, al)
    end.

(** The search loops [for (...; t && strcmp(t->name, name); ...)]: the tuple
    found, between what precedes and what follows it. *)
Fixpoint find_tuple (name : list Z) (l : list tuple) : option (list tuple * tuple * list tuple) :=
  match l with
  | [] => None
  | t :: l =>
      if bool_decide (t_name t = name) then Some ([], t, l)
      else match find_tuple name l with
           | Some (pre, u, post) => Some (t :: pre, u, post)
           | None => None
           end
  end.

(** Get the value of an NVRAM variable. *)
Definition nvram_get (h : handle) (name : option (list Z)) : option (list Z) :=
  match name with
  | None => None
  | Some name =>
      match find_tuple name (bucket h (bucket_of name)) with
      | Some (_, t, _) => t_value t
      | None => None
      end
  end.

(** Set the value of an NVRAM variable. *)
Definition nvram_set (h : handle) (name value : list Z) (al : allocs)
    : Z * handle * allocs :=
  let i := bucket_of name in
  match find_tuple name (bucket h i) with
  | Some (pre, t, post) =>
      match _nvram_realloc h (Some t) name value al with
      | (RNull t', al) => (-12, set_hash (<[i := pre ++ default t t' :: post]>) h, al)
      | (RTuple u false, al) => (0, set_hash (<[i := pre ++ u :: post]>) h, al)
      | (RTuple u true, al) =>
          (0, set_hash (<[i := u :: pre ++ post]>) (set_dead (cons t) h), al)
      end
  | None =>
      match _nvram_realloc h None name value al with
      | (RNull _, al) => (-12, h, al)
      | (RTuple u _, al) => (0, set_hash (<[i := u :: bucket h i]>) h, al)
      end
  end.

(** Unset the value of an NVRAM variable. *)
Definition nvram_unset (h : handle) (name : option (list Z)) : Z * handle :=
  match name with
  | None => (0, h)
  | Some name =>
      let i := bucket_of name in
      match find_tuple name (bucket h i) with
      | Some (pre, t, post) => (0, set_hash (<[i := pre ++ post]>) (set_dead (cons t) h))
      | None => (0, h)
      end
  end.

(** Get all NVRAM variables: the inner loop stops at a failed allocation, the
    outer one goes on with the next bucket. *)
Fixpoint getall_bucket (b : list tuple) (l : list tuple) (al : allocs) : list tuple * allocs :=
  match b with
  | [] => (l, al)
  | t :: b =>
      let '(ok, al) := malloc al in
      if ok then getall_bucket b (t :: l) al else (l, al)
  end.
Fixpoint getall_buckets (bs : list (list tuple)) (l : list tuple) (al : allocs) : list tuple * allocs :=
  match bs with
  | [] => (l, al)
  | b :: bs => let '(l, al) := getall_bucket b l al in getall_buckets bs l al
  end.
Definition nvram_getall (h : handle) (al : allocs) : list tuple * allocs :=
  getall_buckets (h_hash h) [] al.

(** ** Invariant and abstract view *)

(** A bucket holds tuples of its own hash, each name once, with C strings. *)
Definition tuple_ok (i : nat) (t : tuple) : Prop :=
  bucket_of (t_name t) = i ∧ cstr_wf (t_name t) ∧ (∀ v, t_value t = Some v → cstr_wf v).
Definition bucket_ok (i : nat) (b : list tuple) : Prop :=
  NoDup (t_name <$> b) ∧ Forall (tuple_ok i) b.
Definition handle_ok (h : handle) : Prop :=
  length (h_hash h) = NVRAM_BUCKETS ∧ ∀ i, (i < NVRAM_BUCKETS)%nat → bucket_ok i (bucket h i).

Definition tuple_pair (t : tuple) : option (list Z * list Z) := pair (t_name t) <$> t_value t.

(** The variables a handle stores. *)
Definition view (h : handle) : gmap (list Z) (list Z) :=
  list_to_map (omap tuple_pair (mjoin (h_hash h))).

(** ** Lemmas on buckets *)

Lemma bucket_of_lt n : (bucket_of n < NVRAM_BUCKETS)%nat.
Proof.
  unfold bucket_of, NVRAM_BUCKETS. pose proof (Z.mod_pos_bound (hash n) 257). lia.
Qed.

Lemma find_tuple_Some n l pre t post :
  find_tuple n l = Some (pre, t, post) →
  l = pre ++ t :: post ∧ t_name t = n ∧ n ∉ t_name <$> pre.
Proof.
  revert pre. induction l as [|u l IH]; intros pre Hf; simpl in Hf; [done|].
  case_bool_decide as Hn; [simplify_eq; set_solver|].
  destruct (find_tuple n l) as [[[pre' t'] post']|]; simplify_eq.
  destruct (IH _ eq_refl) as (-> & <- & Hni). set_solver.
Qed.
Lemma find_tuple_None n l : find_tuple n l = None → n ∉ t_name <$> l.
Proof.
  induction l as [|u l IH]; simpl; [set_solver|].
  case_bool_decide; [done|]. destruct (find_tuple n l) as [[[??]?]|]; [done|]. set_solver.
Qed.

Definition get_in (n : list Z) (l : list tuple) : option (list Z) :=
  match find_tuple n l with Some (_, t, _) => t_value t | None => None end.

Lemma get_in_cons n t l :
  get_in n (t :: l) = if decide (t_name t = n) then t_value t else get_in n l.
Proof.
  unfold get_in. simpl. case_bool_decide; case_decide; [done..|].
  by destruct (find_tuple n l) as [[[??]?]|].
Qed.
Lemma get_in_app n pre l :
  get_in n (pre ++ l) = if decide (n ∈ t_name <$> pre) then get_in n pre else get_in n l.
Proof.
  induction pre as [|t pre IH]; simpl.
  - done.
  - rewrite !get_in_cons, IH. repeat case_decide; set_solver.
Qed.
Lemma get_in_notin n l : n ∉ t_name <$> l → get_in n l = None.
Proof.
  intros Hn. induction l as [|t l IH]; [done|]. rewrite get_in_cons.
  case_decide; [set_solver|]. apply IH. set_solver.
Qed.
(** Replacing the tuple found, and removing it. *)
Lemma get_in_replace n m pre t u post :
  t_name t = n → t_name u = n → n ∉ t_name <$> pre →
  get_in m (pre ++ u :: post) =
    if decide (m = n) then t_value u else get_in m (pre ++ t :: post).
Proof. intros. rewrite !get_in_app, !get_in_cons. repeat case_decide; set_solver. Qed.
Lemma get_in_remove n m pre t post :
  t_name t = n → NoDup (t_name <$> pre ++ t :: post) →
  get_in m (pre ++ post) = if decide (m = n) then None else get_in m (pre ++ t :: post).
Proof.
  intros Hn Hnd. rewrite fmap_app, fmap_cons in Hnd.
  apply NoDup_app in Hnd as (_ & Hni & [Hnp _]%NoDup_cons).
  rewrite !get_in_app, !get_in_cons. case_decide as Hmp; case_decide as Hmn; subst.
  - exfalso. apply (Hni _ Hmp). set_solver.
  - done.
  - by apply get_in_notin.
  - by rewrite decide_False by congruence.
Qed.

Lemma nvram_get_in h n : nvram_get h (Some n) = get_in n (bucket h (bucket_of n)).
Proof. done. Qed.

Lemma bucket_insert h i b j :
  length (h_hash h) = NVRAM_BUCKETS → (i < NVRAM_BUCKETS)%nat →
  bucket (set_hash (<[i := b]>) h) j = if decide (i = j) then b else bucket h j.
Proof.
  intros Hl Hi. unfold bucket. simpl. rewrite list_lookup_insert.
  repeat case_decide; naive_solver lia.
Qed.
Lemma bucket_set_dead h f j : bucket (set_dead f h) j = bucket h j.
Proof. done. Qed.

Lemma handle_ok_insert h i b :
  handle_ok h → (i < NVRAM_BUCKETS)%nat → bucket_ok i b →
  handle_ok (set_hash (<[i := b]>) h).
Proof.
  intros [Hl Hb] Hi Hok. split; [simpl; by rewrite length_insert|].
  intros j Hj. rewrite bucket_insert by done. case_decide; subst; auto.
Qed.
Lemma handle_ok_set_dead h f : handle_ok (set_dead f h) ↔ handle_ok h.
Proof. done. Qed.

(** Rewriting one bucket changes only the names that hash to it. *)
Lemma nvram_get_insert h i b m :
  handle_ok h → (i < NVRAM_BUCKETS)%nat →
  nvram_get (set_hash (<[i := b]>) h) (Some m) =
    if decide (i = bucket_of m) then get_in m b else nvram_get h (Some m).
Proof.
  intros [Hl _] Hi. rewrite !nvram_get_in, bucket_insert by done. by case_decide.
Qed.

Lemma bucket_ok_replace i pre t u post :
  bucket_ok i (pre ++ t :: post) → t_name u = t_name t → tuple_ok i u →
  bucket_ok i (pre ++ u :: post).
Proof.
  intros [Hnd Hf] Hn Hu. rewrite fmap_app, fmap_cons in Hnd.
  split; [by rewrite fmap_app, fmap_cons, Hn|].
  rewrite !Forall_app, !Forall_cons in *. naive_solver.
Qed.
Lemma bucket_ok_remove i pre t post :
  bucket_ok i (pre ++ t :: post) → bucket_ok i (pre ++ post).
Proof.
  intros [Hnd Hf]. rewrite fmap_app, fmap_cons in Hnd. split.
  - rewrite fmap_app. apply NoDup_app in Hnd as (? & Hd & [? ?]%NoDup_cons).
    apply NoDup_app. split_and!; [done|set_solver|done].
  - rewrite !Forall_app, !Forall_cons in *. naive_solver.
Qed.
Lemma bucket_ok_cons i t b :
  bucket_ok i b → t_name t ∉ t_name <$> b → tuple_ok i t → bucket_ok i (t :: b).
Proof. intros [Hnd Hf] Hn Ht. split; [by apply NoDup_cons|by constructor]. Qed.

(** ** The view is what [nvram_get] reads *)

Lemma bucket_lookup h i b : h_hash h !! i = Some b → bucket h i = b.
Proof. intros Hi. unfold bucket. by rewrite Hi. Qed.

Lemma elem_of_buckets h t :
  handle_ok h → t ∈ mjoin (h_hash h) ↔ t ∈ bucket h (bucket_of (t_name t)).
Proof.
  intros [Hl Hb]. rewrite list_elem_of_join. split.
  - intros (b & Ht & [i Hi]%list_elem_of_lookup).
    assert (i < NVRAM_BUCKETS)%nat as Hlt by (rewrite <- Hl; by eapply lookup_lt_Some).
    destruct (Hb i Hlt) as [_ Hf]. rewrite (bucket_lookup _ _ _ Hi) in Hf.
    rewrite Forall_forall in Hf. destruct (Hf t Ht) as [-> _]. by rewrite (bucket_lookup _ _ _ Hi).
  - intros Ht. exists (bucket h (bucket_of (t_name t))). split; [done|].
    destruct (lookup_lt_is_Some_2 (h_hash h) (bucket_of (t_name t))) as [b Hb'].
    { rewrite Hl. apply bucket_of_lt. }
    rewrite (bucket_lookup _ _ _ Hb'). by eapply list_elem_of_lookup_2.
Qed.

Lemma join_names_NoDup (bs : list (list tuple)) k :
  (∀ i b, bs !! i = Some b → bucket_ok (k + i)%nat b) → NoDup (t_name <$> mjoin bs).
Proof.
  revert k. induction bs as [|b bs IH]; intros k Hok; simpl; [constructor|].
  rewrite fmap_app. apply NoDup_app. split_and!.
  - by destruct (Hok 0%nat b eq_refl).
  - intros n (t & -> & Ht)%list_elem_of_fmap (t' & Hn & (b' & Ht' & [i Hi]%list_elem_of_lookup)%list_elem_of_join)%list_elem_of_fmap.
    destruct (Hok 0%nat b eq_refl) as [_ Hf]. destruct (Hok (S i) b' Hi) as [_ Hf'].
    rewrite Forall_forall in Hf. rewrite Forall_forall in Hf'.
    destruct (Hf t Ht) as [Hk _]. destruct (Hf' t' Ht') as [Hk' _].
    rewrite <- Hn, Hk in Hk'. lia.
  - apply (IH (S k)). intros i b' Hi. rewrite Nat.add_succ_l, <- Nat.add_succ_r. by apply Hok.
Qed.
Lemma handle_names_NoDup h : handle_ok h → NoDup (t_name <$> mjoin (h_hash h)).
Proof.
  intros [Hl Hb]. apply (join_names_NoDup _ 0). intros i b Hi.
  rewrite <- (bucket_lookup _ _ _ Hi). apply Hb. rewrite <- Hl. by eapply lookup_lt_Some.
Qed.

Lemma pairs_NoDup l : NoDup (t_name <$> l) → NoDup (omap tuple_pair l).*1.
Proof.
  induction l as [|t l IH]; simpl; intros Hnd; [constructor|].
  apply NoDup_cons in Hnd as [Hni Hnd]. unfold tuple_pair at 1.
  destruct (t_value t); simpl; [|auto]. apply NoDup_cons. split; [|auto].
  intros ([n v] & Hn & (u & Hu & Heq)%list_elem_of_omap)%list_elem_of_fmap.
  simpl in Hn. subst n.
  apply Hni. apply list_elem_of_fmap. exists u. split; [|done].
  unfold tuple_pair in Heq. destruct (t_value u); by simplify_eq/=.
Qed.

Lemma get_in_elem n v l :
  NoDup (t_name <$> l) → get_in n l = Some v ↔ Tuple n (Some v) ∈ l.
Proof.
  induction l as [|t l IH]; intros Hnd; [set_solver|].
  rewrite fmap_cons in Hnd. apply NoDup_cons in Hnd as [Hni Hnd].
  rewrite get_in_cons, elem_of_cons. destruct t as [m w]; simpl in *.
  case_decide as Hm; subst.
  - split; [intros ->; by left|]. intros [?|Hin]; [by simplify_eq|].
    exfalso. apply Hni. apply list_elem_of_fmap. by exists (Tuple n (Some v)).
  - rewrite IH by done. naive_solver.
Qed.

Lemma view_lookup h n : handle_ok h → view h !! n = nvram_get h (Some n).
Proof.
  intros Hok. apply option_eq. intros v. unfold view.
  rewrite <- elem_of_list_to_map by (apply pairs_NoDup, handle_names_NoDup; done).
  rewrite nvram_get_in, get_in_elem by (apply Hok, bucket_of_lt).
  rewrite list_elem_of_omap. split.
  - intros ([m w] & Ht & Heq). unfold tuple_pair in Heq. simpl in Heq.
    destruct w; simplify_eq/=. by apply elem_of_buckets in Ht.
  - intros Ht. exists (Tuple n (Some v)). split; [|done]. by apply elem_of_buckets.
Qed.

(** ** Behaviour of the operations *)

(** The size test of [_nvram_realloc]. *)
Definition fits (h : handle) (value : list Z) : bool :=
  Z.of_nat (length value) + 1 <=? u32 (h_length h - h_offset h).

Lemma realloc_too_long h t name value al :
  fits h value = false → _nvram_realloc h t name value al = (RNull t, al).
Proof.
  unfold fits, _nvram_realloc. intros Hf%Z.leb_gt. by rewrite (proj2 (Z.ltb_lt _ _) Hf).
Qed.
Lemma copy_value_cases t fresh value al :
  (∃ al', copy_value t fresh value al = (RTuple (Tuple (t_name t) (Some value)) fresh, al')) ∨
  (false ∈ al ∧ ∃ al', copy_value t fresh value al =
    (RNull (if fresh then None else Some (Tuple (t_name t) None)), al')).
Proof.
  unfold copy_value. case_bool_decide as Hv.
  - left. destruct t; simpl in *; subst. eauto.
  - destruct al as [|[] al]; simpl; eauto. right. split; [set_solver|]. eauto.
Qed.
Lemma realloc_cases h t name value al :
  fits h value = true →
  (∃ al', _nvram_realloc h t name value al =
     (RTuple (Tuple (from_option t_name name t) (Some value)) (negb (bool_decide (is_Some t))), al')) ∨
  (false ∈ al ∧ ∃ al', _nvram_realloc h t name value al =
     (RNull (option_map (λ t, Tuple (t_name t) None) t), al')).
Proof.
  unfold fits, _nvram_realloc. intros Hf%Z.leb_le. rewrite (proj2 (Z.ltb_ge _ _) Hf).
  destruct t as [t|]; [exact (copy_value_cases t false value al)|].
  destruct al as [|[] al]; simpl.
  - left. by exists [].
  - destruct (copy_value_cases (Tuple name None) true value al) as [[al' E]|[Hal [al' E]]];
      rewrite E; simpl; [eauto|]. right. split; [set_solver|]. eauto.
  - right. split; [set_solver|]. eauto.
Qed.

(** The state a successful and a failed [nvram_set] leaves: the bucket of the
    name with its tuple replaced, or put in front. *)
Definition put_tuple (u : tuple) (b : list tuple) : list tuple :=
  match find_tuple (t_name u) b with
  | Some (pre, _, post) => pre ++ u :: post
  | None => u :: b
  end.
(** A failed allocation leaves the variable, if it was there, without value. *)
Definition void_tuple (name : list Z) (b : list tuple) : list tuple :=
  match find_tuple name b with
  | Some (pre, _, post) => pre ++ Tuple name None :: post
  | None => b
  end.
Definition put_var (h : handle) (name value : list Z) : handle :=
  let i := bucket_of name in
  set_hash (<[i := put_tuple (Tuple name (Some value)) (bucket h i)]>) h.
Definition void_var (h : handle) (name : list Z) : handle :=
  let i := bucket_of name in set_hash (<[i := void_tuple name (bucket h i)]>) h.

Lemma set_hash_id h i : set_hash (<[i := bucket h i]>) h = h.
Proof.
  destruct h as [bs m ln off hs d]. unfold set_hash, bucket. simpl. f_equal.
  destruct (hs !! i) as [b|] eqn:E; simpl.
  - by apply list_insert_id.
  - apply list_insert_ge. by apply lookup_ge_None.
Qed.

(** The three outcomes of [nvram_set]. *)
Lemma nvram_set_cases h name value al :
  handle_ok h →
  (fits h value = false ∧ nvram_set h name value al = (-12, h, al)) ∨
  (fits h value = true ∧ ∃ al', nvram_set h name value al = (0, put_var h name value, al')) ∨
  (fits h value = true ∧ false ∈ al ∧ ∃ al', nvram_set h name value al = (-12, void_var h name, al')).
Proof.
  intros Hok. unfold nvram_set, put_var, void_var, put_tuple, void_tuple. simpl.
  destruct (find_tuple name (bucket h (bucket_of name))) as [[[pre t] post]|] eqn:Hf.
  - destruct (find_tuple_Some _ _ _ _ _ Hf) as (Hb & Ht & _).
    destruct (fits h value) eqn:Hfit.
    + right. destruct (realloc_cases h (Some t) name value al Hfit) as [[al' E]|[Hal [al' E]]];
        rewrite E; simpl; rewrite Ht; eauto 6.
    + left. rewrite realloc_too_long by done. simpl. by rewrite <- Hb, set_hash_id.
  - destruct (fits h value) eqn:Hfit.
    + right. destruct (realloc_cases h None name value al Hfit) as [[al' E]|[Hal [al' E]]];
        rewrite E; simpl; rewrite ?set_hash_id; eauto 6.
    + left. by rewrite realloc_too_long.
Qed.

(** The allocator answers in order. *)
Lemma malloc_suffix al : (malloc al).2 `suffix_of` al.
Proof. destruct al as [|b al]; [done|]. by exists [b]. Qed.
Lemma copy_value_suffix t fresh value al : (copy_value t fresh value al).2 `suffix_of` al.
Proof.
  unfold copy_value. case_bool_decide; [done|]. pose proof (malloc_suffix al).
  destruct (malloc al) as [[] al']; done.
Qed.
Lemma nvram_set_suffix h name value al : (nvram_set h name value al).2 `suffix_of` al.
Proof.
  assert (∀ t, (_nvram_realloc h t name value al).2 `suffix_of` al) as Hr.
  { intros t. unfold _nvram_realloc. case_match; [done|]. destruct t as [t|]; [apply copy_value_suffix|].
    pose proof (malloc_suffix al) as Hm. destruct (malloc al) as [[] al']; [|done].
    etrans; [apply copy_value_suffix|exact Hm]. }
  unfold nvram_set. destruct (find_tuple name _) as [[[pre t] post]|].
  - specialize (Hr (Some t)). by destruct (_nvram_realloc h (Some t) name value al) as [[t'|u []] al'].
  - specialize (Hr None). by destruct (_nvram_realloc h None name value al) as [[t'|u b] al'].
Qed.

Lemma put_tuple_ok i u b : bucket_ok i b → tuple_ok i u → bucket_ok i (put_tuple u b).
Proof.
  intros Hb Hu. unfold put_tuple.
  destruct (find_tuple (t_name u) b) as [[[pre t] post]|] eqn:Hf.
  - apply find_tuple_Some in Hf as (-> & Ht & _). by eapply bucket_ok_replace.
  - apply find_tuple_None in Hf. by apply bucket_ok_cons.
Qed.
Lemma void_tuple_ok i n b : bucket_ok i b → bucket_ok i (void_tuple n b).
Proof.
  intros Hb. unfold void_tuple. destruct (find_tuple n b) as [[[pre t] post]|] eqn:Hf; [|done].
  apply find_tuple_Some in Hf as (-> & Ht & _). eapply bucket_ok_replace; [done..|].
  destruct Hb as [_ Hall]. apply Forall_app in Hall as [_ [(Hi & Hw & _) _]%Forall_cons].
  rewrite Ht in *. split_and!; naive_solver.
Qed.

Lemma put_var_ok h name value :
  handle_ok h → cstr_wf name → cstr_wf value → handle_ok (put_var h name value).
Proof.
  intros Hok Hn Hv. pose proof (bucket_of_lt name). apply handle_ok_insert; [done..|].
  apply put_tuple_ok; [by apply Hok|]. split_and!; naive_solver.
Qed.
Lemma void_var_ok h name : handle_ok h → handle_ok (void_var h name).
Proof.
  intros Hok. pose proof (bucket_of_lt name). apply handle_ok_insert; [done..|].
  apply void_tuple_ok. by apply Hok.
Qed.

Lemma get_in_put m u b :
  get_in m (put_tuple u b) = if decide (m = t_name u) then t_value u else get_in m b.
Proof.
  unfold put_tuple. destruct (find_tuple (t_name u) b) as [[[pre t] post]|] eqn:Hf.
  - apply find_tuple_Some in Hf as (-> & Ht & Hni). by rewrite (get_in_replace (t_name u) m pre t).
  - rewrite get_in_cons. repeat case_decide; congruence.
Qed.
Lemma get_in_void m n b :
  get_in m (void_tuple n b) = if decide (m = n) then None else get_in m b.
Proof.
  unfold void_tuple. destruct (find_tuple n b) as [[[pre t] post]|] eqn:Hf.
  - apply find_tuple_Some in Hf as (-> & Ht & Hni). by rewrite (get_in_replace n m pre t).
  - apply find_tuple_None, get_in_notin in Hf. case_decide; by subst.
Qed.

Lemma nvram_get_put h name value m :
  handle_ok h →
  nvram_get (put_var h name value) (Some m) =
    if decide (m = name) then Some value else nvram_get h (Some m).
Proof.
  intros Hok. unfold put_var. rewrite nvram_get_insert by (done || apply bucket_of_lt).
  rewrite get_in_put. cbn [t_name t_value]. rewrite nvram_get_in.
  repeat case_decide; congruence.
Qed.
Lemma nvram_get_void h name m :
  handle_ok h →
  nvram_get (void_var h name) (Some m) =
    if decide (m = name) then None else nvram_get h (Some m).
Proof.
  intros Hok. unfold void_var. rewrite nvram_get_insert by (done || apply bucket_of_lt).
  rewrite get_in_void, nvram_get_in. repeat case_decide; congruence.
Qed.

Lemma view_put h name value :
  handle_ok h → cstr_wf name → cstr_wf value →
  view (put_var h name value) = <[name := value]> (view h).
Proof.
  intros Hok Hn Hv. apply map_eq. intros m.
  rewrite view_lookup by (by apply put_var_ok). rewrite nvram_get_put by done.
  rewrite lookup_insert, view_lookup by done. repeat case_decide; congruence.
Qed.
Lemma view_void h name : handle_ok h → view (void_var h name) = delete name (view h).
Proof.
  intros Hok. apply map_eq. intros m.
  rewrite view_lookup by (by apply void_var_ok). rewrite nvram_get_void by done.
  rewrite lookup_delete, view_lookup by done. repeat case_decide; congruence.
Qed.

(** With an allocator that does not fail. *)
Lemma nvram_set_nofail h name value :
  handle_ok h → fits h value = true → nvram_set h name value [] = (0, put_var h name value, []).
Proof.
  intros Hok Hf.
  assert ((nvram_set h name value []).2 = []) as Hal.
  { unfold nvram_set, _nvram_realloc, copy_value. simpl.
    destruct (find_tuple name (bucket h (bucket_of name))) as [[[pre t] post]|];
      repeat (case_match; simplify_eq/=); done. }
  destruct (nvram_set_cases h name value [] Hok) as [[Hf' _]|[(_ & al' & E)|(_ & ? & _)]];
    [congruence| |set_solver].
  rewrite E in Hal |- *. by simpl in Hal; subst.
Qed.

Lemma nvram_unset_ok h name : handle_ok h → handle_ok (nvram_unset h name).2.
Proof.
  intros Hok. destruct name as [name|]; [|done]. simpl.
  destruct (find_tuple name (bucket h (bucket_of name))) as [[[pre t] post]|] eqn:Hf; [|done].
  apply find_tuple_Some in Hf as (Hb & _ & _). pose proof (bucket_of_lt name).
  apply handle_ok_insert; [done..|]. apply bucket_ok_remove with t.
  rewrite <- Hb. by apply Hok.
Qed.
Lemma nvram_get_unset h name m :
  handle_ok h →
  nvram_get (nvram_unset h (Some name)).2 (Some m) =
    if decide (m = name) then None else nvram_get h (Some m).
Proof.
  intros Hok. pose proof (bucket_of_lt name) as Hlt. unfold nvram_unset.
  destruct (find_tuple name (bucket h (bucket_of name))) as [[[pre t] post]|] eqn:Hf; cbn [snd].
  - apply find_tuple_Some in Hf as (Hb & Ht & _). destruct (proj2 Hok _ Hlt) as [Hnd _].
    rewrite Hb in Hnd. rewrite nvram_get_insert, (get_in_remove name m pre t) by done.
    rewrite <- Hb, !nvram_get_in, bucket_set_dead. repeat case_decide; congruence.
  - apply find_tuple_None, get_in_notin in Hf. rewrite nvram_get_in.
    case_decide; congruence.
Qed.
Lemma view_unset h name :
  handle_ok h → view (nvram_unset h (Some name)).2 = delete name (view h).
Proof.
  intros Hok. apply map_eq. intros m.
  rewrite view_lookup by (by apply nvram_unset_ok). rewrite nvram_get_unset by done.
  rewrite lookup_delete, view_lookup by done. repeat case_decide; congruence.
Qed.

Lemma getall_no_failure bs l : getall_buckets bs l [] = (reverse (mjoin bs) ++ l, []).
Proof.
  assert (∀ b l, getall_bucket b l [] = (reverse b ++ l, [])) as Hb.
  { intros b. induction b as [|t b IH]; intros l'; simpl; [done|].
    by rewrite IH, reverse_cons, <- app_assoc. }
  revert l. induction bs as [|b bs IH]; intros l; simpl; [done|].
  rewrite Hb, IH. change (mjoin (b :: bs)) with (b ++ mjoin bs).
  by rewrite reverse_app, <- app_assoc.
Qed.
Lemma view_elements h : handle_ok h → map_to_list (view h) ≡ₚ omap tuple_pair (mjoin (h_hash h)).
Proof.
  intros Hok. unfold view. apply map_to_list_to_map, pairs_NoDup. by apply handle_names_NoDup.
Qed.

End ops.

(** ** The store as an interface

    What the nvram library promises to its callers: operations on a state and
    the finite map they act on. *)

Class VarStore (S : Type) := {
  vs_ok : S → Prop;
  vs_view : S → gmap (list Z) (list Z);
  vs_fits : S → list Z → bool;
  vs_get : S → list Z → option (list Z);
  vs_set : S → list Z → list Z → allocs → Z * S * allocs;
  vs_unset : S → list Z → Z * S;
  vs_get_view s n : vs_ok s → vs_get s n = vs_view s !! n;
  vs_set_view s n v al :
    vs_ok s → cstr_wf n → cstr_wf v →
    let '(rc, s', al') := vs_set s n v al in
    vs_ok s' ∧ (∀ w, vs_fits s' w = vs_fits s w) ∧ al' `suffix_of` al ∧
    ((rc = 0 ∧ vs_fits s v = true ∧ vs_view s' = <[n := v]> (vs_view s)) ∨
     (rc = -12 ∧ vs_fits s v = false ∧ s' = s) ∨
     (rc = -12 ∧ vs_fits s v = true ∧ false ∈ al ∧ vs_view s' = delete n (vs_view s)));
  vs_unset_view s n :
    vs_ok s →
    let '(rc, s') := vs_unset s n in
    rc = 0 ∧ vs_ok s' ∧ (∀ w, vs_fits s' w = vs_fits s w) ∧
    vs_view s' = delete n (vs_view s)
}.

Lemma nvram_set_refines_insert {A : Arch} h name value al :
  handle_ok h → cstr_wf name → cstr_wf value →
  let '(rc, h', al') := nvram_set h name value al in
  handle_ok h' ∧ (∀ w, fits h' w = fits h w) ∧
  ((rc = 0 ∧ fits h value = true ∧ view h' = <[name := value]> (view h)) ∨
   (rc = -12 ∧ fits h value = false ∧ h' = h) ∨
   (rc = -12 ∧ fits h value = true ∧ false ∈ al ∧ view h' = delete name (view h))).
Proof.
  intros Hok Hn Hv.
  destruct (nvram_set_cases h name value al Hok) as [[Hf ->]|[(Hf & al' & ->)|(Hf & Hal & al' & ->)]].
  - split_and!; [done..|]. right; left. done.
  - split_and!; [by apply put_var_ok|done|]. left. split_and!; [done..|]. by apply view_put.
  - split_and!; [by apply void_var_ok|done|]. right; right. split_and!; [done..|]. by apply view_void.
Qed.

#[export] Program Instance nvram_store {A : Arch} : VarStore handle := {|
  vs_ok := handle_ok;
  vs_view := view;
  vs_fits := fits;
  vs_get := λ h n, nvram_get h (Some n);
  vs_set := nvram_set;
  vs_unset := λ h n, nvram_unset h (Some n)
|}.
Next Obligation. intros. by rewrite view_lookup. Qed.
Next Obligation.
  intros A h n v al Hok Hn Hv. pose proof (nvram_set_refines_insert h n v al Hok Hn Hv) as Hs.
  pose proof (nvram_set_suffix h n v al) as Hal. cbv beta.
  destruct (nvram_set h n v al) as [[rc h'] al']. naive_solver.
Qed.
Next Obligation.
  intros A h n Hok. cbv beta. destruct (nvram_unset h (Some n)) as [rc h'] eqn:E.
  pose proof (nvram_unset_ok h (Some n) Hok) as Hok'. pose proof (view_unset h n Hok) as Hv.
  rewrite E in Hok', Hv. unfold nvram_unset in E.
  destruct (find_tuple n (bucket h (bucket_of n))) as [[[??]?]|]; by simplify_eq.
Qed.

(** ** Clients of the store *)

(** A caller's sequence of updates, and what it does to the map. *)
Inductive var_op :=
  | OpSet (name value : list Z)
  | OpUnset (name : list Z).
Definition var_op_wf (o : var_op) : Prop :=
  match o with OpSet n v => cstr_wf n ∧ cstr_wf v | OpUnset _ => True end.

Section client.
Context {S : Type} `{VarStore S}.

(** Run the updates one after the other: their return codes, the state and what
    is left of the outcomes of the allocator. *)
Definition run_update (s : S) (al : allocs) (o : var_op) : Z * S * allocs :=
  match o with
  | OpSet n v => vs_set s n v al
  | OpUnset n => let '(rc, s) := vs_unset s n in (rc, s, al)
  end.
Fixpoint run_updates (s : S) (al : allocs) (ops : list var_op) : list Z * S * allocs :=
  match ops with
  | [] => ([], s, al)
  | o :: ops =>
      let '(rc, s, al) := run_update s al o in
      let '(rcs, s, al) := run_updates s al ops in (rc :: rcs, s, al)
  end.




End client.

(** ** Properties *)

(** An empty handle of a mapped partition of [len] bytes. *)
Definition empty_handle (len off : Z) : handle :=
  Handle 0 (replicate (Z.to_nat len) 0xff) len off (replicate NVRAM_BUCKETS []) [].
Lemma empty_handle_ok {A : Arch} len off : handle_ok (empty_handle len off).
Proof.
  split; [apply length_replicate|]. intros i Hi. unfold bucket, empty_handle. cbn [h_hash].
  rewrite lookup_replicate_2 by done. split; constructor.
Qed.


#[export] Instance var_op_wf_dec o : Decision (var_op_wf o).
Proof. destruct o; apply _. Defined.

(** The fifth allocation fails: the second set of [wan] loses it. *)
Definition example_ops : list var_op :=
  [OpSet (cs "lan_ip") (cs "10.0.0.1"); OpSet (cs "wan") (cs "dhcp"); OpUnset (cs "lan_ip");
   OpSet (cs "wan") (cs "static")].
Definition example_allocs : allocs := [true; true; true; true; false].
Example example_rcs :
  (run_updates (H := nvram_store (A := mipsel)) (empty_handle 256 0) example_allocs example_ops).1.1 = [0; 0; 0; -12].
Proof. vm_compute. reflexivity. Qed.


(** [nvram_get] after [nvram_set], on each outcome: 0 stores the value,
    -12 for a value that is too long changes nothing, -12 for a failed
    allocation leaves the variable without a value; other variables are read
    as before in every case. *)
Theorem nvram_set_get {A : Arch} h name value al m :
  handle_ok h → cstr_wf name → cstr_wf value →
  let '(rc, h', _) := nvram_set h name value al in
  (m ≠ name → nvram_get h' (Some m) = nvram_get h (Some m)) ∧
  (rc = 0 → nvram_get h' (Some name) = Some value) ∧
  (rc ≠ 0 → rc = -12 ∧ ((fits h value = false ∧ h' = h) ∨
                        (false ∈ al ∧ nvram_get h' (Some name) = None))).
Proof.
  intros Hok Hn Hv. pose proof (nvram_set_refines_insert h name value al Hok Hn Hv) as Hs.
  destruct (nvram_set h name value al) as [[rc h'] al'].
  destruct Hs as (Hok' & _ & Hcase). rewrite <- !view_lookup by done.
  destruct Hcase as [(-> & Hf & ->)|[(-> & Hf & ->)|(-> & _ & Hal & ->)]].
  - rewrite lookup_insert_eq. split_and!; [|done..]. intros. by rewrite lookup_insert_ne.
  - split_and!; [done..|]. intros. split; [done|]. by left.
  - rewrite lookup_delete_eq. split_and!; [|done|].
    + intros. by rewrite lookup_delete_ne.
    + intros. split; [done|]. by right.
Qed.

Lemma nvram_set_get_witness :
  let '(rc, h', _) := nvram_set (A := arm) (empty_handle 256 0) (cs "wan") (cs "dhcp") [true; false] in
  (cs "lan" ≠ cs "wan" →
   nvram_get (A := arm) h' (Some (cs "lan")) = nvram_get (A := arm) (empty_handle 256 0) (Some (cs "lan"))) ∧
  (rc = 0 → nvram_get (A := arm) h' (Some (cs "wan")) = Some (cs "dhcp")) ∧
  (rc ≠ 0 → rc = -12 ∧
     ((fits (empty_handle 256 0) (cs "dhcp") = false ∧ h' = empty_handle 256 0) ∨
      (false ∈ [true; false] ∧ nvram_get (A := arm) h' (Some (cs "wan")) = None))).
Proof.
  apply (nvram_set_get (A := arm) (empty_handle 256 0) (cs "wan") (cs "dhcp") [true; false] (cs "lan")).
  - apply empty_handle_ok.
  - apply (bool_decide_unpack _). vm_compute. exact I.
  - apply (bool_decide_unpack _). vm_compute. exact I.
Defined.

(** [nvram_getall], when its allocations succeed, lists every variable of
    the store exactly once and nothing else. *)
Theorem nvram_getall_enumerates {A : Arch} h :
  handle_ok h → omap tuple_pair (nvram_getall h []).1 ≡ₚ map_to_list (view h).
Proof.
  intros Hok. unfold nvram_getall. rewrite getall_no_failure, app_nil_r. simpl.
  rewrite view_elements by done. by rewrite reverse_Permutation.
Qed.

Lemma nvram_getall_enumerates_witness :
  omap tuple_pair (nvram_getall (put_var (A := mipsel) (empty_handle 256 0) (cs "wan") (cs "dhcp")) []).1
    ≡ₚ map_to_list (view (put_var (A := mipsel) (empty_handle 256 0) (cs "wan") (cs "dhcp"))).
Proof.
  apply (nvram_getall_enumerates (A := mipsel)). apply put_var_ok.
  - apply empty_handle_ok.
  - apply (bool_decide_unpack _). vm_compute. exact I.
  - apply (bool_decide_unpack _). vm_compute. exact I.
Defined.

End Nvram.
