(* ===== verification/NvramFlash.v ===== *)
(** * The nvram partition (package/utils/nvram/src/nvram.c, nvram.h, sdinitvals.h)

    The flash image behind a handle: the header, [_nvram_rehash] (parse the
    image into the table), [nvram_commit] (write the table into the image),
    [nvram_open] and [nvram_close].  The mapping is a byte list; an access
    outside it, or a NULL value, is a fault.  [msync]/[fsync] only push the
    mapping to the device and have no effect here. *)

From S2P Require Import Prelude CLib Crc8 Nvram.
Import Crc8 Nvram.
Open Scope Z_scope.
Open Scope cint_scope.

Module NvramFlash.

(** ** Constants of nvram.h and sdinitvals.h *)

Definition NVRAM_MIN_SPACE : Z := 0x8000.
Definition NVRAM_MAGIC : Z := 0x48534C46.
Definition NVRAM_VERSION : Z := 1.
Definition NVRAM_CRC_START_POSITION : nat := 9.
Definition NVRAM_ROUNDUP (x y : Z) : Z := (x + (y - 1)) / y * y.
Definition SDRAM_INIT : Z := 0x419.
Definition SDRAM_CONFIG : Z := 0x0000.
Definition SDRAM_REFRESH : Z := (0x40 .& 0xff) .| 0x8000.

Definition HDR_SIZE : nat := 20.

Record nvram_header := Header {
  magic : Z;
  len : Z;
  crc_ver_init : Z;
  config_refresh : Z;
  config_ncdl : Z
}.

Section flash.
Context {A : Arch}.

(** A [uint32_t] member of the header at byte [k] of the image. *)
Definition read_u32 (m : list Z) (k : nat) : result Z :=
  bs ← mread m k 4; Ret (u32_of bs).
Definition write_u32 (m : list Z) (k : nat) (z : Z) : result (list Z) := mwrite m k (u32_bytes z).

(** Get nvram header: [&h->mmap[h->offset]], with its members read. *)
Definition header_at (m : list Z) (off : nat) : result nvram_header :=
  a ← read_u32 m off; b ← read_u32 m (off + 4); c ← read_u32 m (off + 8);
  d ← read_u32 m (off + 12); e ← read_u32 m (off + 16);
  Ret (Header a b c d e).

(** ** (Re)initialize the hash table *)

(** Parse and set "name=value\0 ... \0\0"; [pos] is [name].  One unit of fuel
    per entry; the entries are at least two bytes long. *)
Fixpoint parse_vars (fuel : nat) (m : list Z) (pos : nat) (h : handle) (al : allocs)
    : result (handle * allocs) :=
  match fuel with
  | O => Fault OutOfFuel
  | S fuel =>
      b ← mget m pos;
      if b =? 0 then Ret (h, al)
      else
        s ← cstr_at m pos;
        match strchr s 61 with
        | None => Ret (h, al)
        | Some k =>
            value ← cstr_at m (pos + k + 1);
            let '(_, h, al) := nvram_set h (take k s) value al in
            parse_vars fuel m (pos + k + 1 + length value + 1) h al
        end
  end.

(** [if (!nvram_get(h, name)) nvram_set(h, name, buf)] *)
Definition set_absent (name buf : list Z) (ha : handle * allocs) : handle * allocs :=
  let '(h, al) := ha in
  match nvram_get h (Some name) with
  | Some _ => (h, al)
  | None => let '(_, h, al) := nvram_set h name buf al in (h, al)
  end.

Definition fmt_0x (width : nat) (v : Z) : list Z := cs "0x" ++ fmt_hex true width v.

(** Set special SDRAM parameters. *)
Definition set_sdram (hdr : nvram_header) (ha : handle * allocs) : handle * allocs :=
  let ha := set_absent (cs "sdram_init") (fmt_0x 4 (u16 (crc_ver_init hdr .>> 16))) ha in
  let ha := set_absent (cs "sdram_config") (fmt_0x 4 (u16 (config_refresh hdr .& 0xffff))) ha in
  let ha := set_absent (cs "sdram_refresh")
    (fmt_0x 4 (u16 ((config_refresh hdr .>> 16) .& 0xffff))) ha in
  set_absent (cs "sdram_ncdl") (fmt_0x 8 (config_ncdl hdr)) ha.

Definition _nvram_rehash (h : handle) (al : allocs) : result (Z * handle * allocs) :=
  let off := Z.to_nat (h_offset h) in
  let m := h_mmap h in
  ha ← parse_vars (S (length m)) m (off + HDR_SIZE) (_nvram_free h) al;
  hdr ← header_at m off;
  let '(h, al) := set_sdram hdr ha in
  Ret (0, h, al).

(** ** Regenerate NVRAM *)

(** The three configuration words of the regenerated header. *)
Definition commit_words (h : handle) : Z * Z * Z :=
  match nvram_get h (Some (cs "sdram_init")), nvram_get h (Some (cs "sdram_config")),
        nvram_get h (Some (cs "sdram_refresh")), nvram_get h (Some (cs "sdram_ncdl")) with
  | Some init, Some config, Some refresh, Some ncdl =>
      (u32 ((NVRAM_VERSION .<< 8) .| (((strtoul init 0).1 .& 0xffff) .<< 16)),
       u32 (((strtoul config 0).1 .& 0xffff) .| (((strtoul refresh 0).1 .& 0xffff) .<< 16)),
       u32 (strtoul ncdl 0).1)
  | _, _, _, _ =>
      (u32 ((NVRAM_VERSION .<< 8) .| (SDRAM_INIT .<< 16)),
       u32 (SDRAM_CONFIG .| (SDRAM_REFRESH .<< 16)),
       0)
  end.

(** The text of one variable: [sprintf(ptr, "%s=%s", t->name, t->value)]. *)
Definition entry (name value : list Z) : list Z := name ++ [61] ++ value ++ [0].

(** Write out all tuples; a tuple that does not fit ends its bucket. *)
Fixpoint write_bucket (m : list Z) (ptr : nat) (end_ : Z) (b : list tuple) : result (list Z * nat) :=
  match b with
  | [] => Ret (m, ptr)
  | t :: b =>
      value ← of_option NullDeref (t_value t);
      if end_ <? Z.of_nat (ptr + length (t_name t) + 1 + length value + 1) then Ret (m, ptr)
      else
        m ← mwrite m ptr (entry (t_name t) value);
        write_bucket m (ptr + length (entry (t_name t) value)) end_ b
  end.
Fixpoint write_buckets (m : list Z) (ptr : nat) (end_ : Z) (bs : list (list tuple))
    : result (list Z * nat) :=
  match bs with
  | [] => Ret (m, ptr)
  | b :: bs => '(m, ptr) ← write_bucket m ptr end_ b; write_buckets m ptr end_ bs
  end.

(** "pad to 4 bytes": [if ((int)ptr % 4) memset(ptr, 0, 4 - ((int)ptr % 4))]. *)
Definition commit_pad (base : Z) (m : list Z) (ptr : nat) : result (list Z) :=
  let r := Z.rem (s32 (base + Z.of_nat ptr)) 4 in
  if r =? 0 then Ret m else mset m ptr 0 (Z.to_nat (4 - r)).

(** The CRC-8 of the regenerated image: bytes 9..19 of a header whose other
    members are zero, then the data. *)
Definition commit_crc (words : Z * Z * Z) (m : list Z) (off : nat) (len : Z) : result Z :=
  let '(cvi, cr, ncdl) := words in
  let tmp := replicate 8 0 ++ u32_bytes cvi ++ u32_bytes cr ++ u32_bytes ncdl in
  crc ← hndcrc8 (drop NVRAM_CRC_START_POSITION tmp) (HDR_SIZE - NVRAM_CRC_START_POSITION) 0xff;
  hndcrc8 (drop (off + HDR_SIZE) m) (Z.to_nat (u32 (len - Z.of_nat HDR_SIZE))) crc.

(** "Regenerate header" and "Clear data area"; the size of the area wraps
    around when the header does not fit the partition. *)
Definition commit_header (part_size : Z) (h : handle) (words : Z * Z * Z) : result (list Z) :=
  let off := Z.to_nat (h_offset h) in
  let '(cvi, cr, ncdl) := words in
  m ← write_u32 (h_mmap h) off NVRAM_MAGIC;
  m ← write_u32 m (off + 8) cvi;
  m ← write_u32 m (off + 12) cr;
  m ← write_u32 m (off + 16) ncdl;
  let n := part_size - h_offset h - Z.of_nat HDR_SIZE in
  if n <? 0 then Fault OutOfBounds else mset m (off + HDR_SIZE) 0xFF (Z.to_nat n).

(** "Write out all tuples" and "End with a double NULL and pad to 4 bytes":
    the image and where the text ends. *)
Definition commit_tuples (part_size : Z) (h : handle) (m : list Z) : result (list Z * nat) :=
  '(m, ptr) ← write_buckets m (Z.to_nat (h_offset h) + HDR_SIZE) (part_size - 2) (h_hash h);
  m ← mwrite m ptr [0];
  m ← commit_pad (h_base h) m (ptr + 1);
  Ret (m, ptr).

(** [nvram_commit] up to the rehash: the new image. *)
Definition commit_image (part_size : Z) (h : handle) : result (list Z) :=
  let off := Z.to_nat (h_offset h) in
  let words := commit_words h in
  m ← commit_header part_size h words;
  '(m, ptr) ← commit_tuples part_size h m;
  let len := u32 (NVRAM_ROUNDUP (Z.of_nat (ptr + 2) - h_offset h) 4) in
  m ← write_u32 m (off + 4) len;
  crc ← commit_crc words m off len;
  write_u32 m (off + 8) (words.1.1 .| crc).

Definition nvram_commit (part_size : Z) (h : handle) (al : allocs) : result (Z * handle * allocs) :=
  m ← commit_image part_size h;
  _nvram_rehash (set_mmap m h) al.

(** ** Open and close *)

(** The search for [NVRAM_MAGIC]: [n] words from word [i] on. *)
Fixpoint find_magic (n : nat) (m : list Z) (i : nat) : result (option nat) :=
  match n with
  | O => Ret None
  | S n =>
      w ← read_u32 m (4 * i);
      if w =? NVRAM_MAGIC then Ret (Some (4 * i)%nat) else find_magic n m (S i)
  end.

(** [nvram_open] once the partition size is known; [mapping] is the result of
    [open] and [mmap]: the address and the bytes of the file. *)
Definition nvram_open (part_size : Z) (mapping : option (Z * list Z)) (rdonly : bool) (al : allocs)
    : result (option handle * allocs) :=
  match mapping with
  | None => Ret (None, al)
  | Some (base, m) =>
      let words := (part_size - NVRAM_MIN_SPACE) mod 2 ^ long_bits / 4 + 1 in
      offset ← find_magic (Z.to_nat words) m 0;
      match offset with
      | None => Ret (None, al)
      | Some off =>
          let '(ok, al) := malloc al in
          if ok then
            let h := Handle base m part_size (Z.of_nat off) (replicate NVRAM_BUCKETS []) [] in
            hdr ← header_at m off;
            if (magic hdr =? NVRAM_MAGIC) && (rdonly || (len hdr <? u32 (h_length h - h_offset h)))
            then '(_, h, al) ← _nvram_rehash h al; Ret (Some h, al)
            else Ret (None, al)
          else Ret (None, al)
      end
  end.

(** Close NVRAM and free memory. *)
Definition nvram_close (h : handle) : Z * handle := (0, _nvram_free h).

End flash.
End NvramFlash.
