(* ===== verification/NvramCommit.v ===== *)
(** * Properties of the nvram partition

    The layout [nvram_commit] writes, that [_nvram_rehash] and [nvram_open]
    read it back, the checksum, and the bounds of the partition. *)

From S2P Require Import Prelude CLib Crc8 Nvram NvramFlash.
Import Crc8 Nvram NvramFlash.
Open Scope Z_scope.
Open Scope cint_scope.

Module NvramCommit.

Section props.
Context {A : Arch}.

(** ** The text of the variables *)

Definition text (ps : list (list Z * list Z)) : list Z := mjoin ((λ p, entry p.1 p.2) <$> ps).

Lemma text_cons p ps : text (p :: ps) = entry p.1 p.2 ++ text ps.
Proof. done. Qed.
Lemma text_app ps qs : text (ps ++ qs) = text ps ++ text qs.
Proof. unfold text. by rewrite fmap_app, join_app. Qed.
Lemma length_entry n v : length (entry n v) = (length n + 1 + length v + 1)%nat.
Proof. unfold entry. rewrite !length_app. simpl. lia. Qed.

(** All variables have a value, and a name that the "name=value" text can
    carry. *)
Definition savable (t : tuple) : Prop := is_Some (t_value t) ∧ 61 ∉ t_name t.

Lemma pairs_cons t v b :
  t_value t = Some v → omap tuple_pair (t :: b) = (t_name t, v) :: omap tuple_pair b.
Proof. intros Hv. simpl. unfold tuple_pair at 1. by rewrite Hv. Qed.

Lemma write_bucket_text m ptr end_ b :
  Forall (λ t, is_Some (t_value t)) b →
  Z.of_nat (ptr + length (text (omap tuple_pair b))) ≤ end_ →
  end_ ≤ Z.of_nat (length m) →
  ∃ m', write_bucket m ptr end_ b = Ret (m', (ptr + length (text (omap tuple_pair b)))%nat) ∧
        mwrite m ptr (text (omap tuple_pair b)) = Ret m'.
Proof.
  intros Hb. revert m ptr. induction Hb as [|t b [v Hv] Hb IH]; intros m ptr Hend Hm.
  - exists m. unfold text in *. simpl in *. rewrite Nat.add_0_r. split; [done|].
    apply mwrite_nil. lia.
  - rewrite (pairs_cons t v b Hv), text_cons, length_app in *. cbn [fst snd] in *.
    cbn [write_bucket]. rewrite Hv. cbn [of_option mbind result_bind].
    pose proof (length_entry (t_name t) v) as Hle.
    rewrite (proj2 (Z.ltb_ge _ _)) by lia.
    destruct (mwrite m ptr (entry (t_name t) v)) as [m1|] eqn:Hm1; [|by rewrite mwrite_ret in Hm1 by lia].
    pose proof (mwrite_length _ _ _ _ Hm1) as Hl1. cbn [mbind result_bind].
    destruct (IH m1 (ptr + length (entry (t_name t) v))%nat) as (m' & -> & Hw); [lia..|].
    exists m'. rewrite Nat.add_assoc. split; [done|]. by eapply mwrite_app.
Qed.

Lemma write_buckets_text m ptr end_ bs :
  Forall savable (mjoin bs) →
  Z.of_nat (ptr + length (text (omap tuple_pair (mjoin bs)))) ≤ end_ →
  end_ ≤ Z.of_nat (length m) →
  ∃ m', write_buckets m ptr end_ bs =
          Ret (m', (ptr + length (text (omap tuple_pair (mjoin bs))))%nat) ∧
        mwrite m ptr (text (omap tuple_pair (mjoin bs))) = Ret m'.
Proof.
  revert m ptr. induction bs as [|b bs IH]; intros m ptr Hs Hend Hm.
  - exists m. unfold text in *. simpl in *. rewrite Nat.add_0_r. split; [done|].
    apply mwrite_nil. lia.
  - change (mjoin (b :: bs)) with (b ++ mjoin bs) in *.
    apply Forall_app in Hs as [Hsb Hs]. rewrite omap_app, text_app, length_app in *.
    destruct (write_bucket_text m ptr end_ b) as (m1 & Hw1 & Hm1);
      [by eapply Forall_impl; [exact Hsb|intros ? []]|lia..|].
    pose proof (mwrite_length _ _ _ _ Hm1) as Hl1.
    destruct (IH m1 (ptr + length (text (omap tuple_pair b)))%nat Hs) as (m2 & Hw2 & Hm2); [lia..|].
    exists m2. simpl. rewrite Hw1. simpl. rewrite Hw2, Nat.add_assoc. split; [done|].
    by eapply mwrite_app.
Qed.

(** ** The image [nvram_commit] writes *)

Definition vars (h : handle) : list (list Z * list Z) := omap tuple_pair (mjoin (h_hash h)).

(** The pad to a word is counted from the remainder of the address as an
    [int], which is negative from 2 GiB on, so that up to 7 bytes are zeroed:
    the partition is mapped below 2 GiB (of the low half of the address), or has
    one word more than the text needs. *)
Definition pad_room (ps : Z) (h : handle) : Prop :=
  h_base h mod 2 ^ 32 + ps < 2 ^ 31 ∨ h_offset h + 20 + Z.of_nat (length (text (vars h))) + 6 ≤ ps.

(** The table can be saved: the handle maps a partition of [ps] bytes, whole
    words below 2 GiB, at an aligned address, and all variables fit. *)
Record commit_ready (ps : Z) (h : handle) : Prop := {
  cr_ok : handle_ok h;
  cr_savable : Forall savable (mjoin (h_hash h));
  cr_len : h_length h = ps;
  cr_mmap : Z.of_nat (length (h_mmap h)) = ps;
  cr_off : 0 ≤ h_offset h ∧ h_offset h mod 4 = 0;
  cr_ps : ps mod 4 = 0;
  cr_max : ps < 2 ^ 31;
  cr_base : 0 ≤ h_base h ∧ h_base h mod 4 = 0;
  cr_pad : pad_room ps h;
  cr_space : h_offset h + 20 + Z.of_nat (length (text (vars h))) + 2 ≤ ps
}.

Definition commit_len (h : handle) : Z := NVRAM_ROUNDUP (Z.of_nat (length (text (vars h))) + 22) 4.

Definition header_bytes (hdr : nvram_header) : list Z :=
  u32_bytes (magic hdr) ++ u32_bytes (len hdr) ++ u32_bytes (crc_ver_init hdr) ++
  u32_bytes (config_refresh hdr) ++ u32_bytes (config_ncdl hdr).
Lemma length_header_bytes hdr : length (header_bytes hdr) = 20%nat.
Proof. unfold header_bytes. by rewrite !length_app, !length_u32_bytes. Qed.

(** The bytes the checksum covers. *)
Definition crc_input (words : Z * Z * Z) (data : list Z) (len : Z) : list Z :=
  drop 1 (u32_bytes words.1.1) ++ u32_bytes words.1.2 ++ u32_bytes words.2 ++
  take (Z.to_nat len - 20) data.

Lemma commit_crc_eq words (a b data : list Z) k len :
  k = length a → length b = 20%nat → 20 ≤ len < 2 ^ 32 → (Z.to_nat len - 20 ≤ length data)%nat →
  commit_crc words (a ++ b ++ data) k len = Ret (foldl crc8_step 0xff (crc_input words data len)).
Proof.
  intros -> Hb Hlen Hd. destruct words as [[cvi cr] ncdl]. unfold commit_crc, crc_input.
  cbn [fst snd].
  assert (drop NVRAM_CRC_START_POSITION (replicate 8 0 ++ u32_bytes cvi ++ u32_bytes cr ++ u32_bytes ncdl)
    = drop 1 (u32_bytes cvi) ++ u32_bytes cr ++ u32_bytes ncdl) as ->.
  { assert (∀ X, drop NVRAM_CRC_START_POSITION (replicate 8 0 ++ X) = drop 1 X) as -> by done.
    by rewrite drop_app_le by (rewrite length_u32_bytes; lia). }
  set (t := drop 1 (u32_bytes cvi) ++ u32_bytes cr ++ u32_bytes ncdl).
  assert (length t = 11)%nat as Ht.
  { unfold t. by rewrite !length_app, length_drop, !length_u32_bytes. }
  change (HDR_SIZE - NVRAM_CRC_START_POSITION)%nat with 11%nat.
  rewrite hndcrc8_take, take_ge by lia. cbn [mbind result_bind].
  rewrite (app_assoc a b data), drop_app_length' by (rewrite length_app, Hb; done).
  assert (Z.to_nat (u32 (len - Z.of_nat HDR_SIZE)) = Z.to_nat len - 20)%nat as ->.
  { unfold HDR_SIZE. rewrite u32_small by lia. lia. }
  rewrite hndcrc8_take by done. unfold t. by rewrite !foldl_app.
Qed.

(** [NVRAM_ROUNDUP] to words. *)
Lemma roundup4 x : 0 ≤ x → x ≤ NVRAM_ROUNDUP x 4 < x + 4 ∧ NVRAM_ROUNDUP x 4 mod 4 = 0.
Proof.
  intros. unfold NVRAM_ROUNDUP. pose proof (Z.div_mod (x + (4 - 1)) 4).
  pose proof (Z.mod_pos_bound (x + (4 - 1)) 4). split; [lia|]. apply Z.mod_mul. lia.
Qed.
(** A bound that is a multiple of 4 is kept by rounding up to one. *)
Lemma roundup4_le x y : 0 ≤ x ≤ y → y mod 4 = 0 → NVRAM_ROUNDUP x 4 ≤ y.
Proof.
  intros Hx Hy. destruct (roundup4 x) as [Hr Hm]; [lia|].
  pose proof (Z.div_mod y 4). pose proof (Z.div_mod (NVRAM_ROUNDUP x 4) 4). lia.
Qed.

(** The remainder that the pad is counted from, of an aligned base. *)
Lemma pad_rem base k :
  0 ≤ base → base mod 4 = 0 → 0 ≤ k →
  let r := Z.rem (s32 (base + k)) 4 in
  r = k mod 4 ∨ k mod 4 ≠ 0 ∧ r = k mod 4 - 4 ∧ 2 ^ 31 ≤ base mod 2 ^ 32 + k.
Proof.
  intros Hb Hb4 Hk r. pose proof (Z.div_mod k 4). pose proof (Z.mod_pos_bound k 4).
  pose proof (Z.div_mod base 4). pose proof (Z.div_mod base (2 ^ 32)).
  pose proof (Z.mod_pos_bound base (2 ^ 32)).
  pose proof (Z.div_mod (base + k) (2 ^ 32)). pose proof (Z.mod_pos_bound (base + k) (2 ^ 32)).
  pose proof (Z.quot_rem' (s32 (base + k)) 4) as Hq. fold r in Hq.
  unfold s32, u32 in Hq. unfold s32, u32 in r. set (u := (base + k) mod 2 ^ 32) in *.
  destruct (Z.ltb_spec u (2 ^ 31)) as [Hu|Hu].
  - pose proof (Z.rem_bound_pos_pos u 4). subst r. left. lia.
  - pose proof (Z.rem_bound_pos_neg (u - 2 ^ 32) 4). subst r.
    assert (2 ^ 31 ≤ base mod 2 ^ 32 + k).
    { destruct (Z.le_gt_cases (2 ^ 31) (base mod 2 ^ 32 + k)) as [|Hlt]; [done|exfalso].
      assert (u = base mod 2 ^ 32 + k); [|lia]. unfold u. rewrite <- Z.add_mod_idemp_l by lia.
      apply Z.mod_small. lia. }
    destruct (Z.eq_dec (k mod 4) 0); [left|right; split; [done|split; [|done]]]; lia.
Qed.

(** The padding stays inside the partition and only adds zeros. *)
Lemma commit_pad_ok base (a : list Z) n ps :
  0 ≤ base → base mod 4 = 0 → ps mod 4 = 0 →
  base mod 2 ^ 32 + ps < 2 ^ 31 ∨ Z.of_nat (length a) + 5 ≤ ps →
  Z.of_nat (length a + n) = ps →
  ∃ z k, commit_pad base (a ++ replicate n 0xff) (length a) =
           Ret (a ++ replicate z 0 ++ replicate k 0xff) ∧ (z + k = n)%nat.
Proof.
  intros Hb0 Hb4 Hp4 Hroom Hl. unfold commit_pad.
  pose proof (pad_rem base (Z.of_nat (length a)) Hb0 Hb4 ltac:(lia)) as Hr. cbv zeta in Hr.
  set (r := Z.rem (s32 (base + Z.of_nat (length a))) 4) in *.
  pose proof (Z.mod_pos_bound (Z.of_nat (length a)) 4).
  pose proof (Z.div_mod (Z.of_nat (length a)) 4). pose proof (Z.div_mod ps 4).
  destruct (Z.eqb_spec r 0) as [|Hr0].
  - exists 0%nat, n. split; [done|lia].
  - assert (Z.to_nat (4 - r) ≤ n)%nat as Hzn by lia.
    exists (Z.to_nat (4 - r)), (n - Z.to_nat (4 - r))%nat. split; [|lia].
    unfold mset. apply mwrite_at with (replicate (Z.to_nat (4 - r)) 0xff).
    + rewrite <- replicate_add. do 2 f_equal. lia.
    + done.
    + by rewrite !length_replicate.
Qed.

Lemma commit_len_bounds ps h :
  commit_ready ps h →
  22 ≤ commit_len h ≤ ps - h_offset h ∧ commit_len h mod 4 = 0.
Proof.
  intros Hr. destruct Hr. unfold commit_len.
  destruct (roundup4 (Z.of_nat (length (text (vars h))) + 22)) as [H1 H2]; [lia|].
  split; [|done]. split; [lia|]. apply roundup4_le; [lia|].
  rewrite Zminus_mod, cr_ps0, (proj2 cr_off0). done.
Qed.

(** The header and the cleared data area. *)
Lemma commit_clear ps h cvi cr ncdl :
  commit_ready ps h →
  let off := Z.to_nat (h_offset h) in
  ∃ w, length w = 4%nat ∧ commit_header ps h (cvi, cr, ncdl) =
    Ret (take off (h_mmap h) ++ (u32_bytes NVRAM_MAGIC ++ w ++ u32_bytes cvi ++ u32_bytes cr ++ u32_bytes ncdl)
         ++ replicate (Z.to_nat (ps - h_offset h - 20)) 0xFF).
Proof.
  intros [Hok Hs Hlen Hmm Hoff Hps Hmax Hbase Hpad Hsp] off.
  destruct (split_at off (h_mmap h)) as (pre & m1 & Hm & Hpre); [lia|].
  assert (length m1 = Z.to_nat ps - off)%nat as Hm1.
  { pose proof (f_equal length Hm) as Hf. rewrite length_app in Hf. lia. }
  destruct (split_at 4 m1) as (w0 & m2 & -> & Hw0); [lia|]. rewrite length_app in Hm1.
  destruct (split_at 4 m2) as (w1 & m3 & -> & Hw1); [lia|]. rewrite length_app in Hm1.
  destruct (split_at 4 m3) as (w2 & m4 & -> & Hw2); [lia|]. rewrite length_app in Hm1.
  destruct (split_at 4 m4) as (w3 & m5 & -> & Hw3); [lia|]. rewrite length_app in Hm1.
  destruct (split_at 4 m5) as (w4 & d & -> & Hw4); [lia|]. rewrite length_app in Hm1.
  exists w1. split; [done|]. rewrite Hm. rewrite take_app_length' by done.
  unfold commit_header, write_u32, mset. fold off. rewrite Hm.
  rewrite (mwrite_at _ pre w0 (w1 ++ w2 ++ w3 ++ w4 ++ d)) by (rewrite ?length_u32_bytes; done).
  cbn [mbind result_bind].
  rewrite (mwrite_at _ (pre ++ u32_bytes NVRAM_MAGIC ++ w1) w2 (w3 ++ w4 ++ d))
    by (rewrite ?length_app, ?length_u32_bytes, <- ?app_assoc; solve [done|lia]).
  cbn [mbind result_bind].
  rewrite (mwrite_at _ (pre ++ u32_bytes NVRAM_MAGIC ++ w1 ++ u32_bytes cvi) w3 (w4 ++ d))
    by (rewrite ?length_app, ?length_u32_bytes, <- ?app_assoc; solve [done|lia]).
  cbn [mbind result_bind].
  rewrite (mwrite_at _ (pre ++ u32_bytes NVRAM_MAGIC ++ w1 ++ u32_bytes cvi ++ u32_bytes cr) w4 d)
    by (rewrite ?length_app, ?length_u32_bytes, <- ?app_assoc; solve [done|lia]).
  cbn [mbind result_bind]. rewrite (proj2 (Z.ltb_ge _ 0)) by (unfold HDR_SIZE; lia).
  rewrite (mwrite_at _ (pre ++ u32_bytes NVRAM_MAGIC ++ w1 ++ u32_bytes cvi ++ u32_bytes cr ++ u32_bytes ncdl) d [])
    by (rewrite ?length_app, ?length_u32_bytes, ?length_replicate, ?app_nil_r, <- ?app_assoc;
        unfold HDR_SIZE; solve [done|lia]).
  by rewrite app_nil_r, <- !app_assoc.
Qed.

(** The text, the terminator and the padding in the cleared data area. *)
Lemma commit_body ps h (pre hdr : list Z) :
  commit_ready ps h → length pre = Z.to_nat (h_offset h) → length hdr = 20%nat →
  let off := Z.to_nat (h_offset h) in
  let T := length (text (vars h)) in
  ∃ tail, (Z.of_nat (T + 1 + length tail) = ps - h_offset h - 20) ∧ bytes_wf tail ∧
    commit_tuples ps h (pre ++ hdr ++ replicate (Z.to_nat (ps - h_offset h - 20)) 0xFF) =
    Ret (pre ++ hdr ++ text (vars h) ++ 0 :: tail, (off + HDR_SIZE + T)%nat).
Proof.
  intros [Hok Hs Hlen Hmm Hoff Hps Hmax Hbase Hroom Hsp] Hpre Hhdr off T.
  set (n := Z.to_nat (ps - h_offset h - 20)).
  assert (T + 2 ≤ n)%nat as HTn by (unfold n, T; lia).
  assert (replicate (n - T) 0xFF = [0xFF] ++ replicate (n - T - 1) 0xFF) as Hone.
  { change [0xFF] with (replicate 1 0xFF). rewrite <- replicate_add. f_equal. lia. }
  unfold commit_tuples. fold off.
  destruct (write_buckets_text (pre ++ hdr ++ replicate n 0xFF) (off + HDR_SIZE) (ps - 2) (h_hash h) Hs)
    as (m' & -> & Hw); [fold (vars h); unfold HDR_SIZE, off, T; lia|
    rewrite !length_app, length_replicate, Hpre, Hhdr; unfold n; lia|].
  fold (vars h) in Hw |- *. fold T. cbn [mbind result_bind].
  rewrite (mwrite_at _ (pre ++ hdr) (replicate T 0xFF) (replicate (n - T) 0xFF)) in Hw;
    [|rewrite <- app_assoc, <- replicate_add; do 3 f_equal; lia
     |rewrite length_app; unfold HDR_SIZE, off; lia|by rewrite length_replicate].
  injection Hw as <-.
  rewrite (mwrite_at _ (pre ++ hdr ++ text (vars h)) [0xFF] (replicate (n - T - 1) 0xFF));
    [|by rewrite Hone, <- !app_assoc
     |rewrite !length_app; unfold HDR_SIZE, off; lia|done].
  cbn [mbind result_bind].
  set (a := pre ++ hdr ++ text (vars h) ++ [0]).
  assert (length a = off + HDR_SIZE + T + 1)%nat as Ha.
  { unfold a. rewrite !length_app. simpl. unfold HDR_SIZE, off, T. lia. }
  destruct (commit_pad_ok (h_base h) a (n - T - 1) ps) as (z & k & Hpad & Hzk); [lia..| | |].
  { rewrite Ha. destruct Hroom as [?|?]; [by left|right]. unfold HDR_SIZE, off, T. lia. }
  { rewrite Ha. unfold n, HDR_SIZE, off. lia. }
  exists (replicate z 0 ++ replicate k 0xff). split_and!.
  - rewrite length_app, !length_replicate. unfold n in *. lia.
  - apply Forall_app. split; apply Forall_replicate; lia.
  - rewrite <- Ha.
    assert ((pre ++ hdr ++ text (vars h)) ++ [0] ++ replicate (n - T - 1) 0xFF
      = a ++ replicate (n - T - 1) 0xFF) as -> by (unfold a; by rewrite <- !app_assoc).
    rewrite Hpad. cbn [mbind result_bind]. unfold a. by rewrite <- !app_assoc.
Qed.

(** The whole image. *)
Lemma commit_image_layout ps h :
  commit_ready ps h →
  let off := Z.to_nat (h_offset h) in
  let words := commit_words h in
  ∃ tail, let data := text (vars h) ++ 0 :: tail in
    let crc := foldl crc8_step 0xff (crc_input words data (commit_len h)) in
    let hdr := Header NVRAM_MAGIC (commit_len h) (words.1.1 .| crc) words.1.2 words.2 in
    commit_image ps h = Ret (take off (h_mmap h) ++ header_bytes hdr ++ data) ∧
    Z.of_nat (length data) = ps - h_offset h - 20 ∧ bytes_wf tail.
Proof.
  intros Hr off words. pose proof (commit_len_bounds ps h Hr) as [Hcl _].
  assert (length (take off (h_mmap h)) = off) as Hpre.
  { rewrite length_take. destruct Hr. unfold off. lia. }
  destruct words as [[cvi cr] ncdl] eqn:Ew.
  destruct (commit_clear ps h cvi cr ncdl Hr) as (w & Hw & Hclear). fold off in Hclear.
  set (H1 := u32_bytes NVRAM_MAGIC ++ w ++ u32_bytes cvi ++ u32_bytes cr ++ u32_bytes ncdl) in *.
  assert (length H1 = 20%nat) as HH1 by (unfold H1; rewrite !length_app, !length_u32_bytes; lia).
  destruct (commit_body ps h (take off (h_mmap h)) H1 Hr Hpre HH1) as (tail & Htl & Hwf & Hbody).
  fold off in Hbody. exists tail. split_and!; [|rewrite length_app; simpl; lia|done].
  unfold commit_image. fold off. unfold words in Ew. rewrite Ew, Hclear. cbn [mbind result_bind].
  rewrite Hbody. cbn [mbind result_bind]. clear Hclear Hbody.
  assert (u32 (NVRAM_ROUNDUP (Z.of_nat (off + HDR_SIZE + length (text (vars h)) + 2) - h_offset h) 4)
    = commit_len h) as ->.
  { destruct Hr. unfold commit_len in *. rewrite u32_small; [f_equal|]; unfold off, HDR_SIZE; [lia|].
    replace (Z.of_nat _ - _) with (Z.of_nat (length (text (vars h))) + 22) by lia. lia. }
  set (pre := take off (h_mmap h)) in *. set (data := text (vars h) ++ 0 :: tail).
  unfold write_u32, H1.
  rewrite (mwrite_at _ (pre ++ u32_bytes NVRAM_MAGIC) w (u32_bytes cvi ++ u32_bytes cr ++ u32_bytes ncdl ++ data))
    by (rewrite ?length_app, ?length_u32_bytes, <- ?app_assoc; solve [done|lia]).
  cbn [mbind result_bind].
  assert ((pre ++ u32_bytes NVRAM_MAGIC) ++ u32_bytes (commit_len h) ++ u32_bytes cvi ++ u32_bytes cr
      ++ u32_bytes ncdl ++ data
    = pre ++ (u32_bytes NVRAM_MAGIC ++ u32_bytes (commit_len h) ++ u32_bytes cvi ++ u32_bytes cr
      ++ u32_bytes ncdl) ++ data) as -> by (by rewrite <- !app_assoc).
  destruct Hr. rewrite commit_crc_eq; [|by rewrite Hpre|by rewrite !length_app, !length_u32_bytes|lia
    |unfold data; rewrite length_app; simpl; lia].
  cbn [mbind result_bind fst snd].
  rewrite (mwrite_at _ (pre ++ u32_bytes NVRAM_MAGIC ++ u32_bytes (commit_len h)) (u32_bytes cvi)
    (u32_bytes cr ++ u32_bytes ncdl ++ data))
    by (rewrite ?length_app, ?length_u32_bytes, <- ?app_assoc; solve [done|lia]).
  unfold header_bytes. by rewrite <- !app_assoc.
Qed.

(** ** Parsing the text back *)

Definition pair_ok (p : list Z * list Z) : Prop := cstr_wf p.1 ∧ (61 ∉ p.1) ∧ cstr_wf p.2.

Definition set_pair (ha : handle * allocs) (p : list Z * list Z) : handle * allocs :=
  let '(_, h, al) := nvram_set ha.1 p.1 p.2 ha.2 in (h, al).

Lemma entry_head n v r : cstr_wf n → ∃ b, entry n v ++ r = b :: drop 1 (entry n v ++ r) ∧ b ≠ 0.
Proof.
  intros Hn. destruct n as [|b n]; simpl.
  - by exists 61.
  - apply Forall_cons in Hn as [Hb _]. exists b. split; [done|lia].
Qed.

Lemma parse_vars_text fuel (P tail : list Z) ps h al :
  Forall pair_ok ps → (length ps < fuel)%nat →
  parse_vars fuel (P ++ text ps ++ 0 :: tail) (length P) h al = Ret (foldl set_pair (h, al) ps).
Proof.
  intros Hps. revert fuel P h al. induction Hps as [|[n v] ps (Hn & Heq & Hv) Hps IH];
    intros fuel P h al Hf; (destruct fuel as [|fuel]; [simpl in *; lia|]); cbn [parse_vars].
  - unfold mget. rewrite lookup_app_r, Nat.sub_diag by done. done.
  - cbn [fst snd] in *. rewrite text_cons. cbn [fst snd].
    destruct (entry_head n v (text ps ++ 0 :: tail) Hn) as (b & Hb & Hb0).
    rewrite <- app_assoc. unfold mget. rewrite lookup_app_r, Nat.sub_diag by done.
    rewrite Hb. cbn [lookup list_lookup of_option mbind result_bind].
    rewrite (proj2 (Z.eqb_neq b 0)), <- Hb by done.
    assert (P ++ entry n v ++ text ps ++ 0 :: tail = P ++ (n ++ 61 :: v) ++ 0 :: (text ps ++ 0 :: tail)) as E1
      by (unfold entry; by rewrite <- !app_assoc).
    assert (P ++ entry n v ++ text ps ++ 0 :: tail = (P ++ n ++ [61]) ++ v ++ 0 :: (text ps ++ 0 :: tail)) as E2
      by (unfold entry; by rewrite <- !app_assoc).
    rewrite E1 at 1. rewrite cstr_at_app; [|apply Forall_app; split; [done|by constructor]|done].
    cbn [mbind result_bind]. rewrite strchr_app by done.
    rewrite E2 at 1. rewrite cstr_at_app by (rewrite ?length_app; simpl; solve [done|lia]).
    cbn [mbind result_bind]. rewrite take_app_length. cbn [foldl].
    unfold set_pair at 2. cbn [fst snd].
    destruct (nvram_set h n v al) as [[rc h'] al'].
    rewrite (app_assoc P), <- (IH fuel (P ++ entry n v) h' al') by (simpl in Hf; lia).
    f_equal. rewrite length_app, length_entry. lia.
Qed.

(** Every variable has a value. *)
Definition valued (h : handle) : Prop := Forall (λ t, is_Some (t_value t)) (mjoin (h_hash h)).

(** What an operation on the table does not touch, and that it leaves no
    variable without a value. *)
Definition same_image (h h' : handle) : Prop :=
  h_base h' = h_base h ∧ h_mmap h' = h_mmap h ∧ h_length h' = h_length h ∧ h_offset h' = h_offset h ∧
  (valued h → valued h').

Lemma same_image_trans h1 h2 h3 : same_image h1 h2 → same_image h2 h3 → same_image h1 h3.
Proof. unfold same_image. intros (?&?&?&?&?) (?&?&?&?&?). split_and!; [congruence..|auto]. Qed.
Lemma fits_same h h' v : same_image h h' → fits h' v = fits h v.
Proof. intros (_ & _ & Hl & Ho & _). unfold fits. by rewrite Hl, Ho. Qed.

Lemma elem_of_put t u b : t ∈ put_tuple u b → t = u ∨ t ∈ b.
Proof.
  unfold put_tuple. destruct (find_tuple (t_name u) b) as [[[pre x] post]|] eqn:Hf.
  - apply find_tuple_Some in Hf as (-> & _). rewrite !elem_of_app, !elem_of_cons. tauto.
  - rewrite elem_of_cons. tauto.
Qed.
Lemma put_var_valued h n v : handle_ok h → valued h → valued (put_var h n v).
Proof.
  intros Hok. unfold valued. rewrite !Forall_forall. intros Hv t (b & Ht & Hb)%list_elem_of_join.
  apply list_elem_of_lookup in Hb as [i Hi]. unfold put_var in Hi. cbn [set_hash h_hash] in Hi.
  apply list_lookup_insert_Some in Hi as [(_ & <- & _)|[_ Hi]].
  - apply elem_of_put in Ht as [->|Ht]; [by eexists|]. apply Hv. unfold bucket in Ht.
    destruct (h_hash h !! bucket_of n) as [b|] eqn:E; [|by apply not_elem_of_nil in Ht].
    apply list_elem_of_join. eauto using list_elem_of_lookup_2.
  - apply Hv, list_elem_of_join. eauto using list_elem_of_lookup_2.
Qed.
Lemma nil_valued base m ps off d : valued (Handle base m ps off (replicate NVRAM_BUCKETS []) d).
Proof. apply (bool_decide_unpack _). vm_compute. exact I. Qed.
Lemma put_var_same h n v : handle_ok h → same_image h (put_var h n v).
Proof. intros. unfold same_image. split_and!; [done..|]. by apply put_var_valued. Qed.

Definition insert_pair (m : gmap (list Z) (list Z)) (p : list Z * list Z) : gmap (list Z) (list Z) :=
  <[p.1 := p.2]> m.

Lemma foldl_insert_pair ps :
  NoDup ps.*1 → foldl insert_pair ∅ ps = list_to_map ps.
Proof.
  intros Hnd. rewrite (list_to_map_proper ps (reverse ps)); [|done|by rewrite reverse_Permutation].
  rewrite <- (reverse_involutive ps) at 1. generalize (reverse ps). clear.
  intros l. induction l as [|[n v] l IH]; [done|].
  rewrite reverse_cons, foldl_app, IH. done.
Qed.

Lemma foldl_set_pair h ps :
  handle_ok h → Forall pair_ok ps → Forall (λ p, fits h p.2 = true) ps →
  ∃ h', foldl set_pair (h, []) ps = (h', []) ∧ handle_ok h' ∧ same_image h h' ∧
        view h' = foldl insert_pair (view h) ps.
Proof.
  intros Hok Hps. revert h Hok. induction Hps as [|[n v] ps (Hn & _ & Hv) Hps IH]; intros h Hok Hfit.
  - by exists h.
  - apply Forall_cons in Hfit as [Hf Hfit]. cbn [fst snd] in *.
    destruct (IH (put_var h n v)) as (h' & E & Hok' & Hsame & Hview).
    + by apply put_var_ok.
    + exact Hfit.
    + exists h'. split_and!; [|done|by eapply same_image_trans; [apply put_var_same|]|].
      * cbn [foldl]. unfold set_pair at 2. cbn [fst snd]. by rewrite nvram_set_nofail.
      * rewrite Hview, view_put by done. done.
Qed.

Lemma set_absent_spec h name buf :
  handle_ok h → cstr_wf name → cstr_wf buf → fits h buf = true →
  ∃ h', set_absent name buf (h, []) = (h', []) ∧ handle_ok h' ∧ same_image h h' ∧
        view h' = view h ∪ {[name := buf]}.
Proof.
  intros Hok Hn Hb Hf. unfold set_absent. rewrite <- view_lookup by done.
  destruct (view h !! name) as [v|] eqn:E.
  - exists h. split_and!; [done..|]. apply map_eq. intros m. rewrite lookup_union.
    destruct (decide (m = name)) as [->|Hne]; [by rewrite E, lookup_singleton_eq|].
    rewrite lookup_singleton_ne by done. by destruct (view h !! m).
  - exists (put_var h name buf). rewrite nvram_set_nofail by done.
    split_and!; [done|by apply put_var_ok|by apply put_var_same|]. rewrite view_put by done.
    rewrite insert_union_singleton_r by done. done.
Qed.

Lemma foldl_set_absent h ps :
  handle_ok h → Forall (λ p, cstr_wf p.1 ∧ cstr_wf p.2 ∧ fits h p.2 = true) ps →
  ∃ h', foldl (λ ha p, set_absent p.1 p.2 ha) (h, []) ps = (h', []) ∧ handle_ok h' ∧
        same_image h h' ∧ view h' = view h ∪ list_to_map ps.
Proof.
  revert h. induction ps as [|[n v] ps IH]; intros h Hok Hps.
  - exists h. split_and!; [done..|]. by rewrite list_to_map_nil, (right_id_L ∅ (∪)).
  - apply Forall_cons in Hps as [(Hn & Hv & Hf) Hps]. cbn [fst snd foldl] in *.
    destruct (set_absent_spec h n v) as (h1 & -> & Hok1 & Hs1 & Hv1); [done..|].
    destruct (IH h1 Hok1) as (h2 & E & Hok2 & Hs2 & Hv2).
    { eapply Forall_impl; [exact Hps|]. intros p (?&?&?). by rewrite (fits_same h h1). }
    exists h2. split_and!; [done..| |].
    + eauto using same_image_trans.
    + rewrite Hv2, Hv1, list_to_map_cons, insert_union_singleton_l. by rewrite (assoc_L (∪)).
Qed.

(** The variables the header words stand for. *)
Definition sdram_pairs (hdr : nvram_header) : list (list Z * list Z) :=
  [(cs "sdram_init", fmt_0x 4 (u16 (crc_ver_init hdr .>> 16)));
   (cs "sdram_config", fmt_0x 4 (u16 (config_refresh hdr .& 0xffff)));
   (cs "sdram_refresh", fmt_0x 4 (u16 ((config_refresh hdr .>> 16) .& 0xffff)));
   (cs "sdram_ncdl", fmt_0x 8 (config_ncdl hdr))].
Definition sdram_map (hdr : nvram_header) : gmap (list Z) (list Z) := list_to_map (sdram_pairs hdr).

Lemma length_digits_of base f v acc : (length (digits_of base f v acc) ≤ f + length acc)%nat.
Proof.
  revert v acc. induction f as [|f IH]; intros; simpl; [done|].
  case_match; simpl; [lia|]. etrans; [apply IH|]. simpl. lia.
Qed.
Lemma fmt_0x_wf w v : 0 ≤ v < 2 ^ 32 → cstr_wf (fmt_0x w v).
Proof.
  intros. apply Forall_app. split; [|by apply fmt_hex_wf].
  apply (bool_decide_unpack _). vm_compute. exact I.
Qed.
Lemma length_fmt_0x w v : (w ≤ 8)%nat → (length (fmt_0x w v) ≤ 10)%nat.
Proof.
  intros. unfold fmt_0x, fmt_hex. rewrite !length_app, length_replicate, length_fmap.
  pose proof (length_digits_of 16 8 v []). change (length (cs "0x")) with 2%nat. simpl in *. lia.
Qed.

Lemma set_sdram_spec hdr h :
  handle_ok h → 11 ≤ u32 (h_length h - h_offset h) → 0 ≤ config_ncdl hdr < 2 ^ 32 →
  ∃ h', set_sdram hdr (h, []) = (h', []) ∧ handle_ok h' ∧ same_image h h' ∧
        view h' = view h ∪ sdram_map hdr.
Proof.
  intros Hok Hroom Hncdl. apply (foldl_set_absent h (sdram_pairs hdr) Hok).
  assert (∀ w v, (w ≤ 8)%nat → fits h (fmt_0x w v) = true) as Hfits.
  { intros w v Hw. apply Z.leb_le. pose proof (length_fmt_0x w v Hw). lia. }
  assert (∀ z, 0 ≤ u16 z < 2 ^ 32) as H16
    by (intros z; unfold u16; pose proof (Z.mod_pos_bound z (2 ^ 16)); lia).
  unfold sdram_pairs. repeat (apply Forall_cons; split); [..|constructor]; cbn [fst snd];
    (split_and!; [apply (bool_decide_unpack _); vm_compute; exact I|by apply fmt_0x_wf|apply Hfits; lia]).
Qed.

(** ** Rehashing an image of the committed form *)

Lemma header_at_bytes (pre rest : list Z) hdr k :
  k = length pre →
  0 ≤ magic hdr < 2 ^ 32 → 0 ≤ len hdr < 2 ^ 32 → 0 ≤ crc_ver_init hdr < 2 ^ 32 →
  0 ≤ config_refresh hdr < 2 ^ 32 → 0 ≤ config_ncdl hdr < 2 ^ 32 →
  header_at (pre ++ header_bytes hdr ++ rest) k = Ret hdr.
Proof.
  intros -> H0 H1 H2 H3 H4. unfold header_at, read_u32, header_bytes.
  destruct hdr as [a b c d e]; cbn [magic len crc_ver_init config_refresh config_ncdl] in *.
  assert (∀ (P X Q : list Z) z k, 0 ≤ z < 2 ^ 32 → X = P ++ u32_bytes z ++ Q → k = length P →
    (bs ← mread X k 4; Ret (u32_of bs)) = Ret z) as Hrd.
  { intros P X Q z k Hz -> ->. rewrite (mread_at _ P (u32_bytes z) Q) by (rewrite ?length_u32_bytes; done).
    simpl. by rewrite u32_of_bytes, u32_small. }
  rewrite <- !app_assoc.
  rewrite (Hrd pre _ (u32_bytes b ++ u32_bytes c ++ u32_bytes d ++ u32_bytes e ++ rest) a (length pre)) by done.
  cbn [mbind result_bind].
  rewrite (Hrd (pre ++ u32_bytes a) _ (u32_bytes c ++ u32_bytes d ++ u32_bytes e ++ rest) b (length pre + 4)%nat)
    by (rewrite ?length_app, ?length_u32_bytes, <- ?app_assoc; solve [done|lia]).
  cbn [mbind result_bind].
  rewrite (Hrd (pre ++ u32_bytes a ++ u32_bytes b) _ (u32_bytes d ++ u32_bytes e ++ rest) c (length pre + 8)%nat)
    by (rewrite ?length_app, ?length_u32_bytes, <- ?app_assoc; solve [done|lia]).
  cbn [mbind result_bind].
  rewrite (Hrd (pre ++ u32_bytes a ++ u32_bytes b ++ u32_bytes c) _ (u32_bytes e ++ rest) d (length pre + 12)%nat)
    by (rewrite ?length_app, ?length_u32_bytes, <- ?app_assoc; solve [done|lia]).
  cbn [mbind result_bind].
  rewrite (Hrd (pre ++ u32_bytes a ++ u32_bytes b ++ u32_bytes c ++ u32_bytes d) _ rest e (length pre + 16)%nat)
    by (rewrite ?length_app, ?length_u32_bytes, <- ?app_assoc; solve [done|lia]).
  done.
Qed.

Record header_ok (hdr : nvram_header) : Prop := {
  ho_magic : 0 ≤ magic hdr < 2 ^ 32;
  ho_len : 0 ≤ len hdr < 2 ^ 32;
  ho_cvi : 0 ≤ crc_ver_init hdr < 2 ^ 32;
  ho_cr : 0 ≤ config_refresh hdr < 2 ^ 32;
  ho_ncdl : 0 ≤ config_ncdl hdr < 2 ^ 32
}.

Lemma nvram_free_ok h : handle_ok (_nvram_free h) ∧ view (_nvram_free h) = ∅ ∧ same_image h (_nvram_free h).
Proof.
  assert (handle_ok (_nvram_free h)) as Hok.
  { split; [apply length_replicate|]. intros i Hi. unfold bucket. cbn [_nvram_free set_dead set_hash h_hash].
    rewrite lookup_replicate_2 by done. split; constructor. }
  split_and!; [done| |unfold same_image; split_and!; [done..|intros _; apply nil_valued]].
  apply map_eq. intros n. rewrite view_lookup, lookup_empty by done.
  rewrite nvram_get_in. unfold bucket. cbn [_nvram_free set_dead set_hash h_hash].
  by rewrite lookup_replicate_2 by apply bucket_of_lt.
Qed.

Lemma length_text_ge ps : (length ps ≤ length (text ps))%nat.
Proof.
  induction ps as [|p ps IH]; [simpl; lia|]. rewrite text_cons, length_app, length_entry. simpl. lia.
Qed.

Lemma rehash_image h (pre tail : list Z) hdr ps :
  h_mmap h = pre ++ header_bytes hdr ++ text ps ++ 0 :: tail → Z.to_nat (h_offset h) = length pre →
  header_ok hdr → Forall pair_ok ps → NoDup ps.*1 → Forall (λ p, fits h p.2 = true) ps →
  11 ≤ u32 (h_length h - h_offset h) →
  ∃ h', _nvram_rehash h [] = Ret (0, h', []) ∧ handle_ok h' ∧ same_image h h' ∧
        view h' = list_to_map ps ∪ sdram_map hdr.
Proof.
  intros Hm Hoff Hhdr Hps Hnd Hfit Hroom. destruct (nvram_free_ok h) as (Hok0 & Hv0 & Hs0).
  unfold _nvram_rehash. rewrite Hoff, Hm.
  assert (length pre + HDR_SIZE = length (pre ++ header_bytes hdr))%nat as Hpos
    by (rewrite length_app, length_header_bytes; done).
  rewrite Hpos, (app_assoc pre (header_bytes hdr)), parse_vars_text; [|done|].
  2:{ rewrite !length_app. pose proof (length_text_ge ps). simpl. lia. }
  destruct (foldl_set_pair (_nvram_free h) ps) as (h1 & -> & Hok1 & Hs1 & Hv1); [done..|].
  cbn [mbind result_bind]. rewrite <- app_assoc.
  destruct Hhdr. rewrite header_at_bytes by done. cbn [mbind result_bind].
  destruct (set_sdram_spec hdr h1) as (h2 & -> & Hok2 & Hs2 & Hv2); [done| |done|].
  { destruct Hs1 as (_ & _ & -> & -> & _). done. }
  exists h2. split_and!; [done..| |].
  - eauto using same_image_trans.
  - by rewrite Hv2, Hv1, Hv0, foldl_insert_pair.
Qed.

(** ** What a savable handle provides *)

Lemma vars_ok ps h : commit_ready ps h → Forall pair_ok (vars h).
Proof.
  intros [Hok Hs _ _ _ _ _ _]. unfold vars. apply Forall_forall. intros [n v] Hin.
  apply list_elem_of_omap in Hin as (t & Ht & Heq). unfold tuple_pair in Heq.
  rewrite Forall_forall in Hs. destruct (Hs t Ht) as [_ Hne].
  apply elem_of_buckets in Ht; [|done].
  destruct (proj2 Hok _ (bucket_of_lt (t_name t))) as [_ Hb]. rewrite Forall_forall in Hb.
  destruct (Hb t Ht) as (_ & Hn & Hv). destruct (t_value t) eqn:E; simplify_eq/=. 
  split_and!; [done..|]. by apply Hv.
Qed.
Lemma vars_NoDup h : handle_ok h → NoDup (vars h).*1.
Proof. intros. by apply pairs_NoDup, handle_names_NoDup. Qed.
Lemma text_elem p ps : p ∈ ps → (length p.2 + 2 ≤ length (text ps))%nat.
Proof.
  intros Hin. induction ps as [|q ps IH]; [by apply elem_of_nil in Hin|].
  rewrite text_cons, length_app, length_entry.
  apply elem_of_cons in Hin as [<-|Hin]; [lia|]. specialize (IH Hin). lia.
Qed.
Lemma vars_fit ps h : commit_ready ps h → Forall (λ p, fits h p.2 = true) (vars h).
Proof.
  intros []. apply Forall_forall. intros p Hin%text_elem. apply Z.leb_le.
  rewrite u32_small by lia. lia.
Qed.

Lemma commit_words_range h :
  0 ≤ (commit_words h).1.1 < 2 ^ 32 ∧ 0 ≤ (commit_words h).1.2 < 2 ^ 32 ∧ 0 ≤ (commit_words h).2 < 2 ^ 32.
Proof.
  unfold commit_words. repeat case_match;
    (split; [apply u32_range|split; [apply u32_range|first [apply u32_range|cbn; lia]]]).
Qed.
(** The checksum's byte of the regenerated word is free. *)
Lemma shifted_low x k : (256 | 2 ^ k) → 0 ≤ k → (x .<< k) mod 256 = 0.
Proof. intros [c Hc] Hk. rewrite Z.shiftl_mul_pow2, Hc, Z.mul_assoc by done. apply Z.mod_mul. lia. Qed.
Lemma lor_mod_256 x y : (x .| y) mod 256 = (x mod 256) .| (y mod 256).
Proof. change 256 with (2 ^ 8). rewrite <- !Z.land_ones by lia. apply Z.land_lor_distr_l. Qed.
Lemma commit_words_low h : (commit_words h).1.1 mod 256 = 0.
Proof.
  assert (∀ x, u32 ((NVRAM_VERSION .<< 8) .| (x .<< 16)) mod 256 = 0) as Hw.
  { intros x. unfold u32. rewrite Z.mod_mod_divide by (by exists (2 ^ 24)). rewrite lor_mod_256.
    by rewrite (shifted_low x 16) by (try exists 256; lia). }
  unfold commit_words. repeat case_match; apply Hw.
Qed.
Lemma crc_input_wf words data len :
  bytes_wf data → bytes_wf (crc_input words data len).
Proof.
  intros Hd. unfold crc_input. apply Forall_app. split; [apply Forall_drop, u32_bytes_wf|].
  apply Forall_app. split; [apply u32_bytes_wf|]. apply Forall_app.
  split; [apply u32_bytes_wf|by apply Forall_take].
Qed.
Lemma text_wf ps : Forall pair_ok ps → bytes_wf (text ps).
Proof.
  assert (∀ s, cstr_wf s → bytes_wf s) as Hs.
  { intros s Hs. eapply Forall_impl; [exact Hs|]. simpl. lia. }
  induction 1 as [|p ps (Hn & _ & Hv) Hps IH]; [constructor|].
  rewrite text_cons. unfold entry. repeat (apply Forall_app; split); [by apply Hs| |by apply Hs| |done];
    (constructor; [lia|constructor]).
Qed.

(** The committed image with the header as a value. *)
Lemma commit_image_header ps h :
  commit_ready ps h →
  ∃ tail hdr, let data := text (vars h) ++ 0 :: tail in
    commit_image ps h = Ret (take (Z.to_nat (h_offset h)) (h_mmap h) ++ header_bytes hdr ++ data) ∧
    Z.of_nat (length data) = ps - h_offset h - 20 ∧ bytes_wf data ∧ header_ok hdr ∧
    magic hdr = NVRAM_MAGIC ∧ len hdr = commit_len h ∧
    ∃ crc, 0 ≤ crc < 256 ∧
      crc = foldl crc8_step 0xff (crc_input (commit_words h) data (commit_len h)) ∧
      crc_ver_init hdr = (commit_words h).1.1 .| crc ∧
      config_refresh hdr = (commit_words h).1.2 ∧ config_ncdl hdr = (commit_words h).2.
Proof.
  intros Hr. destruct (commit_image_layout ps h Hr) as (tail & Himg & Hlen & Htail).
  pose proof (commit_len_bounds ps h Hr) as [Hcl _].
  destruct (commit_words_range h) as (Hw1 & Hw2 & Hw3).
  assert (bytes_wf (text (vars h) ++ 0 :: tail)) as Hdata.
  { apply Forall_app. split; [by eapply text_wf, vars_ok|]. constructor; [lia|done]. }
  exists tail. eexists. cbv zeta. split; [exact Himg|].
  set (crc := foldl crc8_step 0xff (crc_input (commit_words h) (text (vars h) ++ 0 :: tail) (commit_len h))).
  assert (0 ≤ crc < 256) as Hcrc by (apply crc8_foldl_range; [by apply crc_input_wf|lia]).
  split; [done|]. split; [done|]. split.
  { destruct Hr. split; cbn [magic len crc_ver_init config_refresh config_ncdl];
      [unfold NVRAM_MAGIC; lia|lia| |lia|lia]. apply (lor_range _ _ 32); lia. }
  split; [done|]. split; [done|]. exists crc. done.
Qed.


(** The table after a commit, before it is a property. *)
Lemma commit_rehash ps h :
  commit_ready ps h →
  ∃ h' hdr tail, nvram_commit ps h [] = Ret (0, h', []) ∧ handle_ok h' ∧
    h_base h' = h_base h ∧ h_length h' = ps ∧ h_offset h' = h_offset h ∧
    h_mmap h' = take (Z.to_nat (h_offset h)) (h_mmap h) ++ header_bytes hdr ++ text (vars h) ++ 0 :: tail ∧
    Z.of_nat (length (h_mmap h')) = ps ∧
    header_ok hdr ∧ magic hdr = NVRAM_MAGIC ∧ len hdr = commit_len h ∧
    view h' = view h ∪ sdram_map hdr ∧ bytes_wf (text (vars h) ++ 0 :: tail) ∧
    ∃ crc, 0 ≤ crc < 256 ∧
      crc = foldl crc8_step 0xff (crc_input (commit_words h) (text (vars h) ++ 0 :: tail) (commit_len h)) ∧
      crc_ver_init hdr = (commit_words h).1.1 .| crc ∧
      config_refresh hdr = (commit_words h).1.2 ∧ config_ncdl hdr = (commit_words h).2.
Proof.
  intros Hr. destruct (commit_image_header ps h Hr)
    as (tail & hdr & Himg & Hlen & Hwf & Hhdr & Hmag & Hl & crc & Hcrc & Hceq & Hcvi & Hcr & Hnc).
  assert (11 ≤ u32 (h_length h - h_offset h)) as Hroom.
  { destruct Hr. rewrite u32_small by lia. lia. }
  destruct (rehash_image (set_mmap (take (Z.to_nat (h_offset h)) (h_mmap h) ++ header_bytes hdr
      ++ text (vars h) ++ 0 :: tail) h) (take (Z.to_nat (h_offset h)) (h_mmap h)) tail hdr (vars h))
    as (h' & Hre & Hok' & (Hb & Hm & Hln & Ho & _) & Hv); [done| |done|by eapply vars_ok| | |done|].
  - cbn [set_mmap h_offset]. rewrite length_take. destruct Hr. lia.
  - apply vars_NoDup. by destruct Hr.
  - exact (vars_fit ps h Hr).
  - exists h', hdr, tail. unfold nvram_commit. rewrite Himg. cbn [mbind result_bind].
    split_and!; try done; [by rewrite Hln, <- (cr_len ps h Hr)| |by exists crc].
    rewrite Hm. cbn [set_mmap h_mmap]. rewrite !(length_app (take _ _)), length_app, length_header_bytes.
    rewrite length_take. destruct Hr. lia.
Qed.

(** ** Opening an image *)

(** No word before [off] is the magic: what the search of [nvram_open] found. *)
Definition first_magic (m : list Z) (off : nat) : Prop :=
  ∀ j, (4 * (j + 1) ≤ off)%nat → read_u32 m (4 * j) ≠ Ret NVRAM_MAGIC.

Lemma read_u32_in m k : (k + 4 ≤ length m)%nat → ∃ w, read_u32 m k = Ret w.
Proof. intros. unfold read_u32, mread. rewrite decide_True by done. simpl. eauto. Qed.

Lemma find_magic_found n m i k :
  (i ≤ k < i + n)%nat → (4 * k + 4 ≤ length m)%nat →
  (∀ j, (i ≤ j < k)%nat → read_u32 m (4 * j) ≠ Ret NVRAM_MAGIC) →
  read_u32 m (4 * k) = Ret NVRAM_MAGIC →
  find_magic n m i = Ret (Some (4 * k)%nat).
Proof.
  revert i. induction n as [|n IH]; intros i Hik Hm Hj Hk; [lia|]. cbn [find_magic].
  destruct (decide (i = k)) as [->|Hne].
  - rewrite Hk. cbn [mbind result_bind]. by rewrite Z.eqb_refl.
  - destruct (read_u32_in m (4 * i)) as [w Hw]; [lia|]. rewrite Hw. cbn [mbind result_bind].
    rewrite (proj2 (Z.eqb_neq w NVRAM_MAGIC)).
    + apply IH; [lia|done| |done]. intros j Hj'. apply Hj. lia.
    + intros ->. by apply (Hj i ltac:(lia)).
Qed.

Lemma read_u32_prefix (a b c : list Z) k :
  (k + 4 ≤ length a)%nat → read_u32 (a ++ b) k = read_u32 (a ++ c) k.
Proof.
  intros. unfold read_u32, mread. rewrite !decide_True by (rewrite length_app; lia).
  cbn [mbind result_bind]. rewrite !drop_app_le by lia.
  by rewrite !take_app_le by (rewrite length_drop; lia).
Qed.

Lemma open_image (pre tail : list Z) hdr vs base ps rdonly :
  let m := pre ++ header_bytes hdr ++ text vs ++ 0 :: tail in
  let off := Z.of_nat (length pre) in
  Z.of_nat (length m) = ps → ps < 2 ^ 31 → off mod 4 = 0 → NVRAM_MIN_SPACE ≤ ps - off →
  first_magic m (length pre) → header_ok hdr → magic hdr = NVRAM_MAGIC →
  Forall pair_ok vs → NoDup vs.*1 →
  ∃ h, nvram_open ps (Some (base, m)) rdonly [] =
         Ret (if rdonly || (len hdr <? ps - off) then Some h else None, []) ∧ handle_ok h ∧
       h_base h = base ∧ h_mmap h = m ∧ h_length h = ps ∧ h_offset h = off ∧ valued h ∧
       view h = list_to_map vs ∪ sdram_map hdr.
Proof.
  intros m off Hm Hps Hoff4 Hmin Hfirst Hhdr Hmag Hvs Hnd. unfold NVRAM_MIN_SPACE in *.
  assert (0 ≤ off) as Hoff0 by (unfold off; lia).
  assert (length pre = 4 * Z.to_nat (off / 4))%nat as Hk.
  { pose proof (Z.div_mod off 4). unfold off in *. lia. }
  assert (20 + length (text vs) < length m - length pre)%nat as Hlm.
  { unfold m. rewrite !length_app, length_header_bytes. simpl. lia. }
  set (h0 := Handle base m ps off (replicate NVRAM_BUCKETS []) []).
  destruct (rehash_image h0 pre tail hdr vs) as (h & Hre & Hok & (Hb & Hmm & Hl & Ho & Hval) & Hv);
    [done|unfold h0, off; simpl; lia|done..| | |].
  { apply Forall_forall. intros p Hp%text_elem. apply Z.leb_le. unfold h0. cbn [h_length h_offset].
    rewrite u32_small by lia. lia. }
  { unfold h0. cbn [h_length h_offset]. rewrite u32_small by lia. lia. }
  exists h. split_and!; [|done|by rewrite Hb|by rewrite Hmm|by rewrite Hl|by rewrite Ho|by apply Hval, nil_valued|done].
  unfold nvram_open. rewrite (Z.mod_small (ps - _)) by (destruct long_bits_ok as [-> | ->]; unfold NVRAM_MIN_SPACE; lia).
  rewrite (find_magic_found _ m 0 (Z.to_nat (off / 4))).
  - rewrite <- Hk. cbn [mbind result_bind malloc]. fold off. fold h0.
    destruct Hhdr. unfold m at 1. rewrite header_at_bytes by done. cbn [mbind result_bind].
    rewrite Hmag, Z.eqb_refl. cbn [andb]. rewrite Hre. cbn [mbind result_bind].
    unfold h0. cbn [h_length h_offset]. rewrite u32_small by lia. by case_match.
  - split; [lia|]. unfold NVRAM_MIN_SPACE.
    assert (off / 4 ≤ (ps - 0x8000) / 4) by (apply Z.div_le_mono; lia).
    assert (0 ≤ off / 4) by (apply Z.div_pos; lia). lia.
  - lia.
  - intros j Hj. apply Hfirst. lia.
  - rewrite <- Hk. unfold read_u32.
    rewrite (mread_at m pre (u32_bytes (magic hdr)) (u32_bytes (len hdr) ++ u32_bytes (crc_ver_init hdr)
      ++ u32_bytes (config_refresh hdr) ++ u32_bytes (config_ncdl hdr) ++ text vs ++ 0 :: tail));
      [|unfold m, header_bytes; by rewrite <- !app_assoc|done|by rewrite length_u32_bytes].
    cbn [mbind result_bind]. rewrite u32_of_bytes, Hmag. by rewrite u32_small.
Qed.

(** The image of a commit is what [nvram_open] then sees. *)
Lemma commit_open ps h rdonly :
  commit_ready ps h → NVRAM_MIN_SPACE ≤ ps - h_offset h →
  first_magic (h_mmap h) (Z.to_nat (h_offset h)) →
  ∃ h' h'' hdr, nvram_commit ps h [] = Ret (0, h', []) ∧
    nvram_open ps (Some (h_base h, h_mmap h')) rdonly [] =
      Ret (if rdonly || (commit_len h <? ps - h_offset h) then Some h'' else None, []) ∧
    handle_ok h'' ∧ view h'' = view h ∪ sdram_map hdr ∧ view h' = view h''.
Proof.
  intros Hr Hmin Hfirst.
  destruct (commit_rehash ps h Hr)
    as (h' & hdr & tail & Hc & Hok & Hb & Hl & Ho & Hm & Hps & Hhdr & Hmag & Hlen & Hv & _).
  pose proof (vars_ok ps h Hr) as Hvs. pose proof (vars_NoDup h (cr_ok ps h Hr)) as Hnd.
  set (pre := take (Z.to_nat (h_offset h)) (h_mmap h)) in *.
  assert (Z.of_nat (length pre) = h_offset h) as Hpre.
  { unfold pre. rewrite length_take. destruct Hr. lia. }
  destruct (open_image pre tail hdr (vars h) (h_base h) ps rdonly) as (h'' & Hop & Hok'' & _ & _ & _ & _ & _ & Hv'');
    rewrite ?Hpre, <- ?Hm; [done|by destruct Hr|by destruct Hr as [_ _ _ _ [_ ?]]|done| |done..|].
  { intros j Hj. rewrite Hm, (read_u32_prefix pre _ (drop (Z.to_nat (h_offset h)) (h_mmap h))) by lia.
    unfold pre. rewrite take_drop. apply Hfirst. lia. }
  exists h', h'', hdr. rewrite Hm, <- Hlen, <- Hpre. split_and!; try done. by rewrite Hv''.
Qed.

(** ** Bounds of any commit *)

(** A write at or after [k] keeps the first [k] bytes. *)
Lemma mwrite_take m pos bs m' k :
  mwrite m pos bs = Ret m' → (k ≤ pos)%nat → take k m' = take k m.
Proof.
  intros [Hb ->]%mwrite_inv Hk. rewrite take_app_le by (rewrite length_take; lia).
  rewrite take_take. f_equal. lia.
Qed.
Lemma mwrite_in m pos bs : (pos + length bs ≤ length m)%nat → ∃ m', mwrite m pos bs = Ret m'.
Proof. intros. rewrite mwrite_ret by done. eauto. Qed.

(** [m'] is [m] rewritten at or after byte [k]. *)
Definition kept (k : nat) (m m' : list Z) : Prop := length m' = length m ∧ take k m' = take k m.
Lemma kept_refl k m : kept k m m.
Proof. done. Qed.
Lemma kept_trans k m1 m2 m3 : kept k m1 m2 → kept k m2 m3 → kept k m1 m3.
Proof. unfold kept. intros [] []. split; congruence. Qed.
Lemma kept_write k m pos bs :
  (k ≤ pos)%nat → (pos + length bs ≤ length m)%nat → ∃ m', mwrite m pos bs = Ret m' ∧ kept k m m'.
Proof.
  intros Hk Hl. destruct (mwrite_in m pos bs Hl) as [m' E]. exists m'. split; [done|].
  split; [by eapply mwrite_length|by eapply mwrite_take].
Qed.

Lemma write_bucket_safe k m ptr end_ b :
  Forall (λ t, is_Some (t_value t)) b → (k ≤ ptr)%nat → Z.of_nat ptr ≤ end_ ≤ Z.of_nat (length m) →
  ∃ m' ptr', write_bucket m ptr end_ b = Ret (m', ptr') ∧ kept k m m' ∧
    (ptr ≤ ptr')%nat ∧ Z.of_nat ptr' ≤ end_ ∧ (ptr' ≤ ptr + length (text (omap tuple_pair b)))%nat.
Proof.
  intros Hb. revert m ptr. induction Hb as [|t b [v Hv] Hb IH]; intros m ptr Hk Hend; cbn [write_bucket].
  - exists m, ptr. split_and!; solve [done|lia|apply kept_refl].
  - rewrite (pairs_cons t v b Hv), text_cons, length_app. cbn [fst snd]. rewrite Hv. cbn [of_option mbind result_bind].
    destruct (Z.ltb_spec end_ (Z.of_nat (ptr + length (t_name t) + 1 + length v + 1))) as [Hlt|Hge].
    + exists m, ptr. split_and!; solve [done|lia|apply kept_refl].
    + pose proof (length_entry (t_name t) v) as Hle.
      destruct (kept_write k m ptr (entry (t_name t) v)) as (m1 & -> & Hk1); [lia..|].
      cbn [mbind result_bind].
      destruct (IH m1 (ptr + length (entry (t_name t) v))%nat) as (m' & ptr' & E & Hk' & Hp & He & Ht);
        [lia|destruct Hk1; lia|].
      exists m', ptr'. split_and!; [done|by eapply kept_trans|lia..].
Qed.
Lemma write_buckets_safe k m ptr end_ bs :
  Forall (λ t, is_Some (t_value t)) (mjoin bs) → (k ≤ ptr)%nat →
  Z.of_nat ptr ≤ end_ ≤ Z.of_nat (length m) →
  ∃ m' ptr', write_buckets m ptr end_ bs = Ret (m', ptr') ∧ kept k m m' ∧
    (ptr ≤ ptr')%nat ∧ Z.of_nat ptr' ≤ end_ ∧ (ptr' ≤ ptr + length (text (omap tuple_pair (mjoin bs))))%nat.
Proof.
  revert m ptr. induction bs as [|b bs IH]; intros m ptr Hb Hk Hend; cbn [write_buckets].
  - exists m, ptr. split_and!; solve [done|lia|apply kept_refl].
  - change (mjoin (b :: bs)) with (b ++ mjoin bs) in *. apply Forall_app in Hb as [Hb Hbs].
    rewrite omap_app, text_app, length_app.
    destruct (write_bucket_safe k m ptr end_ b) as (m1 & ptr1 & -> & Hk1 & Hp1 & He1 & Ht1); [done..|].
    cbn [mbind result_bind].
    destruct (IH m1 ptr1 Hbs) as (m' & ptr' & E & Hk' & Hp & He & Ht); [lia|destruct Hk1; lia|].
    exists m', ptr'. split_and!; [done|by eapply kept_trans|lia..].
Qed.

(** The handle maps a whole partition with room for the header; of the
    variables nothing is said where it is mapped low. *)
Record mapped (ps : Z) (h : handle) : Prop := {
  mp_mmap : Z.of_nat (length (h_mmap h)) = ps;
  mp_off : 0 ≤ h_offset h ∧ h_offset h mod 4 = 0;
  mp_ps : ps mod 4 = 0;
  mp_max : ps < 2 ^ 31;
  mp_base : 0 ≤ h_base h ∧ h_base h mod 4 = 0;
  mp_pad : pad_room ps h;
  mp_space : h_offset h + 22 ≤ ps
}.

Lemma commit_header_safe ps h words :
  mapped ps h → ∃ m, commit_header ps h words = Ret m ∧ kept (Z.to_nat (h_offset h)) (h_mmap h) m.
Proof.
  intros []. destruct words as [[cvi cr] ncdl]. unfold commit_header, write_u32, mset.
  set (off := Z.to_nat (h_offset h)).
  destruct (kept_write off (h_mmap h) off (u32_bytes NVRAM_MAGIC)) as (m1 & -> & K1);
    [rewrite ?length_u32_bytes; lia..|]. cbn [mbind result_bind]. pose proof (proj1 K1).
  destruct (kept_write off m1 (off + 8) (u32_bytes cvi)) as (m2 & -> & K2);
    [rewrite ?length_u32_bytes; lia..|]. cbn [mbind result_bind]. pose proof (proj1 K2).
  destruct (kept_write off m2 (off + 12) (u32_bytes cr)) as (m3 & -> & K3);
    [rewrite ?length_u32_bytes; lia..|]. cbn [mbind result_bind]. pose proof (proj1 K3).
  destruct (kept_write off m3 (off + 16) (u32_bytes ncdl)) as (m4 & -> & K4);
    [rewrite ?length_u32_bytes; lia..|]. cbn [mbind result_bind]. pose proof (proj1 K4).
  unfold HDR_SIZE. rewrite (proj2 (Z.ltb_ge _ 0)) by lia.
  destruct (kept_write off m4 (off + 20) (replicate (Z.to_nat (ps - h_offset h - Z.of_nat 20)) 0xFF))
    as (m5 & -> & K5); [rewrite ?length_replicate; lia..|].
  exists m5. split; [done|].
  eapply kept_trans, K5. eapply kept_trans, K4. eapply kept_trans, K3. by eapply kept_trans, K2.
Qed.

Lemma commit_tuples_safe ps h m :
  mapped ps h → valued h → Z.of_nat (length m) = ps →
  ∃ m' ptr, commit_tuples ps h m = Ret (m', ptr) ∧ kept (Z.to_nat (h_offset h)) m m' ∧
    h_offset h + 20 ≤ Z.of_nat ptr ≤ ps - 2.
Proof.
  intros [] Hval Hm. unfold commit_tuples. set (off := Z.to_nat (h_offset h)). unfold HDR_SIZE.
  destruct (write_buckets_safe off m (off + 20) (ps - 2) (h_hash h)) as (m1 & ptr & -> & K1 & Hp & He & Ht);
    [done|lia..|]. cbn [mbind result_bind]. pose proof (proj1 K1).
  destruct (kept_write off m1 ptr [0]) as (m2 & -> & K2); [simpl; lia..|].
  cbn [mbind result_bind]. pose proof (proj1 K2). unfold commit_pad.
  destruct mp_base0 as [Hb0 Hb4].
  pose proof (pad_rem (h_base h) (Z.of_nat (ptr + 1)) Hb0 Hb4 ltac:(lia)) as Hrem. cbv zeta in Hrem.
  set (r := Z.rem (s32 (h_base h + Z.of_nat (ptr + 1))) 4) in *.
  pose proof (Z.mod_pos_bound (Z.of_nat (ptr + 1)) 4). pose proof (Z.div_mod (Z.of_nat (ptr + 1)) 4).
  pose proof (Z.div_mod ps 4).
  assert (r < 4 ∧ (Z.of_nat (ptr + 1) + (4 - r) ≤ ps ∨ r = 0)) as [Hr4 Hr].
  { destruct mp_pad0 as [?|?]; fold (vars h) in Ht; lia. }
  destruct (Z.eqb_spec r 0) as [|Hr0].
  - exists m2, ptr. cbn [mbind result_bind]. split_and!; [done|by eapply kept_trans|lia|lia].
  - unfold mset.
    destruct (kept_write off m2 (ptr + 1) (replicate (Z.to_nat (4 - r)) 0)) as (m3 & -> & K3);
      [rewrite ?length_replicate; lia..|].
    exists m3, ptr. cbn [mbind result_bind]. split_and!; [done| |lia|lia].
    eapply kept_trans, K3. by eapply kept_trans, K2.
Qed.

Lemma commit_crc_safe words m off len :
  Z.of_nat off + len ≤ Z.of_nat (length m) → 20 ≤ len < 2 ^ 32 →
  ∃ crc, commit_crc words m off len = Ret crc.
Proof.
  intros Hm Hlen. rewrite <- (take_drop off m).
  assert (length (take off m) = off) as Ht by (rewrite length_take; lia).
  rewrite <- (take_drop 20 (drop off m)).
  eexists. apply commit_crc_eq; rewrite ?length_take, ?length_drop; lia.
Qed.

(** [nvram_commit] writes only at or after the offset, and keeps the size. *)
Lemma commit_image_safe ps h :
  mapped ps h → valued h →
  ∃ m, commit_image ps h = Ret m ∧ kept (Z.to_nat (h_offset h)) (h_mmap h) m.
Proof.
  intros Hmp Hval. unfold commit_image. set (off := Z.to_nat (h_offset h)).
  destruct (commit_header_safe ps h (commit_words h) Hmp) as (m1 & -> & K1). cbn [mbind result_bind].
  pose proof (proj1 K1) as L1.
  destruct (commit_tuples_safe ps h m1 Hmp Hval) as (m2 & ptr & -> & K2 & Hp); [destruct Hmp; lia|].
  cbn [mbind result_bind]. pose proof (proj1 K2) as L2.
  assert (off = Z.to_nat (h_offset h)) as Hoff by done. destruct Hmp.
  assert (ps - h_offset h < 2 ^ 32) by lia.
  destruct (roundup4 (Z.of_nat (ptr + 2) - h_offset h)) as [Hr _]; [lia|].
  pose proof (roundup4_le (Z.of_nat (ptr + 2) - h_offset h) (ps - h_offset h)) as Hle.
  rewrite Zminus_mod in Hle. destruct mp_off0 as [? Ho4]. rewrite mp_ps0, Ho4 in Hle.
  specialize (Hle ltac:(lia) eq_refl).
  set (len := NVRAM_ROUNDUP _ _) in *. rewrite (u32_small len) by lia.
  unfold write_u32.
  destruct (kept_write off m2 (off + 4) (u32_bytes len)) as (m3 & -> & K3);
    [rewrite ?length_u32_bytes; lia..|]. cbn [mbind result_bind]. pose proof (proj1 K3) as L3.
  destruct (commit_crc_safe (commit_words h) m3 off len) as (crc & ->); [lia..|]. cbn [mbind result_bind].
  destruct (kept_write off m3 (off + 8) (u32_bytes ((commit_words h).1.1 .| crc))) as (m4 & -> & K4);
    [rewrite ?length_u32_bytes; lia..|].
  exists m4. split; [done|].
  eapply kept_trans, K4. eapply kept_trans, K3. by eapply kept_trans, K2.
Qed.

(** ** A variable without a value *)

Lemma write_bucket_null m ptr end_ b :
  Exists (λ t, t_value t = None) b →
  Z.of_nat (ptr + length (text (omap tuple_pair b))) ≤ end_ ≤ Z.of_nat (length m) →
  write_bucket m ptr end_ b = Fault NullDeref.
Proof.
  revert m ptr. induction b as [|t b IH]; intros m ptr Hex Hend; [by apply Exists_nil in Hex|].
  cbn [write_bucket]. destruct (t_value t) as [v|] eqn:Hv; [|done]. cbn [of_option mbind result_bind].
  apply Exists_cons in Hex as [|Hex]; [congruence|].
  rewrite (pairs_cons t v b Hv), text_cons, length_app in Hend. cbn [fst snd] in Hend.
  pose proof (length_entry (t_name t) v) as Hle.
  rewrite (proj2 (Z.ltb_ge _ _)) by lia.
  destruct (kept_write 0 m ptr (entry (t_name t) v)) as (m1 & -> & [Hl1 _]); [lia..|].
  cbn [mbind result_bind]. apply IH; [done|lia].
Qed.

Lemma write_buckets_null m ptr end_ bs :
  Exists (λ t, t_value t = None) (mjoin bs) →
  Z.of_nat (ptr + length (text (omap tuple_pair (mjoin bs)))) ≤ end_ ≤ Z.of_nat (length m) →
  write_buckets m ptr end_ bs = Fault NullDeref.
Proof.
  revert m ptr. induction bs as [|b bs IH]; intros m ptr Hex Hend; [by apply Exists_nil in Hex|].
  change (mjoin (b :: bs)) with (b ++ mjoin bs) in *. cbn [write_buckets].
  rewrite omap_app, text_app, length_app in Hend.
  destruct (decide (Exists (λ t, t_value t = None) b)) as [Hb|Hb].
  { rewrite write_bucket_null by (done || lia). done. }
  apply Exists_app in Hex as [|Hex]; [done|].
  destruct (write_bucket_text m ptr end_ b) as (m1 & -> & Hw); [|lia..|].
  { rewrite <- Forall_Exists_neg in Hb. eapply Forall_impl; [exact Hb|].
    intros t. cbn. destruct (t_value t); naive_solver. }
  apply mwrite_length in Hw.
  cbn [mbind result_bind]. apply IH; [done|lia].
Qed.

(** ** Termination of the parser *)

Lemma parse_vars_fuel fuel m pos h al :
  (length m - pos < fuel)%nat → parse_vars fuel m pos h al ≠ Fault OutOfFuel.
Proof.
  revert pos h al. induction fuel as [|fuel IH]; intros pos h al Hf; [lia|]. cbn [parse_vars].
  unfold mget. destruct (m !! pos) as [b|] eqn:Hb; [|done]. cbn [of_option mbind result_bind].
  apply lookup_lt_Some in Hb. destruct (b =? 0); [done|]. unfold cstr_at.
  destruct (cstr_scan (drop pos m)) as [s|]; [|done]. cbn [of_option mbind result_bind].
  destruct (strchr s 61) as [k|]; [|done].
  destruct (cstr_scan (drop (pos + k + 1) m)) as [v|]; [|done]. cbn [of_option mbind result_bind].
  destruct (nvram_set h (take k s) v al) as [[rc h'] al']. apply IH. lia.
Qed.

Lemma read_u32_fuel m k : read_u32 m k ≠ Fault OutOfFuel.
Proof. unfold read_u32, mread. by case_decide. Qed.

Lemma header_at_fuel m k : header_at m k ≠ Fault OutOfFuel.
Proof.
  unfold header_at. repeat match goal with
  | |- context [read_u32 m ?j] =>
      pose proof (read_u32_fuel m j); destruct (read_u32 m j); cbn [mbind result_bind]; [|congruence]
  end. done.
Qed.

Lemma rehash_fuel h al : _nvram_rehash h al ≠ Fault OutOfFuel.
Proof.
  unfold _nvram_rehash.
  pose proof (parse_vars_fuel (S (length (h_mmap h))) (h_mmap h) (Z.to_nat (h_offset h) + HDR_SIZE)
    (_nvram_free h) al ltac:(lia)) as Hp.
  destruct (parse_vars _ _ _ _ _) as [ha|]; cbn [mbind result_bind]; [|congruence].
  pose proof (header_at_fuel (h_mmap h) (Z.to_nat (h_offset h))) as Hh.
  destruct (header_at _ _) as [hdr|]; cbn [mbind result_bind]; [|congruence].
  by destruct (set_sdram hdr ha).
Qed.

Lemma find_magic_fuel n m i : find_magic n m i ≠ Fault OutOfFuel.
Proof.
  revert i. induction n as [|n IH]; intros i; [done|]. cbn [find_magic].
  pose proof (read_u32_fuel m (4 * i)). destruct (read_u32 m (4 * i)); cbn [mbind result_bind]; [|congruence].
  by case_match.
Qed.

End props.

(** ** The properties *)

(** A partition of 32 KiB with one variable of [n] bytes. *)
Definition demo (n : Z) : handle :=
  put_var (A := mipsel) (empty_handle 32768 0) (cs "wan") (replicate (Z.to_nat n) 120).
Lemma demo_vars n : vars (demo n) = [(cs "wan", replicate (Z.to_nat n) 120)].
Proof. reflexivity. Qed.
Lemma demo_text n : 0 ≤ n → Z.of_nat (length (text (vars (demo n)))) = n + 5.
Proof.
  intros. rewrite demo_vars, text_cons, length_app, length_entry. cbn [fst snd]. rewrite length_replicate.
  simpl. lia.
Qed.
Lemma demo_mmap n : Z.of_nat (length (h_mmap (demo n))) = 32768.
Proof.
  unfold demo, put_var, set_hash, empty_handle. cbn [h_mmap]. rewrite length_replicate. lia.
Qed.
Lemma demo_mapped n : mapped 32768 (demo n).
Proof. split; [apply demo_mmap|done..|by left|done]. Qed.
Lemma demo_ready n : 0 ≤ n ≤ 32741 → commit_ready (A := mipsel) 32768 (demo n).
Proof.
  intros Hn. split; [| |done|apply demo_mmap|done..|by left|].
  - apply put_var_ok; [apply empty_handle_ok|apply (bool_decide_unpack _); vm_compute; exact I|].
    apply Forall_replicate. lia.
  - change (mjoin (h_hash (demo n))) with [Tuple (cs "wan") (Some (replicate (Z.to_nat n) 120))].
    apply Forall_singleton. split; [by eexists|]. apply (bool_decide_unpack _). vm_compute. exact I.
  - change (h_offset (demo n)) with 0. rewrite demo_text; lia.
Qed.
Lemma demo_len n : 0 ≤ n → commit_len (demo n) = NVRAM_ROUNDUP (n + 5 + 22) 4.
Proof. intros. unfold commit_len. by rewrite demo_text. Qed.
Lemma demo_first n : first_magic (A := mipsel) (h_mmap (demo n)) (Z.to_nat (h_offset (demo n))).
Proof. intros j Hj. change (Z.to_nat (h_offset (demo n))) with 0%nat in Hj. lia. Qed.





(** A table that fills the partition to its last word is committed with
    status 0, but the image is refused when it is opened again for writing:
    [nvram_open] compares the length with [<]. *)
Theorem commit_full_refused {A : Arch} ps h :
  commit_ready ps h → NVRAM_MIN_SPACE ≤ ps - h_offset h →
  first_magic (h_mmap h) (Z.to_nat (h_offset h)) →
  commit_len h = ps - h_offset h →
  ∃ h', nvram_commit ps h [] = Ret (0, h', []) ∧
    nvram_open ps (Some (h_base h, h_mmap h')) false [] = Ret (None, []).
Proof.
  intros Hr Hmin Hf Hlen.
  destruct (commit_open ps h false Hr Hmin Hf) as (h' & h'' & hdr & Hc & Hop & _).
  exists h'. split; [done|]. rewrite Hop, Hlen, Z.ltb_irrefl. done.
Qed.

Lemma commit_full_refused_witness :
  ∃ h', nvram_commit (A := mipsel) 32768 (demo 32740) [] = Ret (0, h', []) ∧
    nvram_open (A := mipsel) 32768 (Some (0, h_mmap h')) false [] = Ret (None, []).
Proof.
  apply (commit_full_refused (A := mipsel) 32768 (demo 32740)).
  - apply demo_ready. lia.
  - done.
  - apply demo_first.
  - by rewrite demo_len.
Defined.

(** C6: whatever the variables and their size, as long as each has a value,
    [nvram_commit]'s image stays in the partition: every write is inside the
    mapping, its size is kept and no byte before the offset of the header
    changes.  The partition is whole words (offset, size and address multiples of
    4) of less than 2 GiB with room for the header and two bytes, and mapped below
    2 GiB in the low 32 bits of the address; mapped higher, it has to have 6 bytes
    after the variables, which otherwise the pad can overrun. *)
Theorem commit_in_bounds {A : Arch} ps h :
  mapped ps h → valued h →
  ∃ m, commit_image ps h = Ret m ∧ length m = length (h_mmap h) ∧
    take (Z.to_nat (h_offset h)) m = take (Z.to_nat (h_offset h)) (h_mmap h).
Proof. apply commit_image_safe. Qed.

Lemma commit_in_bounds_witness :
  ∃ m, commit_image (A := mipsel) 32768 (demo 40000) = Ret m ∧ length m = length (h_mmap (demo 40000)) ∧
    take (Z.to_nat (h_offset (demo 40000))) m =
    take (Z.to_nat (h_offset (demo 40000))) (h_mmap (demo 40000)).
Proof.
  apply (commit_in_bounds (A := mipsel) 32768 (demo 40000)).
  - apply demo_mapped.
  - apply (Forall_singleton _ (Tuple (cs "wan") (Some (replicate (Z.to_nat 40000) 120)))). by eexists.
Defined.

(** The pad runs off the end of a partition that is mapped from 2 GiB on and
    has less than a word to spare: nvram.c takes the remainder of a negative
    number.  The same table is saved at a low address. *)
Definition demo_at (base n : Z) : handle :=
  let h := demo n in Handle base (h_mmap h) (h_length h) (h_offset h) (h_hash h) (h_dead h).
Example commit_pad_high :
  commit_image (A := mipsel) 32768 (demo_at 0xB0000000 32739) = Fault OutOfBounds.
Proof. vm_compute. reflexivity. Qed.
Example commit_pad_low : returns (commit_image (A := mipsel) 32768 (demo_at 0x70000000 32739)) = true.
Proof. vm_compute. reflexivity. Qed.

(** A variable left without a value (a replacement whose allocation
    failed) makes [nvram_commit] dereference NULL. *)
Theorem commit_null_value {A : Arch} ps h al :
  mapped ps h → Exists (λ t, t_value t = None) (mjoin (h_hash h)) →
  h_offset h + 20 + Z.of_nat (length (text (vars h))) + 2 ≤ ps →
  nvram_commit ps h al = Fault NullDeref.
Proof.
  intros Hmp Hex Hfit. unfold nvram_commit, commit_image.
  destruct (commit_header_safe ps h (commit_words h) Hmp) as (m1 & -> & [L1 _]).
  cbn [mbind result_bind]. unfold commit_tuples, HDR_SIZE. destruct Hmp.
  rewrite write_buckets_null; [done|done|]. unfold vars in Hfit. lia.
Qed.

Lemma commit_null_value_witness :
  let '(rc, h, al) := nvram_set (A := mipsel) (demo 3) (cs "wan") (cs "dhcpv6") [false] in
  rc = -12 ∧ nvram_commit (A := mipsel) 32768 h al = Fault NullDeref.
Proof.
  split; [reflexivity|]. apply (commit_null_value (A := mipsel) 32768).
  - split; [apply (demo_mmap 3)|done..|by left|done].
  - by left.
  - done.
Defined.

(** C7: opening any image terminates: [nvram_open] returns, or reads outside
    the mapping or through a NULL pointer, but never loops. *)
Theorem nvram_open_terminates {A : Arch} ps mapping rdonly al :
  nvram_open ps mapping rdonly al ≠ Fault OutOfFuel.
Proof.
  unfold nvram_open. destruct mapping as [[base m]|]; [|done].
  pose proof (find_magic_fuel (Z.to_nat ((ps - NVRAM_MIN_SPACE) mod 2 ^ long_bits / 4 + 1)) m 0).
  destruct (find_magic _ m 0) as [[off|]|]; cbn [mbind result_bind]; [|done|congruence].
  destruct (malloc al) as [[] al']; [|done].
  pose proof (header_at_fuel m off). destruct (header_at m off); cbn [mbind result_bind]; [|congruence].
  case_match; [|done].
  match goal with |- context [_nvram_rehash ?h ?a] => pose proof (rehash_fuel h a) as Hre end.
  destruct (_nvram_rehash _ _) as [[[rc h] al'']|]; cbn [mbind result_bind]; [done|congruence].
Qed.

End NvramCommit.
