(* ===== verification/NvramCli.v ===== *)
(** * The nvram command (package/utils/nvram/src/cli.c, with the staging file
    of nvram.c)

    The command line over the library: the staging file and the flash
    partition, the commands, and [main].  Files are byte lists; opening,
    mapping and writing a file that exists succeeds.  [base] is the address
    [mmap] chooses and [percent] the text of the usage percentage, which is
    floating-point. *)

From S2P Require Import Prelude CLib Crc8 Nvram NvramFlash NvramCommit.
Import Crc8 Nvram NvramFlash NvramCommit.
Open Scope Z_scope.
Open Scope cint_scope.

Module NvramCli.

(** ** Files *)







Section cli.
Context {A : Arch} (base : Z) (percent : Z → Z → list Z).









(** ** Commands *)





(** The checksum [do_info] computes: the header from byte 9 on, with the data. *)
Definition info_crc (h : handle) (hdr : nvram_header) : result Z :=
  hndcrc8 (drop (Z.to_nat (h_offset h) + NVRAM_CRC_START_POSITION) (h_mmap h))
    (Z.to_nat (u32 (len hdr - Z.of_nat NVRAM_CRC_START_POSITION))) 0xff.



(** ** The command line *)






End cli.

(** ** Lemmas *)

Section lemmas.
Context {A : Arch} (base : Z) (percent : Z → Z → list Z).











(** ** The checksum of [do_info] *)

(** The bytes [do_info] runs over are those the commit summed, except that the
    first word is the stored one, with the checksum in it. *)
Lemma info_crc_input h pre hdr data :
  h_mmap h = pre ++ header_bytes hdr ++ data → Z.to_nat (h_offset h) = length pre →
  20 ≤ len hdr < 2 ^ 32 → len hdr - 20 ≤ Z.of_nat (length data) →
  info_crc h hdr = Ret (foldl crc8_step 0xff
    (crc_input (crc_ver_init hdr, config_refresh hdr, config_ncdl hdr) data (len hdr))).
Proof.
  intros Hm Ho Hlen Hd. unfold info_crc. rewrite Ho, Hm, <- drop_drop, drop_app_length.
  change NVRAM_CRC_START_POSITION with 9%nat. rewrite u32_small by lia.
  assert (drop 9 (header_bytes hdr ++ data) =
    drop 1 (u32_bytes (crc_ver_init hdr)) ++ u32_bytes (config_refresh hdr) ++ u32_bytes (config_ncdl hdr)
      ++ data) as ->.
  { unfold header_bytes. rewrite <- !app_assoc.
    change 9%nat with (4 + (4 + 1))%nat.
    rewrite <- !drop_drop, !drop_app_length' by (by rewrite length_u32_bytes).
    by rewrite drop_app_le by (rewrite length_u32_bytes; lia). }
  rewrite hndcrc8_take.
  2:{ rewrite !length_app, length_drop, !length_u32_bytes. lia. }
  do 2 f_equal. unfold crc_input. cbn [fst snd].
  rewrite !take_app, length_drop, !length_u32_bytes.
  rewrite !take_ge by (rewrite ?length_drop, ?length_u32_bytes; lia).
  do 4 f_equal. lia.
Qed.

(** The stored word is the regenerated one with the checksum as low byte. *)
Lemma lor_low_byte w c : w mod 256 = 0 → 0 ≤ c < 256 → (w .| c) mod 256 = c ∧ (w .| c) / 256 = w / 256.
Proof.
  intros Hw Hc. split.
  - rewrite lor_mod_256, Hw, Z.lor_0_l. by apply Z.mod_small.
  - change 256 with (2 ^ 8). rewrite <- !Z.shiftr_div_pow2, Z.shiftr_lor by lia.
    rewrite (Z.shiftr_div_pow2 c 8), (Z.div_small c) by lia. apply Z.lor_0_r.
Qed.

(** Committing, as [do_info] sees it. *)
Lemma commit_info ps h :
  commit_ready ps h →
  ∃ h' hdr crc data w, nvram_commit ps h [] = Ret (0, h', []) ∧
    header_at (h_mmap h') (Z.to_nat (h_offset h')) = Ret hdr ∧
    crc_ver_init hdr .& 0xFF = crc ∧ 0 ≤ crc < 256 ∧ crc_ver_init hdr = w .| crc ∧ w mod 256 = 0 ∧
    bytes_wf data ∧
    crc = foldl crc8_step 0xff (crc_input (w, config_refresh hdr, config_ncdl hdr) data (len hdr)) ∧
    info_crc h' hdr = Ret (foldl crc8_step 0xff
      (crc_input (crc_ver_init hdr, config_refresh hdr, config_ncdl hdr) data (len hdr))).
Proof.
  intros Hr. destruct (commit_rehash ps h Hr) as (h' & hdr & tail & Hc & Hok & Hb & Hl & Ho & Hm & Hps
    & Hhdr & Hmag & Hlen & Hv & Hwf & crc & Hcr & Hcrc & Hw & Hcf & Hnc).
  assert (Z.to_nat (h_offset h') = length (take (Z.to_nat (h_offset h)) (h_mmap h))) as Hpre.
  { rewrite Ho, length_take. destruct Hr. lia. }
  exists h', hdr, crc, (text (vars h) ++ 0 :: tail), (commit_words h).1.1.
  pose proof (commit_words_low h) as Hlow. pose proof (commit_len_bounds ps h Hr) as [Hcl _].
  split_and!; try done.
  - rewrite Hm, Hpre. destruct Hhdr. by apply header_at_bytes.
  - rewrite land_255, Hw. by apply lor_low_byte.
  - lia.
  - lia.
  - rewrite Hcf, Hnc, Hlen, Hcrc. by destruct (commit_words h) as [[? ?] ?].
  - apply info_crc_input with (take (Z.to_nat (h_offset h)) (h_mmap h)); [done..| |].
    + destruct Hhdr. rewrite Hlen in *. lia.
    + rewrite Hm, !(length_app (take _ _)), (length_app (header_bytes _)), length_header_bytes in Hps.
      rewrite <- Hpre, Ho in Hps. rewrite Hlen. destruct Hr. lia.
Qed.

End lemmas.

(** ** The properties *)

Definition demo_be : handle := put_var (A := mips_be) (empty_handle 32768 0) (cs "wan") (cs "dhcp").
Lemma demo_be_ready : commit_ready (A := mips_be) 32768 demo_be.
Proof.
  split; [| |done|apply (demo_mmap 4)|done..|by left|done].
  - apply put_var_ok; [apply empty_handle_ok|apply (bool_decide_unpack _); vm_compute; exact I..].
  - apply (Forall_singleton _ (Tuple (cs "wan") (Some (cs "dhcp")))). split; [by eexists|].
    apply (bool_decide_unpack _). vm_compute. exact I.
Qed.




(** on a little-endian CPU, the checksum [do_info] calculates over an
    image [nvram_commit] wrote is the one stored in its header. *)
Theorem info_crc_little_endian {A : Arch} ps h :
  big_endian = false → commit_ready ps h →
  ∃ h' hdr, nvram_commit ps h [] = Ret (0, h', []) ∧
    header_at (h_mmap h') (Z.to_nat (h_offset h')) = Ret hdr ∧
    info_crc h' hdr = Ret (crc_ver_init hdr .& 0xFF).
Proof.
  intros Hle Hr. destruct (commit_info ps h Hr)
    as (h' & hdr & crc & data & w & Hc & Hh & Hcrc & Hcr & Hw & Hw0 & Hwf & Heq & Hinfo).
  exists h', hdr. split_and!; [done..|]. rewrite Hinfo, Hcrc. f_equal. etrans; [|symmetry; exact Heq].
  f_equal. unfold crc_input. cbn [fst snd]. f_equal. unfold u32_bytes. rewrite Hle.
  cbn [le_bytes drop]. by rewrite Hw, (proj2 (lor_low_byte w crc Hw0 Hcr)).
Qed.

Lemma info_crc_little_endian_witness :
  ∃ h' hdr, nvram_commit (A := mipsel) 32768 (demo 7) [] = Ret (0, h', []) ∧
    header_at (A := mipsel) (h_mmap h') (Z.to_nat (h_offset h')) = Ret hdr ∧
    info_crc h' hdr = Ret (crc_ver_init hdr .& 0xFF).
Proof.
  apply (info_crc_little_endian (A := mipsel) 32768 (demo 7)); [done|]. apply demo_ready. lia.
Defined.

(** on a big-endian CPU the byte that [do_info] leaves out is not the
    checksum: what it calculates over an image [nvram_commit] wrote differs
    from the stored checksum unless that is 0. *)
Theorem info_crc_big_endian {A : Arch} ps h :
  big_endian = true → commit_ready ps h →
  ∃ h' hdr crc, nvram_commit ps h [] = Ret (0, h', []) ∧
    header_at (h_mmap h') (Z.to_nat (h_offset h')) = Ret hdr ∧
    info_crc h' hdr = Ret crc ∧
    (crc = crc_ver_init hdr .& 0xFF ↔ crc_ver_init hdr .& 0xFF = 0).
Proof.
  intros Hbe Hr. destruct (commit_info ps h Hr)
    as (h' & hdr & crc & data & w & Hc & Hh & Hcrc & Hcr & Hw & Hw0 & Hwf & Heq & Hinfo).
  eexists h', hdr, _. split_and!; [done..|]. rewrite Hcrc.
  transitivity (foldl crc8_step 0xff (crc_input (crc_ver_init hdr, config_refresh hdr, config_ncdl hdr)
    data (len hdr)) = foldl crc8_step 0xff (crc_input (w, config_refresh hdr, config_ncdl hdr) data (len hdr)));
    [by rewrite <- Heq|].
  assert (∀ v r, v / 256 = w / 256 →
    drop 1 (u32_bytes v) ++ r = [w / 256 / 256 mod 256; w / 256 mod 256] ++ v mod 256 :: r) as Hb.
  { intros v r Hv. unfold u32_bytes, be_bytes. rewrite Hbe. cbn. by rewrite !Hv. }
  destruct (lor_low_byte w crc Hw0 Hcr) as [Hlo Hhi]. unfold crc_input. cbn [fst snd].
  rewrite Hw, !Hb, Hlo, Hw0 by done. split.
  - pose proof (crc_input_wf (0, config_refresh hdr, config_ncdl hdr) data (len hdr) Hwf) as Hin.
    apply Forall_app in Hin as [_ Hin]. cbn [fst snd] in Hin.
    apply crc8_foldl_byte; [|exact Hin|done|lia|lia].
    repeat constructor; apply Z.mod_pos_bound; lia.
  - by intros ->.
Qed.

Lemma info_crc_big_endian_witness :
  ∃ h' hdr crc, nvram_commit (A := mips_be) 32768 demo_be [] = Ret (0, h', []) ∧
    header_at (A := mips_be) (h_mmap h') (Z.to_nat (h_offset h')) = Ret hdr ∧
    info_crc h' hdr = Ret crc ∧
    (crc = crc_ver_init hdr .& 0xFF ↔ crc_ver_init hdr .& 0xFF = 0).
Proof. apply (info_crc_big_endian (A := mips_be) 32768 demo_be); [done|]. apply demo_be_ready. Defined.

End NvramCli.
