(* ===== verification/Owipcalc.v ===== *)
(** * The IP calculator (feeds/packages/net/owipcalc/src/owipcalc.c, main.c)

    The address stack and its operations, and the command interpreter.  A
    [struct cidr] holds 16 address bytes of which an IPv4 address uses the
    first four, kept in network order as in memory; arithmetic on [s_addr]
    goes through the byte order of the target.  [exit] and faults end the
    program and are outcomes of a state monad.  Signed [int] arithmetic wraps;
    a shift by 32 or more is a fault. *)

From S2P Require Import Prelude CLib.
Open Scope Z_scope.
Open Scope cint_scope.

Module Owipcalc.

(** ** Data *)

Inductive af := AF_INET | AF_INET6.
#[export] Instance af_eq_dec : EqDecision af.
Proof. solve_decision. Defined.

Record cidr := Cidr {
  family : af;
  prefix : Z;      (** [uint32_t] *)
  addr : list Z    (** the union: 16 bytes *)
}.

(** What the program writes to stderr. *)
Inductive diag :=
  | OutOfMemory
  | Overflow (op : list Z)
  | Underflow (op : list Z)
  | WrongFamily (op : list Z) (hint : af)
  | Usage
  | RequiresArgument (op : list Z)
  | InvalidArgument (op : list Z)
  | NotSupported (op : list Z) (a : af)
  | UnknownOperation (arg : list Z).

(** The globals [stack], [quiet] and [printed], the allocator's outcomes to
    come, stdout and stderr. *)
Record st := St {
  stack : list cidr;
  quiet : bool;
  printed : bool;
  allocs : list bool;
  out : list Z;
  err : list diag
}.

(** ** Effects *)

Inductive outcome (X : Type) :=
  | Done (x : X) (s : st)
  | Exit (code : Z) (s : st)
  | Crash (f : fault).
Arguments Done {X} _ _.
Arguments Exit {X} _ _.
Arguments Crash {X} _.

Definition M (X : Type) : Type := st → outcome X.
#[export] Instance M_ret : MRet M := λ X x s, Done x s.
#[export] Instance M_bind : MBind M := λ X Y f m s,
  match m s with
  | Done x s => f x s
  | Exit c s => Exit c s
  | Crash e => Crash e
  end.

Definition get {X} (f : st → X) : M X := λ s, Done (f s) s.
Definition modify (f : st → st) : M () := λ s, Done () (f s).
Definition exit_ {X} (code : Z) : M X := λ s, Exit code s.
Definition crash {X} (e : fault) : M X := λ _, Crash e.
Definition lift {X} (r : result X) : M X :=
  match r with Ret x => mret x | Fault e => crash e end.

Definition set_stack (f : list cidr → list cidr) (s : st) : st :=
  St (f (stack s)) (quiet s) (printed s) (allocs s) (out s) (err s).
Definition complain (d : diag) : M () :=
  modify (λ s, St (stack s) (quiet s) (printed s) (allocs s) (out s) (err s ++ [d])).
Definition qprintf (text : list Z) : M () :=
  modify (λ s, St (stack s) (quiet s) true (allocs s)
                 (if quiet s then out s else out s ++ text) (err s)).
(** [if (printed) qprintf(" ")] *)
Definition separate : M () := p ← get printed; if p : bool then qprintf (cs " ") else mret ().
Definition malloc : M bool := λ s,
  match allocs s with
  | [] => Done true s
  | b :: al => Done b (St (stack s) (quiet s) (printed s) al (out s) (err s))
  end.

(** ** Addresses *)

Definition set_addr (l : list Z) (c : cidr) : cidr := Cidr (family c) (prefix c) l.
Definition set_prefix (p : Z) (c : cidr) : cidr := Cidr (family c) p (addr c).
Definition set_family (f : af) (c : cidr) : cidr := Cidr f (prefix c) (addr c).

(** The result of a test: print it, and return it. *)
Definition answer (b : bool) : M bool := _ ← qprintf (cs (if b then "1" else "0")); mret b.

(** [inet_pton(AF_INET, ...)]: four decimal numbers of at most three digits,
    no leading zeros, nothing after them. *)
Fixpoint octet (n : nat) (s : list Z) (acc : list Z) : list Z * list Z :=
  match n, s with
  | S n, c :: s' => if is_digit 10 c then octet n s' (acc ++ [c - 48]) else (acc, s)
  | _, _ => (acc, s)
  end.
Definition octet_val (ds : list Z) : option Z :=
  match ds with
  | [] => None
  | 0 :: _ :: _ => None
  | _ => let v := digits_value 10 ds 0 in if 255 <? v then None else Some v
  end.
Fixpoint octets (n : nat) (s : list Z) : option (list Z) :=
  match n with
  | O => None
  | S n =>
      let '(ds, r) := octet 3 s [] in
      v ← octet_val ds;
      match n, r with
      | O, [] => Some [v]
      | O, _ => None
      | _, 46 :: r => cons v <$> octets n r
      | _, _ => None
      end
  end.
Definition inet_pton4 (s : list Z) : option (list Z) := octets 4 s.

(** [inet_ntop(AF_INET, ...)] *)
Fixpoint dotted (l : list Z) : list Z :=
  match l with
  | [] => []
  | [b] => fmt_u b
  | b :: l => fmt_u b ++ 46 :: dotted l
  end.
Definition inet_ntop4 (l : list Z) : list Z := dotted (take 4 l).

(** The C library's text form of IPv6 addresses. *)
Class Inet6 := {
  inet_pton6 : list Z → option (list Z);
  inet_ntop6 : list Z → list Z
}.

(** [1 << k] for a [uint32_t] count. *)
Definition shl1 (k : Z) : result Z := if k <? 32 then Ret (u32 (1 .<< k)) else Fault BadShift.

Section ops.
(** [junk] are the bytes of a fresh allocation. *)
Context {A : Arch} {I6 : Inet6} (junk : list Z).

(** [addr.v4.s_addr] *)
Definition s_addr (c : cidr) : Z := u32_of (take 4 (addr c)).
Definition set_s_addr (v : Z) (c : cidr) : cidr := set_addr (u32_bytes v ++ drop 4 (addr c)) c.

(** [(1 << (32 - p)) - 1] as the operations compute it. *)
Definition hostmask4 (p : Z) : result Z := v ← shl1 (u32 (32 - p)); Ret (u32 (v - 1)).
(** [~x] *)
Definition lnot32 (x : Z) : Z := u32 (Z.lnot x).

(** ** The stack *)

Definition cidr_push (a : cidr) : M () := modify (set_stack (cons a)).

Definition cidr_pop (a : cidr) : M bool :=
  old ← get stack;
  match old with
  | [] => mret false
  | _ :: next => _ ← modify (set_stack (λ _, next)); mret true
  end.

Definition cidr_clone (a : cidr) : M cidr :=
  ok ← malloc;
  if ok : bool then _ ← cidr_push a; mret a
  else _ ← complain OutOfMemory; exit_ 255.

(** Assign to the object on top of the stack: the clone, or the operand. *)
Definition assign (a : cidr) : M () := modify (set_stack (λ l, a :: tail l)).

(** ** IPv4 *)

(** [for (...; mask.s_addr; mask.s_addr >>= 1) addr->prefix += mask.s_addr & 1] *)
Fixpoint count_bits (fuel : nat) (mask acc : Z) : Z :=
  match fuel with
  | O => acc
  | S fuel => if mask =? 0 then acc else count_bits fuel (mask .>> 1) (acc + (mask .& 1))
  end.

(** The prefix after the slash of an IPv4 argument. *)
Definition parse_prefix4 (p : list Z) : option Z :=
  match strchr p 46 with
  | Some _ => mask ← inet_pton4 p; Some (count_bits 32 (u32_of mask) 0)
  | None =>
      let '(v, r) := strtoul p 10 in
      let pfx := u32 v in
      if bool_decide (length r = length p) || bool_decide (r ≠ []) || (32 <? pfx) then None else Some pfx
  end.

(** The text of an IPv4 argument once it is in the buffer. *)
Definition read4 (s : list Z) : option cidr :=
  match strchr s 47 with
  | Some k =>
      pfx ← parse_prefix4 (drop (k + 1) s);
      l ← if decide (k = O) then Some [0; 0; 0; 0] else inet_pton4 (take k s);
      Some (Cidr AF_INET pfx (l ++ drop 4 junk))
  | None => l ← inet_pton4 s; Some (Cidr AF_INET 32 (l ++ drop 4 junk))
  end.

Definition cidr_parse4 (s : list Z) : M (option cidr) :=
  ok ← malloc;
  if negb ok || (33 <=? Z.of_nat (length s)) then mret None else mret (read4 s).

Definition cidr_add4 (a b : cidr) : M bool :=
  let x := ntohl (s_addr a) in
  let y := ntohl (s_addr b) in
  n ← cidr_clone a;
  if negb (bool_decide (family n = AF_INET)) || negb (bool_decide (family b = AF_INET)) then mret false
  else if u32 (x + y) <? x then _ ← complain (Overflow (cs "add")); mret false
  else _ ← assign (set_s_addr (htonl (u32 (x + y))) n); mret true.

Definition cidr_sub4 (a b : cidr) : M bool :=
  let x := ntohl (s_addr a) in
  let y := ntohl (s_addr b) in
  n ← cidr_clone a;
  if negb (bool_decide (family n = AF_INET)) || negb (bool_decide (family b = AF_INET)) then mret false
  else if x <? u32 (x - y) then _ ← complain (Underflow (cs "sub")); mret false
  else _ ← assign (set_s_addr (htonl (u32 (x - y))) n); mret true.

Definition cidr_network4 (a : cidr) : M bool :=
  n ← cidr_clone a;
  m ← lift (hostmask4 (prefix n));
  _ ← assign (set_prefix 32 (set_s_addr (s_addr n .& htonl (lnot32 m)) n));
  mret true.

Definition cidr_broadcast4 (a : cidr) : M bool :=
  n ← cidr_clone a;
  m ← lift (hostmask4 (prefix n));
  _ ← assign (set_prefix 32 (set_s_addr (s_addr n .| htonl m) n));
  mret true.

Definition cidr_contains4 (a b : cidr) : M bool :=
  m ← lift (hostmask4 (prefix a));
  let net1 := s_addr a .& htonl (lnot32 m) in
  let net2 := s_addr b .& htonl (lnot32 m) in
  _ ← separate;
  answer ((prefix a =? 0) || ((prefix a <=? prefix b) && (net1 =? net2))).

Definition cidr_netmask4 (a : cidr) : M bool :=
  n ← cidr_clone a;
  m ← lift (hostmask4 (prefix n));
  _ ← assign (set_prefix 32 (set_s_addr (htonl (lnot32 m)) n));
  mret true.

Definition cidr_private4 (a : cidr) : M bool :=
  let x := ntohl (s_addr a) in
  _ ← separate;
  answer (((0x0A000000 <=? x) && (x <=? 0x0AFFFFFF)) ||
          ((0xAC100000 <=? x) && (x <=? 0xAC1FFFFF)) ||
          ((0xC0A80000 <=? x) && (x <=? 0xC0A8FFFF))).

Definition cidr_linklocal4 (a : cidr) : M bool :=
  let x := ntohl (s_addr a) in
  _ ← separate;
  answer ((0xA9FE0000 <=? x) && (x <=? 0xA9FEFFFF)).

Definition cidr_prev4 (a b : cidr) : M bool :=
  n ← cidr_clone a;
  v ← lift (shl1 (u32 (32 - prefix b)));
  _ ← assign (set_s_addr (u32 (s_addr n - htonl v)) (set_prefix (prefix b) n));
  mret true.

Definition cidr_next4 (a b : cidr) : M bool :=
  n ← cidr_clone a;
  v ← lift (shl1 (u32 (32 - prefix b)));
  _ ← assign (set_s_addr (u32 (s_addr n + htonl v)) (set_prefix (prefix b) n));
  mret true.

Definition cidr_6to4 (a : cidr) : M bool :=
  n ← cidr_clone a;
  let x := s_addr a in
  _ ← assign (Cidr AF_INET6 48
    ([0x20; 0x02; u8 (x .>> 24); (x .>> 16) .& 0xFF; (x .>> 8) .& 0xFF; x .& 0xFF] ++ replicate 10 0));
  mret true.

(** ["%s"] and ["/%u"] of [cidr_print4]. *)
Definition text4 (a : cidr) : list Z :=
  inet_ntop4 (addr a) ++ (if prefix a <? 32 then cs "/" ++ fmt_u (prefix a) else []).

Definition cidr_print4 (a : cidr) : M bool :=
  if negb (bool_decide (family a = AF_INET)) then mret false
  else _ ← separate; _ ← qprintf (text4 a); _ ← cidr_pop a; mret true.

(** ** IPv6 *)

Definition parse_prefix6 (p : list Z) : option Z :=
  let '(v, r) := strtoul p 10 in
  let pfx := u32 v in
  if bool_decide (length r = length p) || bool_decide (r ≠ []) || (128 <? pfx) then None else Some pfx.

Definition read6 (s : list Z) : option cidr :=
  match strchr s 47 with
  | Some k =>
      pfx ← parse_prefix6 (drop (k + 1) s);
      l ← if decide (k = O) then Some (replicate 16 0) else inet_pton6 (take k s);
      Some (Cidr AF_INET6 pfx l)
  | None => l ← inet_pton6 s; Some (Cidr AF_INET6 128 l)
  end.

Definition cidr_parse6 (s : list Z) : M (option cidr) :=
  ok ← malloc;
  if negb ok || (51 <=? Z.of_nat (length s)) then mret None else mret (read6 s).

(** The loops [do { ... } while (idx-- > 0)] run over bytes [idx .. 0]; here
    the bytes come last first.  [add_bytes] and [sub_bytes] give the new bytes
    and the last carry. *)
Fixpoint add_bytes (x y : list Z) (carry : Z) : list Z * Z :=
  match x, y with
  | b :: x, c :: y =>
      let '(r, k) := add_bytes x y (if 256 <=? b + c + carry then 1 else 0) in
      (u8 (b + (c + carry)) :: r, k)
  | _, _ => ([], carry)
  end.
Fixpoint sub_bytes (x y : list Z) (carry : Z) : list Z * Z :=
  match x, y with
  | b :: x, c :: y =>
      let '(r, k) := sub_bytes x y (if b - c - carry <? 0 then 1 else 0) in
      (u8 (b - (c + carry)) :: r, k)
  | _, _ => ([], carry)
  end.

Definition cidr_add6 (a b : cidr) : M bool :=
  n ← cidr_clone a;
  if negb (bool_decide (family a = AF_INET6)) || negb (bool_decide (family b = AF_INET6)) then mret false
  else
    let '(r, carry) := add_bytes (reverse (addr n)) (reverse (addr b)) 0 in
    _ ← assign (set_addr (reverse r) n);
    if carry =? 0 then mret true else _ ← complain (Overflow (cs "add")); mret false.

Definition cidr_sub6 (a b : cidr) : M bool :=
  n ← cidr_clone a;
  if negb (bool_decide (family n = AF_INET6)) || negb (bool_decide (family b = AF_INET6)) then mret false
  else
    let '(r, carry) := sub_bytes (reverse (addr n)) (reverse (addr b)) 0 in
    _ ← assign (set_addr (reverse r) n);
    if carry =? 0 then mret true else _ ← complain (Underflow (cs "sub")); mret false.

(** [idx = (b->prefix - 1) / 8], a [uint8_t]; past the address bytes the
    access is outside the union. *)
Definition step_index (b : cidr) : result nat :=
  let idx := u8 ((prefix b - 1) / 8) in
  if idx <? 16 then Ret (Z.to_nat idx) else Fault OutOfBounds.

Definition cidr_prev6 (a b : cidr) : M bool :=
  n ← cidr_clone a;
  if prefix b =? 0 then _ ← complain (Underflow (cs "prev")); mret false
  else
    idx ← lift (step_index b);
    let '(r, carry) := sub_bytes (reverse (take (S idx) (addr n))) (replicate (S idx) 0) 1 in
    let n := set_addr (reverse r ++ drop (S idx) (addr n)) n in
    _ ← assign n;
    if carry =? 0 then _ ← assign (set_prefix (prefix b) n); mret true
    else _ ← complain (Underflow (cs "prev")); mret false.

Definition cidr_next6 (a b : cidr) : M bool :=
  n ← cidr_clone a;
  if prefix b =? 0 then _ ← complain (Overflow (cs "next")); mret false
  else
    idx ← lift (step_index b);
    let '(r, carry) := add_bytes (reverse (take (S idx) (addr n))) (replicate (S idx) 0) 1 in
    let n := set_addr (reverse r ++ drop (S idx) (addr n)) n in
    _ ← assign n;
    if carry =? 0 then _ ← assign (set_prefix (prefix b) n); mret true
    else _ ← complain (Overflow (cs "next")); mret false.

(** [for (i = 0; i < n; i++) s6_addr[15-i] = 0]: [16 - k] bytes are clear
    when byte [k - 1] is next; [k = 0] is past the array. *)
Fixpoint clear_tail (k : nat) (n : Z) (l : list Z) : result (list Z) :=
  if n <=? 0 then Ret l
  else match k with
       | O => Fault OutOfBounds
       | S k => clear_tail k (n - 1) (<[k := 0]> l)
       end.

Definition cidr_network6 (a : cidr) : M bool :=
  n ← cidr_clone a;
  let host := u32 (128 - prefix n) in
  let i := host / 8 in
  l ← lift (clear_tail 16 i (addr n));
  l ← lift (if host mod 8 =? 0 then Ret l
            else
              b ← of_option OutOfBounds (if i <? 16 then l !! Z.to_nat (15 - i) else None);
              m ← shl1 (host mod 8);
              Ret (<[Z.to_nat (15 - i) := u8 (b .& lnot32 (u32 (m - 1)))]> l));
  _ ← assign (set_addr l n);
  mret true.

Definition cidr_contains6 (a b : cidr) : M bool :=
  let host := u32 (128 - prefix a) in
  let i := (host / 8) mod 16 in
  let k := Z.to_nat (15 - i) in
  m ← lift (v ← shl1 (host mod 8); Ret (u8 (lnot32 (u32 (v - 1)))));
  x ← lift (of_option OutOfBounds (addr a !! k));
  y ← lift (of_option OutOfBounds (addr b !! k));
  let net1 := u8 (x .& m) in
  let net2 := u8 (y .& m) in
  _ ← separate;
  answer ((prefix a =? 0) ||
    ((prefix a <=? prefix b) && (net1 =? net2) &&
     ((i =? 15) || bool_decide (take k (addr a) = take k (addr b))))).

Definition cidr_linklocal6 (a : cidr) : M bool :=
  x ← lift (of_option OutOfBounds (addr a !! 0%nat));
  y ← lift (of_option OutOfBounds (addr a !! 1%nat));
  _ ← separate;
  answer ((x =? 0xFE) && (0x80 <=? y) && (y <=? 0xBF)).

Definition cidr_ula6 (a : cidr) : M bool :=
  x ← lift (of_option OutOfBounds (addr a !! 0%nat));
  _ ← separate;
  answer ((0xFC <=? x) && (x <=? 0xFD)).

Definition text6 (a : cidr) : list Z :=
  inet_ntop6 (addr a) ++ (if prefix a <? 128 then cs "/" ++ fmt_u (prefix a) else []).

Definition cidr_print6 (a : cidr) : M bool :=
  if negb (bool_decide (family a = AF_INET6)) then mret false
  else _ ← separate; _ ← qprintf (text6 a); _ ← cidr_pop a; mret true.

(** ** Both families *)

(** [a->addr.v6.s6_addr[15-i] = sum % 256; sum >>= 8] *)
Definition amount6 (sum : Z) : list Z := be_bytes 16 sum.

Definition cidr_parse (op s : list Z) (af_hint : af) : M (option cidr) :=
  let '(v, r) := strtoul s 0 in
  let sum := u32 v in
  if bool_decide (length r < length s)%nat && bool_decide (r = []) then
    ok ← malloc;
    if ok : bool then
      mret (Some (match af_hint with
                  | AF_INET => Cidr AF_INET sum (be_bytes 4 sum ++ drop 4 junk)
                  | AF_INET6 => Cidr AF_INET6 sum (amount6 sum)
                  end))
    else mret None
  else
    a ← match strchr s 58 with Some _ => cidr_parse6 s | None => cidr_parse4 s end;
    match a with
    | None => mret None
    | Some a =>
        if bool_decide (family a = af_hint) then mret (Some a)
        else _ ← complain (WrongFamily op af_hint); exit_ 4
    end.

Definition cidr_howmany (a b : cidr) : M bool :=
  _ ← separate;
  if prefix b <? prefix a then _ ← qprintf (cs "0"); mret true
  else
    v ← lift (shl1 (u32 (prefix b - prefix a)));
    _ ← qprintf (fmt_u v); mret true.

Definition cidr_prefix (a b : cidr) : M bool := _ ← assign (set_prefix (prefix b) a); mret true.

Definition cidr_quiet (a : cidr) : M bool :=
  _ ← modify (λ s, St (stack s) true (printed s) (allocs s) (out s) (err s)); mret true.

(** ** The interpreter *)

Record op := Op {
  name : string;
  f4_a1 : option (cidr → M bool);
  f4_a2 : option (cidr → cidr → M bool);
  f6_a1 : option (cidr → M bool);
  f6_a2 : option (cidr → cidr → M bool)
}.

Definition ops : list op := [
  Op "add" None (Some cidr_add4) None (Some cidr_add6);
  Op "sub" None (Some cidr_sub4) None (Some cidr_sub6);
  Op "next" None (Some cidr_next4) None (Some cidr_next6);
  Op "prev" None (Some cidr_prev4) None (Some cidr_prev6);
  Op "network" (Some cidr_network4) None (Some cidr_network6) None;
  Op "broadcast" (Some cidr_broadcast4) None None None;
  Op "prefix" None (Some cidr_prefix) None (Some cidr_prefix);
  Op "netmask" (Some cidr_netmask4) None None None;
  Op "6to4" (Some cidr_6to4) None None None;
  Op "howmany" None (Some cidr_howmany) None (Some cidr_howmany);
  Op "contains" None (Some cidr_contains4) None (Some cidr_contains6);
  Op "private" (Some cidr_private4) None None None;
  Op "linklocal" (Some cidr_linklocal4) None (Some cidr_linklocal6) None;
  Op "ula" None None (Some cidr_ula6) None;
  Op "quiet" (Some cidr_quiet) None (Some cidr_quiet) None;
  Op "pop" (Some cidr_pop) None (Some cidr_pop) None;
  Op "print" (Some cidr_print4) None (Some cidr_print6) None
].

Fixpoint find_op (arg : list Z) (l : list op) : option op :=
  match l with
  | [] => None
  | o :: l => if bool_decide (cs (name o) = arg) then Some o else find_op arg l
  end.

(** The state of the loop: the arguments left and [status]. *)
Definition runop (args : list (list Z)) (status : Z) : M (bool * list (list Z) * Z) :=
  match args with
  | [] => mret (false, args, status)
  | arg1 :: rest =>
      match find_op arg1 ops with
      | None => mret (false, args, status)
      | Some o =>
          stk ← get stack;
          let finish (ok : bool) rest := mret (true, rest, if ok then 0 else 1) in
          let unsupported (a : cidr) rest :=
            _ ← complain (NotSupported (cs (name o)) (family a)); mret (false, rest, 5) in
          if decide (is_Some (f4_a2 o) ∨ is_Some (f6_a2 o)) then
            match rest with
            | [] => _ ← complain (RequiresArgument (cs (name o))); mret (false, args, 2)
            | arg2 :: rest =>
                match stk with
                | [] => crash NullDeref
                | a :: _ =>
                    b ← cidr_parse (cs (name o)) arg2 (family a);
                    match b with
                    | None => _ ← complain (InvalidArgument (cs (name o))); mret (false, args, 3)
                    | Some b =>
                        match (match family a with AF_INET => f4_a2 o | AF_INET6 => f6_a2 o end) with
                        | None => unsupported a rest
                        | Some f => ok ← f a b; finish ok rest
                        end
                    end
                end
            end
          else
            match stk with
            | [] => crash NullDeref
            | a :: _ =>
                match (match family a with AF_INET => f4_a1 o | AF_INET6 => f6_a1 o end) with
                | None => unsupported a rest
                | Some f => ok ← f a; finish ok rest
                end
            end
      end
  end.

(** [while (runop(&arg, &status));] *)
Fixpoint run_ops (fuel : nat) (args : list (list Z)) (status : Z) : M (list (list Z) * Z) :=
  match fuel with
  | O => crash OutOfFuel
  | S fuel =>
      '(continue, args, status) ← runop args status;
      if continue : bool then run_ops fuel args status else mret (args, status)
  end.

Definition usage {X} : M X := _ ← complain Usage; exit_ 1.

(** [main] on [argv[1]] and on; it always ends in [exit]. *)
Definition main (argv : list (list Z)) : M () :=
  _ ← modify (λ s, St (stack s) false (printed s) (allocs s) (out s) (err s));
  match argv with
  | base :: (_ :: _) as args =>
      let args := tail argv in
      a ← match strchr base 58 with Some _ => cidr_parse6 base | None => cidr_parse4 base end;
      match a with
      | None => usage
      | Some a =>
          _ ← cidr_push a;
          '(args, status) ← run_ops (S (length args)) args 0;
          match args with
          | arg :: _ => _ ← complain (UnknownOperation arg); exit_ 6
          | [] =>
              p ← get printed;
              _ ← (if negb p && (status <? 2) then
                     stk ← get stack;
                     match stk with
                     | [] => crash NullDeref
                     | a :: _ =>
                         _ ← match family a with AF_INET => cidr_print4 a | AF_INET6 => cidr_print6 a end;
                         mret ()
                     end
                   else mret ());
              _ ← qprintf [10];
              exit_ status
          end
      end
  | _ => usage
  end.

(** The state a process starts in. *)
Definition start (al : list bool) : st := St [] true false al [] [].

End ops.
End Owipcalc.
