(* ===== verification/OwipcalcProps.v ===== *)
(** * Properties of the IP calculator

    Addresses as numbers: every operation is stated on the value the address
    bytes denote in network order, whatever the byte order of the target. *)

From S2P Require Import Prelude CLib Owipcalc.
Import Owipcalc.
Open Scope Z_scope.
Open Scope cint_scope.

Module OwipcalcProps.

(** ** Bit operations on byte strings *)

Lemma byte_split x y : x mod 256 = y mod 256 → x / 256 = y / 256 → x = y.
Proof. intros. rewrite (Z.div_mod x 256), (Z.div_mod y 256) by lia. lia. Qed.
Lemma byte_cons b v : 0 ≤ b < 256 → (b + 256 * v) mod 256 = b ∧ (b + 256 * v) / 256 = v.
Proof.
  intros. replace (b + 256 * v) with (b + v * 256) by lia.
  rewrite Z.mod_add, Z.div_add, Z.mod_small, Z.div_small by lia. lia.
Qed.

Section bitop.
(** [land] and [lor] work byte by byte. *)
Variable f : Z → Z → Z.
Hypothesis f_mod : ∀ x y, f x y mod 2 ^ 8 = f (x mod 2 ^ 8) (y mod 2 ^ 8).
Hypothesis f_div : ∀ x y, f x y / 2 ^ 8 = f (x / 2 ^ 8) (y / 2 ^ 8).
Hypothesis f_0 : f 0 0 = 0.
Hypothesis f_byte : ∀ x y, 0 ≤ x < 256 → 0 ≤ y < 256 → 0 ≤ f x y < 256.

Lemma le_val_bitop l k :
  bytes_wf l → bytes_wf k → length l = length k → le_val (zip_with f l k) = f (le_val l) (le_val k).
Proof using Type*.
  intros Hl. revert k. induction Hl as [|b l Hb Hl IH]; intros [|c k] Hk Hlen; simplify_eq/=; [done|].
  apply Forall_cons in Hk as [Hc Hk]. rewrite IH by done.
  destruct (byte_cons b (le_val l) Hb) as [B1 B2]. destruct (byte_cons c (le_val k) Hc) as [C1 C2].
  destruct (byte_cons (f b c) (f (le_val l) (le_val k)) (f_byte b c Hb Hc)) as [F1 F2].
  apply byte_split; [rewrite F1|rewrite F2]; change 256 with (2 ^ 8) in *.
  - by rewrite f_mod, B1, C1.
  - by rewrite f_div, B2, C2.
Qed.
Lemma bytes_wf_bitop l k : bytes_wf l → bytes_wf k → bytes_wf (zip_with f l k).
Proof using Type*.
  intros Hl. revert k. induction Hl as [|b l Hb Hl IH]; intros [|c k] Hk; try constructor;
    apply Forall_cons in Hk as [??]; [by apply f_byte|by apply IH].
Qed.
Lemma be_val_bitop l k :
  bytes_wf l → bytes_wf k → length l = length k → be_val (zip_with f l k) = f (be_val l) (be_val k).
Proof using Type*.
  intros Hl Hk Hlen. unfold be_val.
  rewrite <- le_val_bitop by (rewrite ?bytes_wf_reverse, ?length_reverse; done).
  f_equal. clear -Hlen. revert k Hlen.
  induction l as [|b l IH]; intros [|c k] Hlen; simplify_eq/=; [done|].
  rewrite !reverse_cons, zip_with_app by (by rewrite !length_reverse). by rewrite IH.
Qed.

(** A host word combined with a network-order constant. *)
Lemma u32_bytes_bitop {A : Arch} l m :
  bytes_wf l → length l = 4%nat →
  u32_bytes (f (u32_of l) (htonl m)) = zip_with f l (be_bytes 4 m).
Proof using Type*.
  intros Hl H4. set (k := be_bytes 4 m).
  assert (htonl m = u32_of k) as ->.
  { unfold k, htonl, u32_of. case_match; [by rewrite be_val_bytes|done]. }
  assert (bytes_wf k) as Hk by apply be_bytes_wf.
  assert (length k = 4%nat) as H4' by apply length_be_bytes.
  assert (u32_of (zip_with f l k) = f (u32_of l) (u32_of k)) as <-.
  { unfold u32_of. case_match; [apply be_val_bitop|apply le_val_bitop]; congruence || done. }
  apply u32_bytes_of; [by apply bytes_wf_bitop|]. rewrite length_zip_with_l_eq; lia.
Qed.
End bitop.

Lemma land_byte x y : 0 ≤ x < 256 → 0 ≤ y < 256 → 0 ≤ x .& y < 256.
Proof. intros. apply (land_range x y 8); lia. Qed.
Lemma lor_byte x y : 0 ≤ x < 256 → 0 ≤ y < 256 → 0 ≤ x .| y < 256.
Proof. intros. apply (lor_range x y 8); lia. Qed.
Lemma land_mod8 x y : (x .& y) mod 2 ^ 8 = (x mod 2 ^ 8) .& (y mod 2 ^ 8).
Proof.
  rewrite <- !Z.land_ones by lia. apply Z.bits_inj'. intros i Hi. rewrite !Z.land_spec.
  by destruct (Z.testbit x i), (Z.testbit y i), (Z.testbit (Z.ones 8) i).
Qed.
Lemma lor_mod8 x y : (x .| y) mod 2 ^ 8 = (x mod 2 ^ 8) .| (y mod 2 ^ 8).
Proof. rewrite <- !Z.land_ones by lia. apply Z.land_lor_distr_l. Qed.
Lemma land_div8 x y : (x .& y) / 2 ^ 8 = (x / 2 ^ 8) .& (y / 2 ^ 8).
Proof. rewrite <- !Z.shiftr_div_pow2 by lia. apply Z.shiftr_land. Qed.
Lemma lor_div8 x y : (x .| y) / 2 ^ 8 = (x / 2 ^ 8) .| (y / 2 ^ 8).
Proof. rewrite <- !Z.shiftr_div_pow2 by lia. apply Z.shiftr_lor. Qed.

(** ** Addresses as numbers *)

(** A well-formed [struct cidr]. *)
Record cidr_ok (c : cidr) : Prop := {
  co_bytes : bytes_wf (addr c);
  co_len : length (addr c) = 16%nat;
  co_prefix : 0 ≤ prefix c < 2 ^ 32
}.

Definition ip4 (c : cidr) : Z := be_val (take 4 (addr c)).
Definition ip6 (c : cidr) : Z := be_val (addr c).

(** The addresses of the prefix of [p] bits, of [w], around [x]. *)
Definition in_prefix (w p x y : Z) : Prop := x / 2 ^ (w - p) = y / 2 ^ (w - p).
#[export] Instance in_prefix_dec w p x y : Decision (in_prefix w p x y).
Proof. unfold in_prefix. apply _. Defined.

Section props.
Context {A : Arch}.

Lemma take4_wf c : cidr_ok c → bytes_wf (take 4 (addr c)) ∧ length (take 4 (addr c)) = 4%nat.
Proof. intros []. split; [by apply Forall_take|rewrite length_take; lia]. Qed.
Lemma ip4_range c : cidr_ok c → 0 ≤ ip4 c < 2 ^ 32.
Proof. intros [H1 H2]%take4_wf. unfold ip4. pose proof (be_val_bound _ H1). by rewrite H2 in *. Qed.
Lemma ip6_range c : cidr_ok c → 0 ≤ ip6 c < 2 ^ 128.
Proof. intros []. unfold ip6. pose proof (be_val_bound (addr c) co_bytes0). by rewrite co_len0 in *. Qed.

Lemma ntohl_s_addr c : cidr_ok c → ntohl (s_addr c) = ip4 c.
Proof. intros [H1 H2]%take4_wf. by apply ntohl_of. Qed.

Lemma set_s_addr_ok v c : cidr_ok c → cidr_ok (set_s_addr v c).
Proof.
  intros []. split; cbn [set_s_addr set_addr addr prefix]; [| |done].
  - apply Forall_app. split; [apply u32_bytes_wf|by apply Forall_drop].
  - rewrite length_app, length_u32_bytes, length_drop. lia.
Qed.
Lemma set_prefix_ok p c : 0 ≤ p < 2 ^ 32 → cidr_ok c → cidr_ok (set_prefix p c).
Proof. by intros ? []. Qed.

Lemma take4_set v c : take 4 (addr (set_s_addr v c)) = u32_bytes v.
Proof.
  cbn [set_s_addr set_addr addr]. rewrite take_app_le, take_ge by (by rewrite length_u32_bytes). done.
Qed.
Lemma ip4_htonl v c : ip4 (set_s_addr (htonl v) c) = u32 v.
Proof. unfold ip4. rewrite take4_set, u32_bytes_htonl. apply be_val_bytes. Qed.
Lemma ip4_land c m : cidr_ok c → ip4 (set_s_addr (s_addr c .& htonl m) c) = ip4 c .& u32 m.
Proof.
  intros [H1 H2]%take4_wf. unfold ip4. rewrite take4_set. unfold s_addr.
  rewrite (u32_bytes_bitop Z.land); eauto using land_mod8, land_div8, land_byte.
  rewrite (be_val_bitop Z.land); eauto using land_mod8, land_div8, land_byte, be_bytes_wf.
  by rewrite be_val_bytes.
Qed.
Lemma ip4_lor c m : cidr_ok c → ip4 (set_s_addr (s_addr c .| htonl m) c) = ip4 c .| u32 m.
Proof.
  intros [H1 H2]%take4_wf. unfold ip4. rewrite take4_set. unfold s_addr.
  rewrite (u32_bytes_bitop Z.lor); eauto using lor_mod8, lor_div8, lor_byte.
  rewrite (be_val_bitop Z.lor); eauto using lor_mod8, lor_div8, lor_byte, be_bytes_wf.
  by rewrite be_val_bytes.
Qed.

(** ** Masks *)

Lemma shl1_ret k : 0 ≤ k < 32 → shl1 k = Ret (2 ^ k).
Proof.
  intros. unfold shl1. rewrite (proj2 (Z.ltb_lt _ _)), Z.shiftl_1_l by lia.
  rewrite u32_small; [done|]. split; [by apply Z.pow_nonneg|]. apply Z.pow_lt_mono_r; lia.
Qed.
Lemma hostmask4_ret p : 1 ≤ p ≤ 32 → hostmask4 p = Ret (Z.ones (32 - p)).
Proof.
  intros. unfold hostmask4. rewrite u32_small, shl1_ret by lia. cbn [mbind result_bind].
  rewrite Z.ones_equiv. f_equal. apply u32_small.
  assert (0 < 2 ^ (32 - p)) by (by apply Z.pow_pos_nonneg; lia).
  assert (2 ^ (32 - p) < 2 ^ 32) by (apply Z.pow_lt_mono_r; lia). lia.
Qed.

(** Clearing and setting the low bits. *)
Lemma land_lnot_ones x n : 0 ≤ x → 0 ≤ n → x .& Z.lnot (Z.ones n) = x / 2 ^ n * 2 ^ n.
Proof.
  intros. rewrite <- Z.ldiff_land. rewrite Z.ldiff_ones_r by lia.
  by rewrite Z.shiftr_div_pow2, Z.shiftl_mul_pow2 by lia.
Qed.
Lemma lor_ones x n : 0 ≤ x → 0 ≤ n → x .| Z.ones n = x / 2 ^ n * 2 ^ n + Z.ones n.
Proof.
  intros. assert (x .| Z.ones n = (x .& Z.lnot (Z.ones n)) .| Z.ones n) as ->.
  { apply Z.bits_inj'. intros i Hi. rewrite !Z.lor_spec, Z.land_spec, Z.lnot_spec by done.
    by destruct (Z.testbit x i), (Z.testbit (Z.ones n) i). }
  pose proof (Z.add_lor_land (x .& Z.lnot (Z.ones n)) (Z.ones n)) as Hadd.
  rewrite <- Z.land_assoc, (Z.land_comm (Z.lnot _)), Z.land_lnot_diag, Z.land_0_r in Hadd.
  rewrite land_lnot_ones in * by done. lia.
Qed.
Lemma land_u32_lnot x m : 0 ≤ x < 2 ^ 32 → x .& lnot32 m = x .& Z.lnot m.
Proof.
  intros. unfold lnot32, u32. rewrite <- Z.land_ones by lia.
  rewrite (Z.land_comm (Z.lnot m)), Z.land_assoc, Z.land_ones by lia. by rewrite Z.mod_small.
Qed.
Lemma lnot32_u32 m : u32 (lnot32 m) = lnot32 m.
Proof. apply u32_small, u32_range. Qed.

(** ** Running the operations *)

Lemma clone_done a s : allocs s = [] → cidr_clone a s = Done a (set_stack (cons a) s).
Proof. intros Hal. unfold cidr_clone, malloc, mbind, M_bind. by rewrite Hal. Qed.

Lemma lift_ret {X} (x : X) : lift (Ret x) = mret x.
Proof. done. Qed.

(** A mask operation: clone, compute, store with prefix 32. *)
Lemma network4_done c s :
  allocs s = [] → 1 ≤ prefix c ≤ 32 →
  cidr_network4 c s = Done true (set_stack (cons (set_prefix 32
    (set_s_addr (s_addr c .& htonl (lnot32 (Z.ones (32 - prefix c)))) c))) s).
Proof.
  intros Hal Hp. unfold cidr_network4, mbind, M_bind. rewrite clone_done by done.
  by rewrite hostmask4_ret by done.
Qed.
Lemma broadcast4_done c s :
  allocs s = [] → 1 ≤ prefix c ≤ 32 →
  cidr_broadcast4 c s = Done true (set_stack (cons (set_prefix 32
    (set_s_addr (s_addr c .| htonl (Z.ones (32 - prefix c))) c))) s).
Proof.
  intros Hal Hp. unfold cidr_broadcast4, mbind, M_bind. rewrite clone_done by done.
  by rewrite hostmask4_ret by done.
Qed.
Lemma netmask4_done c s :
  allocs s = [] → 1 ≤ prefix c ≤ 32 →
  cidr_netmask4 c s = Done true (set_stack (cons (set_prefix 32
    (set_s_addr (htonl (lnot32 (Z.ones (32 - prefix c)))) c))) s).
Proof.
  intros Hal Hp. unfold cidr_netmask4, mbind, M_bind. rewrite clone_done by done.
  by rewrite hostmask4_ret by done.
Qed.

Lemma ones_u32 k : 0 ≤ k ≤ 32 → u32 (Z.ones k) = Z.ones k.
Proof.
  intros. apply u32_small. rewrite Z.ones_equiv.
  assert (0 < 2 ^ k) by (apply Z.pow_pos_nonneg; lia).
  assert (2 ^ k ≤ 2 ^ 32) by (apply Z.pow_le_mono_r; lia). lia.
Qed.
Lemma lnot32_ones k : 0 ≤ k ≤ 32 → lnot32 (Z.ones k) = 2 ^ 32 - 2 ^ k.
Proof.
  intros. unfold lnot32, u32, Z.lnot. rewrite Z.ones_equiv.
  assert (0 < 2 ^ k) by (apply Z.pow_pos_nonneg; lia).
  assert (2 ^ k ≤ 2 ^ 32) by (apply Z.pow_le_mono_r; lia).
  replace (Z.pred (- Z.pred (2 ^ k))) with (2 ^ 32 - 2 ^ k + (-1) * 2 ^ 32) by lia.
  rewrite Z.mod_add by lia. apply Z.mod_small. lia.
Qed.

Lemma ip4_network c :
  cidr_ok c → 1 ≤ prefix c ≤ 32 →
  ip4 (set_s_addr (s_addr c .& htonl (lnot32 (Z.ones (32 - prefix c)))) c) =
    ip4 c / 2 ^ (32 - prefix c) * 2 ^ (32 - prefix c).
Proof.
  intros Hok Hp. pose proof (ip4_range c Hok).
  rewrite ip4_land, lnot32_u32, land_u32_lnot, land_lnot_ones by (done || lia). done.
Qed.

(** Equality of masked words is equality of the masked numbers. *)
Lemma u32_bytes_inj x y : 0 ≤ x < 2 ^ 32 → 0 ≤ y < 2 ^ 32 →
  be_val (u32_bytes x) = be_val (u32_bytes y) → x = y.
Proof.
  intros Hx Hy He. apply (f_equal (be_bytes 4)) in He.
  assert (∀ z, be_bytes 4 (be_val (u32_bytes z)) = u32_bytes z) as Hz.
  { intros z. rewrite <- (length_u32_bytes z). apply be_bytes_val, u32_bytes_wf. }
  rewrite !Hz in He. apply (f_equal u32_of) in He. by rewrite !u32_of_bytes, !u32_small in He.
Qed.
Lemma masked_eq a b m :
  cidr_ok a → cidr_ok b →
  (s_addr a .& htonl m = s_addr b .& htonl m) ↔ (ip4 a .& u32 m = ip4 b .& u32 m).
Proof.
  intros Ha Hb. pose proof (ip4_land a m Ha) as Ea. pose proof (ip4_land b m Hb) as Eb.
  unfold ip4 in Ea at 1. unfold ip4 in Eb at 1. rewrite take4_set in Ea, Eb.
  assert (∀ c, cidr_ok c → 0 ≤ s_addr c .& htonl m < 2 ^ 32) as Hr.
  { intros c [H1 H2]%take4_wf. apply land_range; [lia|by apply u32_of_range|].
    unfold htonl. case_match; [apply u32_range|]. apply be_val_bound, le_bytes_wf. }
  rewrite <- Ea, <- Eb. split; [congruence|]. apply u32_bytes_inj; auto.
Qed.

(** Inclusion of prefixes, in an address space of [w] bits. *)
Lemma in_prefix_weaken w p q x y :
  0 ≤ q ≤ p → p ≤ w → in_prefix w p x y → in_prefix w q x y.
Proof.
  unfold in_prefix. intros Hq Hp He.
  replace (2 ^ (w - q)) with (2 ^ (w - p) * 2 ^ (p - q)) by (rewrite <- Z.pow_add_r by lia; f_equal; lia).
  assert (0 < 2 ^ (w - p)) by (apply Z.pow_pos_nonneg; lia).
  assert (0 < 2 ^ (p - q)) by (apply Z.pow_pos_nonneg; lia).
  rewrite <- !Z.div_div by lia. by rewrite He.
Qed.
Lemma prefix_inclusion w p q x y :
  0 ≤ p ≤ w → 0 ≤ q ≤ w → 0 ≤ y < 2 ^ w →
  (∀ z, 0 ≤ z < 2 ^ w → in_prefix w q y z → in_prefix w p x z) ↔ p ≤ q ∧ in_prefix w p x y.
Proof.
  intros Hp Hq Hy. split.
  - intros Hin. split; [|by apply Hin].
    destruct (decide (p ≤ q)) as [|Hlt]; [done|exfalso].
    set (k := 2 ^ (w - p)). set (n := 2 ^ (w - q)).
    assert (0 < k) by (apply Z.pow_pos_nonneg; lia).
    assert (n = 2 ^ (p - q) * k) as Hn by (unfold n, k; rewrite <- Z.pow_add_r by lia; f_equal; lia).
    assert (2 ^ 1 ≤ 2 ^ (p - q)) by (apply Z.pow_le_mono_r; lia).
    assert (2 ^ w = 2 ^ q * n) as Hw by (unfold n; rewrite <- Z.pow_add_r by lia; f_equal; lia).
    assert (0 < n) by nia.
    set (base := y / n * n).
    assert (0 ≤ base ≤ y ∧ y < base + n) as Hbase
      by (unfold base; pose proof (Z.div_mod y n); pose proof (Z.mod_pos_bound y n);
          pose proof (Z.div_pos y n); nia).
    assert (base + n ≤ 2 ^ w) as Htop.
    { assert (y / n < 2 ^ q) by (apply Z.div_lt_upper_bound; lia). unfold base. nia. }
    assert (∀ d, 0 ≤ d < n → in_prefix w p x (base + d)) as Hd.
    { intros d Hd. apply Hin; [lia|]. unfold in_prefix. fold n. unfold base.
      by rewrite Z.div_add_l, (Z.div_small d), Z.add_0_r by lia. }
    pose proof (Hd 0 ltac:(lia)) as Hd0. pose proof (Hd k ltac:(nia)) as Hdk.
    unfold in_prefix in Hd0, Hdk. fold k in Hd0, Hdk. rewrite Hd0, Z.add_0_r in Hdk.
    replace (base + k) with (base + 1 * k) in Hdk by lia. rewrite Z.div_add in Hdk by lia. lia.
  - intros [Hle He] z Hz Hin. etrans; [exact He|]. apply (in_prefix_weaken w q p); solve [done|lia].
Qed.

Lemma div_mul_eq x y k : 0 < k → x / k * k = y / k * k ↔ x / k = y / k.
Proof. intros. nia. Qed.

(** The IPv4 tests and additions, as outcomes. *)
Lemma contains4_done a b s :
  cidr_ok a → cidr_ok b → 1 ≤ prefix a ≤ 32 →
  cidr_contains4 a b s =
    (_ ← separate; answer ((prefix a <=? prefix b) &&
      bool_decide (in_prefix 32 (prefix a) (ip4 a) (ip4 b)))) s.
Proof.
  intros Ha Hb Hp. unfold cidr_contains4. rewrite hostmask4_ret, lift_ret by done.
  unfold mbind at 1, M_bind at 1. cbn [mret M_ret]. rewrite (proj2 (Z.eqb_neq (prefix a) 0)) by lia.
  cbn [orb]. set (m := lnot32 _).
  replace (s_addr a .& htonl m =? s_addr b .& htonl m)
    with (bool_decide (in_prefix 32 (prefix a) (ip4 a) (ip4 b))); [done|].
  pose proof (ip4_range a Ha). pose proof (ip4_range b Hb).
  assert (0 < 2 ^ (32 - prefix a)) by (apply Z.pow_pos_nonneg; lia).
  apply eq_bool_prop_intro. rewrite bool_decide_spec, Is_true_true, Z.eqb_eq, masked_eq by done.
  unfold m. rewrite lnot32_u32, !land_u32_lnot, !land_lnot_ones by (done || lia).
  unfold in_prefix. symmetry. by apply div_mul_eq.
Qed.

End props.

(** ** Properties *)

(** 192.168.1.77/24 and 192.168.1.128/25. *)
Definition demo4 : cidr := Cidr AF_INET 24 ([192; 168; 1; 77] ++ replicate 12 0).
Definition demo4' : cidr := Cidr AF_INET 25 ([192; 168; 1; 128] ++ replicate 12 0).
Lemma demo4_ok : cidr_ok demo4.
Proof. split; [|done|done]. apply (bool_decide_unpack _). vm_compute. exact I. Qed.
Lemma demo4_ok' : cidr_ok demo4'.
Proof. split; [|done|done]. apply (bool_decide_unpack _). vm_compute. exact I. Qed.

(** "network", "broadcast" and "netmask" of an IPv4 address with a prefix
    of 1 to 32 push the first address of its prefix, the last one and the
    mask, each with prefix 32, on any byte order. *)
Theorem subnet4_ops {A : Arch} c s :
  cidr_ok c → 1 ≤ prefix c ≤ 32 → allocs s = [] →
  let size := 2 ^ (32 - prefix c) in
  let pushes (f : cidr → M bool) v := ∃ n, f c s = Done true (set_stack (cons n) s) ∧
    cidr_ok n ∧ family n = family c ∧ prefix n = 32 ∧ ip4 n = v in
  pushes cidr_network4 (ip4 c / size * size) ∧
  pushes cidr_broadcast4 (ip4 c / size * size + size - 1) ∧
  pushes cidr_netmask4 (2 ^ 32 - size).
Proof.
  intros Hok Hp Hal size pushes. unfold pushes. clear pushes. split_and!; eexists.
  - split_and!; [by apply network4_done|by apply set_prefix_ok, set_s_addr_ok|done..|].
    by apply ip4_network.
  - split_and!; [by apply broadcast4_done|by apply set_prefix_ok, set_s_addr_ok|done..|].
    pose proof (ip4_range c Hok). etrans; [by apply ip4_lor|].
    rewrite ones_u32, lor_ones, Z.ones_equiv by lia. fold size. lia.
  - split_and!; [by apply netmask4_done|by apply set_prefix_ok, set_s_addr_ok|done..|].
    etrans; [apply ip4_htonl|]. by rewrite lnot32_u32, lnot32_ones by lia.
Qed.

Lemma subnet4_ops_witness :
  let size := 2 ^ (32 - prefix demo4) in
  let pushes (f : cidr → M bool) v := ∃ n, f demo4 (start []) = Done true (set_stack (cons n) (start [])) ∧
    cidr_ok n ∧ family n = family demo4 ∧ prefix n = 32 ∧ ip4 n = v in
  pushes (cidr_network4 (A := mipsel)) (ip4 demo4 / size * size) ∧
  pushes (cidr_broadcast4 (A := mipsel)) (ip4 demo4 / size * size + size - 1) ∧
  pushes (cidr_netmask4 (A := mipsel)) (2 ^ 32 - size).
Proof. apply (subnet4_ops (A := mipsel) demo4 (start [])); [apply demo4_ok|done|done]. Defined.

(** C9: "contains" on IPv4 prefixes of up to 32 bits, the base prefix of at
    least one, answers 1 exactly when every address of the argument's prefix is
    in the base prefix; on a base prefix of 0 bits the mask is shifted by the
    width of the word, which C leaves undefined. *)
Theorem contains4_inclusion {A : Arch} a b s :
  cidr_ok a → cidr_ok b → prefix a ≤ 32 → prefix b ≤ 32 →
  if prefix a =? 0 then cidr_contains4 a b s = Crash BadShift
  else ∃ r, cidr_contains4 a b s = (_ ← separate; answer r) s ∧
    (r = true ↔ ∀ x, 0 ≤ x < 2 ^ 32 →
       in_prefix 32 (prefix b) (ip4 b) x → in_prefix 32 (prefix a) (ip4 a) x).
Proof.
  intros Ha Hb Hp Hq. pose proof (co_prefix a Ha). destruct (Z.eqb_spec (prefix a) 0) as [Hz|Hz].
  { unfold cidr_contains4, mbind, M_bind, hostmask4. by rewrite Hz. }
  eexists. split; [apply contains4_done; solve [done|lia]|].
  pose proof (ip4_range b Hb). pose proof (co_prefix b Hb). rewrite prefix_inclusion by lia.
  by rewrite andb_true_iff, Z.leb_le, bool_decide_eq_true.
Qed.

Lemma contains4_inclusion_witness :
  ∃ r, cidr_contains4 (A := mipsel) demo4 demo4' (start []) = (_ ← separate; answer r) (start []) ∧
    (r = true ↔ ∀ x, 0 ≤ x < 2 ^ 32 →
       in_prefix 32 (prefix demo4') (ip4 demo4') x → in_prefix 32 (prefix demo4) (ip4 demo4) x).
Proof.
  apply (contains4_inclusion (A := mipsel) demo4 demo4' (start [])); [apply demo4_ok|apply demo4_ok'|done|done].
Defined.

(** with a prefix of 0 the IPv4 mask operations, "contains" included,
    shift an [int] by 32: the behaviour is undefined. *)
Theorem prefix0_undefined {A : Arch} a b s :
  prefix a = 0 → allocs s = [] →
  cidr_network4 a s = Crash BadShift ∧ cidr_broadcast4 a s = Crash BadShift ∧
  cidr_netmask4 a s = Crash BadShift ∧ cidr_contains4 a b s = Crash BadShift.
Proof.
  intros Hp Hal. unfold cidr_network4, cidr_broadcast4, cidr_netmask4, cidr_contains4, mbind, M_bind.
  rewrite !clone_done by done. unfold hostmask4. by rewrite Hp.
Qed.

Lemma prefix0_undefined_witness :
  let a := Cidr AF_INET 0 (replicate 16 0) in
  cidr_network4 (A := mipsel) a (start []) = Crash BadShift ∧
  cidr_broadcast4 (A := mipsel) a (start []) = Crash BadShift ∧
  cidr_netmask4 (A := mipsel) a (start []) = Crash BadShift ∧
  cidr_contains4 (A := mipsel) a demo4 (start []) = Crash BadShift.
Proof. apply (prefix0_undefined (A := mipsel) (Cidr AF_INET 0 (replicate 16 0)) demo4 (start [])); done. Defined.

(** "add" and "sub" on IPv4 addresses push the sum and the difference,
    or fail with a message exactly when it leaves the 32-bit address space,
    and then push the base address unchanged. *)
Theorem addsub4 {A : Arch} a b s :
  cidr_ok a → cidr_ok b → family a = AF_INET → family b = AF_INET → allocs s = [] →
  (∃ n, cidr_ok n ∧ family n = AF_INET ∧ prefix n = prefix a ∧ ip4 n = u32 (ip4 a + ip4 b) ∧
     cidr_add4 a b s =
       if ip4 a + ip4 b <? 2 ^ 32 then Done true (set_stack (cons n) s)
       else (_ ← complain (Overflow (cs "add")); mret false) (set_stack (cons a) s)) ∧
  (∃ n, cidr_ok n ∧ family n = AF_INET ∧ prefix n = prefix a ∧ ip4 n = u32 (ip4 a - ip4 b) ∧
     cidr_sub4 a b s =
       if ip4 b <=? ip4 a then Done true (set_stack (cons n) s)
       else (_ ← complain (Underflow (cs "sub")); mret false) (set_stack (cons a) s)).
Proof.
  intros Ha Hb Hfa Hfb Hal. pose proof (ip4_range a Ha). pose proof (ip4_range b Hb).
  split.
  - exists (set_s_addr (htonl (u32 (ip4 a + ip4 b))) a).
    split_and!; [by apply set_s_addr_ok|done..|rewrite ip4_htonl; apply u32_small, u32_range|].
    unfold cidr_add4, mbind, M_bind. rewrite clone_done, !ntohl_s_addr by done.
    rewrite !bool_decide_eq_true_2 by done. cbn [negb orb].
    replace (u32 (ip4 a + ip4 b) <? ip4 a) with (negb (ip4 a + ip4 b <? 2 ^ 32));
      [by destruct (ip4 a + ip4 b <? 2 ^ 32)|].
    destruct (Z.ltb_spec (ip4 a + ip4 b) (2 ^ 32)); simpl; symmetry.
    + apply Z.ltb_ge. rewrite u32_small; lia.
    + apply Z.ltb_lt. unfold u32. rewrite <- (Z.mod_unique _ _ 1 (ip4 a + ip4 b - 2 ^ 32)); lia.
  - exists (set_s_addr (htonl (u32 (ip4 a - ip4 b))) a).
    split_and!; [by apply set_s_addr_ok|done..|rewrite ip4_htonl; apply u32_small, u32_range|].
    unfold cidr_sub4, mbind, M_bind. rewrite clone_done, !ntohl_s_addr by done.
    rewrite !bool_decide_eq_true_2 by done. cbn [negb orb].
    replace (ip4 a <? u32 (ip4 a - ip4 b)) with (negb (ip4 b <=? ip4 a));
      [by destruct (ip4 b <=? ip4 a)|].
    destruct (Z.leb_spec (ip4 b) (ip4 a)); simpl; symmetry.
    + apply Z.ltb_ge. rewrite u32_small; lia.
    + apply Z.ltb_lt. unfold u32. rewrite <- (Z.mod_unique _ _ (-1) (ip4 a - ip4 b + 2 ^ 32)); lia.
Qed.

Lemma addsub4_witness :
  (∃ n, cidr_ok n ∧ family n = AF_INET ∧ prefix n = prefix demo4 ∧ ip4 n = u32 (ip4 demo4 + ip4 demo4') ∧
     cidr_add4 (A := mipsel) demo4 demo4' (start []) =
       if ip4 demo4 + ip4 demo4' <? 2 ^ 32 then Done true (set_stack (cons n) (start []))
       else (_ ← complain (Overflow (cs "add")); mret false) (set_stack (cons demo4) (start []))) ∧
  (∃ n, cidr_ok n ∧ family n = AF_INET ∧ prefix n = prefix demo4 ∧ ip4 n = u32 (ip4 demo4 - ip4 demo4') ∧
     cidr_sub4 (A := mipsel) demo4 demo4' (start []) =
       if ip4 demo4' <=? ip4 demo4 then Done true (set_stack (cons n) (start []))
       else (_ ← complain (Underflow (cs "sub")); mret false) (set_stack (cons demo4) (start []))).
Proof.
  apply (addsub4 (A := mipsel) demo4 demo4' (start [])); [apply demo4_ok|apply demo4_ok'|done..].
Defined.

End OwipcalcProps.
