(* ===== verification/OwipcalcV6.v ===== *)
(** * The IPv6 operations of the IP calculator

    The byte loops of owipcalc.c compute 128-bit arithmetic, masks and prefix
    inclusion. *)

From S2P Require Import Prelude CLib Owipcalc OwipcalcProps.
Import Owipcalc OwipcalcProps.
Open Scope Z_scope.
Open Scope cint_scope.

Module OwipcalcV6.

(** ** Carry loops *)

Lemma add_bytes_spec x y c :
  bytes_wf x → bytes_wf y → length x = length y → 0 ≤ c ≤ 1 →
  let '(r, k) := add_bytes x y c in
  bytes_wf r ∧ length r = length x ∧ 0 ≤ k ≤ 1 ∧
  le_val r + 256 ^ Z.of_nat (length x) * k = le_val x + le_val y + c.
Proof.
  intros Hx. revert y c. induction Hx as [|b x Hb Hx IH]; intros [|d y] c Hy Hl Hc;
    cbn [length] in Hl; try lia; cbn [add_bytes sub_bytes length le_val].
  - split_and!; [constructor|done|lia|lia|simpl; lia].
  - apply Forall_cons in Hy as [Hd Hy]. apply Nat.succ_inj in Hl.
    specialize (IH y (if 256 <=? b + d + c then 1 else 0) Hy Hl ltac:(case_match; lia)).
    destruct (add_bytes x y _) as [r k]. destruct IH as (Hr & Hlr & Hk & He).
    split_and!; [|cbn [length]; lia|lia|lia|].
    + constructor; [apply u8_range|done].
    + rewrite Nat2Z.inj_succ, Z.pow_succ_r by lia. cbn [le_val].
      assert (u8 (b + (d + c)) + 256 * (if 256 <=? b + d + c then 1 else 0) = b + d + c).
      { unfold u8. destruct (Z.leb_spec 256 (b + d + c)).
        - rewrite <- (Z.mod_unique _ _ 1 (b + (d + c) - 256)); lia.
        - rewrite Z.mod_small; lia. }
      lia.
Qed.
Lemma sub_bytes_spec x y c :
  bytes_wf x → bytes_wf y → length x = length y → 0 ≤ c ≤ 1 →
  let '(r, k) := sub_bytes x y c in
  bytes_wf r ∧ length r = length x ∧ 0 ≤ k ≤ 1 ∧
  le_val r - 256 ^ Z.of_nat (length x) * k = le_val x - le_val y - c.
Proof.
  intros Hx. revert y c. induction Hx as [|b x Hb Hx IH]; intros [|d y] c Hy Hl Hc;
    cbn [length] in Hl; try lia; cbn [add_bytes sub_bytes length le_val].
  - split_and!; [constructor|done|lia|lia|simpl; lia].
  - apply Forall_cons in Hy as [Hd Hy]. apply Nat.succ_inj in Hl.
    specialize (IH y (if b - d - c <? 0 then 1 else 0) Hy Hl ltac:(case_match; lia)).
    destruct (sub_bytes x y _) as [r k]. destruct IH as (Hr & Hlr & Hk & He).
    split_and!; [|cbn [length]; lia|lia|lia|].
    + constructor; [apply u8_range|done].
    + rewrite Nat2Z.inj_succ, Z.pow_succ_r by lia. cbn [le_val].
      assert (u8 (b - (d + c)) - 256 * (if b - d - c <? 0 then 1 else 0) = b - d - c).
      { unfold u8. destruct (Z.ltb_spec (b - d - c) 0).
        - rewrite <- (Z.mod_unique _ _ (-1) (b - (d + c) + 256)); lia.
        - rewrite Z.mod_small; lia. }
      lia.
Qed.

(** On byte strings in network order. *)
Lemma add_be x y c :
  bytes_wf x → bytes_wf y → length x = length y → 0 ≤ c ≤ 1 →
  ∃ r k, add_bytes (reverse x) (reverse y) c = (reverse r, k) ∧ bytes_wf r ∧ length r = length x ∧
    0 ≤ k ≤ 1 ∧ be_val r + 256 ^ Z.of_nat (length x) * k = be_val x + be_val y + c.
Proof.
  intros Hx Hy Hl Hc.
  pose proof (add_bytes_spec (reverse x) (reverse y) c) as H.
  rewrite !bytes_wf_reverse, !length_reverse in H. specialize (H Hx Hy Hl Hc).
  destruct (add_bytes (reverse x) (reverse y) c) as [r k]. destruct H as (Hr & Hlr & Hk & He).
  exists (reverse r), k. rewrite reverse_involutive, bytes_wf_reverse, length_reverse.
  split_and!; [done|done|done|lia|lia|]. unfold be_val. by rewrite reverse_involutive.
Qed.
Lemma sub_be x y c :
  bytes_wf x → bytes_wf y → length x = length y → 0 ≤ c ≤ 1 →
  ∃ r k, sub_bytes (reverse x) (reverse y) c = (reverse r, k) ∧ bytes_wf r ∧ length r = length x ∧
    0 ≤ k ≤ 1 ∧ be_val r - 256 ^ Z.of_nat (length x) * k = be_val x - be_val y - c.
Proof.
  intros Hx Hy Hl Hc.
  pose proof (sub_bytes_spec (reverse x) (reverse y) c) as H.
  rewrite !bytes_wf_reverse, !length_reverse in H. specialize (H Hx Hy Hl Hc).
  destruct (sub_bytes (reverse x) (reverse y) c) as [r k]. destruct H as (Hr & Hlr & Hk & He).
  exists (reverse r), k. rewrite reverse_involutive, bytes_wf_reverse, length_reverse.
  split_and!; [done|done|done|lia|lia|]. unfold be_val. by rewrite reverse_involutive.
Qed.

(** A carry out of the last byte is a sum outside the address space. *)
Lemma carry_iff r k v w :
  0 ≤ k ≤ 1 → 0 ≤ r < w → r + w * k = v → k = (if v <? w then 0 else 1) ∧ r = v mod w.
Proof.
  intros Hk Hr He. assert (k = 0 ∨ k = 1) as [-> | ->] by lia.
  - rewrite (proj2 (Z.ltb_lt v w)) by lia. split; [done|]. rewrite Z.mod_small; lia.
  - rewrite (proj2 (Z.ltb_ge v w)) by lia. split; [done|]. apply (Z.mod_unique _ _ 1); lia.
Qed.
Lemma borrow_iff r k v w :
  0 ≤ k ≤ 1 → 0 ≤ r < w → r - w * k = v → k = (if 0 <=? v then 0 else 1) ∧ r = v mod w.
Proof.
  intros Hk Hr He. assert (k = 0 ∨ k = 1) as [-> | ->] by lia.
  - rewrite (proj2 (Z.leb_le 0 v)) by lia. split; [done|]. rewrite Z.mod_small; lia.
  - rewrite (proj2 (Z.leb_gt 0 v)) by lia. split; [done|]. apply (Z.mod_unique _ _ (-1)); lia.
Qed.

Lemma cidr_bytes16 l f p :
  bytes_wf l → length l = 16%nat → 0 ≤ p < 2 ^ 32 → cidr_ok (Cidr f p l).
Proof. by split. Qed.

(** fd00::/56 and fd00:0:0:42::1/60. *)
Definition demo6 : cidr := Cidr AF_INET6 56 (0xfd :: replicate 15 0).
Definition demo6' : cidr := Cidr AF_INET6 60 ([0xfd; 0; 0; 0; 0; 0; 0; 0x42] ++ replicate 7 0 ++ [1]).
Lemma demo6_ok : cidr_ok demo6.
Proof. split; [|done|done]. apply (bool_decide_unpack _). vm_compute. exact I. Qed.
Lemma demo6_ok' : cidr_ok demo6'.
Proof. split; [|done|done]. apply (bool_decide_unpack _). vm_compute. exact I. Qed.

(** C10: "add" and "sub" on IPv6 addresses push the 128-bit sum and
    difference modulo 2^128, and fail with a message exactly when the result
    leaves the address space. *)
Theorem addsub6 a b s :
  cidr_ok a → cidr_ok b → family a = AF_INET6 → family b = AF_INET6 → allocs s = [] →
  (∃ n, cidr_ok n ∧ family n = AF_INET6 ∧ prefix n = prefix a ∧ ip6 n = (ip6 a + ip6 b) mod 2 ^ 128 ∧
     cidr_add6 a b s =
       (if ip6 a + ip6 b <? 2 ^ 128 then mret true
        else _ ← complain (Overflow (cs "add")); mret false) (set_stack (cons n) s)) ∧
  (∃ n, cidr_ok n ∧ family n = AF_INET6 ∧ prefix n = prefix a ∧ ip6 n = (ip6 a - ip6 b) mod 2 ^ 128 ∧
     cidr_sub6 a b s =
       (if ip6 b <=? ip6 a then mret true
        else _ ← complain (Underflow (cs "sub")); mret false) (set_stack (cons n) s)).
Proof.
  intros Ha Hb Hfa Hfb Hal. destruct Ha as [Ha1 Ha2 Ha3], Hb as [Hb1 Hb2 Hb3].
  split.
  - destruct (add_be (addr a) (addr b) 0) as (r & k & Er & Hr & Hl & Hk & He); [done..|congruence|lia|].
    rewrite Ha2 in Hl, He. pose proof (be_val_bound r Hr) as Hrb. rewrite Hl in Hrb.
    change (256 ^ Z.of_nat 16) with (2 ^ 128) in *.
    apply carry_iff in He as [Hk' Hv]; [|done..].
    exists (set_addr r a). unfold ip6. cbn [set_addr addr family prefix].
    split_and!; [by apply cidr_bytes16|done..|rewrite Hv; f_equal; lia|].
    unfold cidr_add6, mbind, M_bind. rewrite clone_done by done. cbv beta iota.
    rewrite Er, reverse_involutive, !bool_decide_eq_true_2 by done. cbn [negb orb]. rewrite Hk', Z.add_0_r.
    by destruct (be_val (addr a) + be_val (addr b) <? 2 ^ 128).
  - destruct (sub_be (addr a) (addr b) 0) as (r & k & Er & Hr & Hl & Hk & He); [done..|congruence|lia|].
    rewrite Ha2 in Hl, He. pose proof (be_val_bound r Hr) as Hrb. rewrite Hl in Hrb.
    change (256 ^ Z.of_nat 16) with (2 ^ 128) in *.
    apply borrow_iff in He as [Hk' Hv]; [|done..].
    exists (set_addr r a). unfold ip6. cbn [set_addr addr family prefix].
    split_and!; [by apply cidr_bytes16|done..|rewrite Hv; f_equal; lia|].
    unfold cidr_sub6, mbind, M_bind. rewrite clone_done by done. cbv beta iota.
    rewrite Er, reverse_involutive, !bool_decide_eq_true_2 by done. cbn [negb orb].
    replace (be_val (addr b) <=? be_val (addr a)) with (0 <=? be_val (addr a) - be_val (addr b) - 0).
    + rewrite Hk'. by destruct (0 <=? be_val (addr a) - be_val (addr b) - 0).
    + apply eq_bool_prop_intro. rewrite !Is_true_true, !Z.leb_le. lia.
Qed.

Lemma addsub6_witness :
  (∃ n, cidr_ok n ∧ family n = AF_INET6 ∧ prefix n = prefix demo6 ∧
     ip6 n = (ip6 demo6 + ip6 demo6') mod 2 ^ 128 ∧
     cidr_add6 demo6 demo6' (start []) =
       (if ip6 demo6 + ip6 demo6' <? 2 ^ 128 then mret true
        else _ ← complain (Overflow (cs "add")); mret false) (set_stack (cons n) (start []))) ∧
  (∃ n, cidr_ok n ∧ family n = AF_INET6 ∧ prefix n = prefix demo6 ∧
     ip6 n = (ip6 demo6 - ip6 demo6') mod 2 ^ 128 ∧
     cidr_sub6 demo6 demo6' (start []) =
       (if ip6 demo6' <=? ip6 demo6 then mret true
        else _ ← complain (Underflow (cs "sub")); mret false) (set_stack (cons n) (start []))).
Proof. apply (addsub6 demo6 demo6' (start [])); [apply demo6_ok|apply demo6_ok'|done..]. Defined.

(** ** Steps of whole bytes *)

Lemma pow256 n : 256 ^ Z.of_nat n = 2 ^ (8 * Z.of_nat n).
Proof. change 256 with (2 ^ 8). rewrite <- Z.pow_mul_r by lia. done. Qed.

(** The bytes up to [idx] hold the address divided by what is left. *)
Lemma split_head k l :
  bytes_wf l → length l = 16%nat → (k ≤ 16)%nat →
  bytes_wf (take k l) ∧ length (take k l) = k ∧ bytes_wf (drop k l) ∧
  be_val l = be_val (take k l) * 2 ^ (8 * Z.of_nat (16 - k)) + be_val (drop k l) ∧
  0 ≤ be_val (drop k l) < 2 ^ (8 * Z.of_nat (16 - k)).
Proof.
  intros Hl H16 Hk. assert (bytes_wf (drop k l)) as Hd by (by apply Forall_drop).
  pose proof (be_val_bound _ Hd) as Hb. rewrite length_drop, H16, pow256 in Hb.
  split_and!; [by apply Forall_take|rewrite length_take; lia|done| |lia|lia].
  rewrite <- (take_drop k l) at 1. rewrite be_val_app, length_drop, H16, pow256. done.
Qed.

Lemma step_index_ret b :
  1 ≤ prefix b ≤ 128 →
  ∃ idx, step_index b = Ret idx ∧ (S idx ≤ 16)%nat ∧
    8 * Z.of_nat (16 - S idx) = 128 - (prefix b + 7) / 8 * 8.
Proof.
  intros Hp. unfold step_index.
  pose proof (Z.div_mod (prefix b - 1) 8). pose proof (Z.mod_pos_bound (prefix b - 1) 8).
  pose proof (Z.div_mod (prefix b + 7) 8). pose proof (Z.mod_pos_bound (prefix b + 7) 8).
  unfold u8. rewrite Z.mod_small by lia. rewrite (proj2 (Z.ltb_lt _ _)) by lia.
  eexists. split; [done|]. lia.
Qed.

(** Adding to, or taking from, the head of the address by its carry loop. *)
Lemma head_value l k r v :
  bytes_wf l → length l = 16%nat → (k ≤ 16)%nat → length r = k → bytes_wf r →
  be_val r = (be_val (take k l) + v) mod 256 ^ Z.of_nat k →
  be_val (r ++ drop k l) = (be_val l + v * 2 ^ (8 * Z.of_nat (16 - k))) mod 2 ^ 128.
Proof.
  intros Hl H16 Hk Hlr Hr Hv. destruct (split_head k l Hl H16 Hk) as (_ & _ & _ & He & Hb).
  rewrite be_val_app, length_drop, H16, pow256, Hv, He, pow256.
  set (w := 2 ^ (8 * Z.of_nat (16 - k))) in *. assert (0 < w) by (apply Z.pow_pos_nonneg; lia).
  replace (2 ^ 128) with (w * 2 ^ (8 * Z.of_nat k)) by (unfold w; rewrite <- Z.pow_add_r by lia; f_equal; lia).
  assert (0 < 2 ^ (8 * Z.of_nat k)) by (apply Z.pow_pos_nonneg; lia). rewrite Z.rem_mul_r by lia.
  replace (be_val (take k l) * w + be_val (drop k l) + v * w)
    with (be_val (drop k l) + (be_val (take k l) + v) * w) by lia.
  rewrite Z.mod_add, Z.div_add by lia.
  rewrite (Z.mod_small (be_val (drop k l))), (Z.div_small (be_val (drop k l))), Z.add_0_l by lia. lia.
Qed.

Lemma head_carry x d w c :
  0 ≤ d < w → (x * w + d + w <? c * w) = (x + 1 <? c) ∧ (w <=? x * w + d) = (0 <=? x - 0 - 1).
Proof.
  intros. split; apply eq_bool_prop_intro; rewrite !Is_true_true;
    rewrite ?Z.ltb_lt, ?Z.leb_le; nia.
Qed.

Lemma zeros_val n : be_val (replicate n 0) = 0.
Proof.
  unfold be_val. rewrite reverse_replicate. induction n as [|n IH]; [done|]. cbn [replicate le_val].
  rewrite IH. lia.
Qed.
Lemma zeros_wf n : bytes_wf (replicate n 0).
Proof. apply Forall_replicate. lia. Qed.

(** "next" and "prev" on IPv6 addresses, with a prefix argument of 1 to
    128, add or take the size of a prefix of that length rounded up to whole
    bytes, which is the size asked for when the length is a multiple of 8;
    leaving the address space is an error. *)
Theorem nextprev6 a b s :
  cidr_ok a → cidr_ok b → 1 ≤ prefix b ≤ 128 → allocs s = [] →
  let step := 2 ^ (128 - (prefix b + 7) / 8 * 8) in
  (∃ n, cidr_ok n ∧ family n = family a ∧ ip6 n = (ip6 a + step) mod 2 ^ 128 ∧
     cidr_next6 a b s =
       if ip6 a + step <? 2 ^ 128 then Done true (set_stack (cons (set_prefix (prefix b) n)) s)
       else (_ ← complain (Overflow (cs "next")); mret false) (set_stack (cons n) s)) ∧
  (∃ n, cidr_ok n ∧ family n = family a ∧ ip6 n = (ip6 a - step) mod 2 ^ 128 ∧
     cidr_prev6 a b s =
       if step <=? ip6 a then Done true (set_stack (cons (set_prefix (prefix b) n)) s)
       else (_ ← complain (Underflow (cs "prev")); mret false) (set_stack (cons n) s)).
Proof.
  intros [Ha1 Ha2 Ha3] Hb Hp Hal step.
  destruct (step_index_ret b Hp) as (idx & Hidx & Hle & Hstep). unfold step. rewrite <- Hstep.
  destruct (split_head (S idx) (addr a) Ha1 Ha2 Hle) as (Hx & Hxl & Hd & He & Hdb).
  set (w := 2 ^ (8 * Z.of_nat (16 - S idx))) in *.
  assert (0 < w) as Hw by (apply Z.pow_pos_nonneg; lia).
  assert (2 ^ 128 = 256 ^ Z.of_nat (S idx) * w) as Hc
    by (rewrite pow256; unfold w; rewrite <- Z.pow_add_r by lia; f_equal; lia).
  destruct (head_carry (be_val (take (S idx) (addr a))) _ w (256 ^ Z.of_nat (S idx)) Hdb)
    as [Hlt Hge].
  assert (∀ r, bytes_wf r → length r = S idx → cidr_ok (set_addr (r ++ drop (S idx) (addr a)) a)) as Hnok.
  { intros r Hr Hlr. apply cidr_bytes16; [by apply Forall_app|rewrite length_app, length_drop; lia|done]. }
  split.
  - destruct (add_be (take (S idx) (addr a)) (replicate (S idx) 0) 1) as (r & k & Er & Hr & Hl & Hk & Hval);
      [done|apply zeros_wf|by rewrite length_replicate|lia|].
    rewrite Hxl in Hl, Hval. pose proof (be_val_bound r Hr) as Hrb. rewrite Hl in Hrb.
    rewrite zeros_val, Z.add_0_r in Hval. apply carry_iff in Hval as [Hk' Hv]; [|done..].
    exists (set_addr (r ++ drop (S idx) (addr a)) a).
    split_and!; [by apply Hnok|done| |].
    { etrans; [by apply (head_value (addr a) (S idx) r 1)|]. fold w. f_equal. unfold ip6. lia. }
    unfold cidr_next6, mbind, M_bind. rewrite clone_done by done. cbv beta iota.
    rewrite (proj2 (Z.eqb_neq (prefix b) 0)), Hidx by lia. cbn [lift mret M_ret].
    rewrite <- (reverse_replicate (S idx) 0), Er, reverse_involutive.
    unfold ip6. rewrite He, Hc, Hlt, Hk'.
    by destruct (be_val (take (S idx) (addr a)) + 1 <? 256 ^ Z.of_nat (S idx)).
  - destruct (sub_be (take (S idx) (addr a)) (replicate (S idx) 0) 1) as (r & k & Er & Hr & Hl & Hk & Hval);
      [done|apply zeros_wf|by rewrite length_replicate|lia|].
    rewrite Hxl in Hl, Hval. pose proof (be_val_bound r Hr) as Hrb. rewrite Hl in Hrb.
    rewrite zeros_val in Hval. apply borrow_iff in Hval as [Hk' Hv]; [|done..].
    exists (set_addr (r ++ drop (S idx) (addr a)) a).
    split_and!; [by apply Hnok|done| |].
    { etrans; [apply (head_value (addr a) (S idx) r (-1)); try done; rewrite Hv; f_equal; lia|].
      fold w. unfold ip6. f_equal; lia. }
    unfold cidr_prev6, mbind, M_bind. rewrite clone_done by done. cbv beta iota.
    rewrite (proj2 (Z.eqb_neq (prefix b) 0)), Hidx by lia. cbn [lift mret M_ret].
    rewrite <- (reverse_replicate (S idx) 0), Er, reverse_involutive.
    unfold ip6. rewrite He, Hge, Hk'.
    by destruct (0 <=? be_val (take (S idx) (addr a)) - 0 - 1).
Qed.

Lemma nextprev6_witness :
  let step := 2 ^ (128 - (prefix demo6' + 7) / 8 * 8) in
  (∃ n, cidr_ok n ∧ family n = family demo6 ∧ ip6 n = (ip6 demo6 + step) mod 2 ^ 128 ∧
     cidr_next6 demo6 demo6' (start []) =
       if ip6 demo6 + step <? 2 ^ 128
       then Done true (set_stack (cons (set_prefix (prefix demo6') n)) (start []))
       else (_ ← complain (Overflow (cs "next")); mret false) (set_stack (cons n) (start []))) ∧
  (∃ n, cidr_ok n ∧ family n = family demo6 ∧ ip6 n = (ip6 demo6 - step) mod 2 ^ 128 ∧
     cidr_prev6 demo6 demo6' (start []) =
       if step <=? ip6 demo6 then Done true (set_stack (cons (set_prefix (prefix demo6') n)) (start []))
       else (_ ← complain (Underflow (cs "prev")); mret false) (set_stack (cons n) (start []))).
Proof. apply (nextprev6 demo6 demo6' (start [])); [apply demo6_ok|apply demo6_ok'|done..]. Defined.

(** ** Masks *)

(** A boolean property of a byte and a bit count below 8, by enumeration. *)
Lemma byte_bits_forall (P : Z → Z → bool) :
  forallb (λ h, forallb (P h) (seqZ 0 256)) (seqZ 0 8) = true →
  ∀ h x, 0 ≤ h < 8 → 0 ≤ x < 256 → P h x = true.
Proof.
  intros Hall h x Hh Hx. rewrite forallb_forall in Hall. apply byte_forall; [|done].
  apply Hall, list_elem_of_In, elem_of_seqZ. lia.
Qed.
Lemma mask_byte h x :
  0 ≤ h < 8 → 0 ≤ x < 256 →
  u8 (x .& lnot32 (u32 (2 ^ h - 1))) = x / 2 ^ h * 2 ^ h ∧
  u8 (x .& u8 (lnot32 (u32 (2 ^ h - 1)))) = x / 2 ^ h * 2 ^ h.
Proof.
  intros Hh Hx. rewrite <- !Z.eqb_eq, <- andb_true_iff.
  by refine (byte_bits_forall (λ h x, (u8 (x .& lnot32 (u32 (2 ^ h - 1))) =? x / 2 ^ h * 2 ^ h) &&
    (u8 (x .& u8 (lnot32 (u32 (2 ^ h - 1)))) =? x / 2 ^ h * 2 ^ h)) _ h x Hh Hx); vm_compute.
Qed.

(** The byte a prefix ends in: [k] whole bytes before it, [i] after it. *)
Lemma split_byte k l :
  bytes_wf l → length l = 16%nat → (k < 16)%nat →
  ∃ b, l !! k = Some b ∧ l = take k l ++ b :: drop (S k) l ∧ 0 ≤ b < 256 ∧
    bytes_wf (take k l) ∧ ∀ h, 0 ≤ h < 8 →
    be_val l / 2 ^ (8 * Z.of_nat (15 - k) + h) = be_val (take k l) * 2 ^ (8 - h) + b / 2 ^ h.
Proof.
  intros Hl H16 Hk. destruct (lookup_lt_is_Some_2 l k) as [b Hb]; [lia|].
  assert (0 ≤ b < 256) as Hbr by exact (Forall_lookup_1 _ _ _ _ Hl Hb).
  exists b. split_and!; [done|by rewrite take_drop_middle|lia|lia|by apply Forall_take|].
  intros h Hh. destruct (split_head (S k) l Hl H16 Hk) as (_ & _ & _ & He & Hd).
  replace (16 - S k)%nat with (15 - k)%nat in * by lia.
  rewrite He, Z.pow_add_r by lia. set (w := 2 ^ (8 * Z.of_nat (15 - k))) in *.
  assert (0 < w) by (apply Z.pow_pos_nonneg; lia).
  assert (0 < 2 ^ h) by (apply Z.pow_pos_nonneg; lia).
  rewrite <- Z.div_div, Z.div_add_l, (Z.div_small (be_val (drop _ _))), Z.add_0_r by lia.
  rewrite (take_S_r _ _ _ Hb), be_val_app. change (length [b]) with 1%nat.
  change (256 ^ Z.of_nat 1) with (2 ^ 8). change (be_val [b]) with (b + 256 * 0).
  replace (2 ^ 8) with (2 ^ (8 - h) * 2 ^ h) by (rewrite <- Z.pow_add_r by lia; f_equal; lia).
  rewrite Z.mul_assoc, Z.div_add_l by lia. do 2 f_equal. lia.
Qed.

Lemma clear_tail_spec k n l :
  0 ≤ n ≤ Z.of_nat k → (k ≤ length l)%nat →
  clear_tail k n l = Ret (take (k - Z.to_nat n) l ++ replicate (Z.to_nat n) 0 ++ drop k l).
Proof.
  revert n l. induction k as [|k IH]; intros n l Hn Hk; cbn [clear_tail].
  - rewrite (proj2 (Z.leb_le n 0)) by lia. by replace n with 0 by lia.
  - destruct (Z.leb_spec n 0).
    + replace n with 0 by lia. change (Z.to_nat 0) with 0%nat. change (replicate 0 0) with (@nil Z).
      by rewrite Nat.sub_0_r, app_nil_l, take_drop.
    + rewrite IH by (rewrite ?length_insert; lia). f_equal.
      replace (k - Z.to_nat (n - 1))%nat with (S k - Z.to_nat n)%nat by lia.
      rewrite take_insert_ge by lia. f_equal.
      destruct (lookup_lt_is_Some_2 l k) as [b Hb]; [lia|].
      rewrite (drop_S _ 0) by (apply list_lookup_insert_eq; lia).
      rewrite drop_insert_lt by lia. rewrite cons_middle, app_assoc. f_equal.
      rewrite <- replicate_S_end. f_equal. lia.
Qed.

(** The bytes [cidr_network6] leaves. *)
Definition net6 (p : Z) (l : list Z) : list Z :=
  let i := Z.to_nat ((128 - p) / 8) in
  let h := (128 - p) mod 8 in
  if h =? 0 then take (16 - i) l ++ replicate i 0
  else take (15 - i) l ++ [default 0 (l !! (15 - i)%nat) / 2 ^ h * 2 ^ h] ++ replicate i 0.

Lemma host_split p :
  0 ≤ p ≤ 128 → let i := Z.to_nat ((128 - p) / 8) in let h := (128 - p) mod 8 in
  128 - p = 8 * Z.of_nat i + h ∧ 0 ≤ h < 8 ∧ (i ≤ 16)%nat ∧ (h ≠ 0 → (i ≤ 15)%nat) ∧
  (128 - p) / 8 = Z.of_nat i.
Proof.
  intros Hp i h. pose proof (Z.div_mod (128 - p) 8). pose proof (Z.mod_pos_bound (128 - p) 8).
  unfold i, h. assert (0 ≤ (128 - p) / 8) by (apply Z.div_pos; lia). lia.
Qed.

Lemma network6_done c s :
  cidr_ok c → 0 ≤ prefix c ≤ 128 → allocs s = [] →
  cidr_network6 c s = Done true (set_stack (cons (set_addr (net6 (prefix c) (addr c)) c)) s).
Proof.
  intros [Hb Hl _] Hp Hal. unfold cidr_network6, mbind at 1, M_bind at 1. rewrite clone_done by done.
  cbv beta iota zeta. rewrite u32_small by lia.
  destruct (host_split (prefix c) Hp) as (Hhost & Hh & Hi & Hi' & Hdiv).
  unfold net6. rewrite Hdiv. set (i := Z.to_nat ((128 - prefix c) / 8)) in *.
  set (h := (128 - prefix c) mod 8) in *.
  rewrite clear_tail_spec by lia. rewrite Nat2Z.id, drop_ge, app_nil_r by lia.
  rewrite lift_ret. cbv [mbind M_bind mret M_ret].
  destruct (Z.eqb_spec h 0) as [|Hh0]; [done|].
  rewrite (proj2 (Z.ltb_lt (Z.of_nat i) 16)) by lia.
  replace (Z.to_nat (15 - Z.of_nat i)) with (15 - i)%nat by lia.
  destruct (split_byte (15 - i) (addr c) Hb Hl) as (b & Hlk & _ & Hbr & _); [lia|].
  rewrite lookup_app_l by (rewrite length_take; lia). rewrite lookup_take_lt, Hlk by lia.
  cbn [of_option result_bind default]. rewrite shl1_ret by lia. cbn [result_bind lift].
  rewrite (proj1 (mask_byte h b Hh Hbr)).
  enough (∀ v, <[(15 - i)%nat := v]> (take (16 - i) (addr c) ++ replicate i 0) =
    take (15 - i) (addr c) ++ [v] ++ replicate i 0) as -> by done.
  intros v. rewrite insert_app_l by (rewrite length_take; lia).
  replace (16 - i)%nat with (S (15 - i)) by lia. rewrite (take_S_r _ _ _ Hlk).
  rewrite insert_app_r_alt by (rewrite length_take; lia). rewrite length_take.
  replace (15 - i - (15 - i) `min` length (addr c))%nat with 0%nat by lia.
  cbn. by rewrite <- app_assoc.
Qed.

Lemma be_val_zeros l n : be_val (l ++ replicate n 0) = be_val l * 2 ^ (8 * Z.of_nat n).
Proof. rewrite be_val_app, length_replicate, zeros_val, pow256. lia. Qed.

Lemma net6_value p l :
  bytes_wf l → length l = 16%nat → 0 ≤ p ≤ 128 →
  bytes_wf (net6 p l) ∧ length (net6 p l) = 16%nat ∧
  be_val (net6 p l) = be_val l / 2 ^ (128 - p) * 2 ^ (128 - p).
Proof.
  intros Hb Hl Hp. destruct (host_split p Hp) as (Hhost & Hh & Hi & Hi' & _). unfold net6.
  set (i := Z.to_nat ((128 - p) / 8)) in *. set (h := (128 - p) mod 8) in *. rewrite Hhost.
  destruct (Z.eqb_spec h 0) as [Hh0|Hh0].
  - destruct (split_head (16 - i) l Hb Hl) as (Ht & Htl & _ & He & Hd); [lia|].
    split_and!; [apply Forall_app; split; [done|apply zeros_wf]|rewrite length_app, length_replicate; lia|].
    rewrite be_val_zeros, Hh0, Z.add_0_r. replace (16 - (16 - i))%nat with i in * by lia.
    rewrite He, Z.div_add_l, (Z.div_small (be_val (drop _ _))) by (done || apply Z.pow_nonzero; lia). lia.
  - destruct (split_byte (15 - i) l Hb Hl) as (b & Hlk & _ & Hbr & Ht & Hq); [lia|]. rewrite Hlk.
    replace (15 - (15 - i))%nat with i in * by lia. rewrite (Hq h Hh). cbn [default].
    assert (0 < 2 ^ h) by (apply Z.pow_pos_nonneg; lia).
    pose proof (Z.div_mod b (2 ^ h) ltac:(lia)). pose proof (Z.mod_pos_bound b (2 ^ h) ltac:(lia)).
    assert (0 ≤ b / 2 ^ h) by (apply Z.div_pos; lia).
    assert (0 ≤ b / 2 ^ h * 2 ^ h < 256) by nia.
    split_and!.
    + repeat apply Forall_app_2; [done|by apply Forall_singleton|apply zeros_wf].
    + rewrite !length_app, length_replicate, length_take. simpl. lia.
    + rewrite app_assoc, be_val_zeros, be_val_app. change (256 ^ Z.of_nat (length [_])) with (2 ^ 8).
      replace (2 ^ 8) with (2 ^ (8 - h) * 2 ^ h) by (rewrite <- Z.pow_add_r by lia; f_equal; lia).
      rewrite Z.pow_add_r by lia. unfold be_val at 2. simpl. nia.
Qed.

(** "network" of an IPv6 address clears its host bits and keeps its
    prefix: it pushes the first address of the prefix, for prefixes of 0 to
    128 bits. *)
Theorem network6_base c s :
  cidr_ok c → prefix c ≤ 128 → allocs s = [] →
  ∃ n, cidr_network6 c s = Done true (set_stack (cons n) s) ∧ cidr_ok n ∧
    family n = family c ∧ prefix n = prefix c ∧
    ip6 n = ip6 c / 2 ^ (128 - prefix c) * 2 ^ (128 - prefix c).
Proof.
  intros Hok Hp Hal. pose proof Hok as [Hb Hl Hpr].
  destruct (net6_value (prefix c) (addr c) Hb Hl) as (Hwf & Hlen & Hv); [lia|].
  eexists. split_and!; [apply network6_done; done || lia|by apply cidr_bytes16|done..].
Qed.

Lemma network6_base_witness :
  ∃ n, cidr_network6 demo6' (start []) = Done true (set_stack (cons n) (start [])) ∧ cidr_ok n ∧
    family n = family demo6' ∧ prefix n = prefix demo6' ∧
    ip6 n = ip6 demo6' / 2 ^ (128 - prefix demo6') * 2 ^ (128 - prefix demo6').
Proof. apply (network6_base demo6' (start [])); [apply demo6_ok'|done..]. Defined.

(** The test of [cidr_contains6] on the byte the prefix ends in and the bytes
    before it. *)
Lemma in_prefix_bytes p x y :
  bytes_wf x → length x = 16%nat → bytes_wf y → length y = 16%nat → 1 ≤ p ≤ 128 →
  let k := (15 - Z.to_nat ((128 - p) / 8))%nat in
  let h := (128 - p) mod 8 in
  ∃ b c, x !! k = Some b ∧ y !! k = Some c ∧ 0 ≤ b < 256 ∧ 0 ≤ c < 256 ∧
    (in_prefix 128 p (be_val x) (be_val y) ↔ take k x = take k y ∧ b / 2 ^ h = c / 2 ^ h).
Proof.
  intros Hx Hlx Hy Hly Hp k h. destruct (host_split p ltac:(lia)) as (Hhost & Hh & Hi & Hi' & Hdiv).
  fold h in Hhost, Hh, Hi'. set (i := Z.to_nat ((128 - p) / 8)) in *.
  assert (i ≤ 15)%nat as Hi15 by lia. assert (15 - k = i)%nat as Hki by (unfold k; lia).
  destruct (split_byte k x Hx Hlx) as (b & Hb & _ & Hbr & Htx & Hqx); [unfold k; lia|].
  destruct (split_byte k y Hy Hly) as (c & Hc & _ & Hcr & Hty & Hqy); [unfold k; lia|].
  exists b, c. split_and!; [done|done|lia..|]. unfold in_prefix.
  rewrite Hhost, <- Hki, Hqx, Hqy by done.
  assert (0 < 2 ^ h) by (apply Z.pow_pos_nonneg; lia).
  assert (2 ^ (8 - h) * 2 ^ h = 256) as H256
    by (rewrite <- Z.pow_add_r by lia; by replace (8 - h + h) with 8 by lia).
  assert (∀ d, 0 ≤ d < 256 → 0 ≤ d / 2 ^ h < 2 ^ (8 - h)) as Hd.
  { intros d Hd. split; [apply Z.div_pos; lia|]. apply Z.div_lt_upper_bound; lia. }
  pose proof (Hd b Hbr). pose proof (Hd c Hcr). split; [|intros [-> ->]; done].
  intros He. assert (be_val (take k x) = be_val (take k y)) as Ht by nia.
  split; [|nia]. apply (f_equal (be_bytes k)) in Ht.
  assert (∀ l, bytes_wf (take k l) → length l = 16%nat → be_bytes k (be_val (take k l)) = take k l) as Hbe.
  { intros l Hl H16. rewrite <- (be_bytes_val (take k l) Hl) at 2. f_equal. rewrite length_take.
    unfold k. lia. }
  by rewrite !Hbe in Ht.
Qed.

(** "contains" on IPv6 prefixes answers 1 exactly when every address of
    the argument's prefix is in the base prefix, the empty prefix included. *)
Theorem contains6_inclusion a b s :
  cidr_ok a → cidr_ok b → prefix a ≤ 128 → prefix b ≤ 128 →
  ∃ r, cidr_contains6 a b s = (_ ← separate; answer r) s ∧
    (r = true ↔ ∀ x, 0 ≤ x < 2 ^ 128 →
       in_prefix 128 (prefix b) (ip6 b) x → in_prefix 128 (prefix a) (ip6 a) x).
Proof.
  intros Ha Hb Hp Hq. pose proof (ip6_range a Ha). pose proof (ip6_range b Hb).
  destruct Ha as [Ha1 Ha2 Ha3], Hb as [Hb1 Hb2 Hb3].
  assert (∀ r, (r = true ↔ prefix a ≤ prefix b ∧ in_prefix 128 (prefix a) (ip6 a) (ip6 b)) →
    (r = true ↔ ∀ x, 0 ≤ x < 2 ^ 128 →
       in_prefix 128 (prefix b) (ip6 b) x → in_prefix 128 (prefix a) (ip6 a) x)) as Hspec.
  { intros r Hr. rewrite Hr. symmetry. apply prefix_inclusion; lia. }
  unfold cidr_contains6. rewrite u32_small by lia.
  destruct (Z.eqb_spec (prefix a) 0) as [Hz|Hz].
  - destruct (lookup_lt_is_Some_2 (addr a) 15) as [x Hx]; [lia|].
    destruct (lookup_lt_is_Some_2 (addr b) 15) as [y Hy]; [lia|].
    exists true. split; [rewrite Hz; change (Z.to_nat (15 - (128 - 0) / 8 mod 16)) with 15%nat; by rewrite Hx, Hy|].
    apply Hspec. split; [intros _|done]. split; [lia|]. unfold in_prefix.
    by rewrite Hz, !Z.div_small by (rewrite Z.sub_0_r; lia).
  - destruct (host_split (prefix a) ltac:(lia)) as (Hhost & Hh & Hi & Hi' & Hdiv).
    destruct (in_prefix_bytes (prefix a) (addr a) (addr b)) as (x & y & Hx & Hy & Hxr & Hyr & Hin); [done..|lia|].
    rewrite Hdiv, (Z.mod_small (Z.of_nat _)) by lia.
    set (i := Z.to_nat ((128 - prefix a) / 8)) in *.
    replace (Z.to_nat (15 - Z.of_nat i)) with (15 - i)%nat by lia. rewrite Hx, Hy.
    rewrite shl1_ret by lia. eexists. split; [reflexivity|]. apply Hspec.
    rewrite (proj2 (mask_byte _ x Hh Hxr)), (proj2 (mask_byte _ y Hh Hyr)).
    fold (ip6 a) (ip6 b) in Hin. rewrite Hin. cbn [orb].
    rewrite !andb_true_iff, orb_true_iff, Z.leb_le, Z.eqb_eq, Z.eqb_eq, bool_decide_eq_true.
    rewrite div_mul_eq by (apply Z.pow_pos_nonneg; lia).
    split; [|naive_solver]. intros [[Hle Hm] [H15|Ht]]; split_and!; try done.
    by replace (15 - i)%nat with 0%nat by lia.
Qed.

Lemma contains6_inclusion_witness :
  ∃ r, cidr_contains6 demo6 demo6' (start []) = (_ ← separate; answer r) (start []) ∧
    (r = true ↔ ∀ x, 0 ≤ x < 2 ^ 128 →
       in_prefix 128 (prefix demo6') (ip6 demo6') x → in_prefix 128 (prefix demo6) (ip6 demo6) x).
Proof. apply (contains6_inclusion demo6 demo6' (start [])); [apply demo6_ok|apply demo6_ok'|done..]. Defined.

End OwipcalcV6.
