(* ===== verification/OwipcalcMain.v ===== *)
(** * Byte order, text and the interpreter of the IP calculator

    The IPv4 operations that depend on the byte order of the target, the text
    form of addresses, and the command interpreter. *)

From S2P Require Import Prelude CLib Owipcalc OwipcalcProps.
Import Owipcalc OwipcalcProps.
Open Scope Z_scope.
Open Scope cint_scope.

Module OwipcalcMain.

(** ** "next" and "prev" on the word as it is in memory *)

Lemma take4_list (l : list Z) :
  bytes_wf l → length l = 4%nat →
  ∃ b0 b1 b2 b3, l = [b0; b1; b2; b3] ∧ 0 ≤ b0 < 256 ∧ 0 ≤ b1 < 256 ∧ 0 ≤ b2 < 256 ∧ 0 ≤ b3 < 256.
Proof.
  intros Hl H4. destruct l as [|b0 [|b1 [|b2 [|b3 [|? ?]]]]]; try discriminate H4.
  unfold bytes_wf in Hl. rewrite !Forall_cons in Hl. exists b0, b1, b2, b3. naive_solver.
Qed.

(** The bytes of a word, and the word in both byte orders. *)
Lemma word_bytes v :
  ∃ c0 c1 c2 c3 q, 0 ≤ c0 < 256 ∧ 0 ≤ c1 < 256 ∧ 0 ≤ c2 < 256 ∧ 0 ≤ c3 < 256 ∧
    v = c0 + 256 * c1 + 65536 * c2 + 16777216 * c3 + 4294967296 * q ∧
    be_val (le_bytes 4 (u32 v)) = c0 * 16777216 + c1 * 65536 + c2 * 256 + c3.
Proof.
  pose proof (le_val_bytes 4 (u32 v)) as Hv. change (256 ^ Z.of_nat 4) with (2 ^ 32) in Hv.
  rewrite (Z.mod_small (u32 v)) in Hv by apply u32_range.
  destruct (take4_list (le_bytes 4 (u32 v))) as (c0 & c1 & c2 & c3 & E & ? & ? & ? & ?);
    [apply le_bytes_wf|apply length_le_bytes|]. rewrite E in *. unfold be_val. cbn in Hv |- *.
  exists c0, c1, c2, c3, (v / 2 ^ 32). pose proof (Z.div_mod v (2 ^ 32)). unfold u32 in Hv. lia.
Qed.

Lemma u32_split w : ∃ q, u32 w = w - 4294967296 * q ∧ 0 ≤ u32 w < 4294967296.
Proof.
  exists (w / 2 ^ 32). unfold u32. pose proof (Z.div_mod w (2 ^ 32)).
  pose proof (Z.mod_pos_bound w (2 ^ 32)). lia.
Qed.

(** Adding [t] to byte [k] of a little-endian word, read in network order. *)
Lemma swap_add k b0 b1 b2 b3 t :
  (k < 4)%nat → 0 ≤ b0 < 256 → 0 ≤ b1 < 256 → 0 ≤ b2 < 256 → 0 ≤ b3 < 256 → 1 ≤ t ≤ 128 →
  be_val (le_bytes 4 (u32 (le_val [b0; b1; b2; b3] + t * 256 ^ Z.of_nat k))) =
    u32 (be_val [b0; b1; b2; b3] + t * 256 ^ Z.of_nat (3 - k))
  ↔ default 0 ([b0; b1; b2; b3] !! k) + t < 256.
Proof.
  intros Hk ? ? ? ? Ht. destruct (word_bytes (le_val [b0; b1; b2; b3] + t * 256 ^ Z.of_nat k))
    as (c0 & c1 & c2 & c3 & q & ? & ? & ? & ? & Hv & ->).
  destruct (u32_split (be_val [b0; b1; b2; b3] + t * 256 ^ Z.of_nat (3 - k))) as (q' & Hw & Hr).
  generalize dependent (u32 (be_val [b0; b1; b2; b3] + t * 256 ^ Z.of_nat (3 - k))). intros u Hw Hr.
  unfold be_val in Hw. revert Hv Hw. do 4 (destruct k as [|k]; [cbn; lia|]). lia.
Qed.
Lemma swap_sub k b0 b1 b2 b3 t :
  (k < 4)%nat → 0 ≤ b0 < 256 → 0 ≤ b1 < 256 → 0 ≤ b2 < 256 → 0 ≤ b3 < 256 → 1 ≤ t ≤ 128 →
  be_val (le_bytes 4 (u32 (le_val [b0; b1; b2; b3] - t * 256 ^ Z.of_nat k))) =
    u32 (be_val [b0; b1; b2; b3] - t * 256 ^ Z.of_nat (3 - k))
  ↔ t ≤ default 0 ([b0; b1; b2; b3] !! k).
Proof.
  intros Hk ? ? ? ? Ht. destruct (word_bytes (le_val [b0; b1; b2; b3] - t * 256 ^ Z.of_nat k))
    as (c0 & c1 & c2 & c3 & q & ? & ? & ? & ? & Hv & ->).
  destruct (u32_split (be_val [b0; b1; b2; b3] - t * 256 ^ Z.of_nat (3 - k))) as (q' & Hw & Hr).
  generalize dependent (u32 (be_val [b0; b1; b2; b3] - t * 256 ^ Z.of_nat (3 - k))). intros u Hw Hr.
  unfold be_val in Hw. revert Hv Hw. do 4 (destruct k as [|k]; [cbn; lia|]). lia.
Qed.

(** The step of a prefix, in the byte where the prefix ends. *)
Definition step_byte (p : Z) : nat := Z.to_nat ((p - 1) / 8).
Definition step_bit (p : Z) : Z := 2 ^ ((32 - p) mod 8).

Lemma step_bits p :
  1 ≤ p ≤ 32 →
  (step_byte p < 4)%nat ∧ 1 ≤ step_bit p ≤ 128 ∧
  2 ^ (32 - p) = step_bit p * 256 ^ Z.of_nat (3 - step_byte p) ∧
  be_val (le_bytes 4 (2 ^ (32 - p))) = step_bit p * 256 ^ Z.of_nat (step_byte p).
Proof.
  intros Hp. assert (p ∈ seqZ 1 32) as Hin by (apply elem_of_seqZ; lia). revert p Hin Hp.
  assert (Forall (λ p, (step_byte p < 4)%nat ∧ 1 ≤ step_bit p ≤ 128 ∧
    2 ^ (32 - p) = step_bit p * 256 ^ Z.of_nat (3 - step_byte p) ∧
    be_val (le_bytes 4 (2 ^ (32 - p))) = step_bit p * 256 ^ Z.of_nat (step_byte p)) (seqZ 1 32)) as Hall.
  { apply (bool_decide_unpack _). vm_compute. exact I. }
  rewrite Forall_forall in Hall. auto.
Qed.

Section order.
Context {A : Arch}.

Lemma s_addr_swap (f : Z → Z → Z) c v :
  cidr_ok c → big_endian = false →
  ip4 (set_s_addr (u32 (f (s_addr c) v)) c) = be_val (le_bytes 4 (u32 (f (le_val (take 4 (addr c))) v))).
Proof.
  intros _ Hle. unfold ip4. rewrite take4_set. unfold u32_bytes, s_addr, u32_of. by rewrite Hle.
Qed.
Lemma s_addr_same (f : Z → Z → Z) c v :
  cidr_ok c → big_endian = true → 0 ≤ v < 2 ^ 32 →
  ip4 (set_s_addr (u32 (f (s_addr c) (htonl v))) c) = u32 (f (ip4 c) v).
Proof.
  intros _ Hbe Hv. unfold ip4 at 1. rewrite take4_set. unfold u32_bytes, s_addr, u32_of, htonl.
  rewrite Hbe, be_val_bytes, (u32_small v) by done. apply Z.mod_small, u32_range.
Qed.

Lemma next4_done a b s :
  1 ≤ prefix b ≤ 32 → allocs s = [] →
  cidr_next4 a b s = Done true (set_stack (cons (set_s_addr (u32 (s_addr a + htonl (2 ^ (32 - prefix b))))
    (set_prefix (prefix b) a))) s) ∧
  cidr_prev4 a b s = Done true (set_stack (cons (set_s_addr (u32 (s_addr a - htonl (2 ^ (32 - prefix b))))
    (set_prefix (prefix b) a))) s).
Proof.
  intros Hp Hal. unfold cidr_next4, cidr_prev4, mbind, M_bind. rewrite !clone_done by done.
  cbv beta iota. by rewrite u32_small, shl1_ret by lia.
Qed.

Lemma step_correct a p :
  cidr_ok a → 1 ≤ p ≤ 32 →
  (ip4 (set_s_addr (u32 (s_addr a + htonl (2 ^ (32 - p)))) a) = u32 (ip4 a + 2 ^ (32 - p)) ↔
   big_endian = true ∨ default 0 (addr a !! step_byte p) + step_bit p < 256) ∧
  (ip4 (set_s_addr (u32 (s_addr a - htonl (2 ^ (32 - p)))) a) = u32 (ip4 a - 2 ^ (32 - p)) ↔
   big_endian = true ∨ step_bit p ≤ default 0 (addr a !! step_byte p)).
Proof.
  intros Hok Hp. destruct (step_bits p Hp) as (Hk & Ht & E1 & E2).
  assert (0 ≤ 2 ^ (32 - p) < 2 ^ 32) as Hr
    by (split; [by apply Z.pow_nonneg|apply Z.pow_lt_mono_r; lia]).
  destruct big_endian eqn:Hbe.
  - rewrite (s_addr_same Z.add), (s_addr_same Z.sub) by done. naive_solver.
  - rewrite (s_addr_swap Z.add), (s_addr_swap Z.sub) by done. unfold htonl. rewrite Hbe, E2, E1.
    destruct (take4_wf a Hok) as [Hb4 Hl4].
    assert (addr a !! step_byte p = take 4 (addr a) !! step_byte p) as -> by (by rewrite lookup_take_lt).
    unfold ip4. destruct (take4_list _ Hb4 Hl4) as (b0 & b1 & b2 & b3 & -> & ? & ? & ? & ?).
    rewrite swap_add, swap_sub by done. split; naive_solver.
Qed.

End order.

(** "next" and "prev" on IPv4 addresses push the address one prefix of
    the given size further or back, modulo 2^32, exactly when the CPU is
    big-endian or the step does not carry out of the byte the prefix ends in:
    on a little-endian CPU the carry goes to the wrong byte. *)
Theorem nextprev4 {A : Arch} a b s :
  cidr_ok a → 1 ≤ prefix b ≤ 32 → allocs s = [] →
  let p := prefix b in
  ∃ n m, cidr_next4 a b s = Done true (set_stack (cons n) s) ∧ prefix n = p ∧
    (ip4 n = u32 (ip4 a + 2 ^ (32 - p)) ↔
       big_endian = true ∨ default 0 (addr a !! step_byte p) + step_bit p < 256) ∧
    cidr_prev4 a b s = Done true (set_stack (cons m) s) ∧ prefix m = p ∧
    (ip4 m = u32 (ip4 a - 2 ^ (32 - p)) ↔
       big_endian = true ∨ step_bit p ≤ default 0 (addr a !! step_byte p)).
Proof.
  intros Hok Hp Hal p. destruct (next4_done a b s Hp Hal) as [-> ->].
  destruct (step_correct a p Hok Hp) as [H1 H2]. do 2 eexists. by split_and!.
Qed.

Lemma nextprev4_witness :
  let p := prefix demo4' in
  ∃ n m, cidr_next4 (A := mipsel) demo4 demo4' (start []) = Done true (set_stack (cons n) (start [])) ∧
    prefix n = p ∧
    (ip4 n = u32 (ip4 demo4 + 2 ^ (32 - p)) ↔
       big_endian (Arch := mipsel) = true ∨ default 0 (addr demo4 !! step_byte p) + step_bit p < 256) ∧
    cidr_prev4 (A := mipsel) demo4 demo4' (start []) = Done true (set_stack (cons m) (start [])) ∧
    prefix m = p ∧
    (ip4 m = u32 (ip4 demo4 - 2 ^ (32 - p)) ↔
       big_endian (Arch := mipsel) = true ∨ step_bit p ≤ default 0 (addr demo4 !! step_byte p)).
Proof. apply (nextprev4 (A := mipsel) demo4 demo4' (start [])); [apply demo4_ok|done..]. Defined.

(** "6to4" pushes 2002::/16 followed by the IPv4 address, with prefix 48,
    on a big-endian CPU; on a little-endian one the four bytes are reversed. *)
Theorem to6to4_bytes {A : Arch} a s :
  cidr_ok a → allocs s = [] →
  cidr_6to4 a s = Done true (set_stack (cons (Cidr AF_INET6 48
    ([0x20; 0x02] ++ (if big_endian then take 4 (addr a) else reverse (take 4 (addr a))) ++ replicate 10 0))) s).
Proof.
  intros Hok Hal. unfold cidr_6to4, mbind, M_bind. rewrite clone_done by done.
  enough ([u8 (s_addr a .>> 24); (s_addr a .>> 16) .& 0xFF; (s_addr a .>> 8) .& 0xFF; s_addr a .& 0xFF] =
    if big_endian then take 4 (addr a) else reverse (take 4 (addr a))) as <- by done.
  destruct (take4_wf a Hok) as [Hb4 Hl4]. unfold s_addr, u32_of, u8.
  destruct (take4_list _ Hb4 Hl4) as (b0 & b1 & b2 & b3 & -> & ? & ? & ? & ?).
  rewrite !land_255, !Z.shiftr_div_pow2 by lia. change (2 ^ 24) with 16777216.
  change (2 ^ 16) with 65536. change (2 ^ 8) with 256.
  case_match; unfold be_val; cbn; repeat f_equal; Z.to_euclidean_division_equations; lia.
Qed.

Lemma to6to4_bytes_witness :
  cidr_6to4 (A := mipsel) demo4 (start []) = Done true (set_stack (cons (Cidr AF_INET6 48
    ([0x20; 0x02] ++ reverse (take 4 (addr demo4)) ++ replicate 10 0))) (start [])).
Proof. apply (to6to4_bytes (A := mipsel) demo4 (start [])); [apply demo4_ok|done]. Defined.


(** "howmany" prints how many prefixes of the argument's length the base
    prefix holds when that is less than 2^32, and 0 when the argument's is
    shorter; for a larger difference the shift is undefined. *)
Theorem howmany_count a b s :
  cidr_ok a → cidr_ok b →
  let d := prefix b - prefix a in
  cidr_howmany a b s =
    if d <? 0 then (_ ← separate; _ ← qprintf (cs "0"); mret true) s
    else if d <? 32 then (_ ← separate; _ ← qprintf (fmt_u (2 ^ d)); mret true) s
    else Crash BadShift.
Proof.
  intros [_ _ Ha] [_ _ Hb] d. unfold cidr_howmany.
  replace (prefix b <? prefix a) with (d <? 0)
    by (apply eq_bool_prop_intro; rewrite !Is_true_true, !Z.ltb_lt; unfold d; lia).
  destruct (Z.ltb_spec d 0); [done|]. fold d. rewrite u32_small by (unfold d; lia).
  destruct (Z.ltb_spec d 32).
  - by rewrite shl1_ret by lia.
  - unfold shl1. rewrite (proj2 (Z.ltb_ge d 32)) by lia.
    unfold mbind, M_bind, separate, get, mbind, M_bind, lift, crash. by destruct (printed s).
Qed.

Lemma howmany_count_witness :
  let d := prefix demo4' - prefix demo4 in
  cidr_howmany demo4 demo4' (start []) =
    if d <? 0 then (_ ← separate; _ ← qprintf (cs "0"); mret true) (start [])
    else if d <? 32 then (_ ← separate; _ ← qprintf (fmt_u (2 ^ d)); mret true) (start [])
    else Crash BadShift.
Proof. apply (howmany_count demo4 demo4' (start [])); [apply demo4_ok|apply demo4_ok']. Defined.

(** ** Text *)

Lemma octet_digits n ds r acc :
  (length ds ≤ n)%nat → Forall (λ d, 0 ≤ d < 10) ds →
  match r with [] => True | c :: _ => is_digit 10 c = false end →
  octet n (((λ d, 48 + d) <$> ds) ++ r) acc = (acc ++ ds, r).
Proof.
  intros Hn Hds Hr. revert n acc Hn. induction Hds as [|d ds Hd Hds IH]; intros n acc Hn.
  - rewrite app_nil_r. destruct n, r as [|c r]; cbn; [done..|]. by rewrite Hr.
  - destruct n as [|n]; [cbn in Hn; lia|]. cbn [fmap list_fmap app octet].
    replace (is_digit 10 (48 + d)) with true.
    + cbn in Hn. rewrite IH by lia. rewrite <- app_assoc. cbn. by replace (48 + d - 48) with d by lia.
    + symmetry. unfold is_digit, digit_val.
      rewrite (proj2 (Z.leb_le 48 _)), (proj2 (Z.leb_le _ 57)) by lia. apply Z.ltb_lt. lia.
Qed.

(** The digits of a byte: at most three, no leading zero, their value. *)
Lemma byte_digits b :
  0 ≤ b < 256 → let ds := digits_of 10 10 b [] in
  (length ds ≤ 3)%nat ∧ Forall (λ d, 0 ≤ d < 10) ds ∧ octet_val ds = Some b.
Proof.
  intros Hb. cbv zeta. assert (b ∈ seqZ 0 256) as Hin by (apply elem_of_seqZ; lia). revert b Hin Hb.
  assert (Forall (λ b, (length (digits_of 10 10 b []) ≤ 3)%nat ∧
    Forall (λ d, 0 ≤ d < 10) (digits_of 10 10 b []) ∧ octet_val (digits_of 10 10 b []) = Some b)
    (seqZ 0 256)) as Hall by (apply (bool_decide_unpack _); vm_compute; exact I).
  rewrite Forall_forall in Hall. auto.
Qed.

Lemma dotted_cons2 b c l : dotted (b :: c :: l) = fmt_u b ++ 46 :: dotted (c :: l).
Proof. done. Qed.

Lemma octets_more n s :
  octets (S (S n)) s = let '(ds, r) := octet 3 s [] in
    v ← octet_val ds; match r with 46 :: r => cons v <$> octets (S n) r | _ => None end.
Proof. done. Qed.

Lemma octets_dotted l : bytes_wf l → l ≠ [] → octets (length l) (dotted l) = Some l.
Proof.
  intros Hl Hne. induction Hl as [|b l Hb Hl IH]; [done|]. clear Hne.
  destruct (byte_digits b Hb) as (H3 & Hds & Hv). destruct l as [|c l].
  - cbn [dotted length octets]. unfold fmt_u. rewrite <- (app_nil_r (_ <$> _)).
    rewrite octet_digits by done. rewrite app_nil_l, Hv. done.
  - rewrite dotted_cons2. cbn [length] in *. rewrite octets_more. unfold fmt_u.
    rewrite octet_digits by done. rewrite app_nil_l, Hv. cbn [mbind option_bind]. by rewrite IH.
Qed.

Lemma dotted_chars l : bytes_wf l → Forall (λ c, c = 46 ∨ 48 ≤ c ≤ 57) (dotted l).
Proof.
  assert (∀ b, 0 ≤ b < 256 → Forall (λ c, c = 46 ∨ 48 ≤ c ≤ 57) (fmt_u b)) as Hu.
  { intros b Hb. eapply Forall_impl; [apply fmt_u_chars; lia|]. simpl. lia. }
  induction 1 as [|b l Hb Hl IH]; [constructor|]. destruct l as [|c l]; [by apply Hu|].
  rewrite dotted_cons2. apply Forall_app. split; [by apply Hu|]. constructor; [by left|done].
Qed.
Lemma length_dotted l :
  bytes_wf l → (length (dotted l) ≤ 4 * length l)%nat ∧ (l ≠ [] → length (dotted l) < 4 * length l)%nat.
Proof.
  induction 1 as [|b l Hb Hl IH]; [cbn; split; [lia|done]|].
  assert (length (fmt_u b) ≤ 3)%nat as H3.
  { unfold fmt_u. rewrite length_fmap. by apply byte_digits. }
  destruct l as [|c l]; [cbn [dotted length]; lia|].
  rewrite dotted_cons2, length_app. cbn [length] in *. destruct IH as [_ IH]. specialize (IH ltac:(done)). lia.
Qed.

(** The prefix text and its parser. *)
Lemma parse_prefix4_text {A : Arch} p : 0 ≤ p ≤ 32 → parse_prefix4 (fmt_u p) = Some p.
Proof.
  intros Hp. destruct (fmt_u_chars p) as [Hc Hne]; [lia|]. unfold parse_prefix4.
  rewrite strchr_notin.
  - rewrite strtoul_fmt_u, u32_small by lia. rewrite (proj2 (Z.ltb_ge 32 p)) by lia.
    rewrite (bool_decide_eq_false_2 (_ = _)) by (by destruct (fmt_u p)).
    by rewrite bool_decide_eq_false_2 by (by intros []).
  - intros Hin. rewrite Forall_forall in Hc. apply Hc in Hin. lia.
Qed.

(** C11: parsing the text "print" writes for an IPv4 address gives the
    address and its prefix back. *)
Theorem print_parse4 {A : Arch} junk c s :
  cidr_ok c → family c = AF_INET → prefix c ≤ 32 → allocs s = [] →
  cidr_parse4 junk (text4 c) s = Done (Some (Cidr AF_INET (prefix c) (take 4 (addr c) ++ drop 4 junk))) s.
Proof.
  intros Hok _ Hp Hal. destruct (take4_wf c Hok) as [Hb H4]. pose proof (co_prefix c Hok).
  pose proof (dotted_chars _ Hb) as Hch.
  assert (take 4 (addr c) ≠ []) as Hne by (by destruct (take 4 (addr c))).
  pose proof (proj2 (length_dotted _ Hb) Hne) as Hlen.
  pose proof (octets_dotted _ Hb Hne) as Hpt. rewrite H4 in Hpt, Hlen.
  assert (0 < length (dotted (take 4 (addr c))))%nat as Hpos.
  { destruct (dotted (take 4 (addr c))) eqn:E; [discriminate Hpt|cbn; lia]. }
  assert (47 ∉ dotted (take 4 (addr c))) as H47.
  { intros Hin. rewrite Forall_forall in Hch. apply Hch in Hin. lia. }
  assert (read4 junk (text4 c) = Some (Cidr AF_INET (prefix c) (take 4 (addr c) ++ drop 4 junk)) ∧
    (length (text4 c) < 33)%nat) as [Hr Hl].
  { unfold read4, text4, inet_ntop4, inet_pton4. destruct (Z.ltb_spec (prefix c) 32).
    - change (cs "/" ++ fmt_u (prefix c)) with (47 :: fmt_u (prefix c)).
      rewrite strchr_app by done. rewrite drop_app_ge by lia.
      replace (length (dotted (take 4 (addr c))) + 1 - length (dotted (take 4 (addr c))))%nat with 1%nat by lia.
      cbn [drop]. rewrite drop_0, parse_prefix4_text by lia. cbn [mbind option_bind].
      rewrite decide_False by lia. rewrite take_app_length, Hpt. split; [done|].
      rewrite length_app. cbn [length]. unfold fmt_u. rewrite length_fmap.
      pose proof (proj1 (byte_digits (prefix c) ltac:(lia))). lia.
    - rewrite app_nil_r, strchr_notin, Hpt by done. cbn. split; [|lia]. do 2 f_equal. lia. }
  unfold cidr_parse4, mbind, M_bind, malloc. rewrite Hal. cbn [negb orb].
  by rewrite (proj2 (Z.leb_gt _ _)), Hr by lia.
Qed.

Lemma print_parse4_witness :
  cidr_parse4 (A := mipsel) (replicate 16 0xaa) (text4 demo4) (start []) =
    Done (Some (Cidr AF_INET (prefix demo4) (take 4 (addr demo4) ++ drop 4 (replicate 16 0xaa)))) (start []).
Proof. apply (print_parse4 (A := mipsel) (replicate 16 0xaa) demo4 (start [])); [apply demo4_ok|done..]. Defined.

(** ** The interpreter *)

(** A computation that ends: it returns, exits with 4 or 255, or crashes, but
    does not run out of fuel. *)
Definition ends {X} (m : M X) : Prop := ∀ s,
  match m s with Done _ _ => True | Exit c _ => c = 4 ∨ c = 255 | Crash f => f ≠ OutOfFuel end.

Create HintDb ends.

Lemma ends_ret {X} (x : X) : ends (mret x).
Proof. done. Qed.
Lemma ends_bind {X Y} (m : M X) (f : X → M Y) : ends m → (∀ x, ends (f x)) → ends (m ≫= f).
Proof.
  intros Hm Hf s. unfold mbind, M_bind. specialize (Hm s). destruct (m s) as [x s'| |]; [|done..].
  apply Hf.
Qed.
Lemma ends_get {X} (f : st → X) : ends (get f).
Proof. done. Qed.
Lemma ends_modify f : ends (modify f).
Proof. done. Qed.
Lemma ends_crash {X} f : f ≠ OutOfFuel → ends (@crash X f).
Proof. intros Hf s. done. Qed.
Lemma ends_malloc : ends malloc.
Proof. intros s. unfold malloc. by destruct (allocs s). Qed.
Lemma ends_if {X} (b : bool) (m n : M X) : ends m → ends n → ends (if b then m else n).
Proof. by destruct b. Qed.
Lemma ends_lift {X} (r : result X) : r ≠ Fault OutOfFuel → ends (lift r).
Proof. intros Hr s. destruct r as [x|f]; [done|]. cbn. congruence. Qed.
#[export] Hint Resolve ends_ret ends_bind ends_get ends_modify ends_malloc ends_if ends_lift : ends.

Lemma ends_separate : ends separate.
Proof. unfold separate. eauto with ends. Qed.
Lemma ends_answer b : ends (answer b).
Proof. unfold answer. eauto with ends. Qed.
Lemma ends_clone a : ends (cidr_clone a).
Proof.
  intros s. unfold cidr_clone, malloc, mbind, M_bind. destruct (allocs s) as [|[] ?]; cbn; auto.
Qed.
Lemma ends_pop a : ends (cidr_pop a).
Proof. unfold cidr_pop. apply ends_bind; [done|]. intros [|? ?]; eauto with ends. Qed.
#[export] Hint Resolve ends_separate ends_answer ends_clone ends_pop : ends.

(** The computations without a fuel of their own. *)
Lemma bind_fuel {X Y} (r : result X) (f : X → result Y) :
  r ≠ Fault OutOfFuel → (∀ x, f x ≠ Fault OutOfFuel) → (r ≫= f) ≠ Fault OutOfFuel.
Proof. intros Hr Hf. destruct r as [x|e]; [apply Hf|]. cbn. congruence. Qed.
Lemma shl1_fuel k : shl1 k ≠ Fault OutOfFuel.
Proof. unfold shl1. by case_match. Qed.
Lemma hostmask4_fuel p : hostmask4 p ≠ Fault OutOfFuel.
Proof. unfold hostmask4. apply bind_fuel; [apply shl1_fuel|done]. Qed.
Lemma of_option_fuel {X} f (o : option X) : f ≠ OutOfFuel → of_option f o ≠ Fault OutOfFuel.
Proof. intros. destruct o; cbn; congruence. Qed.
Lemma step_index_fuel b : step_index b ≠ Fault OutOfFuel.
Proof. unfold step_index. by case_match. Qed.
Lemma clear_tail_fuel k n l : clear_tail k n l ≠ Fault OutOfFuel.
Proof.
  revert n l. induction k as [|k IH]; intros; cbn [clear_tail]; case_match; done || apply IH.
Qed.
#[export] Hint Resolve bind_fuel shl1_fuel hostmask4_fuel of_option_fuel step_index_fuel clear_tail_fuel : ends.
#[export] Hint Extern 1 (_ ≠ _) => discriminate : ends.

Ltac ends_op := repeat first
  [ solve [eauto with ends]
  | apply ends_bind; [|intros ?]
  | apply ends_lift
  | apply bind_fuel; [|intros ?]
  | case_match ].

Section interp.
Context {A : Arch} {I6 : Inet6} (junk : list Z).

Lemma ends_parse4 s : ends (cidr_parse4 junk s).
Proof. unfold cidr_parse4. ends_op. Qed.
Lemma ends_parse6 s : ends (cidr_parse6 s).
Proof. unfold cidr_parse6. ends_op. Qed.
Lemma ends_parse op s f : ends (cidr_parse junk op s f).
Proof.
  unfold cidr_parse. destruct (strtoul s 0) as [v r]. apply ends_if; [ends_op|].
  apply ends_bind; [case_match; [apply ends_parse6|apply ends_parse4]|].
  intros [a|]; [|done]. case_match; [done|]. apply ends_bind; [done|]. intros ? ?. cbn. auto.
Qed.

(** Every operation of the table ends. *)
Definition op_ends (o : op) : Prop :=
  (∀ f a, f4_a1 o = Some f ∨ f6_a1 o = Some f → ends (f a)) ∧
  (∀ f a b, f4_a2 o = Some f ∨ f6_a2 o = Some f → ends (f a b)).

Lemma ops_end : Forall op_ends ops.
Proof.
  unfold ops. repeat (apply Forall_cons; split); [..|constructor]; split; intros f; cbn;
    intros; destruct_or!; simplify_eq;
    unfold cidr_add4, cidr_add6, cidr_sub4, cidr_sub6, cidr_next4, cidr_next6, cidr_prev4, cidr_prev6,
      cidr_network4, cidr_network6, cidr_broadcast4, cidr_prefix, cidr_netmask4, cidr_6to4, cidr_howmany,
      cidr_contains4, cidr_contains6, cidr_private4, cidr_linklocal4, cidr_linklocal6, cidr_ula6,
      cidr_quiet, cidr_print4, cidr_print6; ends_op.
Qed.

Lemma find_op_in arg l o : find_op arg l = Some o → o ∈ l.
Proof.
  induction l as [|x l IH]; cbn; [done|]. case_bool_decide.
  - intros [= ->]. left.
  - intros. right. auto.
Qed.

(** What a computation leaves, when it returns. *)
Definition gives {X} (m : M X) (Q : X → Prop) : Prop := ∀ s,
  match m s with Done x _ => Q x | Exit c _ => c = 4 ∨ c = 255 | Crash f => f ≠ OutOfFuel end.

Lemma gives_bind {X Y} (m : M X) (f : X → M Y) (Q : Y → Prop) :
  ends m → (∀ x, gives (f x) Q) → gives (m ≫= f) Q.
Proof.
  intros Hm Hf s. unfold mbind, M_bind. specialize (Hm s). destruct (m s) as [x s'| |]; [|done..].
  apply Hf.
Qed.
Lemma gives_ret {X} (x : X) (Q : X → Prop) : Q x → gives (mret x) Q.
Proof. intros HQ s. done. Qed.
Lemma gives_crash {X} f (Q : X → Prop) : f ≠ OutOfFuel → gives (crash f) Q.
Proof. intros Hf s. done. Qed.

(** The loop state after one [runop]: it goes on with fewer arguments and a
    status of 0 or 1, or stops; when no argument is left, not with status 2 or 3. *)
Definition step_ok (args : list (list Z)) (r : bool * list (list Z) * Z) : Prop :=
  let '(continue, args', status) := r in
  if continue then (length args' < length args)%nat ∧ (status = 0 ∨ status = 1)
  else args' = [] → status = 0 ∨ status = 1 ∨ status = 5.

Lemma runop_step args status :
  status = 0 ∨ status = 1 → gives (runop junk args status) (step_ok args).
Proof.
  intros Hs. unfold runop. destruct args as [|arg1 rest]; [apply gives_ret; cbn; tauto|].
  destruct (find_op arg1 (ops)) as [o|] eqn:Ho; [|by apply gives_ret].
  apply find_op_in in Ho. pose proof ops_end as Hall. rewrite Forall_forall in Hall.
  destruct (Hall o Ho) as [H1 H2]. apply gives_bind; [done|]. intros stk.
  assert (∀ ok rest', (length rest' ≤ length rest)%nat →
    step_ok (arg1 :: rest) (true, rest', if ok : bool then 0 else 1)) as Hfin.
  { intros ok rest' Hl. cbn. split; [lia|]. destruct ok; auto. }
  assert (∀ a rest', gives (_ ← complain (NotSupported (cs (name o)) (family a)); mret (false, rest', 5))
    (step_ok (arg1 :: rest))) as Hun.
  { intros a rest'. apply gives_bind; [done|]. intros _. apply gives_ret. cbn. tauto. }
  case_decide.
  - destruct rest as [|arg2 rest]; [apply gives_bind; [done|]; intros _; by apply gives_ret|].
    destruct stk as [|a stk]; [by apply gives_crash|].
    apply gives_bind; [apply ends_parse|]. intros [b|]; [|apply gives_bind; [done|]; intros _; by apply gives_ret].
    destruct (match family a with AF_INET => f4_a2 o | AF_INET6 => f6_a2 o end) as [f|] eqn:Hf; [|apply Hun].
    apply gives_bind; [apply H2; destruct (family a); auto|]. intros ok. apply gives_ret, Hfin. cbn. lia.
  - destruct stk as [|a stk]; [by apply gives_crash|].
    destruct (match family a with AF_INET => f4_a1 o | AF_INET6 => f6_a1 o end) as [f|] eqn:Hf; [|apply Hun].
    apply gives_bind; [apply H1; destruct (family a); auto|]. intros ok. by apply gives_ret, Hfin.
Qed.

Lemma run_ops_ends fuel args status :
  (length args < fuel)%nat → status = 0 ∨ status = 1 →
  gives (run_ops junk fuel args status) (λ r, r.1 = [] → r.2 = 0 ∨ r.2 = 1 ∨ r.2 = 5).
Proof.
  revert args status. induction fuel as [|fuel IH]; intros args status Hf Hs s; [lia|].
  cbn [run_ops]. unfold mbind, M_bind. pose proof (runop_step args status Hs s) as Hstep.
  destruct (runop junk args status s) as [[[continue args'] status'] s'| |]; [|done..].
  destruct continue; cbn in Hstep.
  - apply IH; [lia|tauto].
  - done.
Qed.

Lemma finish_exits (m : M ()) status : ends m → ∀ s,
  match (_ ← m; _ ← qprintf [10]; exit_ status : M ()) s with
  | Done _ _ => False
  | Exit c _ => c = 4 ∨ c = 255 ∨ c = status
  | Crash f => f ≠ OutOfFuel
  end.
Proof.
  intros Hm s. unfold mbind, M_bind. specialize (Hm s). destruct (m s); cbn; [auto|tauto|done].
Qed.

End interp.

(** C12: for every command line, [main] ends: it exits with one of the codes
    0, 1, 4, 5, 6 and 255, or faults; it never loops, and the statuses 2 and 3
    that [runop] sets for a missing or invalid argument are never the exit
    code. *)
Theorem main_exit_codes {A : Arch} {I6 : Inet6} junk argv al :
  match main junk argv (start al) with
  | Done _ _ => False
  | Exit c _ => c ∈ [0; 1; 4; 5; 6; 255]
  | Crash f => f ≠ OutOfFuel
  end.
Proof.
  unfold main, mbind at 1, M_bind at 1. cbn [modify]. set (s0 := St _ _ _ _ _ _). clearbody s0.
  destruct argv as [|base [|arg args]]; [cbn; set_solver..|]. cbn [tail].
  unfold mbind at 1, M_bind at 1.
  assert (ends (match strchr base 58 with Some _ => cidr_parse6 base | None => cidr_parse4 junk base end)) as Hp
    by (case_match; [apply ends_parse6|apply ends_parse4]).
  specialize (Hp s0). destruct (_ s0) as [[a|] s1|c s1|f]; [|cbn; set_solver|set_solver|done].
  unfold mbind at 1, M_bind at 1. cbn [cidr_push modify]. set (s2 := set_stack _ _). clearbody s2.
  unfold mbind at 1, M_bind at 1.
  pose proof (run_ops_ends junk (S (length (arg :: args))) (arg :: args) 0 ltac:(lia) ltac:(auto) s2) as Hrun.
  destruct (run_ops _ _ _ _ s2) as [[args' status] s3|c s3|f]; [|set_solver|done].
  destruct args' as [|x args']; [|cbn; set_solver].
  specialize (Hrun eq_refl). cbn [snd] in Hrun.
  unfold mbind at 1, M_bind at 1. cbn [get].
  match goal with |- context [(if _ then ?m else ?n) ≫= _] =>
    pose proof (finish_exits (if negb (printed s3) && (status <? 2) then m else n) status) as Hfin end.
  match type of Hfin with ?P → _ => assert P as Hends end.
  { ends_op; by apply ends_crash. }
  specialize (Hfin Hends s3).
  match type of Hfin with match ?t with _ => _ end => destruct t as [|c s4|f] end; [done| |done].
  rewrite !elem_of_cons. lia.
Qed.


End OwipcalcMain.
