(* ===== verification/HashSpec.v ===== *)
(** * Reference definitions of the digests

    MD5 as RFC 1321 and SHA-256 as FIPS 180-4 define them: padding, message
    words, round functions and digest, written from the standards and
    independent of the code of mkhash.  A message is a byte list. *)

From S2P Require Import Prelude CLib.
Open Scope Z_scope.
Open Scope cint_scope.

Module HashSpec.

(** ** Both digests: 64-byte blocks of a padded message *)

Section chaining.
Context {St : Type} (compress : St → list Z → St).

Fixpoint absorb (n : nat) (st : St) (data : list Z) : St :=
  match n with
  | O => st
  | S n => absorb n (compress st (take 64 data)) (drop 64 data)
  end.
Definition absorb_all (st : St) (data : list Z) : St := absorb (length data / 64) st data.

Lemma absorb_app n k st x y :
  length x = (64 * n)%nat → absorb (n + k) st (x ++ y) = absorb k (absorb n st x) y.
Proof.
  revert st x. induction n as [|n IH]; intros st x Hx.
  - by destruct x.
  - cbn [Nat.add absorb]. rewrite take_app_le, drop_app_le by lia. apply IH. rewrite length_drop. lia.
Qed.
Lemma absorb_take n st x : absorb n st x = absorb n st (take (64 * n) x).
Proof.
  revert st x. induction n as [|n IH]; intros st x; [done|]. cbn [absorb].
  rewrite IH, (IH _ (drop 64 (take _ x))), take_take, skipn_firstn_comm.
  replace (64 `min` (64 * S n))%nat with 64%nat by lia. f_equal. rewrite take_take. f_equal. lia.
Qed.
End chaining.

(** One 0x80, zeros up to 8 bytes before the end of a block, the length. *)
Definition padded (m lenbytes : list Z) : list Z :=
  m ++ 0x80 :: replicate (Z.to_nat ((55 - Z.of_nat (length m)) mod 64)) 0 ++ lenbytes.

Definition rotl (x s : Z) : Z := u32 (x .<< s) .| (x .>> (32 - s)).
Definition rotr (x s : Z) : Z := (x .>> s) .| u32 (x .<< (32 - s)).

(** ** MD5 (RFC 1321) *)

Module Rfc1321.

Definition F (x y z : Z) : Z := (x .& y) .| (Z.lnot x .& z).
Definition G (x y z : Z) : Z := (x .& z) .| (y .& Z.lnot z).
Definition H (x y z : Z) : Z := (x .^ y) .^ z.
Definition I (x y z : Z) : Z := y .^ (x .| u32 (Z.lnot z)).

(** floor(2^32 * |sin(i + 1)|) *)
Definition T : list Z := [
  0xd76aa478; 0xe8c7b756; 0x242070db; 0xc1bdceee; 0xf57c0faf; 0x4787c62a; 0xa8304613; 0xfd469501;
  0x698098d8; 0x8b44f7af; 0xffff5bb1; 0x895cd7be; 0x6b901122; 0xfd987193; 0xa679438e; 0x49b40821;
  0xf61e2562; 0xc040b340; 0x265e5a51; 0xe9b6c7aa; 0xd62f105d; 0x02441453; 0xd8a1e681; 0xe7d3fbc8;
  0x21e1cde6; 0xc33707d6; 0xf4d50d87; 0x455a14ed; 0xa9e3e905; 0xfcefa3f8; 0x676f02d9; 0x8d2a4c8a;
  0xfffa3942; 0x8771f681; 0x6d9d6122; 0xfde5380c; 0xa4beea44; 0x4bdecfa9; 0xf6bb4b60; 0xbebfbc70;
  0x289b7ec6; 0xeaa127fa; 0xd4ef3085; 0x04881d05; 0xd9d4d039; 0xe6db99e5; 0x1fa27cf8; 0xc4ac5665;
  0xf4292244; 0x432aff97; 0xab9423a7; 0xfc93a039; 0x655b59c3; 0x8f0ccc92; 0xffeff47d; 0x85845dd1;
  0x6fa87e4f; 0xfe2ce6e0; 0xa3014314; 0x4e0811a1; 0xf7537e82; 0xbd3af235; 0x2ad7d2bb; 0xeb86d391].

(** The function, the word, the rotation of operation [i]. *)
Definition op_fun (i : nat) : Z → Z → Z → Z :=
  match (i / 16)%nat with 0%nat => F | 1%nat => G | 2%nat => H | _ => I end.
Definition op_word (i : nat) : nat :=
  match (i / 16)%nat with
  | 0%nat => i mod 16
  | 1%nat => (5 * i + 1) mod 16
  | 2%nat => (3 * i + 5) mod 16
  | _ => (7 * i) mod 16
  end.
Definition op_shift (i : nat) : Z :=
  default 0 (match (i / 16)%nat with
             | 0%nat => [7; 12; 17; 22]
             | 1%nat => [5; 9; 14; 20]
             | 2%nat => [4; 11; 16; 23]
             | _ => [6; 10; 15; 21]
             end !! (i mod 4)%nat).

(** Word [k] of a block, least significant byte first. *)
Definition word (block : list Z) (k : nat) : Z := le_val (take 4 (drop (4 * k) block)).

Definition operation (block : list Z) (st : Z * Z * Z * Z) (i : nat) : Z * Z * Z * Z :=
  let '(a, b, c, d) := st in
  (d, u32 (b + rotl (u32 (a + op_fun i b c d + word block (op_word i) + default 0 (T !! i))) (op_shift i)),
   b, c).

Definition compress (st : Z * Z * Z * Z) (block : list Z) : Z * Z * Z * Z :=
  let '(aa, bb, cc, dd) := st in
  let '(a, b, c, d) := foldl (operation block) st (seq 0 64) in
  (u32 (a + aa), u32 (b + bb), u32 (c + cc), u32 (d + dd)).

Definition init : Z * Z * Z * Z := (0x67452301, 0xefcdab89, 0x98badcfe, 0x10325476).

Definition digest (m : list Z) : list Z :=
  let '(a, b, c, d) := absorb_all compress init (padded m (le_bytes 8 (8 * Z.of_nat (length m)))) in
  le_bytes 4 a ++ le_bytes 4 b ++ le_bytes 4 c ++ le_bytes 4 d.

End Rfc1321.

(** ** SHA-256 (FIPS 180-4) *)

Module Fips180.

Definition Ch (x y z : Z) : Z := (x .& y) .^ (Z.lnot x .& z).
Definition Maj (x y z : Z) : Z := ((x .& y) .^ (x .& z)) .^ (y .& z).
Definition Sigma0 (x : Z) : Z := (rotr x 2 .^ rotr x 13) .^ rotr x 22.
Definition Sigma1 (x : Z) : Z := (rotr x 6 .^ rotr x 11) .^ rotr x 25.
Definition sigma0 (x : Z) : Z := (rotr x 7 .^ rotr x 18) .^ (x .>> 3).
Definition sigma1 (x : Z) : Z := (rotr x 17 .^ rotr x 19) .^ (x .>> 10).

(** The cube root of [n], rounded down, from its bit [b] on. *)
Fixpoint cube_root (b : nat) (n r : Z) : Z :=
  match b with
  | O => r
  | S b =>
      let r' := r + 2 ^ Z.of_nat b in
      cube_root b n (if r' * r' * r' <=? n then r' else r)
  end.
Definition is_prime (n : Z) : bool :=
  forallb (λ d, negb (n mod d =? 0)) (seqZ 2 (n - 2)).
Definition primes64 : list Z := filter (λ n, is_prime n) (seqZ 2 310).
(** The first 32 bits of the fractional parts of the cube roots of the first
    64 primes. *)
Definition K : list Z := (λ p, cube_root 36 (p * 2 ^ 96) 0 mod 2 ^ 32) <$> primes64.

(** Word [k] of a block, most significant byte first. *)
Definition word (block : list Z) (k : nat) : Z := be_val (take 4 (drop (4 * k) block)).

Definition at_ (l : list Z) (i : nat) : Z := default 0 (l !! i).

(** The message schedule: the next word from the last sixteen. *)
Definition extend (W : list Z) : list Z :=
  let t := length W in
  W ++ [u32 (sigma1 (at_ W (t - 2)) + at_ W (t - 7) + sigma0 (at_ W (t - 15)) + at_ W (t - 16))].
Definition schedule (block : list Z) : list Z := Nat.iter 48 extend (word block <$> seq 0 16).

(** One round on the working variables [a .. h]. *)
Definition round (W st : list Z) (t : nat) : list Z :=
  match st with
  | [a; b; c; d; e; f; g; h] =>
      let T1 := u32 (h + Sigma1 e + Ch e f g + at_ K t + at_ W t) in
      let T2 := u32 (Sigma0 a + Maj a b c) in
      [u32 (T1 + T2); a; b; c; u32 (d + T1); e; f; g]
  | _ => st
  end.

Definition compress (st block : list Z) : list Z :=
  zip_with (λ x y, u32 (x + y)) st (foldl (round (schedule block)) st (seq 0 64)).

Definition init : list Z :=
  [0x6a09e667; 0xbb67ae85; 0x3c6ef372; 0xa54ff53a; 0x510e527f; 0x9b05688c; 0x1f83d9ab; 0x5be0cd19].

Definition digest (m : list Z) : list Z :=
  mjoin (be_bytes 4 <$> absorb_all compress init (padded m (be_bytes 8 (8 * Z.of_nat (length m))))).

End Fips180.

End HashSpec.
