(* ===== verification/Mkhash.v ===== *)
(** * mkhash (scripts/mkhash.c)

    The MD5 and SHA-256 contexts with their begin/update/end functions, the
    chunked reading of a file, the hexadecimal output and the command line.
    Words are [uint32_t] values, buffers are byte lists; a copy outside a
    context's 64-byte buffer is a fault. *)

From S2P Require Import Prelude CLib.
Open Scope Z_scope.
Open Scope cint_scope.

Module Mkhash.

(** ** Words *)

Definition be32enc (u : Z) : list Z :=
  [u8 ((u .>> 24) .& 0xff); u8 ((u .>> 16) .& 0xff); u8 ((u .>> 8) .& 0xff); u8 (u .& 0xff)].
Definition be64enc (u : Z) : list Z := be32enc (u32 (u .>> 32)) ++ be32enc (u32 (u .& 0xffffffff)).

Definition be16dec (p : list Z) : Z :=
  match p with b0 :: b1 :: _ => u16 ((b0 .<< 8) .| b1) | _ => 0 end.
Definition be32dec (p : list Z) : Z := u32 (be16dec p .<< 16) .| be16dec (drop 2 p).

(** [be32enc_vect], [be32dec_vect] *)
Definition be32enc_vect (src : list Z) : list Z := mjoin (be32enc <$> src).
Fixpoint be32dec_vect (n : nat) (src : list Z) : list Z :=
  match n with
  | O => []
  | S n => be32dec src :: be32dec_vect n (drop 4 src)
  end.

(** [SET(n)], [GET(n)]: a little-endian word of the block. *)
Definition SET (ptr : list Z) (n : nat) : Z :=
  match drop (n * 4) ptr with
  | b0 :: b1 :: b2 :: b3 :: _ => ((b0 .| (b1 .<< 8)) .| (b2 .<< 16)) .| (b3 .<< 24)
  | _ => 0
  end.

(** ** MD5 *)

Record MD5_CTX := Md5 {
  lo : Z; hi : Z;
  md5_state : Z * Z * Z * Z;      (** [a], [b], [c], [d] *)
  md5_buffer : list Z
}.

Definition lnot32 (x : Z) : Z := u32 (Z.lnot x).

Definition F (x y z : Z) : Z := z .^ (x .& (y .^ z)).
Definition G (x y z : Z) : Z := y .^ (z .& (x .^ y)).
Definition H (x y z : Z) : Z := (x .^ y) .^ z.
Definition H2 (x y z : Z) : Z := x .^ (y .^ z).
Definition I (x y z : Z) : Z := y .^ (x .| lnot32 z).

(** [STEP(f, a, b, c, d, x, t, s)]: the new value of the first register. *)
Definition STEP (f : Z → Z → Z → Z) (a b c d x t s : Z) : Z :=
  let a := u32 (a + (f b c d + x + t)) in
  let a := u32 ((a .<< s) .| ((a .& 0xffffffff) .>> (32 - s))) in
  u32 (a + b).

(** A line of [MD5_body]: the function, the register that is assigned, the
    word of the block, the constant and the rotation. *)
Inductive reg := Ra | Rd | Rc | Rb.
Definition md5_step : Type := (Z → Z → Z → Z) * reg * nat * Z * Z.

Definition run_step (ptr : list Z) (st : Z * Z * Z * Z) (step : md5_step) : Z * Z * Z * Z :=
  let '(a, b, c, d) := st in
  let '(f, r, k, t, s) := step in
  match r with
  | Ra => (STEP f a b c d (SET ptr k) t s, b, c, d)
  | Rd => (a, b, c, STEP f d a b c (SET ptr k) t s)
  | Rc => (a, b, STEP f c d a b (SET ptr k) t s, d)
  | Rb => (a, STEP f b c d a (SET ptr k) t s, c, d)
  end.

Definition round1 : list md5_step := [
   (F, Ra, 0%nat, 0xd76aa478, 7); (F, Rd, 1%nat, 0xe8c7b756, 12);
   (F, Rc, 2%nat, 0x242070db, 17); (F, Rb, 3%nat, 0xc1bdceee, 22);
   (F, Ra, 4%nat, 0xf57c0faf, 7); (F, Rd, 5%nat, 0x4787c62a, 12);
   (F, Rc, 6%nat, 0xa8304613, 17); (F, Rb, 7%nat, 0xfd469501, 22);
   (F, Ra, 8%nat, 0x698098d8, 7); (F, Rd, 9%nat, 0x8b44f7af, 12);
   (F, Rc, 10%nat, 0xffff5bb1, 17); (F, Rb, 11%nat, 0x895cd7be, 22);
   (F, Ra, 12%nat, 0x6b901122, 7); (F, Rd, 13%nat, 0xfd987193, 12);
   (F, Rc, 14%nat, 0xa679438e, 17); (F, Rb, 15%nat, 0x49b40821, 22)].
Definition round2 : list md5_step := [
   (G, Ra, 1%nat, 0xf61e2562, 5); (G, Rd, 6%nat, 0xc040b340, 9);
   (G, Rc, 11%nat, 0x265e5a51, 14); (G, Rb, 0%nat, 0xe9b6c7aa, 20);
   (G, Ra, 5%nat, 0xd62f105d, 5); (G, Rd, 10%nat, 0x02441453, 9);
   (G, Rc, 15%nat, 0xd8a1e681, 14); (G, Rb, 4%nat, 0xe7d3fbc8, 20);
   (G, Ra, 9%nat, 0x21e1cde6, 5); (G, Rd, 14%nat, 0xc33707d6, 9);
   (G, Rc, 3%nat, 0xf4d50d87, 14); (G, Rb, 8%nat, 0x455a14ed, 20);
   (G, Ra, 13%nat, 0xa9e3e905, 5); (G, Rd, 2%nat, 0xfcefa3f8, 9);
   (G, Rc, 7%nat, 0x676f02d9, 14); (G, Rb, 12%nat, 0x8d2a4c8a, 20)].
Definition round3 : list md5_step := [
   (H, Ra, 5%nat, 0xfffa3942, 4); (H2, Rd, 8%nat, 0x8771f681, 11);
   (H, Rc, 11%nat, 0x6d9d6122, 16); (H2, Rb, 14%nat, 0xfde5380c, 23);
   (H, Ra, 1%nat, 0xa4beea44, 4); (H2, Rd, 4%nat, 0x4bdecfa9, 11);
   (H, Rc, 7%nat, 0xf6bb4b60, 16); (H2, Rb, 10%nat, 0xbebfbc70, 23);
   (H, Ra, 13%nat, 0x289b7ec6, 4); (H2, Rd, 0%nat, 0xeaa127fa, 11);
   (H, Rc, 3%nat, 0xd4ef3085, 16); (H2, Rb, 6%nat, 0x04881d05, 23);
   (H, Ra, 9%nat, 0xd9d4d039, 4); (H2, Rd, 12%nat, 0xe6db99e5, 11);
   (H, Rc, 15%nat, 0x1fa27cf8, 16); (H2, Rb, 2%nat, 0xc4ac5665, 23)].
Definition round4 : list md5_step := [
   (I, Ra, 0%nat, 0xf4292244, 6); (I, Rd, 7%nat, 0x432aff97, 10);
   (I, Rc, 14%nat, 0xab9423a7, 15); (I, Rb, 5%nat, 0xfc93a039, 21);
   (I, Ra, 12%nat, 0x655b59c3, 6); (I, Rd, 3%nat, 0x8f0ccc92, 10);
   (I, Rc, 10%nat, 0xffeff47d, 15); (I, Rb, 1%nat, 0x85845dd1, 21);
   (I, Ra, 8%nat, 0x6fa87e4f, 6); (I, Rd, 15%nat, 0xfe2ce6e0, 10);
   (I, Rc, 6%nat, 0xa3014314, 15); (I, Rb, 13%nat, 0x4e0811a1, 21);
   (I, Ra, 4%nat, 0xf7537e82, 6); (I, Rd, 11%nat, 0xbd3af235, 10);
   (I, Rc, 2%nat, 0x2ad7d2bb, 15); (I, Rb, 9%nat, 0xeb86d391, 21)].

(** One iteration of the loop of [MD5_body]. *)
Definition md5_block (st : Z * Z * Z * Z) (ptr : list Z) : Z * Z * Z * Z :=
  let '(saved_a, saved_b, saved_c, saved_d) := st in
  let '(a, b, c, d) := foldl (run_step ptr) st (round1 ++ round2 ++ round3 ++ round4) in
  (u32 (a + saved_a), u32 (b + saved_b), u32 (c + saved_c), u32 (d + saved_d)).

(** [do { ... ptr += 64; } while (size -= 64)]: the state and the rest of the
    data; [n] is [size / 64], at least 1 at every call. *)
Fixpoint MD5_body (n : nat) (st : Z * Z * Z * Z) (ptr : list Z) : (Z * Z * Z * Z) * list Z :=
  match n with
  | O => (st, ptr)
  | S n => MD5_body n (md5_block st (take 64 ptr)) (drop 64 ptr)
  end.

(** [buf] is what the context holds before. *)
Definition MD5_begin (buf : list Z) : MD5_CTX :=
  Md5 0 0 (0x67452301, 0xefcdab89, 0x98badcfe, 0x10325476) buf.

Definition set_md5 (st : Z * Z * Z * Z) (buf : list Z) (ctx : MD5_CTX) : MD5_CTX :=
  Md5 (lo ctx) (hi ctx) st buf.

(** The tail of [MD5_hash]: whole blocks, then the rest into the buffer. *)
Definition md5_blocks (data : list Z) (ctx : MD5_CTX) : result MD5_CTX :=
  let '(st, data) := MD5_body (length data / 64) (md5_state ctx) data in
  buf ← mwrite (md5_buffer ctx) 0 data;
  Ret (set_md5 st buf ctx).

Definition MD5_hash (data : list Z) (ctx : MD5_CTX) : result MD5_CTX :=
  let size := Z.of_nat (length data) in
  let saved_lo := lo ctx in
  let lo' := (saved_lo + size) .& 0x1fffffff in
  let hi' := if lo' <? saved_lo then u32 (hi ctx + 1) else hi ctx in
  let ctx := Md5 lo' (u32 (hi' + (size .>> 29))) (md5_state ctx) (md5_buffer ctx) in
  let used := Z.to_nat (saved_lo .& 0x3f) in
  if decide (used = O) then md5_blocks data ctx
  else
    let available := (64 - used)%nat in
    if decide (length data < available)%nat then
      buf ← mwrite (md5_buffer ctx) used data;
      Ret (set_md5 (md5_state ctx) buf ctx)
    else
      buf ← mwrite (md5_buffer ctx) used (take available data);
      md5_blocks (drop available data) (set_md5 (MD5_body 1 (md5_state ctx) buf).1 buf ctx).

Definition le32 (u : Z) : list Z := [u8 u; u8 (u .>> 8); u8 (u .>> 16); u8 (u .>> 24)].

Definition MD5_end (ctx : MD5_CTX) : result (list Z) :=
  let used := Z.to_nat (lo ctx .& 0x3f) in
  buf ← mwrite (md5_buffer ctx) used [0x80];
  let used := S used in
  let available := (64 - used)%nat in
  '(st, buf, used, available) ←
    (if decide (available < 8)%nat then
       buf ← mset buf used 0 available;
       Ret ((MD5_body 1 (md5_state ctx) buf).1, buf, O, 64%nat)
     else Ret (md5_state ctx, buf, used, available));
  buf ← mset buf used 0 (available - 8);
  buf ← mwrite buf 56 (le32 (u32 (lo ctx .<< 3)) ++ le32 (hi ctx));
  let '(a, b, c, d) := (MD5_body 1 st buf).1 in
  Ret (le32 a ++ le32 b ++ le32 c ++ le32 d).

(** ** SHA-256 *)

Record SHA256_CTX := Sha {
  state : list Z;
  count : Z;
  buf : list Z
}.

Definition Ch (x y z : Z) : Z := (x .& (y .^ z)) .^ z.
Definition Maj (x y z : Z) : Z := (x .& (y .| z)) .| (y .& z).
Definition ROTR (x n : Z) : Z := (x .>> n) .| u32 (x .<< (32 - n)).
Definition S0 (x : Z) : Z := (ROTR x 2 .^ ROTR x 13) .^ ROTR x 22.
Definition S1 (x : Z) : Z := (ROTR x 6 .^ ROTR x 11) .^ ROTR x 25.
Definition s0 (x : Z) : Z := (ROTR x 7 .^ ROTR x 18) .^ (x .>> 3).
Definition s1 (x : Z) : Z := (ROTR x 17 .^ ROTR x 19) .^ (x .>> 10).

(** SHA256 round constants. *)
Definition K : list Z := concat [
  [0x428a2f98; 0x71374491; 0xb5c0fbcf; 0xe9b5dba5];
  [0x3956c25b; 0x59f111f1; 0x923f82a4; 0xab1c5ed5];
  [0xd807aa98; 0x12835b01; 0x243185be; 0x550c7dc3];
  [0x72be5d74; 0x80deb1fe; 0x9bdc06a7; 0xc19bf174];
  [0xe49b69c1; 0xefbe4786; 0x0fc19dc6; 0x240ca1cc];
  [0x2de92c6f; 0x4a7484aa; 0x5cb0a9dc; 0x76f988da];
  [0x983e5152; 0xa831c66d; 0xb00327c8; 0xbf597fc7];
  [0xc6e00bf3; 0xd5a79147; 0x06ca6351; 0x14292967];
  [0x27b70a85; 0x2e1b2138; 0x4d2c6dfc; 0x53380d13];
  [0x650a7354; 0x766a0abb; 0x81c2c92e; 0x92722c85];
  [0xa2bfe8a1; 0xa81a664b; 0xc24b8b70; 0xc76c51a3];
  [0xd192e819; 0xd6990624; 0xf40e3585; 0x106aa070];
  [0x19a4c116; 0x1e376c08; 0x2748774c; 0x34b0bcb5];
  [0x391c0cb3; 0x4ed8aa4a; 0x5b9cca4f; 0x682e6ff3];
  [0x748f82ee; 0x78a5636f; 0x84c87814; 0x8cc70208];
  [0x90befffa; 0xa4506ceb; 0xbef9a3f7; 0xc67178f2]].

Definition at_ (l : list Z) (i : nat) : Z := default 0 (l !! i).

(** [RNDr(S, W, i, ii)]: the round, on the rotated working variables. *)
Definition RNDr (S W : list Z) (i ii : nat) : list Z :=
  let v k := at_ S ((64 + k - i) mod 8) in
  let a := v 0%nat in let b := v 1%nat in let c := v 2%nat in let d := v 3%nat in
  let e := v 4%nat in let f := v 5%nat in let g := v 6%nat in let h := v 7%nat in
  let k := u32 (at_ W (i + ii) + at_ K (i + ii)) in
  let h := u32 (h + (S1 e + Ch e f g + k)) in
  let d := u32 (d + h) in
  let h := u32 (h + (S0 a + Maj a b c)) in
  <[((71 - i) mod 8)%nat := h]> (<[((67 - i) mod 8)%nat := d]> S).

(** [MSCH(W, ii, i)]: the words come in order, so that the array holds those
    computed so far. *)
Definition MSCH (W : list Z) (ii i : nat) : list Z :=
  let w k := at_ W (i + ii + k) in
  W ++ [u32 (s1 (w 14%nat) + w 9%nat + s0 (w 1%nat) + w 0%nat)].

(** [for (i = 0; i < 64; i += 16)], left at [i == 48]. *)
Definition rounds16 (S W : list Z) (i : nat) : list Z :=
  foldl (λ S j, RNDr S W j i) S (seq 0 16).
Definition msch16 (W : list Z) (i : nat) : list Z :=
  foldl (λ W j, MSCH W j i) W (seq 0 16).
Fixpoint mix (n : nat) (S W : list Z) (i : nat) : list Z :=
  match n with
  | O => S
  | S n =>
      let S := rounds16 S W i in
      if decide (i = 48%nat) then S else mix n S (msch16 W i) (i + 16)
  end.

Definition SHA256_Transform (state block : list Z) : list Z :=
  let W := be32dec_vect 16 block in
  let S := mix 4 state W 0 in
  zip_with (λ x y, u32 (x + y)) state S.

Definition PAD : list Z := 0x80 :: replicate 63 0.

Definition set_sha (st b : list Z) (ctx : SHA256_CTX) : SHA256_CTX := Sha st (count ctx) b.

(** Add padding and terminating bit-count. *)
Definition SHA256_Pad (ctx : SHA256_CTX) : result SHA256_CTX :=
  let r := Z.to_nat ((count ctx .>> 3) .& 0x3f) in
  ctx ←
    (if decide (r < 56)%nat then
       b ← mwrite (buf ctx) r (take (56 - r) PAD);
       Ret (set_sha (state ctx) b ctx)
     else
       b ← mwrite (buf ctx) r (take (64 - r) PAD);
       let st := SHA256_Transform (state ctx) b in
       b ← mset b 0 0 56;
       Ret (set_sha st b ctx));
  b ← mwrite (buf ctx) 56 (be64enc (count ctx));
  Ret (set_sha (SHA256_Transform (state ctx) b) b ctx).

(** [b] is what the context holds before. *)
Definition SHA256_Init (b : list Z) : SHA256_CTX :=
  Sha [0x6A09E667; 0xBB67AE85; 0x3C6EF372; 0xA54FF53A;
       0x510E527F; 0x9B05688C; 0x1F83D9AB; 0x5BE0CD19] 0 b.

(** [while (len >= 64)]: the state and the rest of the data. *)
Fixpoint sha_blocks (n : nat) (st src : list Z) : list Z * list Z :=
  match n with
  | O => (st, src)
  | S n => sha_blocks n (SHA256_Transform st (take 64 src)) (drop 64 src)
  end.

(** Add bytes into the hash. *)
Definition SHA256_Update {A : Arch} (src : list Z) (ctx : SHA256_CTX) : result SHA256_CTX :=
  let len := length src in
  let r := Z.to_nat ((count ctx .>> 3) .& 0x3f) in
  let bitlen := (Z.of_nat len .<< 3) mod 2 ^ long_bits in
  let ctx := Sha (state ctx) (u64 (count ctx + bitlen)) (buf ctx) in
  if decide (len < 64 - r)%nat then
    b ← mwrite (buf ctx) r src;
    Ret (set_sha (state ctx) b ctx)
  else
    b ← mwrite (buf ctx) r (take (64 - r) src);
    let st := SHA256_Transform (state ctx) b in
    let src := drop (64 - r) src in
    let '(st, src) := sha_blocks (length src / 64) st src in
    b ← mwrite b 0 src;
    Ret (set_sha st b ctx).

Definition SHA256_Final (ctx : SHA256_CTX) : result (list Z) :=
  ctx ← SHA256_Pad ctx; Ret (be32enc_vect (state ctx)).

(** ** Files and the command line *)

(** [while ((buf = hash_buf(f, &len)) != NULL) update(...)]: 1024 bytes at a
    time; [n] bounds the number of reads. *)
Fixpoint hash_loop {C} (update : list Z → C → result C) (n : nat) (f : list Z) (ctx : C) : result C :=
  match n with
  | O => Fault OutOfFuel
  | S n =>
      match take 1024 f with
      | [] => Ret ctx
      | buf => ctx ← update buf ctx; hash_loop update n (drop 1024 f) ctx
      end
  end.

(** ["%02x"] of each byte; NULL when the text does not fit the static buffer. *)
Definition hash_string (b : list Z) : option (list Z) :=
  if 65 <? Z.of_nat (length b) * 2 + 1 then None else Some (mjoin (fmt_hex false 2 <$> b)).

Section files.
(** [junk]: the bytes of an uninitialised context. *)
Context {A : Arch} (junk : list Z).

Definition md5_hash (f : list Z) : result (option (list Z)) :=
  ctx ← hash_loop MD5_hash (S (length f)) f (MD5_begin junk);
  val ← MD5_end ctx;
  Ret (hash_string val).

Definition sha256_hash (f : list Z) : result (option (list Z)) :=
  ctx ← hash_loop SHA256_Update (S (length f)) f (SHA256_Init junk);
  val ← SHA256_Final ctx;
  Ret (hash_string val).

Record hash_type := HashType { ht_name : string; ht_func : list Z → result (option (list Z)) }.
Definition types : list hash_type := [HashType "md5" md5_hash; HashType "sha256" sha256_hash].

Fixpoint find_type (name : list Z) (l : list hash_type) : option hash_type :=
  match l with
  | [] => None
  | t :: l => if bool_decide (cs (ht_name t) = name) then Some t else find_type name l
  end.
Definition get_hash_type (name : list Z) : option hash_type := find_type name types.

(** What a file name stands for; [stat] of a missing file leaves the mode it
    is tested for undefined, [stale] says what the test then sees. *)
Inductive node := Dir | File (bytes : list Z) | Missing (stale : bool).
Inductive diag :=
  | Usage
  | IsDirectory (name : list Z)
  | FailedOpen (name : list Z)
  | FailedHash.

Definition hash_file (fs : list Z → node) (stdin : list Z) (t : hash_type) (filename : option (list Z))
    (add_filename no_newline : bool) : result (Z * list Z * list diag) :=
  let finish (str : option (list Z)) :=
    match str with
    | None => Ret (1, [], [FailedHash])
    | Some str =>
        let nl := if no_newline then [] else [10] in
        Ret (0, if add_filename then str ++ [32] ++ default (cs "-") filename ++ nl else str ++ nl, [])
    end in
  match filename with
  | None => str ← ht_func t stdin; finish str
  | Some name =>
      if bool_decide (name = cs "-") then str ← ht_func t stdin; finish str
      else match fs name with
           | Dir | Missing true => Ret (1, [], [IsDirectory name])
           | Missing false => Ret (1, [], [FailedOpen name])
           | File bytes => str ← ht_func t bytes; finish str
           end
  end.

Fixpoint hash_files (fs : list Z → node) (stdin : list Z) (t : hash_type) (names : list (list Z))
    (add_filename no_newline : bool) : result (Z * list Z * list diag) :=
  match names with
  | [] => Ret (0, [], [])
  | n :: names =>
      '(ret, out, err) ← hash_file fs stdin t (Some n) add_filename no_newline;
      if ret =? 0 then
        '(ret, out', err') ← hash_files fs stdin t names add_filename no_newline;
        Ret (ret, out ++ out', err ++ err')
      else Ret (ret, out, err)
  end.

(** [main] after [getopt]: the options [-n] and [-N], or [None] for a bad
    option, and the operands. *)
Definition main (fs : list Z → node) (stdin : list Z) (opts : option (bool * bool)) (args : list (list Z))
    : result (Z * list Z * list diag) :=
  match opts, args with
  | Some (add_filename, no_newline), name :: names =>
      match get_hash_type name with
      | None => Ret (1, [], [Usage])
      | Some t =>
          match names with
          | [] => hash_file fs stdin t None add_filename no_newline
          | _ => hash_files fs stdin t names add_filename no_newline
          end
      end
  | _, _ => Ret (1, [], [Usage])
  end.

End files.
End Mkhash.
