(* ===== verification/MkhashProps.v ===== *)
(** * mkhash computes MD5 and SHA-256

    The block functions of mkhash.c are those of RFC 1321 and FIPS 180-4, the
    contexts stream any split of a message, and the files hashed print the
    digest of their contents. *)

From S2P Require Import Prelude CLib HashSpec Mkhash.
Import Mkhash HashSpec.
Open Scope Z_scope.
Open Scope cint_scope.

Module MkhashProps.

(** ** Words *)

Lemma u32_u32 x : u32 (u32 x) = u32 x.
Proof. apply u32_small, u32_range. Qed.
Lemma u32_add_l x y : u32 (u32 x + y) = u32 (x + y).
Proof. unfold u32. by rewrite Z.add_mod_idemp_l. Qed.
Lemma u32_add_r x y : u32 (x + u32 y) = u32 (x + y).
Proof. unfold u32. by rewrite Z.add_mod_idemp_r. Qed.
Lemma u32_lor x y : u32 (x .| y) = u32 x .| u32 y.
Proof. unfold u32. rewrite <- !Z.land_ones by lia. apply Z.land_lor_distr_l. Qed.

(** Four bytes put together with shifts are their value. *)
Lemma lor_bytes b0 b1 b2 b3 :
  0 ≤ b0 < 256 → 0 ≤ b1 < 256 → 0 ≤ b2 < 256 → 0 ≤ b3 < 256 →
  ((b0 .| (b1 .<< 8)) .| (b2 .<< 16)) .| (b3 .<< 24) = b0 + 256 * (b1 + 256 * (b2 + 256 * b3)).
Proof.
  intros. rewrite (lor_shiftl_add b0) by lia. rewrite (lor_shiftl_add _ b2), (lor_shiftl_add _ b3) by lia. lia.
Qed.

Lemma block_word (block : list Z) k :
  bytes_wf block → (4 * k + 4 ≤ length block)%nat →
  ∃ b0 b1 b2 b3 r, drop (4 * k) block = b0 :: b1 :: b2 :: b3 :: r ∧
    0 ≤ b0 < 256 ∧ 0 ≤ b1 < 256 ∧ 0 ≤ b2 < 256 ∧ 0 ≤ b3 < 256.
Proof.
  intros Hb Hl. assert (bytes_wf (drop (4 * k) block)) as Hd by (by apply Forall_drop).
  assert (4 ≤ length (drop (4 * k) block))%nat as H4 by (rewrite length_drop; lia).
  destruct (drop (4 * k) block) as [|b0 [|b1 [|b2 [|b3 r]]]]; cbn in H4; try lia.
  unfold bytes_wf in Hd. rewrite !Forall_cons in Hd. exists b0, b1, b2, b3, r. naive_solver.
Qed.

(** ** The MD5 block function *)

Lemma F_rfc x y z : F x y z = Rfc1321.F x y z.
Proof.
  unfold F, Rfc1321.F. apply Z.bits_inj'. intros i Hi.
  rewrite !Z.lxor_spec, !Z.land_spec, !Z.lor_spec, !Z.land_spec, Z.lxor_spec, Z.lnot_spec by done.
  by destruct (Z.testbit x i), (Z.testbit y i), (Z.testbit z i).
Qed.
Lemma G_rfc x y z : G x y z = Rfc1321.G x y z.
Proof.
  unfold G, Rfc1321.G. apply Z.bits_inj'. intros i Hi.
  rewrite !Z.lxor_spec, !Z.land_spec, !Z.lor_spec, !Z.land_spec, Z.lxor_spec, Z.lnot_spec by done.
  by destruct (Z.testbit x i), (Z.testbit y i), (Z.testbit z i).
Qed.
Lemma H2_rfc x y z : H2 x y z = Rfc1321.H x y z.
Proof. unfold H2, Rfc1321.H. by rewrite Z.lxor_assoc. Qed.

Lemma SET_word block k :
  bytes_wf block → (4 * k + 4 ≤ length block)%nat → SET block k = Rfc1321.word block k.
Proof.
  intros Hb Hl. destruct (block_word block k Hb Hl) as (b0 & b1 & b2 & b3 & r & E & ? & ? & ? & ?).
  unfold SET, Rfc1321.word. replace (k * 4)%nat with (4 * k)%nat by lia. rewrite E. rewrite lor_bytes by done.
  cbn. rewrite take_0. cbn. lia.
Qed.

(** The rotation of [STEP]. *)
Lemma rot_rotl a s : 0 ≤ a < 2 ^ 32 → 0 ≤ s ≤ 32 →
  u32 ((a .<< s) .| ((a .& 0xffffffff) .>> (32 - s))) = rotl a s.
Proof.
  intros Ha Hs. change 0xffffffff with (Z.ones 32). rewrite Z.land_ones, (Z.mod_small a) by lia.
  rewrite u32_lor. unfold rotl. f_equal. apply u32_small.
  rewrite Z.shiftr_div_pow2 by lia. assert (0 < 2 ^ (32 - s)) by (apply Z.pow_pos_nonneg; lia).
  split; [apply Z.div_pos; lia|]. apply Z.div_lt_upper_bound; [lia|]. nia.
Qed.

(** A line of the code, as an operation of the standard: the function, the
    word, the constant and the rotation agree. *)
Definition step_matches (s : md5_step) (i : nat) : Prop :=
  let '(f, _, k, t, sh) := s in
  (∀ x y z, f x y z = Rfc1321.op_fun i x y z) ∧ k = Rfc1321.op_word i ∧ (k < 16)%nat ∧
  t = default 0 (Rfc1321.T !! i) ∧ sh = Rfc1321.op_shift i ∧ 0 ≤ sh ≤ 32.

(** The registers as the standard names them when [r] is assigned next. *)
Definition next_reg (r : reg) : reg :=
  match r with Ra => Rd | Rd => Rc | Rc => Rb | Rb => Ra end.
Definition reg_view (r : reg) (st : Z * Z * Z * Z) : Z * Z * Z * Z :=
  let '(a, b, c, d) := st in
  match r with Ra => (a, b, c, d) | Rd => (d, a, b, c) | Rc => (c, d, a, b) | Rb => (b, c, d, a) end.

Lemma STEP_operation block f a b c d k t s i :
  bytes_wf block → length block = 64%nat → step_matches (f, Ra, k, t, s) i →
  Rfc1321.operation block (a, b, c, d) i = (d, STEP f a b c d (SET block k) t s, b, c).
Proof.
  intros Hb Hl (Hf & Hk & Hk16 & Ht & Hs & Hs32). unfold STEP, Rfc1321.operation.
  rewrite rot_rotl by (done || apply u32_range). rewrite Hf, SET_word by (done || lia).
  rewrite <- Hk, <- Ht, <- Hs, (Z.add_comm b). by rewrite !Z.add_assoc.
Qed.

Lemma run_step_operation block st f r k t s i :
  bytes_wf block → length block = 64%nat → step_matches (f, r, k, t, s) i →
  reg_view (next_reg r) (run_step block st (f, r, k, t, s)) =
  Rfc1321.operation block (reg_view r st) i.
Proof.
  intros Hb Hl Hm. destruct st as [[[a b] c] d].
  destruct r; cbn [reg_view next_reg run_step]; by rewrite (STEP_operation block f _ _ _ _ k t s).
Qed.

(** The lines of the code assign [a], [d], [c], [b] in turn and are the
    operations of the standard. *)
Fixpoint lines_match (r : reg) (i : nat) (l : list md5_step) : Prop :=
  match l with
  | [] => True
  | s :: l => s.1.1.1.2 = r ∧ step_matches s i ∧ lines_match (next_reg r) (S i) l
  end.

Lemma run_lines block st r i l :
  bytes_wf block → length block = 64%nat → lines_match r i l →
  reg_view (Nat.iter (length l) next_reg r) (foldl (run_step block) st l) =
  foldl (Rfc1321.operation block) (reg_view r st) (seq i (length l)).
Proof.
  intros Hb Hl. revert st r i. induction l as [|[[[[f r'] k] t] s] l IH]; intros st r i; [done|].
  intros (<- & Hm & Hlm). cbn [fst snd] in *. cbn [foldl length seq].
  rewrite <- (run_step_operation block st f r' k t s i) by done.
  rewrite <- IH by done. by rewrite Nat.iter_succ_r.
Qed.

Lemma rounds_match : lines_match Ra 0 (round1 ++ round2 ++ round3 ++ round4).
Proof.
  cbn [round1 round2 round3 round4 app lines_match].
  repeat (split; [done|]; split; [split; [first [exact F_rfc|exact G_rfc|exact H2_rfc|done]|
    apply (bool_decide_unpack _); vm_compute; exact Logic.I]|]).
  done.
Qed.

Lemma md5_block_rfc st block :
  bytes_wf block → length block = 64%nat → md5_block st block = Rfc1321.compress st block.
Proof.
  intros Hb Hl. pose proof (run_lines block st Ra 0 _ Hb Hl rounds_match) as Hrun.
  assert (length (round1 ++ round2 ++ round3 ++ round4) = 64%nat) as H64 by (by vm_compute).
  rewrite H64 in Hrun. clear H64. change (Nat.iter 64 next_reg Ra) with Ra in Hrun.
  unfold md5_block, Rfc1321.compress. destruct st as [[[aa bb] cc] dd]. cbn [reg_view] in Hrun.
  revert Hrun. generalize (foldl (Rfc1321.operation block) (aa, bb, cc, dd) (seq 0 64)).
  generalize (foldl (run_step block) (aa, bb, cc, dd) (round1 ++ round2 ++ round3 ++ round4)).
  intros [[[a b] c] d] q <-. done.
Qed.

(** ** The SHA-256 block function *)

Lemma Ch_fips x y z : Ch x y z = Fips180.Ch x y z.
Proof.
  unfold Ch, Fips180.Ch. apply Z.bits_inj'. intros i Hi.
  rewrite !Z.lxor_spec, !Z.land_spec, Z.lxor_spec, Z.lnot_spec by done.
  by destruct (Z.testbit x i), (Z.testbit y i), (Z.testbit z i).
Qed.
Lemma Maj_fips x y z : Maj x y z = Fips180.Maj x y z.
Proof.
  unfold Maj, Fips180.Maj. apply Z.bits_inj'. intros i Hi.
  rewrite !Z.lxor_spec, !Z.lor_spec, !Z.land_spec, Z.lor_spec.
  by destruct (Z.testbit x i), (Z.testbit y i), (Z.testbit z i).
Qed.
Lemma K_fips : K = Fips180.K.
Proof. vm_compute. reflexivity. Qed.

Lemma be32dec_word block k :
  bytes_wf block → (4 * k + 4 ≤ length block)%nat → be32dec (drop (4 * k) block) = Fips180.word block k.
Proof.
  intros Hb Hl. destruct (block_word block k Hb Hl) as (b0 & b1 & b2 & b3 & r & E & ? & ? & ? & ?).
  unfold be32dec, be16dec, Fips180.word. rewrite E. cbn [drop take]. rewrite take_0.
  unfold be_val, u16. cbn [reverse rev_append app le_val].
  rewrite !(Z.lor_comm (_ .<< 8)), !lor_shiftl_add by lia. rewrite !(Z.mod_small (_ + _ * 2 ^ 8)) by lia.
  rewrite Z.shiftl_mul_pow2, u32_small by lia. rewrite <- Z.shiftl_mul_pow2 by lia.
  rewrite Z.lor_comm, lor_shiftl_add by lia. lia.
Qed.

Lemma be32dec_vect_words block n k :
  bytes_wf block → (4 * (k + n) ≤ length block)%nat →
  be32dec_vect n (drop (4 * k) block) = Fips180.word block <$> seq k n.
Proof.
  intros Hb. revert k. induction n as [|n IH]; intros k Hl; [done|]. cbn [be32dec_vect seq fmap list_fmap].
  rewrite be32dec_word by (done || lia). f_equal. rewrite drop_drop, <- IH by lia. do 2 f_equal. lia.
Qed.

(** The working variables in the order of the standard before round [j] of
    sixteen. *)
Definition work (j : nat) (S : list Z) : list Z :=
  (λ k, Mkhash.at_ S ((64 + k - j) mod 8)) <$> seq 0 8.

Lemma RNDr_round S W j i :
  length S = 8%nat → (j < 16)%nat →
  work (j + 1) (RNDr S W j i) = Fips180.round W (work j S) (j + i) ∧ length (RNDr S W j i) = 8%nat.
Proof.
  intros HS Hj. split; [|unfold RNDr; by rewrite !length_insert].
  destruct S as [|x0 [|x1 [|x2 [|x3 [|x4 [|x5 [|x6 [|x7 [|? ?]]]]]]]]]; try discriminate HS.
  assert (∀ a b c d e f g h k w,
    [u32 (u32 (h + (S1 e + Ch e f g + u32 (w + k))) + (S0 a + Maj a b c)); a; b; c;
     u32 (d + u32 (h + (S1 e + Ch e f g + u32 (w + k)))); e; f; g] =
    [u32 (u32 (h + Fips180.Sigma1 e + Fips180.Ch e f g + k + w) + u32 (Fips180.Sigma0 a + Fips180.Maj a b c));
     a; b; c; u32 (d + u32 (h + Fips180.Sigma1 e + Fips180.Ch e f g + k + w)); e; f; g]) as Heq.
  { intros. rewrite Ch_fips, Maj_fips.
    change (S1 e) with (Fips180.Sigma1 e). change (S0 a) with (Fips180.Sigma0 a).
    assert (u32 (h + (Fips180.Sigma1 e + Fips180.Ch e f g + u32 (w + k))) =
      u32 (h + Fips180.Sigma1 e + Fips180.Ch e f g + k + w)) as ->.
    { rewrite Z.add_assoc, u32_add_r. f_equal. lia. }
    by rewrite (u32_add_r _ (Fips180.Sigma0 a + Fips180.Maj a b c)). }
  unfold RNDr, Fips180.round. rewrite <- K_fips. generalize K. intros KK.
  do 16 (destruct j as [|j]; [exact (Heq _ _ _ _ _ _ _ _ _ _)|]). lia.
Qed.

Lemma work_0 S : length S = 8%nat → work 0 S = S ∧ work 16 S = S.
Proof.
  intros HS. destruct S as [|x0 [|x1 [|x2 [|x3 [|x4 [|x5 [|x6 [|x7 [|? ?]]]]]]]]]; by try discriminate HS.
Qed.

(** Sixteen rounds of the code. *)
Lemma rounds_from S W i j n :
  length S = 8%nat → (j + n ≤ 16)%nat →
  let R := foldl (λ S j, RNDr S W j i) S (seq j n) in
  work (j + n) R = foldl (Fips180.round W) (work j S) (seq (j + i) n) ∧ length R = 8%nat.
Proof.
  revert S j. induction n as [|n IH]; intros S j HS Hn; cbn [seq foldl].
  - by rewrite Nat.add_0_r.
  - destruct (RNDr_round S W j i HS ltac:(lia)) as [Hr Hl].
    destruct (IH (RNDr S W j i) (Datatypes.S j) Hl ltac:(lia)) as [Hw Hl'].
    rewrite Nat.add_1_r in Hr. rewrite Hr in Hw. split; [|done].
    by replace (j + Datatypes.S n)%nat with (Datatypes.S j + n)%nat by lia.
Qed.
Lemma rounds16_spec S W i :
  length S = 8%nat →
  rounds16 S W i = foldl (Fips180.round W) S (seq i 16) ∧ length (rounds16 S W i) = 8%nat.
Proof.
  intros HS. unfold rounds16. pose proof (rounds_from S W i 0 16 HS ltac:(lia)) as HR. cbv zeta in HR.
  revert HR. generalize (foldl (λ S j, RNDr S W j i) S (seq 0 16)). intros R [Hw Hl]. split; [|done].
  rewrite !Nat.add_0_l, (proj1 (work_0 S HS)), (proj2 (work_0 R Hl)) in Hw. done.
Qed.

(** The schedule only grows. *)
Lemma extend_prefix n W : ∃ r, Nat.iter n Fips180.extend W = W ++ r ∧ length r = n.
Proof.
  induction n as [|n (r & IH & Hr)]; [exists []; by rewrite app_nil_r|]. rewrite Nat.iter_succ, IH.
  unfold Fips180.extend. eexists (r ++ [_]). rewrite app_assoc. split; [done|].
  rewrite length_app, Hr. apply Nat.add_1_r.
Qed.
Lemma msch_from W i j n :
  length W = (16 + i + j)%nat →
  foldl (λ W j, MSCH W j i) W (seq j n) = Nat.iter n Fips180.extend W.
Proof.
  revert W j. induction n as [|n IH]; intros W j HW; [done|]. cbn [seq foldl].
  rewrite IH by (unfold MSCH; rewrite length_app; cbn; lia). rewrite Nat.iter_succ_r. f_equal.
  unfold MSCH, Fips180.extend. rewrite HW.
  replace (16 + i + j - 2)%nat with (i + j + 14)%nat by lia.
  replace (16 + i + j - 7)%nat with (i + j + 9)%nat by lia.
  replace (16 + i + j - 15)%nat with (i + j + 1)%nat by lia.
  replace (16 + i + j - 16)%nat with (i + j + 0)%nat by lia.
  by rewrite (Nat.add_comm i j).
Qed.

(** A round only reads the words there are. *)
Lemma rounds_prefix W r st i n :
  (i + n ≤ length W)%nat →
  foldl (Fips180.round (W ++ r)) st (seq i n) = foldl (Fips180.round W) st (seq i n).
Proof.
  revert st i. induction n as [|n IH]; intros st i Hn; [done|]. cbn [seq foldl]. rewrite IH by lia.
  f_equal. unfold Fips180.round, Fips180.at_. by rewrite lookup_app_l by lia.
Qed.

Lemma mix_spec n S W i :
  length S = 8%nat → length W = (16 + i)%nat → i = (64 - 16 * n)%nat → (1 ≤ n ≤ 4)%nat →
  mix n S W i = foldl (Fips180.round (Nat.iter (48 - i) Fips180.extend W)) S (seq i (16 * n)) ∧
  length (mix n S W i) = 8%nat.
Proof.
  revert S W i. induction n as [|n IH]; intros S W i HS HW Hi Hn; [lia|]. cbn [mix].
  destruct (rounds16_spec S W i HS) as [Hr Hl].
  destruct (decide (i = 48%nat)) as [H48|H48].
  - rewrite H48 in *. assert (n = 0)%nat as -> by lia. done.
  - unfold msch16. rewrite msch_from by lia.
    destruct (extend_prefix 16 W) as (r & Hr16 & Hrl).
    destruct (IH (rounds16 S W i) (Nat.iter 16 Fips180.extend W) (i + 16)%nat) as [Hm Hml];
      [done|rewrite Hr16, length_app; lia|lia|lia|].
    split; [|done]. rewrite Hm, <- Nat.iter_add.
    replace (48 - (i + 16) + 16)%nat with (48 - i)%nat by lia.
    replace (16 * Datatypes.S n)%nat with (16 + 16 * n)%nat by lia. rewrite seq_app, foldl_app. f_equal.
    rewrite Hr. destruct (extend_prefix (48 - i) W) as (r' & -> & _). by rewrite rounds_prefix by lia.
Qed.

Lemma SHA256_Transform_fips st block :
  length st = 8%nat → bytes_wf block → length block = 64%nat →
  SHA256_Transform st block = Fips180.compress st block.
Proof.
  intros Hst Hb Hl. unfold SHA256_Transform, Fips180.compress, Fips180.schedule.
  pose proof (be32dec_vect_words block 16 0 Hb ltac:(lia)) as HW. rewrite drop_0 in HW. rewrite HW.
  by destruct (mix_spec 4 st (Fips180.word block <$> seq 0 16) 0) as [-> _]; [done|done|lia|lia|].
Qed.
Lemma compress_length st block : length st = 8%nat → length (Fips180.compress st block) = 8%nat.
Proof.
  intros Hst. unfold Fips180.compress. rewrite length_zip_with_l_eq; [done|].
  rewrite Hst. symmetry. generalize (seq 0 64). intros l. revert st Hst.
  induction l as [|t l IH]; intros st Hst; [done|]. cbn [foldl]. apply IH.
  by destruct st as [|x0 [|x1 [|x2 [|x3 [|x4 [|x5 [|x6 [|x7 [|? ?]]]]]]]]].
Qed.

(** ** Streaming *)

(** The bytes of a message after its last whole block. *)
Definition rest (m : list Z) : list Z := drop (64 * (length m / 64)) m.

Lemma length_rest m : length (rest m) = (length m mod 64)%nat.
Proof.
  unfold rest. rewrite length_drop. pose proof (Nat.div_mod (length m) 64). lia.
Qed.
Lemma rest_small m : (length m < 64)%nat → rest m = m.
Proof. intros. unfold rest. by rewrite Nat.div_small by done. Qed.
Lemma rest_block b : length b = 64%nat → rest b = [].
Proof. intros Hb. unfold rest. rewrite Hb. change (64 * (64 / 64))%nat with 64%nat. apply drop_ge. lia. Qed.
Lemma split_rest m : ∃ p, m = p ++ rest m ∧ length p = (64 * (length m / 64))%nat.
Proof.
  exists (take (64 * (length m / 64)) m). unfold rest. rewrite take_drop, length_take. split; [done|].
  pose proof (Nat.div_mod (length m) 64). lia.
Qed.
Lemma rest_wf m : bytes_wf m → bytes_wf (rest m).
Proof. apply Forall_drop. Qed.

Lemma blocks_app m x :
  (length (m ++ x) / 64 = length m / 64 + length (rest m ++ x) / 64)%nat ∧ rest (m ++ x) = rest (rest m ++ x).
Proof.
  destruct (split_rest m) as (p & Hm & Hp).
  assert (m ++ x = p ++ (rest m ++ x)) as E by (rewrite Hm at 1; by rewrite app_assoc).
  assert (length (m ++ x) / 64 = length m / 64 + length (rest m ++ x) / 64)%nat as Hq.
  { rewrite E, length_app, Hp. rewrite Nat.add_comm, (Nat.mul_comm 64), Nat.div_add by lia. lia. }
  split; [done|]. unfold rest at 1. rewrite Hq, E.
  rewrite Nat.mul_add_distr_l, <- drop_drop, <- Hp. by rewrite drop_app_length.
Qed.

Section stream.
Context {St : Type} (f : St → list Z → St).

Lemma absorb_all_app st m x :
  absorb_all f st (m ++ x) = absorb_all f (absorb_all f st m) (rest m ++ x).
Proof.
  unfold absorb_all. rewrite (proj1 (blocks_app m x)).
  destruct (split_rest m) as (p & Hm & Hp).
  assert (m ++ x = p ++ (rest m ++ x)) as -> by (rewrite Hm at 1; by rewrite app_assoc).
  rewrite absorb_app by done. f_equal.
  rewrite (absorb_take _ _ _ m), <- Hp. assert (take (length p) m = p) as -> by (rewrite Hm; apply take_app_length).
  done.
Qed.
Lemma absorb_all_small st m : (length m < 64)%nat → absorb_all f st m = st.
Proof. intros. unfold absorb_all. by rewrite Nat.div_small by done. Qed.
Lemma absorb_block st b y : length b = 64%nat → absorb_all f st (b ++ y) = absorb_all f (f st b) y.
Proof.
  intros Hb. unfold absorb_all. rewrite length_app, Hb.
  replace ((64 + length y) / 64)%nat with (1 + length y / 64)%nat.
  - rewrite absorb_app by done. cbn [absorb]. by rewrite take_ge by lia.
  - rewrite <- (Nat.div_add_l 1 64) by lia. done.
Qed.

(** Two block functions that agree on the states they meet. *)
Lemma absorb_ext (g : St → list Z → St) (P : St → Prop) n st data :
  (∀ st b, P st → bytes_wf b → length b = 64%nat → f st b = g st b ∧ P (g st b)) →
  P st → bytes_wf data → (64 * n ≤ length data)%nat → absorb f n st data = absorb g n st data.
Proof.
  intros Hfg. revert st data. induction n as [|n IH]; intros st data HP Hd Hl; [done|]. cbn [absorb].
  destruct (Hfg st (take 64 data) HP) as [-> HP']; [by apply Forall_take|rewrite length_take; lia|].
  apply IH; [done|by apply Forall_drop|rewrite length_drop; lia].
Qed.
End stream.

(** The one or two blocks the padding ends with. *)
Lemma absorb_padded {St} (f : St → list Z → St) st m len8 :
  length len8 = 8%nat →
  let c := absorb_all f st m in let r := length (rest m) in
  absorb_all f st (padded m len8) =
    if decide (r < 56)%nat then f c (rest m ++ 0x80 :: replicate (55 - r) 0 ++ len8)
    else f (f c (rest m ++ 0x80 :: replicate (63 - r) 0)) (replicate 56 0 ++ len8).
Proof.
  intros H8 c r. unfold padded. rewrite absorb_all_app. fold c.
  pose proof (length_rest m) as Hr. fold r in Hr.
  pose proof (Nat.mod_upper_bound (length m) 64 ltac:(lia)) as Hr64.
  assert ((55 - Z.of_nat (length m)) mod 64 = (55 - Z.of_nat r) mod 64) as ->.
  { rewrite Hr, Nat2Z.inj_mod. change (Z.of_nat 64) with 64. by rewrite Zminus_mod_idemp_r. }
  assert (∀ b, length b = 64%nat → ∀ st, absorb_all f st b = f st b) as Hone.
  { intros b Hb st'. rewrite <- (app_nil_r b) at 1. rewrite absorb_block by done. by apply absorb_all_small; cbn; lia. }
  case_decide as Hlt.
  - rewrite Z.mod_small by lia. replace (Z.to_nat (55 - Z.of_nat r)) with (55 - r)%nat by lia.
    apply Hone. rewrite length_app. cbn [length]. rewrite length_app, length_replicate. unfold r in *. lia.
  - rewrite <- (Z.mod_unique (55 - Z.of_nat r) 64 (-1) (119 - Z.of_nat r)) by lia.
    replace (Z.to_nat (119 - Z.of_nat r)) with (63 - r + 56)%nat by lia.
    rewrite replicate_add, <- app_assoc, app_comm_cons, app_assoc.
    rewrite absorb_block by (rewrite length_app; cbn [length]; rewrite length_replicate; unfold r in *; lia).
    apply Hone. rewrite length_app, length_replicate. lia.
Qed.

(** The buffer of a context holds the bytes after the last whole block. *)
Definition holds (b m : list Z) : Prop := length b = 64%nat ∧ take (length (rest m)) b = rest m.

(** Writing after the bytes the buffer holds. *)
Lemma fill b m x :
  holds b m → (length (rest m) + length x ≤ 64)%nat →
  ∃ b', mwrite b (length (rest m)) x = Ret b' ∧ length b' = 64%nat ∧
    take (length (rest m) + length x) b' = rest m ++ x.
Proof.
  intros [Hb Ht] Hx. rewrite mwrite_ret by lia. eexists. split; [done|]. rewrite Ht, app_assoc. split.
  - rewrite !length_app, length_drop. lia.
  - rewrite take_app_le by (rewrite length_app; lia). apply take_ge. rewrite length_app. lia.
Qed.
(** A buffer that is filled is the block of the message. *)
Lemma holds_start b x :
  length b = 64%nat → (length x < 64)%nat →
  ∃ b', mwrite b 0 x = Ret b' ∧ holds b' x.
Proof.
  intros Hb Hx. rewrite mwrite_ret by lia. eexists. split; [done|]. unfold holds. rewrite rest_small by done.
  rewrite !length_app, length_take, length_drop. split; [lia|]. by rewrite take_0, app_nil_l, take_app_length.
Qed.
Lemma holds_rest b m : holds b (rest m) → holds b m.
Proof.
  unfold holds. rewrite (rest_small (rest m)); [done|]. rewrite length_rest. apply Nat.mod_upper_bound. lia.
Qed.

(** ** The MD5 context *)

Lemma MD5_body_absorb n st d : MD5_body n st d = (absorb md5_block n st d, drop (64 * n) d).
Proof.
  revert st d. induction n as [|n IH]; intros st d; [by rewrite drop_0|]. cbn [MD5_body absorb].
  rewrite IH, drop_drop. do 2 f_equal. lia.
Qed.

(** The context after the bytes [m]: chaining value, buffer and the length in
    bytes modulo 2^61, 29 bits of it in [lo]. *)
Record md5_after (m : list Z) (ctx : MD5_CTX) : Prop := {
  ma_state : md5_state ctx = absorb_all md5_block Rfc1321.init m;
  ma_buffer : holds (md5_buffer ctx) m;
  ma_lo : lo ctx = Z.of_nat (length m) mod 2 ^ 29;
  ma_hi : hi ctx = Z.of_nat (length m) / 2 ^ 29 mod 2 ^ 32
}.

Lemma lo_used (n : nat) : Z.to_nat ((Z.of_nat n mod 2 ^ 29) .& 0x3f) = (n mod 64)%nat.
Proof.
  change 0x3f with (Z.ones 6). rewrite Z.land_ones by lia.
  rewrite Z.mod_mod_divide by (by exists (2 ^ 23)). change (2 ^ 6) with (Z.of_nat 64).
  rewrite <- Nat2Z.inj_mod. apply Nat2Z.id.
Qed.

Lemma md5_length n k :
  0 ≤ n → 0 ≤ k →
  let lo := n mod 2 ^ 29 in let hi := n / 2 ^ 29 mod 2 ^ 32 in
  let lo' := (lo + k) .& 0x1fffffff in
  let hi' := if lo' <? lo then u32 (hi + 1) else hi in
  lo' = (n + k) mod 2 ^ 29 ∧ u32 (hi' + (k .>> 29)) = (n + k) / 2 ^ 29 mod 2 ^ 32.
Proof.
  intros Hn Hk lo hi lo' hi'.
  assert (lo' = (n + k) mod 2 ^ 29) as Hlo.
  { unfold lo', lo. change 0x1fffffff with (Z.ones 29). rewrite Z.land_ones by lia. by rewrite Z.add_mod_idemp_l. }
  split; [done|]. unfold hi'. rewrite Z.shiftr_div_pow2 by lia.
  assert ((n + k) / 2 ^ 29 = n / 2 ^ 29 + k / 2 ^ 29 + (if lo' <? lo then 1 else 0)) as ->.
  { pose proof (Z.div_mod n (2 ^ 29)). pose proof (Z.div_mod k (2 ^ 29)).
    pose proof (Z.mod_pos_bound n (2 ^ 29)). pose proof (Z.mod_pos_bound k (2 ^ 29)).
    pose proof (Z.div_mod (n + k) (2 ^ 29)). pose proof (Z.mod_pos_bound (n + k) (2 ^ 29)).
    rewrite Hlo. unfold lo. destruct (Z.ltb_spec ((n + k) mod 2 ^ 29) (n mod 2 ^ 29)); lia. }
  unfold hi, u32. destruct (lo' <? lo).
  - rewrite Z.add_mod_idemp_l, <- Z.add_assoc, Z.add_mod_idemp_l by lia. f_equal. lia.
  - rewrite Z.add_mod_idemp_l by lia. f_equal. lia.
Qed.

Lemma md5_blocks_done data ctx m :
  length (md5_buffer ctx) = 64%nat → rest m = [] →
  md5_state ctx = absorb_all md5_block Rfc1321.init m →
  ∃ b, md5_blocks data ctx = Ret (Md5 (lo ctx) (hi ctx) (absorb_all md5_block Rfc1321.init (m ++ data)) b) ∧
    holds b (m ++ data).
Proof.
  intros Hb Hm Hst. unfold md5_blocks. rewrite MD5_body_absorb. fold (rest data).
  destruct (holds_start (md5_buffer ctx) (rest data) Hb) as (b & -> & Hh).
  { rewrite length_rest. apply Nat.mod_upper_bound. lia. }
  exists b. cbn [mbind result_bind]. rewrite absorb_all_app, Hm, app_nil_l, Hst. split; [done|].
  apply holds_rest. rewrite (proj2 (blocks_app m data)), Hm, app_nil_l. done.
Qed.

Lemma MD5_hash_after m x ctx :
  md5_after m ctx → ∃ ctx', MD5_hash x ctx = Ret ctx' ∧ md5_after (m ++ x) ctx'.
Proof.
  intros [Hst Hbuf Hlo Hhi]. unfold MD5_hash. rewrite Hlo, Hhi.
  destruct (md5_length (Z.of_nat (length m)) (Z.of_nat (length x)) ltac:(lia) ltac:(lia)) as [-> ->].
  rewrite <- Nat2Z.inj_add, <- length_app.
  rewrite lo_used, <- length_rest. pose proof (length_rest m) as Hr.
  pose proof (Nat.mod_upper_bound (length m) 64 ltac:(lia)) as Hr64.
  set (lo' := Z.of_nat (length (m ++ x)) mod 2 ^ 29). set (hi' := Z.of_nat (length (m ++ x)) / 2 ^ 29 mod 2 ^ 32).
  destruct (decide (length (rest m) = 0%nat)) as [H0|H0].
  - apply length_zero_iff_nil in H0.
    destruct (md5_blocks_done x (Md5 lo' hi' (md5_state ctx) (md5_buffer ctx)) m) as (b & -> & Hh);
      [apply Hbuf|done|done|].
    eexists. split; [done|]. by split.
  - cbn [md5_buffer md5_state]. case_decide as Hsz.
    + destruct (fill _ m x Hbuf) as (b & -> & Hb & Ht); [lia|]. cbn [mbind result_bind].
      assert (rest (m ++ x) = rest m ++ x) as Hrx.
      { rewrite (proj2 (blocks_app m x)). apply rest_small. rewrite length_app. lia. }
      eexists. split; [done|]. split; [|split; [done|]|done|done].
      * cbn [set_md5 md5_state]. rewrite absorb_all_app, absorb_all_small by (rewrite length_app; lia). done.
      * cbn [set_md5 md5_buffer]. by rewrite Hrx, length_app.
    + set (av := (64 - length (rest m))%nat) in *.
      assert (av + length (rest m) = 64)%nat as Hav by (unfold av; lia). clearbody av.
      destruct (fill _ m (take av x) Hbuf) as (b & -> & Hb & Ht); [rewrite length_take; lia|].
      cbn [mbind result_bind]. rewrite length_take in Ht.
      replace (length (rest m) + av `min` length x)%nat with 64%nat in Ht by lia.
      rewrite take_ge in Ht by lia.
      assert (m ++ x = (m ++ take av x) ++ drop av x) as Ex by (by rewrite <- app_assoc, take_drop).
      assert (rest (m ++ take av x) = []) as Hm1.
      { rewrite (proj2 (blocks_app _ _)), <- Ht. by apply rest_block. }
      destruct (md5_blocks_done (drop av x)
        (set_md5 (MD5_body 1 (md5_state ctx) b).1 b (Md5 lo' hi' (md5_state ctx) (md5_buffer ctx)))
        (m ++ take av x)) as (b' & -> & Hh); [done|done| |].
      { cbn [set_md5 md5_state MD5_body fst]. rewrite absorb_all_app, <- Ht, <- Hst.
        rewrite <- (app_nil_r b) at 2. rewrite absorb_block by done.
        rewrite absorb_all_small by (cbn; lia). by rewrite take_ge by lia. }
      eexists. split; [done|]. unfold lo', hi'. rewrite Ex. by split.
Qed.

(** Writing behind a prefix that is known. *)
Lemma write_behind b p x :
  length b = 64%nat → take (length p) b = p → (length p + length x ≤ 64)%nat →
  ∃ b', mwrite b (length p) x = Ret b' ∧ length b' = 64%nat ∧ take (length (p ++ x)) b' = p ++ x.
Proof.
  intros Hb Hp Hx. rewrite mwrite_ret by lia. eexists. split; [done|]. rewrite Hp, app_assoc. split.
  - rewrite !length_app, length_drop. lia.
  - by rewrite take_app_length.
Qed.
Lemma full_buffer (b p : list Z) : length b = 64%nat → length p = 64%nat → take (length p) b = p → b = p.
Proof. intros Hb Hp <-. by rewrite take_ge by lia. Qed.

Lemma le32_bytes u : le32 u = le_bytes 4 u.
Proof.
  unfold le32, u8. rewrite !Z.shiftr_div_pow2 by lia. cbn [le_bytes].
  by rewrite !Z.div_div by lia.
Qed.

(** The counters of the context are the 64-bit length in bits. *)
Lemma md5_len8 n :
  0 ≤ n → le32 (u32 ((n mod 2 ^ 29) .<< 3)) ++ le32 (n / 2 ^ 29 mod 2 ^ 32) = le_bytes 8 (8 * n).
Proof.
  intros Hn. rewrite !le32_bytes. change 8%nat with (4 + 4)%nat. rewrite le_bytes_add. f_equal.
  - rewrite Z.shiftl_mul_pow2 by lia. rewrite <- (le_bytes_mod 4 (8 * n)), <- (le_bytes_mod 4 (u32 _)).
    f_equal. unfold u32. change (256 ^ Z.of_nat 4) with (2 ^ 29 * 2 ^ 3). change (2 ^ 32) with (2 ^ 29 * 2 ^ 3).
    rewrite Z.mod_mod by lia. replace (8 * n) with (n * 2 ^ 3) by lia.
    rewrite !Z.mul_mod_distr_r by lia. by rewrite Z.mod_mod by lia.
  - change (2 ^ 32) with (256 ^ Z.of_nat 4). rewrite le_bytes_mod. f_equal.
    change (256 ^ Z.of_nat 4) with (8 * 2 ^ 29). by rewrite Z.div_mul_cancel_l by lia.
Qed.

(** The final blocks of [MD5_end]. *)
Lemma MD5_end_blocks m ctx :
  md5_after m ctx →
  ∃ st, MD5_end ctx = Ret (let '(a, b, c, d) := st in le32 a ++ le32 b ++ le32 c ++ le32 d) ∧
    st = absorb_all md5_block Rfc1321.init (padded m (le_bytes 8 (8 * Z.of_nat (length m)))).
Proof.
  intros [Hst [Hb Hbt] Hlo Hhi]. unfold MD5_end. rewrite Hlo, Hhi, lo_used, <- length_rest.
  rewrite md5_len8 by lia. set (len8 := le_bytes 8 _).
  assert (length len8 = 8%nat) as H8 by apply length_le_bytes. clearbody len8.
  rewrite absorb_padded, <- Hst by done. pose proof (length_rest m) as Hr.
  pose proof (Nat.mod_upper_bound (length m) 64 ltac:(lia)) as Hr64. rewrite <- Hr in Hr64.
  destruct (write_behind _ (rest m) [0x80] Hb Hbt) as (b1 & -> & Hb1 & Ht1); [cbn [length]; lia|].
  cbn [mbind result_bind].
  assert (length (rest m ++ [0x80]) = Datatypes.S (length (rest m))) as Hl1
    by (rewrite length_app; apply Nat.add_1_r).
  assert (∀ b x, length b = 64%nat → (MD5_body 1 x b).1 = md5_block x b) as Hbody.
  { intros b x Hlb. rewrite MD5_body_absorb. cbn. by rewrite take_ge by lia. }
  case_decide as Hav; unfold mset.
  - rewrite decide_False by lia. rewrite <- Hl1.
    destruct (write_behind b1 (rest m ++ [0x80]) (replicate (64 - length (rest m ++ [0x80])) 0) Hb1 Ht1)
      as (b2 & -> & Hb2 & Ht2); [rewrite length_replicate; lia|]. cbn [mbind result_bind].
    apply full_buffer in Ht2; [|done|rewrite length_app, length_replicate; lia].
    change (64 - 8)%nat with 56%nat.
    destruct (write_behind b2 [] (replicate 56 0)) as (b3 & E3 & Hb3 & Ht3); [done|done|cbn; lia|].
    cbn [length] in E3. rewrite E3. cbn [mbind result_bind].
    rewrite app_nil_l in Ht3. rewrite length_replicate in Ht3.
    destruct (write_behind b3 (replicate 56 0) len8 Hb3) as (b4 & E4 & Hb4 & Ht4);
      [by rewrite length_replicate|rewrite length_replicate; lia|].
    rewrite length_replicate in E4. rewrite E4. cbn [mbind result_bind].
    apply full_buffer in Ht4; [|done|rewrite length_app, length_replicate; lia].
    exists (MD5_body 1 (MD5_body 1 (md5_state ctx) b2).1 b4).1.
    split; [by destruct (MD5_body 1 (MD5_body 1 (md5_state ctx) b2).1 b4).1 as [[[??]?]?]|].
    rewrite !Hbody by done. rewrite Ht4. f_equal. f_equal. rewrite Ht2, Hl1.
    rewrite <- app_assoc. by do 3 f_equal.
  - rewrite decide_True by lia. cbn [mbind result_bind]. rewrite <- Hl1.
    destruct (write_behind b1 (rest m ++ [0x80]) (replicate (64 - length (rest m ++ [0x80]) - 8) 0) Hb1 Ht1)
      as (b2 & -> & Hb2 & Ht2); [rewrite length_replicate; lia|]. cbn [mbind result_bind].
    assert (length ((rest m ++ [0x80]) ++ replicate (64 - length (rest m ++ [0x80]) - 8) 0) = 56%nat) as Hl2
      by (rewrite length_app, length_replicate; lia).
    destruct (write_behind b2 _ len8 Hb2 Ht2) as (b3 & E3 & Hb3 & Ht3); [lia|].
    rewrite Hl2 in E3. rewrite E3. cbn [mbind result_bind].
    apply full_buffer in Ht3; [|done|rewrite length_app; lia].
    exists (MD5_body 1 (md5_state ctx) b3).1.
    split; [by destruct (MD5_body 1 (md5_state ctx) b3).1 as [[[??]?]?]|]. rewrite Hbody by done. f_equal. rewrite Ht3, Hl1, <- !app_assoc.
    by replace (64 - Datatypes.S (length (rest m)) - 8)%nat with (55 - length (rest m))%nat by lia.
Qed.

(** ** The SHA-256 context *)

Lemma sha_blocks_absorb n st d :
  sha_blocks n st d = (absorb SHA256_Transform n st d, drop (64 * n) d).
Proof.
  revert st d. induction n as [|n IH]; intros st d; [by rewrite drop_0|]. cbn [sha_blocks absorb].
  rewrite IH, drop_drop. do 2 f_equal. lia.
Qed.

(** The context after the bytes [m]; [count] is the length in bits. *)
Record sha_after (m : list Z) (ctx : SHA256_CTX) : Prop := {
  sa_state : state ctx = absorb_all SHA256_Transform Fips180.init m;
  sa_buffer : holds (buf ctx) m;
  sa_count : count ctx = (8 * Z.of_nat (length m)) mod 2 ^ 64
}.

Lemma count_used (n : nat) : Z.to_nat ((((8 * Z.of_nat n) mod 2 ^ 64) .>> 3) .& 0x3f) = (n mod 64)%nat.
Proof.
  change 0x3f with (Z.ones 6). rewrite Z.land_ones, Z.shiftr_div_pow2 by lia.
  change (2 ^ 64) with (2 ^ 3 * 2 ^ 61). change 8 with (2 ^ 3). rewrite Z.mul_mod_distr_l by lia.
  rewrite Z.mul_comm, Z.div_mul by lia.
  rewrite Z.mod_mod_divide by (by exists (2 ^ 55)). change (2 ^ 6) with (Z.of_nat 64).
  rewrite <- Nat2Z.inj_mod. apply Nat2Z.id.
Qed.

Lemma SHA256_Update_after {A : Arch} m x ctx :
  sha_after m ctx → 8 * Z.of_nat (length x) < 2 ^ long_bits →
  ∃ ctx', SHA256_Update x ctx = Ret ctx' ∧ sha_after (m ++ x) ctx'.
Proof.
  intros [Hst Hbuf Hcount] Hx. unfold SHA256_Update. rewrite Hcount, count_used, <- length_rest.
  rewrite Z.shiftl_mul_pow2, (Z.mod_small (Z.of_nat (length x) * 2 ^ 3)) by lia.
  assert (u64 ((8 * Z.of_nat (length m)) mod 2 ^ 64 + Z.of_nat (length x) * 2 ^ 3) =
    (8 * Z.of_nat (length (m ++ x))) mod 2 ^ 64) as ->.
  { unfold u64. rewrite Z.add_mod_idemp_l, length_app by lia. f_equal. lia. }
  pose proof (length_rest m) as Hr. pose proof (Nat.mod_upper_bound (length m) 64 ltac:(lia)) as Hr64.
  rewrite <- Hr in Hr64. cbn [buf state]. case_decide as Hsz.
  - destruct (fill _ m x Hbuf) as (b & -> & Hb & Ht); [lia|]. cbn [mbind result_bind].
    assert (rest (m ++ x) = rest m ++ x) as Hrx.
    { rewrite (proj2 (blocks_app m x)). apply rest_small. rewrite length_app. lia. }
    eexists. split; [done|]. split; [|split; [done|]|done].
    + cbn [set_sha state]. rewrite absorb_all_app, absorb_all_small by (rewrite length_app; lia). done.
    + cbn [set_sha buf]. by rewrite Hrx, length_app.
  - set (av := (64 - length (rest m))%nat) in *.
    assert (av + length (rest m) = 64)%nat as Hav by (unfold av; lia). clearbody av.
    destruct (fill _ m (take av x) Hbuf) as (b & -> & Hb & Ht); [rewrite length_take; lia|].
    cbn [mbind result_bind]. rewrite length_take in Ht.
    replace (length (rest m) + av `min` length x)%nat with 64%nat in Ht by lia.
    rewrite take_ge in Ht by lia. rewrite sha_blocks_absorb. fold (rest (drop av x)).
    destruct (holds_start b (rest (drop av x)) Hb) as (b' & -> & Hh).
    { rewrite length_rest. apply Nat.mod_upper_bound. lia. }
    cbn [mbind result_bind].
    assert (rest m ++ x = b ++ drop av x) as Ex by (rewrite Ht, <- app_assoc; by rewrite take_drop).
    eexists. split; [done|]. split; [| |done].
    + cbn [set_sha state]. rewrite absorb_all_app, Ex, <- Hst. by rewrite absorb_block.
    + cbn [set_sha buf]. apply holds_rest. rewrite (proj2 (blocks_app m x)), Ex.
      rewrite (proj2 (blocks_app b _)), (rest_block b) by done. done.
Qed.

Lemma be32enc_bytes u : be32enc u = be_bytes 4 u.
Proof.
  unfold be32enc, u8, be_bytes. rewrite !land_255, !Z.shiftr_div_pow2 by lia. cbn.
  by rewrite !Z.mod_mod, !Z.div_div by lia.
Qed.
Lemma be64enc_bytes u : be64enc u = be_bytes 8 u.
Proof.
  unfold be64enc. rewrite !be32enc_bytes. unfold be_bytes. change 8%nat with (4 + 4)%nat.
  rewrite le_bytes_add, reverse_app. change 0xffffffff with (Z.ones 32).
  rewrite Z.land_ones, Z.shiftr_div_pow2 by lia. unfold u32. rewrite Z.mod_mod by lia.
  change (2 ^ 32) with (256 ^ Z.of_nat 4). by rewrite !le_bytes_mod.
Qed.
Lemma be32enc_vect_bytes l : be32enc_vect l = mjoin (be_bytes 4 <$> l).
Proof. unfold be32enc_vect. f_equal. apply list_fmap_ext. intros. apply be32enc_bytes. Qed.

Lemma SHA256_Pad_blocks m ctx :
  sha_after m ctx →
  ∃ ctx', SHA256_Pad ctx = Ret ctx' ∧
    state ctx' = absorb_all SHA256_Transform Fips180.init (padded m (be_bytes 8 (8 * Z.of_nat (length m)))).
Proof.
  intros [Hst [Hb Hbt] Hcount]. unfold SHA256_Pad. rewrite Hcount, count_used, <- length_rest.
  assert (be64enc (count ctx) = be_bytes 8 (8 * Z.of_nat (length m))) as Hlen.
  { rewrite Hcount, be64enc_bytes. unfold be_bytes. change (2 ^ 64) with (256 ^ Z.of_nat 8).
    by rewrite le_bytes_mod. }
  rewrite <- Hlen. assert (length (be64enc (count ctx)) = 8%nat) as H8 by done.
  rewrite absorb_padded, <- Hst by done. pose proof (length_rest m) as Hr.
  pose proof (Nat.mod_upper_bound (length m) 64 ltac:(lia)) as Hr64. rewrite <- Hr in Hr64.
  assert (∀ k, (k < 64)%nat → take (Datatypes.S k) PAD = 0x80 :: replicate k 0) as Hpad.
  { intros k Hk. unfold PAD. cbn [take]. rewrite take_replicate. do 2 f_equal. lia. }
  case_decide as Hlt.
  - replace (56 - length (rest m))%nat with (Datatypes.S (55 - length (rest m))) by lia. rewrite Hpad by lia.
    destruct (write_behind _ (rest m) (0x80 :: replicate (55 - length (rest m)) 0) Hb Hbt)
      as (b1 & -> & Hb1 & Ht1); [cbn [length]; rewrite length_replicate; lia|]. cbn [mbind result_bind].
    assert (length (rest m ++ 0x80 :: replicate (55 - length (rest m)) 0) = 56%nat) as Hl1
      by (rewrite length_app; cbn [length]; rewrite length_replicate; lia).
    destruct (write_behind b1 _ (be64enc (count ctx)) Hb1 Ht1) as (b2 & E2 & Hb2 & Ht2); [lia|].
    cbn [set_sha buf count]. rewrite Hl1 in E2. rewrite E2. cbn [mbind result_bind].
    apply full_buffer in Ht2; [|done|rewrite length_app; lia].
    eexists. split; [done|]. cbn [set_sha state]. by rewrite Ht2, <- app_assoc.
  - replace (64 - length (rest m))%nat with (Datatypes.S (63 - length (rest m))) by lia. rewrite Hpad by lia.
    destruct (write_behind _ (rest m) (0x80 :: replicate (63 - length (rest m)) 0) Hb Hbt)
      as (b1 & -> & Hb1 & Ht1); [cbn [length]; rewrite length_replicate; lia|]. cbn [mbind result_bind].
    apply full_buffer in Ht1; [|done|rewrite length_app; cbn [length]; rewrite length_replicate; lia].
    unfold mset. destruct (write_behind b1 [] (replicate 56 0)) as (b2 & E2 & Hb2 & Ht2);
      [done|done|cbn [length]; rewrite length_replicate; lia|].
    cbn [length] in E2. rewrite E2. cbn [mbind result_bind]. rewrite app_nil_l, length_replicate in Ht2.
    destruct (write_behind b2 (replicate 56 0) (be64enc (count ctx)) Hb2) as (b3 & E3 & Hb3 & Ht3);
      [by rewrite length_replicate|rewrite length_replicate; lia|].
    rewrite length_replicate in E3. cbn [set_sha buf count]. rewrite E3. cbn [mbind result_bind].
    apply full_buffer in Ht3; [|done|rewrite length_app, length_replicate; lia].
    eexists. split; [done|]. cbn [set_sha state]. by rewrite Ht3, <- Ht1.
Qed.

(** ** Digests *)

(** A well-formed padded message is whole blocks of bytes. *)
Lemma padded_wf m len8 :
  bytes_wf m → bytes_wf len8 → bytes_wf (padded m len8).
Proof.
  intros Hm Hl. unfold padded, bytes_wf. rewrite Forall_app, Forall_cons, Forall_app.
  split_and!; [done|lia|lia|apply Forall_replicate; lia|done].
Qed.
Lemma absorb_all_ext {St} (f g : St → list Z → St) (P : St → Prop) st data :
  (∀ st b, P st → bytes_wf b → length b = 64%nat → f st b = g st b ∧ P (g st b)) →
  P st → bytes_wf data → absorb_all f st data = absorb_all g st data.
Proof.
  intros Hfg HP Hd. apply (absorb_ext f g P); [done..|]. pose proof (Nat.div_mod (length data) 64). lia.
Qed.

Lemma MD5_end_digest m ctx :
  md5_after m ctx → bytes_wf m → MD5_end ctx = Ret (Rfc1321.digest m).
Proof.
  intros Ha Hm. destruct (MD5_end_blocks m ctx Ha) as (st & -> & Hst). f_equal.
  unfold Rfc1321.digest. rewrite <- (absorb_all_ext md5_block Rfc1321.compress (λ _, True)).
  - rewrite <- Hst. destruct st as [[[a b] c] d]. by rewrite !le32_bytes.
  - intros st' b _ Hb Hl. split; [by apply md5_block_rfc|done].
  - done.
  - apply padded_wf; [done|apply le_bytes_wf].
Qed.
Lemma SHA256_Final_digest m ctx :
  sha_after m ctx → bytes_wf m → SHA256_Final ctx = Ret (Fips180.digest m).
Proof.
  intros Ha Hm. unfold SHA256_Final. destruct (SHA256_Pad_blocks m ctx Ha) as (ctx' & -> & Hst).
  cbn [mbind result_bind]. f_equal. rewrite be32enc_vect_bytes, Hst. unfold Fips180.digest.
  rewrite <- (absorb_all_ext SHA256_Transform Fips180.compress (λ st, length st = 8%nat)); [done| |done|].
  - intros st' b Hl8 Hb Hl. split; [by apply SHA256_Transform_fips|by apply compress_length].
  - apply padded_wf; [done|apply be_bytes_wf].
Qed.

Lemma MD5_begin_after junk : length junk = 64%nat → md5_after [] (MD5_begin junk).
Proof. by split. Qed.
Lemma SHA256_Init_after junk : length junk = 64%nat → sha_after [] (SHA256_Init junk).
Proof. by split. Qed.

(** Feeding the chunks of a message one by one. *)
Fixpoint feed {C} (update : list Z → C → result C) (chunks : list (list Z)) (ctx : C) : result C :=
  match chunks with
  | [] => Ret ctx
  | x :: chunks => ctx ← update x ctx; feed update chunks ctx
  end.
Lemma feed_after {C} (update : list Z → C → result C) (after : list Z → C → Prop) (ok : list Z → Prop) m ctx chunks :
  (∀ m x ctx, ok x → after m ctx → ∃ ctx', update x ctx = Ret ctx' ∧ after (m ++ x) ctx') →
  after m ctx → Forall ok chunks →
  ∃ ctx', feed update chunks ctx = Ret ctx' ∧ after (m ++ mjoin chunks) ctx'.
Proof.
  intros Hup Ha Hok. revert m ctx Ha. induction Hok as [|x chunks Hx Hok IH]; intros m ctx Ha; cbn [feed].
  - exists ctx. by rewrite app_nil_r.
  - destruct (Hup m x ctx Hx Ha) as (ctx1 & -> & Ha1). cbn [mbind result_bind].
    destruct (IH _ _ Ha1) as (ctx2 & E & Ha2). exists ctx2. split; [done|]. by rewrite <- app_assoc in Ha2.
Qed.

(** The reads of [hash_buf] are chunks of the file. *)
Fixpoint pieces (n : nat) (f : list Z) : list (list Z) :=
  match n with
  | O => []
  | S n => match take 1024 f with [] => [] | x => x :: pieces n (drop 1024 f) end
  end.
Lemma hash_loop_feed {C} (update : list Z → C → result C) n f ctx :
  (length f < n)%nat → hash_loop update n f ctx = feed update (pieces n f) ctx.
Proof.
  revert f ctx. induction n as [|n IH]; intros f ctx Hn; [lia|]. cbn [hash_loop pieces].
  destruct f as [|b f]; [done|]. change (take 1024 (b :: f)) with (b :: take 1023 f). cbn [feed].
  destruct (update (b :: take 1023 f) ctx); cbn [mbind result_bind]; [|done].
  apply IH. rewrite length_drop. cbn [length] in *. lia.
Qed.
Lemma pieces_join n f : (length f < n)%nat → mjoin (pieces n f) = f ∧ Forall (λ x, length x ≤ 1024)%nat (pieces n f).
Proof.
  revert f. induction n as [|n IH]; intros f Hn; [lia|]. cbn [pieces].
  destruct f as [|b f]; [split; [done|constructor]|]. change (take 1024 (b :: f)) with (b :: take 1023 f).
  destruct (IH (drop 1024 (b :: f))) as [Hj Hl]; [rewrite length_drop; cbn [length] in *; lia|].
  split.
  - change (mjoin ((b :: take 1023 f) :: pieces n (drop 1024 (b :: f))))
      with (b :: (take 1023 f ++ mjoin (pieces n (drop 1024 (b :: f))))).
    rewrite Hj. change (drop 1024 (b :: f)) with (drop 1023 f). by rewrite take_drop.
  - constructor; [cbn [length]; rewrite length_take; lia|done].
Qed.

Lemma md5_file_done junk f :
  length junk = 64%nat → bytes_wf f →
  md5_hash junk f = Ret (Some (mjoin (fmt_hex false 2 <$> Rfc1321.digest f))).
Proof.
  intros Hj Hf. unfold md5_hash. rewrite hash_loop_feed by lia.
  destruct (pieces_join (Datatypes.S (length f)) f ltac:(lia)) as [Hjoin _].
  destruct (feed_after MD5_hash md5_after (λ _, True) [] (MD5_begin junk) (pieces (Datatypes.S (length f)) f))
    as (ctx & -> & Ha); [intros; by apply MD5_hash_after|by apply MD5_begin_after|by apply Forall_true|].
  cbn [mbind result_bind]. rewrite app_nil_l, Hjoin in Ha. rewrite (MD5_end_digest f) by done. cbn [mbind result_bind].
  unfold hash_string. replace (length (Rfc1321.digest f)) with 16%nat; [done|].
  unfold Rfc1321.digest. destruct (absorb_all _ _ _) as [[[a b] c] d]. by rewrite !length_app, !length_le_bytes.
Qed.
Lemma sha256_file_done {A : Arch} junk f :
  length junk = 64%nat → bytes_wf f →
  sha256_hash junk f = Ret (Some (mjoin (fmt_hex false 2 <$> Fips180.digest f))).
Proof.
  intros Hj Hf. unfold sha256_hash. rewrite hash_loop_feed by lia.
  destruct (pieces_join (Datatypes.S (length f)) f ltac:(lia)) as [Hjoin Hlen].
  destruct (feed_after SHA256_Update sha_after (λ x, length x ≤ 1024)%nat [] (SHA256_Init junk)
    (pieces (Datatypes.S (length f)) f)) as (ctx & -> & Ha); [|by apply SHA256_Init_after|done|].
  { intros m x ctx Hx Ha. apply SHA256_Update_after; [done|]. destruct long_bits_ok as [-> | ->]; lia. }
  cbn [mbind result_bind]. rewrite app_nil_l, Hjoin in Ha. rewrite (SHA256_Final_digest f) by done.
  cbn [mbind result_bind]. unfold hash_string. replace (length (Fips180.digest f)) with 32%nat; [done|].
  unfold Fips180.digest. assert (∀ n st d, length st = 8%nat → length (absorb Fips180.compress n st d) = 8%nat) as H8.
  { induction n as [|n IH]; intros st d Hst; [done|]. cbn [absorb]. by apply IH, compress_length. }
  specialize (H8 (length (padded f (be_bytes 8 (8 * Z.of_nat (length f)))) / 64)%nat Fips180.init
    (padded f (be_bytes 8 (8 * Z.of_nat (length f)))) eq_refl).
  unfold absorb_all. revert H8. generalize (absorb Fips180.compress (length (padded f (be_bytes 8 (8 * Z.of_nat (length f)))) / 64)
    Fips180.init (padded f (be_bytes 8 (8 * Z.of_nat (length f))))).
  intros st. by destruct st as [|x0 [|x1 [|x2 [|x3 [|x4 [|x5 [|x6 [|x7 [|? ?]]]]]]]]].
Qed.

(** ** Properties *)

(** MD5 of mkhash is RFC 1321, for every split of a message into chunks:
    the updates and the end succeed, within the context's buffer, and give the
    digest of the whole message. *)
Theorem md5_stream junk chunks :
  length junk = 64%nat → Forall bytes_wf chunks →
  (ctx ← feed MD5_hash chunks (MD5_begin junk); MD5_end ctx) = Ret (Rfc1321.digest (mjoin chunks)).
Proof.
  intros Hj Hwf.
  destruct (feed_after MD5_hash md5_after (λ _, True) [] (MD5_begin junk) chunks) as (ctx & -> & Ha);
    [intros; by apply MD5_hash_after|by apply MD5_begin_after|by apply Forall_true|].
  cbn [mbind result_bind]. apply MD5_end_digest; [done|]. by apply Forall_join.
Qed.

Lemma md5_stream_witness :
  (ctx ← feed MD5_hash [cs "message "; cs ""; cs "digest"] (MD5_begin (replicate 64 7)); MD5_end ctx) =
    Ret (Rfc1321.digest (mjoin [cs "message "; cs ""; cs "digest"])).
Proof.
  apply (md5_stream (replicate 64 7) [cs "message "; cs ""; cs "digest"]); [done|].
  apply (bool_decide_unpack _). vm_compute. exact Logic.I.
Defined.

(** SHA-256 of mkhash is FIPS 180-4, for every split of a message into
    chunks whose length in bits fits the target's [size_t]. *)
Theorem sha256_stream {A : Arch} junk chunks :
  length junk = 64%nat → Forall bytes_wf chunks →
  Forall (λ x, 8 * Z.of_nat (length x) < 2 ^ long_bits) chunks →
  (ctx ← feed SHA256_Update chunks (SHA256_Init junk); SHA256_Final ctx) = Ret (Fips180.digest (mjoin chunks)).
Proof.
  intros Hj Hwf Hlen.
  destruct (feed_after SHA256_Update sha_after (λ x, 8 * Z.of_nat (length x) < 2 ^ long_bits) []
    (SHA256_Init junk) chunks) as (ctx & -> & Ha);
    [intros; by apply SHA256_Update_after|by apply SHA256_Init_after|done|].
  cbn [mbind result_bind]. apply SHA256_Final_digest; [done|]. by apply Forall_join.
Qed.

Lemma sha256_stream_witness :
  (ctx ← feed (SHA256_Update (A := mipsel)) [cs "message "; cs ""; cs "digest"] (SHA256_Init (replicate 64 7));
   SHA256_Final ctx) = Ret (Fips180.digest (mjoin [cs "message "; cs ""; cs "digest"])).
Proof.
  apply (sha256_stream (A := mipsel) (replicate 64 7) [cs "message "; cs ""; cs "digest"]); [done| |].
  - apply (bool_decide_unpack _). vm_compute. exact Logic.I.
  - apply (bool_decide_unpack _). vm_compute. exact Logic.I.
Defined.

(** the text of a file's hash is the hexadecimal digest of its contents,
    whatever its size. *)
Theorem file_hashes {A : Arch} junk f :
  length junk = 64%nat → bytes_wf f →
  md5_hash junk f = Ret (Some (mjoin (fmt_hex false 2 <$> Rfc1321.digest f))) ∧
  sha256_hash junk f = Ret (Some (mjoin (fmt_hex false 2 <$> Fips180.digest f))).
Proof. intros. split; [by apply md5_file_done|by apply sha256_file_done]. Qed.

Lemma file_hashes_witness :
  md5_hash (replicate 64 7) (cs "abc") = Ret (Some (mjoin (fmt_hex false 2 <$> Rfc1321.digest (cs "abc")))) ∧
  sha256_hash (A := mipsel) (replicate 64 7) (cs "abc") =
    Ret (Some (mjoin (fmt_hex false 2 <$> Fips180.digest (cs "abc")))).
Proof.
  apply (file_hashes (A := mipsel) (replicate 64 7) (cs "abc")); [done|].
  apply (bool_decide_unpack _). vm_compute. exact Logic.I.
Defined.

(** The line "mkhash -n" prints for a file. *)
Definition named_line (digest : list Z → list Z) (name bytes : list Z) : list Z :=
  mjoin (fmt_hex false 2 <$> digest bytes) ++ [32] ++ name ++ [10].

Lemma hash_files_good {A : Arch} junk fs stdin names bytes :
  length junk = 64%nat →
  Forall2 (λ n b, n ≠ cs "-" ∧ fs n = File b ∧ bytes_wf b) names bytes → ∀ rest,
  hash_files fs stdin (HashType "sha256" (sha256_hash junk)) (names ++ rest) true false =
  ('(ret, out, err) ← hash_files fs stdin (HashType "sha256" (sha256_hash junk)) rest true false;
   Ret (ret, mjoin (zip_with (named_line Fips180.digest) names bytes) ++ out, err)).
Proof.
  intros Hj Hall rest. induction Hall as [|n b names bytes (Hn & Hfs & Hb) Hall IH].
  - cbn [app zip_with]. by destruct (hash_files _ _ _ rest _ _) as [[[??]?]|].
  - cbn [app hash_files]. unfold hash_file at 1. rewrite bool_decide_eq_false_2, Hfs by done. cbn [ht_func].
    rewrite sha256_file_done by done. cbn [mbind result_bind]. rewrite Z.eqb_refl, IH.
    destruct (hash_files _ _ _ rest _ _) as [[[ret out] err]|]; cbn [mbind result_bind]; [|done].
    do 3 f_equal.
    change (mjoin (zip_with (named_line Fips180.digest) (n :: names) (b :: bytes)))
      with (named_line Fips180.digest n b ++ mjoin (zip_with (named_line Fips180.digest) names bytes)).
    unfold named_line at 2. by rewrite <- !app_assoc.
Qed.

(** C13: "mkhash -n sha256 files" prints a line per file with its digest and
    name and exits with 0 when every file can be read; it stops with 1 at the
    first that is a directory or missing, after the lines before it. *)
Theorem mkhash_command {A : Arch} junk fs stdin names bytes bad more :
  length junk = 64%nat → names ≠ [] →
  Forall2 (λ n b, n ≠ cs "-" ∧ fs n = File b ∧ bytes_wf b) names bytes →
  (bad ≠ cs "-" ∧ (fs bad = Dir ∨ ∃ stale, fs bad = Missing stale)) →
  let lines := mjoin (zip_with (named_line Fips180.digest) names bytes) in
  main junk fs stdin (Some (true, false)) (cs "sha256" :: names) = Ret (0, lines, []) ∧
  ∃ d, main junk fs stdin (Some (true, false)) (cs "sha256" :: names ++ bad :: more) = Ret (1, lines, [d]).
Proof.
  intros Hj Hne Hall [Hb1 Hb2] lines.
  assert (∀ args, args ≠ [] → main junk fs stdin (Some (true, false)) (cs "sha256" :: args) =
    hash_files fs stdin (HashType "sha256" (sha256_hash junk)) args true false) as Hmain.
  { intros args Ha. by destruct args. }
  split.
  - rewrite Hmain by done. rewrite <- (app_nil_r names), (hash_files_good _ _ _ _ bytes) by done.
    cbn [hash_files mbind result_bind]. by rewrite app_nil_r.
  - assert (∃ d, hash_file fs stdin (HashType "sha256" (sha256_hash junk)) (Some bad) true false = Ret (1, [], [d]))
      as [d Hd].
    { unfold hash_file. rewrite bool_decide_eq_false_2 by done. destruct Hb2 as [-> | [[] ->]]; eauto. }
    exists d. rewrite Hmain by (intros [_ ?]%app_eq_nil; done). rewrite (hash_files_good _ _ _ _ bytes) by done.
    cbn [hash_files]. rewrite Hd. cbn. by rewrite app_nil_r.
Qed.

Definition demo_fs (name : list Z) : node :=
  if bool_decide (name = cs "a") then File (cs "abc")
  else if bool_decide (name = cs "d") then Dir else Missing false.

Lemma mkhash_command_witness :
  let lines := mjoin (zip_with (named_line Fips180.digest) [cs "a"] [cs "abc"]) in
  main (A := mipsel) (replicate 64 7) demo_fs [] (Some (true, false)) [cs "sha256"; cs "a"] =
    Ret (0, lines, []) ∧
  ∃ d, main (A := mipsel) (replicate 64 7) demo_fs [] (Some (true, false)) [cs "sha256"; cs "a"; cs "d"; cs "x"] =
    Ret (1, lines, [d]).
Proof.
  apply (mkhash_command (A := mipsel) (replicate 64 7) demo_fs [] [cs "a"] [cs "abc"] (cs "d") [cs "x"]).
  - done.
  - done.
  - apply Forall2_cons. split; [|constructor]. split_and!; [done|done|].
    apply (bool_decide_unpack _). vm_compute. exact Logic.I.
  - split; [done|]. by left.
Defined.


End MkhashProps.
