(* ===== verification/KconfigExpr.v ===== *)
(** * Kconfig dependency expressions (scripts/config/expr.c)

    The expression trees of the configuration language, their evaluation and
    the simplifier that rewrites them: [expr_eq] and the elimination of
    operands two expressions share, the y/n elimination, the joining of
    redundant operands, the rewriting of negations and comparisons.

    A [struct expr *] is a value of [expr], the pointer NULL one of its
    constructors: an expression is owned by one pointer (every function of
    the file frees what it replaces), so rewriting in place is rewriting the
    value.  Where a function holds two pointers into one tree
    ([expr_eliminate_dups1]) the tree is one value and the pointers are paths
    into it.  The symbols' values are those [sym_calc_value] has left in
    [curr]: evaluation here reads them, as the source does for a symbol with
    SYMBOL_VALID set. *)

From S2P Require Import Prelude CLib.
Open Scope Z_scope.

Module KconfigExpr.

(** ** Data (expr.h) *)

Inductive tristate := no | mod_ | yes.
#[export] Instance tristate_eq_dec : EqDecision tristate.
Proof. solve_decision. Defined.

Definition tri_val (t : tristate) : Z := match t with no => 0 | mod_ => 1 | yes => 2 end.

Definition EXPR_OR (a b : tristate) : tristate := if tri_val b <? tri_val a then a else b.
Definition EXPR_AND (a b : tristate) : tristate := if tri_val a <? tri_val b then a else b.
Definition EXPR_NOT (a : tristate) : tristate :=
  match 2 - tri_val a with 0 => no | 1 => mod_ | _ => yes end.

Inductive symbol_type := S_UNKNOWN | S_BOOLEAN | S_TRISTATE | S_INT | S_HEX | S_STRING.
#[export] Instance symbol_type_eq_dec : EqDecision symbol_type.
Proof. solve_decision. Defined.

(** The address of a symbol: one of the three constants, or the n-th symbol
    of the symbol table. *)
Inductive symbol := symbol_no | symbol_mod | symbol_yes | Sym (n : nat).
#[export] Instance symbol_eq_dec : EqDecision symbol.
Proof. solve_decision. Defined.

(** The fields of [struct symbol] that expressions read. *)
Record sym_data := {
  name : option (list Z);
  type : symbol_type;
  flags : Z;
  curr_val : list Z;
  curr_tri : tristate
}.
Definition SYMBOL_CONST : Z := 1.
Definition SYMBOL_VALID : Z := 128.

Class SymTab := {
  sym_tab : list sym_data;
  modules_sym : symbol
}.

Definition const_data (s : string) (t : tristate) : sym_data :=
  {| name := Some (cs s); type := S_UNKNOWN; flags := SYMBOL_CONST .| SYMBOL_VALID;
     curr_val := cs s; curr_tri := t |}.
Definition sym_of `{SymTab} (s : symbol) : sym_data :=
  match s with
  | symbol_no => const_data "n" no
  | symbol_mod => const_data "m" mod_
  | symbol_yes => const_data "y" yes
  | Sym n => nth n sym_tab
      {| name := None; type := S_UNKNOWN; flags := 0; curr_val := []; curr_tri := no |}
  end.

Inductive expr_type :=
  | E_NONE | E_OR | E_AND | E_NOT | E_EQUAL | E_UNEQUAL | E_LTH | E_LEQ | E_GTH | E_GEQ
  | E_LIST | E_SYMBOL | E_RANGE.
#[export] Instance expr_type_eq_dec : EqDecision expr_type.
Proof. solve_decision. Defined.

Inductive binop := OR | AND.
#[export] Instance binop_eq_dec : EqDecision binop.
Proof. solve_decision. Defined.
Inductive relop := EQUAL | UNEQUAL | LTH | LEQ | GTH | GEQ.
#[export] Instance relop_eq_dec : EqDecision relop.
Proof. solve_decision. Defined.

(** The members of the union that a node of each type holds. *)
Inductive expr :=
  | NULL
  | NONE
  | BIN (t : binop) (left right : expr)
  | NOT (left : expr)
  | COMP (t : relop) (left right : symbol)
  | LIST (left : expr) (right : symbol)
  | SYMBOL (left : symbol)
  | RANGE (left right : symbol).
#[export] Instance expr_eq_dec : EqDecision expr.
Proof. solve_decision. Defined.

Definition bin_type (t : binop) : expr_type := match t with OR => E_OR | AND => E_AND end.
Definition rel_type (t : relop) : expr_type :=
  match t with
  | EQUAL => E_EQUAL | UNEQUAL => E_UNEQUAL | LTH => E_LTH | LEQ => E_LEQ
  | GTH => E_GTH | GEQ => E_GEQ
  end.
(** [e->type] of a node. *)
Definition etype (e : expr) : expr_type :=
  match e with
  | NULL | NONE => E_NONE
  | BIN t _ _ => bin_type t
  | NOT _ => E_NOT
  | COMP t _ _ => rel_type t
  | LIST _ _ => E_LIST
  | SYMBOL _ => E_SYMBOL
  | RANGE _ _ => E_RANGE
  end.
Definition deref (e : expr) : result expr :=
  match e with NULL => Fault NullDeref | _ => Ret e end.

(** ** Construction *)

Definition expr_alloc_symbol (s : symbol) : expr := SYMBOL s.
Definition expr_alloc_one (e : expr) : expr := NOT e.
Definition expr_alloc_two (t : binop) (e1 e2 : expr) : expr := BIN t e1 e2.
Definition expr_alloc_comp (t : relop) (s1 s2 : symbol) : expr := COMP t s1 s2.
Definition expr_alloc_and (e1 e2 : expr) : expr :=
  match e1, e2 with NULL, _ => e2 | _, NULL => e1 | _, _ => expr_alloc_two AND e1 e2 end.
Definition expr_alloc_or (e1 e2 : expr) : expr :=
  match e1, e2 with NULL, _ => e2 | _, NULL => e1 | _, _ => expr_alloc_two OR e1 e2 end.

(** The right member of an E_LIST node is a symbol, which [expr_copy] reads
    as an expression. *)
Fixpoint expr_copy (org : expr) : result expr :=
  match org with
  | NULL => Ret NULL
  | SYMBOL s => Ret (SYMBOL s)
  | NOT l => l ← expr_copy l; Ret (NOT l)
  | COMP t a b => Ret (COMP t a b)
  | BIN t l r => l ← expr_copy l; r ← expr_copy r; Ret (BIN t l r)
  | LIST l _ => _ ← expr_copy l; Fault BadUnion
  | NONE | RANGE _ _ => Ret NULL
  end.

(** The number of nodes [expr_free] gives back; the operands of a list are
    not followed. *)
Fixpoint expr_free (e : expr) : nat :=
  match e with
  | NULL => 0
  | NOT l => S (expr_free l)
  | BIN _ l r => S (expr_free l + expr_free r)
  | SYMBOL _ | COMP _ _ _ | NONE | LIST _ _ | RANGE _ _ => 1
  end.

Definition is_sym (e : expr) (s : symbol) : bool :=
  match e with SYMBOL s' => bool_decide (s' = s) | _ => false end.
Definition expr_is_yes (e : expr) : bool :=
  match e with NULL => true | _ => is_sym e symbol_yes end.
Definition expr_is_no (e : expr) : bool :=
  match e with NULL => false | _ => is_sym e symbol_no end.

(** ** y/n elimination *)

Fixpoint expr_eliminate_yn (e : expr) : result expr :=
  match e with
  | BIN AND l r =>
      l ← expr_eliminate_yn l;
      r ← expr_eliminate_yn r;
      l ← deref l;
      if is_sym l symbol_no then Ret (SYMBOL symbol_no)
      else if is_sym l symbol_yes then deref r
      else
        r ← deref r;
        if is_sym r symbol_no then Ret (SYMBOL symbol_no)
        else if is_sym r symbol_yes then Ret l
        else Ret (BIN AND l r)
  | BIN OR l r =>
      l ← expr_eliminate_yn l;
      r ← expr_eliminate_yn r;
      l ← deref l;
      if is_sym l symbol_no then deref r
      else if is_sym l symbol_yes then Ret (SYMBOL symbol_yes)
      else
        r ← deref r;
        if is_sym r symbol_no then Ret l
        else if is_sym r symbol_yes then Ret (SYMBOL symbol_yes)
        else Ret (BIN OR l r)
  | _ => Ret e
  end.

(** ** Equality, and elimination of common operands *)

(** The operands of a node of type [type]; any other node is a leaf. *)
Definition operands (type : binop) (e : expr) : option (expr * expr) :=
  match e with
  | BIN t l r => if decide (t = type) then Some (l, r) else None
  | _ => None
  end.
(** What a removed operand of [type] is replaced with. *)
Definition neutral (type : binop) : symbol :=
  match type with OR => symbol_no | AND => symbol_yes end.

(** [expr_eliminate_eq] over a given [__expr_eliminate_eq]; [c] is the
    counter [trans_count]. *)
Definition eliminate_eq_with
    (elim : binop → expr → expr → Z → result (expr * expr * Z)) (e1 e2 : expr) (c : Z) :
    result (expr * expr * Z) :=
  match e1, e2 with
  | NULL, _ | _, NULL => Ret (e1, e2, c)
  | _, _ =>
      '(e1, e2, c) ← match e1 with BIN t _ _ => elim t e1 e2 c | _ => Ret (e1, e2, c) end;
      '(e1, e2, c) ←
        (if decide (etype e1 = etype e2) then Ret (e1, e2, c)
         else match e2 with BIN t _ _ => elim t e1 e2 c | _ => Ret (e1, e2, c) end);
      e1 ← expr_eliminate_yn e1;
      e2 ← expr_eliminate_yn e2;
      Ret (e1, e2, c)
  end.

(** [expr_eq] and [__expr_eliminate_eq] call each other: the second one is
    defined over the first; [n] bounds the depth of the calls. *)
Fixpoint __expr_eliminate_eq (eq : nat → expr → expr → result bool) (n : nat) (type : binop) (e1 e2 : expr)
    (c : Z) {struct n} : result (expr * expr * Z) :=
  match n with
  | O => Fault OutOfFuel
  | S n =>
      e1 ← deref e1;
      match operands type e1 with
      | Some (l, r) =>
          '(l, e2, c) ← __expr_eliminate_eq eq n type l e2 c;
          '(r, e2, c) ← __expr_eliminate_eq eq n type r e2 c;
          Ret (BIN type l r, e2, c)
      | None =>
          e2 ← deref e2;
          match operands type e2 with
          | Some (l, r) =>
              '(e1, l, c) ← __expr_eliminate_eq eq n type e1 l c;
              '(e1, r, c) ← __expr_eliminate_eq eq n type e1 r c;
              Ret (e1, BIN type l r, c)
          | None =>
              if (is_sym e1 symbol_yes && is_sym e2 symbol_yes)
                 || (is_sym e1 symbol_no && is_sym e2 symbol_no)
              then Ret (e1, e2, c)
              else
                b ← eq n e1 e2;
                if (b : bool) then
                  Ret (expr_alloc_symbol (neutral type), expr_alloc_symbol (neutral type), c + 1)
                else Ret (e1, e2, c)
          end
      end
  end.
Fixpoint expr_eq_fuel (n : nat) (e1 e2 : expr) {struct n} : result bool :=
  match n with
  | O => Fault OutOfFuel
  | S n =>
      match e1, e2 with
      | NULL, _ | _, NULL => Ret (expr_is_yes e1 && expr_is_yes e2)
      | COMP t1 a1 b1, COMP t2 a2 b2 =>
          Ret (bool_decide (t1 = t2) && bool_decide (a1 = a2) && bool_decide (b1 = b2))
      | SYMBOL s1, SYMBOL s2 => Ret (bool_decide (s1 = s2))
      | NOT l1, NOT l2 => expr_eq_fuel n l1 l2
      | BIN t1 _ _, BIN t2 _ _ =>
          if decide (t1 = t2) then
            e1 ← expr_copy e1;
            e2 ← expr_copy e2;
            '(e1, e2, _) ← eliminate_eq_with (__expr_eliminate_eq expr_eq_fuel n) e1 e2 0;
            e1 ← deref e1;
            match e1 with
            | SYMBOL s1 =>
                e2 ← deref e2;
                Ret match e2 with SYMBOL s2 => bool_decide (s1 = s2) | _ => false end
            | _ => Ret false
            end
          else Ret false
      | _, _ => Ret false
      end
  end.

Fixpoint size (e : expr) : nat :=
  match e with
  | BIN _ l r => S (size l + size r)
  | NOT l | LIST l _ => S (size l)
  | _ => 1
  end.
(** Calls that do not go down a tree alternate between the two functions. *)
Definition eq_fuel (e1 e2 : expr) : nat := 2 * (size e1 + size e2).
Definition expr_eq (e1 e2 : expr) : result bool := expr_eq_fuel (eq_fuel e1 e2) e1 e2.
Definition expr_eliminate_eq (e1 e2 : expr) (c : Z) : result (expr * expr * Z) :=
  eliminate_eq_with (__expr_eliminate_eq expr_eq_fuel (eq_fuel e1 e2)) e1 e2 c.

Section tab.
Context `{SymTab}.

(** ** Boolean context *)

Fixpoint expr_trans_bool (e : expr) : expr :=
  match e with
  | BIN t l r => BIN t (expr_trans_bool l) (expr_trans_bool r)
  | NOT l => NOT (expr_trans_bool l)
  | COMP UNEQUAL a b =>
      if decide (type (sym_of a) = S_TRISTATE) then
        if decide (b = symbol_no) then SYMBOL a else e
      else e
  | _ => e
  end.

(** ** Joining two operands *)

Definition is_comp (e : expr) (t : relop) (s : symbol) : bool :=
  match e with COMP t' _ b => bool_decide (t' = t) && bool_decide (b = s) | _ => false end.
Definition is_etype (e : expr) (t : expr_type) : bool := bool_decide (etype e = t).
(** One operand is (in)compared with [s1], the other with [s2]. *)
Definition either_comp (e1 e2 : expr) (t : relop) (s1 s2 : symbol) : bool :=
  (is_comp e1 t s1 && is_comp e2 t s2) || (is_comp e1 t s2 && is_comp e2 t s1).
Definition not_symbol (e : expr) : bool :=
  match e with NOT (SYMBOL _) => true | _ => false end.

(** The types of operands that are looked at. *)
Definition joinable (e : expr) : bool :=
  is_etype e E_EQUAL || is_etype e E_UNEQUAL || is_etype e E_SYMBOL || is_etype e E_NOT.
(** The symbol of the first operand; [None] is the source's [return NULL]. *)
Definition join_sym1 (e : expr) : result (option symbol) :=
  match e with
  | NOT tmp =>
      match tmp with
      | NULL => Fault NullDeref
      | COMP EQUAL s _ | COMP UNEQUAL s _ | SYMBOL s => Ret (Some s)
      | _ => Ret None
      end
  | COMP _ s _ | SYMBOL s => Ret (Some s)
  | _ => Ret None
  end.
Definition join_sym2 (e : expr) : result (option symbol) :=
  match e with
  | NOT tmp =>
      match tmp with
      | NULL => Fault NullDeref
      | SYMBOL s => Ret (Some s)
      | _ => Ret None
      end
  | COMP _ s _ | SYMBOL s => Ret (Some s)
  | _ => Ret None
  end.

(** The guards that [expr_join_or] and [expr_join_and] share: the symbol both
    operands are about, when it is a boolean or a tristate. *)
Definition join_sym (e1 e2 : expr) : result (option symbol) :=
  if negb (joinable e1) then Ret None
  else if negb (joinable e2) then Ret None
  else
    sym1 ← join_sym1 e1;
    match sym1 with
    | None => Ret None
    | Some sym1 =>
        sym2 ← join_sym2 e2;
        match sym2 with
        | None => Ret None
        | Some sym2 =>
            if negb (bool_decide (sym1 = sym2)) then Ret None
            else match type (sym_of sym1) with
                 | S_BOOLEAN | S_TRISTATE => Ret (Some sym1)
                 | _ => Ret None
                 end
        end
    end.

Definition expr_join_or (e1 e2 : expr) : result expr :=
  b ← expr_eq e1 e2;
  if (b : bool) then expr_copy e1
  else
    s ← join_sym e1 e2;
    match s with
    | None => Ret NULL
    | Some sym1 =>
        let tri := bool_decide (type (sym_of sym1) = S_TRISTATE) in
        if tri && either_comp e1 e2 EQUAL symbol_yes symbol_mod then
          Ret (expr_alloc_comp UNEQUAL sym1 symbol_no)
        else if tri && either_comp e1 e2 EQUAL symbol_yes symbol_no then
          Ret (expr_alloc_comp UNEQUAL sym1 symbol_mod)
        else if tri && either_comp e1 e2 EQUAL symbol_mod symbol_no then
          Ret (expr_alloc_comp UNEQUAL sym1 symbol_yes)
        else if bool_decide (type (sym_of sym1) = S_BOOLEAN)
                && ((not_symbol e1 && is_etype e2 E_SYMBOL)
                    || (not_symbol e2 && is_etype e1 E_SYMBOL)) then
          Ret (expr_alloc_symbol symbol_yes)
        else Ret NULL
    end.

(** A bare symbol next to the comparison [t] with [s]. *)
Definition sym_and_comp (e1 e2 : expr) (t : relop) (s : symbol) : bool :=
  (is_etype e1 E_SYMBOL && is_comp e2 t s) || (is_etype e2 E_SYMBOL && is_comp e1 t s).
Definition is_const (s : symbol) : bool := negb (flags (sym_of s) .& SYMBOL_CONST =? 0).
(** (a='b') && (a!='c') *)
Definition join_eq_neq (sym1 b c : symbol) : option expr :=
  if is_const c && is_const b then
    Some (if decide (b = c) then expr_alloc_symbol symbol_no else expr_alloc_comp EQUAL sym1 b)
  else None.

Definition expr_join_and (e1 e2 : expr) : result expr :=
  b ← expr_eq e1 e2;
  if (b : bool) then expr_copy e1
  else
    s ← join_sym e1 e2;
    match s with
    | None => Ret NULL
    | Some sym1 =>
        if sym_and_comp e1 e2 EQUAL symbol_yes then Ret (expr_alloc_comp EQUAL sym1 symbol_yes)
        else if sym_and_comp e1 e2 UNEQUAL symbol_no then Ret (expr_alloc_symbol sym1)
        else if sym_and_comp e1 e2 UNEQUAL symbol_mod then
          Ret (expr_alloc_comp EQUAL sym1 symbol_yes)
        else if bool_decide (type (sym_of sym1) = S_TRISTATE) then
          match
            match e1, e2 with
            | COMP EQUAL _ b, COMP UNEQUAL _ c => join_eq_neq sym1 b c
            | COMP UNEQUAL _ c, COMP EQUAL _ b => join_eq_neq sym1 b c
            | _, _ => None
            end
          with
          | Some e => Ret e
          | None =>
              if either_comp e1 e2 UNEQUAL symbol_yes symbol_no then
                Ret (expr_alloc_comp EQUAL sym1 symbol_mod)
              else if either_comp e1 e2 UNEQUAL symbol_yes symbol_mod then
                Ret (expr_alloc_comp EQUAL sym1 symbol_no)
              else if either_comp e1 e2 UNEQUAL symbol_mod symbol_no then
                Ret (expr_alloc_comp EQUAL sym1 symbol_yes)
              else Ret NULL
          end
        else Ret NULL
    end.

(** ** Elimination of duplicate operands *)

(** A link of the tree below a pointer: [false] goes left, [true] right. *)
Definition path : Type := list bool.
Fixpoint sub (t : expr) (p : path) {struct p} : expr :=
  match p, t with
  | [], _ => t
  | d :: p, BIN _ l r => sub (if d then r else l) p
  | _, _ => NULL
  end.
Fixpoint put (t : expr) (p : path) (x : expr) {struct p} : expr :=
  match p, t with
  | [], _ => x
  | d :: p, BIN o l r => if d then BIN o l (put r p x) else BIN o (put l p x) r
  | _, _ => t
  end.

(** [p1] and [p2] are the links [ep1] and [ep2] of the tree [t]; the nodes
    they lead to are the same exactly when the links are. *)
Fixpoint expr_eliminate_dups1 (n : nat) (type : binop) (t : expr) (p1 p2 : path) (c : Z) :
    result (expr * Z) :=
  match n with
  | O => Fault OutOfFuel
  | S n =>
      e1 ← deref (sub t p1);
      match operands type e1 with
      | Some _ =>
          '(t, c) ← expr_eliminate_dups1 n type t (p1 ++ [false]) p2 c;
          expr_eliminate_dups1 n type t (p1 ++ [true]) p2 c
      | None =>
          e2 ← deref (sub t p2);
          match operands type e2 with
          | Some _ =>
              '(t, c) ← expr_eliminate_dups1 n type t p1 (p2 ++ [false]) c;
              expr_eliminate_dups1 n type t p1 (p2 ++ [true]) c
          | None =>
              if decide (p1 = p2) then Ret (t, c)
              else
                '(e1, c) ←
                  match e1 with
                  | BIN t1 _ _ => expr_eliminate_dups1 n t1 e1 [] [] c
                  | _ => Ret (e1, c)
                  end;
                let t := put t p1 e1 in
                tmp ← match type with
                      | OR => expr_join_or e1 e2
                      | AND => expr_join_and e1 e2
                      end;
                match tmp with
                | NULL => Ret (t, c)
                | _ => Ret (put (put t p1 (expr_alloc_symbol (neutral type))) p2 tmp, c + 1)
                end
          end
      end
  end.

(** Enough depth: twice the tree for the walk, and again for the operands. *)
Definition dups_fuel (t : expr) : nat := size t * (size t + 2).

(** The passes of the while loop. *)
Fixpoint dups_loop (n : nat) (e : expr) : result expr :=
  match n with
  | O => Fault OutOfFuel
  | S n =>
      '(e, trans_count) ←
        match e with
        | BIN t _ _ => expr_eliminate_dups1 (dups_fuel e) t e [] [] 0
        | _ => Ret (e, 0)
        end;
      if trans_count =? 0 then Ret e
      else e ← expr_eliminate_yn e; dups_loop n e
  end.
Definition expr_eliminate_dups (e : expr) : result expr :=
  match e with NULL => Ret NULL | _ => dups_loop (S (size e)) e end.

(** ** Rewriting negations and comparisons *)

(** Comparisons of a boolean symbol with a constant. *)
Definition transform_comp (t : relop) (a b : symbol) : expr :=
  match t with
  | EQUAL =>
      if decide (type (sym_of a) ≠ S_BOOLEAN) then COMP t a b
      else if decide (b = symbol_no) then NOT (expr_alloc_symbol a)
      else if decide (b = symbol_mod) then SYMBOL symbol_no
      else if decide (b = symbol_yes) then SYMBOL a
      else COMP t a b
  | UNEQUAL =>
      if decide (type (sym_of a) ≠ S_BOOLEAN) then COMP t a b
      else if decide (b = symbol_no) then SYMBOL a
      else if decide (b = symbol_mod) then SYMBOL symbol_yes
      else if decide (b = symbol_yes) then NOT (expr_alloc_symbol a)
      else COMP t a b
  | _ => COMP t a b
  end.

(** The comparison that [!] of a comparison becomes. *)
Definition negate_rel (t : relop) : relop :=
  match t with
  | EQUAL => UNEQUAL | UNEQUAL => EQUAL
  | LEQ => GTH | GEQ => LTH
  | LTH => GEQ | GTH => LEQ
  end.

Fixpoint transform_fuel (n : nat) (e : expr) : result expr :=
  match n with
  | O => Fault OutOfFuel
  | S n =>
      match e with
      | NULL | NONE | SYMBOL _ | LIST _ _ => Ret e
      | RANGE _ _ => Fault BadUnion
      | COMP t a b => Ret (transform_comp t a b)
      | BIN t l r =>
          l ← transform_fuel n l;
          r ← transform_fuel n r;
          Ret (BIN t l r)
      | NOT l =>
          l ← transform_fuel n l;
          l ← deref l;
          match l with
          | NOT a => transform_fuel n a
          | COMP t a b => Ret (COMP (negate_rel t) a b)
          | BIN OR a b => transform_fuel n (BIN AND (NOT a) (expr_alloc_one b))
          | BIN AND a b => transform_fuel n (BIN OR (NOT a) (expr_alloc_one b))
          | SYMBOL symbol_yes => Ret (SYMBOL symbol_no)
          | SYMBOL symbol_mod => Ret (SYMBOL symbol_mod)
          | SYMBOL symbol_no => Ret (SYMBOL symbol_yes)
          | _ => Ret (NOT l)
          end
      end
  end.

(** Every call is on an expression of smaller weight. *)
Fixpoint weight (e : expr) : nat :=
  match e with
  | BIN _ l r => S (weight l + weight r)
  | NOT l => 2 * weight l
  | COMP _ _ _ => 2
  | _ => 1
  end.
Definition expr_transform (e : expr) : result expr := transform_fuel (S (weight e)) e.

(** ** Queries *)

Fixpoint expr_contains_symbol (dep : expr) (sym : symbol) : bool :=
  match dep with
  | BIN _ l r => expr_contains_symbol l sym || expr_contains_symbol r sym
  | SYMBOL s => bool_decide (s = sym)
  | COMP _ a b => bool_decide (a = sym) || bool_decide (b = sym)
  | NOT l => expr_contains_symbol l sym
  | _ => false
  end.

Fixpoint expr_depends_symbol (dep : expr) (sym : symbol) : bool :=
  match dep with
  | BIN AND l r => expr_depends_symbol l sym || expr_depends_symbol r sym
  | SYMBOL s => bool_decide (s = sym)
  | COMP EQUAL a b =>
      bool_decide (a = sym) && (bool_decide (b = symbol_yes) || bool_decide (b = symbol_mod))
  | COMP UNEQUAL a b => bool_decide (a = sym) && bool_decide (b = symbol_no)
  | _ => false
  end.

(** ** Explicit comparisons *)

(** [if (sym == &symbol_yes) .. if (sym == &symbol_no) ..] of an operator
    node: [e] itself is left for any other symbol. *)
Definition compare_bin (t : binop) (e e1 e2 : expr) (sym : symbol) : expr :=
  let dual := match t with OR => AND | AND => OR end in
  if decide (sym = symbol_yes) then expr_alloc_two t e1 e2
  else if decide (sym = symbol_no) then expr_alloc_two dual e1 e2
  else e.
Definition negate_if (b : bool) (e : expr) : expr := if b then expr_alloc_one e else e.

Fixpoint expr_trans_compare (e : expr) (type : relop) (sym : symbol) : expr :=
  match e with
  | NULL => negate_if (bool_decide (type = UNEQUAL)) (expr_alloc_symbol sym)
  | BIN t l r =>
      let e1 := expr_trans_compare l EQUAL sym in
      let e2 := expr_trans_compare r EQUAL sym in
      negate_if (bool_decide (type = UNEQUAL)) (compare_bin t e e1 e2 sym)
  | NOT l => expr_trans_compare l (if decide (type = EQUAL) then UNEQUAL else EQUAL) sym
  | COMP _ _ _ =>
      let eq := bool_decide (type = EQUAL) in
      match sym with
      | symbol_yes => negate_if (negb eq) e
      | symbol_mod => expr_alloc_symbol (if eq then symbol_no else symbol_yes)
      | symbol_no => negate_if eq e
      | Sym _ => NULL
      end
  | SYMBOL s => expr_alloc_comp type s sym
  | _ => NULL
  end.

(** ** Evaluation *)

Inductive string_value_kind := k_string | k_signed | k_unsigned.
#[export] Instance kind_eq_dec : EqDecision string_value_kind.
Proof. solve_decision. Defined.

(** The signed member of [union string_value], from its 64 bits. *)
Definition s64 (u : Z) : Z := if u <? 2 ^ 63 then u else u - 2 ^ 64.

(** The common part of [strtoll] and [strtoull]: sign, magnitude and tail. *)
Definition strto (s : list Z) (base : Z) : option (bool * Z * list Z) :=
  let s1 := skip_spaces s in
  let '(neg, s2) :=
    match s1 with
    | c :: r => if c =? 45 then (true, r) else if c =? 43 then (false, r) else (false, s1)
    | [] => (false, s1)
    end in
  let '(b, s3) := strtoul_base s2 base in
  match s3 with
  | d :: _ =>
      if is_digit b d then let '(v, r) := digits_run b s3 0 in Some (neg, v, r) else None
  | [] => None
  end.
(** The value, whether [errno] is set, and the tail. *)
Definition strtoll (s : list Z) (base : Z) : Z * bool * list Z :=
  match strto s base with
  | None => (0, false, s)
  | Some (neg, v, r) =>
      let v := if neg then - v else v in
      if v <? - 2 ^ 63 then (- 2 ^ 63, true, r)
      else if 2 ^ 63 - 1 <? v then (2 ^ 63 - 1, true, r)
      else (v, false, r)
  end.
Definition strtoull (s : list Z) (base : Z) : Z * bool * list Z :=
  match strto s base with
  | None => (0, false, s)
  | Some (neg, v, r) =>
      if 2 ^ 64 - 1 <? v then (2 ^ 64 - 1, true, r)
      else (if neg then u64 (- v) else v, false, r)
  end.

Definition strcmp_eq (s1 s2 : list Z) : bool := bool_decide (s1 = s2).
(** The sign of [strcmp]. *)
Fixpoint strcmp (s1 s2 : list Z) : Z :=
  match s1, s2 with
  | [], [] => 0
  | [], _ :: _ => -1
  | _ :: _, [] => 1
  | a :: s1, b :: s2 => if a <? b then -1 else if b <? a then 1 else strcmp s1 s2
  end.

(** The kind of a value, and the 64 bits stored in the union. *)
Definition expr_parse_string (str : list Z) (ty : symbol_type) : string_value_kind * Z :=
  let finish (kind : string_value_kind) (r : Z * bool * list Z) : string_value_kind * Z :=
    let '(v, errno, tail) := r in
    let used := take (length str - length tail) str in
    (if negb errno && bool_decide (tail = [])
        && match last used with Some c => is_digit 16 c | None => false end
     then kind else k_string, u64 v) in
  match ty with
  | S_BOOLEAN | S_TRISTATE =>
      (k_signed, u64 (if strcmp_eq str (cs "n") then 0 else if strcmp_eq str (cs "m") then 1
                      else if strcmp_eq str (cs "y") then 2 else -1))
  | S_INT => finish k_signed (strtoll str 10)
  | S_HEX => finish k_unsigned (strtoull str 16)
  | _ => finish k_signed (strtoll str 0)
  end.

(** [sym_get_string_value] of symbol.c. *)
Definition sym_get_string_value (s : symbol) : list Z :=
  match type (sym_of s) with
  | S_BOOLEAN | S_TRISTATE =>
      match curr_tri (sym_of s) with
      | no => cs "n"
      | mod_ => if decide (curr_tri (sym_of modules_sym) = no) then cs "n" else cs "m"
      | yes => cs "y"
      end
  | _ => curr_val (sym_of s)
  end.

Definition sign_cmp (x y : Z) : Z := (if y <? x then 1 else 0) - (if x <? y then 1 else 0).
(** [res] of [expr_calc_value], for the texts and types of the two symbols. *)
Definition compare_values (str1 : list Z) (ta : symbol_type) (str2 : list Z) (tb : symbol_type) :
    Z :=
  let '((k1, lval), (k2, rval)) :=
    if negb (bool_decide (ta = S_STRING)) || negb (bool_decide (tb = S_STRING))
    then (expr_parse_string str1 ta, expr_parse_string str2 tb)
    else ((k_string, 0), (k_string, 0)) in
  if bool_decide (k1 = k_string) || bool_decide (k2 = k_string) then strcmp str1 str2
  else if bool_decide (k1 = k_unsigned) || bool_decide (k2 = k_unsigned)
  then sign_cmp lval rval
  else sign_cmp (s64 lval) (s64 rval).
Definition calc_res (a b : symbol) : Z :=
  compare_values (sym_get_string_value a) (type (sym_of a))
                 (sym_get_string_value b) (type (sym_of b)).

Definition tri_of (b : bool) : tristate := if b then yes else no.
(** The truth of a comparison with result [res]. *)
Definition rel_value (t : relop) (res : Z) : tristate :=
  match t with
  | EQUAL => if res =? 0 then yes else no
  | GEQ => tri_of (0 <=? res)
  | GTH => tri_of (0 <? res)
  | LEQ => tri_of (res <=? 0)
  | LTH => tri_of (res <? 0)
  | UNEQUAL => if res =? 0 then no else yes
  end.
Fixpoint expr_calc_value (e : expr) : tristate :=
  match e with
  | NULL => yes
  | SYMBOL s => curr_tri (sym_of s)
  | BIN AND l r => EXPR_AND (expr_calc_value l) (expr_calc_value r)
  | BIN OR l r => EXPR_OR (expr_calc_value l) (expr_calc_value r)
  | NOT l => EXPR_NOT (expr_calc_value l)
  | COMP t a b => rel_value t (calc_res a b)
  | NONE | LIST _ _ | RANGE _ _ => no
  end.

(** ** Printing *)

(** The fall-through cases of [expr_compare_type], from the case of a type on. *)
Definition compare_from_list (t2 : expr_type) : Z := if decide (t2 = E_NONE) then 1 else -1.
Definition compare_from_or (t2 : expr_type) : Z :=
  if decide (t2 = E_LIST) then 1 else compare_from_list t2.
Definition compare_from_and (t2 : expr_type) : Z :=
  if decide (t2 = E_OR) then 1 else compare_from_or t2.
Definition compare_from_not (t2 : expr_type) : Z :=
  if decide (t2 = E_AND) then 1 else compare_from_and t2.
Definition compare_from_equal (t2 : expr_type) : Z :=
  if decide (t2 = E_NOT) then 1 else compare_from_not t2.
Definition expr_compare_type (t1 t2 : expr_type) : Z :=
  if decide (t1 = t2) then 0
  else match t1 with
       | E_LEQ | E_LTH | E_GEQ | E_GTH =>
           if decide (t2 = E_EQUAL) then 1 else if decide (t2 = E_UNEQUAL) then 1
           else compare_from_equal t2
       | E_EQUAL | E_UNEQUAL => compare_from_equal t2
       | E_NOT => compare_from_not t2
       | E_AND => compare_from_and t2
       | E_OR => compare_from_or t2
       | E_LIST => compare_from_list t2
       | _ => -1
       end.

Definition rel_text (t : relop) : list Z :=
  match t with
  | EQUAL => cs "=" | UNEQUAL => cs "!=" | LEQ => cs "<=" | LTH => cs "<"
  | GEQ => cs ">=" | GTH => cs ">"
  end.

Section print.
Context {D : Type} (fn : D → option symbol → list Z → D).

(** [fn(data, sym, sym->name)]: the callbacks take the length of the name. *)
Definition print_name (data : D) (s : symbol) : result D :=
  nm ← of_option NullDeref (name (sym_of s)); Ret (fn data (Some s) nm).
(** A left operand, which may be a choice without a name. *)
Definition print_left (data : D) (s : symbol) : D :=
  match name (sym_of s) with
  | Some nm => fn data (Some s) nm
  | None => fn data None (cs "<choice>")
  end.

Fixpoint expr_print (e : expr) (data : D) (prevtoken : expr_type) : result D :=
  match e with
  | NULL => Ret (fn data None (cs "y"))
  | _ =>
      let paren := 0 <? expr_compare_type prevtoken (etype e) in
      let data := if paren then fn data None (cs "(") else data in
      data ←
        match e with
        | SYMBOL s => Ret (print_left data s)
        | NOT l => expr_print l (fn data None (cs "!")) E_NOT
        | COMP t a b => print_name (fn (print_left data a) None (rel_text t)) b
        | BIN OR l r =>
            data ← expr_print l data E_OR;
            expr_print r (fn data None (cs " || ")) E_OR
        | BIN AND l r =>
            data ← expr_print l data E_AND;
            expr_print r (fn data None (cs " && ")) E_AND
        | LIST l s =>
            data ← print_name data s;
            match l with
            | NULL => Ret data
            | _ => expr_print l (fn data None (cs " ^ ")) E_LIST
            end
        | RANGE a b =>
            data ← print_name (fn data None (cs "[")) a;
            data ← print_name (fn data None (cs " ")) b;
            Ret (fn data None (cs "]"))
        | NULL | NONE => Ret (fn data None (cs "<unknown type 0>"))
        end;
      Ret (if paren then fn data None (cs ")") else data)
  end.

(** [*title] is printed before the first line that is printed. *)
Fixpoint expr_print_revdep (e : expr) (data : D) (pr_type : tristate) (title : option (list Z)) :
    result (D * option (list Z)) :=
  match e with
  | NULL => Fault NullDeref
  | BIN OR l r =>
      '(data, title) ← expr_print_revdep l data pr_type title;
      expr_print_revdep r data pr_type title
  | _ =>
      if decide (expr_calc_value e = pr_type) then
        let data := match title with Some t => fn data None t | None => data end in
        data ← expr_print e (fn data None (cs "  - ")) E_NONE;
        Ret (fn data None [10], None)
      else Ret (data, title)
  end.
End print.

Definition expr_print_file_helper (out : list Z) (sym : option symbol) (str : list Z) : list Z :=
  out ++ str.
Definition expr_fprint (e : expr) (out : list Z) : result (list Z) :=
  expr_print expr_print_file_helper e out E_NONE.

(** [struct gstr] of lkc.h, less its capacity. *)
Record gstr := { gs_s : list Z; max_width : Z }.
Definition str_append (gs : gstr) (s : list Z) : gstr :=
  {| gs_s := gs_s gs ++ s; max_width := max_width gs |}.
(** [str_printf] formats into a buffer of 10000 bytes. *)
Definition str_printf (gs : gstr) (text : list Z) : gstr := str_append gs (take (Z.to_nat 9999) text).

(** [strrchr(s, c)] *)
Fixpoint strrchr (s : list Z) (c : Z) : option nat :=
  match s with
  | [] => None
  | b :: s =>
      match strrchr s c with
      | Some k => Some (S k)
      | None => if b =? c then Some O else None
      end
  end.

Definition expr_print_gstr_helper (gs : gstr) (sym : option symbol) (str : list Z) : gstr :=
  let sym_str := sym_get_string_value <$> sym in
  let gs :=
    if max_width gs =? 0 then gs
    else
      let extra_length :=
        u32 (Z.of_nat (length str)
             + match sym_str with Some s => 4 + Z.of_nat (length s) | None => 0 end) in
      let last_cr := default O (strrchr (gs_s gs) 10) in
      let last_line_length := u32 (Z.of_nat (length (gs_s gs)) - Z.of_nat last_cr) in
      if u32 (max_width gs) <? u32 (last_line_length + extra_length)
      then str_append gs [92; 10] else gs in
  let gs := str_append gs str in
  match sym with
  | Some s =>
      if decide (type (sym_of s) = S_UNKNOWN) then gs
      else str_printf gs (cs " [=" ++ sym_get_string_value s ++ cs "]")
  | None => gs
  end.

Definition expr_gstr_print (e : expr) (gs : gstr) : result gstr :=
  expr_print expr_print_gstr_helper e gs E_NONE.
Definition expr_gstr_print_revdep (e : expr) (gs : gstr) (pr_type : tristate) (title : list Z) :
    result gstr :=
  '(gs, _) ← expr_print_revdep expr_print_gstr_helper e gs pr_type (Some title); Ret gs.

End tab.
End KconfigExpr.
