(* ===== verification/KconfigMenu.v ===== *)
(** * Dependency propagation in menus (scripts/config/menu.c)

    The uses of the expression simplifier in [menu_finalize]: the dependency
    of a menu entry and of its properties, propagated from the enclosing
    menu, and the test that makes an entry a submenu item of the symbol
    before it. *)

From S2P Require Import Prelude CLib KconfigExpr.
Open Scope Z_scope.

Module KconfigMenu.
Import KconfigExpr.
Section tab.
Context `{SymTab}.

(** 'm' becomes 'm' && MODULES *)
Fixpoint rewrite_m (e : expr) : expr :=
  match e with
  | NOT l => NOT (rewrite_m l)
  | BIN t l r => BIN t (rewrite_m l) (rewrite_m r)
  | SYMBOL s =>
      if decide (s = symbol_mod) then expr_alloc_and e (expr_alloc_symbol modules_sym) else e
  | _ => e
  end.

(** The dependency of a child entry ([menu->dep]), and of a property of it
    before the boolean rewriting. *)
Definition propagate_dep (parentdep dep : expr) : result expr :=
  basedep ← expr_transform (rewrite_m dep);
  parentdep ← expr_copy parentdep;
  expr_eliminate_dups (expr_alloc_and parentdep basedep).

(** [prop->visible.expr] of an entry; [sym_type] is the type of the entry's
    symbol, if it has one. *)
Definition visible_expr (sym_type : option symbol_type) (basedep dep : expr) : result expr :=
  dep ← propagate_dep basedep dep;
  Ret match sym_type with
      | Some ty => if decide (ty ≠ S_TRISTATE) then expr_trans_bool dep else dep
      | None => dep
      end.

(** [expr_eliminate_dups(expr_transform(expr_trans_compare(e, E_UNEQUAL, &symbol_no)))] *)
Definition nonzero_expr (e : expr) : result expr :=
  e ← expr_transform (expr_trans_compare e UNEQUAL symbol_no);
  expr_eliminate_dups e.

(** Whether an entry with dependency [dep] that comes after [sym] becomes an
    item of its submenu; [basedep] says that [sym]'s prompt is visible. *)
Definition depends_on (sym : symbol) (basedep dep : expr) : result bool :=
  if negb (expr_contains_symbol dep sym) then Ret false
  else if expr_depends_symbol dep sym then Ret true
  else
    dep ← nonzero_expr dep;
    dep2 ← expr_copy basedep;
    '(_, dep2, _) ← expr_eliminate_eq dep dep2 0;
    Ret (expr_is_yes dep2).
(** [visible] is the visibility of [sym]'s own prompt. *)
Definition submenu_item (sym : symbol) (visible dep : expr) : result bool :=
  basedep ← nonzero_expr visible;
  depends_on sym basedep dep.
End tab.
End KconfigMenu.
