(* ===== verification/KconfigSimp.v ===== *)
(** * The Kconfig simplifier: lemmas

    Well-formed expressions, the tristate algebra, the values of comparisons
    in a well-typed symbol table, and the contracts of the y/n elimination,
    of the elimination of common operands and of the joining of two
    operands. *)

From S2P Require Import Prelude CLib KconfigExpr.
Open Scope Z_scope.

Module KconfigSimp.
Import KconfigExpr.

(** ** Well-formed expressions *)

(** The expressions of dependencies: operators have operands, and the list
    and range nodes (of choices and of [range] properties) do not occur. *)
Fixpoint wf (e : expr) : bool :=
  match e with
  | BIN _ l r => wf l && wf r
  | NOT l => wf l
  | COMP _ _ _ | SYMBOL _ => true
  | NULL | NONE | LIST _ _ | RANGE _ _ => false
  end.

(** Negations of symbols only. *)
Fixpoint nnf (e : expr) : bool :=
  match e with
  | BIN _ l r => nnf l && nnf r
  | NOT (SYMBOL _) => true
  | NOT _ => false
  | _ => true
  end.

Create HintDb kconf.

Lemma wf_bin t l r : wf l → wf r → wf (BIN t l r).
Proof. simpl. destruct (wf l), (wf r); done. Qed.
Lemma wf_bin_inv t l r : wf (BIN t l r) → wf l ∧ wf r.
Proof. simpl. destruct (wf l), (wf r); done. Qed.
Lemma nnf_bin t l r : nnf l → nnf r → nnf (BIN t l r).
Proof. simpl. destruct (nnf l), (nnf r); done. Qed.
Lemma nnf_bin_inv t l r : nnf (BIN t l r) → nnf l ∧ nnf r.
Proof. simpl. destruct (nnf l), (nnf r); done. Qed.
Lemma wf_symbol s : wf (SYMBOL s).
Proof. done. Qed.
Lemma wf_comp t a b : wf (COMP t a b).
Proof. done. Qed.
#[export] Hint Resolve wf_bin wf_symbol wf_comp : kconf.

Lemma deref_wf e : wf e → deref e = Ret e.
Proof. by destruct e. Qed.
Lemma copy_wf e : wf e → expr_copy e = Ret e.
Proof.
  induction e; intros Hw; try done.
  - apply wf_bin_inv in Hw as [Hl Hr]. simpl. by rewrite IHe1, IHe2 by done.
  - simpl. by rewrite IHe by done.
Qed.
(** [expr_free] leaves nothing of a dependency expression behind. *)
Lemma free_wf e : wf e → expr_free e = size e.
Proof.
  induction e; intros Hw; try done; simpl in *; [|by rewrite IHe].
  apply andb_prop_elim in Hw as [? ?]. by rewrite IHe1, IHe2.
Qed.
Lemma size_pos e : (1 ≤ size e)%nat.
Proof. destruct e; simpl; lia. Qed.

(** ** The tristate lattice *)

(** The operator of a node, and its neutral element. *)
Definition tri_op (t : binop) : tristate → tristate → tristate :=
  match t with OR => EXPR_OR | AND => EXPR_AND end.
Definition tri_unit (t : binop) : tristate := match t with OR => no | AND => yes end.

Lemma tri_op_comm t a b : tri_op t a b = tri_op t b a.
Proof. by destruct t, a, b. Qed.
Lemma tri_op_assoc t a b c : tri_op t a (tri_op t b c) = tri_op t (tri_op t a b) c.
Proof. by destruct t, a, b, c. Qed.
Lemma tri_op_idem t a : tri_op t a a = a.
Proof. by destruct t, a. Qed.
Lemma tri_op_unit_l t a : tri_op t (tri_unit t) a = a.
Proof. by destruct t, a. Qed.
Lemma tri_op_unit_r t a : tri_op t a (tri_unit t) = a.
Proof. by destruct t, a. Qed.
Lemma tri_not_not a : EXPR_NOT (EXPR_NOT a) = a.
Proof. by destruct a. Qed.
Lemma tri_de_morgan t a b :
  EXPR_NOT (tri_op t a b) =
  tri_op (match t with OR => AND | AND => OR end) (EXPR_NOT a) (EXPR_NOT b).
Proof. by destruct t, a, b. Qed.

Section tab.
Context `{T : SymTab}.

(** A quoted 0, 1 or 2 compares equal to n, m or y as a number, but is another
    constant: no comparison with such a text. *)
Definition small_number (s : list Z) : bool :=
  let '(k, v) := expr_parse_string s S_UNKNOWN in
  negb (bool_decide (k = k_string)) && ((s64 v =? 0) || (s64 v =? 1) || (s64 v =? 2)).
Definition plain_sym (s : symbol) : bool := negb (is_const s && small_number (curr_val (sym_of s))).
Fixpoint plain (e : expr) : bool :=
  match e with
  | BIN _ l r => plain l && plain r
  | NOT l => plain l
  | COMP _ _ b => plain_sym b
  | _ => true
  end.
Lemma plain_bin t l r : plain l → plain r → plain (BIN t l r).
Proof. simpl. destruct (plain l), (plain r); done. Qed.
Lemma plain_bin_inv t l r : plain (BIN t l r) → plain l ∧ plain r.
Proof. simpl. destruct (plain l), (plain r); done. Qed.

Lemma calc_bin t l r :
  expr_calc_value (BIN t l r) = tri_op t (expr_calc_value l) (expr_calc_value r).
Proof. by destruct t. Qed.
Lemma calc_neutral t : expr_calc_value (SYMBOL (neutral t)) = tri_unit t.
Proof. by destruct t. Qed.
Lemma is_sym_spec e s : is_sym e s = true → e = SYMBOL s.
Proof. destruct e; try done. simpl. intros H%bool_decide_eq_true. by subst. Qed.

(** ** y/n elimination *)

(** An operand y or n is left below an operator. *)
Definition yn_leaf (e : expr) : bool := is_sym e symbol_yes || is_sym e symbol_no.
Fixpoint has_yn (e : expr) : bool :=
  match e with
  | BIN _ l r => yn_leaf l || yn_leaf r || has_yn l || has_yn r
  | _ => false
  end.

(** What the source does once the two operands have been simplified. *)
Definition yn_tail (t : binop) (l r : expr) : result expr :=
  l ← deref l;
  let '(zero, one) :=
    match t with AND => (symbol_no, symbol_yes) | OR => (symbol_yes, symbol_no) end in
  if is_sym l zero then Ret (SYMBOL zero)
  else if is_sym l one then deref r
  else
    r ← deref r;
    if is_sym r zero then Ret (SYMBOL zero)
    else if is_sym r one then Ret l
    else Ret (BIN t l r).

Lemma is_sym_diff e s s' : is_sym e s = true → s ≠ s' → is_sym e s' = false.
Proof. intros ->%is_sym_spec ?. simpl. by apply bool_decide_eq_false. Qed.
Lemma eliminate_yn_bin t l r :
  expr_eliminate_yn (BIN t l r) =
  (l ← expr_eliminate_yn l; r ← expr_eliminate_yn r; yn_tail t l r).
Proof.
  destruct t; simpl; [|done].
  destruct (expr_eliminate_yn l) as [l'|]; [|done]; simpl.
  destruct (expr_eliminate_yn r) as [r'|]; [|done]; simpl.
  unfold yn_tail. destruct (deref l') as [l''|]; [|done]; simpl.
  destruct (is_sym l'' symbol_no) eqn:E1.
  - by rewrite (is_sym_diff _ _ symbol_yes E1).
  - destruct (is_sym l'' symbol_yes); [done|].
    destruct (deref r') as [r''|]; [|done]; simpl.
    destruct (is_sym r'' symbol_no) eqn:E2; [|done].
    by rewrite (is_sym_diff _ _ symbol_yes E2).
Qed.

Lemma yn_tail_ok t l r :
  wf l → wf r → has_yn l = false → has_yn r = false → ∃ e,
    yn_tail t l r = Ret e ∧ wf e ∧
    expr_calc_value e = tri_op t (expr_calc_value l) (expr_calc_value r) ∧
    (size e ≤ S (size l + size r))%nat ∧ has_yn e = false ∧ (nnf l → nnf r → nnf e) ∧
    (plain l → plain r → plain e) ∧
    (yn_leaf l || yn_leaf r = true → (size e < S (size l + size r))%nat).
Proof.
  intros Wl Wr Nl Nr. unfold yn_tail. rewrite !deref_wf by done. cbn [mbind result_bind].
  assert (∃ z o, (match t with AND => (symbol_no, symbol_yes) | OR => (symbol_yes, symbol_no) end)
    = (z, o) ∧ (∀ x, tri_op t (curr_tri (sym_of z)) x = curr_tri (sym_of z)) ∧
      (∀ x, tri_op t (curr_tri (sym_of o)) x = x) ∧
      ∀ e, yn_leaf e = is_sym e z || is_sym e o) as (z & o & -> & Hz & Ho & Hyn).
  { unfold yn_leaf. destruct t.
    - exists symbol_yes, symbol_no. split; [done|]. split; [by intros []|]. split; [by intros []|]. done.
    - exists symbol_no, symbol_yes. split; [done|]. split; [by intros []|].
      split; [by intros []|]. intros e. apply orb_comm. }
  rewrite !Hyn. destruct (is_sym l z) eqn:L0; [apply is_sym_spec in L0 as ->|].
  { eexists; split_and!; try done; simpl; try lia; by rewrite ?Hz. }
  destruct (is_sym l o) eqn:L1; [apply is_sym_spec in L1 as ->|].
  { eexists; split_and!; try done; simpl; try lia; by rewrite ?Ho. }
  cbn [mbind result_bind].
  destruct (is_sym r z) eqn:R0; [apply is_sym_spec in R0 as ->|].
  { eexists; split_and!; try done; simpl; try lia; by rewrite tri_op_comm, Hz. }
  destruct (is_sym r o) eqn:R1; [apply is_sym_spec in R1 as ->|].
  { eexists; split_and!; try done; simpl; try lia; by rewrite tri_op_comm, Ho. }
  eexists; split_and!; try done; [by apply wf_bin|by rewrite calc_bin| |apply nnf_bin|apply plain_bin].
  simpl. rewrite !Hyn, L0, L1, R0, R1, Nl, Nr. done.
Qed.

Lemma yn_leaf_fix e : yn_leaf e = true → expr_eliminate_yn e = Ret e.
Proof. intros [H|H]%orb_prop; by apply is_sym_spec in H as ->. Qed.

(** The y/n elimination returns, keeps the value, leaves no operand y or n,
    and shrinks an expression that has one. *)
Lemma eliminate_yn_ok e :
  wf e → ∃ e', expr_eliminate_yn e = Ret e' ∧ wf e' ∧
    expr_calc_value e' = expr_calc_value e ∧ (size e' ≤ size e)%nat ∧
    has_yn e' = false ∧ (has_yn e = true → (size e' < size e)%nat) ∧ (nnf e → nnf e') ∧ (plain e → plain e').
Proof.
  induction e as [| |t l IHl r IHr| | | | |]; intros Hw; try by (eexists; split_and!; try done).
  apply wf_bin_inv in Hw as [Hl Hr].
  destruct (IHl Hl) as (l' & El & Wl & Vl & Sl & Nl & Dl & Fl & Pl).
  destruct (IHr Hr) as (r' & Er & Wr & Vr & Sr & Nr & Dr & Fr & Pr).
  destruct (yn_tail_ok t l' r' Wl Wr Nl Nr) as (e' & Ee & We & Ve & Se & Ne & Fe & Pe & De).
  exists e'. rewrite eliminate_yn_bin, El, Er, calc_bin, <- Vl, <- Vr.
  split_and!; try done; [simpl; lia| |intros [? ?]%nnf_bin_inv; auto|intros [? ?]%plain_bin_inv; auto].
  simpl. intros Hy. destruct (yn_leaf l' || yn_leaf r') eqn:Hyn; [specialize (De eq_refl); lia|].
  apply orb_false_iff in Hyn as [Yl Yr].
  assert (has_yn l = true ∨ has_yn r = true) as [H|H]; [|specialize (Dl H); lia|specialize (Dr H); lia].
  destruct (yn_leaf l) eqn:E1; [rewrite yn_leaf_fix in El by done; congruence|].
  destruct (yn_leaf r) eqn:E2; [rewrite yn_leaf_fix in Er by done; congruence|].
  by apply orb_prop in Hy.
Qed.

(** ** Common operands *)

(** [e1'] and [e2'] are [e1] and [e2] with a part removed that they share. *)
Definition shared (t : binop) (e1 e2 e1' e2' : expr) : Prop :=
  ∃ r, expr_calc_value e1 = tri_op t (expr_calc_value e1') r ∧
       expr_calc_value e2 = tri_op t (expr_calc_value e2') r.
Definition elim_post (t : binop) (e1 e2 e1' e2' : expr) : Prop :=
  wf e1' ∧ wf e2' ∧ (size e1' ≤ size e1)%nat ∧ (size e2' ≤ size e2)%nat ∧
  shared t e1 e2 e1' e2'.

Lemma elim_post_refl t e1 e2 : wf e1 → wf e2 → elim_post t e1 e2 e1 e2.
Proof.
  intros. split_and!; try done. exists (tri_unit t). by rewrite !tri_op_unit_r.
Qed.
Lemma elim_post_neutral t e1 e2 :
  expr_calc_value e1 = expr_calc_value e2 →
  elim_post t e1 e2 (SYMBOL (neutral t)) (SYMBOL (neutral t)).
Proof.
  intros He. split_and!; try done; try apply size_pos.
  exists (expr_calc_value e1). by rewrite calc_neutral, tri_op_unit_l.
Qed.
Lemma elim_post_swap t e1 e2 e1' e2' : elim_post t e1 e2 e1' e2' → elim_post t e2 e1 e2' e1'.
Proof. unfold elim_post, shared. naive_solver. Qed.
(** The two operands of [BIN t l r] against [e], one after the other. *)
Lemma elim_post_bin t l r e l' r' e' e'' :
  elim_post t l e l' e' → elim_post t r e' r' e'' →
  elim_post t (BIN t l r) e (BIN t l' r') e''.
Proof.
  intros (?&?&?&?&x&Hl&He) (?&?&?&?&y&Hr&He').
  split_and!; [by apply wf_bin|done|simpl; lia|lia|].
  exists (tri_op t x y). rewrite !calc_bin, Hl, Hr, He, He'.
  split; [|by rewrite !tri_op_assoc, <- !tri_op_assoc, (tri_op_comm t y x)].
  rewrite <- !tri_op_assoc. f_equal. rewrite !tri_op_assoc. f_equal. apply tri_op_comm.
Qed.

Lemma operands_Some t e l r : operands t e = Some (l, r) → e = BIN t l r.
Proof. destruct e; try done. simpl. case_decide; naive_solver. Qed.
Lemma operands_bin t l r : operands t (BIN t l r) = Some (l, r).
Proof. simpl. by rewrite decide_True. Qed.

Definition elim_ok (elim : binop → expr → expr → Z → result (expr * expr * Z))
    (t : binop) (e1 e2 : expr) : Prop :=
  ∀ c, ∃ e1' e2' c', elim t e1 e2 c = Ret (e1', e2', c') ∧ elim_post t e1 e2 e1' e2'.

(** [expr_eliminate_eq]: at most one part shared under each of the two
    operators is removed. *)
Definition common_removed (e1 e2 e1' e2' : expr) : Prop :=
  ∃ t1 t2 r1 r2,
    expr_calc_value e1 = tri_op t1 (tri_op t2 (expr_calc_value e1') r2) r1 ∧
    expr_calc_value e2 = tri_op t1 (tri_op t2 (expr_calc_value e2') r2) r1.

Lemma eliminate_eq_with_ok elim e1 e2 c :
  wf e1 → wf e2 →
  (∀ t a b, wf a → wf b → (size a ≤ size e1)%nat → (size b ≤ size e2)%nat →
     operands t a ≠ None ∨ operands t b ≠ None → elim_ok elim t a b) →
  ∃ e1' e2' c', eliminate_eq_with elim e1 e2 c = Ret (e1', e2', c') ∧ wf e1' ∧ wf e2' ∧
    common_removed e1 e2 e1' e2'.
Proof.
  intros W1 W2 Helim.
  assert (∃ t1 a b ca, match e1 with BIN t _ _ => elim t e1 e2 c | _ => Ret (e1, e2, c) end
    = Ret (a, b, ca) ∧ elim_post t1 e1 e2 a b) as (t1 & a & b & ca & E1 & Wa & Wb & Sa & Sb & P1).
  { destruct e1; try by (eexists AND, _, _, _; split; [done|by apply elim_post_refl]).
    edestruct (Helim t (BIN t e1_1 e1_2) e2) as (a & b & ca & ? & ?); [done..| |by eauto 10].
    left. by rewrite operands_bin. }
  assert (∃ t2 a' b' cb, (if decide (etype a = etype b) then Ret (a, b, ca)
     else match b with BIN t _ _ => elim t a b ca | _ => Ret (a, b, ca) end)
    = Ret (a', b', cb) ∧ elim_post t2 a b a' b') as (t2 & a' & b' & cb & E2 & Wa' & Wb' & _ & _ & P2).
  { case_decide; [by (eexists AND, _, _, _; split; [done|by apply elim_post_refl])|].
    destruct b; try by (eexists AND, _, _, _; split; [done|by apply elim_post_refl]).
    edestruct (Helim t a (BIN t b1 b2)) as (a' & b' & cb & ? & ?); [done..| |by eauto 10].
    right. by rewrite operands_bin. }
  destruct (eliminate_yn_ok a' Wa') as (x & Ex & Wx & Vx & _).
  destruct (eliminate_yn_ok b' Wb') as (y & Ey & Wy & Vy & _).
  exists x, y, cb. split_and!; try done.
  - destruct e1, e2; try done; unfold eliminate_eq_with; rewrite E1; cbn [mbind result_bind];
      rewrite E2; cbn [mbind result_bind]; by rewrite Ex, Ey.
  - destruct P1 as (r1 & ? & ?), P2 as (r2 & ? & ?).
    exists t1, t2, r1, r2. rewrite Vx, Vy. split; congruence.
Qed.

(** Fuel for [__expr_eliminate_eq]: two leaves are handed to [expr_eq] as they
    are, an operator is entered first. *)
Definition elim_enough (n : nat) (t : binop) (e1 e2 : expr) : Prop :=
  (2 * (size e1 + size e2) < n)%nat ∨
  (2 * (size e1 + size e2) ≤ S n)%nat ∧ (operands t e1 ≠ None ∨ operands t e2 ≠ None).

Lemma elim_enough_less n t e1 e2 a b :
  elim_enough (S n) t e1 e2 →
  (size a + size b + 2 ≤ size e1 + size e2)%nat → elim_enough n t a b.
Proof. unfold elim_enough. lia. Qed.

Definition eq_sound (n : nat) : Prop :=
  ∀ e1 e2, wf e1 → wf e2 → (2 * (size e1 + size e2) ≤ n)%nat →
    ∃ b, expr_eq_fuel n e1 e2 = Ret b ∧ (b = true → expr_calc_value e1 = expr_calc_value e2).
Definition elim_sound (n : nat) : Prop :=
  ∀ t e1 e2, wf e1 → wf e2 → elim_enough n t e1 e2 → elim_ok (__expr_eliminate_eq expr_eq_fuel n) t e1 e2.

(** One call of each function. *)
Definition eq_bin_body (n : nat) (e1 e2 : expr) : result bool :=
  e1 ← expr_copy e1;
  e2 ← expr_copy e2;
  '(e1, e2, _) ← eliminate_eq_with (__expr_eliminate_eq expr_eq_fuel n) e1 e2 0;
  e1 ← deref e1;
  match e1 with
  | SYMBOL s1 =>
      e2 ← deref e2;
      Ret match e2 with SYMBOL s2 => bool_decide (s1 = s2) | _ => false end
  | _ => Ret false
  end.
Lemma eq_bin n t1 l1 r1 t2 l2 r2 :
  expr_eq_fuel (S n) (BIN t1 l1 r1) (BIN t2 l2 r2) =
  if decide (t1 = t2) then eq_bin_body n (BIN t1 l1 r1) (BIN t2 l2 r2) else Ret false.
Proof. reflexivity. Qed.
Definition elim_leaves (n : nat) (t : binop) (e1 e2 : expr) (c : Z) : result (expr * expr * Z) :=
  if (is_sym e1 symbol_yes && is_sym e2 symbol_yes)
     || (is_sym e1 symbol_no && is_sym e2 symbol_no)
  then Ret (e1, e2, c)
  else
    b ← expr_eq_fuel n e1 e2;
    if (b : bool) then Ret (SYMBOL (neutral t), SYMBOL (neutral t), c + 1)
    else Ret (e1, e2, c).
Lemma elim_S n t e1 e2 c :
  wf e1 → wf e2 →
  __expr_eliminate_eq expr_eq_fuel (S n) t e1 e2 c =
  match operands t e1 with
  | Some (l, r) =>
      '(l, e2, c) ← __expr_eliminate_eq expr_eq_fuel n t l e2 c;
      '(r, e2, c) ← __expr_eliminate_eq expr_eq_fuel n t r e2 c;
      Ret (BIN t l r, e2, c)
  | None =>
      match operands t e2 with
      | Some (l, r) =>
          '(e1, l, c) ← __expr_eliminate_eq expr_eq_fuel n t e1 l c;
          '(e1, r, c) ← __expr_eliminate_eq expr_eq_fuel n t e1 r c;
          Ret (e1, BIN t l r, c)
      | None => elim_leaves n t e1 e2 c
      end
  end.
Proof.
  intros W1 W2. change (__expr_eliminate_eq expr_eq_fuel (S n) t e1 e2 c) with (
    e1 ← deref e1;
    match operands t e1 with
    | Some (l, r) =>
        '(l, e2, c) ← __expr_eliminate_eq expr_eq_fuel n t l e2 c;
        '(r, e2, c) ← __expr_eliminate_eq expr_eq_fuel n t r e2 c;
        Ret (BIN t l r, e2, c)
    | None =>
        e2 ← deref e2;
        match operands t e2 with
        | Some (l, r) =>
            '(e1, l, c) ← __expr_eliminate_eq expr_eq_fuel n t e1 l c;
            '(e1, r, c) ← __expr_eliminate_eq expr_eq_fuel n t e1 r c;
            Ret (e1, BIN t l r, c)
        | None => elim_leaves n t e1 e2 c
        end
    end).
  rewrite (deref_wf e1), (deref_wf e2) by done. cbn [mbind result_bind].
  by destruct (operands t e1).
Qed.

Lemma eq_step n : eq_sound n → elim_sound n → eq_sound (S n).
Proof.
  intros IHeq IHel e1 e2 W1 W2 Hn.
  destruct e1 as [| |t1 l1 r1|l1|t1 a1 b1| |s1|], e2 as [| |t2 l2 r2|l2|t2 a2 b2| |s2|];
    try done; try by (exists false).
  - rewrite eq_bin. case_decide as Ht; [subst t2|by exists false].
    unfold eq_bin_body. rewrite !copy_wf by done. cbn [mbind result_bind].
    destruct (eliminate_eq_with_ok (__expr_eliminate_eq expr_eq_fuel n) (BIN t1 l1 r1) (BIN t1 l2 r2) 0)
      as (x & y & c & -> & Wx & Wy & tr1 & tr2 & ra & rb & V1 & V2); [done..| |].
    { intros t a b Wa Wb Sa Sb Hop. apply IHel; [done..|]. right. split; [lia|done]. }
    cbn [mbind result_bind]. rewrite deref_wf by done. cbn [mbind result_bind].
    destruct x; try by exists false. rewrite deref_wf by done. cbn [mbind result_bind].
    eexists; split; [done|]. destruct y; try done.
    intros ->%bool_decide_eq_true. by rewrite V1, V2.
  - destruct (IHeq l1 l2) as (b & ? & Hb); [done..|simpl in Hn; lia|].
    exists b. split; [done|]. intros. simpl. by rewrite Hb.
  - eexists; split; [done|]. intros [[->%bool_decide_eq_true
      ->%bool_decide_eq_true]%andb_true_iff ->%bool_decide_eq_true]%andb_true_iff. done.
  - eexists; split; [done|]. by intros ->%bool_decide_eq_true.
Qed.

Lemma elim_step n : eq_sound n → elim_sound n → elim_sound (S n).
Proof.
  intros IHeq IHel t e1 e2 W1 W2 Hn c. rewrite elim_S by done.
  destruct (operands t e1) as [[l r]|] eqn:O1.
  { apply operands_Some in O1 as ->. apply wf_bin_inv in W1 as [Wl Wr].
    pose proof (size_pos l). pose proof (size_pos r).
    destruct (IHel t l e2 Wl W2) with (c := c) as (l' & e2' & c' & -> & P1);
      [apply (elim_enough_less _ _ _ _ _ _ Hn); simpl; lia|].
    pose proof P1 as (_ & W2' & _ & ? & _).
    destruct (IHel t r e2' Wr W2') with (c := c') as (r' & e2'' & c'' & E & P2);
      [apply (elim_enough_less _ _ _ _ _ _ Hn); simpl; lia|].
    cbn [mbind result_bind]. rewrite E. eexists _, _, _. split; [done|].
    by eapply elim_post_bin. }
  destruct (operands t e2) as [[l r]|] eqn:O2.
  { apply operands_Some in O2 as ->. apply wf_bin_inv in W2 as [Wl Wr].
    pose proof (size_pos l). pose proof (size_pos r).
    destruct (IHel t e1 l W1 Wl) with (c := c) as (e1' & l' & c' & -> & P1);
      [apply (elim_enough_less _ _ _ _ _ _ Hn); simpl; lia|].
    pose proof P1 as (W1' & _ & ? & _).
    destruct (IHel t e1' r W1' Wr) with (c := c') as (e1'' & r' & c'' & E & P2);
      [apply (elim_enough_less _ _ _ _ _ _ Hn); simpl; lia|].
    cbn [mbind result_bind]. rewrite E. eexists _, _, _. split; [done|].
    apply elim_post_swap. eapply elim_post_bin; by apply elim_post_swap. }
  unfold elim_leaves. case_match; [eexists _, _, _; split; [done|by apply elim_post_refl]|].
  destruct (IHeq e1 e2) as (b & -> & Hb); [done..| |].
  { destruct Hn as [Hn|[_ [Hn|Hn]]]; [lia|done..]. }
  cbn [mbind result_bind]. destruct b; eexists _, _, _; (split; [done|]);
    [by apply elim_post_neutral, Hb|by apply elim_post_refl].
Qed.

Lemma eq_elim_ok n : eq_sound n ∧ elim_sound n.
Proof.
  induction n as [|n [IHeq IHel]]; [|auto using eq_step, elim_step].
  split.
  - intros e1 e2 _ _. pose proof (size_pos e1). lia.
  - intros t e1 e2 _ _. pose proof (size_pos e1). unfold elim_enough. lia.
Qed.

(** [expr_eq] returns, and what it calls equal has one value. *)
Lemma expr_eq_ok e1 e2 :
  wf e1 → wf e2 →
  ∃ b, expr_eq e1 e2 = Ret b ∧ (b = true → expr_calc_value e1 = expr_calc_value e2).
Proof. intros. by apply eq_elim_ok. Qed.
Lemma expr_eliminate_eq_ok e1 e2 c :
  wf e1 → wf e2 →
  ∃ e1' e2' c', expr_eliminate_eq e1 e2 c = Ret (e1', e2', c') ∧ wf e1' ∧ wf e2' ∧
    common_removed e1 e2 e1' e2'.
Proof.
  intros W1 W2. apply eliminate_eq_with_ok; [done..|].
  intros t a b Wa Wb Sa Sb Hop. apply eq_elim_ok; [done..|].
  right. unfold eq_fuel. split; [lia|done].
Qed.

(** ** Well-typed symbol tables *)

(** A calculated boolean is not m; a tristate is m only with modules enabled;
    the constants of the table are the strings of the configuration language:
    untyped, with a text that is not y, m or n. *)
Definition sym_ok (d : sym_data) : Prop :=
  (type d = S_BOOLEAN → curr_tri d ≠ mod_) ∧
  (type d = S_TRISTATE → curr_tri d = mod_ → curr_tri (sym_of modules_sym) ≠ no) ∧
  (flags d .& SYMBOL_CONST ≠ 0 →
     type d = S_UNKNOWN ∧ curr_val d ∉ [cs "n"; cs "m"; cs "y"]).
(** Constants with the same text are one symbol. *)
Definition consts_unique : Prop :=
  NoDup (curr_val <$> filter (λ d, flags d .& SYMBOL_CONST ≠ 0) sym_tab).
Definition typed : Prop := Forall sym_ok sym_tab ∧ consts_unique.

#[export] Instance sym_ok_dec d : Decision (sym_ok d).
Proof. unfold sym_ok. apply _. Defined.
#[export] Instance typed_dec : Decision typed.
Proof. unfold typed, consts_unique. apply _. Defined.

Definition bool_or_tri (s : symbol) : Prop :=
  type (sym_of s) = S_BOOLEAN ∨ type (sym_of s) = S_TRISTATE.
Definition tri_text (t : tristate) : list Z :=
  match t with no => cs "n" | mod_ => cs "m" | yes => cs "y" end.

Lemma sym_of_tab n d : sym_tab !! n = Some d → sym_of (Sym n) = d.
Proof. intros Hn. simpl. by rewrite (nth_lookup_Some _ _ _ _ Hn). Qed.
Lemma sym_of_dangling n : sym_tab !! n = None → type (sym_of (Sym n)) = S_UNKNOWN ∧
  flags (sym_of (Sym n)) = 0.
Proof. intros Hn%lookup_ge_None. simpl. by rewrite nth_overflow by lia. Qed.

(** What a well-typed table says of any symbol. *)
Lemma typed_sym s :
  typed → bool_or_tri s →
  (type (sym_of s) = S_BOOLEAN → curr_tri (sym_of s) ≠ mod_) ∧
  sym_get_string_value s = tri_text (curr_tri (sym_of s)).
Proof.
  intros [Ht _] Hs. destruct s as [| | |n]; try by destruct Hs.
  destruct (sym_tab !! n) as [d|] eqn:Hn.
  2:{ destruct (sym_of_dangling n Hn) as [Hd _]. unfold bool_or_tri in Hs. rewrite Hd in Hs.
      by destruct Hs. }
  pose proof (Forall_lookup_1 _ _ _ _ Ht Hn) as (Hb & Hm & _).
  unfold bool_or_tri, sym_get_string_value in *. rewrite (sym_of_tab n d Hn) in *.
  split; [done|]. destruct Hs as [Hs|Hs]; rewrite Hs; destruct (curr_tri d) eqn:E; try done.
  - by destruct (Hb Hs).
  - by rewrite decide_False by auto.
Qed.

Lemma is_const_spec s : typed → is_const s = true → type (sym_of s) = S_UNKNOWN.
Proof.
  intros [Ht _] Hc. destruct s as [| | |n]; [done..|].
  unfold is_const in Hc. apply negb_true_iff, Z.eqb_neq in Hc.
  destruct (sym_tab !! n) as [d|] eqn:Hn.
  - pose proof (Forall_lookup_1 _ _ _ _ Ht Hn) as (_ & _ & Hcd).
    rewrite (sym_of_tab n d Hn) in *. naive_solver.
  - destruct (sym_of_dangling n Hn) as [_ Hf]. by rewrite Hf in Hc.
Qed.

Lemma const_in_tab n :
  is_const (Sym n) = true →
  ∃ d, sym_tab !! n = Some d ∧ sym_of (Sym n) = d ∧ flags d .& SYMBOL_CONST ≠ 0.
Proof.
  unfold is_const. intros Hc%negb_true_iff%Z.eqb_neq.
  destruct (sym_tab !! n) as [d|] eqn:Hn.
  - exists d. rewrite (sym_of_tab n d Hn) in *. done.
  - destruct (sym_of_dangling n Hn) as [_ Hf]. by rewrite Hf in Hc.
Qed.

(** Entries kept by a filter keep their order, so equal images under a
    duplicate-free map are one entry. *)
Lemma NoDup_filter_inj {A B} (P : A → Prop) `{∀ x, Decision (P x)} (f : A → B) l i j x y :
  NoDup (f <$> filter P l) → l !! i = Some x → l !! j = Some y → P x → P y → f x = f y → i = j.
Proof.
  revert i j. induction l as [|z l IH]; intros i j Hnd Hi Hj Px Py Hf; [done|].
  rewrite filter_cons in Hnd. destruct i as [|i], j as [|j]; simplify_eq/=; [done| | |].
  - rewrite decide_True in Hnd by done. apply NoDup_cons in Hnd as [Hn _].
    destruct Hn. rewrite Hf. apply list_elem_of_fmap_2, list_elem_of_filter.
    split; [done|]. by eapply list_elem_of_lookup_2.
  - rewrite decide_True in Hnd by done. apply NoDup_cons in Hnd as [Hn _].
    destruct Hn. rewrite <- Hf. apply list_elem_of_fmap_2, list_elem_of_filter.
    split; [done|]. by eapply list_elem_of_lookup_2.
  - f_equal. apply IH; try done. case_decide; [|done]. by apply NoDup_cons in Hnd as [_ ?].
Qed.
End tab.
End KconfigSimp.
