(* ===== verification/KconfigJoin.v ===== *)
(** * Joining the operands of a Kconfig expression

    The value of a comparison in a well-typed symbol table, and the contract
    of [expr_join_or] and [expr_join_and]: the expression they return has the
    value of the two operands together. *)

From S2P Require Import Prelude CLib KconfigExpr KconfigSimp.
Open Scope Z_scope.

Module KconfigJoin.
Import KconfigExpr KconfigSimp.

Lemma strcmp_zero s1 s2 : strcmp s1 s2 = 0 ↔ s1 = s2.
Proof.
  revert s2. induction s1 as [|a s1 IH]; intros [|b s2]; simpl; try done.
  destruct (Z.ltb_spec a b); [split; [done|intros [=]; lia]|].
  destruct (Z.ltb_spec b a); [split; [done|intros [=]; lia]|].
  rewrite IH. assert (a = b) as -> by lia. naive_solver.
Qed.
Lemma strcmp_eqb s1 s2 : (strcmp s1 s2 =? 0) = bool_decide (s1 = s2).
Proof.
  apply eq_true_iff_eq. rewrite Z.eqb_eq, bool_decide_eq_true. apply strcmp_zero.
Qed.

Section tab.
Context `{T : SymTab}.

(** Against a constant that is not a small number, the texts decide. *)
Lemma small_spec s k v :
  expr_parse_string s S_UNKNOWN = (k, v) → k ≠ k_string → small_number s = false →
  k = k_signed ∧ (s ∉ [cs "n"; cs "m"; cs "y"]) ∧ (s64 v ∉ [0; 1; 2]).
Proof.
  intros E Hk Hs. unfold small_number in Hs. rewrite E, bool_decide_eq_false_2 in Hs by done. simpl in Hs.
  apply orb_false_iff in Hs as [[H0%Z.eqb_neq H1%Z.eqb_neq]%orb_false_iff H2%Z.eqb_neq].
  split; [|split; [|set_solver]].
  - revert E. unfold expr_parse_string. destruct (strtoll s 0) as [[w errno] r]. case_match; naive_solver.
  - intros Hin. rewrite !elem_of_cons in Hin. destruct Hin as [->|[->|[->|[]%not_elem_of_nil]]];
      vm_compute in E; naive_solver.
Qed.
Lemma calc_zero_const a b :
  typed → bool_or_tri a → is_const b = true → plain_sym b = true →
  (calc_res a b =? 0) = bool_decide (tri_text (curr_tri (sym_of a)) = curr_val (sym_of b)).
Proof.
  intros Ht Ha Hb Hp. pose proof (is_const_spec b Ht Hb) as Tb.
  unfold plain_sym in Hp. rewrite Hb in Hp. apply negb_true_iff in Hp. simpl in Hp.
  assert (sym_get_string_value b = curr_val (sym_of b)) as Hs
    by (unfold sym_get_string_value; by rewrite Tb).
  unfold calc_res, compare_values. rewrite Hs, Tb, (proj2 (typed_sym a Ht Ha)).
  rewrite (bool_decide_eq_false_2 (type (sym_of a) = S_STRING)) by (destruct Ha; congruence). cbn [negb orb].
  destruct (expr_parse_string (curr_val (sym_of b)) S_UNKNOWN) as [k2 r2] eqn:E2.
  assert (∃ v, expr_parse_string (tri_text (curr_tri (sym_of a))) (type (sym_of a)) = (k_signed, v) ∧ s64 v ∈ [0; 1; 2])
    as (v & -> & Hv).
  { destruct Ha as [-> | ->], (curr_tri (sym_of a)); eexists; (split; [reflexivity|vm_compute; set_solver]). }
  destruct (decide (k2 = k_string)) as [->|Hk]; [cbn; apply strcmp_eqb|].
  destruct (small_spec _ _ _ E2 Hk Hp) as (-> & Hno & Hr).
  change (bool_decide (k_signed = k_string)) with false. change (bool_decide (k_signed = k_unsigned)) with false. cbn [orb].
  rewrite (bool_decide_eq_false_2 (tri_text _ = _)).
  - unfold sign_cmp. apply Z.eqb_neq. intros H0. assert (s64 v = s64 r2) as Heq.
    { destruct (Z.ltb_spec (s64 r2) (s64 v)), (Z.ltb_spec (s64 v) (s64 r2)); lia. }
    by rewrite Heq in Hv.
  - intros Heq. apply Hno. rewrite <- Heq. destruct (curr_tri (sym_of a)); set_solver.
Qed.

Lemma calc_equal_const a b :
  typed → bool_or_tri a → is_const b = true → plain_sym b = true →
  expr_calc_value (COMP EQUAL a b) =
    tri_of (bool_decide (tri_text (curr_tri (sym_of a)) = curr_val (sym_of b))).
Proof. intros. simpl. by rewrite calc_zero_const. Qed.
Lemma calc_unequal_const a b :
  typed → bool_or_tri a → is_const b = true → plain_sym b = true →
  expr_calc_value (COMP UNEQUAL a b) =
    tri_of (bool_decide (tri_text (curr_tri (sym_of a)) ≠ curr_val (sym_of b))).
Proof.
  intros. simpl. rewrite calc_zero_const, bool_decide_not by done. by case_bool_decide.
Qed.

(** Different constants have different texts. *)
Lemma const_text_inj b c :
  typed → is_const b = true → is_const c = true →
  curr_val (sym_of b) = curr_val (sym_of c) → b = c.
Proof.
  intros [Ht Hu] Hb Hc Heq.
  assert (∀ n s, is_const (Sym n) = true → s ∈ [cs "n"; cs "m"; cs "y"] →
    curr_val (sym_of (Sym n)) ≠ s) as Hyn.
  { intros n s Hn Hs. destruct (const_in_tab n Hn) as (d & Hd & -> & Hf).
    pose proof (Forall_lookup_1 _ _ _ _ Ht Hd) as (_ & _ & Hcd).
    destruct (Hcd Hf) as (_ & Hno). congruence. }
  assert (∀ n s, is_const (Sym n) = true → curr_val (sym_of (Sym n)) = curr_val (sym_of s) →
    is_const s = true → ∃ m, s = Sym m) as Hdiff.
  { intros n s Hn Hs _. destruct s as [| | |m]; [| | |by exists m];
      exfalso; apply (Hyn n _ Hn) with (2 := Hs); set_solver. }
  destruct b as [| | |n], c as [| | |m]; try done;
    try (by edestruct Hdiff as [? ?]; [exact Hb|exact Heq|done|]);
    try (by edestruct Hdiff as [? ?]; [exact Hc|symmetry; exact Heq|done|]).
  f_equal. destruct (const_in_tab n Hb) as (d & Hd & Ed & Hf).
  destruct (const_in_tab m Hc) as (d' & Hd' & Ed' & Hf').
  rewrite Ed, Ed' in Heq. by eapply NoDup_filter_inj.
Qed.

(** ** The shape of joined operands *)

(** The symbol an operand is about. *)
Definition lsym (e : expr) : option symbol :=
  match e with
  | SYMBOL s | COMP _ s _ | NOT (SYMBOL s) | NOT (COMP _ s _) => Some s
  | _ => None
  end.

Lemma join_sym1_ret e : wf e → ∃ o, join_sym1 e = Ret o ∧ ∀ s, o = Some s → lsym e = Some s.
Proof.
  intros We. destruct e as [| | |l|t a b| | |]; try (eexists; split; [done|]; naive_solver).
  destruct l as [| | | |[]| | |]; try done; eexists; (split; [done|]; naive_solver).
Qed.
Lemma join_sym2_ret e : wf e → ∃ o, join_sym2 e = Ret o ∧ ∀ s, o = Some s → lsym e = Some s.
Proof.
  intros We. destruct e as [| | |l|t a b| | |]; try (eexists; split; [done|]; naive_solver).
  destruct l as [| | | |[]| | |]; try done; eexists; (split; [done|]; naive_solver).
Qed.
Lemma join_sym_ret e1 e2 :
  wf e1 → wf e2 → ∃ o, join_sym e1 e2 = Ret o ∧
    ∀ s, o = Some s → bool_or_tri s ∧ lsym e1 = Some s ∧ lsym e2 = Some s.
Proof.
  intros W1 W2. unfold join_sym.
  destruct (joinable e1); [|by exists None]. destruct (joinable e2); [|by exists None]. simpl.
  destruct (join_sym1_ret e1 W1) as ([s1|] & -> & H1); [|by exists None]. cbn [mbind result_bind].
  destruct (join_sym2_ret e2 W2) as ([s2|] & -> & H2); [|by exists None]. cbn [mbind result_bind].
  case_bool_decide as Hs; [subst s2|by exists None]. simpl.
  destruct (type (sym_of s1)) eqn:E; try by exists None.
  all: exists (Some s1); split; [done|]; intros s [= <-]; unfold bool_or_tri; auto.
Qed.

Lemma is_comp_spec e t c s : is_comp e t c = true → lsym e = Some s → e = COMP t s c.
Proof.
  destruct e; try done. simpl.
  intros [->%bool_decide_eq_true ->%bool_decide_eq_true]%andb_true_iff [= ->]. done.
Qed.
Lemma is_symbol_spec e s : is_etype e E_SYMBOL = true → lsym e = Some s → e = SYMBOL s.
Proof.
  unfold is_etype. intros H%bool_decide_eq_true. destruct e as [| |[]| |[]| | |]; try done. naive_solver.
Qed.
Lemma not_symbol_spec e s : not_symbol e = true → lsym e = Some s → e = NOT (SYMBOL s).
Proof. destruct e as [| | |[]| | | |]; try done. naive_solver. Qed.
Lemma either_comp_spec e1 e2 t c1 c2 s :
  either_comp e1 e2 t c1 c2 = true → lsym e1 = Some s → lsym e2 = Some s →
  (e1 = COMP t s c1 ∧ e2 = COMP t s c2) ∨ (e1 = COMP t s c2 ∧ e2 = COMP t s c1).
Proof.
  unfold either_comp. intros [[? ?]%andb_true_iff|[? ?]%andb_true_iff]%orb_true_iff ? ?;
    [left|right]; eauto using is_comp_spec.
Qed.
Lemma sym_and_comp_spec e1 e2 t c s :
  sym_and_comp e1 e2 t c = true → lsym e1 = Some s → lsym e2 = Some s →
  (e1 = SYMBOL s ∧ e2 = COMP t s c) ∨ (e1 = COMP t s c ∧ e2 = SYMBOL s).
Proof.
  unfold sym_and_comp. intros [[? ?]%andb_true_iff|[? ?]%andb_true_iff]%orb_true_iff ? ?;
    [left|right]; eauto using is_comp_spec, is_symbol_spec.
Qed.

End tab.

(** Both comparisons with y, m or n, decided by the value of the symbol. *)
Ltac tri_cases s :=
  let Ht := fresh in intros Ht;
  repeat first [rewrite (calc_equal_const s) by done | rewrite (calc_unequal_const s) by done];
  cbn [expr_calc_value tri_op];
  pose proof (typed_sym s Ht ltac:(done)) as [? _];
  destruct (curr_tri (sym_of s)); try reflexivity; try (exfalso; naive_solver).

(** ** The joins *)

Section joins.
Context `{T : SymTab}.

(** What a join may return for the operands [e1] and [e2] of [t]. *)
Definition join_post (t : binop) (e1 e2 tmp : expr) : Prop :=
  tmp = NULL ∨
  wf tmp ∧ (size tmp ≤ size e1)%nat ∧ (operands t e1 = None → operands t tmp = None) ∧
  (nnf e1 → nnf tmp) ∧ (plain e1 → plain e2 → plain tmp) ∧
  (typed → plain e1 → plain e2 → expr_calc_value tmp = tri_op t (expr_calc_value e1) (expr_calc_value e2)).

Lemma join_post_comp t e1 e2 o a b : plain_sym b = true →
  (typed → expr_calc_value (COMP o a b) = tri_op t (expr_calc_value e1) (expr_calc_value e2)) →
  join_post t e1 e2 (COMP o a b).
Proof.
  intros Hb ?. right. split; [done|]. split; [apply size_pos|]. split; [done|]. split; [done|]. split; [|auto].
  intros _ _. cbn. by rewrite Hb.
Qed.
Lemma join_post_symbol t e1 e2 s :
  (typed → expr_calc_value (SYMBOL s) = tri_op t (expr_calc_value e1) (expr_calc_value e2)) →
  join_post t e1 e2 (SYMBOL s).
Proof. intros. right. split_and!; auto; apply size_pos. Qed.
Lemma join_post_null t e1 e2 : join_post t e1 e2 NULL.
Proof. by left. Qed.
Hint Resolve join_post_null : kconf.

Lemma join_or_ok e1 e2 :
  wf e1 → wf e2 → ∃ tmp, expr_join_or e1 e2 = Ret tmp ∧ join_post OR e1 e2 tmp.
Proof.
  intros W1 W2. unfold expr_join_or.
  destruct (expr_eq_ok e1 e2 W1 W2) as ([] & -> & Hv); cbn [mbind result_bind].
  { exists e1. rewrite copy_wf by done. split; [done|]. right. split_and!; try done.
    intros _ _ _. by rewrite <- Hv, tri_op_idem. }
  destruct (join_sym_ret e1 e2 W1 W2) as ([s|] & -> & Hs); cbn [mbind result_bind];
    [|eexists; split; [done|auto with kconf]].
  destruct (Hs s eq_refl) as (Bs & L1 & L2).
  repeat (case_match eqn:E; [apply andb_true_iff in E as [Et E];
    eexists; (split; [done|])|clear E]); [..|eexists; split; [done|auto with kconf]].
  1-3: apply join_post_comp; [done|]; destruct (either_comp_spec _ _ _ _ _ _ E L1 L2) as [[-> ->]|[-> ->]];
    tri_cases s.
  apply bool_decide_eq_true in Et. apply join_post_symbol.
  apply orb_true_iff in E as [[EN ES]%andb_true_iff|[EN ES]%andb_true_iff].
  - rewrite (not_symbol_spec _ _ EN L1), (is_symbol_spec _ _ ES L2). tri_cases s.
  - rewrite (not_symbol_spec _ _ EN L2), (is_symbol_spec _ _ ES L1). tri_cases s.
Qed.

(** (a='b') && (a!='c') for constants [b] and [c]. *)
Lemma join_eq_neq_ok s b c e :
  bool_or_tri s → join_eq_neq s b c = Some e → wf e ∧ nnf e ∧ size e = 1%nat ∧ operands AND e = None ∧
  (plain_sym b = true → plain e) ∧
  (typed → plain_sym b = true → plain_sym c = true → expr_calc_value e =
     EXPR_AND (expr_calc_value (COMP EQUAL s b)) (expr_calc_value (COMP UNEQUAL s c))).
Proof.
  intros Bs. unfold join_eq_neq. destruct (is_const c && is_const b) eqn:E; [|done].
  apply andb_true_iff in E as [Cc Cb]. intros [= <-].
  destruct (decide (b = c)) as [->|Hne].
  - split_and!; [done..|]. intros Ht Pb Pc.
    rewrite calc_equal_const, calc_unequal_const by done.
    repeat case_bool_decide; done.
  - split_and!; [done..|intros Pb; cbn; by rewrite Pb|]. intros Ht Pb Pc. unfold expr_alloc_comp.
    rewrite calc_equal_const, calc_unequal_const by done.
    case_bool_decide as H1; [|repeat case_bool_decide; done].
    rewrite bool_decide_eq_true_2; [done|]. rewrite H1. intros H2.
    by destruct Hne; apply const_text_inj.
Qed.
Lemma join_eq_neq_post e1 e2 s e :
  bool_or_tri s → lsym e1 = Some s → lsym e2 = Some s →
  match e1, e2 with
  | COMP EQUAL _ b, COMP UNEQUAL _ c => join_eq_neq s b c
  | COMP UNEQUAL _ c, COMP EQUAL _ b => join_eq_neq s b c
  | _, _ => None
  end = Some e → join_post AND e1 e2 e.
Proof.
  intros Bs L1 L2 He.
  destruct e1 as [| | | |[] a b| | |]; try done; destruct e2 as [| | | |[] a' b'| | |]; try done;
    injection L1 as ->; injection L2 as ->;
    destruct (join_eq_neq_ok s _ _ _ Bs He) as (We & Fe & Se & Oe & Pe & Ve);
    right; (split_and!; [done|rewrite Se; apply size_pos|done|done|intros P1%Is_true_true P2%Is_true_true; auto|]);
    intros Ht P1%Is_true_true P2%Is_true_true; [by apply Ve|].
  rewrite tri_op_comm. by apply Ve.
Qed.

Lemma join_and_ok e1 e2 :
  wf e1 → wf e2 → ∃ tmp, expr_join_and e1 e2 = Ret tmp ∧ join_post AND e1 e2 tmp.
Proof.
  intros W1 W2. unfold expr_join_and.
  destruct (expr_eq_ok e1 e2 W1 W2) as ([] & -> & Hv); cbn [mbind result_bind].
  { exists e1. rewrite copy_wf by done. split; [done|]. right. split_and!; try done.
    intros _ _ _. by rewrite <- Hv, tri_op_idem. }
  destruct (join_sym_ret e1 e2 W1 W2) as ([s|] & -> & Hs); cbn [mbind result_bind];
    [|eexists; split; [done|auto with kconf]].
  destruct (Hs s eq_refl) as (Bs & L1 & L2). unfold expr_alloc_comp, expr_alloc_symbol.
  do 3 (destruct (sym_and_comp e1 e2 _ _) eqn:E in |- *;
    [eexists; (split; [done|]); ((apply join_post_comp; [done|]) || apply join_post_symbol);
     destruct (sym_and_comp_spec _ _ _ _ _ E L1 L2) as [[-> ->]|[-> ->]]; tri_cases s
    |clear E]).
  case_bool_decide; [|eexists; split; [done|auto with kconf]].
  case_match eqn:E; [eexists; split; [done|by eapply join_eq_neq_post]|clear E].
  do 3 (destruct (either_comp e1 e2 _ _ _) eqn:E in |- *;
    [eexists; (split; [done|]); apply join_post_comp; [done|];
     destruct (either_comp_spec _ _ _ _ _ _ E L1 L2) as [[-> ->]|[-> ->]]; tri_cases s
    |clear E]).
  eexists; split; [done|auto with kconf].
Qed.

Definition expr_join (t : binop) : expr → expr → result expr :=
  match t with OR => expr_join_or | AND => expr_join_and end.
Lemma join_ok t e1 e2 :
  wf e1 → wf e2 → ∃ tmp, expr_join t e1 e2 = Ret tmp ∧ join_post t e1 e2 tmp.
Proof. destruct t; [apply join_or_ok|apply join_and_ok]. Qed.
End joins.
End KconfigJoin.
