(* ===== verification/KconfigDups.v ===== *)
(** * Elimination of duplicate operands in a Kconfig expression

    [expr_eliminate_dups1] walks one tree with two pointers.  The operators of
    its type form a skeleton that the walk never changes; the leaves of the
    skeleton are its operands, joined two by two.  The walk returns, keeps the
    value, and a pass that joined something leaves a smaller tree once y and n
    are eliminated, so [expr_eliminate_dups] ends. *)

From S2P Require Import Prelude CLib KconfigExpr KconfigSimp KconfigJoin.
Open Scope Z_scope.

Module KconfigDups.
Import KconfigExpr KconfigSimp KconfigJoin.

(** ** The skeleton of an operator *)

Inductive shape := Leaf | Node (l r : shape).
Fixpoint skel (t : binop) (e : expr) : shape :=
  match e with
  | BIN o l r => if decide (o = t) then Node (skel t l) (skel t r) else Leaf
  | _ => Leaf
  end.
Fixpoint shape_at (s : shape) (p : path) {struct p} : option shape :=
  match p, s with
  | [], _ => Some s
  | d :: p, Node l r => shape_at (if d then r else l) p
  | _ :: _, Leaf => None
  end.
Fixpoint ssize (s : shape) : nat :=
  match s with Leaf => 1 | Node l r => S (ssize l + ssize r) end.

Lemma skel_bin t l r : skel t (BIN t l r) = Node (skel t l) (skel t r).
Proof. simpl. by rewrite decide_True. Qed.
Lemma skel_leaf t e : operands t e = None ↔ skel t e = Leaf.
Proof. destruct e; simpl; try done. by case_decide. Qed.
Lemma skel_node t e l r :
  skel t e = Node l r → ∃ a b, e = BIN t a b ∧ skel t a = l ∧ skel t b = r.
Proof. destruct e; try done. simpl. case_decide; [intros [= <- <-]; subst; eauto|done]. Qed.
Lemma ssize_size t e : (ssize (skel t e) ≤ size e)%nat.
Proof.
  induction e as [| |o l IHl r IHr| | | | |]; simpl; try lia. case_decide; simpl; lia.
Qed.
Lemma shape_at_app s p l r d :
  shape_at s p = Some (Node l r) → shape_at s (p ++ [d]) = Some (if d then r else l).
Proof.
  revert s. induction p as [|d' p IH]; intros s Hs; simpl in *; [injection Hs as ->; by destruct d|].
  destruct s; [done|]. by apply IH.
Qed.

(** A path down the skeleton of [e] starts at a node of it. *)
Lemma shape_at_cons t e d p s :
  shape_at (skel t e) (d :: p) = Some s →
  ∃ a b, e = BIN t a b ∧ shape_at (skel t (if d then b else a)) p = Some s.
Proof.
  simpl. destruct (skel t e) as [|l r] eqn:E; [done|].
  apply skel_node in E as (a & b & -> & <- & <-). exists a, b. by destruct d.
Qed.

(** Induction along a path of the skeleton: [e] becomes [BIN t a b]. *)
Ltac path_ind p :=
  induction p as [|d p IH]; intros e He;
  [simpl|apply shape_at_cons in He as (a & b & -> & He)].

Lemma sub_shape t p s : ∀ e, shape_at (skel t e) p = Some s → skel t (sub e p) = s.
Proof. path_ind p; [naive_solver|]. destruct d; by apply IH. Qed.
Lemma wf_sub t p s : ∀ e, shape_at (skel t e) p = Some s → wf e → wf (sub e p).
Proof. path_ind p; [done|]. intros [? ?]%wf_bin_inv. destruct d; by apply IH. Qed.
Lemma wf_put t p s x : ∀ e, shape_at (skel t e) p = Some s → wf e → wf x → wf (put e p x).
Proof.
  path_ind p; [done|]. intros [? ?]%wf_bin_inv ?. destruct d; apply wf_bin; auto.
Qed.
Lemma nnf_put t p s x : ∀ e, shape_at (skel t e) p = Some s → nnf e → nnf x → nnf (put e p x).
Proof.
  path_ind p; [done|]. intros [? ?]%nnf_bin_inv ?. destruct d; apply nnf_bin; auto.
Qed.
Lemma nnf_sub t p s : ∀ e, shape_at (skel t e) p = Some s → nnf e → nnf (sub e p).
Proof. path_ind p; [done|]. intros [? ?]%nnf_bin_inv. destruct d; by apply IH. Qed.
Lemma size_put t p s x :
  ∀ e, shape_at (skel t e) p = Some s → (size (put e p x) + size (sub e p) = size e + size x)%nat.
Proof. path_ind p; [lia|]. destruct d; simpl; specialize (IH _ He); lia. Qed.
Lemma size_sub t p s : ∀ e, shape_at (skel t e) p = Some s → p ≠ [] → (size (sub e p) < size e)%nat.
Proof.
  path_ind p; [done|]. intros _. destruct p as [|d' p].
  - destruct d; simpl; lia.
  - specialize (IH _ He ltac:(done)). destruct d; simpl in *; lia.
Qed.
Lemma put_sub t p s : ∀ e, shape_at (skel t e) p = Some s → put e p (sub e p) = e.
Proof. path_ind p; [done|]. destruct d; simpl; by rewrite IH. Qed.
Lemma put_put t p s x y : ∀ e, shape_at (skel t e) p = Some s → put (put e p x) p y = put e p y.
Proof. path_ind p; [done|]. destruct d; simpl; by rewrite IH. Qed.
Lemma sub_put_same t p s x : ∀ e, shape_at (skel t e) p = Some s → sub (put e p x) p = x.
Proof. path_ind p; [done|]. destruct d; by apply IH. Qed.
Lemma skel_put t p x :
  ∀ e, shape_at (skel t e) p = Some Leaf → skel t x = Leaf → skel t (put e p x) = skel t e.
Proof.
  path_ind p; [intros ->; simpl in He; congruence|]. intros Hx. destruct d; cbn [put]; rewrite !skel_bin; by rewrite IH.
Qed.

(** Two different leaves. *)
Definition leaves2 (t : binop) (e : expr) (p1 p2 : path) : Prop :=
  shape_at (skel t e) p1 = Some Leaf ∧ shape_at (skel t e) p2 = Some Leaf ∧ p1 ≠ p2.

Lemma leaves2_sym t e p1 p2 : leaves2 t e p1 p2 → leaves2 t e p2 p1.
Proof. unfold leaves2. naive_solver. Qed.
Lemma leaves2_nonempty t e p1 p2 : leaves2 t e p1 p2 → p1 ≠ [].
Proof.
  intros (H1 & H2 & Hne) ->. simpl in H1. injection H1 as H1. rewrite H1 in H2.
  by destruct p2.
Qed.
(** Two different leaves are below one operand, or on either side. *)
Lemma leaves2_cases t e p1 p2 :
  leaves2 t e p1 p2 → ∃ a b (d1 : bool) q1 (d2 : bool) q2, e = BIN t a b ∧ p1 = d1 :: q1 ∧ p2 = d2 :: q2 ∧
    shape_at (skel t (if d1 then b else a)) q1 = Some Leaf ∧
    shape_at (skel t (if d2 then b else a)) q2 = Some Leaf ∧ (d1 = d2 → q1 ≠ q2).
Proof.
  intros H. pose proof (leaves2_nonempty _ _ _ _ H) as N1.
  pose proof (leaves2_nonempty _ _ _ _ (leaves2_sym _ _ _ _ H)) as N2.
  destruct H as (H1 & H2 & Hne). destruct p1 as [|d1 q1]; [done|]. destruct p2 as [|d2 q2]; [done|].
  apply shape_at_cons in H1 as (a & b & -> & H1).
  apply shape_at_cons in H2 as (a' & b' & [= <- <-] & H2).
  exists a, b, d1, q1, d2, q2. split_and!; try done. congruence.
Qed.
(** Induction along two paths to different leaves. *)
Lemma leaves2_ind (t : binop) (P : expr → path → path → Prop) :
  (∀ a b (d : bool) q1 q2, leaves2 t (if d then b else a) q1 q2 → P (if d then b else a) q1 q2 →
     P (BIN t a b) (d :: q1) (d :: q2)) →
  (∀ a b (d : bool) q1 q2, shape_at (skel t (if d then b else a)) q1 = Some Leaf →
     shape_at (skel t (if d then a else b)) q2 = Some Leaf →
     P (BIN t a b) (d :: q1) (negb d :: q2)) →
  ∀ e p1 p2, leaves2 t e p1 p2 → P e p1 p2.
Proof.
  intros Hsame Hdiff e p1. revert e. induction p1 as [|d p1 IH]; intros e p2 H.
  - by destruct (leaves2_nonempty _ _ _ _ H).
  - apply leaves2_cases in H as (a & b & d1 & q1 & d2 & q2 & -> & [= <- <-] & -> & H1 & H2 & Hne).
    destruct (decide (d = d2)) as [<-|Hd].
    + apply Hsame; [|apply IH]; split_and!; auto.
    + assert (d2 = negb d) as -> by (destruct d, d2; done). apply Hdiff; [done|].
      by destruct d.
Qed.

Lemma sub_put_other t x : ∀ e p1 p2, leaves2 t e p1 p2 → sub (put e p1 x) p2 = sub e p2.
Proof.
  apply leaves2_ind; [intros a b [] q1 q2 _ IH; exact IH|by intros a b [] q1 q2 _ _].
Qed.
Lemma put_comm t x y :
  ∀ e p1 p2, leaves2 t e p1 p2 → put (put e p1 x) p2 y = put (put e p2 y) p1 x.
Proof.
  apply leaves2_ind; [|by intros a b [] q1 q2 _ _].
  intros a b [] q1 q2 _ IH; simpl; by rewrite IH.
Qed.

Section tab.
Context `{T : SymTab}.

Lemma plain_put t p s x : ∀ e, shape_at (skel t e) p = Some s → plain e → plain x → plain (put e p x).
Proof. path_ind p; [done|]. intros [? ?]%plain_bin_inv ?. destruct d; apply plain_bin; auto. Qed.
Lemma plain_sub t p s : ∀ e, shape_at (skel t e) p = Some s → plain e → plain (sub e p).
Proof. path_ind p; [done|]. intros [? ?]%plain_bin_inv. destruct d; by apply IH. Qed.

(** ** Values *)

(** The value of an expression, as a function of one of its operands. *)
Lemma val_put t p s :
  ∀ e, shape_at (skel t e) p = Some s →
  ∃ k, ∀ x, expr_calc_value (put e p x) = tri_op t (expr_calc_value x) k.
Proof.
  path_ind p.
  - exists (tri_unit t). intros x. by rewrite tri_op_unit_r.
  - destruct (IH _ He) as [k Hk]. destruct d.
    + exists (tri_op t k (expr_calc_value a)). intros x. cbn [put].
      by rewrite calc_bin, Hk, tri_op_comm, tri_op_assoc.
    + exists (tri_op t k (expr_calc_value b)). intros x. cbn [put].
      by rewrite calc_bin, Hk, tri_op_assoc.
Qed.
(** As a function of two of them. *)
Lemma val_put2 t :
  ∀ e p1 p2, leaves2 t e p1 p2 →
  ∃ k, ∀ x y, expr_calc_value (put (put e p1 x) p2 y) =
              tri_op t (tri_op t (expr_calc_value x) (expr_calc_value y)) k.
Proof.
  apply leaves2_ind.
  - intros a b d q1 q2 _ [k Hk]. destruct d.
    + exists (tri_op t k (expr_calc_value a)). intros x y. cbn [put].
      by rewrite calc_bin, Hk, tri_op_comm, tri_op_assoc.
    + exists (tri_op t k (expr_calc_value b)). intros x y. cbn [put].
      by rewrite calc_bin, Hk, tri_op_assoc.
  - intros a b d q1 q2 [k1 H1]%val_put [k2 H2]%val_put. exists (tri_op t k1 k2).
    intros x y. destruct d; cbn [put negb]; rewrite calc_bin, H1, H2;
      generalize (expr_calc_value x), (expr_calc_value y); clear;
      intros v w; destruct t, v, w, k1, k2; reflexivity.
Qed.

(** ** Operands y and n *)

Lemma has_yn_put_in t p s x :
  ∀ e, shape_at (skel t e) p = Some s → has_yn x = true → has_yn (put e p x) = true.
Proof.
  path_ind p; [done|]. intros Hx. destruct d; simpl; rewrite IH by done; by rewrite ?orb_true_r.
Qed.
Lemma has_yn_put_leaf t p s x :
  ∀ e, shape_at (skel t e) p = Some s → p ≠ [] → yn_leaf x = true → has_yn (put e p x) = true.
Proof.
  path_ind p; [done|]. intros _ Hx. destruct p as [|d' p].
  - destruct d; simpl; rewrite Hx; by rewrite ?orb_true_r.
  - specialize (IH _ He ltac:(done) Hx). clear He. revert IH. generalize (d' :: p). intros q IH.
    destruct d; simpl; rewrite IH; by rewrite ?orb_true_r.
Qed.
Lemma put_not_yn_leaf e d p x : yn_leaf (put e (d :: p) x) = yn_leaf e.
Proof. destruct e; try done. by destruct d. Qed.
(** An operand y or n outside of [p] stays. *)
Lemma has_yn_put_out t p s x :
  ∀ e, shape_at (skel t e) p = Some s → has_yn e = true →
  has_yn (sub e p) = true ∨ yn_leaf (sub e p) = true ∨ has_yn (put e p x) = true.
Proof.
  path_ind p; [auto|]. intros Hyn. simpl in Hyn.
  destruct d; cbn [sub put has_yn].
  - destruct (has_yn b) eqn:Hb.
    { destruct (IH b He Hb) as [?|[?|Hput]]; auto. rewrite Hput, !orb_true_r. auto. }
    destruct (yn_leaf a); [auto|]. destruct (has_yn a); [rewrite !orb_true_r; auto|].
    rewrite !orb_false_r in Hyn. simpl in Hyn. destruct p as [|d' p]; [auto|].
    pose proof (put_not_yn_leaf b d' p x) as HH. revert HH.
    generalize (put b (d' :: p) x). intros z ->. rewrite Hyn. simpl. auto.
  - destruct (has_yn a) eqn:Ha.
    { destruct (IH a He Ha) as [?|[?|Hput]]; auto. rewrite Hput, !orb_true_r. auto. }
    destruct (yn_leaf b); [rewrite !orb_true_r; auto|].
    destruct (has_yn b); [rewrite !orb_true_r; auto|].
    rewrite !orb_false_r in Hyn. destruct p as [|d' p]; [auto|].
    pose proof (put_not_yn_leaf a d' p x) as HH. revert HH.
    generalize (put a (d' :: p) x). intros z ->. rewrite Hyn. simpl. auto.
Qed.

(** ** The walk *)

(** What a step of the walk leaves of the tree [e] and the counter [c]. *)
Record walked (t : binop) (e : expr) (c : Z) (e' : expr) (c' : Z) : Prop := {
  walked_wf : wf e';
  walked_skel : skel t e' = skel t e;
  walked_size : (size e' ≤ size e)%nat;
  walked_nnf : nnf e → nnf e';
  walked_plain : plain e → plain e';
  walked_val : typed → plain e → expr_calc_value e' = expr_calc_value e;
  walked_yn : c' ≠ c ∨ has_yn e = true → has_yn e' = true ∨ (size e' < size e)%nat
}.

Lemma walked_refl t e c : wf e → walked t e c e c.
Proof. intros. split; auto. naive_solver. Qed.
Lemma walked_trans t e c e' c' e'' c'' :
  walked t e c e' c' → walked t e' c' e'' c'' → walked t e c e'' c''.
Proof.
  intros [_ K1 S1 F1 P1 V1 Y1] [W2 K2 S2 F2 P2 V2 Y2].
  split; [done|congruence|lia|auto|auto|intros; by rewrite V2, V1 by auto|].
  intros H. destruct (decide (c' = c)) as [->|Hc].
  - destruct H as [H|H]; [destruct Y2; [by left|by left|right; lia]|].
    destruct Y1; [by right| |right; lia]. destruct Y2; [by right|by left|right; lia].
  - destruct Y1; [by left| |right; lia]. destruct Y2; [by right|by left|right; lia].
Qed.

(** An operand of another type, rewritten in place. *)
Lemma walked_nested t t1 e p c e1' c' :
  shape_at (skel t e) p = Some Leaf → wf e → skel t1 (sub e p) ≠ Leaf → t1 ≠ t →
  walked t1 (sub e p) c e1' c' → walked t e c (put e p e1') c'.
Proof.
  intros Hp We Hn Ht [W1 K1 S1 F1 P1 V1 Y1].
  assert (skel t e1' = Leaf) as Hl.
  { rewrite <- K1 in Hn. destruct (skel t1 e1') eqn:E; [done|].
    apply skel_node in E as (a & b & -> & _). simpl. by rewrite decide_False by done. }
  pose proof (size_put t p Leaf e1' e Hp) as Hs.
  split; [by eapply wf_put|by apply skel_put|lia| | | |].
  - intros Fe. eapply nnf_put; [done..|]. apply F1. by eapply nnf_sub.
  - intros Pe. eapply plain_put; [done..|]. apply P1. by eapply plain_sub.
  - intros Ty Pe. destruct (val_put t p _ e Hp) as [k Hk].
    rewrite <- (put_sub t p _ e Hp) at 2. rewrite !Hk, V1; [done|done|]. by eapply plain_sub.
  - assert (yn_leaf (sub e p) = false) as Hy.
    { destruct (skel t1 (sub e p)) eqn:E; [done|]. by apply skel_node in E as (a & b & -> & _). }
    intros H.
    assert (c' ≠ c ∨ has_yn (sub e p) = true ∨ has_yn (put e p e1') = true) as [Hc|[Hc|Hc]].
    { destruct H as [H|H]; [by left|]. right.
      destruct (has_yn_put_out t p _ e1' e Hp H) as [?|[?|?]]; auto. congruence. }
    + destruct Y1 as [?|?]; [by left|left; by eapply has_yn_put_in|right; lia].
    + destruct Y1 as [?|?]; [by right|left; by eapply has_yn_put_in|right; lia].
    + by left.
Qed.

(** Two operands joined. *)
Lemma walked_join t e p1 p2 c tmp :
  leaves2 t e p1 p2 → wf e → tmp ≠ NULL → join_post t (sub e p1) (sub e p2) tmp →
  walked t e c (put (put e p1 (SYMBOL (neutral t))) p2 tmp) (c + 1).
Proof.
  intros H2 We Hn [?|(Wt & St & Ot & Ft & Pt & Vt)]; [done|]. pose proof H2 as (Hp1 & Hp2 & Hne).
  assert (skel t tmp = Leaf) as Kt.
  { apply skel_leaf, Ot, skel_leaf. by apply sub_shape. }
  assert (skel t (put e p1 (SYMBOL (neutral t))) = skel t e) as K1 by by apply skel_put.
  assert (shape_at (skel t (put e p1 (SYMBOL (neutral t)))) p2 = Some Leaf) as Hp2' by congruence.
  pose proof (size_put t p1 _ (SYMBOL (neutral t)) e Hp1) as Z1.
  pose proof (size_put t p2 _ tmp _ Hp2') as Z2.
  rewrite (sub_put_other t _ e p1 p2 H2) in Z2. pose proof (size_pos (sub e p2)). simpl in Z1.
  split; [eapply wf_put; [done| |done]; by eapply wf_put|by rewrite skel_put|lia| | | |].
  - intros Fe. eapply nnf_put; [done|by eapply nnf_put|]. apply Ft. by eapply nnf_sub.
  - intros Pe. eapply plain_put; [done|by eapply plain_put|]. apply Pt; by eapply plain_sub.
  - intros Ty Pe. destruct (val_put2 t e p1 p2 H2) as [k Hk].
    assert (e = put (put e p1 (sub e p1)) p2 (sub e p2)) as He.
    { rewrite (put_sub t p1 _ e Hp1). by rewrite (put_sub t p2 _ e Hp2). }
    rewrite He at 2. rewrite !Hk, calc_neutral, tri_op_unit_l, Vt; [done|done|by eapply plain_sub..].
  - intros _. left. rewrite (put_comm t) by done.
    eapply has_yn_put_leaf; [|by eapply leaves2_nonempty|by destruct t].
    by rewrite (skel_put t p2 tmp e).
Qed.

(** The depth of calls that a walk needs. *)
Definition walk_need (e : expr) (s1 s2 : shape) : nat :=
  ssize s1 + ssize s2 + (size e - 1) * (size e + 1).
Lemma walk_need_less e e' s1 s2 s1' s2' n :
  (size e' ≤ size e)%nat → (ssize s1' + ssize s2' < ssize s1 + ssize s2)%nat →
  (walk_need e s1 s2 ≤ S n)%nat → (walk_need e' s1' s2' ≤ n)%nat.
Proof. unfold walk_need. nia. Qed.
Lemma walk_need_nested t t1 e p1 p2 n :
  leaves2 t e p1 p2 → (walk_need e Leaf Leaf ≤ S n)%nat →
  (walk_need (sub e p1) (skel t1 (sub e p1)) (skel t1 (sub e p1)) ≤ n)%nat.
Proof.
  intros H2. pose proof (size_sub t p1 _ e (proj1 H2) (leaves2_nonempty _ _ _ _ H2)).
  pose proof (ssize_size t1 (sub e p1)). pose proof (size_pos (sub e p1)).
  unfold walk_need. simpl. nia.
Qed.
Lemma ssize_pos s : (1 ≤ ssize s)%nat.
Proof. destruct s; simpl; lia. Qed.

Definition walk_ok (n : nat) : Prop :=
  ∀ t e p1 p2 c s1 s2, wf e → shape_at (skel t e) p1 = Some s1 →
    shape_at (skel t e) p2 = Some s2 → (walk_need e s1 s2 ≤ n)%nat →
    ∃ e' c', expr_eliminate_dups1 n t e p1 p2 c = Ret (e', c') ∧ walked t e c e' c'.

(** A pair of different operands. *)
Definition dups1_pair (n : nat) (t : binop) (e : expr) (p1 p2 : path) (c : Z) :
    result (expr * Z) :=
  '(e1, c) ←
    match sub e p1 with
    | BIN t1 _ _ => expr_eliminate_dups1 n t1 (sub e p1) [] [] c
    | _ => Ret (sub e p1, c)
    end;
  tmp ← expr_join t e1 (sub e p2);
  match tmp with
  | NULL => Ret (put e p1 e1, c)
  | _ => Ret (put (put (put e p1 e1) p1 (SYMBOL (neutral t))) p2 tmp, c + 1)
  end.

Lemma dups1_nested_ok n t e p1 p2 c :
  walk_ok n → leaves2 t e p1 p2 → wf e → (walk_need e Leaf Leaf ≤ S n)%nat →
  ∃ e1 c', match sub e p1 with
           | BIN t1 _ _ => expr_eliminate_dups1 n t1 (sub e p1) [] [] c
           | _ => Ret (sub e p1, c)
           end = Ret (e1, c') ∧ wf e1 ∧ walked t e c (put e p1 e1) c'.
Proof.
  intros IH H2 We Hn. pose proof H2 as (Hp1 & _ & _).
  pose proof (wf_sub t p1 _ e Hp1 We) as W1. pose proof (sub_shape t p1 _ e Hp1) as K1.
  destruct (sub e p1) as [| |t1 l r| | | | |] eqn:E1;
    try by (eexists _, _; split_and!; [done|done|]; rewrite <- E1, (put_sub t p1 _ e Hp1);
            by apply walked_refl).
  assert (t1 ≠ t) as Ht by (intros ->; by rewrite skel_bin in K1).
  destruct (IH t1 (BIN t1 l r) [] [] c (skel t1 (BIN t1 l r)) (skel t1 (BIN t1 l r)))
    as (e' & c' & He & Hw); [done..| |].
  { rewrite <- E1. by apply (walk_need_nested t _ _ _ p2). }
  exists e', c'. split_and!; [done|by apply Hw|]. rewrite <- E1 in Hw.
  eapply walked_nested; try done. by rewrite E1, skel_bin.
Qed.

Lemma dups1_pair_ok n t e p1 p2 c :
  walk_ok n → leaves2 t e p1 p2 → wf e → (walk_need e Leaf Leaf ≤ S n)%nat →
  ∃ e' c', dups1_pair n t e p1 p2 c = Ret (e', c') ∧ walked t e c e' c'.
Proof.
  intros IH H2 We Hn. unfold dups1_pair.
  destruct (dups1_nested_ok n t e p1 p2 c IH H2 We Hn) as (e1 & c' & -> & W1 & Hw).
  cbn [mbind result_bind]. pose proof H2 as (Hp1 & Hp2 & Hne).
  pose proof (wf_sub t p2 _ e Hp2 We) as W2.
  destruct (join_ok t e1 (sub e p2) W1 W2) as (tmp & -> & Hj). cbn [mbind result_bind].
  destruct (decide (tmp = NULL)) as [->|Hnn]; [by eexists _, _|].
  exists (put (put (put e p1 e1) p1 (SYMBOL (neutral t))) p2 tmp), (c' + 1).
  split; [by destruct tmp|]. eapply walked_trans; [done|].
  assert (leaves2 t (put e p1 e1) p1 p2) as H2'.
  { split_and!; [by rewrite (walked_skel _ _ _ _ _ Hw)..|done]. }
  apply walked_join; [done|by apply Hw|done|].
  by rewrite (sub_put_other t _ e p1 p2 H2), (sub_put_same t p1 _ e1 e Hp1).
Qed.

Lemma dups1_S n t e p1 p2 c :
  wf (sub e p1) → wf (sub e p2) →
  expr_eliminate_dups1 (S n) t e p1 p2 c =
  match operands t (sub e p1), operands t (sub e p2) with
  | Some _, _ =>
      '(e, c) ← expr_eliminate_dups1 n t e (p1 ++ [false]) p2 c;
      expr_eliminate_dups1 n t e (p1 ++ [true]) p2 c
  | None, Some _ =>
      '(e, c) ← expr_eliminate_dups1 n t e p1 (p2 ++ [false]) c;
      expr_eliminate_dups1 n t e p1 (p2 ++ [true]) c
  | None, None => if decide (p1 = p2) then Ret (e, c) else dups1_pair n t e p1 p2 c
  end.
Proof.
  intros W1 W2. cbn [expr_eliminate_dups1].
  rewrite (deref_wf (sub e p1)), (deref_wf (sub e p2)) by done. cbn [mbind result_bind].
  destruct (operands t (sub e p1)); [done|]. destruct (operands t (sub e p2)); [done|].
  case_decide; [done|]. by destruct t.
Qed.

(** The two calls for the operands of a node. *)
Lemma walk_both n t e c (q1 q2 : bool → path) (s1 s2 : bool → shape) :
  walk_ok n → wf e →
  (∀ d, shape_at (skel t e) (q1 d) = Some (s1 d)) →
  (∀ d, shape_at (skel t e) (q2 d) = Some (s2 d)) →
  (∀ e' d, (size e' ≤ size e)%nat → (walk_need e' (s1 d) (s2 d) ≤ n)%nat) →
  ∃ e' c', ('(e, c) ← expr_eliminate_dups1 n t e (q1 false) (q2 false) c;
            expr_eliminate_dups1 n t e (q1 true) (q2 true) c) = Ret (e', c') ∧
    walked t e c e' c'.
Proof.
  intros IH We H1 H2 Hn.
  destruct (IH t e (q1 false) (q2 false) c (s1 false) (s2 false)) as (e' & c' & -> & Hw); auto.
  pose proof Hw as [W' K' S' _ _ _ _]. cbn [mbind result_bind].
  destruct (IH t e' (q1 true) (q2 true) c' (s1 true) (s2 true)) as (e'' & c'' & E & Hw');
    rewrite ?K'; auto.
  exists e'', c''. split; [done|]. by eapply walked_trans.
Qed.

Lemma dups1_ok n : walk_ok n.
Proof.
  induction n as [|n IH]; intros t e p1 p2 c s1 s2 We H1 H2 Hn.
  { unfold walk_need in Hn. pose proof (ssize_pos s1). lia. }
  pose proof (wf_sub t p1 _ e H1 We) as W1. pose proof (wf_sub t p2 _ e H2 We) as W2.
  rewrite dups1_S by done.
  destruct (operands t (sub e p1)) as [[l1 r1]|] eqn:O1.
  { apply operands_Some in O1. pose proof (sub_shape t p1 _ e H1) as K1.
    rewrite O1, skel_bin in K1. subst s1.
    apply (walk_both n t e c (λ d, p1 ++ [d]) (λ _, p2)
             (λ d, if d then skel t r1 else skel t l1) (λ _, s2)); try done.
    - intros d. rewrite (shape_at_app _ _ _ _ d H1). done.
    - intros e' d He. eapply walk_need_less; [done| |done]. destruct d; simpl; lia. }
  destruct (operands t (sub e p2)) as [[l2 r2]|] eqn:O2.
  { apply operands_Some in O2. pose proof (sub_shape t p2 _ e H2) as K2.
    rewrite O2, skel_bin in K2. subst s2.
    apply (walk_both n t e c (λ _, p1) (λ d, p2 ++ [d])
             (λ _, s1) (λ d, if d then skel t r2 else skel t l2)); try done.
    - intros d. rewrite (shape_at_app _ _ _ _ d H2). done.
    - intros e' d He. eapply walk_need_less; [done| |done]. destruct d; simpl; lia. }
  apply skel_leaf in O1, O2. rewrite (sub_shape t p1 _ e H1) in O1.
  rewrite (sub_shape t p2 _ e H2) in O2. subst s1 s2.
  destruct (decide (p1 = p2)) as [|Hne]; [eexists _, _; split; [done|by apply walked_refl]|].
  by apply dups1_pair_ok.
Qed.

(** ** The passes *)

Lemma dups_loop_ok n : ∀ e, wf e → (size e < n)%nat →
  ∃ e', dups_loop n e = Ret e' ∧ wf e' ∧ (size e' ≤ size e)%nat ∧ (nnf e → nnf e') ∧
        (plain e → plain e') ∧ (typed → plain e → expr_calc_value e' = expr_calc_value e).
Proof.
  induction n as [|n IH]; intros e We Hn; [lia|].
  assert (∃ t e1 c1, match e with
    | BIN t _ _ => expr_eliminate_dups1 (dups_fuel e) t e [] [] 0
    | _ => Ret (e, 0) end = Ret (e1, c1) ∧ walked t e 0 e1 c1) as (t & e1 & c1 & E1 & Hw).
  { destruct e as [| |t l r| | | | |];
      try by (eexists AND, _, _; split; [done|by apply walked_refl]).
    exists t. eapply dups1_ok; [done..|]. unfold walk_need, dups_fuel.
    pose proof (ssize_size t (BIN t l r)). pose proof (size_pos (BIN t l r)). nia. }
  cbn [dups_loop]. rewrite E1. cbn [mbind result_bind].
  destruct Hw as [W1 _ S1 F1 P1 V1 Y1].
  destruct (Z.eqb_spec c1 0) as [->|Hc]; [by eauto 10|].
  destruct (eliminate_yn_ok e1 W1) as (e2 & -> & W2 & V2 & S2 & _ & D2 & F2 & P2). cbn [mbind result_bind].
  assert (size e2 < size e)%nat as Hlt.
  { destruct Y1 as [Hy|Hy]; [by left|specialize (D2 Hy); lia|lia]. }
  destruct (IH e2 W2 ltac:(lia)) as (e' & -> & W' & S' & F' & P' & V').
  exists e'. split_and!; [done..|lia|auto|auto|]. intros Ty Pe. by rewrite V', V2, V1 by auto.
Qed.

Lemma eliminate_dups_ok e :
  wf e → ∃ e', expr_eliminate_dups e = Ret e' ∧ wf e' ∧ (size e' ≤ size e)%nat ∧ (nnf e → nnf e') ∧
    (plain e → plain e') ∧ (typed → plain e → expr_calc_value e' = expr_calc_value e).
Proof.
  intros We. destruct (dups_loop_ok (S (size e)) e We ltac:(lia)) as (e' & H & ?).
  exists e'. split; [|done]. by destruct e.
Qed.
End tab.
End KconfigDups.
