(* ===== verification/KconfigProps.v ===== *)
(** * The Kconfig simplifier: theorems *)

From S2P Require Import Prelude CLib KconfigExpr KconfigMenu KconfigSimp KconfigJoin KconfigDups.
Open Scope Z_scope.

Module KconfigProps.
Import KconfigExpr KconfigMenu KconfigSimp KconfigJoin KconfigDups.

(** ** Normal forms of [expr_transform] *)

Section tab.
Context `{T : SymTab}.

(** A comparison that [expr_transform] has nothing to say about. *)
Definition opaque_comp (t : relop) (a b : symbol) : bool :=
  match t with
  | EQUAL | UNEQUAL =>
      negb (bool_decide (type (sym_of a) = S_BOOLEAN)) ||
      match b with Sym _ => true | _ => false end
  | _ => true
  end.
Fixpoint normal (e : expr) : bool :=
  match e with
  | BIN _ l r => normal l && normal r
  | NOT (SYMBOL (Sym _)) => true
  | NOT _ => false
  | COMP t a b => opaque_comp t a b
  | _ => true
  end.

Lemma normal_bin t l r : normal l → normal r → normal (BIN t l r).
Proof. simpl. destruct (normal l), (normal r); done. Qed.
Lemma normal_nnf e : normal e → nnf e.
Proof.
  induction e as [| |t l IHl r IHr|l IHl| | | |]; try done.
  - simpl. intros [? ?]%andb_prop_elim. apply andb_prop_intro. auto.
  - destruct l; done.
Qed.
Lemma weight_pos e : (1 ≤ weight e)%nat.
Proof. induction e; simpl; lia. Qed.

(** The value of a comparison of a boolean with y, m or n. *)
Lemma transform_comp_ok t a b :
  wf (transform_comp t a b) ∧ normal (transform_comp t a b) ∧
  (weight (transform_comp t a b) ≤ 2)%nat ∧ (plain (COMP t a b) → plain (transform_comp t a b)) ∧
  (typed → expr_calc_value (transform_comp t a b) = expr_calc_value (COMP t a b)).
Proof.
  destruct (decide (type (sym_of a) = S_BOOLEAN)) as [Hb|Hb].
  2:{ assert (transform_comp t a b = COMP t a b) as ->.
      { destruct t; simpl; by rewrite ?decide_True by done. }
      split_and!; try done. destruct t; simpl; by rewrite ?bool_decide_eq_false_2 by done. }
  assert (bool_or_tri a) as Ba by (by left).
  destruct a as [| | |n]; try done.
  destruct t; try (by split_and!); destruct b as [| | |m];
    unfold transform_comp; rewrite decide_False by (by intros ?);
    repeat first [rewrite decide_True by done | rewrite decide_False by done];
    (split_and!; [done|try done; simpl; by rewrite ?orb_true_r|simpl; lia|done|]); try done;
    unfold expr_alloc_symbol; tri_cases (Sym n).
Qed.

(** [!] of a comparison. *)
Lemma negate_rel_ok t a b :
  expr_calc_value (COMP (negate_rel t) a b) = EXPR_NOT (expr_calc_value (COMP t a b)).
Proof.
  simpl. generalize (calc_res a b). intros z.
  destruct t; simpl; try (by destruct (z =? 0));
    destruct (Z.ltb_spec z 0), (Z.leb_spec z 0), (Z.leb_spec 0 z), (Z.ltb_spec 0 z);
    try lia; reflexivity.
Qed.
Lemma negate_rel_normal t a b : normal (COMP t a b) → normal (COMP (negate_rel t) a b).
Proof. by destruct t. Qed.

(** ** [expr_transform] *)

Definition transformed (n : nat) (e e' : expr) : Prop :=
  transform_fuel n e = Ret e' ∧ wf e' ∧ normal e' ∧ (weight e' ≤ weight e)%nat ∧ (plain e → plain e') ∧
  (typed → plain e → expr_calc_value e' = expr_calc_value e).
Definition transform_total (n : nat) : Prop :=
  ∀ e, wf e → (weight e < n)%nat → ∃ e', transformed n e e'.

(** The negation of an operand that is in normal form already. *)
Lemma transform_not n l l' :
  transform_total n → (weight (NOT l) ≤ n)%nat → transformed n l l' →
  ∃ e', transformed (S n) (NOT l) e'.
Proof.
  intros IH Hn (El & Wl & Nl & Sl & Pl & Vl). unfold transformed at 1. cbn [transform_fuel].
  rewrite El. cbn [mbind result_bind]. rewrite deref_wf by done. cbn [mbind result_bind].
  simpl in Hn. pose proof (weight_pos l).
  destruct l' as [| |t a b|a|t a b| |s|]; try done.
  - assert (∀ t', ∃ e', transformed n (BIN t' (NOT a) (NOT b)) e') as Hr.
    { intros t'. apply IH; [exact Wl|]. simpl in Sl |- *. lia. }
    destruct t.
    + destruct (Hr AND) as (e' & Ee & We & Ne & Se & Pe & Ve). exists e'.
      split_and!; try done; [simpl in *; lia|intros P%Pl; by apply Pe|]. intros Ty P. rewrite Ve by auto.
      change (expr_calc_value (NOT l)) with (EXPR_NOT (expr_calc_value l)).
      by rewrite <- Vl, !calc_bin, tri_de_morgan by done.
    + destruct (Hr OR) as (e' & Ee & We & Ne & Se & Pe & Ve). exists e'.
      split_and!; try done; [simpl in *; lia|intros P%Pl; by apply Pe|]. intros Ty P. rewrite Ve by auto.
      change (expr_calc_value (NOT l)) with (EXPR_NOT (expr_calc_value l)).
      by rewrite <- Vl, !calc_bin, tri_de_morgan by done.
  - destruct (IH a) as (e' & Ee & We & Ne & Se & Pe & Ve); [done|simpl in Sl; lia|].
    exists e'. split_and!; try done; [simpl in *; lia|intros P%Pl; by apply Pe|]. intros Ty P.
    simpl. rewrite <- (Vl Ty P), (Ve Ty (Pl P)). simpl. by rewrite tri_not_not.
  - exists (COMP (negate_rel t) a b).
    split_and!; try done; [by apply negate_rel_normal|simpl in *; lia|].
    intros Ty P. rewrite negate_rel_ok. simpl (expr_calc_value (NOT l)). by rewrite <- Vl.
  - destruct s; eexists; (split_and!; [done|done|done|simpl in *; lia|done|]);
      intros Ty P; simpl; by rewrite <- (Vl Ty P).
Qed.

Lemma transform_ok n : transform_total n.
Proof.
  induction n as [|n IH]; intros e We Hn; [lia|].
  destruct e as [| |t l r|l|t a b| |s|]; try done.
  - apply wf_bin_inv in We as [Wl Wr]. simpl in Hn.
    destruct (IH l) as (l' & El & Wl' & Nl & Sl & Pl & Vl); [done|lia|].
    destruct (IH r) as (r' & Er & Wr' & Nr & Sr & Pr & Vr); [done|lia|].
    exists (BIN t l' r'). unfold transformed. cbn [transform_fuel]. rewrite El, Er.
    split_and!; [done|by apply wf_bin|by apply normal_bin|simpl; lia| |].
    + intros [? ?]%plain_bin_inv. apply plain_bin; auto.
    + intros Ty [? ?]%plain_bin_inv. by rewrite !calc_bin, Vl, Vr by done.
  - destruct (IH l) as (l' & Hl); [done|simpl in Hn; pose proof (weight_pos l); lia|].
    eapply transform_not; [done| |done]. lia.
  - destruct (transform_comp_ok t a b) as (? & ? & ? & ? & ?).
    eexists. split_and!; [done|done..|auto].
  - by eexists; split_and!.
Qed.

Lemma transform_normal n e : wf e → normal e → (weight e < n)%nat → transform_fuel n e = Ret e.
Proof.
  revert e. induction n as [|n IH]; intros e We Ne Hn; [lia|].
  destruct e as [| |t l r|l|t a b| |s|]; try done; cbn [transform_fuel].
  - apply wf_bin_inv in We as [Wl Wr]. simpl in Ne. apply andb_prop_elim in Ne as [Nl Nr].
    simpl in Hn. rewrite !IH by (done || lia). done.
  - destruct l as [| | | | | |[]|]; try done. rewrite IH by (done || simpl in *; lia). done.
  - f_equal. simpl in Ne. unfold opaque_comp in Ne.
    destruct (decide (type (sym_of a) = S_BOOLEAN)) as [Hb|Hb].
    + rewrite (bool_decide_eq_true_2 _ Hb) in Ne. unfold transform_comp.
      destruct t; try done; rewrite decide_False by (by intros ?); by destruct b.
    + by destruct t; simpl; rewrite ?decide_True by done.
Qed.

(** ** [expr_trans_compare] *)

(** Operands are booleans, tristates or y, m, n. *)
Definition tri_sym (s : symbol) : bool :=
  match s with
  | Sym _ => bool_decide (type (sym_of s) = S_BOOLEAN) || bool_decide (type (sym_of s) = S_TRISTATE)
  | _ => true
  end.
Lemma tri_sym_spec n : tri_sym (Sym n) → bool_or_tri (Sym n).
Proof.
  unfold tri_sym. intros [Hs|Hs]%orb_prop_elim; apply bool_decide_unpack in Hs; [by left|by right].
Qed.
Fixpoint tri_leaves (e : expr) : bool :=
  match e with
  | SYMBOL s => tri_sym s
  | NOT l => tri_leaves l
  | BIN _ l r => tri_leaves l && tri_leaves r
  | _ => true
  end.
(** What is negated is not m. *)
Fixpoint negs_two (e : expr) : bool :=
  match e with
  | NOT l => negb (bool_decide (expr_calc_value l = mod_)) && negs_two l
  | BIN _ l r => negs_two l && negs_two r
  | _ => true
  end.

(** The truth of "[v] [t] [c]". *)
Definition rel_holds (t : relop) (v c : tristate) : bool :=
  if decide (t = EQUAL) then bool_decide (v = c) else negb (bool_decide (v = c)).
Definition eq_or_neq (t : relop) : Prop := t = EQUAL ∨ t = UNEQUAL.

Lemma calc_comp_tri t s c :
  typed → tri_sym s → eq_or_neq t → c = symbol_yes ∨ c = symbol_no →
  expr_calc_value (COMP t s c) = tri_of (rel_holds t (curr_tri (sym_of s)) (curr_tri (sym_of c))).
Proof.
  intros Ty Hs Ht Hc.
  destruct s as [| | |n]; [by (destruct Ht as [-> | ->], Hc as [-> | ->]; vm_compute)..|].
  apply tri_sym_spec in Hs.
  assert (is_const c = true) as Cc by (by destruct Hc as [-> | ->]).
  assert (plain_sym c = true) as Pc by (by destruct Hc as [-> | ->]).
  destruct Ht as [-> | ->]; [rewrite calc_equal_const by done|rewrite calc_unequal_const by done];
    destruct Hc as [-> | ->]; by destruct (curr_tri (sym_of (Sym n))).
Qed.
Lemma calc_comp_two t a b : expr_calc_value (COMP t a b) ≠ mod_.
Proof. simpl. by destruct t; unfold rel_value, tri_of; case_match. Qed.

Lemma trans_compare_ok c e t :
  typed → wf e ∨ e = NULL → tri_leaves e → negs_two e → eq_or_neq t →
  c = symbol_yes ∨ c = symbol_no →
  expr_calc_value (expr_trans_compare e t c) =
    tri_of (rel_holds t (expr_calc_value e) (curr_tri (sym_of c))).
Proof.
  intros Ty We Hl Hn Ht Hc. revert t We Hl Hn Ht.
  induction e as [| |o l IHl r IHr|l IHl|o a b| |s|]; intros t We Hl Hn Ht;
    try by destruct We.
  - by destruct Ht as [-> | ->], Hc as [-> | ->].
  - destruct We as [[Wl Wr]%wf_bin_inv|We]; [|done].
    simpl in Hl, Hn. apply andb_prop_elim in Hl as [? ?], Hn as [? ?].
    assert (eq_or_neq EQUAL) as He by (by left).
    specialize (IHl EQUAL ltac:(by left) ltac:(done) ltac:(done) He).
    specialize (IHr EQUAL ltac:(by left) ltac:(done) ltac:(done) He).
    rewrite calc_bin. simpl expr_trans_compare. unfold compare_bin, negate_if.
    revert IHl IHr. generalize (expr_calc_value l), (expr_calc_value r). intros v w IHl IHr.
    destruct Ht as [-> | ->], Hc as [-> | ->], o; simpl in *; rewrite IHl, IHr;
      by destruct v, w.
  - destruct We as [We|We]; [|done]. simpl in Hl, Hn. apply andb_prop_elim in Hn as [Hm Hn].
    apply negb_prop_elim in Hm. simpl.
    assert (expr_calc_value l ≠ mod_) as Hv by (by intros E; apply Hm, bool_decide_pack).
    destruct Ht as [-> | ->]; simpl; rewrite IHl; try done; try (by left); try (by right).
    all: destruct Hc as [-> | ->]; by destruct (expr_calc_value l).
  - pose proof (calc_comp_two o a b) as Hv. simpl expr_trans_compare.
    destruct Ht as [-> | ->], Hc as [-> | ->]; unfold negate_if, expr_alloc_one;
      cbn [negb bool_decide decide_rel decide relop_eq_dec];
      try change (expr_calc_value (NOT ?e)) with (EXPR_NOT (expr_calc_value e));
      destruct (expr_calc_value (COMP o a b)) eqn:E; try done; simpl in *; rewrite ?E; done.
  - by apply calc_comp_tri.
Qed.

(** ** Dependencies in menus *)

(** An expression, or none. *)
Definition dep_ok (e : expr) : Prop := wf e ∨ e = NULL.

Lemma transform_dep e :
  dep_ok e → ∃ e', expr_transform e = Ret e' ∧ dep_ok e' ∧ nnf e' ∧ (plain e → plain e') ∧
    (typed → plain e → expr_calc_value e' = expr_calc_value e).
Proof.
  intros [We| ->]; [|exists NULL; split_and!; try done; by right].
  destruct (transform_ok (S (weight e)) e We ltac:(lia)) as (e' & ? & ? & ? & _ & ? & ?).
  exists e'. split_and!; try done; [by left|by apply normal_nnf].
Qed.
Lemma eliminate_dups_dep e :
  dep_ok e → ∃ e', expr_eliminate_dups e = Ret e' ∧ dep_ok e' ∧ (nnf e → nnf e') ∧
    (typed → plain e → expr_calc_value e' = expr_calc_value e).
Proof.
  intros [We| ->]; [|exists NULL; split_and!; try done; by right].
  destruct (eliminate_dups_ok e We) as (e' & ? & ? & _ & ? & _ & ?). exists e'. split_and!; auto.
  by left.
Qed.
Lemma copy_dep e : dep_ok e → expr_copy e = Ret e.
Proof. intros [We| ->]; [by apply copy_wf|done]. Qed.
Lemma alloc_and_dep a b :
  dep_ok a → dep_ok b → dep_ok (expr_alloc_and a b) ∧
  (nnf a → nnf b → nnf (expr_alloc_and a b)) ∧ (plain a → plain b → plain (expr_alloc_and a b)) ∧
  expr_calc_value (expr_alloc_and a b) = EXPR_AND (expr_calc_value a) (expr_calc_value b).
Proof.
  intros [Wa| ->] [Wb| ->].
  - assert (expr_alloc_and a b = BIN AND a b) as -> by (by destruct a, b).
    split_and!; [left; by apply wf_bin|apply nnf_bin|apply plain_bin|done].
  - assert (expr_alloc_and a NULL = a) as -> by (by destruct a).
    split_and!; [by left|done|done|]. simpl. by destruct (expr_calc_value a).
  - split_and!; [by left|done|done|]. simpl. by destruct (expr_calc_value b).
  - split_and!; [by right|done..].
Qed.

(** The value of an expression in which 'm' is worth [m]. *)
Fixpoint calc_with (m : tristate) (e : expr) : tristate :=
  match e with
  | SYMBOL symbol_mod => m
  | BIN AND l r => EXPR_AND (calc_with m l) (calc_with m r)
  | BIN OR l r => EXPR_OR (calc_with m l) (calc_with m r)
  | NOT l => EXPR_NOT (calc_with m l)
  | _ => expr_calc_value e
  end.
Definition m_value : tristate := EXPR_AND mod_ (curr_tri (sym_of modules_sym)).

Lemma wf_rewrite_m e : wf e → wf (rewrite_m e).
Proof.
  induction e; try done; simpl.
  - intros [? ?]%andb_prop_elim. apply andb_prop_intro. auto.
  - intros _. by case_decide.
Qed.
Lemma plain_rewrite_m e : plain e → plain (rewrite_m e).
Proof.
  induction e; try done; cbn [rewrite_m].
  - intros [? ?]%plain_bin_inv. apply plain_bin; auto.
  - intros _. by case_decide.
Qed.
Lemma rewrite_m_dep e : dep_ok e → dep_ok (rewrite_m e).
Proof. intros [We| ->]; [left; by apply wf_rewrite_m|by right]. Qed.
Lemma calc_rewrite_m e : expr_calc_value (rewrite_m e) = calc_with m_value e.
Proof.
  induction e as [| |o l IHl r IHr|l IHl| | |s|]; try done.
  - cbn [rewrite_m]. rewrite calc_bin, IHl, IHr. by destruct o.
  - simpl. by rewrite IHl.
  - destruct s; done.
Qed.

Lemma propagate_ok parentdep dep :
  dep_ok parentdep → dep_ok dep → ∃ e, propagate_dep parentdep dep = Ret e ∧ dep_ok e ∧
    (nnf parentdep → nnf e) ∧
    (typed → plain parentdep → plain dep → expr_calc_value e =
               EXPR_AND (expr_calc_value parentdep) (calc_with m_value dep)).
Proof.
  intros Hp Hd. unfold propagate_dep.
  destruct (transform_dep _ (rewrite_m_dep _ Hd)) as (d' & -> & Hd' & Fd & Pd & Vd).
  cbn [mbind result_bind]. rewrite (copy_dep _ Hp). cbn [mbind result_bind].
  destruct (alloc_and_dep _ _ Hp Hd') as (Ha & Fa & Pa & Va).
  destruct (eliminate_dups_dep _ Ha) as (e & -> & He & Fe & Ve).
  exists e. split_and!; auto. intros Ty Pp Pe. apply plain_rewrite_m in Pe. by rewrite Ve, Va, Vd, calc_rewrite_m by auto.
Qed.

(** [expr_trans_bool] keeps whether an expression is n. *)
Lemma trans_bool_ok e :
  typed → nnf e →
  tri_val (expr_calc_value (expr_trans_bool e)) ≤ tri_val (expr_calc_value e) ∧
  (expr_calc_value (expr_trans_bool e) = no ↔ expr_calc_value e = no).
Proof.
  intros Ty. induction e as [| |o l IHl r IHr|l IHl|o a b| |s|]; intros Hn; try done.
  - apply nnf_bin_inv in Hn as [Hl Hr]. specialize (IHl Hl). specialize (IHr Hr).
    cbn [expr_trans_bool]. rewrite !calc_bin. revert IHl IHr.
    generalize (expr_calc_value (expr_trans_bool l)), (expr_calc_value (expr_trans_bool r)).
    destruct o, (expr_calc_value l), (expr_calc_value r); intros [] [] [? ?] [? ?];
      simpl in *; naive_solver lia.
  - destruct l; try done.
  - destruct o; try done. cbn [expr_trans_bool].
    case_decide as Ht; [|done]. case_decide; [subst b|done].
    assert (bool_or_tri a) as Ba by (by right). rewrite calc_unequal_const by done.
    change (expr_calc_value (SYMBOL a)) with (curr_tri (sym_of a)).
    by destruct (curr_tri (sym_of a)).
Qed.

(** ** The submenu test *)

Lemma wf_trans_compare e t c :
  dep_ok e → c = symbol_yes ∨ c = symbol_no → wf (expr_trans_compare e t c).
Proof.
  intros He Hc. revert t He. induction e as [| |o l IHl r IHr|l IHl|o a b| |s|];
    intros t He; try (by destruct He); simpl; unfold negate_if.
  - by case_bool_decide; destruct Hc as [-> | ->].
  - destruct He as [[Wl Wr]%wf_bin_inv|He]; [|done].
    specialize (IHl EQUAL (or_introl Wl)). specialize (IHr EQUAL (or_introl Wr)).
    unfold compare_bin, expr_alloc_two.
    destruct Hc as [-> | ->], o; simpl; case_bool_decide; simpl; apply andb_prop_intro; auto.
  - apply IHl. destruct He as [He|He]; [by left|done].
  - destruct Hc as [-> | ->]; by case_bool_decide.
Qed.

Lemma plain_trans_compare e t c : c = symbol_yes ∨ c = symbol_no → plain e → plain (expr_trans_compare e t c).
Proof.
  intros Hc. revert t. induction e as [| |o l IHl r IHr|l IHl|o a b| |s|]; intros t He; try done; simpl; unfold negate_if.
  - by case_bool_decide.
  - apply plain_bin_inv in He as [Pl Pr]. specialize (IHl EQUAL Pl). specialize (IHr EQUAL Pr).
    unfold compare_bin, expr_alloc_two.
    destruct Hc as [-> | ->], o; simpl; case_bool_decide; simpl; apply andb_prop_intro; auto.
  - by apply IHl.
  - destruct Hc as [-> | ->]; by case_bool_decide.
  - by destruct Hc as [-> | ->].
Qed.

Lemma nonzero_ok e :
  dep_ok e → ∃ e', nonzero_expr e = Ret e' ∧ wf e' ∧
    (typed → plain e → tri_leaves e → negs_two e →
     expr_calc_value e' = tri_of (negb (bool_decide (expr_calc_value e = no)))).
Proof.
  intros He. unfold nonzero_expr.
  assert (wf (expr_trans_compare e UNEQUAL symbol_no)) as Wc by (apply wf_trans_compare; auto).
  destruct (transform_ok _ _ Wc (Nat.lt_succ_diag_r _)) as (e1 & E1 & W1 & _ & _ & P1 & V1).
  unfold expr_transform. rewrite E1. cbn [mbind result_bind].
  destruct (eliminate_dups_ok e1 W1) as (e2 & -> & W2 & _ & _ & _ & V2).
  exists e2. split_and!; try done. intros Ty Pe Hl Hn.
  assert (plain (expr_trans_compare e UNEQUAL symbol_no)) as Pc by (apply plain_trans_compare; auto).
  rewrite V2, V1 by auto.
  rewrite trans_compare_ok; try done; [by right|by right].
Qed.

(** What is left of a common part is y: the other expression implies it. *)
Lemma common_yes e1 e2 e1' e2' :
  common_removed e1 e2 e1' e2' → expr_is_yes e2' = true →
  tri_val (expr_calc_value e1) ≤ tri_val (expr_calc_value e2).
Proof.
  intros (t1 & t2 & r1 & r2 & -> & ->) Hy.
  assert (expr_calc_value e2' = yes) as ->.
  { destruct e2' as [| | | | | |s|]; try done. by apply (is_sym_spec (SYMBOL s)) in Hy as [= ->]. }
  generalize (expr_calc_value e1'). intros v. by destruct t1, t2, r1, r2, v.
Qed.

Lemma depends_ok dep sym :
  typed → tri_sym sym → expr_depends_symbol dep sym = true →
  expr_calc_value dep ≠ no → curr_tri (sym_of sym) ≠ no.
Proof.
  intros Ty Hs. induction dep as [| |o l IHl r IHr| |o a b| |s|]; try done.
  - destruct o; [done|]. simpl. intros [H|H]%orb_prop Hv; [apply IHl; [done|]|apply IHr; [done|]];
      intros E; rewrite E in Hv; apply Hv;
      first [by destruct (expr_calc_value r)|by destruct (expr_calc_value l)].
  - assert (∀ c, c = symbol_yes ∨ c = symbol_no → eq_or_neq o → expr_calc_value (COMP o sym c) =
      tri_of (rel_holds o (curr_tri (sym_of sym)) (curr_tri (sym_of c)))) as Hc
      by (intros; by apply calc_comp_tri).
    destruct o; try done; intros [->%bool_decide_eq_true H]%andb_true_iff.
    + apply orb_true_iff in H as [->%bool_decide_eq_true| ->%bool_decide_eq_true].
      * rewrite Hc by (auto; by left). by destruct (curr_tri (sym_of sym)).
      * destruct sym as [| | |n]; [by vm_compute..|].
        apply tri_sym_spec in Hs. rewrite calc_equal_const by done. by destruct (curr_tri (sym_of (Sym n))).
    + apply bool_decide_eq_true in H as ->.
      rewrite Hc by (auto; by right). by destruct (curr_tri (sym_of sym)).
  - simpl. by intros ->%bool_decide_eq_true.
Qed.
End tab.

(** ** A symbol table for the examples

    MODULES=y, the boolean A=y, the tristates B=m and C=n, the string
    constant "foo" and the integer 3. *)
Definition mk_sym (nm : string) (ty : symbol_type) (fl : Z) (v : string) (t : tristate) : sym_data :=
  {| name := Some (cs nm); type := ty; flags := fl; curr_val := cs v; curr_tri := t |}.
Definition demo_tab : SymTab :=
  {| sym_tab :=
       [mk_sym "MODULES" S_BOOLEAN 128 "n" yes; mk_sym "A" S_BOOLEAN 128 "n" yes;
        mk_sym "B" S_TRISTATE 128 "n" mod_; mk_sym "C" S_TRISTATE 128 "n" no;
        mk_sym "foo" S_UNKNOWN 129 "foo" no; mk_sym "N" S_INT 128 "3" no];
     modules_sym := Sym 0 |}.
Definition symA : symbol := Sym 1.
Definition symB : symbol := Sym 2.
Definition symC : symbol := Sym 3.

(** ** Theorems *)

(** C14: [expr_transform] returns on every dependency expression; the result
    is in normal form (negations of symbols only, no boolean compared with y,
    m or n), and transforming it again changes nothing.  In a well-typed
    symbol table (no boolean is m, no tristate while modules are disabled,
    and the quoted constants are untyped, distinct and none of them y, m or n)
    the result has the same value, unless the expression has a comparison with a quoted number
    0, 1 or 2, which [expr_calc_value] takes for n, m and y. *)
Theorem transform_sound (T : SymTab) (e : expr) :
  wf e → ∃ e',
    expr_transform e = Ret e' ∧ wf e' ∧ normal e' ∧ expr_transform e' = Ret e' ∧
    (typed → plain e → expr_calc_value e' = expr_calc_value e).
Proof.
  intros We. destruct (transform_ok (S (weight e)) e We ltac:(lia)) as (e' & ? & ? & ? & _ & _ & ?).
  exists e'. split_and!; auto. by apply transform_normal; [| |lia].
Qed.
Lemma transform_sound_witness :
  ∃ e', @expr_transform demo_tab
          (NOT (BIN OR (NOT (SYMBOL symB)) (BIN AND (COMP EQUAL symA symbol_no) (COMP LTH symA symC))))
        = Ret e' ∧ @expr_calc_value demo_tab e' = mod_.
Proof.
  destruct (transform_sound demo_tab
    (NOT (BIN OR (NOT (SYMBOL symB)) (BIN AND (COMP EQUAL symA symbol_no) (COMP LTH symA symC)))))
    as (e' & He & _ & _ & _ & Hv); [exact I|].
  exists e'. split; [exact He|]. rewrite Hv; [vm_compute; reflexivity| |vm_compute; exact I].
  apply (bool_decide_unpack _). vm_compute. exact I.
Defined.

(** C15: [expr_eliminate_dups] ends on every dependency expression, although
    its loop runs until a pass joins nothing: each pass that joins operands
    shrinks the tree; the result is never larger than the expression.  In a
    well-typed symbol table (no boolean is m, no tristate while modules are
    disabled, and the quoted constants are untyped, distinct and none of them y,
    m or n) the result has the same value, unless the expression has a comparison with a quoted
    number 0, 1 or 2: two such constants can be equal to one value, which the
    joining of (a='b') && (a!='c') rules out. *)
Theorem eliminate_dups_sound (T : SymTab) (e : expr) :
  wf e → ∃ e',
    expr_eliminate_dups e = Ret e' ∧ wf e' ∧ (size e' ≤ size e)%nat ∧
    (typed → plain e → expr_calc_value e' = expr_calc_value e).
Proof.
  intros We. destruct (eliminate_dups_ok e We) as (e' & ? & ? & ? & _ & _ & ?).
  exists e'. split_and!; auto.
Qed.
Lemma eliminate_dups_sound_witness :
  ∃ e', @expr_eliminate_dups demo_tab
          (BIN AND (BIN AND (SYMBOL symB) (SYMBOL symA)) (COMP UNEQUAL symB symbol_no)) = Ret e' ∧
        e' = BIN AND (SYMBOL symA) (SYMBOL symB) ∧ @expr_calc_value demo_tab e' = mod_.
Proof.
  destruct (eliminate_dups_sound demo_tab
    (BIN AND (BIN AND (SYMBOL symB) (SYMBOL symA)) (COMP UNEQUAL symB symbol_no)))
    as (e' & He & _ & _ & Hv); [exact I|].
  exists e'. split; [exact He|]. split; [vm_compute in He; by injection He as <-|].
  rewrite Hv; [vm_compute; reflexivity| |vm_compute; exact I].
  apply (bool_decide_unpack _). vm_compute. exact I.
Defined.

(** [expr_eq] ends, and two expressions it calls equal have the same
    value in every symbol table, whatever the order of their operands. *)
Theorem expr_eq_sound (e1 e2 : expr) :
  wf e1 → wf e2 → ∃ b, expr_eq e1 e2 = Ret b ∧
    (b = true → ∀ T : SymTab, expr_calc_value e1 = expr_calc_value e2).
Proof.
  intros W1 W2. destruct (expr_eq_ok (T := demo_tab) e1 e2 W1 W2) as (b & Hb & _).
  exists b. split; [done|]. intros -> T.
  destruct (expr_eq_ok (T := T) e1 e2 W1 W2) as (b' & Hb' & Hv). apply Hv. congruence.
Qed.
Lemma expr_eq_sound_witness :
  expr_eq (BIN AND (SYMBOL symA) (BIN OR (SYMBOL symB) (SYMBOL symC)))
          (BIN AND (BIN OR (SYMBOL symC) (SYMBOL symB)) (SYMBOL symA)) = Ret true ∧
  ∀ T : SymTab,
    expr_calc_value (BIN AND (SYMBOL symA) (BIN OR (SYMBOL symB) (SYMBOL symC))) =
    expr_calc_value (BIN AND (BIN OR (SYMBOL symC) (SYMBOL symB)) (SYMBOL symA)).
Proof.
  split; [vm_compute; reflexivity|].
  destruct (expr_eq_sound (BIN AND (SYMBOL symA) (BIN OR (SYMBOL symB) (SYMBOL symC)))
    (BIN AND (BIN OR (SYMBOL symC) (SYMBOL symB)) (SYMBOL symA))) as (b & Hb & Hv);
    [exact I|exact I|]. apply Hv. vm_compute in Hb. by injection Hb.
Defined.

(** [expr_trans_compare] with y or n, for operands that are booleans,
    tristates or constants: the new expression is y where the comparison of
    the old one's value holds and n elsewhere, provided that nothing negated
    is worth m. *)
Theorem trans_compare_value (T : SymTab) (e : expr) (t : relop) (c : symbol) :
  typed → dep_ok e → tri_leaves e → negs_two e → eq_or_neq t → c ∈ [symbol_yes; symbol_no] →
  expr_calc_value (expr_trans_compare e t c) =
    tri_of (rel_holds t (expr_calc_value e) (curr_tri (sym_of c))).
Proof.
  intros Ty He Hl Hn Ht Hc. apply trans_compare_ok; try done. set_solver.
Qed.
Lemma trans_compare_value_witness :
  @expr_calc_value demo_tab
    (expr_trans_compare (BIN AND (SYMBOL symB) (NOT (SYMBOL symC))) UNEQUAL symbol_no) = yes.
Proof.
  rewrite (trans_compare_value demo_tab).
  - vm_compute. reflexivity.
  - apply (bool_decide_unpack _). vm_compute. exact I.
  - left. exact I.
  - vm_compute. exact I.
  - vm_compute. exact I.
  - right. reflexivity.
  - set_solver.
Defined.

(** under a negation the comparison is not exact for m: where A is m,
    "!A" is m, so "!A" differs from n, but the expression
    [expr_trans_compare] builds for it ("A=n") is n. *)
Theorem trans_compare_not_m (T : SymTab) (s : symbol) :
  typed → bool_or_tri s → curr_tri (sym_of s) = mod_ →
  expr_calc_value (NOT (SYMBOL s)) ≠ no ∧
  expr_calc_value (expr_trans_compare (NOT (SYMBOL s)) UNEQUAL symbol_no) = no.
Proof.
  intros Ty Bs Hs. split; [simpl; by rewrite Hs|].
  change (expr_trans_compare (NOT (SYMBOL s)) UNEQUAL symbol_no) with (COMP EQUAL s symbol_no).
  rewrite calc_equal_const by done. by rewrite Hs.
Qed.
Lemma trans_compare_not_m_witness :
  @expr_calc_value demo_tab (NOT (SYMBOL symB)) ≠ no ∧
  @expr_calc_value demo_tab (expr_trans_compare (NOT (SYMBOL symB)) UNEQUAL symbol_no) = no.
Proof.
  apply (trans_compare_not_m demo_tab symB).
  - apply (bool_decide_unpack _). vm_compute. exact I.
  - right. reflexivity.
  - reflexivity.
Defined.

(** the dependency that [menu_finalize] propagates to an entry is worth
    the lower of the enclosing menu's dependency and of the entry's own, in
    which a bare 'm' counts as m only with modules enabled. *)
Theorem propagate_dep_value (T : SymTab) (parentdep dep : expr) :
  typed → dep_ok parentdep → dep_ok dep → plain parentdep → plain dep → ∃ e,
    propagate_dep parentdep dep = Ret e ∧ dep_ok e ∧
    expr_calc_value e = EXPR_AND (expr_calc_value parentdep) (calc_with m_value dep).
Proof.
  intros Ty Hp Hd Pp Pd. destruct (propagate_ok parentdep dep Hp Hd) as (e & ? & ? & _ & ?).
  exists e. split_and!; auto.
Qed.
Lemma propagate_dep_value_witness :
  ∃ e, @propagate_dep demo_tab (SYMBOL symA) (BIN OR (SYMBOL symbol_mod) (SYMBOL symC)) = Ret e ∧
    @expr_calc_value demo_tab e = mod_.
Proof.
  destruct (propagate_dep_value demo_tab (SYMBOL symA) (BIN OR (SYMBOL symbol_mod) (SYMBOL symC)))
    as (e & He & _ & Hv).
  - apply (bool_decide_unpack _). vm_compute. exact I.
  - left. exact I.
  - left. exact I.
  - exact I.
  - exact I.
  - exists e. split; [exact He|]. rewrite Hv. vm_compute. reflexivity.
Defined.

(** the condition [menu_finalize] stores for a property of a symbol that
    is not a tristate, where FOO!=n has become FOO, is n exactly when the
    propagated dependency is n, and never above it. *)
Theorem visible_expr_bool (T : SymTab) (ty : symbol_type) (basedep dep : expr) :
  typed → dep_ok basedep → nnf basedep → dep_ok dep → plain basedep → plain dep → ty ≠ S_TRISTATE → ∃ e,
    visible_expr (Some ty) basedep dep = Ret e ∧
    let v := EXPR_AND (expr_calc_value basedep) (calc_with m_value dep) in
    (expr_calc_value e = no ↔ v = no) ∧ tri_val (expr_calc_value e) ≤ tri_val v.
Proof.
  intros Ty Hb Fb Hd Pb Pd Hty. destruct (propagate_ok basedep dep Hb Hd) as (e & He & _ & Fe & Ve).
  destruct (trans_bool_ok e Ty (Fe Fb)) as [Hle Hno].
  exists (expr_trans_bool e). unfold visible_expr. rewrite He. cbn [mbind result_bind].
  rewrite decide_True by done. rewrite <- Ve by done. done.
Qed.
Lemma visible_expr_bool_witness :
  ∃ e, @visible_expr demo_tab (Some S_BOOLEAN) NULL (COMP UNEQUAL symB symbol_no) = Ret e ∧
    @expr_calc_value demo_tab e ≠ no.
Proof.
  destruct (visible_expr_bool demo_tab S_BOOLEAN NULL (COMP UNEQUAL symB symbol_no))
    as (e & He & Hno & _).
  - apply (bool_decide_unpack _). vm_compute. exact I.
  - right. reflexivity.
  - exact I.
  - left. exact I.
  - exact I.
  - vm_compute. exact I.
  - done.
  - exists e. split; [exact He|]. rewrite Hno. vm_compute. discriminate.
Defined.

(** C16: the test that moves an entry into the submenu of the symbol before
    it returns on all dependency expressions.  In a well-typed symbol table
    (no boolean is m, no tristate while modules are disabled, and the quoted
    constants are untyped, distinct and none of them y, m or n), for dependencies whose operands are
    booleans, tristates, y, m, n or comparisons, none of them with a quoted
    number 0, 1 or 2, and in which nothing negated is worth m, an entry it
    accepts is visible only if that symbol or the symbol's own visibility is
    not n. *)
Theorem submenu_item_implies (T : SymTab) (sym : symbol) (visible dep : expr) :
  dep_ok visible → dep_ok dep → ∃ b,
    submenu_item sym visible dep = Ret b ∧
    (typed → tri_sym sym → (plain visible ∧ tri_leaves visible ∧ negs_two visible) →
     (plain dep ∧ tri_leaves dep ∧ negs_two dep) →
     b = true → expr_calc_value dep ≠ no →
     curr_tri (sym_of sym) ≠ no ∨ expr_calc_value visible ≠ no).
Proof.
  intros Hv Hd. unfold submenu_item.
  destruct (nonzero_ok visible Hv) as (bd & -> & Wb & Vb). cbn [mbind result_bind]. unfold depends_on.
  destruct (negb (expr_contains_symbol dep sym)); [by exists false|].
  destruct (expr_depends_symbol dep sym) eqn:Hdep.
  { exists true. split; [done|]. intros Ty Hs _ _ _ Hne. left. by eapply depends_ok. }
  destruct (nonzero_ok dep Hd) as (d1 & -> & W1 & V1). cbn [mbind result_bind].
  rewrite copy_wf by done. cbn [mbind result_bind].
  destruct (expr_eliminate_eq_ok d1 bd 0 W1 Wb) as (x & y & c & -> & _ & _ & Hcom).
  cbn [mbind result_bind]. eexists. split; [done|]. intros Ty Hs (Pv & Lv & Nv) (Pd & Ld & Nd) Hy Hne. right.
  apply (common_yes _ _ _ _ Hcom) in Hy. rewrite V1, Vb in Hy by done.
  rewrite bool_decide_eq_false_2 in Hy by done. intros E. by rewrite E in Hy.
Qed.
Lemma submenu_item_implies_witness :
  @submenu_item demo_tab symB (SYMBOL symA)
    (BIN AND (BIN OR (SYMBOL symB) (SYMBOL symC)) (SYMBOL symA)) = Ret true ∧
  (curr_tri (@sym_of demo_tab symB) ≠ no ∨ @expr_calc_value demo_tab (SYMBOL symA) ≠ no).
Proof.
  split; [vm_compute; reflexivity|].
  destruct (submenu_item_implies demo_tab symB (SYMBOL symA)
    (BIN AND (BIN OR (SYMBOL symB) (SYMBOL symC)) (SYMBOL symA))) as (b & Hb & Hi).
  - left. exact I.
  - left. exact I.
  - apply Hi.
    + apply (bool_decide_unpack _). vm_compute. exact I.
    + vm_compute. exact I.
    + split; [exact I|split; vm_compute; exact I].
    + split; [exact I|split; vm_compute; exact I].
    + vm_compute in Hb. by injection Hb.
    + vm_compute. discriminate.
Defined.

(** ** Two corner cases *)

(** An operand that is repeated in one expression only: A && B and
    A && B && A are not equal for [expr_eq], although every operand of each is
    an operand of the other. *)
Lemma expr_eq_repeated_operand :
  expr_eq (BIN AND (SYMBOL symA) (SYMBOL symB))
          (BIN AND (BIN AND (SYMBOL symA) (SYMBOL symB)) (SYMBOL symA)) = Ret false.
Proof. vm_compute. reflexivity. Qed.

(** Constants whose texts are numbers are compared as numbers, but joined by
    identity: with the tristate B at m, B="1" && B!="0x1" is n and what
    [expr_join_and] makes of it is y. *)
Definition numeric_tab : SymTab :=
  {| sym_tab :=
       [mk_sym "MODULES" S_BOOLEAN 128 "n" yes; mk_sym "B" S_TRISTATE 128 "n" mod_;
        mk_sym "1" S_UNKNOWN 129 "1" no; mk_sym "0x1" S_UNKNOWN 129 "0x1" no];
     modules_sym := Sym 0 |}.
Lemma join_and_numeric_consts :
  let e1 := COMP EQUAL (Sym 1) (Sym 2) in
  let e2 := COMP UNEQUAL (Sym 1) (Sym 3) in
  @expr_join_and numeric_tab e1 e2 = Ret e1 ∧
  @expr_calc_value numeric_tab (BIN AND e1 e2) = no ∧
  @expr_calc_value numeric_tab e1 = yes.
Proof. vm_compute. auto. Qed.
End KconfigProps.
