(* ===== verification/KconfigPrint.v ===== *)
(** * Printing Kconfig expressions

    [expr_print] hands the pieces of the text to a callback.  The pieces are
    read back with the grammar of dependency expressions ("||" below "&&"
    below "!", both binary operators associating to the left): the parentheses
    that [expr_compare_type] decides on are enough. *)

From S2P Require Import Prelude CLib KconfigExpr KconfigSimp KconfigProps.
Open Scope Z_scope.

Module KconfigPrint.
Import KconfigExpr KconfigSimp KconfigProps.

(** A call of the callback. *)
Definition tok : Type := option symbol * list Z.
Definition emit {D} (fn : D → option symbol → list Z → D) (d : D) (ts : list tok) : D :=
  foldl (λ d t, fn d t.1 t.2) d ts.
Definition op_tok (s : string) : tok := (None, cs s).

Section tab.
Context `{T : SymTab}.

(** The grammar, by precedence: 0 for "||", 1 for "&&", 2 for the rest. *)
Inductive parses : nat → list tok → expr → Prop :=
  | P_symbol s nm : name (sym_of s) = Some nm → parses 2 [(Some s, nm)] (SYMBOL s)
  | P_yes : parses 2 [op_tok "y"] (SYMBOL symbol_yes)
  | P_comp t a b na nb :
      name (sym_of a) = Some na → name (sym_of b) = Some nb →
      parses 2 [(Some a, na); (None, rel_text t); (Some b, nb)] (COMP t a b)
  | P_not ts e : parses 2 ts e → parses 2 (op_tok "!" :: ts) (NOT e)
  | P_paren ts e : parses 0 ts e → parses 2 (op_tok "(" :: ts ++ [op_tok ")"]) e
  | P_and ts1 ts2 e1 e2 :
      parses 1 ts1 e1 → parses 2 ts2 e2 → parses 1 (ts1 ++ op_tok " && " :: ts2) (BIN AND e1 e2)
  | P_or ts1 ts2 e1 e2 :
      parses 0 ts1 e1 → parses 1 ts2 e2 → parses 0 (ts1 ++ op_tok " || " :: ts2) (BIN OR e1 e2)
  | P_up k ts e : parses (S k) ts e → parses k ts e.

(** The symbols of an expression have names (choices may not). *)
Fixpoint named (e : expr) : bool :=
  match e with
  | SYMBOL s => bool_decide (is_Some (name (sym_of s)))
  | COMP _ a b => bool_decide (is_Some (name (sym_of a))) && bool_decide (is_Some (name (sym_of b)))
  | NOT l => named l
  | BIN _ l r => named l && named r
  | _ => true
  end.

(** What is printed inside an operator of precedence [k] (0 or 1) may be
    read to the right of it. *)
Definition op_name (t : binop) : string := match t with OR => " || " | AND => " && " end.
Definition op_level (t : binop) : nat := match t with OR => 0 | AND => 1 end.
Lemma parses_join t ts2 e2 :
  parses (op_level t) ts2 e2 → ∀ ts1 e1, parses (op_level t) ts1 e1 → ∃ e,
    parses (op_level t) (ts1 ++ op_tok (op_name t) :: ts2) e ∧
    expr_calc_value e = tri_op t (expr_calc_value e1) (expr_calc_value e2).
Proof.
  remember (op_level t) as k eqn:Hk. induction 1 as [| | | | |u v x y Hu IHu Hv _|
    u v x y Hu IHu Hv _|k ts e He _]; intros ts1 e1 H1; destruct t; try done.
  - destruct (IHu Hk ts1 e1 H1) as (z & Hz & Vz).
    exists (BIN AND z y). split.
    + change (op_tok (op_name AND)) with (op_tok " && ") in *.
      replace (ts1 ++ op_tok " && " :: u ++ op_tok " && " :: v)
        with ((ts1 ++ op_tok " && " :: u) ++ op_tok " && " :: v) by (by rewrite <- (assoc_L (++))).
      by apply P_and.
    + rewrite !calc_bin, Vz. by rewrite tri_op_assoc.
  - destruct (IHu Hk ts1 e1 H1) as (z & Hz & Vz).
    exists (BIN OR z y). split.
    + change (op_tok (op_name OR)) with (op_tok " || ") in *.
      replace (ts1 ++ op_tok " || " :: u ++ op_tok " || " :: v)
        with ((ts1 ++ op_tok " || " :: u) ++ op_tok " || " :: v) by (by rewrite <- (assoc_L (++))).
      by apply P_or.
    + rewrite !calc_bin, Vz. by rewrite tri_op_assoc.
  - simpl in Hk. subst k. exists (BIN OR e1 e). split; [by apply P_or|done].
  - simpl in Hk. subst k. exists (BIN AND e1 e). split; [by apply P_and|done].
Qed.

(** ** What is printed *)

(** The precedence that the enclosing operator asks for. *)
Definition prev_level (prev : expr_type) : nat :=
  match prev with E_AND => 1 | E_NOT => 2 | _ => 0 end.
Definition outer (prev : expr_type) : Prop := prev ∈ [E_NONE; E_OR; E_AND; E_NOT].

Lemma parses_any k ts e : (k ≤ 2)%nat → parses 2 ts e → parses k ts e.
Proof.
  intros Hk H. destruct k as [|[|[|k]]]; [|by apply P_up|done|lia]. by apply P_up, P_up.
Qed.

(** [e] is printed as [ts], which reads as an expression of the same value. *)
Definition prints (e : expr) (prev : expr_type) (ts : list tok) : Prop :=
  (∀ D (fn : D → option symbol → list Z → D) d, expr_print fn e d prev = Ret (emit fn d ts)) ∧
  ∃ e', parses (prev_level prev) ts e' ∧ expr_calc_value e' = expr_calc_value e.

Lemma prints_atom e prev ts :
  outer prev → parses 2 ts e →
  (∀ D (fn : D → option symbol → list Z → D) d, expr_print fn e d prev = Ret (emit fn d ts)) →
  prints e prev ts.
Proof.
  intros Ho Hp Hpr. split; [done|]. exists e. split; [|done]. apply parses_any; [|done].
  destruct prev; simpl; lia.
Qed.

(** The text of an operator node before parentheses. *)
Definition inner (t : binop) (l r : expr) (ts : list tok) : Prop :=
  (∀ D (fn : D → option symbol → list Z → D) d,
     (d ← expr_print fn l d (bin_type t);
      expr_print fn r (fn d None (cs (op_name t))) (bin_type t)) = Ret (emit fn d ts)) ∧
  ∃ e', parses (op_level t) ts e' ∧ expr_calc_value e' = expr_calc_value (BIN t l r).

Lemma inner_ok t l r tl tr :
  prints l (bin_type t) tl → prints r (bin_type t) tr →
  inner t l r (tl ++ op_tok (op_name t) :: tr).
Proof.
  intros [Pl (el & Hl & Vl)] [Pr (er & Hr & Vr)]. split.
  - intros D fn d. rewrite Pl. cbn [mbind result_bind]. rewrite Pr. unfold emit.
    by rewrite foldl_app.
  - assert (prev_level (bin_type t) = op_level t) as E by (by destruct t). rewrite E in *.
    destruct (parses_join t tr er Hr tl el Hl) as (e' & ? & V').
    exists e'. split; [done|]. by rewrite V', calc_bin, Vl, Vr.
Qed.

Lemma prints_bin t l r ts prev :
  outer prev → inner t l r ts → ∃ ts', prints (BIN t l r) prev ts'.
Proof.
  intros Ho [Pi (e' & He' & V')].
  destruct (decide (0 < expr_compare_type prev (bin_type t))) as [Hp|Hp].
  - exists (op_tok "(" :: ts ++ [op_tok ")"]). split.
    + intros D fn d.
      assert ((0 <? expr_compare_type prev (bin_type t)) = true) as Hb by (by apply Z.ltb_lt).
      specialize (Pi D fn (fn d None (cs "("))).
      destruct t; simpl in Hb, Pi |- *; rewrite Hb; simpl; rewrite Pi; cbn [mbind result_bind];
        unfold emit; simpl; by rewrite foldl_app.
    + exists e'. split; [|done]. apply parses_any; [destruct prev; simpl; lia|].
      apply P_paren. by destruct t; [|apply P_up].
  - exists ts. split.
    + intros D fn d.
      assert ((0 <? expr_compare_type prev (bin_type t)) = false) as Hb by (apply Z.ltb_ge; lia).
      specialize (Pi D fn d).
      destruct t; simpl in Hb, Pi |- *; rewrite Hb; simpl; rewrite Pi; done.
    + exists e'. split; [|done]. unfold outer in Ho.
      destruct t, prev; simpl in *; try done; try (exfalso; apply Hp; by vm_compute); try set_solver.
      all: by apply P_up.
Qed.

(** The other nodes are never in parentheses. *)
Lemma compare_low prev t :
  outer prev → t = E_NOT ∨ t = E_SYMBOL ∨ (∃ o, t = rel_type o) →
  (0 <? expr_compare_type prev t) = false.
Proof.
  unfold outer. intros Ho Ht. destruct prev; try set_solver;
    (destruct Ht as [-> |[-> |[[] ->]]]; vm_compute; done).
Qed.

Lemma prints_ok e : wf e → named e → ∀ prev, outer prev → ∃ ts, prints e prev ts.
Proof.
  induction e as [| |t l IHl r IHr|l IHl|t a b| |s|]; intros We Ne prev Ho; try done.
  - apply wf_bin_inv in We as [Wl Wr]. simpl in Ne. apply andb_prop_elim in Ne as [Nl Nr].
    assert (outer (bin_type t)) as Hb by (destruct t; unfold outer; simpl; set_solver).
    destruct (IHl Wl Nl _ Hb) as [tl Pl]. destruct (IHr Wr Nr _ Hb) as [tr Pr].
    eapply prints_bin; [done|]. by apply inner_ok.
  - destruct (IHl We Ne E_NOT) as (ts & Pl & el & Hl & Vl); [unfold outer; set_solver|].
    exists (op_tok "!" :: ts). split.
    + intros D fn d. cbn [expr_print etype]. rewrite compare_low by auto. cbn [mbind result_bind].
      by rewrite Pl.
    + exists (NOT el). split; [|simpl; by rewrite Vl].
      apply parses_any; [destruct prev; simpl; lia|]. by apply P_not.
  - simpl in Ne. apply andb_prop_elim in Ne as [[na Na]%bool_decide_unpack [nb Nb]%bool_decide_unpack].
    eexists. apply prints_atom; [done|by apply P_comp|].
    intros D fn d. cbn [expr_print etype]. rewrite compare_low by eauto.
    unfold print_left, print_name. by rewrite Na, Nb.
  - simpl in Ne. apply bool_decide_unpack in Ne as [nm Nm].
    eexists. apply prints_atom; [done|by apply P_symbol|].
    intros D fn d. cbn [expr_print etype]. rewrite compare_low by auto.
    unfold print_left. by rewrite Nm.
Qed.
End tab.

(** C17: what [expr_print] prints reads back, with the precedences of the
    configuration language, as an expression of the same value: for every
    dependency whose symbols have names there is one sequence of pieces that
    every callback is given, and it is a sentence of the grammar for an
    expression worth what the printed one is. *)
Theorem expr_print_reads (T : SymTab) (e : expr) :
  dep_ok e → named e → ∃ ts,
    (∀ D (fn : D → option symbol → list Z → D) d, expr_print fn e d E_NONE = Ret (emit fn d ts)) ∧
    ∃ e', parses 0 ts e' ∧ expr_calc_value e' = expr_calc_value e.
Proof.
  intros [We| ->] Hn.
  - apply (prints_ok e We Hn E_NONE). unfold outer. set_solver.
  - exists [op_tok "y"]. split; [done|]. exists (SYMBOL symbol_yes).
    split; [|done]. apply parses_any; [lia|constructor].
Qed.
Lemma expr_print_reads_witness :
  ∃ ts, @expr_fprint demo_tab
          (BIN AND (SYMBOL symA) (NOT (BIN OR (SYMBOL symB) (COMP EQUAL symC symbol_mod)))) [] =
        Ret (emit expr_print_file_helper [] ts) ∧
    emit expr_print_file_helper [] ts = cs "A && !(B || C=m)" ∧
    ∃ e', @parses demo_tab 0 ts e'.
Proof.
  destruct (expr_print_reads demo_tab
    (BIN AND (SYMBOL symA) (NOT (BIN OR (SYMBOL symB) (COMP EQUAL symC symbol_mod)))))
    as (ts & Hp & e' & He & _); [left; exact I|vm_compute; exact I|].
  exists ts. pose proof (Hp _ expr_print_file_helper []) as Hf.
  split; [exact Hf|]. split; [|exists e'; exact He].
  assert (@expr_print demo_tab _ expr_print_file_helper
    (BIN AND (SYMBOL symA) (NOT (BIN OR (SYMBOL symB) (COMP EQUAL symC symbol_mod)))) [] E_NONE =
    Ret (cs "A && !(B || C=m)")) as Hc by (vm_compute; reflexivity).
  rewrite Hc in Hf. by injection Hf as Hf.
Defined.
End KconfigPrint.
