(* ===== verification/KconfigSym.v ===== *)
(** * Kconfig symbol values (scripts/config/symbol.c)

    The calculation of the value of a symbol from the user's value, the
    defaults, the dependencies and the choices, and the operations that set
    values.  The symbol table is the state: [sym_calc_value] marks a symbol
    SYMBOL_VALID before it evaluates the expressions the symbol depends on,
    and each evaluation calculates the symbols it meets.

    [curr.val] and [def[].val] point to a text, or for a choice to the chosen
    symbol; a pointer read as the other kind, or NULL read as a text, is a
    fault.  SYMBOL_CHANGED and the MENU_CHANGED flags of menu entries, which
    tell a front end what to redraw, are not part of the state. *)

From S2P Require Import Prelude CLib KconfigExpr.
Open Scope Z_scope.

Module KconfigSym.
Import KconfigExpr.

(** ** Data *)

Inductive kval := VNull | VStr (s : list Z) | VSym (s : symbol).
#[export] Instance kval_eq_dec : EqDecision kval.
Proof. solve_decision. Defined.
Record symbol_value := Val { v_val : kval; v_tri : tristate }.
#[export] Instance symbol_value_eq_dec : EqDecision symbol_value.
Proof. solve_decision. Defined.

Inductive prop_type :=
  | P_UNKNOWN | P_PROMPT | P_COMMENT | P_MENU | P_DEFAULT | P_CHOICE | P_SELECT | P_IMPLY
  | P_RANGE | P_SYMBOL | P_RESET.
#[export] Instance prop_type_eq_dec : EqDecision prop_type.
Proof. solve_decision. Defined.
(** [p_text]: whether the property has a prompt. *)
Record property := Prop_ { p_type : prop_type; p_text : bool; p_visible : expr; p_expr : expr }.

Record expr_value := EVal { ev_expr : expr; ev_tri : tristate }.

Record ksym := KSym {
  k_name : option (list Z);
  k_type : symbol_type;
  k_flags : Z;
  k_curr : symbol_value;
  k_user : symbol_value;          (** [def[S_DEF_USER]] *)
  k_visible : tristate;
  k_props : list property;
  k_dir : expr_value;             (** [dir_dep] *)
  k_rev : expr_value;             (** [rev_dep] *)
  k_imp : expr_value              (** [implied] *)
}.

Definition SYMBOL_CHOICE : Z := 0x10.
Definition SYMBOL_CHOICEVAL : Z := 0x20.
Definition SYMBOL_WRITE : Z := 0x200.
Definition SYMBOL_NO_WRITE : Z := 0x1000.
Definition SYMBOL_DEF_USER : Z := 0x10000.
Definition SYMBOL_NEED_SET_CHOICE_VALUES : Z := 0x100000.

(** The symbols in the order of their allocation, the hash chains that lead to
    them, and the variables of symbol.c. *)
Record state := State {
  syms : list ksym;
  symbol_hash : gmap Z (list symbol);
  modules_val : tristate;
  modules : symbol;              (** [modules_sym] *)
  conf_changed : bool            (** of confdata.c *)
}.

Definition const_sym (s : string) (t : tristate) : ksym :=
  KSym (Some (cs s)) S_UNKNOWN (SYMBOL_CONST .| SYMBOL_VALID) (Val (VStr (cs s)) t)
    (Val VNull no) no [] (EVal NULL no) (EVal NULL no) (EVal NULL no).
Definition no_sym : ksym :=
  KSym None S_UNKNOWN SYMBOL_VALID (Val VNull no) (Val VNull no) no []
    (EVal NULL no) (EVal NULL no) (EVal NULL no).
Definition ks (st : state) (s : symbol) : ksym :=
  match s with
  | symbol_no => const_sym "n" no
  | symbol_mod => const_sym "m" mod_
  | symbol_yes => const_sym "y" yes
  | Sym n => nth n (syms st) no_sym
  end.
Definition upd (s : symbol) (f : ksym → ksym) (st : state) : state :=
  match s with
  | Sym n => State (alter f n (syms st)) (symbol_hash st) (modules_val st) (modules st)
                 (conf_changed st)
  | _ => st
  end.
Definition set_modules_val (t : tristate) (st : state) : state :=
  State (syms st) (symbol_hash st) t (modules st) (conf_changed st).

Definition set_flags (fl : Z) (k : ksym) : ksym :=
  KSym (k_name k) (k_type k) fl (k_curr k) (k_user k) (k_visible k) (k_props k)
    (k_dir k) (k_rev k) (k_imp k).
Definition set_curr (v : symbol_value) (k : ksym) : ksym :=
  KSym (k_name k) (k_type k) (k_flags k) v (k_user k) (k_visible k) (k_props k)
    (k_dir k) (k_rev k) (k_imp k).
Definition set_user (v : symbol_value) (k : ksym) : ksym :=
  KSym (k_name k) (k_type k) (k_flags k) (k_curr k) v (k_visible k) (k_props k)
    (k_dir k) (k_rev k) (k_imp k).
Definition set_visible (t : tristate) (k : ksym) : ksym :=
  KSym (k_name k) (k_type k) (k_flags k) (k_curr k) (k_user k) t (k_props k)
    (k_dir k) (k_rev k) (k_imp k).
Definition set_dir (t : tristate) (k : ksym) : ksym :=
  KSym (k_name k) (k_type k) (k_flags k) (k_curr k) (k_user k) (k_visible k) (k_props k)
    (EVal (ev_expr (k_dir k)) t) (k_rev k) (k_imp k).
Definition set_rev (t : tristate) (k : ksym) : ksym :=
  KSym (k_name k) (k_type k) (k_flags k) (k_curr k) (k_user k) (k_visible k) (k_props k)
    (k_dir k) (EVal (ev_expr (k_rev k)) t) (k_imp k).
Definition set_imp (t : tristate) (k : ksym) : ksym :=
  KSym (k_name k) (k_type k) (k_flags k) (k_curr k) (k_user k) (k_visible k) (k_props k)
    (k_dir k) (k_rev k) (EVal (ev_expr (k_imp k)) t).

Definition has (fl : Z) (k : ksym) : bool := negb (k_flags k .& fl =? 0).
Definition raise (fl : Z) (k : ksym) : ksym := set_flags (k_flags k .| fl) k.
Definition lower (fl : Z) (k : ksym) : ksym := set_flags (Z.land (k_flags k) (Z.lnot fl)) k.
Definition tri (st : state) (s : symbol) : tristate := v_tri (k_curr (ks st s)).

(** The table that expressions read. *)
Definition to_data (k : ksym) : sym_data :=
  {| name := k_name k; type := k_type k; flags := k_flags k;
     curr_val := match v_val (k_curr k) with VStr s => s | _ => [] end;
     curr_tri := v_tri (k_curr k) |}.
Definition tab_of (st : state) : SymTab :=
  {| sym_tab := to_data <$> syms st; modules_sym := modules st |}.

Definition sym_is_choice (st : state) (s : symbol) : bool := has SYMBOL_CHOICE (ks st s).
Definition sym_is_choice_value (st : state) (s : symbol) : bool := has SYMBOL_CHOICEVAL (ks st s).
Definition sym_has_value (st : state) (s : symbol) : bool := has SYMBOL_DEF_USER (ks st s).

(** [sym->curr.val] read as a text. *)
Definition as_text (v : kval) : result (list Z) :=
  match v with
  | VStr s => Ret s
  | VNull => Fault NullDeref
  | VSym _ => Fault BadUnion
  end.

(** ** Properties *)

(** The first property of a type. *)
Fixpoint find_prop (t : prop_type) (l : list property) : option property :=
  match l with
  | [] => None
  | p :: l => if decide (p_type p = t) then Some p else find_prop t l
  end.
Definition sym_get_choice_prop (st : state) (s : symbol) : result property :=
  of_option NullDeref (find_prop P_CHOICE (k_props (ks st s))).
(** A list keeps an expression where [prop_get_symbol] reads a symbol. *)
Definition prop_get_symbol (p : property) : result (option symbol) :=
  match p_expr p with
  | SYMBOL s => Ret (Some s)
  | LIST NULL _ => Ret None
  | LIST _ _ => Fault BadUnion
  | _ => Ret None
  end.
(** The choice of a choice value. *)
Definition choice_of (st : state) (s : symbol) : result (option symbol) :=
  p ← sym_get_choice_prop st s; prop_get_symbol p.
(** [expr_list_for_each_sym]: the symbols of a list. *)
Fixpoint list_syms (e : expr) : result (list symbol) :=
  match e with
  | NULL | NONE | SYMBOL _ => Ret []
  | LIST l s => r ← list_syms l; Ret (s :: r)
  | BIN _ _ NULL | NOT _ => Ret []
  | BIN _ _ _ | COMP _ _ _ | RANGE _ _ => Fault BadUnion
  end.

Definition sym_get_type (st : state) (s : symbol) : symbol_type :=
  let ty := k_type (ks st s) in
  if decide (ty = S_TRISTATE) then
    if sym_is_choice_value st s && bool_decide (k_visible (ks st s) = yes) then S_BOOLEAN
    else if decide (modules_val st = no) then S_BOOLEAN
    else ty
  else ty.

(** ** Evaluation

    Over the calculation [calc] of the symbols that are met. *)

Section calc.
Context (calc : symbol → state → result state).

Definition text_value (s : symbol) (st : state) : result (list Z * state) :=
  match k_type (ks st s) with
  | S_BOOLEAN | S_TRISTATE =>
      match tri st s with
      | no => Ret (cs "n", st)
      | mod_ =>
          st ← calc (modules st) st;
          Ret (if decide (tri st (modules st) = no) then cs "n" else cs "m", st)
      | yes => Ret (cs "y", st)
      end
  | _ => t ← as_text (v_val (k_curr (ks st s))); Ret (t, st)
  end.

Fixpoint eval (e : expr) (st : state) : result (tristate * state) :=
  match e with
  | NULL => Ret (yes, st)
  | SYMBOL s => st ← calc s st; Ret (tri st s, st)
  | BIN AND l r =>
      '(v1, st) ← eval l st; '(v2, st) ← eval r st; Ret (EXPR_AND v1 v2, st)
  | BIN OR l r =>
      '(v1, st) ← eval l st; '(v2, st) ← eval r st; Ret (EXPR_OR v1 v2, st)
  | NOT l => '(v1, st) ← eval l st; Ret (EXPR_NOT v1, st)
  | COMP t a b =>
      st ← calc a st;
      st ← calc b st;
      '(str1, st) ← text_value a st;
      '(str2, st) ← text_value b st;
      Ret (rel_value t (compare_values str1 (k_type (ks st a)) str2 (k_type (ks st b))), st)
  | NONE | LIST _ _ | RANGE _ _ => Ret (no, st)
  end.

(** The first property of type [t] whose condition is not n, with the value
    of the condition. *)
Fixpoint active_prop (t : prop_type) (l : list property) (st : state) :
    result (option (property * tristate) * state) :=
  match l with
  | [] => Ret (None, st)
  | p :: l =>
      if decide (p_type p = t) then
        '(v, st) ← eval (p_visible p) st;
        if decide (v = no) then active_prop t l st else Ret (Some (p, v), st)
      else active_prop t l st
  end.
Definition sym_get_default_prop (s : symbol) (st : state) :
    result (option (property * tristate) * state) :=
  active_prop P_DEFAULT (k_props (ks st s)) st.
Definition sym_get_range_prop (s : symbol) (st : state) :
    result (option (property * tristate) * state) :=
  active_prop P_RANGE (k_props (ks st s)) st.

(** ** Ranges *)

Definition sym_get_range_val (s : symbol) (base : Z) (st : state) : result (Z * state) :=
  st ← calc s st;
  let base := match k_type (ks st s) with S_INT => 10 | S_HEX => 16 | _ => base end in
  t ← as_text (v_val (k_curr (ks st s)));
  Ret (fst (fst (strtoll t base)), st).

(** "%lld" and "0x%llx" *)
Definition fmt_lld (v : Z) : list Z :=
  let digits (v : Z) := hexdig false <$> digits_of 10 20 v [] in
  if v <? 0 then 45 :: digits (- v) else digits v.
Definition fmt_0xllx (v : Z) : list Z := cs "0x" ++ (hexdig false <$> digits_of 16 16 (u64 v) []).

(** The bounds of a range property. *)
Definition range_of (p : property) : result (symbol * symbol) :=
  match p_expr p with
  | RANGE a b => Ret (a, b)
  | NULL => Fault NullDeref
  | COMP _ a b => Ret (a, b)
  | _ => Fault BadUnion
  end.

(** The value is moved to the bound of the range [p] it passes. *)
Definition clamp_value (int : bool) (p : property) (s : symbol) (st : state) : result state :=
  let base := if int then 10 else 16 in
  t ← as_text (v_val (k_curr (ks st s)));
  let val := fst (fst (strtoll t base)) in
  '(a, b) ← range_of p;
  '(val2, st) ← sym_get_range_val a base st;
  '(ok, val2, st) ←
    (if val2 <=? val then
       '(val2, st) ← sym_get_range_val b base st;
       Ret (val <=? val2, val2, st)
     else Ret (false, val2, st));
  if (ok : bool) then Ret st
  else
    let str := if int then fmt_lld val2 else fmt_0xllx val2 in
    Ret (upd s (λ k, set_curr (Val (VStr str) (v_tri (k_curr k))) k) st).
Definition sym_validate_range (s : symbol) (st : state) : result state :=
  match k_type (ks st s) with
  | S_INT | S_HEX =>
      let int := bool_decide (k_type (ks st s) = S_INT) in
      '(prop, st) ← sym_get_range_prop s st;
      match prop with
      | None => Ret st
      | Some (p, _) => clamp_value int p s st
      end
  | _ => Ret st
  end.

(** ** Visibility *)

(** The conditions of the prompts, ored; [choice_sym] is the choice of a
    choice value. *)
Fixpoint prompt_visibility (s : symbol) (choice_sym : option symbol) (l : list property)
    (t : tristate) (st : state) : result (tristate * state) :=
  match l with
  | [] => Ret (t, st)
  | p :: l =>
      if p_text p then
        '(v, st) ← eval (p_visible p) st;
        let v :=
          match choice_sym with
          | Some c =>
              if decide (k_type (ks st s) = S_TRISTATE ∧ v = mod_ ∧ tri st c = yes) then no else v
          | None => v
          end in
        prompt_visibility s choice_sym l (EXPR_OR t v) st
      else prompt_visibility s choice_sym l t st
  end.

(** [dir_dep], [rev_dep], [implied]: the value of the expression, [dflt]
    without one, m becoming y for a boolean. *)
Definition dep_value (s : symbol) (e : expr) (dflt : tristate) (st : state) :
    result (tristate * state) :=
  '(t, st) ← match e with NULL => Ret (dflt, st) | _ => eval e st end;
  Ret (if decide (t = mod_ ∧ sym_get_type st s = S_BOOLEAN) then yes else t, st).

Definition sym_calc_visibility (s : symbol) (st : state) : result state :=
  choice_sym ← (if sym_is_choice_value st s then choice_of st s else Ret None);
  '(t, st) ← prompt_visibility s choice_sym (k_props (ks st s)) no st;
  let t :=
    if decide (t = mod_ ∧ (k_type (ks st s) ≠ S_TRISTATE ∨ modules_val st = no)) then yes else t in
  let st := upd s (set_visible t) st in
  if sym_is_choice_value st s then Ret st
  else
    '(t, st) ← dep_value s (ev_expr (k_dir (ks st s))) yes st;
    let st := upd s (set_dir t) st in
    '(t, st) ← dep_value s (ev_expr (k_rev (ks st s))) no st;
    let st := upd s (set_rev t) st in
    '(t, st) ← dep_value s (ev_expr (k_imp (ks st s))) no st;
    Ret (upd s (set_imp t) st).

(** ** Choices *)

Fixpoint first_visible (l : list symbol) (st : state) : option symbol :=
  match l with
  | [] => None
  | s :: l => if decide (k_visible (ks st s) = no) then first_visible l st else Some s
  end.
(** The defaults of a choice: the first that applies and is visible. *)
Fixpoint choice_defaults (l : list property) (st : state) : result (option symbol * state) :=
  match l with
  | [] => Ret (None, st)
  | p :: l =>
      if decide (p_type p = P_DEFAULT) then
        '(v, st) ← eval (p_visible p) st;
        if decide (v = no) then choice_defaults l st
        else
          d ← prop_get_symbol p;
          d ← of_option NullDeref d;
          if decide (k_visible (ks st d) = no) then choice_defaults l st else Ret (Some d, st)
      else choice_defaults l st
  end.
Definition sym_choice_default (s : symbol) (st : state) : result (option symbol * state) :=
  '(d, st) ← choice_defaults (k_props (ks st s)) st;
  match d with
  | Some d => Ret (Some d, st)
  | None =>
      p ← sym_get_choice_prop st s;
      l ← list_syms (p_expr p);
      Ret (first_visible l st, st)
  end.

(** The visibilities of the choice values, and the flags they share. *)
Fixpoint value_visibilities (l : list symbol) (fl : Z) (st : state) : result (Z * state) :=
  match l with
  | [] => Ret (fl, st)
  | d :: l =>
      st ← sym_calc_visibility d st;
      value_visibilities l
        (if decide (k_visible (ks st d) = no) then fl else fl .& k_flags (ks st d)) st
  end.

Definition sym_calc_choice (s : symbol) (st : state) : result (option symbol * state) :=
  p ← sym_get_choice_prop st s;
  l ← list_syms (p_expr p);
  '(fl, st) ← value_visibilities l (k_flags (ks st s)) st;
  let st := upd s (λ k, set_flags (k_flags k .& (fl .| Z.lnot SYMBOL_DEF_USER)) k) st in
  user ← match v_val (k_user (ks st s)) with
         | VNull => Ret None
         | VSym d => Ret (Some d)
         | VStr _ => Fault BadUnion
         end;
  match user with
  | Some d =>
      if decide (k_visible (ks st d) = no) then
        '(d, st) ← sym_choice_default s st;
        Ret (d, match d with
                | None => upd s (λ k, set_curr (Val (v_val (k_curr k)) no) k) st
                | Some _ => st
                end)
      else Ret (Some d, st)
  | None =>
      '(d, st) ← sym_choice_default s st;
      Ret (d, match d with
              | None => upd s (λ k, set_curr (Val (v_val (k_curr k)) no) k) st
              | Some _ => st
              end)
  end.

(** [set_all_choice_values] of confdata.c *)
Definition set_all_choice_values (s : symbol) (st : state) : result state :=
  p ← sym_get_choice_prop st s;
  l ← list_syms (p_expr p);
  let reset st d :=
    if sym_has_value st d then st
    else upd d (λ k, set_user (Val (v_val (k_user k)) no) k) st in
  let st := foldl reset st l in
  Ret (upd s (λ k, lower (SYMBOL_VALID .| SYMBOL_NEED_SET_CHOICE_VALUES)
                         (raise SYMBOL_DEF_USER k)) st).

(** ** Values *)

(** [EXPR_AND(expr_calc_value(e), t)]: the macro evaluates its argument again
    when it is the lower one. *)
Definition eval_and (e : expr) (t : tristate) (st : state) : result (tristate * state) :=
  '(v, st) ← eval e st;
  if tri_val v <? tri_val t then eval e st else Ret (t, st).

(** The defaults and implications of a symbol that has no user value. *)
Definition default_tri (s : symbol) (st : state) : result (tristate * state) :=
  let st := if decide (ev_tri (k_rev (ks st s)) = no) then st else upd s (raise SYMBOL_WRITE) st in
  if sym_is_choice st s then Ret (no, st)
  else
    '(prop, st) ← sym_get_default_prop s st;
    '(v, st) ←
      match prop with
      | Some (p, vt) => eval_and (p_expr p) vt (upd s (raise SYMBOL_WRITE) st)
      | None => Ret (no, st)
      end;
    if decide (ev_tri (k_imp (ks st s)) = no) then Ret (v, st)
    else
      Ret (EXPR_AND (EXPR_OR v (ev_tri (k_imp (ks st s)))) (ev_tri (k_dir (ks st s))),
           upd s (raise SYMBOL_WRITE) st).

(** [calc_newval:] a selected symbol whose dependencies are not met is n. *)
Definition select_tri (s : symbol) (v : tristate) (st : state) : tristate :=
  if decide (ev_tri (k_dir (ks st s)) = no ∧ ev_tri (k_rev (ks st s)) ≠ no) then no
  else EXPR_OR v (ev_tri (k_rev (ks st s))).

(** The new value of a boolean or tristate. *)
Definition new_tri (s : symbol) (st : state) : result (tristate * state) :=
  '(v, st) ←
    (if sym_is_choice_value st s && bool_decide (k_visible (ks st s) = yes) then
       c ← choice_of st s;
       c ← of_option NullDeref c;
       Ret (if decide (v_val (k_curr (ks st c)) = VSym s) then yes else no, st)
     else if negb (bool_decide (k_visible (ks st s) = no)) && sym_has_value st s then
       Ret (select_tri s (EXPR_AND (v_tri (k_user (ks st s))) (k_visible (ks st s))) st, st)
     else
       '(v, st) ← default_tri s st;
       Ret (select_tri s v st, st));
  Ret (if decide (v = mod_ ∧ sym_get_type st s = S_BOOLEAN) then yes else v, st).

(** The new value of a string, integer or hexadecimal symbol. *)
Definition new_text (s : symbol) (st : state) : result (kval * state) :=
  if negb (bool_decide (k_visible (ks st s) = no)) && sym_has_value st s then
    Ret (v_val (k_user (ks st s)), st)
  else
    '(prop, st) ← sym_get_default_prop s st;
    match prop with
    | None => Ret (VStr [], st)
    | Some (p, _) =>
        d ← prop_get_symbol p;
        match d with
        | None => Ret (VStr [], st)
        | Some d =>
            st ← calc d (upd s (raise SYMBOL_WRITE) st);
            Ret (v_val (k_curr (ks st d)), st)
        end
    end.

(** After the new value: the choice, the range, the flags. *)
Definition write_values (s : symbol) (l : list symbol) (st : state) : state :=
  foldl (λ st c, if has SYMBOL_WRITE (ks st s) && negb (bool_decide (k_visible (ks st c) = no))
                 then upd c (raise SYMBOL_WRITE) st else st) st l.
Definition finish_value (s : symbol) (oldval newval : symbol_value) (st : state) : result state :=
  let st := upd s (set_curr newval) st in
  st ←
    (if sym_is_choice st s && bool_decide (v_tri newval = yes) then
       '(d, st) ← sym_calc_choice s st;
       Ret (upd s (λ k, set_curr (Val (match d with Some d => VSym d | None => VNull end)
                                      (v_tri (k_curr k))) k) st)
     else Ret st);
  st ← sym_validate_range s st;
  let st :=
    if decide (k_curr (ks st s) ≠ oldval ∧ modules st = s)
    then set_modules_val (tri st s) st else st in
  st ←
    (if sym_is_choice st s then
       p ← sym_get_choice_prop st s;
       l ← list_syms (p_expr p);
       Ret (write_values s l st)
     else Ret st);
  let st :=
    if has SYMBOL_NO_WRITE (ks st s) then upd s (lower SYMBOL_WRITE) st else st in
  if has SYMBOL_NEED_SET_CHOICE_VALUES (ks st s) then set_all_choice_values s st else Ret st.

(** The calculation proper, of a symbol that has just been marked valid. *)
Definition calc_valid (s : symbol) (st : state) : result state :=
  let oldval := k_curr (ks st s) in
  match k_type (ks st s) with
  | S_UNKNOWN =>
      Ret (upd s (λ k, set_curr (Val (match k_name k with Some n => VStr n | None => VNull end) no)
                                k) st)
  | ty =>
      let texty := bool_decide (ty ≠ S_BOOLEAN ∧ ty ≠ S_TRISTATE) in
      let empty := if texty then VStr [] else VStr (cs "n") in
      st ← sym_calc_visibility s (upd s (lower SYMBOL_WRITE) st);
      let st := if decide (k_visible (ks st s) = no) then st else upd s (raise SYMBOL_WRITE) st in
      let st := upd s (set_curr (Val empty no)) st in
      if texty then
        '(v, st) ← new_text s st;
        finish_value s oldval (Val v no) st
      else
        '(v, st) ← new_tri s st;
        finish_value s oldval (Val empty v) st
  end.

Definition calc_body (s : symbol) (st : state) : result state :=
  if has SYMBOL_VALID (ks st s) then Ret st
  else
    st ←
      (if sym_is_choice_value st s && has SYMBOL_NEED_SET_CHOICE_VALUES (ks st s) then
         let st := upd s (lower SYMBOL_NEED_SET_CHOICE_VALUES) st in
         c ← choice_of st s;
         match c with Some c => calc c st | None => Ret st end
       else Ret st);
    calc_valid s (upd s (raise SYMBOL_VALID) st).
End calc.

Fixpoint calc_fuel (n : nat) (s : symbol) (st : state) : result state :=
  match n with
  | O => Fault OutOfFuel
  | S n => calc_body (calc_fuel n) s st
  end.

(** What is left to calculate: a choice that has its values set once is
    calculated again. *)
Definition sym_work (k : ksym) : nat :=
  (if has SYMBOL_VALID k then 0 else 2) + (if has SYMBOL_NEED_SET_CHOICE_VALUES k then 3 else 0).
Definition work (st : state) : nat := sum_list (sym_work <$> syms st).
Definition sym_calc_value (s : symbol) (st : state) : result state :=
  calc_fuel (S (work st)) s st.
End KconfigSym.
