(* ===== verification/KconfigSymProps.v ===== *)
(** * Kconfig symbol values: invariants of the calculation

    What every step of [sym_calc_value] keeps, proved once for an arbitrary
    property of the symbol table ([calc_valid_keeps]), and its uses: the
    calculation ends whatever the dependencies are, the values keep to their
    types, and a calculated symbol is left alone by the calculations it
    starts. *)

From S2P Require Import Prelude CLib KconfigExpr KconfigSimp KconfigSym.
Open Scope Z_scope.

Module KconfigSymProps.
Import KconfigExpr KconfigSimp KconfigSym.

(** ** The symbol table *)

Definition known (st : state) (s : symbol) : Prop :=
  match s with Sym n => (n < length (syms st))%nat | _ => False end.
#[export] Instance known_dec st s : Decision (known st s).
Proof. destruct s; simpl; apply _. Defined.

Lemma ks_upd_same s f st : known st s → ks (upd s f st) s = f (ks st s).
Proof.
  destruct s as [| | |n]; simpl; try done. intros Hn.
  rewrite (nth_lookup (alter f n (syms st))), list_lookup_alter_eq, (nth_lookup (syms st)).
  by destruct (lookup_lt_is_Some_2 _ _ Hn) as [k ->].
Qed.
Lemma ks_upd_ne s s' f st : s ≠ s' → ks (upd s f st) s' = ks st s'.
Proof.
  destruct s as [| | |n], s' as [| | |n']; simpl; try done. intros Hn.
  rewrite (nth_lookup (alter f n (syms st))), list_lookup_alter_ne, (nth_lookup (syms st)) by congruence.
  done.
Qed.
(** An unknown symbol is not written. *)
Lemma upd_unknown s f st : ¬ known st s → upd s f st = st.
Proof.
  destruct s as [| | |n]; simpl; try done. intros Hn. destruct st; simpl in *. f_equal.
  apply list_eq. intros i. destruct (decide (i = n)) as [->|Hi].
  - rewrite list_lookup_alter_eq, lookup_ge_None_2 by lia. done.
  - by rewrite list_lookup_alter_ne.
Qed.
Lemma ks_upd s s' f st :
  ks (upd s f st) s' = if decide (s = s' ∧ known st s) then f (ks st s') else ks st s'.
Proof.
  destruct (decide (s = s')) as [<-|Hs].
  - destruct (decide (s = s ∧ known st s)) as [[_ Hk]|Hk]; [by apply ks_upd_same|].
    rewrite upd_unknown; [done|]. naive_solver.
  - rewrite ks_upd_ne by done. case_decide; naive_solver.
Qed.
Lemma known_upd s f st s' : known (upd s f st) s' ↔ known st s'.
Proof. destruct s, s'; simpl; rewrite ?length_alter; done. Qed.
Lemma modules_upd s f st : modules (upd s f st) = modules st.
Proof. by destruct s. Qed.
Lemma modules_val_upd s f st : modules_val (upd s f st) = modules_val st.
Proof. by destruct s. Qed.

Lemma has_raise_same fl k : fl ≠ 0 → has fl (raise fl k) = true.
Proof.
  intros Hf. unfold has, raise. simpl. apply negb_true_iff, Z.eqb_neq. intros E. apply Hf.
  rewrite Z.land_lor_distr_l, Z.land_diag in E. by apply Z.lor_eq_0_iff in E as [_ ->].
Qed.
Lemma has_lower_disj fl fl' k : fl .& fl' = 0 → has fl' (lower fl k) = has fl' k.
Proof.
  intros Hf. unfold has, lower. simpl. f_equal. f_equal. rewrite <- Z.land_assoc. f_equal.
  rewrite Z.land_comm. change (Z.land fl' (Z.lnot fl)) with (Z.land fl' (Z.lnot fl)).
  rewrite <- Z.ldiff_land. apply Z.bits_inj'. intros i Hi. rewrite Z.ldiff_spec.
  assert (Z.testbit (fl .& fl') i = false) as E by (rewrite Hf; apply Z.bits_0).
  rewrite Z.land_spec in E. destruct (Z.testbit fl i), (Z.testbit fl' i); done.
Qed.
Lemma has_raise_disj fl fl' k : fl .& fl' = 0 → has fl' (raise fl k) = has fl' k.
Proof.
  intros Hf. unfold has, raise. simpl. by rewrite Z.land_lor_distr_l, Hf, Z.lor_0_r.
Qed.
Lemma has_lower_same fl fl' k : fl .& fl' = fl' → has fl' (lower fl k) = false.
Proof.
  intros Hf. unfold has, lower. simpl. apply negb_false_iff, Z.eqb_eq.
  rewrite <- Hf, <- Z.land_assoc, (Z.land_assoc (Z.lnot fl)), (Z.land_comm (Z.lnot fl)).
  by rewrite Z.land_lnot_diag, Z.land_0_l, Z.land_0_r.
Qed.

(** ** Minor updates

    The calculation of one symbol changes little of another: visibility, user
    value and the values of the dependency expressions, and the flags
    SYMBOL_WRITE and SYMBOL_DEF_USER. *)
Record minor (k k' : ksym) : Prop := {
  mi_name : k_name k' = k_name k;
  mi_type : k_type k' = k_type k;
  mi_curr : k_curr k' = k_curr k;
  mi_props : k_props k' = k_props k;
  mi_flags : Z.land (k_flags k') (Z.lnot (SYMBOL_WRITE .| SYMBOL_DEF_USER)) =
             Z.land (k_flags k) (Z.lnot (SYMBOL_WRITE .| SYMBOL_DEF_USER));
  mi_dir : ev_expr (k_dir k') = ev_expr (k_dir k);
  mi_rev : ev_expr (k_rev k') = ev_expr (k_rev k);
  mi_imp : ev_expr (k_imp k') = ev_expr (k_imp k)
}.

Lemma has_minor k k' fl :
  minor k k' → (SYMBOL_WRITE .| SYMBOL_DEF_USER) .& fl = 0 → has fl k' = has fl k.
Proof.
  intros Hm Hf. rewrite <- (has_lower_disj _ _ k' Hf), <- (has_lower_disj _ _ k Hf).
  unfold has, lower. simpl. by rewrite (mi_flags _ _ Hm).
Qed.

Create HintDb ksym.
Lemma minor_visible t k : minor k (set_visible t k).
Proof. by constructor. Qed.
Lemma minor_dir t k : minor k (set_dir t k).
Proof. by constructor. Qed.
Lemma minor_rev t k : minor k (set_rev t k).
Proof. by constructor. Qed.
Lemma minor_imp t k : minor k (set_imp t k).
Proof. by constructor. Qed.
Lemma minor_user v k : minor k (set_user v k).
Proof. by constructor. Qed.
Lemma minor_raise k : minor k (raise SYMBOL_WRITE k).
Proof.
  constructor; try done. simpl. by rewrite Z.land_lor_distr_l, Z.lor_0_r.
Qed.
Lemma minor_lower k : minor k (lower SYMBOL_WRITE k).
Proof. constructor; try done. simpl. by rewrite <- Z.land_assoc. Qed.
Lemma minor_keep fl k : minor k (set_flags (k_flags k .& (fl .| Z.lnot SYMBOL_DEF_USER)) k).
Proof.
  constructor; try done. simpl. rewrite <- Z.land_assoc. f_equal.
  rewrite Z.land_lor_distr_l. change (Z.lnot SYMBOL_DEF_USER .& _) with
    (Z.lnot (SYMBOL_WRITE .| SYMBOL_DEF_USER)).
  apply Z.bits_inj'. intros i Hi. rewrite Z.lor_spec, Z.land_spec.
  by destruct (Z.testbit fl i), (Z.testbit (Z.lnot (SYMBOL_WRITE .| SYMBOL_DEF_USER)) i).
Qed.
#[export] Hint Resolve minor_visible minor_dir minor_rev minor_imp minor_user minor_raise
  minor_lower minor_keep : ksym.

(** Those of a symbol that is not a choice, and of one that is in no choice,
    keep the user's value. *)
Record tame (k k' : ksym) : Prop := {
  ta_minor : minor k k';
  ta_user : k_user k' = k_user k;
  ta_has : has SYMBOL_DEF_USER k' = has SYMBOL_DEF_USER k
}.
Lemma tame_visible t k : tame k (set_visible t k).
Proof. split; auto with ksym. Qed.
Lemma tame_dir t k : tame k (set_dir t k).
Proof. split; auto with ksym. Qed.
Lemma tame_rev t k : tame k (set_rev t k).
Proof. split; auto with ksym. Qed.
Lemma tame_imp t k : tame k (set_imp t k).
Proof. split; auto with ksym. Qed.
Lemma tame_raise k : tame k (raise SYMBOL_WRITE k).
Proof. split; [auto with ksym|done|by apply has_raise_disj]. Qed.
Lemma tame_lower k : tame k (lower SYMBOL_WRITE k).
Proof. split; [auto with ksym|done|by apply has_lower_disj]. Qed.
#[export] Hint Resolve tame_visible tame_dir tame_rev tame_imp tame_raise tame_lower : ksym.

(** ** What the calculation keeps *)

(** A run that keeps [I], if it returns, and runs out of fuel only if [F]. *)
Definition keeps (F : Prop) (I : state → Prop) {A} (get : A → state) (m : result A) : Prop :=
  match m with Ret a => I (get a) | Fault f => f = OutOfFuel → F end.
Lemma keeps_bind F J I {A B} (gA : A → state) (gB : B → state) (m : result A) (k : A → result B) :
  keeps F J gA m → (∀ a, J (gA a) → keeps F I gB (k a)) → keeps F I gB (m ≫= k).
Proof. destruct m; simpl; auto. Qed.
(** A step that does not touch the state. *)
Lemma keeps_pure F I {A B} (gB : B → state) (m : result A) (k : A → result B) :
  m ≠ Fault OutOfFuel → (∀ a, m = Ret a → keeps F I gB (k a)) → keeps F I gB (m ≫= k).
Proof. destruct m; simpl; [auto|]. congruence. Qed.

Lemma as_text_fuel v : as_text v ≠ Fault OutOfFuel.
Proof. by destruct v. Qed.
Lemma of_option_no_fuel {A} f (o : option A) : f ≠ OutOfFuel → of_option f o ≠ Fault OutOfFuel.
Proof. destruct o; simpl; congruence. Qed.
Lemma prop_get_symbol_fuel p : prop_get_symbol p ≠ Fault OutOfFuel.
Proof. unfold prop_get_symbol. by repeat case_match. Qed.
Lemma choice_prop_fuel st s : sym_get_choice_prop st s ≠ Fault OutOfFuel.
Proof. by apply of_option_no_fuel. Qed.
Lemma choice_of_fuel st s : choice_of st s ≠ Fault OutOfFuel.
Proof.
  unfold choice_of. destruct (sym_get_choice_prop st s) as [p|f] eqn:E; simpl.
  - apply prop_get_symbol_fuel.
  - intros [= ->]. by apply choice_prop_fuel in E.
Qed.
Lemma list_syms_fuel e : list_syms e ≠ Fault OutOfFuel.
Proof.
  induction e; simpl; try done; [by repeat case_match|].
  destruct (list_syms e); simpl; congruence.
Qed.
Lemma range_of_fuel p : range_of p ≠ Fault OutOfFuel.
Proof. unfold range_of. by case_match. Qed.
#[export] Hint Resolve as_text_fuel prop_get_symbol_fuel choice_prop_fuel choice_of_fuel
  list_syms_fuel range_of_fuel : ksym.

Definition member (st : state) (s d : symbol) : Prop :=
  ∃ p l, sym_get_choice_prop st s = Ret p ∧ list_syms (p_expr p) = Ret l ∧ d ∈ l.

(** The value of an untyped symbol. *)
Definition name_value (k : ksym) : ksym :=
  set_curr (Val (match k_name k with Some n => VStr n | None => VNull end) no) k.

Section keeps.
(** [W]: the symbols that are calculated, [V]: those that minor updates
    reach, [C]: the choices, [M]: the values of choices. *)
Context (F : Prop).
Context (calc : symbol → state → result state) (I : state → Prop) (W V C M : symbol → Prop).
Context (K_calc : ∀ s st, I st → keeps F I id (calc s st)).
Context (K_WV : ∀ s, W s → V s).
Context (K_choice : ∀ st s, W s → I st → sym_is_choice st s = true → C s).
Context (K_member : ∀ st s d, W s → I st → member st s d → M d).
Context (K_MV : ∀ d, M d → V d).
Context (K_tame : ∀ s f st, V s → (∀ k, tame k (f k)) → I st → I (upd s f st)).
Context (K_keep : ∀ s fl st, W s → C s → I st →
  I (upd s (λ k, set_flags (k_flags k .& (fl .| Z.lnot SYMBOL_DEF_USER)) k) st)).
Context (K_user : ∀ d st, M d → I st → sym_has_value st d = false →
  I (upd d (λ k, set_user (Val (v_val (k_user k)) no) k) st)).
Context (K_curr : ∀ s g st, W s → I st →
  (v_tri (g (ks st s)) = mod_ → tri st s = mod_ ∨ sym_get_type st s ≠ S_BOOLEAN) →
  I (upd s (λ k, set_curr (g k) k) st)).
Context (K_mod : ∀ st, W (modules st) → I st → I (set_modules_val (tri st (modules st)) st)).
Context (K_again : ∀ s st, W s → I st → has SYMBOL_NEED_SET_CHOICE_VALUES (ks st s) = true →
  I (upd s (λ k, lower (SYMBOL_VALID .| SYMBOL_NEED_SET_CHOICE_VALUES)
                       (raise SYMBOL_DEF_USER k)) st)).

Abbreviation keeps1 := (keeps F I (@id state)).
Abbreviation keeps2 := (keeps F I snd).

Ltac step :=
  first
  [ apply keeps_pure; [solve [auto with ksym]|intros ? ?]
  | apply (keeps_bind F I I snd); [|intros [? ?] ?]
  | apply (keeps_bind F I I (@id state)); [|intros ? ?] ].

Lemma text_value_keeps s st : I st → keeps2 (text_value calc s st).
Proof.
  intros HI. unfold text_value.
  repeat case_match; try done; step; try done; by apply K_calc.
Qed.

Lemma eval_keeps e st : I st → keeps2 (eval calc e st).
Proof.
  revert st. induction e; intros st HI; cbn [eval]; try done.
  - destruct t; step; eauto; step; eauto.
  - step; eauto.
  - step; [by apply K_calc|]. step; [by apply K_calc|].
    step; [by apply text_value_keeps|]. step; [by apply text_value_keeps|]. done.
  - step; [by apply K_calc|]. done.
Qed.

Lemma active_prop_keeps t l st : I st → keeps2 (active_prop calc t l st).
Proof.
  revert st. induction l as [|p l IH]; intros st HI; cbn [active_prop]; [done|].
  case_decide; [|auto]. step; [by apply eval_keeps|]. case_decide; auto.
Qed.

Lemma range_val_keeps s base st : I st → keeps2 (sym_get_range_val calc s base st).
Proof. intros HI. step; [by apply K_calc|]. by step. Qed.

Lemma clamp_value_keeps int p s st : W s → I st → keeps1 (clamp_value calc int p s st).
Proof.
  intros Hs HI. unfold clamp_value. step. step. case_match. step; [by apply range_val_keeps|].
  apply (keeps_bind F I I snd); [case_match; [|done]; step; [by apply range_val_keeps|done]|].
  intros [[[] ?] ?] ?; [done|]. apply K_curr; auto.
Qed.
Lemma validate_range_keeps s st : W s → I st → keeps1 (sym_validate_range calc s st).
Proof.
  intros Hs HI. unfold sym_validate_range. case_match; try done.
  all: step; [by apply active_prop_keeps|]; case_match; [|done]; case_match; by apply clamp_value_keeps.
Qed.

Lemma prompt_visibility_keeps s c l t st : I st → keeps2 (prompt_visibility calc s c l t st).
Proof.
  revert t st. induction l as [|p l IH]; intros t st HI; cbn [prompt_visibility]; [done|].
  case_match; [|auto]. step; [by apply eval_keeps|]. auto.
Qed.
Lemma dep_value_keeps s e d st : I st → keeps2 (dep_value calc s e d st).
Proof. intros HI. step; [|done]. case_match; try done; by apply eval_keeps. Qed.

Lemma visibility_keeps s st : V s → I st → keeps1 (sym_calc_visibility calc s st).
Proof.
  intros Hs HI. unfold sym_calc_visibility.
  apply keeps_pure; [case_match; [auto with ksym|done]|intros c _].
  step; [by apply prompt_visibility_keeps|]. simpl in *.
  assert (∀ t st, I st → I (upd s (set_visible t) st)) as Hv by auto with ksym.
  case_match; [by apply Hv|].
  step; [by apply dep_value_keeps, Hv|]. step; [apply dep_value_keeps; auto with ksym|].
  step; [apply dep_value_keeps; auto with ksym|]. simpl in *. auto with ksym.
Qed.

Lemma choice_defaults_keeps l st : I st → keeps2 (choice_defaults calc l st).
Proof.
  revert st. induction l as [|p l IH]; intros st HI; cbn [choice_defaults]; [done|].
  case_decide; [|auto]. step; [by apply eval_keeps|]. case_decide; [auto|].
  step. apply keeps_pure; [by apply of_option_no_fuel|intros ? ?]. case_decide; auto.
Qed.
Lemma choice_default_keeps s st : I st → keeps2 (sym_choice_default calc s st).
Proof.
  intros HI. unfold sym_choice_default. step; [by apply choice_defaults_keeps|].
  case_match; [done|]. step. by step.
Qed.

Lemma value_visibilities_keeps l fl st :
  (∀ d, d ∈ l → M d) → I st → keeps2 (value_visibilities calc l fl st).
Proof.
  revert fl st. induction l as [|d l IH]; intros fl st Hl HI; cbn [value_visibilities]; [done|].
  step; [apply visibility_keeps; [apply K_MV; set_solver|done]|]. apply IH; [set_solver|done].
Qed.

Lemma calc_choice_keeps s st : W s → C s → I st → keeps2 (sym_calc_choice calc s st).
Proof.
  intros Hs HC HI. unfold sym_calc_choice.
  apply keeps_pure; [auto with ksym|intros p Hp]. apply keeps_pure; [auto with ksym|intros l Hl].
  step.
  { apply value_visibilities_keeps; [|done]. intros d Hd. apply (K_member st s); [done..|]. by exists p, l. }
  simpl in *. match goal with |- context [upd s ?f ?st] => set (st' := upd s f st) in * end.
  assert (I st') by (by apply K_keep).
  assert (keeps2 ('(d, st) ← sym_choice_default calc s st';
                  Ret (d, match d with
                          | None => upd s (λ k, set_curr (Val (v_val (k_curr k)) no) k) st
                          | Some _ => st
                          end))) as Hd.
  { step; [by apply choice_default_keeps|]. case_match; [done|]. simpl. by apply K_curr. }
  apply keeps_pure; [by case_match|intros u _]. case_match; [|done]. by case_match.
Qed.

Lemma set_all_keeps s st :
  W s → I st → has SYMBOL_NEED_SET_CHOICE_VALUES (ks st s) = true →
  keeps1 (set_all_choice_values s st).
Proof.
  intros Hs HI Hn. unfold set_all_choice_values.
  apply keeps_pure; [auto with ksym|intros p Hp]. apply keeps_pure; [auto with ksym|intros l Hl].
  simpl. match goal with |- I (upd s _ ?x) =>
    assert (I x ∧ has SYMBOL_NEED_SET_CHOICE_VALUES (ks x s) = true) as [? ?]; [|by apply K_again] end.
  assert (∀ d, d ∈ l → M d) as Hd.
  { intros d Hd. apply (K_member st s); [done..|]. by exists p, l. }
  clear Hp Hl. revert st HI Hn. induction l as [|d l IH]; intros st HI Hn; simpl; [done|].
  apply IH; [set_solver|..]; destruct (sym_has_value st d) eqn:Hh; try done.
  - apply K_user; [set_solver|done..].
  - rewrite ks_upd. by case_decide.
Qed.

Lemma write_values_keeps s l st : (∀ d, d ∈ l → M d) → I st → I (write_values s l st).
Proof.
  revert st. induction l as [|d l IH]; intros st Hl HI; [done|]. apply IH; [set_solver|].
  case_match; [|done]. apply K_tame; [apply K_MV; set_solver|auto with ksym|done].
Qed.

Lemma default_prop_keeps s st : I st → keeps2 (sym_get_default_prop calc s st).
Proof. apply active_prop_keeps. Qed.
Lemma eval_and_keeps e t st : I st → keeps2 (eval_and calc e t st).
Proof.
  intros HI. unfold eval_and. step; [by apply eval_keeps|]. case_match; [by apply eval_keeps|done].
Qed.

Lemma default_tri_keeps s st : V s → I st → keeps2 (default_tri calc s st).
Proof.
  intros Hs HI. unfold default_tri.
  set (st' := if decide (ev_tri (k_rev (ks st s)) = no) then st else upd s (raise SYMBOL_WRITE) st).
  assert (I st') by (subst st'; case_decide; auto with ksym). clearbody st'.
  case_match; [done|]. step; [by apply default_prop_keeps|]. step.
  - case_match; [|done]. case_match. apply eval_and_keeps. auto with ksym.
  - case_decide; [done|]. simpl in *. auto with ksym.
Qed.

(** The new value of a tristate is m only where the type allows it. *)
Lemma new_tri_keeps s st :
  V s → I st →
  keeps F I snd (new_tri calc s st) ∧
  ∀ v st', new_tri calc s st = Ret (v, st') → v = mod_ → sym_get_type st' s ≠ S_BOOLEAN.
Proof.
  intros Hs HI. split.
  - unfold new_tri. step; [|done].
    case_match; [apply keeps_pure; [auto with ksym|intros ? ?];
                 by apply keeps_pure; [apply of_option_no_fuel|] |].
    case_match; [done|]. by step; [apply default_tri_keeps|].
  - intros v st' E Hv. unfold new_tri in E. apply bind_ret_inv in E as [[v1 st1] [_ E]].
    injection E as E1 E2. subst st'. case_decide as Hd; [congruence|]. subst v1.
    intros Ht. apply Hd. by split.
Qed.

Lemma new_text_keeps s st : V s → I st → keeps2 (new_text calc s st).
Proof.
  intros Hs HI. unfold new_text. case_match; [done|]. step; [by apply default_prop_keeps|].
  case_match; [|done]. case_match. step. case_match; [|done].
  step; [|done]. apply K_calc. auto with ksym.
Qed.

Lemma finish_keeps s old new st :
  W s → I st → (v_tri new = mod_ → sym_get_type st s ≠ S_BOOLEAN) →
  keeps1 (finish_value calc s old new st).
Proof.
  intros Hs HI Hnew. unfold finish_value.
  assert (I (upd s (set_curr new) st)) as HI' by (apply (K_curr s (λ _, new)); auto).
  apply (keeps_bind F I I (@id state)).
  { destruct (_ && _) eqn:Hch; [|done]. apply andb_true_iff in Hch as [Hch _].
    step; [by apply calc_choice_keeps; eauto|]. apply K_curr; auto. }
  intros st1 HI1. simpl in HI1. step; [by apply validate_range_keeps|].
  match goal with |- context [if decide ?P then ?x else a] =>
    assert (I (if decide P then x else a)) as HI2; [|set (st2 := if decide P then x else a) in *] end.
  { case_decide as Hd; [|done]. destruct Hd as [_ Hm]. rewrite <- Hm. apply K_mod; [by rewrite Hm|done]. }
  clearbody st2. apply (keeps_bind F I I (@id state)).
  { case_match; [|done]. apply keeps_pure; [auto with ksym|intros p Hp].
    apply keeps_pure; [auto with ksym|intros l Hl]. apply write_values_keeps; [|done].
    intros d Hd. apply (K_member st2 s); [done..|]. by exists p, l. }
  intros st3 HI3. simpl in HI3.
  match goal with |- context [if has SYMBOL_NO_WRITE _ then ?x else st3] =>
    assert (I (if has SYMBOL_NO_WRITE (ks st3 s) then x else st3)) as HI4
      by (case_match; auto with ksym);
    set (st4 := if has SYMBOL_NO_WRITE (ks st3 s) then x else st3) in * end.
  clearbody st4. case_match; [|done]. by apply set_all_keeps.
Qed.

Lemma calc_valid_keeps s st :
  (k_type (ks st s) = S_UNKNOWN → I (upd s name_value st)) →
  (k_type (ks st s) ≠ S_UNKNOWN → W s) → I st → keeps1 (calc_valid calc s st).
Proof.
  intros Hu Hw HI. unfold calc_valid.
  assert (W s → ∀ e st, I st →
    I (upd s (set_curr (Val e no))
         (if decide (k_visible (ks st s) = no) then st else upd s (raise SYMBOL_WRITE) st))) as Hcurr.
  { intros Hs e st1 HI1. apply (K_curr s (λ _, Val e no)); [done| |done]. case_decide; auto with ksym. }
  case_match; [by apply Hu| ..]; pose proof (Hw ltac:(done)) as Hs; specialize (Hcurr Hs).
  all: apply (keeps_bind F I I (@id state)); [apply visibility_keeps; auto with ksym|].
  all: intros st1 HI1; cbn; pose proof (Hcurr (VStr []) st1 HI1) as HI2;
       pose proof (Hcurr (VStr (cs "n")) st1 HI1) as HI3.
  1,2: destruct (new_tri_keeps s _ (K_WV s Hs) HI3) as [Hk Hv];
       destruct (new_tri calc s _) as [[v st2]|f]; [|done];
       apply finish_keeps; [done|done|by apply Hv].
  all: step; [by apply new_text_keeps; auto|]; by apply finish_keeps.
Qed.
End keeps.

(** ** Termination *)

Lemma unknown_valid st s : ¬ known st s → has SYMBOL_VALID (ks st s) = true.
Proof.
  destruct s as [| | |n]; try done. simpl. intros Hn.
  by rewrite nth_overflow by lia.
Qed.
Lemma invalid_known st s : has SYMBOL_VALID (ks st s) = false → known st s.
Proof.
  intros Hv. destruct (decide (known st s)) as [|Hk]; [done|].
  by rewrite (unknown_valid _ _ Hk) in Hv.
Qed.

Lemma sum_alter (g : ksym → nat) (f : ksym → ksym) n l d :
  (n < length l)%nat →
  (sum_list (g <$> alter f n l) + g (nth n l d) = sum_list (g <$> l) + g (f (nth n l d)))%nat.
Proof.
  revert n. induction l as [|k l IH]; intros [|n] Hn; simpl in Hn; [lia..| |].
  - change (alter f O (k :: l)) with (f k :: l). simpl. lia.
  - change (alter f (S n) (k :: l)) with (k :: alter f n l). rewrite !fmap_cons. cbn [sum_list nth]. specialize (IH n ltac:(lia)). lia.
Qed.
Lemma work_upd s f st :
  known st s → (work (upd s f st) + sym_work (ks st s) = work st + sym_work (f (ks st s)))%nat.
Proof. destruct s as [| | |n]; try done. apply sum_alter. Qed.
Lemma work_upd_le s f st :
  (sym_work (f (ks st s)) ≤ sym_work (ks st s) → work (upd s f st) ≤ work st)%nat.
Proof.
  intros Hw. destruct (decide (known st s)) as [Hk|Hk]; [|by rewrite upd_unknown].
  pose proof (work_upd s f st Hk). lia.
Qed.
Lemma work_upd_eq s f st : (∀ k, sym_work (f k) = sym_work k) → work (upd s f st) = work st.
Proof.
  intros Hw. destruct (decide (known st s)) as [Hk|Hk]; [|by rewrite upd_unknown].
  pose proof (work_upd s f st Hk). rewrite Hw in *. lia.
Qed.
Lemma work_minor k k' : minor k k' → sym_work k' = sym_work k.
Proof. intros Hm. unfold sym_work. by rewrite !(has_minor k k'). Qed.

(** Marking a symbol valid, or clearing its request to set the values of its
    choice, leaves less to do. *)
Lemma work_raise_valid s st :
  (work (upd s (raise SYMBOL_VALID) st) +
     (if has SYMBOL_VALID (ks st s) then 0 else 2) = work st)%nat.
Proof.
  destruct (has SYMBOL_VALID (ks st s)) eqn:Hv.
  - rewrite Nat.add_0_r. destruct (decide (known st s)) as [Hk|Hk]; [|by rewrite upd_unknown].
    pose proof (work_upd s (raise SYMBOL_VALID) st Hk) as Hw. unfold sym_work in Hw.
    rewrite has_raise_same, has_raise_disj, Hv in Hw by done. lia.
  - apply invalid_known in Hv as Hk. pose proof (work_upd s (raise SYMBOL_VALID) st Hk) as Hw.
    unfold sym_work in Hw. rewrite has_raise_same, has_raise_disj, Hv in Hw by done. lia.
Qed.
Lemma work_lower_need s st :
  known st s → has SYMBOL_NEED_SET_CHOICE_VALUES (ks st s) = true →
  (work (upd s (lower SYMBOL_NEED_SET_CHOICE_VALUES) st) + 3 = work st)%nat.
Proof.
  intros Hk Hn. pose proof (work_upd s (lower SYMBOL_NEED_SET_CHOICE_VALUES) st Hk) as Hw.
  unfold sym_work in Hw. rewrite (has_lower_disj _ SYMBOL_VALID), has_lower_same, Hn in Hw by done.
  lia.
Qed.
(** A choice whose values have been set once is calculated again, for the last time. *)
Lemma work_again s st :
  has SYMBOL_NEED_SET_CHOICE_VALUES (ks st s) = true →
  (work (upd s (λ k, lower (SYMBOL_VALID .| SYMBOL_NEED_SET_CHOICE_VALUES)
                           (raise SYMBOL_DEF_USER k)) st) ≤ work st)%nat.
Proof.
  intros Hn. apply work_upd_le. unfold sym_work. rewrite !has_lower_same, Hn by done. lia.
Qed.

(** One call, over calls that keep to the work they are given. *)
Lemma calc_valid_work calc w s st :
  (∀ s st, (work st ≤ w)%nat → keeps False (λ st', (work st' ≤ w)%nat) id (calc s st)) →
  (work st ≤ w)%nat → keeps False (λ st', (work st' ≤ w)%nat) id (calc_valid calc s st).
Proof.
  intros Hc Hw. apply (calc_valid_keeps _ _ _ (λ _, True) (λ _, True) (λ _, True) (λ _, True)); try done.
  - intros s' f st' _ Hf Hw'. rewrite work_upd_eq; [done|]. intros k. apply work_minor, Hf.
  - intros s' fl st' _ _ Hw'. rewrite work_upd_eq; [done|]. auto using work_minor with ksym.
  - intros d st' _ Hw' _. by rewrite work_upd_eq.
  - intros s' g st' _ Hw' _. by rewrite work_upd_eq.
  - intros s' st' _ Hw' Hn. etrans; [by apply work_again|done].
  - intros _. by rewrite work_upd_eq.
Qed.

Lemma calc_fuel_work n s st :
  (work st < n)%nat → keeps False (λ st', (work st' ≤ work st)%nat) id (calc_fuel n s st).
Proof.
  revert s st. induction n as [|n IH]; intros s st Hn; [lia|]. cbn [calc_fuel]. unfold calc_body.
  destruct (has SYMBOL_VALID (ks st s)) eqn:Hv; [simpl; lia|].
  assert (∀ w, (w < n)%nat → ∀ s st, (work st ≤ w)%nat →
            keeps False (λ st', (work st' ≤ w)%nat) id (calc_fuel n s st)) as Hcalc.
  { intros w Hw s1 st1 H1. specialize (IH s1 st1 ltac:(lia)).
    destruct (calc_fuel n s1 st1); simpl in *; [lia|done]. }
  assert (∀ st1, (work st1 < n)%nat → (work st1 ≤ work st)%nat →
            keeps False (λ st', (work st' ≤ work st)%nat) id (calc_valid (calc_fuel n) s st1)) as Hbody.
  { intros st1 Hw1 Hle. pose proof (calc_valid_work _ (work st1) s st1 (Hcalc _ Hw1) ltac:(lia)) as H1.
    destruct (calc_valid (calc_fuel n) s st1); simpl in *; [lia|done]. }
  pose proof (invalid_known _ _ Hv) as Hk.
  destruct (_ && _) eqn:Hn'.
  - apply andb_true_iff in Hn' as [_ Hn']. pose proof (work_lower_need s st Hk Hn').
    set (st1 := upd s (lower SYMBOL_NEED_SET_CHOICE_VALUES) st) in *.
    apply (keeps_bind False (λ st', (work st' ≤ work st1)%nat) _ (@id state)).
    + destruct (choice_of st1 s) as [c|f] eqn:Hc; simpl.
      * destruct c; [by apply Hcalc; lia|simpl; lia].
      * intros ->. by apply choice_of_fuel in Hc.
    + simpl. intros st2 Hw2. pose proof (work_raise_valid s st2). apply Hbody; lia.
  - pose proof (work_raise_valid s st) as Hw. rewrite Hv in Hw. apply Hbody; lia.
Qed.

(** ** The recursion of the source

    A run with less fuel gives the same result or runs out of it, so that
    enough fuel makes [sym_calc_value] satisfy the equation of the recursive
    C function. *)
Definition approx {A} (m m' : result A) : Prop := m = Fault OutOfFuel ∨ m = m'.
Lemma approx_refl {A} (m : result A) : approx m m.
Proof. by right. Qed.
Lemma approx_bind {A B} (m m' : result A) (k k' : A → result B) :
  approx m m' → (∀ a, approx (k a) (k' a)) → approx (m ≫= k) (m' ≫= k').
Proof. intros [->| ->] Hk; [by left|]. destruct m'; simpl; [apply Hk|by right]. Qed.

Section mono.
Context (calc calc' : symbol → state → result state).
Context (M_calc : ∀ s st, approx (calc s st) (calc' s st)).

Ltac mono :=
  repeat first
  [ assumption
  | apply approx_refl
  | apply M_calc
  | solve [auto 3 with mono]
  | apply approx_bind; [|intros ?]
  | match goal with |- approx (match ?x with _ => _ end) (match ?x with _ => _ end) =>
      destruct x end
  | match goal with |- approx (if ?x then _ else _) (if ?x then _ else _) => destruct x end ].

Create HintDb mono.
Lemma text_value_mono s st : approx (text_value calc s st) (text_value calc' s st).
Proof. unfold text_value. mono. Qed.
Hint Resolve text_value_mono : mono.
Lemma eval_mono e st : approx (eval calc e st) (eval calc' e st).
Proof. revert st. induction e; intros st; cbn [eval]; mono. Qed.
Hint Resolve eval_mono : mono.
Lemma active_prop_mono t l st : approx (active_prop calc t l st) (active_prop calc' t l st).
Proof. revert st. induction l; intros st; cbn [active_prop]; mono. Qed.
Hint Resolve active_prop_mono : mono.
Lemma range_val_mono s b st : approx (sym_get_range_val calc s b st) (sym_get_range_val calc' s b st).
Proof. unfold sym_get_range_val. mono. Qed.
Hint Resolve range_val_mono : mono.
Lemma validate_range_mono s st :
  approx (sym_validate_range calc s st) (sym_validate_range calc' s st).
Proof. unfold sym_validate_range, sym_get_range_prop, clamp_value. mono. Qed.
Lemma prompt_visibility_mono s c l t st :
  approx (prompt_visibility calc s c l t st) (prompt_visibility calc' s c l t st).
Proof. revert t st. induction l; intros t st; cbn [prompt_visibility]; mono. Qed.
Lemma dep_value_mono s e d st : approx (dep_value calc s e d st) (dep_value calc' s e d st).
Proof. unfold dep_value. mono. Qed.
Hint Resolve validate_range_mono prompt_visibility_mono dep_value_mono : mono.
Lemma visibility_mono s st :
  approx (sym_calc_visibility calc s st) (sym_calc_visibility calc' s st).
Proof. unfold sym_calc_visibility. mono. Qed.
Lemma choice_defaults_mono l st : approx (choice_defaults calc l st) (choice_defaults calc' l st).
Proof. revert st. induction l; intros st; cbn [choice_defaults]; mono. Qed.
Hint Resolve visibility_mono choice_defaults_mono : mono.
Lemma choice_default_mono s st :
  approx (sym_choice_default calc s st) (sym_choice_default calc' s st).
Proof. unfold sym_choice_default. mono. Qed.
Lemma value_visibilities_mono l fl st :
  approx (value_visibilities calc l fl st) (value_visibilities calc' l fl st).
Proof. revert fl st. induction l; intros fl st; cbn [value_visibilities]; mono. Qed.
Hint Resolve choice_default_mono value_visibilities_mono : mono.
Lemma calc_choice_mono s st : approx (sym_calc_choice calc s st) (sym_calc_choice calc' s st).
Proof. unfold sym_calc_choice. mono. Qed.
Lemma eval_and_mono e t st : approx (eval_and calc e t st) (eval_and calc' e t st).
Proof. unfold eval_and. mono. Qed.
Hint Resolve calc_choice_mono eval_and_mono : mono.
Lemma default_tri_mono s st : approx (default_tri calc s st) (default_tri calc' s st).
Proof. unfold default_tri, sym_get_default_prop. mono. Qed.
Hint Resolve default_tri_mono : mono.
Lemma new_tri_mono s st : approx (new_tri calc s st) (new_tri calc' s st).
Proof. unfold new_tri. mono. Qed.
Lemma new_text_mono s st : approx (new_text calc s st) (new_text calc' s st).
Proof. unfold new_text, sym_get_default_prop. mono. Qed.
Lemma finish_mono s o n st : approx (finish_value calc s o n st) (finish_value calc' s o n st).
Proof. unfold finish_value. mono. Qed.
Hint Resolve new_tri_mono new_text_mono finish_mono : mono.
Lemma calc_valid_mono s st : approx (calc_valid calc s st) (calc_valid calc' s st).
Proof. unfold calc_valid. cbv zeta. mono. Qed.
Hint Resolve calc_valid_mono : mono.
Lemma calc_body_mono s st : approx (calc_body calc s st) (calc_body calc' s st).
Proof. unfold calc_body. mono. Qed.
End mono.

Lemma calc_fuel_mono n m s st : (n ≤ m)%nat → approx (calc_fuel n s st) (calc_fuel m s st).
Proof.
  revert m s st. induction n as [|n IH]; intros m s st Hm; [by left|].
  destruct m as [|m]; [lia|]. apply calc_body_mono. intros. apply IH. lia.
Qed.
Lemma calc_value_fuel s st : sym_calc_value s st ≠ Fault OutOfFuel.
Proof.
  pose proof (calc_fuel_work (S (work st)) s st ltac:(lia)) as Hw. unfold sym_calc_value.
  destruct (calc_fuel _ s st); simpl in Hw; congruence.
Qed.
Lemma calc_fuel_value n s st : approx (calc_fuel n s st) (sym_calc_value s st).
Proof.
  destruct (decide (n ≤ S (work st))%nat) as [Hn|Hn]; [by apply calc_fuel_mono|].
  right. symmetry. destruct (calc_fuel_mono (S (work st)) n s st ltac:(lia)) as [H|H]; [|done].
  by apply calc_value_fuel in H.
Qed.
Lemma calc_value_eq s st : sym_calc_value s st = calc_body sym_calc_value s st.
Proof.
  destruct (calc_body_mono (calc_fuel (work st)) sym_calc_value (calc_fuel_value (work st)) s st)
    as [H|H]; [by apply calc_value_fuel in H|done].
Qed.

(** A property that every step keeps is kept by the whole calculation; [U]
    holds of the symbols that are not yet valid. *)
Section calc_keeps.
Context (I : state → Prop) (U W V C M : symbol → Prop).
Context (K_U : ∀ s st, I st → has SYMBOL_VALID (ks st s) = false → U s).
Context (K_UW : ∀ s st, I st → U s → k_type (ks st s) ≠ S_UNKNOWN → W s).
Context (K_WV : ∀ s, W s → V s).
Context (K_choice : ∀ st s, W s → I st → sym_is_choice st s = true → C s).
Context (K_member : ∀ st s d, W s → I st → member st s d → M d).
Context (K_MV : ∀ d, M d → V d).
Context (K_need : ∀ s st, U s → I st → I (upd s (lower SYMBOL_NEED_SET_CHOICE_VALUES) st)).
Context (K_raise : ∀ s st, U s → I st → I (upd s (raise SYMBOL_VALID) st)).
Context (K_unknown : ∀ s st, U s → I st → k_type (ks st s) = S_UNKNOWN → I (upd s name_value st)).
Context (K_tame : ∀ s f st, V s → (∀ k, tame k (f k)) → I st → I (upd s f st)).
Context (K_keep : ∀ s fl st, W s → C s → I st →
  I (upd s (λ k, set_flags (k_flags k .& (fl .| Z.lnot SYMBOL_DEF_USER)) k) st)).
Context (K_user : ∀ d st, M d → I st → sym_has_value st d = false →
  I (upd d (λ k, set_user (Val (v_val (k_user k)) no) k) st)).
Context (K_curr : ∀ s g st, W s → I st →
  (v_tri (g (ks st s)) = mod_ → tri st s = mod_ ∨ sym_get_type st s ≠ S_BOOLEAN) →
  I (upd s (λ k, set_curr (g k) k) st)).
Context (K_mod : ∀ st, W (modules st) → I st → I (set_modules_val (tri st (modules st)) st)).
Context (K_again : ∀ s st, W s → I st → has SYMBOL_NEED_SET_CHOICE_VALUES (ks st s) = true →
  I (upd s (λ k, lower (SYMBOL_VALID .| SYMBOL_NEED_SET_CHOICE_VALUES)
                       (raise SYMBOL_DEF_USER k)) st)).

Lemma calc_fuel_keeps n s st : I st → keeps True I id (calc_fuel n s st).
Proof.
  revert s st. induction n as [|n IH]; intros s st HI; [done|]. cbn [calc_fuel]. unfold calc_body.
  destruct (has SYMBOL_VALID (ks st s)) eqn:Hv; [done|].
  pose proof (K_U s st HI Hv) as Hu. apply (keeps_bind True I I (@id state)).
  - case_match; [|done]. apply keeps_pure; [auto with ksym|intros c _].
    case_match; [|by apply K_need]. by apply IH, K_need.
  - simpl. intros st1 HI1. apply (calc_valid_keeps True _ I W V C M); eauto.
Qed.
Lemma calc_value_keeps s st st' : I st → sym_calc_value s st = Ret st' → I st'.
Proof.
  intros HI E. pose proof (calc_fuel_keeps (S (work st)) s st HI) as Hk.
  unfold sym_calc_value in E. by rewrite E in Hk.
Qed.
End calc_keeps.

(** The same for a property that all minor updates keep. *)
Section minor_keeps.
Context (I : state → Prop) (U W V : symbol → Prop).
Context (K_U : ∀ s st, I st → has SYMBOL_VALID (ks st s) = false → U s).
Context (K_UW : ∀ s st, I st → U s → k_type (ks st s) ≠ S_UNKNOWN → W s).
Context (K_WV : ∀ s, W s → V s).
Context (K_member : ∀ st s d, W s → I st → member st s d → V d).
Context (K_need : ∀ s st, U s → I st → I (upd s (lower SYMBOL_NEED_SET_CHOICE_VALUES) st)).
Context (K_raise : ∀ s st, U s → I st → I (upd s (raise SYMBOL_VALID) st)).
Context (K_unknown : ∀ s st, U s → I st → k_type (ks st s) = S_UNKNOWN → I (upd s name_value st)).
Context (K_minor : ∀ s f st, V s → (∀ k, minor k (f k)) → I st → I (upd s f st)).
Context (K_curr : ∀ s g st, W s → I st →
  (v_tri (g (ks st s)) = mod_ → tri st s = mod_ ∨ sym_get_type st s ≠ S_BOOLEAN) →
  I (upd s (λ k, set_curr (g k) k) st)).
Context (K_mod : ∀ st, W (modules st) → I st → I (set_modules_val (tri st (modules st)) st)).
Context (K_again : ∀ s st, W s → I st → has SYMBOL_NEED_SET_CHOICE_VALUES (ks st s) = true →
  I (upd s (λ k, lower (SYMBOL_VALID .| SYMBOL_NEED_SET_CHOICE_VALUES)
                       (raise SYMBOL_DEF_USER k)) st)).
Lemma calc_value_keeps_minor s st st' : I st → sym_calc_value s st = Ret st' → I st'.
Proof.
  apply (calc_value_keeps I U W V (λ _, True) V); auto with ksym.
  intros s1 f st1 Hv Hf HI. apply K_minor; [done| |done]. intros k. apply Hf.
Qed.
End minor_keeps.

(** ** Typed values *)

Lemma tab_of_sym st s :
  let d := @sym_of (tab_of st) s in
  type d = k_type (ks st s) ∧ curr_tri d = tri st s ∧ curr_val d = curr_val (to_data (ks st s)).
Proof.
  destruct s as [| | |n]; try done. unfold tri. simpl.
  rewrite (nth_lookup (to_data <$> syms st)), list_lookup_fmap, (nth_lookup (syms st)).
  by destruct (syms st !! n).
Qed.

(** The module symbol has been calculated, as [sym_clear_all_valid] and
    [conf_read] do first of all; the constants of the table, which are
    untyped, have their texts for values. *)
Definition const_ok (k : ksym) : Prop :=
  has SYMBOL_CONST k = true → k_type k = S_UNKNOWN ∧ k_curr k = k_curr (name_value k).
Record settled (st : state) : Prop := {
  se_valid : has SYMBOL_VALID (ks st (modules st)) = true;
  se_once : has SYMBOL_NEED_SET_CHOICE_VALUES (ks st (modules st)) = false;
  se_val : modules_val st = tri st (modules st);
  se_const : Forall const_ok (syms st)
}.

(** What stays of a symbol, and what its value keeps to. *)
Record good (mv : tristate) (k0 k : ksym) : Prop := {
  go_name : k_name k = k_name k0;
  go_type : k_type k = k_type k0;
  go_flag : has SYMBOL_CONST k = has SYMBOL_CONST k0;
  go_const : const_ok k;
  go_bool : k_type k = S_BOOLEAN → v_tri (k_curr k) ≠ mod_;
  go_tri : k_type k = S_TRISTATE → v_tri (k_curr k) = mod_ → mv ≠ no
}.
Record all_good (st0 st : state) : Prop := {
  ag_len : length (syms st) = length (syms st0);
  ag_mod : modules st = modules st0;
  ag_mval : modules_val st = modules_val st0;
  ag_valid : has SYMBOL_VALID (ks st (modules st0)) = true;
  ag_once : has SYMBOL_NEED_SET_CHOICE_VALUES (ks st (modules st0)) = false;
  ag_tri : tri st (modules st0) = tri st0 (modules st0);
  ag_good : ∀ s, known st0 s → good (modules_val st0) (ks st0 s) (ks st s)
}.

Lemma known_len st st0 s : length (syms st) = length (syms st0) → known st s ↔ known st0 s.
Proof. intros E. destruct s; simpl; rewrite ?E; done. Qed.
Lemma all_good_upd st0 st s f :
  all_good st0 st →
  (s = modules st0 → known st s → let k := f (ks st s) in
     has SYMBOL_VALID k = true ∧ has SYMBOL_NEED_SET_CHOICE_VALUES k = false ∧
     v_tri (k_curr k) = tri st s) →
  (known st s → good (modules_val st0) (ks st0 s) (ks st s) →
     good (modules_val st0) (ks st0 s) (f (ks st s))) →
  all_good st0 (upd s f st).
Proof.
  intros HA Hm Hg. pose proof HA as [Hlen Hmod Hmv Hv Ho Ht Hgood].
  assert (known st (modules st0) → s = modules st0 →
    has SYMBOL_VALID (f (ks st s)) = true ∧
    has SYMBOL_NEED_SET_CHOICE_VALUES (f (ks st s)) = false ∧
    v_tri (k_curr (f (ks st s))) = tri st s) as Hm' by (intros ? ->; auto).
  constructor.
  - destruct s; simpl; rewrite ?length_alter; done.
  - by rewrite modules_upd.
  - by rewrite modules_val_upd.
  - rewrite ks_upd. case_decide as Hd; [|done]. destruct Hd as [-> Hk]. by apply Hm'.
  - rewrite ks_upd. case_decide as Hd; [|done]. destruct Hd as [-> Hk]. by apply Hm'.
  - unfold tri at 1. rewrite ks_upd. case_decide as Hd; [|done]. destruct Hd as [-> Hk].
    destruct (Hm' Hk eq_refl) as (_ & _ & ->). done.
  - intros s' Hk'. rewrite ks_upd. case_decide as Hd; [|auto]. destruct Hd as [-> Hk]. auto.
Qed.

Lemma good_minor mv k0 k k' : minor k k' → good mv k0 k → good mv k0 k'.
Proof.
  intros Hm [? ? ? Hc ? ?].
  assert (has SYMBOL_CONST k' = has SYMBOL_CONST k) as HC by (by apply has_minor).
  destruct Hm as [Hn Ht Hcu]. constructor; rewrite ?Ht, ?Hcu; try congruence; try done.
  intros H. rewrite HC in H. destruct (Hc H) as [Htu Hv]. split; [congruence|].
  rewrite Hcu, Hv. simpl. by rewrite Hn.
Qed.
Lemma good_flags mv k0 k fl :
  has SYMBOL_CONST (set_flags fl k) = has SYMBOL_CONST k → good mv k0 k → good mv k0 (set_flags fl k).
Proof.
  intros Hf [? ? ? Hc ? ?]. constructor; try done; [congruence|].
  intros H. rewrite Hf in H. by destruct (Hc H).
Qed.

(** Only the value of the symbol being calculated changes, within its type. *)
Lemma calc_all_good st0 st st' s :
  all_good st0 st → sym_calc_value s st = Ret st' → all_good st0 st'.
Proof.
  apply (calc_value_keeps_minor _ (λ s, s ≠ modules st0)
           (λ s, s ≠ modules st0 ∧ (known st0 s → k_type (ks st0 s) ≠ S_UNKNOWN)) (λ _, True)); try done.
  - intros s1 st1 HA Hv ->. by rewrite (ag_valid _ _ HA) in Hv.
  - intros s1 st1 HA Hm Ht. split; [done|]. intros Hk. by rewrite <- (go_type _ _ _ (ag_good _ _ HA s1 Hk)).
  - intros s1 st1 Hu HA. apply all_good_upd; [done|done|]. intros _. apply good_flags. by apply has_lower_disj.
  - intros s1 st1 Hu HA. apply all_good_upd; [done|done|]. intros _. apply good_flags. by apply has_raise_disj.
  - intros s1 st1 Hu HA Ht. apply all_good_upd; [done|done|]. intros _ [? ? ? Hc ? ?].
    constructor; try done; simpl; by rewrite ?Ht.
  - intros s1 f st1 _ Hf HA. apply all_good_upd; [done| |].
    + intros -> _. simpl. rewrite !(has_minor _ _ _ (Hf _)) by done.
      rewrite (mi_curr _ _ (Hf _)). by destruct HA.
    + intros _. by apply good_minor.
  - intros s1 g st1 [Hm Hk] HA Hg. apply all_good_upd; [done|done|].
    intros Hk1 HG. pose proof HG as [Hnm Hty0 Hfl Hc Hb Ht]. apply (known_len _ _ _ (ag_len _ _ HA)) in Hk1.
    assert (k_type (ks st1 s1) ≠ S_UNKNOWN) as Hty by (rewrite Hty0; auto).
    constructor; try done; simpl.
    + intros H. by destruct (Hc H).
    + intros Hbt Hv. destruct (Hg Hv) as [H|H]; [by apply Hb in Hbt|].
      apply H. unfold sym_get_type. rewrite Hbt. done.
    + intros Htt Hv. destruct (Hg Hv) as [H|H]; [auto|]. unfold sym_get_type in H. rewrite Htt in H.
      rewrite <- (ag_mval _ _ HA). intros E. apply H.
      rewrite decide_True by done. destruct (_ && _); [done|]. by rewrite decide_True.
  - intros st1 [Hm _] HA. destruct Hm. apply HA.
  - intros s1 st1 [Hm _] HA Hn. apply all_good_upd; [done|done|]. intros _ HG.
    apply (good_flags _ _ (raise SYMBOL_DEF_USER _)); [|apply good_flags; [by apply has_raise_disj|done]].
    by apply has_lower_disj.
Qed.

Lemma settled_good st :
  settled st → @typed (tab_of st) → all_good st st.
Proof.
  intros Hs [Ht _]. constructor; try done; [by apply se_valid|by apply se_once|].
  intros [| | |n] Hk; try done. simpl in Hk. destruct (lookup_lt_is_Some_2 _ _ Hk) as [k Hn].
  assert (ks st (Sym n) = k) as Hks by (simpl; by rewrite (nth_lookup_Some _ _ _ _ Hn)).
  assert (const_ok k) by (by apply (Forall_lookup_1 _ _ _ _ (se_const _ Hs) Hn)).
  assert (@sym_ok (tab_of st) (to_data k)) as (Hb & Hm & _).
  { apply (Forall_lookup_1 _ _ n _ Ht). simpl. by rewrite list_lookup_fmap, Hn. }
  rewrite Hks. constructor; try done. intros Hty Hv. rewrite (se_val _ Hs).
  destruct (tab_of_sym st (modules st)) as (_ & <- & _). by apply Hm.
Qed.

Lemma consts_same (l0 l : list sym_data) :
  Forall2 (λ d0 d, (flags d .& SYMBOL_CONST ≠ 0 ↔ flags d0 .& SYMBOL_CONST ≠ 0) ∧
                   (flags d .& SYMBOL_CONST ≠ 0 → curr_val d = curr_val d0)) l0 l →
  curr_val <$> filter (λ d, flags d .& SYMBOL_CONST ≠ 0) l =
  curr_val <$> filter (λ d, flags d .& SYMBOL_CONST ≠ 0) l0.
Proof.
  induction 1 as [|d0 d l0 l [Hi Hv] _ IH]; [done|].
  rewrite !filter_cons. destruct (decide (flags d .& SYMBOL_CONST ≠ 0)) as [Hc|Hc].
  - rewrite decide_True by (by apply Hi). rewrite !fmap_cons. f_equal; auto.
  - rewrite decide_False by tauto. done.
Qed.

Lemma has_flag fl k : has fl k = true ↔ k_flags k .& fl ≠ 0.
Proof. unfold has. rewrite negb_true_iff. apply Z.eqb_neq. Qed.
Lemma good_typed st0 st :
  all_good st0 st → settled st0 → @typed (tab_of st0) → @typed (tab_of st).
Proof.
  intros HA Hs [Ht Hu]. pose proof (se_const _ Hs) as Hc. pose proof (ag_len _ _ HA) as Hlen.
  assert (∀ n k, syms st !! n = Some k → ∃ k0, syms st0 !! n = Some k0 ∧ const_ok k0 ∧
            good (modules_val st0) k0 k ∧ @sym_ok (tab_of st0) (to_data k0)) as Hget.
  { intros n k Hn. pose proof (lookup_lt_Some _ _ _ Hn) as Hl.
    rewrite Hlen in Hl. destruct (lookup_lt_is_Some_2 _ _ Hl) as [k0 Hn0]. exists k0.
    split_and!; [done|by apply (Forall_lookup_1 _ _ _ _ Hc Hn0)| |].
    - pose proof (ag_good _ _ HA (Sym n) Hl) as HG. simpl in HG.
      by rewrite (nth_lookup_Some _ _ _ _ Hn), (nth_lookup_Some _ _ _ _ Hn0) in HG.
    - apply (Forall_lookup_1 _ _ n _ Ht). simpl. by rewrite list_lookup_fmap, Hn0. }
  assert (∀ k0 k, const_ok k0 → good (modules_val st0) k0 k → has SYMBOL_CONST k = true →
            has SYMBOL_CONST k0 = true ∧ k_type k = k_type k0 ∧ k_curr k = k_curr k0) as Hsame.
  { intros k0 k Hk0 HG Hk. destruct HG as [Hn Hty Hf Hk1 _ _]. rewrite Hf in Hk.
    destruct (Hk0 Hk) as [_ E0]. rewrite <- Hf in Hk. destruct (Hk1 Hk) as [_ E1].
    rewrite Hf in Hk. split_and!; [done..|]. rewrite E0, E1. simpl. by rewrite Hn. }
  split.
  - apply Forall_lookup_2. intros n d Hd. simpl in Hd. rewrite list_lookup_fmap in Hd.
    apply fmap_Some in Hd as (k & Hn & ->). destruct (Hget n k Hn) as (k0 & Hn0 & Hk0 & HG & Hok).
    pose proof HG as [_ Hty _ _ Hb Hm]. split_and!; [done| |].
    + intros H1 H2. destruct (tab_of_sym st (modules st)) as (_ & E & _).
      change (@modules_sym (tab_of st)) with (modules st). rewrite E, (ag_mod _ _ HA), (ag_tri _ _ HA).
      rewrite <- (se_val _ Hs). by apply Hm.
    + intros Hf. destruct (Hsame k0 k Hk0 HG) as (Hf0 & Ety & Ecu); [by apply has_flag|].
      destruct Hok as (_ & _ & Hok). simpl in *. rewrite Ety, Ecu. apply Hok. by apply has_flag.
  - unfold consts_unique. erewrite consts_same; [done|]. simpl. apply Forall2_same_length_lookup_2.
    { by rewrite !length_fmap. }
    intros n d0 d Hd0 Hd. rewrite list_lookup_fmap in Hd0, Hd.
    apply fmap_Some in Hd as (k & Hn & ->). destruct (Hget n k Hn) as (k0 & Hn0 & Hk0 & HG & _).
    rewrite Hn0 in Hd0. injection Hd0 as <-. simpl. rewrite <- !has_flag, (go_flag _ _ _ HG).
    split; [done|]. intros Hf. destruct (Hsame k0 k Hk0 HG) as (_ & _ & ->); [|done].
    by rewrite (go_flag _ _ _ HG).
Qed.

Lemma good_settled st0 st : all_good st0 st → settled st0 → settled st.
Proof.
  intros HA Hs. pose proof (ag_mod _ _ HA) as Hm. constructor; rewrite ?Hm.
  - apply HA.
  - apply HA.
  - rewrite (ag_mval _ _ HA), (ag_tri _ _ HA). by apply se_val.
  - apply Forall_lookup_2. intros n k Hn. pose proof (lookup_lt_Some _ _ _ Hn) as Hl.
    rewrite (ag_len _ _ HA) in Hl. pose proof (ag_good _ _ HA (Sym n) Hl) as HG. simpl in HG.
    rewrite (nth_lookup_Some _ _ _ _ Hn) in HG. apply HG.
Qed.

(** ** Calculated symbols are left alone *)

(** A calculated symbol keeps its value while others are calculated. *)
Lemma calc_minor x st st' s :
  has SYMBOL_VALID (ks st x) = true → has SYMBOL_NEED_SET_CHOICE_VALUES (ks st x) = false →
  sym_calc_value s st = Ret st' →
  minor (ks st x) (ks st' x) ∧ modules st' = modules st ∧
  (x = modules st → modules_val st' = modules_val st).
Proof.
  intros Hv Hn.
  assert (∀ k k' k'', minor k k' → minor k' k'' → minor k k'') as Htrans.
  { intros k k' k'' [] []. constructor; congruence. }
  assert (∀ s f st1, s ≠ x →
    minor (ks st x) (ks st1 x) ∧ modules st1 = modules st ∧ (x = modules st → modules_val st1 = modules_val st) →
    minor (ks st x) (ks (upd s f st1) x) ∧ modules (upd s f st1) = modules st ∧
    (x = modules st → modules_val (upd s f st1) = modules_val st)) as Hne.
  { intros s1 f st1 Hs H. by rewrite ks_upd_ne, modules_upd, modules_val_upd. }
  apply (calc_value_keeps_minor (λ st', minor (ks st x) (ks st' x) ∧ modules st' = modules st ∧
           (x = modules st → modules_val st' = modules_val st))
           (λ s, s ≠ x) (λ s, s ≠ x) (λ _, True)); try done; auto.
  - intros s1 st1 [Hm _] Hs ->. rewrite (has_minor _ _ _ Hm) in Hs by done. congruence.
  - intros s1 f st1 _ Hf (Hm & Hmo & Hmv). rewrite ks_upd, modules_upd, modules_val_upd.
    split_and!; [|done..]. case_decide; [|done]. eauto.
  - intros st1 Hs (Hm & Hmo & Hmv). split_and!; [done..|]. congruence.
Qed.

(** One whose choices are calculated too is not touched at all. *)
Record guarded (st : state) (x : symbol) : Prop := {
  gu_known : known st x;
  gu_valid : has SYMBOL_VALID (ks st x) = true;
  gu_lists : ∀ s, member st s x →
    has SYMBOL_VALID (ks st s) = true ∧ has SYMBOL_NEED_SET_CHOICE_VALUES (ks st s) = false
}.
Lemma member_upd s f st s' x :
  (∀ k, k_props (f k) = k_props k) → member (upd s f st) s' x ↔ member st s' x.
Proof.
  intros Hf. unfold member, sym_get_choice_prop. rewrite ks_upd. case_decide; [|done]. by rewrite Hf.
Qed.
(** The property kept: [x] is as in [st0], and guarded by the same choices. *)
Record framed (st0 : state) (x : symbol) (st : state) : Prop := {
  fr_same : ks st x = ks st0 x;
  fr_member : ∀ s, member st s x ↔ member st0 s x;
  fr_guard : guarded st x
}.
Lemma framed_upd st0 x st s f :
  framed st0 x st → (∀ k, k_props (f k) = k_props k) → s ≠ x →
  (member st0 s x → ∀ k, has SYMBOL_VALID (f k) = has SYMBOL_VALID k ∧
     has SYMBOL_NEED_SET_CHOICE_VALUES (f k) = has SYMBOL_NEED_SET_CHOICE_VALUES k) →
  framed st0 x (upd s f st).
Proof.
  intros [Hs Hm [Hkn Hv Hl]] Hf Hne Hk. constructor.
  - by rewrite ks_upd_ne.
  - intros s'. rewrite member_upd by done. apply Hm.
  - constructor; [by rewrite known_upd|by rewrite ks_upd_ne|]. intros s' Hs'. rewrite member_upd in Hs' by done.
    specialize (Hl s' Hs'). rewrite ks_upd. case_decide as Hd; [|done]. destruct Hd as [-> _].
    apply Hm in Hs'. by destruct (Hk Hs' (ks st s')) as [-> ->].
Qed.
Lemma framed_minor st0 x st s f :
  framed st0 x st → (∀ k, minor k (f k)) → s ≠ x → framed st0 x (upd s f st).
Proof.
  intros HF Hf Hne. apply framed_upd; [done|intros k; apply (mi_props _ _ (Hf k))|done|].
  intros _ k. by rewrite !(has_minor _ _ _ (Hf k)).
Qed.
Lemma calc_framed st0 x st st' s :
  framed st0 x st → sym_calc_value s st = Ret st' → framed st0 x st'.
Proof.
  apply (calc_value_keeps_minor (framed st0 x) (λ s, s ≠ x ∧ ¬ member st0 s x)
           (λ s, s ≠ x ∧ ¬ member st0 s x) (λ s, s ≠ x)); try done.
  - intros s1 st1 HF Hv. split; [intros ->|intros Hm].
    + rewrite (gu_valid _ _ (fr_guard _ _ _ HF)) in Hv. done.
    + apply (fr_member _ _ _ HF) in Hm. destruct (gu_lists _ _ (fr_guard _ _ _ HF) s1 Hm). congruence.
  - by intros s1 [? _].
  - intros st1 s1 d [_ Hn] HF Hm ->. apply Hn. by apply (fr_member _ _ _ HF).
  - intros s1 st1 [H1 H2] HF. by apply framed_upd.
  - intros s1 st1 [H1 H2] HF. by apply framed_upd.
  - intros s1 st1 [H1 H2] HF _. by apply framed_upd.
  - intros s1 f st1 H1 Hf HF. by apply framed_minor.
  - intros s1 g st1 [H1 H2] HF _. by apply framed_upd.
  - intros st1 _ HF. constructor; [apply HF|apply HF|]. constructor; apply HF.
  - intros s1 st1 [H1 H2] HF _. by apply framed_upd.
Qed.

(** ** A small configuration

    MODULES and FOO, which the user has set to m; BAR needs FOO, LIB is
    selected by it; SIZE is a number from 1 to 64. *)
Module Demo.
Definition sym (n : string) (ty : symbol_type) (fl : Z) (user : tristate) (props : list property)
    (dir rev : expr) : ksym :=
  KSym (Some (cs n)) ty fl (Val VNull no) (Val VNull user) no props
    (EVal dir no) (EVal rev no) (EVal NULL no).
Definition prompt (e : expr) : property := Prop_ P_PROMPT true e NULL.
Definition table : list ksym :=
  [ sym "MODULES" S_BOOLEAN 0 no [Prop_ P_DEFAULT false NULL (SYMBOL symbol_yes)] NULL NULL;
    sym "FOO" S_TRISTATE SYMBOL_DEF_USER mod_
      [prompt NULL; Prop_ P_SYMBOL false NULL (SYMBOL (Sym 1));
       Prop_ P_SELECT false NULL (SYMBOL (Sym 3))] NULL NULL;
    sym "BAR" S_BOOLEAN 0 no
      [prompt (SYMBOL (Sym 1)); Prop_ P_DEFAULT false (SYMBOL (Sym 1)) (SYMBOL symbol_yes)]
      (SYMBOL (Sym 1)) NULL;
    sym "LIB" S_TRISTATE 0 no [] NULL (SYMBOL (Sym 1));
    sym "SIZE" S_INT 0 no
      [prompt NULL; Prop_ P_RANGE false NULL (RANGE (Sym 6) (Sym 7));
       Prop_ P_DEFAULT false (COMP EQUAL (Sym 3) symbol_mod) (SYMBOL (Sym 5))] NULL NULL;
    sym "100" S_UNKNOWN SYMBOL_CONST no [] NULL NULL;
    sym "1" S_UNKNOWN SYMBOL_CONST no [] NULL NULL;
    sym "64" S_UNKNOWN SYMBOL_CONST no [] NULL NULL ].
Definition start (n : nat) : state := State (take n table) ∅ no (Sym 0) false.
(** As [conf_read] leaves it first: MODULES is calculated. *)
Definition ready (n : nat) : state :=
  match sym_calc_value (Sym 0) (start n) with Ret st => st | Fault _ => start n end.
Definition ready8 : state := Eval vm_compute in ready 8.
Definition values (n : nat) (l : list symbol) : list symbol_value :=
  match foldl (λ r s, st ← r; sym_calc_value s st) (Ret (ready n)) l with
  | Ret st => (λ s, k_curr (ks st s)) <$> l
  | Fault _ => []
  end.
Example demo_values :
  values 8 (Sym <$> [2; 3; 4; 1; 0]%nat) =
  [Val (VStr (cs "n")) yes; Val (VStr (cs "n")) mod_; Val (VStr (cs "64")) no;
   Val (VStr (cs "n")) mod_; Val (VStr (cs "n")) yes].
Proof. vm_compute. reflexivity. Qed.
End Demo.

(** ** Results *)

(** C19: The value of a symbol is always calculated: whatever the table, and
    however the dependencies refer to each other, the calls of
    [sym_calc_value] end (the bound on their depth, the number of symbols and
    choices left to calculate, is never reached), more fuel changes nothing,
    and the function satisfies the recursion of the source. *)
Theorem calc_value_ends s st :
  sym_calc_value s st ≠ Fault OutOfFuel ∧
  (∀ n, (work st < n)%nat → calc_fuel n s st = sym_calc_value s st) ∧
  sym_calc_value s st = calc_body sym_calc_value s st.
Proof.
  split_and!; [apply calc_value_fuel| |apply calc_value_eq].
  intros n Hn. destruct (calc_fuel_mono (S (work st)) n s st Hn) as [H|H]; [|done].
  by apply calc_value_fuel in H.
Qed.

(** C20: Calculation preserves the typing of values: in a table in which the
    module symbol is calculated, no boolean is m, no tristate is m while modules
    are disabled, and the quoted constants are different texts without a type,
    none of them y, m or n (quoted numbers and strings are allowed), all of this
    still holds after the calculation of any symbol, and the module symbol's copy
    [modules_val] is as it was; this is the well-typedness of the symbol table on
    which the expression simplifier relies. *)
Theorem calc_value_typed s st st' :
  settled st → @typed (tab_of st) → sym_calc_value s st = Ret st' →
  settled st' ∧ @typed (tab_of st') ∧ modules_val st' = modules_val st.
Proof.
  intros Hs Ht E. pose proof (calc_all_good st st st' s (settled_good st Hs Ht) E) as HA.
  split_and!; [by eapply good_settled|by eapply good_typed|apply HA].
Qed.
Lemma calc_value_typed_witness :
  ∃ st', sym_calc_value (Sym 2) (Demo.ready 4) = Ret st' ∧ settled st' ∧ @typed (tab_of st').
Proof.
  assert (settled (Demo.ready 4)) as Hs.
  { constructor; [vm_compute; reflexivity..|]. vm_compute. repeat constructor; done. }
  assert (@typed (tab_of (Demo.ready 4))) as Ht by (apply (bool_decide_unpack _); vm_compute; exact I).
  destruct (sym_calc_value (Sym 2) (Demo.ready 4)) as [st'|f] eqn:E.
  - exists st'. destruct (calc_value_typed (Sym 2) (Demo.ready 4) st' Hs Ht E) as (? & ? & _). auto.
  - exfalso. assert (returns (sym_calc_value (Sym 2) (Demo.ready 4)) = true) as H by (vm_compute; reflexivity).
    rewrite E in H. discriminate H.
Defined.
End KconfigSymProps.
