(* ===== verification/KconfigSymSpec.v ===== *)
(** * Kconfig symbol values: what they should be

    A declarative description of the value of a symbol in a table where the
    symbols it depends on are known, and the proof that [sym_calc_value]
    computes it.  The description is not stateful and has no order: it reads
    the values of other symbols, and is undefined ([None]) where it would
    need one that is not calculated.  The source calculates on demand, marks
    symbols and caches values; where the dependencies have no cycle the cache
    holds exactly the described values, whatever the order of the calls.

    Choices are not part of the description. *)

From S2P Require Import Prelude CLib KconfigExpr KconfigSimp KconfigSym KconfigSymProps.
Open Scope Z_scope.

Module KconfigSymSpec.
Import KconfigExpr KconfigSimp KconfigSym KconfigSymProps.

(** ** The description *)

Section spec.
Context (st : state).

(** A calculated symbol. *)
Definition valid (s : symbol) : Prop := has SYMBOL_VALID (ks st s) = true.
Definition get (s : symbol) : option ksym :=
  if has SYMBOL_VALID (ks st s) then Some (ks st s) else None.
Definition kval_text (v : kval) : option (list Z) :=
  match v with VStr t => Some t | _ => None end.

Definition text_spec (s : symbol) : option (list Z) :=
  k ← get s;
  match k_type k with
  | S_BOOLEAN | S_TRISTATE =>
      match v_tri (k_curr k) with
      | no => Some (cs "n")
      | mod_ => m ← get (modules st);
                Some (if decide (v_tri (k_curr m) = no) then cs "n" else cs "m")
      | yes => Some (cs "y")
      end
  | _ => kval_text (v_val (k_curr k))
  end.

Fixpoint eval_spec (e : expr) : option tristate :=
  match e with
  | NULL => Some yes
  | SYMBOL s => k ← get s; Some (v_tri (k_curr k))
  | BIN t l r => v1 ← eval_spec l; v2 ← eval_spec r; Some (tri_op t v1 v2)
  | NOT l => v ← eval_spec l; Some (EXPR_NOT v)
  | COMP t a b =>
      x ← text_spec a;
      y ← text_spec b;
      Some (rel_value t (compare_values x (k_type (ks st a)) y (k_type (ks st b))))
  | NONE | LIST _ _ | RANGE _ _ => Some no
  end.

(** The first property of a type whose condition holds. *)
Fixpoint first_active (t : prop_type) (l : list property) : option (option (property * tristate)) :=
  match l with
  | [] => Some None
  | p :: l =>
      if decide (p_type p = t) then
        v ← eval_spec (p_visible p);
        if decide (v = no) then first_active t l else Some (Some (p, v))
      else first_active t l
  end.

(** The upper bound of the prompts' conditions. *)
Fixpoint prompts_spec (l : list property) : option tristate :=
  match l with
  | [] => Some no
  | p :: l =>
      if p_text p then v ← eval_spec (p_visible p); w ← prompts_spec l; Some (tri_op OR v w)
      else prompts_spec l
  end.

(** A tristate that is m stands for y where m is not possible. *)
Definition promote (b : bool) (t : tristate) : tristate :=
  match t with mod_ => if b then yes else mod_ | _ => t end.
Definition no_modules (k : ksym) : bool :=
  bool_decide (k_type k ≠ S_TRISTATE ∨ modules_val st = no).
Definition boolean (k : ksym) : bool :=
  bool_decide (k_type k = S_BOOLEAN ∨ k_type k = S_TRISTATE ∧ modules_val st = no).

Definition vis_spec (k : ksym) : option tristate :=
  promote (no_modules k) <$> prompts_spec (k_props k).
Definition dep_spec (k : ksym) (e : expr) (dflt : tristate) : option tristate :=
  match e with NULL => Some dflt | _ => promote (boolean k) <$> eval_spec e end.

(** The value from the defaults and the implications. *)
Definition default_spec (k : ksym) : option tristate :=
  d ← first_active P_DEFAULT (k_props k);
  v ← match d with
      | Some (p, c) => v ← eval_spec (p_expr p); Some (tri_op AND v c)
      | None => Some no
      end;
  Some (if decide (ev_tri (k_imp k) = no) then v
        else tri_op AND (tri_op OR v (ev_tri (k_imp k))) (ev_tri (k_dir k))).
(** The value before the symbols that select this one are considered. *)
Definition own_spec (k : ksym) : option tristate :=
  if negb (bool_decide (k_visible k = no)) && has SYMBOL_DEF_USER k
  then Some (tri_op AND (v_tri (k_user k)) (k_visible k))
  else default_spec k.
Definition tri_spec (k : ksym) : option tristate :=
  v ← own_spec k;
  Some (promote (boolean k)
    (if decide (ev_tri (k_dir k) = no ∧ ev_tri (k_rev k) ≠ no) then no
     else tri_op OR v (ev_tri (k_rev k)))).

Definition own_text_spec (k : ksym) : option (list Z) :=
  if negb (bool_decide (k_visible k = no)) && has SYMBOL_DEF_USER k
  then kval_text (v_val (k_user k))
  else
    d ← first_active P_DEFAULT (k_props k);
    match d with
    | Some (p, _) =>
        match p_expr p with
        | SYMBOL d => k ← get d; kval_text (v_val (k_curr k))
        | _ => Some []
        end
    | None => Some []
    end.

(** A bound of a range, and the text of a number. *)
Definition bound_spec (base : Z) (s : symbol) : option Z :=
  k ← get s;
  t ← kval_text (v_val (k_curr k));
  Some (fst (fst (strtoll t match k_type k with S_INT => 10 | S_HEX => 16 | _ => base end))).
Definition fmt_num (int : bool) (v : Z) : list Z := if int then fmt_lld v else fmt_0xllx v.
Definition clamp_spec (int : bool) (p : property) (t : list Z) : option (list Z) :=
  let base := if int then 10 else 16 in
  let v := fst (fst (strtoll t base)) in
  match p_expr p with
  | RANGE a b =>
      lo ← bound_spec base a;
      if lo <=? v then
        hi ← bound_spec base b;
        Some (if v <=? hi then t else fmt_num int hi)
      else Some (fmt_num int lo)
  | _ => None
  end.
Definition in_range_spec (k : ksym) (t : list Z) : option (list Z) :=
  match k_type k with
  | S_INT | S_HEX =>
      r ← first_active P_RANGE (k_props k);
      match r with
      | None => Some t
      | Some (p, _) => clamp_spec (bool_decide (k_type k = S_INT)) p t
      end
  | _ => Some t
  end.

Definition curr_spec (k : ksym) : option symbol_value :=
  match k_type k with
  | S_UNKNOWN => n ← k_name k; Some (Val (VStr n) no)
  | S_BOOLEAN | S_TRISTATE => t ← tri_spec k; Some (Val (VStr (cs "n")) t)
  | _ => t ← own_text_spec k; t ← in_range_spec k t; Some (Val (VStr t) no)
  end.

(** A symbol with all of its calculated fields. *)
Record described (k : ksym) : Prop := {
  de_visible : k_type k ≠ S_UNKNOWN → vis_spec k = Some (k_visible k);
  de_dir : k_type k ≠ S_UNKNOWN → dep_spec k (ev_expr (k_dir k)) yes = Some (ev_tri (k_dir k));
  de_rev : k_type k ≠ S_UNKNOWN → dep_spec k (ev_expr (k_rev k)) no = Some (ev_tri (k_rev k));
  de_imp : k_type k ≠ S_UNKNOWN → dep_spec k (ev_expr (k_imp k)) no = Some (ev_tri (k_imp k));
  de_curr : curr_spec k = Some (k_curr k)
}.
End spec.

(** ** Well-formed tables *)

(** The symbols an expression reads. *)
Fixpoint expr_syms (e : expr) : list symbol :=
  match e with
  | NULL | NONE => []
  | SYMBOL s => [s]
  | BIN _ l r => expr_syms l ++ expr_syms r
  | NOT l => expr_syms l
  | COMP _ a b | RANGE a b => [a; b]
  | LIST l s => s :: expr_syms l
  end.
(** The symbols a symbol may depend on.  Of the properties, the calculation
    reads the conditions of prompts, and the conditions and values of defaults
    and ranges. *)
Definition read_type (t : prop_type) : bool :=
  match t with P_DEFAULT | P_RANGE => true | _ => false end.
Definition prop_syms (p : property) : list symbol :=
  (if p_text p || read_type (p_type p) then expr_syms (p_visible p) else []) ++
  (if read_type (p_type p) then expr_syms (p_expr p) else []).
Definition deps (k : ksym) : list symbol :=
  expr_syms (ev_expr (k_dir k)) ++ expr_syms (ev_expr (k_rev k)) ++ expr_syms (ev_expr (k_imp k))
  ++ concat (prop_syms <$> k_props k).

(** A property has the kind of expression the grammar gives it. *)
Definition prop_ok (p : property) : Prop :=
  (p_type p = P_RANGE → match p_expr p with RANGE _ _ => True | _ => False end) ∧
  (p_type p = P_DEFAULT → match p_expr p with LIST _ _ => False | _ => True end).
Definition textual (t : symbol_type) : Prop := t = S_INT ∨ t = S_HEX ∨ t = S_STRING.
Definition plain_flags : Z := SYMBOL_CHOICE .| SYMBOL_CHOICEVAL .| SYMBOL_NEED_SET_CHOICE_VALUES.

Definition exists_sym (st : state) (s : symbol) : Prop :=
  match s with Sym n => (n < length (syms st))%nat | _ => True end.

(** What the calculation of a symbol leaves of it; the flags are compared
    where [fl] does not reach. *)
Record core (fl : Z) (k k' : ksym) : Prop := {
  co_name : k_name k' = k_name k;
  co_type : k_type k' = k_type k;
  co_user : k_user k' = k_user k;
  co_props : k_props k' = k_props k;
  co_dir : ev_expr (k_dir k') = ev_expr (k_dir k);
  co_rev : ev_expr (k_rev k') = ev_expr (k_rev k);
  co_imp : ev_expr (k_imp k') = ev_expr (k_imp k);
  co_flags : ∀ b, fl .& b = 0 → has b k' = has b k
}.
Definition marks : Z := SYMBOL_WRITE .| SYMBOL_VALID.
Lemma core_trans fl k1 k2 k3 : core fl k1 k2 → core fl k2 k3 → core fl k1 k3.
Proof.
  intros [] [Hn Ht Hu Hp Hd Hr Hi Hf]. constructor; try congruence.
  intros b Hb. rewrite Hf by done. auto.
Qed.
Lemma core_same fl k k' :
  k_name k' = k_name k → k_type k' = k_type k → k_flags k' = k_flags k → k_user k' = k_user k →
  k_props k' = k_props k → ev_expr (k_dir k') = ev_expr (k_dir k) →
  ev_expr (k_rev k') = ev_expr (k_rev k) → ev_expr (k_imp k') = ev_expr (k_imp k) → core fl k k'.
Proof. intros. constructor; try done. intros b Hb. unfold has. congruence. Qed.
Lemma core_refl fl k : core fl k k.
Proof. by apply core_same. Qed.

(** A numbering of the symbols in which dependencies go down. *)
Class Ranking := { rank : symbol → nat }.

Section acyclic.
Context {RK : Ranking}.

Record wf_sym (st : state) (s : symbol) (k : ksym) : Prop := {
  wk_flags : has plain_flags k = false;
  wk_name : k_type k = S_UNKNOWN → k_name k ≠ None;
  wk_user : textual (k_type k) → has SYMBOL_DEF_USER k = true → kval_text (v_val (k_user k)) ≠ None;
  wk_props : Forall prop_ok (k_props k);
  wk_deps : Forall (λ d, exists_sym st d ∧ (rank d < rank s)%nat) (deps k)
}.

(** The table while symbols of a rank from [r] on are being calculated: those
    below are described, if they are valid. *)
Record Inv (r : nat) (st : state) : Prop := {
  iv_wf : ∀ s, known st s → wf_sym st s (ks st s);
  iv_mod : valid st (modules st);
  iv_ok : ∀ s, known st s → valid st s → (rank s < r)%nat → described st (ks st s)
}.

(** What the calculation of symbols of a rank below [r] leaves: the valid
    symbols, and all of a rank from [r] on. *)
Record ext (r : nat) (st st' : state) : Prop := {
  ex_len : length (syms st') = length (syms st);
  ex_mod : modules st' = modules st;
  ex_mval : modules_val st' = modules_val st;
  ex_valid : ∀ x, valid st x → (rank x < r)%nat ∨ x = modules st → ks st' x = ks st x;
  ex_core : ∀ x, core marks (ks st x) (ks st' x)
}.
Lemma ex_type r st st' : ext r st st' → ∀ x, k_type (ks st' x) = k_type (ks st x).
Proof. intros Hx x. apply (ex_core _ _ _ Hx). Qed.

(** ** The description only grows *)

Definition ole {A} (o o' : option A) : Prop := ∀ v, o = Some v → o' = Some v.
Lemma ole_refl {A} (o : option A) : ole o o.
Proof. by intros v. Qed.
Lemma ole_bind {A B} (o o' : option A) (k k' : A → option B) :
  ole o o' → (∀ a, o = Some a → ole (k a) (k' a)) → ole (o ≫= k) (o' ≫= k').
Proof. intros Ho Hk v. destruct o as [a|]; [|done]. rewrite (Ho a eq_refl). by apply Hk. Qed.
Lemma ole_fmap {A B} (f : A → B) (o o' : option A) : ole o o' → ole (f <$> o) (f <$> o').
Proof. intros Ho v. destruct o as [a|]; [|done]. by rewrite (Ho a eq_refl). Qed.

Lemma first_active_elem st1 t l p v :
  first_active st1 t l = Some (Some (p, v)) → p ∈ l ∧ p_type p = t.
Proof.
  induction l as [|q l IH]; cbn [first_active]; [done|]. case_decide; [|set_solver].
  intros (w & Hw & H')%bind_Some. case_decide; [set_solver|]. injection H' as -> ->. set_solver.
Qed.

Section grows.
Context (r : nat) (st st' : state) (Hx : ext r st st').

Lemma get_mono d : (rank d < r)%nat ∨ d = modules st → ole (get st d) (get st' d).
Proof.
  intros Hd k. unfold get. destruct (has SYMBOL_VALID (ks st d)) eqn:Hv; [|done].
  rewrite (ex_valid _ _ _ Hx d Hv Hd), Hv. done.
Qed.

Ltac grow :=
  repeat first
  [ apply ole_refl
  | apply ole_fmap
  | apply get_mono; solve [auto]
  | apply ole_bind; [|intros ? ?]
  | match goal with |- ole (match ?x with _ => _ end) (match ?x with _ => _ end) => destruct x eqn:? end ].

Lemma text_spec_mono d : (rank d < r)%nat → ole (text_spec st d) (text_spec st' d).
Proof.
  intros Hd. unfold text_spec. rewrite (ex_mod _ _ _ Hx). grow.
Qed.
Lemma eval_spec_mono e :
  Forall (λ d, (rank d < r)%nat) (expr_syms e) → ole (eval_spec st e) (eval_spec st' e).
Proof.
  induction e; intros Hd; cbn [eval_spec expr_syms] in *; try apply ole_refl.
  - apply Forall_app in Hd as [? ?]. apply ole_bind; [auto|]. intros. apply ole_bind; [auto|].
    intros. apply ole_refl.
  - apply ole_bind; [auto|]. intros. apply ole_refl.
  - rewrite !(ex_type _ _ _ Hx). apply Forall_cons in Hd as [? Hd]. apply Forall_cons in Hd as [? _].
    apply ole_bind; [by apply text_spec_mono|]. intros.
    apply ole_bind; [by apply text_spec_mono|]. intros. apply ole_refl.
  - apply Forall_cons in Hd as [? _]. grow.
Qed.

Definition below (l : list property) : Prop := Forall (λ d, (rank d < r)%nat) (concat (prop_syms <$> l)).
Abbreviation lows l := (Forall (λ d, (rank d < r)%nat) l).
Lemma below_cons p l :
  below (p :: l) →
  (p_text p || read_type (p_type p) = true → lows (expr_syms (p_visible p))) ∧
  (read_type (p_type p) = true → lows (expr_syms (p_expr p))) ∧ below l.
Proof.
  unfold below, prop_syms. rewrite fmap_cons. cbn [concat]. rewrite !Forall_app.
  intros [[H1 H2] H3]. split_and!; [by intros E; rewrite E in H1|by intros E; rewrite E in H2|done].
Qed.
Lemma first_active_mono t l :
  read_type t = true → below l → ole (first_active st t l) (first_active st' t l).
Proof.
  intros Ht. induction l as [|p l IH]; intros Hl; cbn [first_active]; [apply ole_refl|].
  apply below_cons in Hl as (Hv & _ & ?). destruct (decide (p_type p = t)) as [Hp|]; [|auto].
  apply ole_bind; [apply eval_spec_mono, Hv; by rewrite Hp, Ht, orb_true_r|].
  intros. case_decide; [auto|apply ole_refl].
Qed.
Lemma below_elem l p :
  below l → p ∈ l → read_type (p_type p) = true → lows (expr_syms (p_expr p)).
Proof.
  intros Hl [l1 [l2 ->]]%list_elem_of_split. revert Hl. induction l1 as [|q l1 IH]; simpl app.
  - by intros (_ & ? & _)%below_cons.
  - intros (_ & _ & ?)%below_cons. auto.
Qed.
Lemma prompts_spec_mono l : below l → ole (prompts_spec st l) (prompts_spec st' l).
Proof.
  induction l as [|p l IH]; intros Hl; cbn [prompts_spec]; [apply ole_refl|].
  apply below_cons in Hl as (Hv & _ & ?). destruct (p_text p); [|auto].
  apply ole_bind; [by apply eval_spec_mono, Hv|]. intros. apply ole_bind; [auto|]. intros. apply ole_refl.
Qed.

Lemma boolean_ext k : boolean st' k = boolean st k.
Proof. unfold boolean. by rewrite (ex_mval _ _ _ Hx). Qed.
Lemma dep_spec_mono k e d :
  Forall (λ d, (rank d < r)%nat) (expr_syms e) → ole (dep_spec st k e d) (dep_spec st' k e d).
Proof.
  intros He. unfold dep_spec. rewrite boolean_ext. pose proof (eval_spec_mono e He).
  destruct e; try apply ole_refl; by apply ole_fmap.
Qed.
Lemma vis_spec_mono k : below (k_props k) → ole (vis_spec st k) (vis_spec st' k).
Proof.
  intros Hk. unfold vis_spec, no_modules. rewrite (ex_mval _ _ _ Hx).
  by apply ole_fmap, prompts_spec_mono.
Qed.
Lemma default_spec_mono k : below (k_props k) → ole (default_spec st k) (default_spec st' k).
Proof.
  intros Hk. unfold default_spec.
  apply ole_bind; [by apply first_active_mono|]. intros d Hd.
  apply ole_bind; [|intros; apply ole_refl]. destruct d as [[p c]|]; [|apply ole_refl].
  apply first_active_elem in Hd as [Hp Ht].
  apply ole_bind; [|intros; apply ole_refl]. apply eval_spec_mono, (below_elem (k_props k)); by rewrite ?Ht.
Qed.
Lemma own_spec_mono k : below (k_props k) → ole (own_spec st k) (own_spec st' k).
Proof.
  intros Hk. unfold own_spec. case_match; [apply ole_refl|by apply default_spec_mono].
Qed.
Lemma tri_spec_mono k : below (k_props k) → ole (tri_spec st k) (tri_spec st' k).
Proof.
  intros Hk. unfold tri_spec. rewrite boolean_ext.
  apply ole_bind; [by apply own_spec_mono|intros; apply ole_refl].
Qed.
Lemma own_text_mono k : below (k_props k) → ole (own_text_spec st k) (own_text_spec st' k).
Proof.
  intros Hk. unfold own_text_spec. case_match; [apply ole_refl|].
  apply ole_bind; [by apply first_active_mono|]. intros d Hd.
  destruct d as [[p c]|]; [|apply ole_refl]. apply first_active_elem in Hd as [Hp Ht].
  pose proof (below_elem _ _ Hk Hp ltac:(by rewrite Ht)) as Hb. destruct (p_expr p); try apply ole_refl.
  apply Forall_cons in Hb as [? _]. grow.
Qed.
Lemma clamp_mono int p t :
  Forall (λ d, (rank d < r)%nat) (expr_syms (p_expr p)) →
  ole (clamp_spec st int p t) (clamp_spec st' int p t).
Proof.
  intros Hb. unfold clamp_spec. destruct (p_expr p); try apply ole_refl.
  apply Forall_cons in Hb as [? Hb]. apply Forall_cons in Hb as [? _]. unfold bound_spec. grow.
Qed.
Lemma in_range_mono k t : below (k_props k) → ole (in_range_spec st k t) (in_range_spec st' k t).
Proof.
  intros Hk. unfold in_range_spec. destruct (k_type k); try apply ole_refl.
  all: apply ole_bind; [by apply first_active_mono|]; intros d Hd;
    destruct d as [[p c]|]; [|apply ole_refl]; apply first_active_elem in Hd as [Hp Ht];
    apply clamp_mono; apply (below_elem (k_props k)); by rewrite ?Ht.
Qed.
Lemma curr_spec_mono k : below (k_props k) → ole (curr_spec st k) (curr_spec st' k).
Proof.
  intros Hk. unfold curr_spec. destruct (k_type k); try apply ole_refl.
  1,2: apply ole_bind; [by apply tri_spec_mono|intros; apply ole_refl].
  all: apply ole_bind; [by apply own_text_mono|]; intros;
    apply ole_bind; [by apply in_range_mono|intros; apply ole_refl].
Qed.

Lemma deps_below k : Forall (λ d, (rank d < r)%nat) (deps k) →
  Forall (λ d, (rank d < r)%nat) (expr_syms (ev_expr (k_dir k))) ∧
  Forall (λ d, (rank d < r)%nat) (expr_syms (ev_expr (k_rev k))) ∧
  Forall (λ d, (rank d < r)%nat) (expr_syms (ev_expr (k_imp k))) ∧ below (k_props k).
Proof. unfold deps. by rewrite !Forall_app. Qed.
Lemma described_mono k :
  Forall (λ d, (rank d < r)%nat) (deps k) → described st k → described st' k.
Proof.
  intros (B1 & B2 & B3 & B4)%deps_below [H1 H2 H3 H4 H5]. constructor.
  - intros Ht. apply vis_spec_mono; auto.
  - intros Ht. apply dep_spec_mono; auto.
  - intros Ht. apply dep_spec_mono; auto.
  - intros Ht. apply dep_spec_mono; auto.
  - by apply curr_spec_mono.
Qed.
End grows.
End acyclic.
End KconfigSymSpec.
