(* ===== verification/KconfigSymCalc.v ===== *)
(** * Kconfig symbol values: the calculation follows the description

    [sym_calc_value] on a table without choices whose dependencies have no
    cycle: it returns, leaves every symbol it has calculated with the value
    that KconfigSymSpec describes, and the values do not depend on the order
    of the calls.  The induction goes up the ranking of the symbols; at each
    rank the functions of symbol.c are taken in the order of the source. *)

From S2P Require Import Prelude CLib KconfigExpr KconfigSimp KconfigSym KconfigSymProps KconfigSymSpec.
Open Scope Z_scope.

Module KconfigSymCalc.
Import KconfigExpr KconfigSimp KconfigSym KconfigSymProps KconfigSymSpec.

Section acyclic.
Context {RK : Ranking}.

(** ** Evaluation follows the description *)

Lemma ext_refl r st : ext r st st.
Proof. by constructor. Qed.
Lemma ext_trans r st1 st2 st3 : ext r st1 st2 → ext r st2 st3 → ext r st1 st3.
Proof.
  intros [L1 M1 V1 X1 T1] [L2 M2 V2 X2 T2]. constructor; try congruence; [|intros x; eapply core_trans; [apply T1|apply T2]].
  intros x Hv Hr. pose proof (X1 x Hv Hr) as E1. rewrite X2; [done| |by rewrite M1].
  unfold valid. by rewrite E1.
Qed.
Lemma ext_exists r st st' d : ext r st st' → exists_sym st' d ↔ exists_sym st d.
Proof. intros Hx. destruct d; simpl; rewrite ?(ex_len _ _ _ Hx); done. Qed.

(** Only symbols of a rank below [r] have changed. *)
Record out (r : nat) (st st' : state) : Prop := {
  ou_inv : Inv r st';
  ou_ext : ext r st st';
  ou_far : ∀ x, (r ≤ rank x)%nat → ks st' x = ks st x
}.
Lemma out_refl r st : Inv r st → out r st st.
Proof. intros. constructor; auto using ext_refl. Qed.
Lemma out_trans r st1 st2 st3 : out r st1 st2 → out r st2 st3 → out r st1 st3.
Proof.
  intros [_ E1 F1] [I2 E2 F2]. constructor; [done|by eapply ext_trans|].
  intros x Hr. by rewrite F2, F1.
Qed.

Definition lower_deps (r : nat) (st : state) (l : list symbol) : Prop :=
  Forall (λ d, exists_sym st d ∧ (rank d < r)%nat) l.
Lemma lower_ranks r st l : lower_deps r st l → Forall (λ d, (rank d < r)%nat) l.
Proof. intros Hl. eapply Forall_impl; [exact Hl|]. naive_solver. Qed.
Lemma lower_ext r st st' l : ext r st st' → lower_deps r st l → lower_deps r st' l.
Proof.
  intros Hx Hl. eapply Forall_impl; [exact Hl|]. intros d [H1 H2]. split; [|done]. by eapply ext_exists.
Qed.

Lemma calc_value_valid s st : valid st s → sym_calc_value s st = Ret st.
Proof. intros Hv. rewrite calc_value_eq. unfold calc_body. by rewrite Hv. Qed.

Lemma curr_text k v st :
  curr_spec st k = Some v → ∃ t, v_val v = VStr t.
Proof.
  unfold curr_spec. intros H. destruct (k_type k);
    repeat (apply bind_Some in H as (? & ? & H)); injection H as <-; by eexists.
Qed.

Lemma valid_text r st s :
  Inv r st → exists_sym st s → (rank s < r)%nat → valid st s →
  ∃ t, v_val (k_curr (ks st s)) = VStr t.
Proof.
  intros HI He Hr Hv. destruct s as [| | |n]; try by eexists.
  eapply curr_text, de_curr, (iv_ok _ _ HI); done.
Qed.

Section run.
Context (r : nat).
Context (Hcalc : ∀ s st, exists_sym st s → (rank s < r)%nat → Inv r st →
  ∃ st', sym_calc_value s st = Ret st' ∧ out r st st' ∧ valid st' s).

Lemma get_valid st s : valid st s → get st s = Some (ks st s).
Proof. unfold get, valid. by intros ->. Qed.

Lemma text_value_ok st s :
  Inv r st → exists_sym st s → (rank s < r)%nat → valid st s →
  ∃ t, text_value sym_calc_value s st = Ret (t, st) ∧ text_spec st s = Some t.
Proof.
  intros HI He Hr Hv. unfold text_value, text_spec, tri. rewrite (get_valid st s Hv). cbn [mbind option_bind].
  destruct (valid_text r st s HI He Hr Hv) as [t Ht].
  destruct (k_type (ks st s)).
  2,3: destruct (v_tri (k_curr (ks st s))); [by eexists| |by eexists].
  2,3: rewrite (calc_value_valid _ _ (iv_mod _ _ HI)), (get_valid _ _ (iv_mod _ _ HI)); simpl; by eexists.
  all: rewrite Ht; by eexists.
Qed.

Lemma eval_ok e st :
  lower_deps r st (expr_syms e) → Inv r st →
  ∃ v st', eval sym_calc_value e st = Ret (v, st') ∧ out r st st' ∧ eval_spec st' e = Some v.
Proof.
  revert st. induction e; intros st Hd HI; cbn [eval eval_spec expr_syms] in *;
    try (do 2 eexists; split_and!; [done|by apply out_refl|done]).
  - apply Forall_app in Hd as [H1 H2].
    destruct (IHe1 st H1 HI) as (v1 & st1 & R1 & O1 & S1).
    destruct (IHe2 st1) as (v2 & st2 & R2 & O2 & S2); [by eapply lower_ext; [apply O1|]|apply O1|].
    apply (eval_spec_mono r st1 st2 (ou_ext _ _ _ O2)) in S1; [|by eapply lower_ranks].
    exists (tri_op t v1 v2), st2. split_and!; [|by eapply out_trans|by rewrite S1; simpl; rewrite S2].
    by destruct t; rewrite R1; simpl; rewrite R2.
  - destruct (IHe st Hd HI) as (v & st' & R & O & S). exists (EXPR_NOT v), st'. by rewrite R, S.
  - apply Forall_cons in Hd as [[Ha1 Ha2] Hd]. apply Forall_cons in Hd as [[Hb1 Hb2] _].
    destruct (Hcalc left st Ha1 Ha2 HI) as (st1 & R1 & O1 & V1).
    assert (exists_sym st1 right) as Hb3 by (by eapply ext_exists; [apply O1|]).
    destruct (Hcalc right st1 Hb3 Hb2 (ou_inv _ _ _ O1)) as (st2 & R2 & O2 & V2).
    assert (valid st2 left) as V1'.
    { unfold valid. rewrite (ex_valid _ _ _ (ou_ext _ _ _ O2)); auto. }
    assert (exists_sym st2 left) as Ha3.
    { eapply ext_exists; [apply O2|]. by eapply ext_exists; [apply O1|]. }
    assert (exists_sym st2 right) as Hb4 by (by eapply ext_exists; [apply O2|]).
    destruct (text_value_ok st2 left) as (x & Rx & Sx); [apply O2|done..|].
    destruct (text_value_ok st2 right) as (y & Ry & Sy); [apply O2|done..|].
    rewrite R1; simpl. rewrite R2; simpl. rewrite Rx; simpl. rewrite Ry; simpl.
    do 2 eexists. split_and!; [done|by eapply out_trans|]. rewrite Sx; simpl. by rewrite Sy.
  - apply Forall_cons in Hd as [[H1 H2] _].
    destruct (Hcalc left st H1 H2 HI) as (st' & R & O & V). rewrite R. simpl.
    do 2 eexists. split_and!; [done..|]. by rewrite (get_valid _ _ V).
Qed.

Lemma props_deps p l st :
  lower_deps r st (concat (prop_syms <$> p :: l)) →
  (p_text p || read_type (p_type p) = true → lower_deps r st (expr_syms (p_visible p))) ∧
  lower_deps r st (concat (prop_syms <$> l)).
Proof.
  unfold lower_deps, prop_syms. rewrite fmap_cons. cbn [concat]. rewrite !Forall_app.
  intros [[H1 _] H3]. split; [by intros E; rewrite E in H1|done].
Qed.
Lemma props_below l st : lower_deps r st (concat (prop_syms <$> l)) → below r l.
Proof. apply lower_ranks. Qed.

Lemma active_ok t l st :
  read_type t = true → lower_deps r st (concat (prop_syms <$> l)) → Inv r st →
  ∃ o st', active_prop sym_calc_value t l st = Ret (o, st') ∧ out r st st' ∧
           first_active st' t l = Some o.
Proof.
  intros Ht. revert st. induction l as [|p l IH]; intros st Hd HI; cbn [active_prop first_active].
  { exists None, st. split_and!; [done|by apply out_refl|done]. }
  apply props_deps in Hd as (Hv & Hl). destruct (decide (p_type p = t)) as [Hp|]; [|by apply IH].
  assert (lower_deps r st (expr_syms (p_visible p))) as He by (apply Hv; by rewrite Hp, Ht, orb_true_r).
  clear Hv. rename He into Hv.
  destruct (eval_ok _ st Hv HI) as (v & st1 & R1 & O1 & S1). rewrite R1. simpl.
  destruct (decide (v = no)) as [->|Hn].
  - destruct (IH st1) as (o & st2 & R2 & O2 & S2); [by eapply lower_ext; [apply O1|]|apply O1|].
    exists o, st2. split_and!; [done|by eapply out_trans|].
    apply (eval_spec_mono r st1 st2 (ou_ext _ _ _ O2)) in S1; [|by eapply lower_ranks].
    by rewrite S1.
  - do 2 eexists. split_and!; [done..|]. rewrite S1. simpl. by rewrite decide_False.
Qed.

Lemma prompts_ok s l t st :
  lower_deps r st (concat (prop_syms <$> l)) → Inv r st →
  ∃ v st', prompt_visibility sym_calc_value s None l t st = Ret (tri_op OR t v, st') ∧
           out r st st' ∧ prompts_spec st' l = Some v.
Proof.
  revert t st. induction l as [|p l IH]; intros t st Hd HI; cbn [prompt_visibility prompts_spec].
  { exists no, st. split_and!; [by destruct t|by apply out_refl|done]. }
  apply props_deps in Hd as (Hv & Hl). destruct (p_text p); [|by apply IH].
  specialize (Hv eq_refl).
  destruct (eval_ok _ st Hv HI) as (v & st1 & R1 & O1 & S1). rewrite R1. simpl.
  destruct (IH (EXPR_OR t v) st1) as (w & st2 & R2 & O2 & S2);
    [by eapply lower_ext; [apply O1|]|apply O1|].
  exists (tri_op OR v w), st2. split_and!; [|by eapply out_trans|].
  - rewrite R2. by destruct t, v, w.
  - apply (eval_spec_mono r st1 st2 (ou_ext _ _ _ O2)) in S1; [|by eapply lower_ranks].
    by rewrite S1, S2.
Qed.

Lemma boolean_type st s :
  has SYMBOL_CHOICEVAL (ks st s) = false →
  bool_decide (sym_get_type st s = S_BOOLEAN) = boolean st (ks st s).
Proof.
  intros Hc. unfold sym_get_type, boolean, sym_is_choice_value. rewrite Hc. simpl.
  apply bool_decide_ext. case_decide as Ht; [case_decide|]; naive_solver.
Qed.
Lemma promote_if b P `{Decision P} t :
  bool_decide P = b → (if decide (t = mod_ ∧ P) then yes else t) = promote b t.
Proof.
  intros <-. unfold promote. destruct t; try (rewrite decide_False; naive_solver).
  case_bool_decide; [by rewrite decide_True|rewrite decide_False; naive_solver].
Qed.

Lemma dep_ok s e d st :
  d ≠ mod_ → has SYMBOL_CHOICEVAL (ks st s) = false → (r ≤ rank s)%nat →
  lower_deps r st (expr_syms e) → Inv r st →
  ∃ v st', dep_value sym_calc_value s e d st = Ret (v, st') ∧ out r st st' ∧
           dep_spec st' (ks st s) e d = Some v.
Proof.
  intros Hdm Hc Hs Hd HI. unfold dep_value, dep_spec.
  assert (e = NULL ∨ e ≠ NULL ∧ match e with NULL => Ret (d, st) | _ => eval sym_calc_value e st end =
                       eval sym_calc_value e st) as [->|[Hne He]] by (destruct e; auto).
  { simpl. do 2 eexists. split_and!; [done|by apply out_refl|]. f_equal.
    rewrite decide_False; [done|]. naive_solver. }
  rewrite He. destruct (eval_ok _ st Hd HI) as (v & st1 & R1 & O1 & S1).
  assert (boolean st (ks st s) = bool_decide (sym_get_type st1 s = S_BOOLEAN)) as Hb.
  { rewrite boolean_type by (by rewrite (ou_far _ _ _ O1)). rewrite (ou_far _ _ _ O1) by done.
    by rewrite (boolean_ext r st st1 (ou_ext _ _ _ O1)). }
  exists (promote (boolean st (ks st s)) v), st1. rewrite R1. cbn [mbind result_bind].
  split_and!; [|done|].
  - f_equal. f_equal. by apply promote_if.
  - rewrite (boolean_ext r st st1 (ou_ext _ _ _ O1)). destruct e; by rewrite ?S1.
Qed.
End run.

(** ** The calculation of one symbol *)

Lemma has_sub fl fl' k : fl .& fl' = fl' → has fl k = false → has fl' k = false.
Proof.
  unfold has. rewrite !negb_false_iff, !Z.eqb_eq. intros <- H.
  by rewrite Z.land_assoc, H, Z.land_0_l.
Qed.

Lemma wf_core st s k k' : core marks k k' → wf_sym st s k → wf_sym st s k'.
Proof.
  intros [Hn Ht Hu Hp Hd Hr Hi Hf] [H1 H2 H3 H4 H5]. constructor.
  - by rewrite Hf.
  - by rewrite Hn, Ht.
  - rewrite Ht, Hu, Hf by done. done.
  - by rewrite Hp.
  - unfold deps in *. by rewrite Hp, Hd, Hr, Hi.
Qed.
Lemma core_raise fl b k : (∀ c, fl .& c = 0 → b .& c = 0) → core fl k (raise b k).
Proof. intros Hb. constructor; try done. intros c Hc. apply has_raise_disj. auto. Qed.
Lemma core_lower fl b k : (∀ c, fl .& c = 0 → b .& c = 0) → core fl k (lower b k).
Proof. intros Hb. constructor; try done. intros c Hc. apply has_lower_disj. auto. Qed.
Lemma sub_disj fl b c : fl .& b = b → fl .& c = 0 → b .& c = 0.
Proof. intros <- H. by rewrite (Z.land_comm fl), <- Z.land_assoc, H, Z.land_0_r. Qed.

Section own.
Context (s : symbol) (r : nat) (Hrank : rank s = r).

(** Besides symbols of a rank below [r], only [s] has changed. *)
Record reach (st st' : state) : Prop := {
  re_inv : Inv r st';
  re_ext : ext r st st';
  re_far : ∀ x, (r ≤ rank x)%nat → x ≠ s → ks st' x = ks st x;
  re_core : core marks (ks st s) (ks st' s)
}.
Lemma reach_trans st1 st2 st3 : reach st1 st2 → reach st2 st3 → reach st1 st3.
Proof.
  intros [_ E1 F1 C1] [I2 E2 F2 C2].
  constructor; [done|by eapply ext_trans| |by eapply core_trans].
  intros x Hr Hx. by rewrite F2, F1.
Qed.
Lemma out_reach st st' : out r st st' → reach st st'.
Proof.
  intros [HI HE HF]. constructor; auto. rewrite HF by lia. apply core_refl.
Qed.
Lemma reach_upd f st :
  Inv r st → known st s → s ≠ modules st → core marks (ks st s) (f (ks st s)) →
  reach st (upd s f st) ∧ ks (upd s f st) s = f (ks st s).
Proof.
  intros HI Hk Hm Hc. pose proof (ks_upd_same s f st Hk) as E.
  assert (ext r st (upd s f st)) as HE.
  { constructor.
    - destruct s; simpl; by rewrite ?length_alter.
    - apply modules_upd.
    - apply modules_val_upd.
    - intros x Hv [Hx| ->]; apply ks_upd_ne; [intros ->; lia|done].
    - intros x. rewrite ks_upd. case_decide as Hd; [|apply core_refl]. destruct Hd as [<- _]. done. }
  split; [|done]. constructor; [|done|intros x _ Hx; by apply ks_upd_ne|by rewrite E].
  constructor.
  - intros x Hx. rewrite known_upd in Hx. pose proof (iv_wf _ _ HI x Hx) as Hw.
    assert (wf_sym st x (ks (upd s f st) x)) as [? ? ? ? Hd].
    { rewrite ks_upd. case_decide as Hd; [|done]. destruct Hd as [<- _]. by eapply wf_core. }
    constructor; try done. eapply Forall_impl; [exact Hd|]. intros d [H1 H2].
    split; [|done]. by eapply ext_exists.
  - unfold valid. rewrite modules_upd, ks_upd_ne by done. apply HI.
  - intros x Hx Hv Hr. rewrite known_upd in Hx. assert (x ≠ s) by (intros ->; lia).
    unfold valid in Hv. rewrite ks_upd_ne in Hv |- * by done.
    apply (described_mono (rank x) st).
    + destruct HE. constructor; try done. intros y Hy [Hyr|Hyr]; auto with lia.
    + eapply Forall_impl; [exact (wk_deps _ _ _ (iv_wf _ _ HI x Hx))|]. naive_solver.
    + by apply (iv_ok _ _ HI).
Qed.

Context (Hcalc : ∀ s st, exists_sym st s → (rank s < r)%nat → Inv r st →
  ∃ st', sym_calc_value s st = Ret st' ∧ out r st st' ∧ valid st' s).

(** [s] is a symbol of the table whose turn it is. *)
Record ready (st : state) : Prop := {
  rd_inv : Inv r st;
  rd_known : known st s;
  rd_mod : s ≠ modules st
}.
Lemma reach_ready st st' : ready st → reach st st' → ready st'.
Proof.
  intros [HI Hk Hm] [HI' HE _ _]. constructor; [done| |by rewrite (ex_mod _ _ _ HE)].
  by apply (known_len _ _ _ (ex_len _ _ _ HE)).
Qed.
Lemma ready_plain st fl : ready st → plain_flags .& fl = fl → has fl (ks st s) = false.
Proof. intros Hr Hf. eapply has_sub; [exact Hf|]. eapply wk_flags, iv_wf; apply Hr. Qed.
Lemma ready_deps st :
  ready st → let k := ks st s in
  lower_deps r st (expr_syms (ev_expr (k_dir k))) ∧ lower_deps r st (expr_syms (ev_expr (k_rev k))) ∧
  lower_deps r st (expr_syms (ev_expr (k_imp k))) ∧ lower_deps r st (concat (prop_syms <$> k_props k)).
Proof.
  intros [HI Hk _]. pose proof (wk_deps _ _ _ (iv_wf _ _ HI s Hk)) as Hd. rewrite Hrank in Hd.
  unfold deps in Hd. by rewrite !Forall_app in Hd.
Qed.
Lemma own_upd f st :
  ready st → core marks (ks st s) (f (ks st s)) →
  reach st (upd s f st) ∧ ks (upd s f st) s = f (ks st s).
Proof. intros [] Hc. by apply reach_upd. Qed.
Lemma core_write_raise k : core marks k (raise SYMBOL_WRITE k).
Proof. apply core_raise. intros c. by apply sub_disj. Qed.
Lemma core_write_lower k : core marks k (lower SYMBOL_WRITE k).
Proof. apply core_lower. intros c. by apply sub_disj. Qed.
Lemma core_valid_raise k : core marks k (raise SYMBOL_VALID k).
Proof. apply core_raise. intros c. by apply sub_disj. Qed.

(** A dependency is evaluated and its value stored. *)
Lemma store_dep st e d (set : tristate → ksym → ksym) :
  ready st → d ≠ mod_ → lower_deps r st (expr_syms e) → (∀ t k, core marks k (set t k)) →
  ∃ v st1, dep_value sym_calc_value s e d st = Ret (v, st1) ∧
    reach st (upd s (set v) st1) ∧ ks (upd s (set v) st1) s = set v (ks st s) ∧
    dep_spec (upd s (set v) st1) (ks st s) e d = Some v.
Proof.
  intros Hr Hd He Hset.
  destruct (dep_ok r Hcalc s e d st) as (v & st1 & R1 & O1 & S1);
    [done|by apply ready_plain|lia|done|apply Hr|].
  pose proof (reach_ready _ _ Hr (out_reach _ _ O1)) as Hr1.
  destruct (own_upd (set v) st1 Hr1 (Hset v _)) as [R2 E2].
  exists v, st1. split_and!; [done| | |].
  - eapply reach_trans; [by apply out_reach|done].
  - by rewrite E2, (ou_far _ _ _ O1) by lia.
  - eapply dep_spec_mono; [apply R2|by eapply lower_ranks|done].
Qed.

Lemma dep_spec_type st k k' e d : k_type k' = k_type k → dep_spec st k' e d = dep_spec st k e d.
Proof. intros Ht. unfold dep_spec, boolean. by rewrite Ht. Qed.

Lemma visibility_ok st :
  ready st → ∃ st', sym_calc_visibility sym_calc_value s st = Ret st' ∧ reach st st' ∧
  let k := ks st s in let k' := ks st' s in
  k_flags k' = k_flags k ∧ k_curr k' = k_curr k ∧
  vis_spec st' k' = Some (k_visible k') ∧
  dep_spec st' k' (ev_expr (k_dir k')) yes = Some (ev_tri (k_dir k')) ∧
  dep_spec st' k' (ev_expr (k_rev k')) no = Some (ev_tri (k_rev k')) ∧
  dep_spec st' k' (ev_expr (k_imp k')) no = Some (ev_tri (k_imp k')).
Proof.
  intros Hr. pose proof (ready_deps st Hr) as (Hd & Hv & Hi & Hp). set (k := ks st s) in *.
  assert (sym_is_choice_value st s = false) as Hc by (by apply ready_plain).
  destruct (prompts_ok r Hcalc s _ no st Hp (rd_inv _ Hr)) as (t & st1 & R1 & O1 & S1).
  assert (ks st1 s = k) as K1 by (apply (ou_far _ _ _ O1); lia).
  pose proof (out_reach _ _ O1) as RE1. pose proof (reach_ready _ _ Hr RE1) as Hr1.
  set (t1 := promote (no_modules st k) t).
  destruct (own_upd (set_visible t1) st1 Hr1) as [RE2 K2]; [by apply core_same|].
  set (st2 := upd s (set_visible t1) st1) in *. rewrite K1 in K2.
  pose proof (reach_ready _ _ Hr1 RE2) as Hr2. pose proof (reach_trans _ _ _ RE1 RE2) as R02.
  destruct (store_dep st2 (ev_expr (k_dir k)) yes set_dir) as (d & st3 & R3 & RE3 & K3 & S3);
    [done|done|by eapply lower_ext; [apply R02|]|by intros; apply core_same|].
  set (st4 := upd s (set_dir d) st3) in *. pose proof (reach_ready _ _ Hr2 RE3) as Hr4.
  pose proof (reach_trans _ _ _ R02 RE3) as R04.
  destruct (store_dep st4 (ev_expr (k_rev k)) no set_rev) as (v & st5 & R5 & RE5 & K5 & S5);
    [done|done|by eapply lower_ext; [apply R04|]|by intros; apply core_same|].
  set (st6 := upd s (set_rev v) st5) in *. pose proof (reach_ready _ _ Hr4 RE5) as Hr6.
  pose proof (reach_trans _ _ _ R04 RE5) as R06.
  destruct (store_dep st6 (ev_expr (k_imp k)) no set_imp) as (i & st7 & R7 & RE7 & K7 & S7);
    [done|done|by eapply lower_ext; [apply R06|]|by intros; apply core_same|].
  set (st8 := upd s (set_imp i) st7) in *.
  pose proof (reach_trans _ _ _ R06 RE7) as R08.
  exists st8. cbv zeta. split_and!.
  - unfold sym_calc_visibility. rewrite Hc. cbn [mbind result_bind]. fold k. rewrite R1.
    cbn [mbind result_bind].
    replace (if decide _ then yes else _) with t1.
    2: { subst t1. replace (tri_op OR no t) with t by (by destruct t).
         unfold no_modules. rewrite <- K1, <- (ex_mval _ _ _ (ou_ext _ _ _ O1)).
         symmetry. by apply promote_if. }
    change (upd s (set_visible t1) st1) with st2.
    assert (sym_is_choice_value st2 s = false) as -> by (by apply ready_plain).
    replace (ev_expr (k_dir (ks st2 s))) with (ev_expr (k_dir k)) by (by rewrite K2).
    rewrite R3. cbn [mbind result_bind]. change (upd s (set_dir d) st3) with st4.
    replace (ev_expr (k_rev (ks st4 s))) with (ev_expr (k_rev k)) by (by rewrite K3, K2).
    rewrite R5. cbn [mbind result_bind]. change (upd s (set_rev v) st5) with st6.
    replace (ev_expr (k_imp (ks st6 s))) with (ev_expr (k_imp k)) by (by rewrite K5, K3, K2).
    by rewrite R7.
  - done.
  - by rewrite K7, K5, K3, K2.
  - by rewrite K7, K5, K3, K2.
  - rewrite K7, K5, K3, K2. cbn. unfold vis_spec. cbn [k_props set_imp set_rev set_dir set_visible].
    assert (prompts_spec st8 (k_props k) = Some t) as ->.
    { eapply (prompts_spec_mono r st1); [|by eapply props_below|done].
      eapply ext_trans; [apply RE2|]. eapply ext_trans; [apply RE3|]. eapply ext_trans; [apply RE5|].
      apply RE7. }
    cbn. f_equal. subst t1. unfold no_modules. simpl. by rewrite (ex_mval _ _ _ (re_ext _ _ R08)).
  - rewrite (dep_spec_type _ (ks st2 s)) by (by rewrite K7, K5, K3).
    rewrite K7, K5, K3, K2 in *. cbn [ev_expr ev_tri k_dir set_imp set_rev set_dir set_visible].
    eapply (dep_spec_mono r st4); [|by eapply lower_ranks|done].
    eapply ext_trans; [apply RE5|apply RE7].
  - rewrite (dep_spec_type _ (ks st4 s)) by (by rewrite K7, K5).
    rewrite K7, K5, K3, K2 in *. cbn [ev_expr ev_tri k_rev set_imp set_rev set_dir set_visible].
    eapply (dep_spec_mono r st6); [apply RE7|by eapply lower_ranks|done].
  - rewrite (dep_spec_type _ (ks st6 s)) by (by rewrite K7).
    rewrite K7, K5, K3, K2 in *. cbn [ev_expr ev_tri k_imp set_imp set_rev set_dir set_visible].
    done.
Qed.

(** Only the value and SYMBOL_WRITE differ. *)
Record dressed (k k' : ksym) : Prop := {
  dr_eq : k' = set_flags (k_flags k') (set_curr (k_curr k') k);
  dr_has : ∀ b, SYMBOL_WRITE .& b = 0 → has b k' = has b k
}.
Lemma dressed_refl k : dressed k k.
Proof. by destruct k. Qed.
Lemma dressed_trans k1 k2 k3 : dressed k1 k2 → dressed k2 k3 → dressed k1 k3.
Proof.
  intros [E1 H1] [E2 H2]. constructor; [by rewrite E2, E1|].
  intros b Hb. rewrite H2 by done. auto.
Qed.
Lemma dressed_raise k : dressed k (raise SYMBOL_WRITE k).
Proof. constructor; [by destruct k|]. intros b. apply has_raise_disj. Qed.
Lemma dressed_lower k : dressed k (lower SYMBOL_WRITE k).
Proof. constructor; [by destruct k|]. intros b. apply has_lower_disj. Qed.
Lemma dressed_curr v k : dressed k (set_curr v k).
Proof. by destruct k. Qed.
Hint Resolve dressed_refl dressed_raise dressed_lower dressed_curr : ksym.

(** A step of the calculation that changes nothing else of [s]. *)
Definition goes (st st' : state) : Prop := reach st st' ∧ dressed (ks st s) (ks st' s).
Lemma goes_trans st1 st2 st3 : goes st1 st2 → goes st2 st3 → goes st1 st3.
Proof.
  intros [R1 D1] [R2 D2]. split; [by eapply reach_trans|by eapply dressed_trans].
Qed.
Lemma reach_refl st : ready st → reach st st.
Proof. intros Hr. apply out_reach, out_refl, Hr. Qed.
Lemma goes_refl st : ready st → goes st st.
Proof. intros. split; [by apply reach_refl|apply dressed_refl]. Qed.
Lemma out_goes st st' : out r st st' → goes st st'.
Proof.
  intros HO. split; [by apply out_reach|]. rewrite (ou_far _ _ _ HO) by lia. apply dressed_refl.
Qed.
Lemma goes_upd f st :
  ready st → dressed (ks st s) (f (ks st s)) →
  goes st (upd s f st) ∧ ks (upd s f st) s = f (ks st s).
Proof.
  intros Hr Hd. destruct (own_upd f st Hr) as [R E]; [|by split; [split; [done|by rewrite E]|]].
  destruct Hd as [-> Hh]. constructor; try done. simpl. intros b Hb. apply Hh. by apply (sub_disj marks).
Qed.
Lemma goes_ready st st' : ready st → goes st st' → ready st'.
Proof. intros Hr [R _]. by eapply reach_ready. Qed.

Lemma eval_and_ok e t st :
  lower_deps r st (expr_syms e) → Inv r st →
  ∃ v st', eval_and sym_calc_value e t st = Ret (v, st') ∧ out r st st' ∧
           (w ← eval_spec st' e; Some (tri_op AND w t)) = Some v.
Proof.
  intros He HI. unfold eval_and. destruct (eval_ok r Hcalc e st He HI) as (v & st1 & R1 & O1 & S1).
  rewrite R1. cbn [mbind result_bind]. destruct (tri_val v <? tri_val t) eqn:Hlt.
  - destruct (eval_ok r Hcalc e st1) as (w & st2 & R2 & O2 & S2);
      [by eapply lower_ext; [apply O1|]|apply O1|].
    apply (eval_spec_mono r st1 st2 (ou_ext _ _ _ O2)) in S1; [|by eapply lower_ranks].
    assert (w = v) as -> by congruence. exists v, st2. split_and!; [done|by eapply out_trans|].
    rewrite S1. simpl. unfold EXPR_AND. by rewrite Hlt.
  - exists t, st1. split_and!; [done..|]. rewrite S1. simpl. unfold EXPR_AND. by rewrite Hlt.
Qed.

Lemma raise_if b st :
  ready st → let st' := if b : bool then st else upd s (raise SYMBOL_WRITE) st in goes st st'.
Proof. intros Hr. destruct b; [by apply goes_refl|]. apply goes_upd; auto with ksym. Qed.

Lemma active_elem st t l p c st' :
  read_type t = true → lower_deps r st (concat (prop_syms <$> l)) → first_active st' t l = Some (Some (p, c)) →
  lower_deps r st (expr_syms (p_expr p)).
Proof.
  intros Hr Hl H. apply first_active_elem in H as [Hp Ht].
  apply list_elem_of_split in Hp as (l1 & l2 & ->). unfold lower_deps in *.
  rewrite fmap_app, concat_app, fmap_cons in Hl. cbn [concat] in Hl. unfold prop_syms at 2 in Hl.
  rewrite Ht, Hr in Hl. rewrite !Forall_app in Hl. tauto.
Qed.

(** The fields that [dressed] keeps. *)
Lemma dressed_fields k k' :
  dressed k k' → k_type k' = k_type k ∧ k_visible k' = k_visible k ∧ k_props k' = k_props k ∧
  k_user k' = k_user k ∧ k_dir k' = k_dir k ∧ k_rev k' = k_rev k ∧ k_imp k' = k_imp k.
Proof. intros [-> _]. done. Qed.

Lemma default_ok st :
  ready st →
  ∃ v st', default_tri sym_calc_value s st = Ret (v, st') ∧ goes st st' ∧
           default_spec st' (ks st s) = Some v.
Proof.
  intros Hr. unfold default_tri.
  pose proof (raise_if (bool_decide (ev_tri (k_rev (ks st s)) = no)) st Hr) as G1. cbv zeta in G1.
  replace (if bool_decide (ev_tri (k_rev (ks st s)) = no) then st else _) with
    (if decide (ev_tri (k_rev (ks st s)) = no) then st else upd s (raise SYMBOL_WRITE) st) in G1
    by (case_bool_decide; by case_decide).
  set (st1 := if decide _ then st else _) in *. clearbody st1.
  pose proof (goes_ready _ _ Hr G1) as Hr1.
  pose proof (dressed_fields _ _ (proj2 G1)) as (Ft & Fv & Fp & Fu & Fd & Fr & Fi).
  assert (sym_is_choice st1 s = false) as -> by (by apply ready_plain).
  pose proof (ready_deps st1 Hr1) as (_ & _ & _ & Hp). unfold sym_get_default_prop.
  destruct (active_ok r Hcalc P_DEFAULT _ st1 eq_refl Hp (rd_inv _ Hr1)) as (o & st2 & R2 & O2 & S2).
  rewrite R2. cbn [mbind result_bind].
  pose proof (goes_trans _ _ _ G1 (out_goes _ _ O2)) as G2. pose proof (goes_ready _ _ Hr G2) as Hr2.
  assert (∃ v st3, match o with
                   | Some (p, vt) =>
                       eval_and sym_calc_value (p_expr p) vt (upd s (raise SYMBOL_WRITE) st2)
                   | None => Ret (no, st2)
                   end = Ret (v, st3) ∧ goes st2 st3 ∧
                   match o with
                   | Some (p, c) => v ← eval_spec st3 (p_expr p); Some (tri_op AND v c)
                   | None => Some no
                   end = Some v) as (v & st3 & R3 & G3 & S3).
  { destruct o as [[p c]|]; [|exists no, st2; split_and!; auto using goes_refl].
    destruct (goes_upd (raise SYMBOL_WRITE) st2 Hr2) as [G _]; [auto with ksym|].
    pose proof (goes_ready _ _ Hr2 G) as Hr2'.
    destruct (eval_and_ok (p_expr p) c (upd s (raise SYMBOL_WRITE) st2)) as (v & st3 & R3 & O3 & S3);
      [|apply Hr2'|].
    - refine (active_elem _ P_DEFAULT _ _ _ _ eq_refl _ S2). eapply lower_ext; [apply G|]. by eapply lower_ext; [apply O2|].
    - exists v, st3. split_and!; [done| |done]. eapply goes_trans; [exact G|by apply out_goes]. }
  rewrite R3. cbn [mbind result_bind]. pose proof (goes_trans _ _ _ G2 G3) as G4.
  pose proof (dressed_fields _ _ (proj2 G4)) as (_ & _ & _ & _ & Fd4 & _ & Fi4).
  assert (default_spec st3 (ks st s) =
    Some (if decide (ev_tri (k_imp (ks st s)) = no) then v
          else tri_op AND (tri_op OR v (ev_tri (k_imp (ks st s)))) (ev_tri (k_dir (ks st s))))) as S4.
  { unfold default_spec. rewrite <- Fp.
    rewrite (first_active_mono r st2 st3 (re_ext _ _ (proj1 G3)) P_DEFAULT _ eq_refl
               (props_below _ _ _ Hp) _ S2). cbn [mbind option_bind]. by rewrite S3. }
  rewrite Fd4, Fi4. case_decide; [by exists v, st3|].
  destruct (goes_upd (raise SYMBOL_WRITE) st3) as [G5 _]; [by eapply goes_ready|auto with ksym|].
  do 2 eexists. split_and!; [done|by eapply goes_trans|].
  eapply (default_spec_mono r st3); [apply G5| |done]. rewrite <- Fp. by eapply props_below.
Qed.

Lemma select_tri_dressed st st' v :
  dressed (ks st s) (ks st' s) → select_tri s v st' = select_tri s v st.
Proof.
  intros (_ & _ & _ & _ & Fd & Fr & _)%dressed_fields. unfold select_tri. by rewrite Fd, Fr.
Qed.

Lemma new_tri_ok st :
  ready st →
  ∃ v st', new_tri sym_calc_value s st = Ret (v, st') ∧ goes st st' ∧
           tri_spec st' (ks st s) = Some v.
Proof.
  intros Hr. unfold new_tri.
  assert (sym_is_choice_value st s = false) as -> by (by apply ready_plain).
  assert (∃ v st', (if negb (bool_decide (k_visible (ks st s) = no)) && sym_has_value st s then
       Ret (select_tri s (EXPR_AND (v_tri (k_user (ks st s))) (k_visible (ks st s))) st, st)
     else
       '(v, st) ← default_tri sym_calc_value s st;
       Ret (select_tri s v st, st)) = Ret (select_tri s v st, st') ∧ goes st st' ∧
       own_spec st' (ks st s) = Some v) as (v & st' & -> & G & S).
  { unfold own_spec, sym_has_value. destruct (_ && _).
    - do 2 eexists. split_and!; [done|by apply goes_refl|done].
    - destruct (default_ok st Hr) as (v & st' & -> & G & S). cbn [mbind result_bind].
      exists v, st'. split_and!; [|done..]. by rewrite (select_tri_dressed st st') by apply G. }
  cbn [andb mbind result_bind]. do 2 eexists. split_and!; [done|done|].
  unfold tri_spec. rewrite S. cbn [mbind option_bind]. f_equal. symmetry.
  assert (boolean st' (ks st s) = bool_decide (sym_get_type st' s = S_BOOLEAN)) as ->.
  { rewrite boolean_type by (by apply ready_plain; [eapply goes_ready|]).
    unfold boolean. by destruct (dressed_fields _ _ (proj2 G)) as (-> & _). }
  by apply promote_if.
Qed.

Lemma new_text_ok st :
  ready st → textual (k_type (ks st s)) →
  ∃ t st', new_text sym_calc_value s st = Ret (VStr t, st') ∧ goes st st' ∧
           own_text_spec st' (ks st s) = Some t.
Proof.
  intros Hr Ht. unfold new_text, own_text_spec, sym_has_value.
  pose proof (iv_wf _ _ (rd_inv _ Hr) s (rd_known _ Hr)) as Hw.
  destruct (_ && _) eqn:Hu.
  { apply andb_true_iff in Hu as [_ Hu]. pose proof (wk_user _ _ _ Hw Ht Hu) as Hv.
    destruct (v_val (k_user (ks st s))) as [|t|] eqn:E; try done.
    exists t, st. split_and!; [done|by apply goes_refl|done]. }
  pose proof (ready_deps st Hr) as (_ & _ & _ & Hp). unfold sym_get_default_prop.
  destruct (active_ok r Hcalc P_DEFAULT _ st eq_refl Hp (rd_inv _ Hr)) as (o & st1 & R1 & O1 & S1).
  rewrite R1. cbn [mbind result_bind].
  pose proof (out_goes _ _ O1) as G1. pose proof (goes_ready _ _ Hr G1) as Hr1.
  destruct o as [[p c]|].
  2: { exists [], st1. split_and!; [done..|]. by rewrite S1. }
  pose proof (active_elem _ P_DEFAULT _ _ _ _ eq_refl Hp S1) as Hd.
  destruct (first_active_elem _ _ _ _ _ S1) as [Hin Hpt].
  assert (prop_ok p) as [_ Hok] by (eapply Forall_forall; [apply Hw|done]). specialize (Hok Hpt).
  unfold prop_get_symbol. destruct (p_expr p) as [| | | | | |d|] eqn:Ep; try done;
    try (exists [], st1; split_and!; [done|done|by rewrite S1; simpl; rewrite Ep]).
  cbn [mbind result_bind]. apply Forall_cons in Hd as [[Hd1 Hd2] _].
  destruct (goes_upd (raise SYMBOL_WRITE) st1 Hr1) as [G2 _]; [auto with ksym|].
  pose proof (goes_ready _ _ Hr1 G2) as Hr2. pose proof (goes_trans _ _ _ G1 G2) as G12.
  destruct (Hcalc d (upd s (raise SYMBOL_WRITE) st1)) as (st3 & R3 & O3 & V3);
    [by eapply ext_exists; [apply G12|]|done|apply Hr2|].
  pose proof (goes_trans _ _ _ G12 (out_goes _ _ O3)) as G3.
  destruct (valid_text r st3 d) as [t E]; [apply O3|by eapply ext_exists; [apply G3|]|done..|].
  exists t, st3. rewrite R3. cbn [mbind result_bind]. split_and!; [by rewrite E|done|].
  assert (ext r st1 st3) as E13.
  { eapply ext_trans; [apply G2|apply O3]. }
  rewrite (first_active_mono r st1 st3 E13 P_DEFAULT _ eq_refl (props_below _ _ _ Hp) _ S1).
  cbn [mbind option_bind]. rewrite Ep. unfold get. rewrite V3. simpl. by rewrite E.
Qed.

Lemma bound_ok base d st :
  exists_sym st d → (rank d < r)%nat → Inv r st →
  ∃ v st', sym_get_range_val sym_calc_value d base st = Ret (v, st') ∧ out r st st' ∧
           bound_spec st' base d = Some v.
Proof.
  intros He Hd HI. unfold sym_get_range_val, bound_spec.
  destruct (Hcalc d st He Hd HI) as (st1 & R1 & O1 & V1). rewrite R1. cbn [mbind result_bind].
  destruct (valid_text r st1 d) as [t E]; [apply O1|by eapply ext_exists; [apply O1|]|done..|].
  do 2 eexists. split_and!; [by rewrite E|done|]. unfold get. rewrite V1. simpl. by rewrite E.
Qed.
Lemma bound_mono base d st st' :
  ext r st st' → (rank d < r)%nat → ole (bound_spec st base d) (bound_spec st' base d).
Proof. intros HE Hd. apply ole_bind; [by apply (get_mono r); auto|]. intros. apply ole_refl. Qed.

Lemma clamp_set st int v t :
  ready st → let f := λ k, set_curr (Val (VStr (fmt_num int v)) (v_tri (k_curr k))) k in
  v_val (k_curr (ks st s)) = VStr t →
  goes st (upd s f st) ∧
  k_curr (ks (upd s f st) s) = Val (VStr (fmt_num int v)) (v_tri (k_curr (ks st s))).
Proof.
  intros Hr f Hc. destruct (goes_upd f st Hr) as [G K]; [apply dressed_curr|].
  split; [done|]. by rewrite K.
Qed.
(** The value of a number is moved to the bound it passes. *)
Lemma clamp_ok st int p t :
  ready st → v_val (k_curr (ks st s)) = VStr t →
  match p_expr p with RANGE _ _ => True | _ => False end → lower_deps r st (expr_syms (p_expr p)) →
  ∃ t' st', clamp_value sym_calc_value int p s st = Ret st' ∧ goes st st' ∧
    k_curr (ks st' s) = Val (VStr t') (v_tri (k_curr (ks st s))) ∧
    clamp_spec st' int p t = Some t'.
Proof.
  intros Hr Hc Hok Hd. unfold clamp_value, range_of, clamp_spec. rewrite Hc.
  destruct (p_expr p) as [| | | | | | |a b] eqn:Ep; try done. clear Hok.
  cbn [mbind result_bind as_text]. set (base := if int then 10 else 16).
  set (v := fst (fst (strtoll t base))).
  apply Forall_cons in Hd as [[Ha1 Ha2] Hd]. apply Forall_cons in Hd as [[Hb1 Hb2] _].
  destruct (bound_ok base a st Ha1 Ha2 (rd_inv _ Hr)) as (lo & st1 & R1 & O1 & S1).
  pose proof (out_goes _ _ O1) as G1. pose proof (goes_ready _ _ Hr G1) as Hr1.
  assert (ks st1 s = ks st s) as K1 by (apply (ou_far _ _ _ O1); lia).
  rewrite R1. cbn [mbind result_bind]. destruct (lo <=? v) eqn:Hlo.
  - destruct (bound_ok base b st1) as (hi & st2 & R2 & O2 & S2);
      [by eapply ext_exists; [apply O1|]|done|apply O1|]. rewrite R2. cbn [mbind result_bind].
    pose proof (goes_trans _ _ _ G1 (out_goes _ _ O2)) as G2. pose proof (goes_ready _ _ Hr G2) as Hr2.
    assert (ks st2 s = ks st s) as K2 by (rewrite (ou_far _ _ _ O2) by lia; done).
    pose proof (bound_mono base a st1 st2 (ou_ext _ _ _ O2) Ha2 _ S1) as S1'.
    destruct (v <=? hi) eqn:Hhi.
    + exists t, st2. rewrite K2, S1', S2. simpl. rewrite Hlo, Hhi. split_and!; [done|done| |done].
      destruct (k_curr (ks st s)). simpl in *. by rewrite Hc.
    + destruct (clamp_set st2 int hi t Hr2) as [G3 K3]; [by rewrite K2|].
      exists (fmt_num int hi), (upd s (λ k, set_curr (Val (VStr (fmt_num int hi)) (v_tri (k_curr k))) k) st2). split_and!; [done|by eapply goes_trans|by rewrite <- K2|].
      rewrite (bound_mono base a st2 _ (re_ext _ _ (proj1 G3)) Ha2 _ S1'). cbn. rewrite Hlo.
      rewrite (bound_mono base b st2 _ (re_ext _ _ (proj1 G3)) Hb2 _ S2). cbn. by rewrite Hhi.
  - destruct (clamp_set st1 int lo t Hr1) as [G3 K3]; [by rewrite K1|].
    exists (fmt_num int lo), (upd s (λ k, set_curr (Val (VStr (fmt_num int lo)) (v_tri (k_curr k))) k) st1). split_and!; [done|by eapply goes_trans|by rewrite <- K1|].
    rewrite (bound_mono base a st1 _ (re_ext _ _ (proj1 G3)) Ha2 _ S1). cbn. by rewrite Hlo.
Qed.

Lemma range_ok st int t :
  ready st → v_val (k_curr (ks st s)) = VStr t →
  ∃ t' st',
    ('(prop, st) ← sym_get_range_prop sym_calc_value s st;
     match prop with None => Ret st | Some (p, _) => clamp_value sym_calc_value int p s st end) = Ret st' ∧
    goes st st' ∧ k_curr (ks st' s) = Val (VStr t') (v_tri (k_curr (ks st s))) ∧
    (r ← first_active st' P_RANGE (k_props (ks st s));
     match r with None => Some t | Some (p, _) => clamp_spec st' int p t end) = Some t'.
Proof.
  intros Hr Hc. pose proof (ready_deps st Hr) as (_ & _ & _ & Hp).
  pose proof (iv_wf _ _ (rd_inv _ Hr) s (rd_known _ Hr)) as Hw. unfold sym_get_range_prop.
  destruct (active_ok r Hcalc P_RANGE _ st eq_refl Hp (rd_inv _ Hr)) as (o & st1 & R1 & O1 & S1).
  pose proof (out_goes _ _ O1) as G1. pose proof (goes_ready _ _ Hr G1) as Hr1.
  assert (ks st1 s = ks st s) as K1 by (apply (ou_far _ _ _ O1); lia).
  rewrite R1. cbn [mbind result_bind]. destruct o as [[p c]|].
  - pose proof (active_elem _ P_RANGE _ _ _ _ eq_refl Hp S1) as Hd.
    destruct (first_active_elem _ _ _ _ _ S1) as [Hin Hpt].
    assert (prop_ok p) as [Hok _] by (eapply Forall_forall; [apply Hw|done]).
    destruct (clamp_ok st1 int p t Hr1 ltac:(by rewrite K1) (Hok Hpt)
                (lower_ext _ _ _ _ (ou_ext _ _ _ O1) Hd)) as (t' & st2 & R2 & G2 & K2 & S2).
    exists t', st2. split_and!; [done|by eapply goes_trans|by rewrite K2, K1|].
    by rewrite (first_active_mono r st1 st2 (re_ext _ _ (proj1 G2)) P_RANGE _ eq_refl (props_below _ _ _ Hp) _ S1).
  - exists t, st1. split_and!; [done|done|rewrite K1|by rewrite S1].
    destruct (k_curr (ks st s)). simpl in *. by rewrite Hc.
Qed.

Lemma validate_ok st t :
  ready st → v_val (k_curr (ks st s)) = VStr t →
  ∃ t' st', sym_validate_range sym_calc_value s st = Ret st' ∧ goes st st' ∧
    k_curr (ks st' s) = Val (VStr t') (v_tri (k_curr (ks st s))) ∧
    in_range_spec st' (ks st s) t = Some t'.
Proof.
  intros Hr Hc. unfold sym_validate_range, in_range_spec.
  destruct (k_type (ks st s)) eqn:Ety.
  4: by apply (range_ok st true). 4: by apply (range_ok st false).
  all: exists t, st; split_and!; [done|by apply goes_refl| |done];
    destruct (k_curr (ks st s)); simpl in *; by rewrite Hc.
Qed.

Lemma finish_ok st old t v :
  ready st →
  ∃ t' st', finish_value sym_calc_value s old (Val (VStr t) v) st = Ret st' ∧ goes st st' ∧
    k_curr (ks st' s) = Val (VStr t') v ∧ in_range_spec st' (ks st s) t = Some t'.
Proof.
  intros Hr. unfold finish_value.
  destruct (goes_upd (set_curr (Val (VStr t) v)) st Hr) as [G1 K1]; [apply dressed_curr|].
  set (st1 := upd s (set_curr (Val (VStr t) v)) st) in *. pose proof (goes_ready _ _ Hr G1) as Hr1.
  assert (sym_is_choice st1 s = false) as -> by (by apply ready_plain). cbn [andb mbind result_bind].
  destruct (validate_ok st1 t Hr1) as (t' & st2 & R2 & G2 & K2 & S2); [by rewrite K1|].
  rewrite R2. cbn [mbind result_bind]. rewrite K1 in K2. simpl in K2.
  pose proof (goes_ready _ _ Hr1 G2) as Hr2.
  rewrite (decide_False (P := _ ∧ modules st2 = s)) by (intros [_ E]; by apply (rd_mod _ Hr2)).
  assert (sym_is_choice st2 s = false) as -> by (by apply ready_plain). cbn [mbind result_bind].
  set (st3 := if has SYMBOL_NO_WRITE (ks st2 s) then upd s (lower SYMBOL_WRITE) st2 else st2).
  assert (goes st2 st3 ∧ k_curr (ks st3 s) = k_curr (ks st2 s)) as [G3 K3].
  { subst st3. destruct (has SYMBOL_NO_WRITE (ks st2 s)); [|by split; [apply goes_refl|]].
    destruct (goes_upd (lower SYMBOL_WRITE) st2 Hr2) as [G K]; [auto with ksym|]. by rewrite K. }
  pose proof (goes_ready _ _ Hr2 G3) as Hr3.
  assert (has SYMBOL_NEED_SET_CHOICE_VALUES (ks st3 s) = false) as -> by (by apply ready_plain).
  exists t', st3. split_and!; [done| |by rewrite K3|].
  - eapply goes_trans; [exact G1|]. by eapply goes_trans.
  - pose proof (ready_deps st Hr) as (_ & _ & _ & Hp).
    eapply (in_range_mono r st2); [apply G3|by eapply props_below|].
    by rewrite K1 in S2.
Qed.

(** The description reads nothing that the last steps change. *)
Lemma tri_spec_dressed st k k' : dressed k k' → tri_spec st k' = tri_spec st k.
Proof.
  intros [E Hh]. rewrite E in Hh |- *. unfold tri_spec, own_spec. by rewrite Hh.
Qed.
Lemma own_text_dressed st k k' : dressed k k' → own_text_spec st k' = own_text_spec st k.
Proof. intros [E Hh]. rewrite E in Hh |- *. unfold own_text_spec. by rewrite Hh. Qed.
Lemma in_range_dressed st k k' t : dressed k k' → in_range_spec st k' t = in_range_spec st k t.
Proof. intros [E Hh]. by rewrite E. Qed.
Lemma curr_spec_dressed st k k' : dressed k k' → curr_spec st k' = curr_spec st k.
Proof.
  intros D. unfold curr_spec. rewrite (tri_spec_dressed st k k' D), (own_text_dressed st k k' D).
  destruct D as [E _]. by rewrite E.
Qed.
Lemma described_dressed st k1 k :
  dressed k1 k → k_type k1 ≠ S_UNKNOWN →
  vis_spec st k1 = Some (k_visible k1) →
  dep_spec st k1 (ev_expr (k_dir k1)) yes = Some (ev_tri (k_dir k1)) →
  dep_spec st k1 (ev_expr (k_rev k1)) no = Some (ev_tri (k_rev k1)) →
  dep_spec st k1 (ev_expr (k_imp k1)) no = Some (ev_tri (k_imp k1)) →
  curr_spec st k1 = Some (k_curr k) →
  described st k.
Proof.
  intros [E Hh] Ht Hv Hd Hr Hi Hc.
  constructor; try (intros _; rewrite E; unfold vis_spec, no_modules, dep_spec, boolean in *; done).
  by rewrite <- Hc, (curr_spec_dressed st k1 k).
Qed.

Lemma calc_tri_ok st2 k1 st4 old {P : state → Prop} :
  below r (k_props k1) → goes st2 st4 → (∀ st', goes st2 st' → curr_spec st' k1 = Some (k_curr (ks st' s)) → P st') →
  ready st2 → k1 = ks st2 s → k_type k1 = S_BOOLEAN ∨ k_type k1 = S_TRISTATE →
  ∃ st', ('(v, st) ← new_tri sym_calc_value s st4;
          finish_value sym_calc_value s old (Val (VStr (cs "n")) v) st) = Ret st' ∧ P st'.
Proof.
  intros Hb G4 HP Hr2 -> Hty. pose proof (goes_ready _ _ Hr2 G4) as Hr4.
  destruct (new_tri_ok st4 Hr4) as (v & st5 & R5 & G5 & S5). rewrite R5. cbn [mbind result_bind].
  pose proof (goes_trans _ _ _ G4 G5) as G25. pose proof (goes_ready _ _ Hr4 G5) as Hr5.
  destruct (finish_ok st5 old (cs "n") v Hr5) as (t' & st6 & R6 & G6 & K6 & S6).
  exists st6. split; [done|]. apply HP; [by eapply goes_trans|]. rewrite K6.
  rewrite (tri_spec_dressed st5 _ _ (proj2 G4)) in S5.
  apply (tri_spec_mono r st5 st6 (re_ext _ _ (proj1 G6)) _ Hb) in S5.
  rewrite (in_range_dressed st6 _ _ _ (proj2 G25)) in S6. unfold curr_spec, in_range_spec in *.
  rewrite S5. destruct Hty as [E|E]; rewrite E in *; by injection S6 as <-.
Qed.
Lemma calc_text_ok st2 k1 st4 old {P : state → Prop} :
  below r (k_props k1) → goes st2 st4 → (∀ st', goes st2 st' → curr_spec st' k1 = Some (k_curr (ks st' s)) → P st') →
  ready st2 → k1 = ks st2 s → textual (k_type k1) →
  ∃ st', ('(v, st) ← new_text sym_calc_value s st4;
          finish_value sym_calc_value s old (Val v no) st) = Ret st' ∧ P st'.
Proof.
  intros Hb G4 HP Hr2 -> Hty. pose proof (goes_ready _ _ Hr2 G4) as Hr4.
  assert (k_type (ks st4 s) = k_type (ks st2 s)) as Et by (apply G4).
  destruct (new_text_ok st4 Hr4) as (t & st5 & R5 & G5 & S5); [by rewrite Et|].
  rewrite R5. cbn [mbind result_bind].
  pose proof (goes_trans _ _ _ G4 G5) as G25. pose proof (goes_ready _ _ Hr4 G5) as Hr5.
  destruct (finish_ok st5 old t no Hr5) as (t' & st6 & R6 & G6 & K6 & S6).
  exists st6. split; [done|]. apply HP; [by eapply goes_trans|]. rewrite K6.
  rewrite (own_text_dressed st5 _ _ (proj2 G4)) in S5.
  apply (own_text_mono r st5 st6 (re_ext _ _ (proj1 G6)) _ Hb) in S5.
  rewrite (in_range_dressed st6 _ _ _ (proj2 G25)) in S6. unfold curr_spec.
  rewrite S5. cbn [mbind option_bind]. rewrite S6. by destruct Hty as [->|[->| ->]].
Qed.

Lemma calc_valid_ok st :
  ready st → has SYMBOL_VALID (ks st s) = true →
  ∃ st', calc_valid sym_calc_value s st = Ret st' ∧ reach st st' ∧
    has SYMBOL_VALID (ks st' s) = true ∧ described st' (ks st' s).
Proof.
  intros Hr Hval. unfold calc_valid.
  destruct (decide (k_type (ks st s) = S_UNKNOWN)) as [Eu|Eu].
  { pose proof (iv_wf _ _ (rd_inv _ Hr) s (rd_known _ Hr)) as Hw. rewrite Eu.
    destruct (own_upd name_value st Hr) as [R K]; [by apply core_same|].
    eexists. split_and!; [done|exact R| |].
    - by change (has SYMBOL_VALID (ks (upd s name_value st) s) = true); rewrite K.
    - change (described (upd s name_value st) (ks (upd s name_value st) s)). rewrite K.
      constructor; try (intros H; by destruct H).
      pose proof (wk_name _ _ _ Hw Eu) as Hn. unfold curr_spec, name_value. simpl. rewrite Eu.
      by destruct (k_name (ks st s)). }
  destruct (own_upd (lower SYMBOL_WRITE) st Hr (core_write_lower _)) as [R1 K1].
  set (st1 := upd s (lower SYMBOL_WRITE) st) in *. pose proof (reach_ready _ _ Hr R1) as Hr1.
  destruct (visibility_ok st1 Hr1) as (st2 & R2 & RE2 & Fl & Cu & Sv & Sd & Sr & Si).
  pose proof (reach_trans _ _ _ R1 RE2) as R02. pose proof (reach_ready _ _ Hr R02) as Hr2.
  set (k1 := ks st2 s) in *.
  assert (k_type k1 = k_type (ks st s)) as Ety by (apply R02).
  assert (has SYMBOL_VALID k1 = true) as Hv2.
  { unfold has. rewrite Fl, K1. rewrite <- Hval. by apply has_lower_disj. }
  assert (∀ e, goes st2 (upd s (set_curr (Val e no))
    (if decide (k_visible (ks st2 s) = no) then st2 else upd s (raise SYMBOL_WRITE) st2))) as Hpre.
  { intros e. pose proof (raise_if (bool_decide (k_visible (ks st2 s) = no)) st2 Hr2) as G. cbv zeta in G.
    assert (goes st2 (if decide (k_visible (ks st2 s) = no) then st2 else upd s (raise SYMBOL_WRITE) st2))
      as G' by (case_decide; [by rewrite bool_decide_eq_true_2 in G|by rewrite bool_decide_eq_false_2 in G]).
    eapply goes_trans; [exact G'|]. apply goes_upd; [by eapply goes_ready|apply dressed_curr]. }
  assert (∀ st', goes st2 st' → curr_spec st' k1 = Some (k_curr (ks st' s)) →
    reach st st' ∧ has SYMBOL_VALID (ks st' s) = true ∧ described st' (ks st' s)) as Hpost.
  { intros st' G Hc. split_and!; [eapply reach_trans; [exact R02|apply G]| |].
    - by rewrite (dr_has _ _ (proj2 G)).
    - pose proof (ready_deps st2 Hr2) as (D1 & D2 & D3 & D4). pose proof (re_ext _ _ (proj1 G)) as E.
      apply (described_dressed st' k1); [apply G|congruence|..|done].
      + eapply vis_spec_mono; [exact E|by eapply props_below|done].
      + eapply dep_spec_mono; [exact E|by eapply lower_ranks|done].
      + eapply dep_spec_mono; [exact E|by eapply lower_ranks|done].
      + eapply dep_spec_mono; [exact E|by eapply lower_ranks|done]. }
  assert (below r (k_props k1)) as Hb by (eapply props_below, ready_deps; done).
  destruct (k_type (ks st s)) eqn:Et; [done|..]; rewrite R2; cbn [mbind result_bind].
  1,2: rewrite bool_decide_eq_false_2 by naive_solver;
       by apply (calc_tri_ok st2 k1 _ _ Hb (Hpre _) Hpost); auto.
  all: rewrite bool_decide_eq_true_2 by done;
       by apply (calc_text_ok st2 k1 _ _ Hb (Hpre _) Hpost); unfold textual; auto.
Qed.
End own.

(** ** The calculation follows the description *)

Lemma Inv_weaken r r' st : (r' ≤ r)%nat → Inv r st → Inv r' st.
Proof. intros Hr [Hw Hm Ho]. constructor; [done..|]. intros x Hk Hv Hx. apply Ho; [done..|lia]. Qed.

(** From the calculation of [s] back to the symbols below [r]. *)
Lemma reach_out r s st st' :
  (rank s < r)%nat → Inv r st → ¬ valid st s → reach s (rank s) st st' →
  described st' (ks st' s) → out r st st'.
Proof.
  intros Hs HI Hv [HI' HE HF _] Hd.
  assert (∀ x, valid st x → ks st' x = ks st x) as Hall.
  { intros x Hx. assert (x ≠ s) by congruence.
    destruct (decide (rank x < rank s)%nat); [by apply (ex_valid _ _ _ HE); auto|]. apply HF; [lia|done]. }
  assert (ext r st st') as HE' by (destruct HE; constructor; auto).
  constructor; [|done|].
  - constructor; [apply HI'..|]. intros x Hk Hvx Hr.
    destruct (decide (rank x < rank s)%nat); [by apply (iv_ok _ _ HI')|].
    destruct (decide (x = s)) as [->|Hne]; [done|].
    assert (ks st' x = ks st x) as Ex by (apply HF; [lia|done]).
    assert (known st x) as Hk0 by (by apply (known_len _ _ _ (ex_len _ _ _ HE'))).
    rewrite Ex. apply (described_mono r st st' HE').
    + eapply Forall_impl; [exact (wk_deps _ _ _ (iv_wf _ _ HI x Hk0))|]. simpl. intros d [_ H]. lia.
    + apply (iv_ok _ _ HI); [done| |done]. unfold valid in *. congruence.
  - intros x Hx. apply HF; [lia|]. intros ->. lia.
Qed.

Lemma calc_below r s st :
  exists_sym st s → (rank s < r)%nat → Inv r st →
  ∃ st', sym_calc_value s st = Ret st' ∧ out r st st' ∧ valid st' s.
Proof.
  revert s st. induction (lt_wf r) as [r _ IH]. intros s st He Hs HI.
  destruct (has SYMBOL_VALID (ks st s)) eqn:Hv.
  { exists st. split_and!; [by apply calc_value_valid|by apply out_refl|done]. }
  pose proof (invalid_known _ _ Hv) as Hk.
  assert (ready s (rank s) st) as Hr.
  { constructor; [eapply Inv_weaken; [|done]; lia|done|]. intros E. pose proof (iv_mod _ _ HI) as Hm.
    unfold valid in Hm. rewrite <- E in Hm. congruence. }
  rewrite calc_value_eq. unfold calc_body. rewrite Hv.
  assert (sym_is_choice_value st s = false) as -> by (by eapply ready_plain).
  cbn [andb mbind result_bind].
  destruct (own_upd s (rank s) eq_refl (raise SYMBOL_VALID) st Hr) as [R1 K1];
    [apply core_valid_raise|].
  destruct (calc_valid_ok s (rank s) eq_refl (IH (rank s) Hs) (upd s (raise SYMBOL_VALID) st))
    as (st' & E & R & Hv' & Hd); [by eapply reach_ready|by rewrite K1; apply has_raise_same|].
  exists st'. split_and!; [done| |done]. apply (reach_out r s); [done|done| | |done].
  - unfold valid. congruence.
  - by eapply reach_trans.
Qed.

(** The symbol table of a configuration without choices whose dependencies
    have no cycle; what is calculated is as described. *)
Definition consistent (st : state) : Prop :=
  (∀ s, known st s → wf_sym st s (ks st s)) ∧ valid st (modules st) ∧
  (∀ s, known st s → valid st s → described st (ks st s)).
End acyclic.
End KconfigSymCalc.
