(* ===== verification/KconfigSymOrder.v ===== *)
(** * Kconfig symbol values: results that do not depend on the order

    The description of KconfigSymSpec has at most one solution, so that two
    tables that follow it agree wherever both are calculated.  With the
    calculation of KconfigSymCalc: every order of calls gives the same
    values, and expressions over calculated symbols have the values that
    [expr_calc_value] of KconfigExpr gives them. *)

From S2P Require Import Prelude CLib KconfigExpr KconfigSimp KconfigSym KconfigSymProps KconfigSymSpec.
From S2P Require Import KconfigSymCalc.
Open Scope Z_scope.

Module KconfigSymOrder.
Import KconfigExpr KconfigSimp KconfigSym KconfigSymProps KconfigSymSpec KconfigSymCalc.

(** ** At most one solution *)

Definition oeq {A} (o1 o2 : option A) : Prop := ∀ v1 v2, o1 = Some v1 → o2 = Some v2 → v1 = v2.
Lemma oeq_refl {A} (o : option A) : oeq o o.
Proof. unfold oeq. congruence. Qed.
Lemma oeq_bind {A B} (o1 o2 : option A) (k1 k2 : A → option B) :
  oeq o1 o2 → (∀ a, o1 = Some a → o2 = Some a → oeq (k1 a) (k2 a)) → oeq (o1 ≫= k1) (o2 ≫= k2).
Proof.
  intros Ho Hk v1 v2. destruct o1 as [a|], o2 as [b|]; try done. simpl.
  assert (a = b) as <- by (by apply Ho). by apply Hk.
Qed.
Lemma oeq_fmap {A B} (f : A → B) (o1 o2 : option A) : oeq o1 o2 → oeq (f <$> o1) (f <$> o2).
Proof.
  intros Ho v1 v2. destruct o1 as [a|], o2 as [b|]; try done. simpl.
  assert (a = b) as <- by (by apply Ho). congruence.
Qed.

Section acyclic.
Context {RK : Ranking}.

Section agree.
Context (r : nat) (st1 st2 : state).
Context (Hmod : modules st2 = modules st1) (Hmv : modules_val st2 = modules_val st1).
Context (Htype : ∀ x, k_type (ks st2 x) = k_type (ks st1 x)).
Context (Hcurr : ∀ x, (rank x < r)%nat ∨ x = modules st1 → valid st1 x → valid st2 x →
  k_curr (ks st2 x) = k_curr (ks st1 x)).

(** A read of one symbol: what follows sees the type and the value only. *)
Lemma get_agree {B} d (f1 f2 : ksym → option B) :
  (rank d < r)%nat ∨ d = modules st1 →
  (∀ k1 k2, k_type k2 = k_type k1 → k_curr k2 = k_curr k1 → oeq (f1 k1) (f2 k2)) →
  oeq (get st1 d ≫= f1) (get st2 d ≫= f2).
Proof.
  intros Hd Hf. unfold get.
  destruct (has SYMBOL_VALID (ks st1 d)) eqn:V1; [|by intros ? ?].
  destruct (has SYMBOL_VALID (ks st2 d)) eqn:V2; [|by intros ? ?]. simpl. apply Hf; auto.
Qed.

Lemma text_agree d : (rank d < r)%nat → oeq (text_spec st1 d) (text_spec st2 d).
Proof.
  intros Hd. unfold text_spec. rewrite Hmod. apply get_agree; [auto|]. intros k1 k2 Ht Hc.
  rewrite Ht, Hc. destruct (k_type k1); try apply oeq_refl.
  all: destruct (v_tri (k_curr k1)); try apply oeq_refl.
  all: apply get_agree; [auto|]; intros m1 m2 _ Hm; rewrite Hm; apply oeq_refl.
Qed.
Lemma eval_agree e :
  Forall (λ d, (rank d < r)%nat) (expr_syms e) → oeq (eval_spec st1 e) (eval_spec st2 e).
Proof.
  induction e; intros Hd; cbn [eval_spec expr_syms] in *; try apply oeq_refl.
  - apply Forall_app in Hd as [? ?].
    apply oeq_bind; [auto|intros ? _ _]. apply oeq_bind; [auto|intros ? _ _]. apply oeq_refl.
  - apply oeq_bind; [auto|intros ? _ _]. apply oeq_refl.
  - apply Forall_cons in Hd as [? Hd]. apply Forall_cons in Hd as [? _]. rewrite !Htype.
    apply oeq_bind; [by apply text_agree|intros ? _ _].
    apply oeq_bind; [by apply text_agree|intros ? _ _]. apply oeq_refl.
  - apply Forall_cons in Hd as [? _]. apply get_agree; [auto|]. intros k1 k2 _ ->. apply oeq_refl.
Qed.
Lemma first_active_agree t l :
  read_type t = true → below r l → oeq (first_active st1 t l) (first_active st2 t l).
Proof.
  intros Ht. induction l as [|p l IH]; intros Hl; cbn [first_active]; [apply oeq_refl|].
  apply below_cons in Hl as (Hv & _ & ?). destruct (decide (p_type p = t)) as [Hp|]; [|auto].
  apply oeq_bind; [apply eval_agree, Hv; by rewrite Hp, Ht, orb_true_r|intros v _ _].
  case_decide; [auto|apply oeq_refl].
Qed.
Lemma prompts_agree l : below r l → oeq (prompts_spec st1 l) (prompts_spec st2 l).
Proof.
  induction l as [|p l IH]; intros Hl; cbn [prompts_spec]; [apply oeq_refl|].
  apply below_cons in Hl as (Hv & _ & ?). destruct (p_text p); [|auto].
  apply oeq_bind; [by apply eval_agree, Hv|intros v _ _].
  apply oeq_bind; [auto|intros w _ _]. apply oeq_refl.
Qed.

(** Two records of one symbol. *)
Context (k1 k2 : ksym) (Hcore : core marks k1 k2) (Hdeps : Forall (λ d, (rank d < r)%nat) (deps k1)).

Lemma boolean_agree : boolean st2 k2 = boolean st1 k1.
Proof. unfold boolean. by rewrite Hmv, (co_type _ _ _ Hcore). Qed.
Lemma vis_agree : oeq (vis_spec st1 k1) (vis_spec st2 k2).
Proof.
  unfold vis_spec, no_modules. rewrite Hmv, (co_type _ _ _ Hcore), (co_props _ _ _ Hcore).
  apply oeq_fmap, prompts_agree. by apply deps_below in Hdeps as (_ & _ & _ & ?).
Qed.
Lemma dep_agree e d :
  Forall (λ d, (rank d < r)%nat) (expr_syms e) → oeq (dep_spec st1 k1 e d) (dep_spec st2 k2 e d).
Proof.
  intros He. unfold dep_spec. rewrite boolean_agree. pose proof (eval_agree e He).
  destruct e; try apply oeq_refl; by apply oeq_fmap.
Qed.

Context (Hvis : k_visible k2 = k_visible k1) (Hdir : ev_tri (k_dir k2) = ev_tri (k_dir k1)).
Context (Hrev : ev_tri (k_rev k2) = ev_tri (k_rev k1)) (Himp : ev_tri (k_imp k2) = ev_tri (k_imp k1)).

Lemma props_agree : below r (k_props k1).
Proof. by apply deps_below in Hdeps as (_ & _ & _ & ?). Qed.
Lemma tri_agree : oeq (tri_spec st1 k1) (tri_spec st2 k2).
Proof.
  unfold tri_spec, own_spec, default_spec. rewrite boolean_agree, Hvis, Hdir, Hrev, Himp.
  rewrite (co_user _ _ _ Hcore), (co_props _ _ _ Hcore), (co_flags _ _ _ Hcore SYMBOL_DEF_USER) by done.
  apply oeq_bind; [|intros ? _ _; apply oeq_refl]. case_match; [apply oeq_refl|].
  apply oeq_bind; [apply first_active_agree, props_agree; reflexivity|intros d Hd _].
  apply oeq_bind; [|intros ? _ _; apply oeq_refl]. destruct d as [[p c]|]; [|apply oeq_refl].
  apply first_active_elem in Hd as [Hp Ht].
  apply oeq_bind; [|intros ? _ _; apply oeq_refl].
  apply eval_agree, (below_elem r (k_props k1)); [apply props_agree|done|by rewrite Ht].
Qed.
Lemma own_text_agree : oeq (own_text_spec st1 k1) (own_text_spec st2 k2).
Proof.
  unfold own_text_spec. rewrite Hvis, (co_user _ _ _ Hcore), (co_props _ _ _ Hcore),
    (co_flags _ _ _ Hcore SYMBOL_DEF_USER) by done.
  case_match; [apply oeq_refl|].
  apply oeq_bind; [apply first_active_agree, props_agree; reflexivity|intros d Hd _].
  destruct d as [[p c]|]; [|apply oeq_refl]. apply first_active_elem in Hd as [Hp Ht].
  pose proof (below_elem r _ _ props_agree Hp ltac:(by rewrite Ht)) as Hb. destruct (p_expr p); try apply oeq_refl.
  apply Forall_cons in Hb as [? _]. apply get_agree; [auto|]. intros ? ? _ ->. apply oeq_refl.
Qed.
Lemma bound_agree base d : (rank d < r)%nat → oeq (bound_spec st1 base d) (bound_spec st2 base d).
Proof. intros Hd. apply get_agree; [auto|]. intros ? ? -> ->. apply oeq_refl. Qed.
Lemma in_range_agree t : oeq (in_range_spec st1 k1 t) (in_range_spec st2 k2 t).
Proof.
  unfold in_range_spec. rewrite (co_type _ _ _ Hcore), (co_props _ _ _ Hcore).
  destruct (k_type k1); try apply oeq_refl.
  all: apply oeq_bind; [apply first_active_agree, props_agree; reflexivity|intros d Hd _].
  all: destruct d as [[p c]|]; [|apply oeq_refl]; apply first_active_elem in Hd as [Hp Ht].
  all: pose proof (below_elem r _ _ props_agree Hp ltac:(by rewrite Ht)) as Hb; unfold clamp_spec.
  all: destruct (p_expr p); try apply oeq_refl.
  all: apply Forall_cons in Hb as [? Hb]; apply Forall_cons in Hb as [? _].
  all: apply oeq_bind; [by apply bound_agree|intros lo _ _]; case_match; [|apply oeq_refl].
  all: apply oeq_bind; [by apply bound_agree|intros hi _ _]; apply oeq_refl.
Qed.
Lemma curr_agree : oeq (curr_spec st1 k1) (curr_spec st2 k2).
Proof.
  unfold curr_spec. rewrite (co_type _ _ _ Hcore), (co_name _ _ _ Hcore).
  destruct (k_type k1); try apply oeq_refl.
  1,2: apply oeq_bind; [apply tri_agree|intros ? _ _]; apply oeq_refl.
  all: apply oeq_bind; [apply own_text_agree|intros t _ _];
    apply oeq_bind; [apply in_range_agree|intros ? _ _]; apply oeq_refl.
Qed.
End agree.

(** The calculated fields. *)
Definition same_values (k1 k2 : ksym) : Prop :=
  k_curr k2 = k_curr k1 ∧
  (k_type k1 ≠ S_UNKNOWN →
   k_visible k2 = k_visible k1 ∧ ev_tri (k_dir k2) = ev_tri (k_dir k1) ∧
   ev_tri (k_rev k2) = ev_tri (k_rev k1) ∧ ev_tri (k_imp k2) = ev_tri (k_imp k1)).

Lemma described_agree r st1 st2 k1 k2 :
  modules st2 = modules st1 → modules_val st2 = modules_val st1 →
  (∀ x, k_type (ks st2 x) = k_type (ks st1 x)) →
  (∀ x, (rank x < r)%nat ∨ x = modules st1 → valid st1 x → valid st2 x →
     k_curr (ks st2 x) = k_curr (ks st1 x)) →
  core marks k1 k2 → Forall (λ d, (rank d < r)%nat) (deps k1) →
  described st1 k1 → described st2 k2 → same_values k1 k2.
Proof.
  intros Hm Hmv Ht Hc Hcore Hd [V1 D1 R1 I1 C1] [V2 D2 R2 I2 C2].
  destruct (decide (k_type k1 = S_UNKNOWN)) as [Eu|Eu].
  { split; [|done]. unfold curr_spec in *. rewrite (co_type _ _ _ Hcore), (co_name _ _ _ Hcore), Eu in C2.
    rewrite Eu in C1. congruence. }
  pose proof (deps_below r k1 Hd) as (B1 & B2 & B3 & _).
  pose proof (co_type _ _ _ Hcore) as Et. rewrite Et in *.
  rewrite (co_dir _ _ _ Hcore) in D2. rewrite (co_rev _ _ _ Hcore) in R2.
  rewrite (co_imp _ _ _ Hcore) in I2.
  assert (k_visible k2 = k_visible k1) as Ev
    by (symmetry; eapply (vis_agree r st1 st2 Hm Hmv Ht Hc k1 k2 Hcore Hd); auto).
  assert (∀ e d v1 v2, Forall (λ d, (rank d < r)%nat) (expr_syms e) → dep_spec st1 k1 e d = Some v1 →
            dep_spec st2 k2 e d = Some v2 → v2 = v1) as Hdep.
  { intros e d v1 v2 He E1 E2. symmetry.
    by apply (dep_agree r st1 st2 Hm Hmv Ht Hc k1 k2 Hcore e d He). }
  assert (ev_tri (k_dir k2) = ev_tri (k_dir k1)) as Ed by eauto.
  assert (ev_tri (k_rev k2) = ev_tri (k_rev k1)) as Er by eauto.
  assert (ev_tri (k_imp k2) = ev_tri (k_imp k1)) as Ei by eauto.
  split; [|done]. symmetry.
  by eapply (curr_agree r st1 st2 Hm Hmv Ht Hc k1 k2 Hcore Hd Ev Ed Er Ei).
Qed.

(** Two tables of one configuration. *)
Record same_table (st1 st2 : state) : Prop := {
  sa_len : length (syms st2) = length (syms st1);
  sa_mod : modules st2 = modules st1;
  sa_mval : modules_val st2 = modules_val st1;
  sa_curr : k_curr (ks st2 (modules st1)) = k_curr (ks st1 (modules st1));
  sa_core : ∀ x, core marks (ks st1 x) (ks st2 x)
}.
Lemma unknown_same st1 st2 x :
  length (syms st2) = length (syms st1) → ¬ known st1 x → ks st2 x = ks st1 x.
Proof. destruct x as [| | |n]; try done. simpl. intros E Hn. by rewrite !nth_overflow by lia. Qed.

Lemma consistent_unique st1 st2 x :
  consistent st1 → consistent st2 → same_table st1 st2 →
  known st1 x → valid st1 x → valid st2 x → same_values (ks st1 x) (ks st2 x).
Proof.
  intros (W1 & M1 & C1) (W2 & M2 & C2) [Hl Hm Hmv Hmc Hcore].
  remember (rank x) as r eqn:Hr. revert x Hr. induction (lt_wf r) as [r _ IH].
  intros x -> Hk V1 V2. apply (described_agree (rank x) st1 st2); try done.
  - intros y. apply Hcore.
  - intros y [Hy| ->] Y1 Y2; [|done].
    destruct (decide (known st1 y)) as [Hky|Hky]; [|by rewrite (unknown_same st1 st2 y)].
    by apply (IH (rank y) Hy y).
  - eapply Forall_impl; [exact (wk_deps _ _ _ (W1 x Hk))|]. by intros d [_ H].
  - by apply C1.
  - apply C2; [|done]. by apply (known_len _ _ _ Hl).
Qed.

(** ** The calculation *)

Definition top_rank (st : state) (s : symbol) : nat :=
  S (rank s + sum_list_with (λ n, rank (Sym n)) (seq 0 (length (syms st)))).
Lemma top_rank_known st s x : known st x → (rank x < top_rank st s)%nat.
Proof.
  destruct x as [| | |n]; try done. simpl. intros Hn. unfold top_rank.
  assert (n ∈ seq 0 (length (syms st))) as Hin by (apply elem_of_seq; lia).
  apply list_elem_of_split in Hin as (l1 & l2 & ->).
  rewrite sum_list_with_app. simpl. lia.
Qed.
Lemma consistent_Inv st r : consistent st → Inv r st.
Proof. intros (Hw & Hm & Hd). constructor; auto. Qed.

Lemma calc_consistent st s :
  consistent st → exists_sym st s →
  ∃ st', sym_calc_value s st = Ret st' ∧ consistent st' ∧ valid st' s ∧
         (∀ x, valid st x → ks st' x = ks st x) ∧ same_table st st'.
Proof.
  intros Hc He.
  destruct (calc_below (top_rank st s) s st) as (st' & R & [HI HE HF] & V);
    [done|unfold top_rank; lia|by apply consistent_Inv|].
  assert (∀ x, valid st x → ks st' x = ks st x) as Hval.
  { intros x Hx. destruct (decide (rank x < top_rank st s)%nat);
      [by apply (ex_valid _ _ _ HE); auto|]. apply HF. lia. }
  exists st'. split_and!; [done| |done|done|].
  - split_and!; [apply HI|apply HI|]. intros x Hk Hv. apply (iv_ok _ _ HI); [done|done|].
    apply top_rank_known. by apply (known_len _ _ _ (ex_len _ _ _ HE)).
  - destruct HE. constructor; try done. f_equal. by apply Hval, Hc.
Qed.

Lemma same_table_refl st : same_table st st.
Proof. by constructor. Qed.
Lemma same_table_sym st1 st2 : same_table st1 st2 → same_table st2 st1.
Proof.
  intros [L M V C H]. constructor; try congruence. intros x. destruct (H x).
  constructor; try congruence. intros b Hb. symmetry. auto.
Qed.
Lemma same_table_trans st1 st2 st3 : same_table st1 st2 → same_table st2 st3 → same_table st1 st3.
Proof.
  intros [L M V C H] [L' M' V' C' H']. constructor; try congruence.
  intros x. eapply core_trans; [apply H|apply H'].
Qed.

(** Symbols calculated one after the other, as [conf_read] and [conf_write] do. *)
Fixpoint calc_list (l : list symbol) (st : state) : result state :=
  match l with
  | [] => Ret st
  | s :: l => st ← sym_calc_value s st; calc_list l st
  end.
Lemma calc_list_consistent l st :
  consistent st → Forall (exists_sym st) l →
  ∃ st', calc_list l st = Ret st' ∧ consistent st' ∧ same_table st st' ∧
         (∀ x, valid st x ∨ x ∈ l → valid st' x) ∧ (∀ x, valid st x → ks st' x = ks st x).
Proof.
  revert st. induction l as [|s l IH]; intros st Hc He; cbn [calc_list].
  { exists st. split_and!; [done|done|apply same_table_refl| |done]. intros x [?|H]; [done|by apply elem_of_nil in H]. }
  apply Forall_cons in He as [He Hl].
  destruct (calc_consistent st s Hc He) as (st1 & R1 & C1 & V1 & F1 & T1).
  rewrite R1. cbn [mbind result_bind].
  destruct (IH st1 C1) as (st2 & R2 & C2 & T2 & V2 & F2).
  { eapply Forall_impl; [exact Hl|]. intros x. destruct x; simpl; [done..|]. by rewrite (sa_len _ _ T1). }
  exists st2. split_and!; [done|done|by eapply same_table_trans| |].
  - intros x [Hx|[-> |Hx]%elem_of_cons]; apply V2; [left|by left|by right].
    unfold valid. by rewrite F1.
  - intros x Hx. rewrite F2; [by apply F1|]. unfold valid. by rewrite F1.
Qed.

(** ** Expressions over calculated symbols *)

Lemma text_spec_pure st s t :
  text_spec st s = Some t → t = @sym_get_string_value (tab_of st) s.
Proof.
  intros E. unfold sym_get_string_value.
  destruct (tab_of_sym st s) as (-> & -> & ->).
  change (@modules_sym (tab_of st)) with (modules st).
  destruct (tab_of_sym st (modules st)) as (_ & -> & _).
  unfold text_spec, get, tri in *. destruct (has SYMBOL_VALID (ks st s)); [|done].
  cbn [mbind option_bind] in E. unfold to_data, kval_text in *. simpl.
  destruct (k_type (ks st s)).
  2,3: destruct (v_tri (k_curr (ks st s))); try congruence;
       destruct (has SYMBOL_VALID (ks st (modules st))); [|done]; simpl in E; congruence.
  all: by destruct (v_val (k_curr (ks st s))); simplify_eq.
Qed.
Lemma eval_spec_pure st e v : eval_spec st e = Some v → v = @expr_calc_value (tab_of st) e.
Proof.
  revert v. induction e; intros v E; cbn [eval_spec] in E; try (injection E as <-; done).
  - apply bind_Some in E as (v1 & E1 & E). apply bind_Some in E as (v2 & E2 & E). injection E as <-.
    rewrite (IHe1 _ E1), (IHe2 _ E2). by destruct t.
  - apply bind_Some in E as (v1 & E1 & E). injection E as <-. by rewrite (IHe _ E1).
  - apply bind_Some in E as (x & E1 & E). apply bind_Some in E as (y & E2 & E). injection E as <-.
    apply text_spec_pure in E1 as ->, E2 as ->. simpl. unfold calc_res.
    by destruct (tab_of_sym st left) as (-> & _), (tab_of_sym st right) as (-> & _).
  - apply bind_Some in E as (k & E1 & E). injection E as <-. unfold get in E1.
    destruct (has SYMBOL_VALID (ks st left)); [|done]. injection E1 as <-.
    destruct (tab_of_sym st left) as (_ & Et & _). symmetry. exact Et.
Qed.

Lemma eval_pure st e :
  consistent st → Forall (λ d, exists_sym st d ∧ valid st d) (expr_syms e) →
  eval sym_calc_value e st = Ret (@expr_calc_value (tab_of st) e, st).
Proof.
  intros Hc He.
  assert (∃ v, eval sym_calc_value e st = Ret (v, st) ∧ eval_spec st e = Some v) as (v & -> & E).
  2: { by rewrite (eval_spec_pure st e v E). }
  induction e; cbn [eval eval_spec expr_syms] in *; try by eexists.
  - apply Forall_app in He as [H1 H2]. destruct (IHe1 H1) as (v1 & R1 & S1), (IHe2 H2) as (v2 & R2 & S2).
    exists (tri_op t v1 v2). split; [|by rewrite S1; simpl; rewrite S2].
    by destruct t; rewrite R1; simpl; rewrite R2.
  - destruct (IHe He) as (v1 & R1 & S1). exists (EXPR_NOT v1). by rewrite R1, S1.
  - apply Forall_cons in He as [[Ha Va] He]. apply Forall_cons in He as [[Hb Vb] _].
    set (r := S (rank left + rank right)).
    destruct (text_value_ok r st left) as (x & Rx & Sx);
      [by apply consistent_Inv|done|unfold r; lia|done|].
    destruct (text_value_ok r st right) as (y & Ry & Sy);
      [by apply consistent_Inv|done|unfold r; lia|done|].
    rewrite (calc_value_valid left st Va). simpl. rewrite (calc_value_valid right st Vb). simpl.
    rewrite Rx. simpl. rewrite Ry. simpl. eexists. split; [done|]. rewrite Sx. simpl. by rewrite Sy.
  - apply Forall_cons in He as [[Ha Va] _]. rewrite (calc_value_valid left st Va). simpl.
    eexists. split; [done|]. unfold get. by rewrite Va.
Qed.
End acyclic.

(** The ranking of the small configuration of KconfigSymProps. *)
Definition demo_ranking : Ranking :=
  {| rank := λ s, match s with Sym 1 => 1 | Sym 2 => 2 | Sym 3 => 2 | Sym 4 => 3 | Sym 0 => 1 | _ => 0 end%nat |}.
Lemma demo_consistent : @consistent demo_ranking Demo.ready8.
Proof.
  split; [|split; [reflexivity|]].
  - intros [| | |n] Hn; [destruct Hn..|].
    do 8 (destruct n as [|n];
      [constructor; [reflexivity|done|
         intros T U; first [discriminate U|by destruct T as [T|[T|T]]]| |]; cbv;
       repeat (apply Forall_cons_2 || apply Forall_nil_2); (split; [done || lia|done || lia])|]).
    simpl in Hn. lia.
  - intros [| | |n] Hn; [destruct Hn..|]. intros Hv.
    destruct n as [|n]; [constructor; done|].
    do 7 (destruct n as [|n]; [discriminate Hv|]). simpl in Hn. lia.
Qed.

(** ** Results *)

(** C18: [sym_calc_value] implements the description of symbol values: in a
    table without choices whose dependencies have no cycle, and whose
    calculated symbols are as described, the calculation of any symbol
    returns, marks the symbol valid, leaves the symbols that were valid as
    they are, and every symbol it has calculated on the way, the symbol
    itself included, has the visibility, the dependency values and the value
    (user value, default, implication, selection, range) that the
    description gives in the resulting table. *)
Theorem calc_value_described `{Ranking} st s :
  consistent st → exists_sym st s →
  ∃ st', sym_calc_value s st = Ret st' ∧ consistent st' ∧ valid st' s ∧
         (∀ x, valid st x → ks st' x = ks st x).
Proof.
  intros Hc He. destruct (calc_consistent st s Hc He) as (st' & R & C & V & F & _). eauto 10.
Qed.
Lemma calc_value_described_witness :
  ∃ st', sym_calc_value (Sym 4) Demo.ready8 = Ret st' ∧ @consistent demo_ranking st' ∧
         valid st' (Sym 4).
Proof.
  destruct (@calc_value_described demo_ranking Demo.ready8 (Sym 4) demo_consistent)
    as (st' & R & C & V & _); [vm_compute; lia|].
  exists st'. split; [exact R|split; [exact C|exact V]].
Defined.

(** The order in which symbols are calculated does not matter: with no
    choices and no cycles, calculating a list of symbols in two orders
    returns both times, and gives every symbol of the list the same value,
    visibility and dependency values. *)
Theorem calc_order `{Ranking} st l1 l2 :
  consistent st → Forall (exists_sym st) l1 → l1 ≡ₚ l2 →
  ∃ st1 st2, calc_list l1 st = Ret st1 ∧ calc_list l2 st = Ret st2 ∧
    ∀ s, s ∈ l1 → same_values (ks st1 s) (ks st2 s).
Proof.
  intros Hc H1 Hp. assert (Forall (exists_sym st) l2) as H2 by (by rewrite <- Hp).
  destruct (calc_list_consistent l1 st Hc H1) as (st1 & R1 & C1 & T1 & V1 & _).
  destruct (calc_list_consistent l2 st Hc H2) as (st2 & R2 & C2 & T2 & V2 & _).
  assert (same_table st1 st2) as T.
  { eapply same_table_trans; [by apply same_table_sym|done]. }
  exists st1, st2. split_and!; [done..|]. intros s Hs.
  destruct (decide (known st1 s)) as [Hk|Hk].
  - apply consistent_unique; auto. apply V2. right. by rewrite <- Hp.
  - by rewrite (unknown_same st1 st2 s (sa_len _ _ T) Hk).
Qed.
Lemma calc_order_witness :
  ∃ st1 st2, calc_list [Sym 1; Sym 2; Sym 4] Demo.ready8 = Ret st1 ∧
    calc_list [Sym 4; Sym 1; Sym 2] Demo.ready8 = Ret st2 ∧
    ∀ s, s ∈ [Sym 1; Sym 2; Sym 4] → same_values (ks st1 s) (ks st2 s).
Proof.
  apply (@calc_order demo_ranking); [exact demo_consistent|vm_compute; repeat constructor; lia|].
  apply (bool_decide_unpack _). vm_compute. exact I.
Defined.

(** Over calculated symbols [expr_calc_value] is a pure function of the
    table: the evaluation, which calculates the symbols it meets, returns,
    leaves the table as it is and gives the value that the evaluation of
    KconfigExpr (on which the simplifier's theorems rest) gives in the table
    of current values. *)
Theorem eval_calculated `{Ranking} st e :
  consistent st → Forall (λ d, exists_sym st d ∧ valid st d) (expr_syms e) →
  eval sym_calc_value e st = Ret (@expr_calc_value (tab_of st) e, st).
Proof. apply eval_pure. Qed.
Lemma eval_calculated_witness :
  let e := BIN AND (SYMBOL (Sym 0)) (COMP UNEQUAL (Sym 0) symbol_no) in
  eval sym_calc_value e Demo.ready8 = Ret (@expr_calc_value (tab_of Demo.ready8) e, Demo.ready8).
Proof.
  cbv zeta. apply (@eval_calculated demo_ranking); [exact demo_consistent|].
  vm_compute. repeat constructor; lia.
Defined.
End KconfigSymOrder.
