(* ===== verification/KconfigChoice.v ===== *)
(** * Kconfig symbol values: dependencies, selections and choices

    What holds of the value of a boolean or tristate in any table, with
    cycles of dependencies and with choices: a selected symbol is at least
    what selects it, unless its own dependencies are not met; the user's
    value counts as far as the symbol is visible; of the values of a choice
    at most one is y. *)

From S2P Require Import Prelude CLib KconfigExpr KconfigSimp KconfigSym KconfigSymProps KconfigSymSpec.
From S2P Require Import KconfigSymCalc.
Open Scope Z_scope.

Module KconfigChoice.
Import KconfigExpr KconfigSimp KconfigSym KconfigSymProps KconfigSymSpec KconfigSymCalc.

Section value.
Context (s : symbol).

Lemma calc_keeps_framed st0 x s' st :
  framed st0 x st → keeps True (framed st0 x) id (sym_calc_value s' st).
Proof.
  intros HF. destruct (sym_calc_value s' st) eqn:E; [|done]. simpl. by eapply calc_framed.
Qed.
Lemma framed_refl st : guarded st s → framed st s st.
Proof. by constructor. Qed.

(** An evaluation leaves a guarded symbol as it is. *)
Lemma eval_guarded e st v st' :
  guarded st s → eval sym_calc_value e st = Ret (v, st') → guarded st' s ∧ ks st' s = ks st s.
Proof.
  intros HG E. pose proof (eval_keeps True sym_calc_value _ (calc_keeps_framed st s) e st
    (framed_refl _ HG)) as HK. rewrite E in HK. by destruct HK.
Qed.
Lemma active_guarded t l st o st' :
  guarded st s → active_prop sym_calc_value t l st = Ret (o, st') →
  guarded st' s ∧ ks st' s = ks st s.
Proof.
  intros HG E. pose proof (active_prop_keeps True sym_calc_value _ (calc_keeps_framed st s) t l st
    (framed_refl _ HG)) as HK. rewrite E in HK. by destruct HK.
Qed.
Lemma eval_and_guarded e t st v st' :
  guarded st s → eval_and sym_calc_value e t st = Ret (v, st') → guarded st' s ∧ ks st' s = ks st s.
Proof.
  intros HG E. pose proof (eval_and_keeps True sym_calc_value _ (calc_keeps_framed st s) e t st
    (framed_refl _ HG)) as HK. rewrite E in HK. by destruct HK.
Qed.

(** Own updates of [s] that leave its marks alone. *)
Lemma guarded_upd f st :
  (∀ k, k_props (f k) = k_props k ∧ has SYMBOL_VALID (f k) = has SYMBOL_VALID k ∧
        has SYMBOL_NEED_SET_CHOICE_VALUES (f k) = has SYMBOL_NEED_SET_CHOICE_VALUES k) →
  guarded st s → guarded (upd s f st) s.
Proof.
  intros Hf [Hkn Hv Hl]. assert (∀ k, k_props (f k) = k_props k) as Hp by apply Hf.
  assert (∀ x, has SYMBOL_VALID (ks (upd s f st) x) = has SYMBOL_VALID (ks st x) ∧
    has SYMBOL_NEED_SET_CHOICE_VALUES (ks (upd s f st) x) =
    has SYMBOL_NEED_SET_CHOICE_VALUES (ks st x)) as Hx.
  { intros x. rewrite ks_upd. case_decide; [|done]. apply Hf. }
  constructor; [by rewrite known_upd|by rewrite (proj1 (Hx s))|]. intros x Hm. rewrite member_upd in Hm by done.
  destruct (Hx x) as [-> ->]. auto.
Qed.

(** The value is only dressed: [flagged] is [dressed] with the value kept. *)
Definition flagged (k k' : ksym) : Prop := dressed k k' ∧ k_curr k' = k_curr k.
Lemma flagged_refl k : flagged k k.
Proof. split; [apply dressed_refl|done]. Qed.
Lemma flagged_trans k1 k2 k3 : flagged k1 k2 → flagged k2 k3 → flagged k1 k3.
Proof. intros [D1 C1] [D2 C2]. split; [by eapply dressed_trans|congruence]. Qed.
Lemma flagged_raise k : flagged k (raise SYMBOL_WRITE k).
Proof. split; [apply dressed_raise|done]. Qed.
Lemma flagged_lower k : flagged k (lower SYMBOL_WRITE k).
Proof. split; [apply dressed_lower|done]. Qed.

Definition kept (st st' : state) : Prop := guarded st' s ∧ flagged (ks st s) (ks st' s).
Lemma held_refl st : guarded st s → kept st st.
Proof. intros. split; [done|apply flagged_refl]. Qed.
Lemma held_trans st1 st2 st3 : kept st1 st2 → kept st2 st3 → kept st1 st3.
Proof. intros [_ F1] [G F2]. split; [done|by eapply flagged_trans]. Qed.
Lemma kept_same st st' : guarded st' s ∧ ks st' s = ks st s → kept st st'.
Proof. intros [? E]. split; [done|]. rewrite E. apply flagged_refl. Qed.
Lemma kept_raise st : guarded st s → kept st (upd s (raise SYMBOL_WRITE) st).
Proof.
  intros HG. split.
  - apply guarded_upd; [|done]. intros k. split_and!; [done| |]; by apply has_raise_disj.
  - rewrite ks_upd. case_decide; [apply flagged_raise|apply flagged_refl].
Qed.

Lemma kept_lower st : guarded st s → kept st (upd s (lower SYMBOL_WRITE) st).
Proof.
  intros HG. split.
  - apply guarded_upd; [|done]. intros k. split_and!; [done| |]; by apply has_lower_disj.
  - rewrite ks_upd. case_decide; [apply flagged_lower|apply flagged_refl].
Qed.
Lemma dressed_upd f st : (∀ k, dressed k (f k)) → dressed (ks st s) (ks (upd s f st) s).
Proof. intros Hf. rewrite ks_upd. case_decide; [apply Hf|apply dressed_refl]. Qed.

Lemma default_kept st v st' :
  guarded st s → default_tri sym_calc_value s st = Ret (v, st') → kept st st'.
Proof.
  intros HG E. unfold default_tri in E.
  set (st1 := if decide (ev_tri (k_rev (ks st s)) = no) then st else upd s (raise SYMBOL_WRITE) st) in E.
  assert (kept st st1) as H1 by (subst st1; case_decide; auto using held_refl, kept_raise).
  clearbody st1. eapply held_trans; [exact H1|]. destruct (sym_is_choice st1 s).
  { injection E as <- <-. apply held_refl, H1. }
  apply bind_ret_inv in E as ([o st2] & E2 & E). apply active_guarded in E2 as H2; [|apply H1].
  apply kept_same in H2. apply bind_ret_inv in E as ([w st3] & E3 & E).
  assert (kept st2 st3) as H3.
  { destruct o as [[p c]|]; [|injection E3 as _ <-; apply held_refl, H2].
    pose proof (kept_raise st2 (proj1 H2)) as HR. eapply held_trans; [exact HR|].
    apply kept_same. eapply eval_and_guarded; [apply HR|exact E3]. }
  eapply held_trans; [exact H2|]. eapply held_trans; [exact H3|]. case_decide.
  - injection E as <- <-. apply held_refl, H3.
  - injection E as <- <-. apply kept_raise, H3.
Qed.

(** The value the code computes, [v0] standing for what the defaults give. *)
Definition chosen (st : state) (c : symbol) : tristate :=
  if decide (v_val (k_curr (ks st c)) = VSym s) then yes else no.
Lemma new_tri_kept st v st' :
  guarded st s → new_tri sym_calc_value s st = Ret (v, st') →
  kept st st' ∧ ∃ v0,
    v = promote (bool_decide (sym_get_type st' s = S_BOOLEAN)) v0 ∧
    if sym_is_choice_value st s && bool_decide (k_visible (ks st s) = yes)
    then ∃ c, choice_of st s = Ret (Some c) ∧ v0 = chosen st' c
    else ∃ w, v0 = select_tri s w st ∧
      (k_visible (ks st s) ≠ no → sym_has_value st s = true →
       w = EXPR_AND (v_tri (k_user (ks st s))) (k_visible (ks st s))).
Proof.
  intros HG E. unfold new_tri in E. apply bind_ret_inv in E as ([v0 st1] & E1 & E).
  injection E as <- <-.
  assert (kept st st1 ∧
    if sym_is_choice_value st s && bool_decide (k_visible (ks st s) = yes)
    then ∃ c, choice_of st s = Ret (Some c) ∧ v0 = chosen st1 c
    else ∃ w, v0 = select_tri s w st ∧
      (k_visible (ks st s) ≠ no → sym_has_value st s = true →
       w = EXPR_AND (v_tri (k_user (ks st s))) (k_visible (ks st s)))) as [HK HV].
  { destruct (sym_is_choice_value st s && _).
    - apply bind_ret_inv in E1 as ([c|] & Ec & E1); [|done]. injection E1 as <- <-.
      split; [by apply held_refl|]. by exists c.
    - destruct (negb _ && _) eqn:Hu.
      + injection E1 as <- <-. split; [by apply held_refl|]. by eexists.
      + apply bind_ret_inv in E1 as ([w st2] & E2 & E1). injection E1 as <- <-.
        apply default_kept in E2; [|done]. split; [done|]. exists w.
        split; [apply select_tri_dressed, E2|]. intros Hv Hh.
        rewrite bool_decide_eq_false_2, Hh in Hu by done. done. }
  split; [done|]. exists v0. split; [by apply promote_if|done].
Qed.

(** The visibility is stored, and nothing else of [s] but the values of its
    dependencies. *)
Record seen (k k' : ksym) : Prop := {
  sn_type : k_type k' = k_type k;
  sn_flags : k_flags k' = k_flags k;
  sn_user : k_user k' = k_user k;
  sn_props : k_props k' = k_props k
}.
Lemma seen_trans k1 k2 k3 : seen k1 k2 → seen k2 k3 → seen k1 k3.
Proof. intros [] []. constructor; congruence. Qed.
Definition saw (st st' : state) : Prop := guarded st' s ∧ seen (ks st s) (ks st' s).
Lemma saw_trans st1 st2 st3 : saw st1 st2 → saw st2 st3 → saw st1 st3.
Proof. intros [_ F1] [G F2]. split; [done|by eapply seen_trans]. Qed.
Lemma saw_upd f st : (∀ k, seen k (f k)) → guarded st s → saw st (upd s f st).
Proof.
  intros Hf HG. split.
  - apply guarded_upd; [|done]. intros k. destruct (Hf k) as [_ Ef _ Ep]. unfold has. by rewrite Ef.
  - rewrite ks_upd. case_decide; [apply Hf|done].
Qed.
Lemma saw_keeps {A} (m : result (A * state)) st a st' :
  guarded st s → keeps True (framed st s) snd m → m = Ret (a, st') → saw st st'.
Proof. intros HG HK ->. destruct HK as [E _ G]. split; [done|]. simpl in E. by rewrite E. Qed.

Lemma dep_saw e d st v st' :
  guarded st s → dep_value sym_calc_value s e d st = Ret (v, st') → saw st st'.
Proof.
  intros HG. eapply saw_keeps; [done|].
  apply dep_value_keeps; [apply calc_keeps_framed|by apply framed_refl].
Qed.
Lemma visibility_saw st st' :
  guarded st s → sym_calc_visibility sym_calc_value s st = Ret st' → saw st st'.
Proof.
  intros HG E. unfold sym_calc_visibility in E.
  apply bind_ret_inv in E as (c & _ & E). apply bind_ret_inv in E as ([t st1] & E1 & E).
  assert (saw st st1) as S1.
  { eapply (saw_keeps _ _ _ _ HG); [|exact E1].
    apply prompt_visibility_keeps; [apply calc_keeps_framed|by apply framed_refl]. }
  match type of E with context [upd s (set_visible ?v) st1] =>
    pose proof (saw_upd (set_visible v) st1 ltac:(done) (proj1 S1)) as S2;
    set (st2 := upd s (set_visible v) st1) in * end.
  pose proof (saw_trans _ _ _ S1 S2) as S02. clearbody st2. destruct (sym_is_choice_value st2 s).
  { by injection E as <-. }
  apply bind_ret_inv in E as ([d st3] & E3 & E). apply dep_saw in E3; [|apply S02].
  pose proof (saw_upd (set_dir d) st3 ltac:(done) (proj1 E3)) as S4.
  apply bind_ret_inv in E as ([v st5] & E5 & E). apply dep_saw in E5; [|apply S4].
  pose proof (saw_upd (set_rev v) st5 ltac:(done) (proj1 E5)) as S6.
  apply bind_ret_inv in E as ([i st7] & E7 & E). apply dep_saw in E7; [|apply S6].
  pose proof (saw_upd (set_imp i) st7 ltac:(done) (proj1 E7)) as S8. injection E as <-.
  eauto 10 using saw_trans.
Qed.

(** The end of the calculation of a symbol that is not a choice. *)
Lemma finish_plain old t v st st' :
  known st s → has SYMBOL_CHOICE (ks st s) = false →
  has SYMBOL_NEED_SET_CHOICE_VALUES (ks st s) = false →
  k_type (ks st s) = S_BOOLEAN ∨ k_type (ks st s) = S_TRISTATE →
  finish_value sym_calc_value s old (Val t v) st = Ret st' →
  dressed (ks st s) (ks st' s) ∧ k_curr (ks st' s) = Val t v ∧ (∀ c, c ≠ s → ks st' c = ks st c) ∧
  modules st' = modules st ∧ (s ≠ modules st → modules_val st' = modules_val st).
Proof.
  intros Hk Hc Hn Hty E. unfold finish_value in E.
  set (st1 := upd s (set_curr (Val t v)) st) in E.
  assert (ks st1 s = set_curr (Val t v) (ks st s)) as K1 by (by apply ks_upd_same).
  assert (∀ c, c ≠ s → ks st1 c = ks st c) as F1 by (intros; by apply ks_upd_ne).
  assert (known st1 s) as Hk1 by (by apply known_upd).
  assert (modules st1 = modules st ∧ modules_val st1 = modules_val st) as [M1 V1]
    by (subst st1; by rewrite modules_upd, modules_val_upd). clearbody st1.
  assert (sym_is_choice st1 s = false) as Hc1 by (unfold sym_is_choice; by rewrite K1).
  rewrite Hc1 in E. cbn [andb mbind result_bind] in E.
  assert (sym_validate_range sym_calc_value s st1 = Ret st1) as Er.
  { unfold sym_validate_range. rewrite K1. simpl. by destruct Hty as [-> | ->]. }
  rewrite Er in E. cbn [mbind result_bind] in E.
  set (st2 := if decide _ then set_modules_val _ st1 else st1) in E.
  assert (∀ x, ks st2 x = ks st1 x) as K2 by (subst st2; by case_decide).
  assert (known st2 s) as Hk2 by (subst st2; by case_decide).
  assert (modules st2 = modules st ∧ (s ≠ modules st → modules_val st2 = modules_val st)) as [M2 V2].
  { subst st2. case_decide as Hd; [|done]. split; [done|]. intros Hne. destruct Hne.
    destruct Hd as [_ <-]. done. }
  clearbody st2.
  assert (sym_is_choice st2 s = false) as Hc2 by (unfold sym_is_choice; by rewrite K2, K1).
  rewrite Hc2 in E. cbn [mbind result_bind] in E.
  set (st3 := if has SYMBOL_NO_WRITE (ks st2 s) then _ else st2) in E.
  assert (modules st3 = modules st2 ∧ modules_val st3 = modules_val st2) as [M3 V3]
    by (subst st3; destruct (has SYMBOL_NO_WRITE (ks st2 s)); by rewrite ?modules_upd, ?modules_val_upd).
  assert (flagged (ks st2 s) (ks st3 s) ∧ ∀ c, c ≠ s → ks st3 c = ks st2 c) as [[D3 C3] F3].
  { subst st3. destruct (has SYMBOL_NO_WRITE (ks st2 s)); [|split; [apply flagged_refl|done]].
    rewrite ks_upd_same by done. split; [apply flagged_lower|]. intros. by apply ks_upd_ne. }
  clearbody st3. rewrite K2, K1 in D3, C3.
  assert (has SYMBOL_NEED_SET_CHOICE_VALUES (ks st3 s) = false) as Hn3
    by (by rewrite (dr_has _ _ D3)).
  rewrite Hn3 in E. injection E as <-. split_and!; [|done| |congruence|].
  - eapply dressed_trans; [apply dressed_curr|exact D3].
  - intros c Hne. by rewrite F3, K2, F1.
  - intros Hne. rewrite V3. auto.
Qed.

(** ** One calculation *)

(** A boolean or tristate that is not a choice, and whose choice, if it has
    one, is calculated. *)
Record calculable (st : state) : Prop := {
  ca_type : k_type (ks st s) = S_BOOLEAN ∨ k_type (ks st s) = S_TRISTATE;
  ca_valid : has SYMBOL_VALID (ks st s) = false;
  ca_choice : has SYMBOL_CHOICE (ks st s) = false;
  ca_need : has SYMBOL_NEED_SET_CHOICE_VALUES (ks st s) = false;
  ca_lists : ∀ c, member st c s →
    has SYMBOL_VALID (ks st c) = true ∧ has SYMBOL_NEED_SET_CHOICE_VALUES (ks st c) = false
}.
(** The value in terms of the record [k'] that the calculation leaves. *)
Definition tri_rule (st : state) (k k' : ksym) : Prop :=
  ∃ v0 b, v_tri (k_curr k') = promote b v0 ∧
    (s ≠ modules st → b = bool_decide (sym_get_type st s = S_BOOLEAN)) ∧
    if has SYMBOL_CHOICEVAL k && bool_decide (k_visible k' = yes)
    then ∃ c, choice_of st s = Ret (Some c) ∧ (c ≠ s → v0 = chosen st c)
    else ∃ w, v0 = (if decide (ev_tri (k_dir k') = no ∧ ev_tri (k_rev k') ≠ no) then no
                    else EXPR_OR w (ev_tri (k_rev k'))) ∧
      (k_visible k' ≠ no → has SYMBOL_DEF_USER k = true →
       w = EXPR_AND (v_tri (k_user k)) (k_visible k')).

Lemma choice_of_props st st' : k_props (ks st' s) = k_props (ks st s) → choice_of st' s = choice_of st s.
Proof. intros E. unfold choice_of, sym_get_choice_prop. by rewrite E. Qed.

Lemma calc_valid_tri st :
  k_type (ks st s) = S_BOOLEAN ∨ k_type (ks st s) = S_TRISTATE →
  calc_valid sym_calc_value s st =
    (st2 ← sym_calc_visibility sym_calc_value s (upd s (lower SYMBOL_WRITE) st);
     let st3 := if decide (k_visible (ks st2 s) = no) then st2 else upd s (raise SYMBOL_WRITE) st2 in
     '(v, st4) ← new_tri sym_calc_value s (upd s (set_curr (Val (VStr (cs "n")) no)) st3);
     finish_value sym_calc_value s (k_curr (ks st s)) (Val (VStr (cs "n")) v) st4).
Proof. intros Hty. unfold calc_valid. by destruct Hty as [-> | ->]. Qed.

(** The steps of a symbol that has just been marked: the state [st4] in which
    its value is decided, and the one after. *)
Lemma calc_tri_steps st st' :
  k_type (ks st s) = S_BOOLEAN ∨ k_type (ks st s) = S_TRISTATE → guarded st s →
  calc_valid sym_calc_value s st = Ret st' →
  ∃ st4 v st5, new_tri sym_calc_value s st4 = Ret (v, st5) ∧ guarded st4 s ∧
    (∀ b, SYMBOL_WRITE .& b = 0 → has b (ks st4 s) = has b (ks st s)) ∧
    k_type (ks st4 s) = k_type (ks st s) ∧ k_user (ks st4 s) = k_user (ks st s) ∧
    k_props (ks st4 s) = k_props (ks st s) ∧
    finish_value sym_calc_value s (k_curr (ks st s)) (Val (VStr (cs "n")) v) st5 = Ret st'.
Proof.
  intros Hty HG E. rewrite calc_valid_tri in E by done.
  apply bind_ret_inv in E as (st2 & E2 & E). apply bind_ret_inv in E as ([v st5] & E5 & E).
  pose proof (kept_lower st HG) as [G1 [D1 _]].
  apply visibility_saw in E2 as [G2 [Ty2 Fl2 Us2 Pr2]]; [|done].
  set (st3 := if decide (k_visible (ks st2 s) = no) then st2 else _) in E5.
  assert (kept st2 st3) as [G3 [D3 _]] by (subst st3; case_decide; auto using held_refl, kept_raise).
  clearbody st3.
  assert (dressed (ks st3 s) (ks (upd s (set_curr (Val (VStr (cs "n")) no)) st3) s)) as D4
    by (apply dressed_upd; intros; apply dressed_curr).
  pose proof (dressed_trans _ _ _ D3 D4) as D24.
  pose proof (dressed_fields _ _ D24) as (Ty4 & _ & Pr4 & Us4 & _).
  pose proof (dressed_fields _ _ D1) as (Ty1 & _ & Pr1 & Us1 & _).
  eexists _, v, st5. split; [exact E5|]. split_and!; [by apply guarded_upd| |congruence..|done].
  intros b Hb. rewrite (dr_has _ _ D24), <- (dr_has _ _ D1) by done. unfold has. by rewrite Fl2.
Qed.

Lemma calc_tri_rule st st' :
  calculable st → sym_calc_value s st = Ret st' →
  has SYMBOL_VALID (ks st' s) = true ∧
  has SYMBOL_NEED_SET_CHOICE_VALUES (ks st' s) = false ∧
  k_props (ks st' s) = k_props (ks st s) ∧ tri_rule st' (ks st s) (ks st' s).
Proof.
  intros [Hty Hv Hc Hn Hl] E. pose proof (invalid_known _ _ Hv) as Hk.
  rewrite calc_value_eq in E. unfold calc_body in E. rewrite Hv, Hn, andb_false_r in E.
  cbn [mbind result_bind] in E. set (st1 := upd s (raise SYMBOL_VALID) st) in E.
  assert (ks st1 s = raise SYMBOL_VALID (ks st s)) as K1 by (by apply ks_upd_same).
  assert (guarded st1 s) as G1.
  { constructor; [by apply known_upd|rewrite K1; by apply has_raise_same|]. intros c Hm. subst st1.
    rewrite member_upd in Hm by done. destruct (Hl c Hm). rewrite ks_upd. case_decide as Hd; [|done].
    destruct Hd as [<- _]. congruence. }
  clearbody st1. apply calc_tri_steps in E as (st4 & v & st5 & E4 & G4 & Hh & Ty & Us & Pr & E5);
    [|by rewrite K1|done].
  rewrite K1 in *. cbn [k_type k_user k_props raise set_flags] in Ty, Us, Pr.
  assert (∀ b, SYMBOL_WRITE .& b = 0 → SYMBOL_VALID .& b = 0 → has b (ks st4 s) = has b (ks st s)) as Hh'.
  { intros b B1 B2. rewrite Hh by done. by apply has_raise_disj. }
  apply new_tri_kept in E4 as ([G5 [D5 _]] & v0 & Ev & HV); [|done].
  pose proof (dressed_fields _ _ D5) as (Ty5 & Vi5 & Pr5 & _ & Di5 & Re5 & _).
  apply finish_plain in E5 as (D6 & C6 & F6 & M6 & V6);
    [|apply G5|by rewrite (dr_has _ _ D5), Hh'|by rewrite (dr_has _ _ D5), Hh'|by rewrite Ty5, Ty].
  pose proof (dressed_fields _ _ D6) as (Ty6 & Vi6 & Pr6 & _ & Di6 & Re6 & _).
  split_and!; [| |congruence|].
  - rewrite (dr_has _ _ D6), (dr_has _ _ D5) by done. apply G4.
  - by rewrite (dr_has _ _ D6), (dr_has _ _ D5), Hh'.
  - exists v0, (bool_decide (sym_get_type st5 s = S_BOOLEAN)). rewrite C6. split; [done|]. split.
    { intros Hne. rewrite M6 in Hne. unfold sym_get_type, sym_is_choice_value.
      by rewrite Ty6, Vi6, (V6 Hne), (dr_has _ _ D6). }
    unfold sym_is_choice_value, sym_has_value in HV.
    rewrite (Hh' SYMBOL_CHOICEVAL), (Hh' SYMBOL_DEF_USER) in HV by done.
    rewrite Vi6, Di6, Re6, Vi5, Di5, Re5. destruct (_ && _).
    + destruct HV as (c & Ec & ->). exists c. split.
      * rewrite <- Ec. apply choice_of_props. congruence.
      * intros Hcs. unfold chosen. by rewrite F6.
    + destruct HV as (w & -> & Hw). exists w. split; [done|]. by rewrite <- Us.
Qed.
End value.

Lemma promote_le b v : tri_val v ≤ tri_val (promote b v).
Proof. by destruct b, v. Qed.
Lemma or_le_r a b : tri_val b ≤ tri_val (EXPR_OR a b).
Proof. by destruct a, b. Qed.

(** A value of a choice that is y is the one the choice has chosen. *)
Lemma choice_value_rule s c st st' :
  calculable s st → has SYMBOL_CHOICEVAL (ks st s) = true → choice_of st s = Ret (Some c) →
  has SYMBOL_VALID (ks st c) = true → sym_calc_value s st = Ret st' → k_visible (ks st' s) = yes →
  tri st' s = yes ↔ v_val (k_curr (ks st' c)) = VSym s.
Proof.
  intros HC Hcv Hc Hvc E Hvis. destruct (calc_tri_rule s st st' HC E) as (_ & _ & Hp & v0 & b & Ev & _ & HR).
  rewrite Hcv, Hvis in HR. destruct HR as (c' & Hc' & Hv0).
  rewrite (choice_of_props s st st' Hp), Hc in Hc'. injection Hc' as <-.
  assert (c ≠ s) as Hne by (intros ->; pose proof (ca_valid _ _ HC); congruence).
  unfold tri. rewrite Ev, Hv0 by done. unfold chosen. by case_decide; destruct b.
Qed.

(** ** Examples *)
Module Demo2.
(** A choice of two values, of which the user has asked for the second. *)
Definition choice_prop : property := Prop_ P_CHOICE false NULL (LIST (LIST NULL (Sym 2)) (Sym 3)).
Definition value (n : string) : ksym :=
  KSym (Some (cs n)) S_BOOLEAN SYMBOL_CHOICEVAL (Val VNull no) (Val VNull no) no
    [Demo.prompt NULL; Prop_ P_CHOICE false NULL (SYMBOL (Sym 1))] (EVal NULL no) (EVal NULL no) (EVal NULL no).
Definition table : list ksym :=
  [ Demo.sym "MODULES" S_BOOLEAN 0 no [Prop_ P_DEFAULT false NULL (SYMBOL symbol_yes)] NULL NULL;
    KSym None S_BOOLEAN (SYMBOL_CHOICE .| SYMBOL_DEF_USER) (Val VNull no) (Val (VSym (Sym 3)) yes) no
      [Demo.prompt NULL; choice_prop] (EVal NULL no) (EVal NULL no) (EVal NULL no);
    value "SMALL"; value "LARGE" ].
Definition run (l : list symbol) : state :=
  match foldl (λ r s, st ← r; sym_calc_value s st) (Ret (State table ∅ no (Sym 0) false)) l with
  | Ret st => st
  | Fault _ => State [] ∅ no (Sym 0) false
  end.
Definition st0 : state := Eval vm_compute in run [Sym 0; Sym 1].
Definition st1 : state := Eval vm_compute in run [Sym 0; Sym 1; Sym 2].
Definition st2 : state := Eval vm_compute in run [Sym 0; Sym 1; Sym 2; Sym 3].
Example demo_choice : (tri st2 (Sym 1), tri st2 (Sym 2), tri st2 (Sym 3)) = (yes, no, yes).
Proof. reflexivity. Qed.
Definition lib : state := Eval vm_compute in
  match sym_calc_value (Sym 3) Demo.ready8 with Ret st => st | Fault _ => Demo.ready8 end.

Ltac no_lists :=
  intros [| | |c] (p & l & Hp & Hl & Hin); try discriminate Hp;
  unfold sym_get_choice_prop in Hp; simpl in Hp;
  do 8 (destruct c as [|c];
    [solve [discriminate Hp | done | injection Hp as <-; simpl in Hl; injection Hl as <-; by apply elem_of_nil in Hin]|]);
  by destruct c.
Lemma calculable_small : calculable (Sym 2) st0.
Proof. constructor; [by left|reflexivity..|no_lists]. Qed.
Lemma calculable_large : calculable (Sym 3) st1.
Proof. constructor; [by left|reflexivity..|no_lists]. Qed.
Lemma calculable_lib : calculable (Sym 3) Demo.ready8.
Proof. constructor; [by right|reflexivity..|no_lists]. Qed.
End Demo2.

(** ** Results *)

(** Selections and dependencies bound the value of a boolean or tristate
    that is no choice value, in any table (dependencies may be recursive and
    choices may be present): after its calculation the symbol is valid; if
    its own dependencies are not met it is n although it is selected (this
    repository's variant of Kconfig); otherwise it is at least what selects
    it; and where it is visible and nothing selects it, a user value counts
    up to the visibility, m becoming y at most. *)
Theorem selected_value s st st' :
  calculable s st → has SYMBOL_CHOICEVAL (ks st s) = false → sym_calc_value s st = Ret st' →
  let k' := ks st' s in let v := v_tri (k_curr k') in
  has SYMBOL_VALID k' = true ∧
  (ev_tri (k_dir k') = no → ev_tri (k_rev k') ≠ no → v = no) ∧
  (ev_tri (k_dir k') ≠ no → tri_val (ev_tri (k_rev k')) ≤ tri_val v) ∧
  (k_visible k' ≠ no → has SYMBOL_DEF_USER (ks st s) = true → ev_tri (k_rev k') = no →
   let u := EXPR_AND (v_tri (k_user (ks st s))) (k_visible k') in v = u ∨ u = mod_ ∧ v = yes).
Proof.
  intros HC Hcv E. destruct (calc_tri_rule s st st' HC E) as (Hv & _ & _ & v0 & b & Ev & _ & HR).
  rewrite Hcv in HR. simpl in HR. destruct HR as (w & -> & Hw). cbv zeta. rewrite Ev.
  split_and!; [done| | |].
  - intros Hd Hr. by rewrite decide_True.
  - intros Hd. rewrite decide_False by tauto. etrans; [apply or_le_r|apply promote_le].
  - intros Hvis Hu Hr. rewrite Hr, decide_False by tauto. rewrite (Hw Hvis Hu).
    destruct (EXPR_AND _ _), b; auto.
Qed.
Lemma selected_value_witness :
  sym_calc_value (Sym 3) Demo.ready8 = Ret Demo2.lib ∧
  tri_val (ev_tri (k_rev (ks Demo2.lib (Sym 3)))) ≤ tri_val (tri Demo2.lib (Sym 3)).
Proof.
  assert (sym_calc_value (Sym 3) Demo.ready8 = Ret Demo2.lib) as E by (vm_compute; reflexivity).
  split; [exact E|].
  destruct (selected_value (Sym 3) Demo.ready8 Demo2.lib Demo2.calculable_lib eq_refl E) as (_ & _ & H & _).
  apply H. discriminate.
Defined.

(** C21: Of the values of a choice at most one is y: once the choice is
    calculated, a visible value of it is y exactly if it is the one the
    choice has chosen, so that two values calculated one after the other are
    not both y. *)
Theorem choice_exclusive s1 s2 c st st1 st2 :
  has SYMBOL_VALID (ks st c) = true → has SYMBOL_NEED_SET_CHOICE_VALUES (ks st c) = false →
  calculable s1 st → has SYMBOL_CHOICEVAL (ks st s1) = true → choice_of st s1 = Ret (Some c) →
  sym_calc_value s1 st = Ret st1 → k_visible (ks st1 s1) = yes →
  calculable s2 st1 → has SYMBOL_CHOICEVAL (ks st1 s2) = true → choice_of st1 s2 = Ret (Some c) →
  sym_calc_value s2 st1 = Ret st2 → k_visible (ks st2 s2) = yes →
  (tri st2 s1 = yes ↔ v_val (k_curr (ks st2 c)) = VSym s1) ∧
  (tri st2 s2 = yes ↔ v_val (k_curr (ks st2 c)) = VSym s2) ∧
  (s1 ≠ s2 → tri st2 s1 = yes → tri st2 s2 = no).
Proof.
  intros Hc Hn H1 Hv1 Hc1 E1 Hy1 H2 Hv2 Hc2 E2 Hy2.
  destruct (calc_minor c st st1 s1 Hc Hn E1) as [Mc _].
  assert (has SYMBOL_VALID (ks st1 c) = true) as Hc' by (by rewrite (has_minor _ _ _ Mc)).
  assert (has SYMBOL_NEED_SET_CHOICE_VALUES (ks st1 c) = false) as Hn' by (by rewrite (has_minor _ _ _ Mc)).
  pose proof (choice_value_rule s1 c st st1 H1 Hv1 Hc1 Hc E1 Hy1) as R1.
  pose proof (choice_value_rule s2 c st1 st2 H2 Hv2 Hc2 Hc' E2 Hy2) as R2.
  destruct (calc_tri_rule s1 st st1 H1 E1) as (Hs1 & Hs2 & _).
  destruct (calc_minor s1 st1 st2 s2 Hs1 Hs2 E2) as [Ms _].
  destruct (calc_minor c st1 st2 s2 Hc' Hn' E2) as [Mc' _].
  assert (tri st2 s1 = yes ↔ v_val (k_curr (ks st2 c)) = VSym s1) as R1'.
  { unfold tri. by rewrite (mi_curr _ _ Ms), (mi_curr _ _ Mc'). }
  split_and!; [done..|]. intros Hne Hy. apply R1' in Hy.
  destruct (calc_tri_rule s2 st1 st2 H2 E2) as (_ & _ & Hp & v0 & b & Ev & _ & HR).
  rewrite Hv2, Hy2 in HR. destruct HR as (c' & Hc'' & Hv0).
  rewrite (choice_of_props s2 st1 st2 Hp), Hc2 in Hc''. injection Hc'' as <-.
  unfold tri. rewrite Ev, Hv0 by (intros ->; pose proof (ca_valid _ _ H2); congruence).
  unfold chosen. rewrite decide_False by congruence. by destruct b.
Qed.
Lemma choice_exclusive_witness :
  tri Demo2.st2 (Sym 3) = yes ↔ v_val (k_curr (ks Demo2.st2 (Sym 1))) = VSym (Sym 3).
Proof.
  assert (sym_calc_value (Sym 2) Demo2.st0 = Ret Demo2.st1) as E1 by (vm_compute; reflexivity).
  assert (sym_calc_value (Sym 3) Demo2.st1 = Ret Demo2.st2) as E2 by (vm_compute; reflexivity).
  destruct (choice_exclusive (Sym 2) (Sym 3) (Sym 1) Demo2.st0 Demo2.st1 Demo2.st2 eq_refl eq_refl
    Demo2.calculable_small eq_refl eq_refl E1 eq_refl Demo2.calculable_large eq_refl eq_refl E2 eq_refl)
    as (_ & R & _).
  exact R.
Defined.
End KconfigChoice.
