(* ===== verification/KconfigSet.v ===== *)
(** * Kconfig: setting values (scripts/config/symbol.c)

    The operations with which front ends and the reader of configuration
    files set symbols: the checks of a new value, the setting of tristates
    and texts, which makes every calculated value invalid, and the text of a
    symbol's default. *)

From S2P Require Import Prelude CLib KconfigExpr KconfigSym.
Open Scope Z_scope.

Module KconfigSet.
Import KconfigExpr KconfigSym.

Definition set_syms (l : list ksym) (st : state) : state :=
  State l (symbol_hash st) (modules_val st) (modules st) (conf_changed st).
(** [conf_set_changed] of confdata.c; the callback of the front end is not
    part of the model. *)
Definition conf_set_changed (b : bool) (st : state) : state :=
  State (syms st) (symbol_hash st) (modules_val st) (modules st) b.

Definition sym_clear_all_valid (st : state) : result state :=
  let st := conf_set_changed true (set_syms (lower SYMBOL_VALID <$> syms st) st) in
  sym_calc_value (modules st) st.

(** ** Tristates *)

Definition sym_get_tristate_value (st : state) (s : symbol) : tristate := tri st s.

Definition sym_tristate_within_range (st : state) (s : symbol) (val : tristate) : bool :=
  let type := sym_get_type st s in
  let k := ks st s in
  if decide (k_visible k = no) then false
  else if decide (type ≠ S_BOOLEAN ∧ type ≠ S_TRISTATE) then false
  else if decide (type = S_BOOLEAN ∧ val = mod_) then false
  else if tri_val (k_visible k) <=? tri_val (ev_tri (k_rev k)) then false
  else if sym_is_choice_value st s && bool_decide (k_visible k = yes) then bool_decide (val = yes)
  else (tri_val (ev_tri (k_rev k)) <=? tri_val val) && (tri_val val <=? tri_val (k_visible k)).

(** The loop over the values of a choice, which reads a symbol from every
    node of the list. *)
Fixpoint mark_values (e : expr) (st : state) : result state :=
  match e with
  | NULL => Ret st
  | LIST l d =>
      mark_values l
        (if decide (k_visible (ks st d) = no) then st else upd d (raise SYMBOL_DEF_USER) st)
  | SYMBOL _ | NOT _ | NONE | BIN _ _ NULL => Fault NullDeref
  | BIN _ _ _ | COMP _ _ _ | RANGE _ _ => Fault BadUnion
  end.

Definition sym_set_tristate_value (s : symbol) (val : tristate) (st : state) :
    result (bool * state) :=
  let oldval := sym_get_tristate_value st s in
  if negb (bool_decide (oldval = val)) && negb (sym_tristate_within_range st s val)
  then Ret (false, st)
  else
    let st := if has SYMBOL_DEF_USER (ks st s) then st else upd s (raise SYMBOL_DEF_USER) st in
    st ←
      (if sym_is_choice_value st s && bool_decide (val = yes) then
         cs ← choice_of st s;
         cs ← of_option NullDeref cs;
         let st := upd cs (λ k, raise SYMBOL_DEF_USER
                                  (set_user (Val (VSym s) (v_tri (k_user k))) k)) st in
         prop ← sym_get_choice_prop st cs;
         mark_values (p_expr prop) st
       else Ret st);
    let st := upd s (λ k, set_user (Val (v_val (k_user k)) val) k) st in
    st ← (if decide (oldval = val) then Ret st else sym_clear_all_valid st);
    Ret (true, st).

Definition next_val (t : tristate) : tristate :=
  match t with no => mod_ | mod_ => yes | yes => no end.
(** The do-while loop; [n] bounds its rounds. *)
Fixpoint toggle_loop (n : nat) (s : symbol) (oldval newval : tristate) (st : state) :
    result (tristate * state) :=
  match n with
  | O => Fault OutOfFuel
  | S n =>
      let newval := next_val newval in
      '(ok, st) ← sym_set_tristate_value s newval st;
      if (ok : bool) then Ret (newval, st)
      else if decide (oldval = newval) then Ret (newval, st)
      else toggle_loop n s oldval newval st
  end.
Definition sym_toggle_tristate_value (s : symbol) (st : state) : result (tristate * state) :=
  let oldval := sym_get_tristate_value st s in
  toggle_loop 3 s oldval oldval st.

(** ** Texts *)

Definition isdigit (c : Z) : bool := (48 <=? c) && (c <=? 57).
Definition isxdigit (c : Z) : bool := is_digit 16 c.
(** [*str]: the byte at the head of a string, 0 at its end. *)
Definition head_byte (s : list Z) : Z := match s with [] => 0 | c :: _ => c end.
Definition is_0x (s : list Z) : bool :=
  (head_byte s =? 48) && ((head_byte (tail s) =? 120) || (head_byte (tail s) =? 88)).
(** The tristate a text stands for. *)
Definition tri_of_text (s : list Z) : option tristate :=
  let c := head_byte s in
  if (c =? 121) || (c =? 89) then Some yes
  else if (c =? 109) || (c =? 77) then Some mod_
  else if (c =? 110) || (c =? 78) then Some no
  else None.

Definition int_valid (str : list Z) : bool :=
  let str := if head_byte str =? 45 then tail str else str in
  isdigit (head_byte str)
  && negb ((head_byte str =? 48) && negb (bool_decide (tail str = [])))
  && forallb isdigit (tail str).
Definition hex_valid (str : list Z) : bool :=
  let str := if is_0x str then drop 2 str else str in
  negb (bool_decide (str = [])) && forallb isxdigit str.
Definition sym_string_valid (type : symbol_type) (str : list Z) : bool :=
  match type with
  | S_STRING => true
  | S_INT => int_valid str
  | S_HEX => hex_valid str
  | S_BOOLEAN | S_TRISTATE => bool_decide (is_Some (tri_of_text str))
  | S_UNKNOWN => false
  end.

(** The second bound is not evaluated when the first is not met. *)
Definition number_within_range (s : symbol) (base : Z) (str : list Z) (st : state) :
    result (bool * state) :=
  '(prop, st) ← sym_get_range_prop sym_calc_value s st;
  match prop with
  | None => Ret (true, st)
  | Some (p, _) =>
      let val := fst (fst (strtoll str base)) in
      '(a, b) ← range_of p;
      '(lo, st) ← sym_get_range_val sym_calc_value a base st;
      if lo <=? val then
        '(hi, st) ← sym_get_range_val sym_calc_value b base st;
        Ret (val <=? hi, st)
      else Ret (false, st)
  end.
Definition sym_string_within_range (s : symbol) (str : list Z) (st : state) :
    result (bool * state) :=
  let type := k_type (ks st s) in
  match type with
  | S_STRING => Ret (sym_string_valid type str, st)
  | S_INT => if sym_string_valid type str then number_within_range s 10 str st else Ret (false, st)
  | S_HEX => if sym_string_valid type str then number_within_range s 16 str st else Ret (false, st)
  | S_BOOLEAN | S_TRISTATE =>
      Ret (match tri_of_text str with
           | Some t => sym_tristate_within_range st s t
           | None => false
           end, st)
  | S_UNKNOWN => Ret (false, st)
  end.

(** [def[S_DEF_USER].val] of a symbol that holds a text, or NULL. *)
Definition user_text (k : ksym) : result (option (list Z)) :=
  match v_val (k_user k) with
  | VNull => Ret None
  | VStr t => Ret (Some t)
  | VSym _ => Fault BadUnion
  end.
Definition sym_set_string_value (s : symbol) (newval : list Z) (st : state) :
    result (bool * state) :=
  match k_type (ks st s) with
  | S_BOOLEAN | S_TRISTATE =>
      match tri_of_text newval with
      | Some t => sym_set_tristate_value s t st
      | None => Ret (false, st)
      end
  | ty =>
      '(ok, st) ← sym_string_within_range s newval st;
      if negb ok then Ret (false, st)
      else
        let st := if has SYMBOL_DEF_USER (ks st s) then st else upd s (raise SYMBOL_DEF_USER) st in
        let store (t : list Z) : result (bool * state) :=
          st ← sym_clear_all_valid (upd s (λ k, set_user (Val (VStr t) (v_tri (k_user k))) k) st);
          Ret (true, st) in
        if bool_decide (ty = S_HEX) && negb (is_0x newval) then store (cs "0x" ++ newval)
        else
          oldval ← user_text (ks st s);
          if decide (oldval = Some newval) then Ret (true, st) else store newval
  end.

(** ** The default as a text *)

Definition sym_get_string_default (s : symbol) (st : state) : result (list Z * state) :=
  let calc := sym_calc_value in
  st ← sym_calc_visibility calc s st;
  st ← calc (modules st) st;
  '(prop, st) ← sym_get_default_prop calc s st;
  '(val, str, st) ←
    match prop with
    | None => Ret (no, VStr [], st)
    | Some (p, vt) =>
        match k_type (ks st s) with
        | S_BOOLEAN | S_TRISTATE => '(v, st) ← eval_and calc (p_expr p) vt st; Ret (v, VStr [], st)
        | _ =>
            d ← prop_get_symbol p;
            match d with
            | None => Ret (no, VStr [], st)
            | Some d => st ← calc d st; Ret (no, v_val (k_curr (ks st d)), st)
            end
        end
    end;
  let val := EXPR_OR val (ev_tri (k_rev (ks st s))) in
  let val :=
    if decide (val = mod_ ∧ sym_is_choice_value st s = false ∧ tri st (modules st) = no) then yes
    else val in
  let val := if decide (k_type (ks st s) = S_BOOLEAN ∧ val = mod_) then yes else val in
  let val := if tri_val val <? tri_val (ev_tri (k_imp (ks st s))) then ev_tri (k_imp (ks st s)) else val in
  match k_type (ks st s) with
  | S_BOOLEAN | S_TRISTATE =>
      Ret (match val with no => cs "n" | mod_ => cs "m" | yes => cs "y" end, st)
  | S_INT | S_HEX | S_STRING => t ← as_text str; Ret (t, st)
  | S_UNKNOWN => Ret ([], st)
  end.

Definition sym_is_changeable (st : state) (s : symbol) : bool :=
  tri_val (ev_tri (k_rev (ks st s))) <? tri_val (k_visible (ks st s)).
End KconfigSet.
