(* ===== verification/KconfigSetProps.v ===== *)
(** * Kconfig: setting values takes effect

    A tristate that is set and accepted has the value at its next
    calculation; toggling ends and finds the next value that is accepted;
    accepted numbers are in the form in which the code prints numbers, and a
    number that leaves the range of its symbol is moved into it. *)

From S2P Require Import Prelude CLib KconfigExpr KconfigSimp KconfigSym KconfigSymProps KconfigSymSpec.
From S2P Require Import KconfigSymCalc KconfigSymOrder KconfigChoice KconfigSet.
Open Scope Z_scope.

Module KconfigSetProps.
Import KconfigExpr KconfigSimp KconfigSym KconfigSymProps KconfigSymSpec KconfigSymCalc.
Import KconfigSymOrder KconfigChoice KconfigSet.

(** ** The user's value survives calculations *)

(** A symbol that is neither a choice nor the value of one. *)
Record ordinary (st : state) (x : symbol) : Prop := {
  or_choice : has SYMBOL_CHOICE (ks st x) = false;
  or_value : has SYMBOL_CHOICEVAL (ks st x) = false;
  or_need : has SYMBOL_NEED_SET_CHOICE_VALUES (ks st x) = false;
  or_lists : ∀ s, ¬ member st s x
}.
(** What calculations keep of it. *)
Record usual (st0 : state) (x : symbol) (st : state) : Prop := {
  us_ord : ordinary st x;
  us_type : k_type (ks st x) = k_type (ks st0 x);
  us_user : k_user (ks st x) = k_user (ks st0 x);
  us_has : has SYMBOL_DEF_USER (ks st x) = has SYMBOL_DEF_USER (ks st0 x);
  us_mod : modules st = modules st0
}.

Lemma usual_upd st0 x st s f :
  usual st0 x st → (∀ k, k_props (f k) = k_props k) →
  (s = x → ∀ k, let k' := f k in
     has SYMBOL_CHOICE k' = has SYMBOL_CHOICE k ∧ has SYMBOL_CHOICEVAL k' = has SYMBOL_CHOICEVAL k ∧
     (has SYMBOL_NEED_SET_CHOICE_VALUES k = false → has SYMBOL_NEED_SET_CHOICE_VALUES k' = false) ∧
     k_type k' = k_type k ∧ k_user k' = k_user k ∧ has SYMBOL_DEF_USER k' = has SYMBOL_DEF_USER k) →
  usual st0 x (upd s f st).
Proof.
  intros [[Hc Hv Hn Hl] Ht Hu Hh Hm] Hp Hf.
  assert (∀ k, s = x → _) as Hf' by (intros k E; exact (Hf E k)). clear Hf.
  constructor; [constructor|..]; rewrite ?modules_upd, ?ks_upd; try done.
  1-3,5-7: case_decide as Hd; [|done]; destruct Hd as [E _];
    destruct (Hf' (ks st x) E) as (H1 & H2 & H3 & H4 & H5 & H6); try congruence; by apply H3.
  intros s'. by rewrite member_upd.
Qed.

Lemma calc_usual st0 x st st' s :
  usual st0 x st → sym_calc_value s st = Ret st' → usual st0 x st'.
Proof.
  apply (calc_value_keeps (usual st0 x) (λ _, True) (λ _, True) (λ _, True) (λ s, s ≠ x) (λ d, d ≠ x));
    try done.
  - intros st1 s1 _ HU Hc ->. pose proof (or_choice _ _ (us_ord _ _ _ HU)). unfold sym_is_choice in Hc. congruence.
  - intros st1 s1 d _ HU Hm ->. by apply (or_lists _ _ (us_ord _ _ _ HU) s1).
  - intros s1 st1 _ HU. apply usual_upd; [done..|]. intros _ k. simpl.
    split_and!; try done; try by apply has_lower_disj. intros _. by apply has_lower_same.
  - intros s1 st1 _ HU. apply usual_upd; [done..|]. intros _ k. simpl.
    split_and!; try done; try by apply has_raise_disj. intros <-. by apply has_raise_disj.
  - intros s1 st1 _ HU _. by apply usual_upd.
  - intros s1 f st1 _ Hf HU. apply usual_upd; [done|intros k; apply (mi_props _ _ (ta_minor _ _ (Hf k)))|].
    intros _ k. destruct (Hf k) as [Hm Hu Hh]. simpl. rewrite !(has_minor _ _ _ Hm) by done.
    split_and!; try done. apply Hm.
  - intros s1 fl st1 _ Hs HU. by apply usual_upd.
  - intros d st1 Hd HU _. by apply usual_upd.
  - intros s1 g st1 _ HU _. by apply usual_upd.
  - intros st1 _ [[? ? ? ?] ? ? ? ?]. by repeat constructor.
  - intros s1 st1 _ HU Hn. apply usual_upd; [done..|]. intros -> k. exfalso.
    pose proof (or_need _ _ (us_ord _ _ _ HU)). congruence.
Qed.

Lemma clear_valid_ks st s :
  ks (conf_set_changed true (set_syms (lower SYMBOL_VALID <$> syms st) st)) s =
  match s with Sym n => if decide (known st s) then lower SYMBOL_VALID (ks st s) else ks st s | _ => ks st s end.
Proof.
  destruct s as [| | |n]; try done. simpl.
  rewrite (nth_lookup (lower SYMBOL_VALID <$> syms st)), list_lookup_fmap, (nth_lookup (syms st)).
  destruct (decide (n < length (syms st))%nat) as [Hn|Hn].
  - by destruct (lookup_lt_is_Some_2 _ _ Hn) as [k ->].
  - rewrite lookup_ge_None_2 by lia. done.
Qed.
Lemma clear_member st s x :
  member (conf_set_changed true (set_syms (lower SYMBOL_VALID <$> syms st) st)) s x ↔ member st s x.
Proof.
  unfold member, sym_get_choice_prop. rewrite clear_valid_ks.
  destruct s; try done. by case_decide.
Qed.
Lemma clear_usual st0 x st st' :
  usual st0 x st → sym_clear_all_valid st = Ret st' → usual st0 x st'.
Proof.
  intros [[Hc Hv Hn Hl] Ht Hu Hh Hm]. unfold sym_clear_all_valid. apply calc_usual.
  assert (∀ fl, SYMBOL_VALID .& fl = 0 →
    has fl (ks (conf_set_changed true (set_syms (lower SYMBOL_VALID <$> syms st) st)) x) =
    has fl (ks st x)) as Hfl.
  { intros fl Hfl. rewrite clear_valid_ks. destruct x; try done. case_decide; [|done].
    by apply has_lower_disj. }
  constructor; [constructor|..]; rewrite ?Hfl by done; try done.
  - intros s. by rewrite clear_member.
  - rewrite clear_valid_ks. destruct x; try done. by case_decide.
  - rewrite clear_valid_ks. destruct x; try done. by case_decide.
Qed.

(** ** Setting a tristate *)

Lemma within_range_inv st s v :
  has SYMBOL_CHOICEVAL (ks st s) = false → sym_tristate_within_range st s v = true →
  let k := ks st s in
  k_visible k ≠ no ∧ (sym_get_type st s = S_BOOLEAN → v ≠ mod_) ∧
  tri_val (ev_tri (k_rev k)) ≤ tri_val v ≤ tri_val (k_visible k).
Proof.
  intros Hcv H. unfold sym_tristate_within_range, sym_is_choice_value in H. rewrite Hcv in H.
  case_decide as D1; [done|]. case_decide as D2; [done|]. case_decide as D3; [done|].
  destruct (_ <=? _) in H; [done|]. simpl in H.
  apply andb_true_iff in H as [Hlo%Z.leb_le Hhi%Z.leb_le]. split_and!; [done| |done..]. tauto.
Qed.
Lemma and_le a b : tri_val a ≤ tri_val b → EXPR_AND a b = a.
Proof. by destruct a, b. Qed.
Lemma or_ge a b : tri_val b ≤ tri_val a → EXPR_OR a b = a.
Proof. by destruct a, b. Qed.

Lemma ordinary_usual st s f :
  ordinary st s → (∀ k, k_props (f k) = k_props k ∧ k_type (f k) = k_type k ∧
     ∀ fl, SYMBOL_DEF_USER .& fl = 0 → has fl (f k) = has fl k) → ordinary (upd s f st) s.
Proof.
  intros [Hc Hv Hn Hl] Hf. assert (∀ k, k_props (f k) = k_props k) as Hp by apply Hf.
  assert (∀ fl, SYMBOL_DEF_USER .& fl = 0 → has fl (ks (upd s f st) s) = has fl (ks st s)) as Hh.
  { intros fl Hfl. rewrite ks_upd. case_decide; [|done]. by apply Hf. }
  constructor; rewrite ?Hh by done; try done. intros s'. by rewrite member_upd.
Qed.

(** The state in which the user's value is stored, before the values become
    invalid. *)
Lemma set_accepted s v st st' :
  known st s → ordinary st s → tri st s ≠ v → sym_set_tristate_value s v st = Ret (true, st') →
  sym_tristate_within_range st s v = true ∧
  ∃ st0, sym_clear_all_valid st0 = Ret st' ∧ ordinary st0 s ∧ k_type (ks st0 s) = k_type (ks st s) ∧
    v_tri (k_user (ks st0 s)) = v ∧ has SYMBOL_DEF_USER (ks st0 s) = true ∧ modules st0 = modules st.
Proof.
  intros Hk Ho Hne E. unfold sym_set_tristate_value, sym_get_tristate_value in E.
  rewrite bool_decide_eq_false_2 in E by done. simpl in E.
  destruct (sym_tristate_within_range st s v); [|done]. split; [done|]. simpl in E.
  set (st1 := if has SYMBOL_DEF_USER (ks st s) then st else upd s (raise SYMBOL_DEF_USER) st) in E.
  assert (ordinary st1 s ∧ known st1 s ∧ modules st1 = modules st ∧
    k_type (ks st1 s) = k_type (ks st s) ∧ has SYMBOL_DEF_USER (ks st1 s) = true)
    as (O1 & Hk1 & M1 & T1 & U1).
  { subst st1. destruct (has SYMBOL_DEF_USER (ks st s)) eqn:Hu; [done|].
    split_and!; [|by apply known_upd|apply modules_upd|by rewrite ks_upd_same|].
    - apply ordinary_usual; [done|]. intros k. split_and!; [done..|]. intros fl. apply has_raise_disj.
    - rewrite ks_upd_same by done. by apply has_raise_same. }
  clearbody st1. unfold sym_is_choice_value in E. rewrite (or_value _ _ O1) in E. simpl in E.
  rewrite decide_False in E by done. apply bind_ret_inv in E as (st3 & E3 & E). injection E as <-.
  eexists. split; [exact E3|]. rewrite ks_upd_same by done.
  split_and!; [|done|done|done|by rewrite modules_upd].
  apply ordinary_usual; [done|]. by intros k.
Qed.

(** ** Toggling *)

Lemma next_cycle t : next_val (next_val (next_val t)) = t.
Proof. by destruct t. Qed.
Lemma next_ne t : t ≠ next_val t ∧ t ≠ next_val (next_val t).
Proof. by destruct t. Qed.
(** A refused value leaves the table alone; the others are accepted. *)
Lemma set_refused s v st :
  tri st s ≠ v → sym_tristate_within_range st s v = false →
  sym_set_tristate_value s v st = Ret (false, st).
Proof.
  intros Hne Hr. unfold sym_set_tristate_value, sym_get_tristate_value.
  by rewrite bool_decide_eq_false_2, Hr.
Qed.
Lemma set_true s v st :
  tri st s = v ∨ sym_tristate_within_range st s v = true →
  match sym_set_tristate_value s v st with Ret (ok, _) => ok = true | Fault _ => True end.
Proof.
  intros Hr. unfold sym_set_tristate_value, sym_get_tristate_value.
  assert (negb (bool_decide (tri st s = v)) && negb (sym_tristate_within_range st s v) = false) as ->.
  { destruct Hr as [Hr|Hr]; [by rewrite bool_decide_eq_true_2|rewrite Hr; apply andb_false_r]. }
  match goal with |- context [mbind (M := result) ?k ?m] => destruct m; [|done] end. cbn [mbind result_bind].
  match goal with |- context [mbind (M := result) ?k ?m] => by destruct m end.
Qed.
Lemma bind_then {B} (m : result (bool * state)) (f g : bool → state → result B) :
  match m with Ret (ok, _) => ok = true | Fault _ => True end →
  (∀ st, f true st = g true st) →
  ('(ok, st) ← m; f ok st) = ('(ok, st) ← m; g ok st).
Proof. destruct m as [[[] st]|]; simpl; [|done..]. intros _ H. apply H. Qed.

Lemma clear_fuel st : sym_clear_all_valid st ≠ Fault OutOfFuel.
Proof. apply calc_value_fuel. Qed.
Lemma mark_values_fuel e st : mark_values e st ≠ Fault OutOfFuel.
Proof. revert st. induction e; intros st; simpl; try done; first [by apply IHe|by case_match]. Qed.

Lemma set_fuel s v st : sym_set_tristate_value s v st ≠ Fault OutOfFuel.
Proof.
  unfold sym_set_tristate_value. destruct (negb _ && negb _); [done|].
  set (st1 := if has SYMBOL_DEF_USER (ks st s) then st else _). clearbody st1.
  assert ((if sym_is_choice_value st1 s && bool_decide (v = yes) then
         cs ← choice_of st1 s;
         cs ← of_option NullDeref cs;
         let st := upd cs (λ k, raise SYMBOL_DEF_USER
                                  (set_user (Val (VSym s) (v_tri (k_user k))) k)) st1 in
         prop ← sym_get_choice_prop st cs;
         mark_values (p_expr prop) st
       else Ret st1) ≠ Fault OutOfFuel) as H1.
  { destruct (_ && _); [|done].
    destruct (choice_of st1 s) as [[c|]|f] eqn:E; [|done|]; cbn [mbind result_bind of_option].
    - destruct (sym_get_choice_prop _ c) as [p|f] eqn:Ep; cbn [mbind result_bind].
      + apply mark_values_fuel.
      + intros [= ->]. by apply choice_prop_fuel in Ep.
    - intros [= ->]. by apply choice_of_fuel in E. }
  destruct (if sym_is_choice_value st1 s && _ then _ else _) as [st2|f]; [|simpl; congruence]. cbn [mbind result_bind].
  case_decide; [done|].
  match goal with |- context [sym_clear_all_valid ?x] =>
    pose proof (clear_fuel x) as H2; destruct (sym_clear_all_valid x) end; simpl; congruence.
Qed.

(** ** Numbers *)

(** The digits of a number are the only ones of it without a leading 0. *)
Lemma digits_value_snoc base ds d acc :
  digits_value base (ds ++ [d]) acc = digits_value base ds acc * base + d.
Proof. unfold digits_value. by rewrite foldl_app. Qed.
Lemma digits_value_nonneg base ds acc :
  0 < base → 0 ≤ acc → Forall (λ d, 0 ≤ d < base) ds → 0 ≤ digits_value base ds acc.
Proof.
  intros Hb Ha Hds. revert acc Ha. induction Hds as [|d ds Hd _ IH]; intros acc Ha; [done|].
  apply IH. nia.
Qed.
Lemma digits_value_pos base d ds acc :
  0 < base → 0 ≤ acc → 0 < d → Forall (λ d, 0 ≤ d < base) ds →
  0 < digits_value base (d :: ds) acc.
Proof.
  intros Hb Ha Hd Hds. unfold digits_value. simpl.
  assert (0 < acc * base + d) as Hp by nia. revert Hp. generalize (acc * base + d). clear Ha Hd.
  induction Hds as [|e ds He _ IH]; intros a Hp; [done|]. apply IH. nia.
Qed.
(** No leading 0 but for the number 0. *)
Definition canonical (ds : list Z) : Prop := ds = [0] ∨ ∃ d l, ds = d :: l ∧ d ≠ 0.
Lemma digits_of_unique base fuel ds acc :
  1 < base → Forall (λ d, 0 ≤ d < base) ds → canonical ds → (length ds ≤ fuel)%nat →
  digits_of base fuel (digits_value base ds 0) acc = ds ++ acc.
Proof.
  intros Hb. revert fuel acc. induction ds as [|d ds IH] using rev_ind; intros fuel acc Hds Hc Hf.
  { by destruct Hc as [?|(? & ? & ? & ?)]. }
  rewrite length_app in Hf. simpl in Hf. destruct fuel as [|fuel]; [lia|]. cbn [digits_of].
  apply Forall_app in Hds as [Hds Hd]. apply Forall_cons in Hd as [Hd _].
  rewrite digits_value_snoc. pose proof (digits_value_nonneg base ds 0 ltac:(lia) ltac:(lia) Hds) as Hp.
  rewrite (Z.add_comm (_ * base)), Z.mod_add, (Z.mod_small d base) by lia.
  rewrite Z.div_add, (Z.div_small d base), Z.add_0_l by lia.
  destruct ds as [|e ds].
  - by rewrite Z.eqb_refl.
  - destruct Hc as [Hc|(x & l & Hc & Hx)]; [by destruct ds|]. injection Hc as <- _.
    apply Forall_cons in Hds as [He Hds].
    pose proof (digits_value_pos base e ds 0 ltac:(lia) ltac:(lia) ltac:(lia) Hds).
    rewrite (proj2 (Z.eqb_neq _ 0)) by lia. rewrite IH; [simpl; by rewrite <- app_assoc|by constructor| |simpl in *; lia].
    right. by exists e, ds.
Qed.
Lemma digits_of_canonical base fuel v acc :
  1 < base → 0 ≤ v < base ^ Z.of_nat fuel → v ≠ 0 →
  ∃ d l, digits_of base fuel v acc = d :: l ∧ d ≠ 0.
Proof.
  intros Hb. revert v acc. induction fuel as [|fuel IH]; intros v acc Hv Hn; [simpl in Hv; lia|].
  cbn [digits_of]. pose proof (Z.div_mod v base ltac:(lia)) as Hdm.
  rewrite Nat2Z.inj_succ, Z.pow_succ_r in Hv by lia. destruct (Z.eqb_spec (v / base) 0) as [E|E].
  - exists (v mod base), acc. split; [done|]. rewrite E in Hdm. lia.
  - apply IH; [|done]. split; [apply Z.div_pos; lia|]. apply Z.div_lt_upper_bound; lia.
Qed.
Lemma digits_value_lower base d ds acc :
  1 < base → 0 ≤ acc → 0 < d → Forall (λ d, 0 ≤ d < base) ds →
  base ^ Z.of_nat (length ds) ≤ digits_value base (d :: ds) acc.
Proof.
  intros Hb Ha Hd Hds. unfold digits_value. simpl.
  assert (1 ≤ acc * base + d) as Hp by nia. revert Hp. generalize (acc * base + d). clear Ha Hd.
  revert Hds. induction ds as [|e ds IH] using rev_ind; intros Hds a Hp; [simpl; lia|].
  apply Forall_app in Hds as [Hds He]. apply Forall_cons in He as [He _].
  rewrite length_app, foldl_app. simpl. rewrite Nat2Z.inj_add, Z.pow_add_r by lia.
  specialize (IH Hds a Hp). change (base ^ Z.of_nat 1) with (base ^ 1). rewrite Z.pow_1_r. nia.
Qed.
(** A number of few digits. *)
Lemma canonical_length base ds n :
  1 < base → Forall (λ d, 0 ≤ d < base) ds → canonical ds → (0 < n)%nat →
  digits_value base ds 0 < base ^ Z.of_nat n → (length ds ≤ n)%nat.
Proof.
  intros Hb Hds [->|(d & l & -> & Hd)] Hn Hv; [simpl; lia|].
  apply Forall_cons in Hds as [Hd' Hds].
  pose proof (digits_value_lower base d l 0 Hb ltac:(lia) ltac:(lia) Hds) as Hlo.
  assert (Z.of_nat (length l) < Z.of_nat n); [|simpl; lia].
  apply (proj2 (Z.pow_lt_mono_r_iff base (Z.of_nat (length l)) (Z.of_nat n) Hb ltac:(lia))). by eapply Z.le_lt_trans.
Qed.

Definition dec (ds : list Z) : list Z := hexdig false <$> ds.
Lemma dec_digits ds :
  Forall (λ d, 0 ≤ d < 10) ds → Forall (λ d, 0 ≤ d < 10 ∧ digit_val (hexdig false d) = Some d) ds.
Proof.
  intros Hds. eapply Forall_impl; [exact Hds|]. simpl. intros d Hd. split; [done|]. apply hexdig_digit. lia.
Qed.
Lemma strto_dec ds (neg : bool) :
  Forall (λ d, 0 ≤ d < 10) ds → ds ≠ [] →
  strto ((if neg then [45] else []) ++ dec ds) 10 = Some (neg, digits_value 10 ds 0, []).
Proof.
  intros Hds Hne. destruct ds as [|d ds]; [done|].
  pose proof (digits_run_map 10 (hexdig false) (d :: ds) [] 0 (dec_digits _ Hds) I) as Hrun.
  rewrite app_nil_r in Hrun. change (hexdig false <$> d :: ds) with (dec (d :: ds)) in Hrun.
  apply Forall_cons in Hds as [Hd _].
  assert (hexdig false d = 48 + d) as Hx by (unfold hexdig; by rewrite (proj2 (Z.ltb_lt d 10)) by lia).
  assert (is_digit 10 (hexdig false d) = true) as Hdig.
  { unfold is_digit. rewrite hexdig_digit by lia. apply Z.ltb_lt. lia. }
  assert (∀ r, strtoul_base (hexdig false d :: r) 10 = (10, hexdig false d :: r)) as Hbase
    by (intros [|? [|? ?]]; done).
  assert (isspace (hexdig false d) = false ∧ (hexdig false d =? 45) = false ∧
          (hexdig false d =? 43) = false) as (H1 & H2 & H3).
  { rewrite Hx. unfold isspace. repeat split; [|apply Z.eqb_neq; lia..].
    rewrite (proj2 (Z.leb_gt (48 + d) 13)), andb_false_r by lia. apply Z.eqb_neq. lia. }
  unfold strto, dec in *. rewrite fmap_cons in *. destruct neg; simpl app; cbn [skip_spaces].
  - change (isspace 45) with false. cbv iota. change (45 =? 45) with true. cbv iota.
    by rewrite Hbase, Hdig, Hrun.
  - by rewrite H1, H2, H3, Hbase, Hdig, Hrun.
Qed.

Lemma isdigit_dec c : isdigit c = true → 0 ≤ c - 48 < 10 ∧ hexdig false (c - 48) = c.
Proof.
  intros [H1%Z.leb_le H2%Z.leb_le]%andb_true_iff. split; [lia|].
  unfold hexdig. rewrite (proj2 (Z.ltb_lt _ 10)) by lia. lia.
Qed.
Lemma digits_dec l :
  forallb isdigit l = true → ∃ ds, l = dec ds ∧ Forall (λ d, 0 ≤ d < 10) ds.
Proof.
  induction l as [|c l IH]; intros Hl; [by exists []|].
  apply andb_true_iff in Hl as [Hc Hl]. destruct (IH Hl) as (ds & -> & Hds).
  apply isdigit_dec in Hc as [Hr Hc]. exists (c - 48 :: ds). split; [|by constructor].
  unfold dec. by rewrite fmap_cons, Hc.
Qed.
Lemma dec_isdigit ds : Forall (λ d, 0 ≤ d < 10) ds → forallb isdigit (dec ds) = true.
Proof.
  induction 1 as [|d ds Hd _ IH]; [done|]. unfold dec in *. rewrite fmap_cons. simpl. rewrite IH, andb_true_r.
  unfold isdigit, hexdig. rewrite (proj2 (Z.ltb_lt d 10)) by lia.
  apply andb_true_iff. split; apply Z.leb_le; lia.
Qed.

(** The texts that [sym_string_valid] accepts for an integer. *)
Lemma int_valid_dec str :
  int_valid str = true ↔
  ∃ neg ds, str = (if neg : bool then [45] else []) ++ dec ds ∧ Forall (λ d, 0 ≤ d < 10) ds ∧ canonical ds.
Proof.
  assert (∀ l, isdigit (head_byte l) && negb ((head_byte l =? 48) && negb (bool_decide (tail l = [])))
                 && forallb isdigit (tail l) = true ↔
               ∃ ds, l = dec ds ∧ Forall (λ d, 0 ≤ d < 10) ds ∧ canonical ds) as Hd.
  { intros l. split.
    - intros [[H1 H2]%andb_true_iff H3]%andb_true_iff. destruct l as [|c l]; [done|]. simpl in *.
      apply isdigit_dec in H1 as [Hr Hc]. destruct (digits_dec l H3) as (ds & -> & Hds).
      exists (c - 48 :: ds). split_and!; [unfold dec; by rewrite fmap_cons, Hc|by constructor|].
      destruct (Z.eqb_spec c 48) as [->|Hne]; [|right; exists (c - 48), ds; split; [done|lia]].
      destruct ds; [by left|done].
    - intros (ds & -> & Hds & Hc). pose proof (dec_isdigit ds Hds) as Hall.
      destruct ds as [|d ds]; [by destruct Hc as [?|(?&?&?&?)]|]. unfold dec in *. rewrite fmap_cons in *.
      simpl in *. apply andb_true_iff in Hall as [-> ->]. simpl. rewrite andb_true_r.
      destruct Hc as [[= -> ->]|(x & l & [= <- <-] & Hx)]; [done|].
      apply Forall_cons in Hds as [Hr _]. unfold hexdig. rewrite (proj2 (Z.ltb_lt d 10)) by lia.
      by rewrite (proj2 (Z.eqb_neq _ 48)) by lia. }
  unfold int_valid. destruct (head_byte str =? 45) eqn:Hs.
  - apply Z.eqb_eq in Hs. destruct str as [|c str]; [done|]. simpl in Hs. subst c. simpl tail. rewrite Hd.
    split; [intros (ds & -> & ?); by exists true, ds|].
    intros ([] & ds & E & Hds & Hc); [injection E as ->; by exists ds|].
    destruct ds as [|d ds]; [done|]. unfold dec in E. rewrite fmap_cons in E. injection E as E _.
    apply Forall_cons in Hds as [Hr _]. unfold hexdig in E. rewrite (proj2 (Z.ltb_lt d 10)) in E by lia. lia.
  - rewrite Hd. split; [intros (ds & -> & ?); by exists false, ds|].
    intros ([] & ds & -> & Hds & Hc); [done|by exists ds].
Qed.

Lemma fmt_lld_dec v :
  - 2 ^ 63 ≤ v < 2 ^ 63 →
  ∃ ds, fmt_lld v = (if v <? 0 then [45] else []) ++ dec ds ∧ Forall (λ d, 0 ≤ d < 10) ds ∧
        canonical ds ∧ digits_value 10 ds 0 = Z.abs v.
Proof.
  intros Hv. exists (digits_of 10 20 (Z.abs v) []).
  destruct (digits_of_ok 10 20 (Z.abs v) []) as (Hd & Hval & Hne); [lia..|by constructor|].
  split_and!; [|done| |done].
  - unfold fmt_lld. destruct (Z.ltb_spec v 0); cbv zeta.
    + rewrite Z.abs_neq by lia. reflexivity.
    + rewrite Z.abs_eq by lia. reflexivity.
  - destruct (decide (v = 0)) as [->|Hz]; [by left|]. right. apply digits_of_canonical; lia.
Qed.

Lemma strtoll_range s base : - 2 ^ 63 ≤ fst (fst (strtoll s base)) < 2 ^ 63.
Proof.
  unfold strtoll. destruct (strto s base) as [[[neg v] r]|]; [|done]. cbv zeta.
  case_tests; simpl; rewrite ?Z.ltb_lt, ?Z.ltb_ge in *; lia.
Qed.
Lemma strtoll_fmt_lld v : - 2 ^ 63 ≤ v < 2 ^ 63 → strtoll (fmt_lld v) 10 = (v, false, []).
Proof.
  intros Hv. destruct (fmt_lld_dec v Hv) as (ds & -> & Hds & Hc & Hval). unfold strtoll.
  assert (ds ≠ []) as Hne by (intros ->; by destruct Hc as [?|(?&?&?&?)]).
  rewrite strto_dec, Hval by done.
  destruct (Z.ltb_spec v 0); cbv zeta; case_tests; rewrite ?Z.ltb_lt, ?Z.ltb_ge in *; repeat f_equal; lia.
Qed.

(** "0x%llx" of a number that is not negative. *)
Lemma strtoll_fmt_0xllx v : 0 ≤ v < 2 ^ 63 → strtoll (fmt_0xllx v) 16 = (v, false, []).
Proof.
  intros Hv. unfold fmt_0xllx. rewrite u64_small by lia.
  destruct (digits_of_ok 16 16 v []) as (Hd & Hval & Hne); [lia..|by constructor|].
  change (digits_value 16 [] v) with v in Hval.
  destruct (digits_of 16 16 v []) as [|d ds] eqn:E; [done|].
  assert (Forall (λ d, 0 ≤ d < 16 ∧ digit_val (hexdig false d) = Some d) (d :: ds)) as Hall.
  { eapply Forall_impl; [exact Hd|]. simpl. intros x Hx. split; [done|by apply hexdig_digit]. }
  pose proof (digits_run_map 16 (hexdig false) (d :: ds) [] 0 Hall I) as Hrun.
  rewrite app_nil_r in Hrun. rewrite Hval in Hrun.
  assert (is_digit 16 (hexdig false d) = true) as Hdig.
  { unfold is_digit. apply Forall_cons in Hall as [[Hx ->] _]. apply Z.ltb_lt. lia. }
  rewrite fmap_cons in *. unfold strtoll, strto.
  change (cs "0x" ++ hexdig false d :: (hexdig false <$> ds)) with
    (48 :: 120 :: hexdig false d :: (hexdig false <$> ds)).
  simpl skip_spaces. cbv beta iota zeta delta [Z.eqb Pos.eqb]. unfold strtoul_base. rewrite Hdig.
  cbv beta iota zeta delta [Z.eqb Pos.eqb andb orb]. rewrite Hdig, Hrun.
  case_tests; rewrite ?Z.ltb_lt, ?Z.ltb_ge in *; repeat f_equal; lia.
Qed.

(** The clamped number is in the range. *)
Lemma clamp_spec_range st (int : bool) p a b t t' lo hi :
  p_expr p = RANGE a b → bound_spec st (if int then 10 else 16) a = Some lo →
  bound_spec st (if int then 10 else 16) b = Some hi → lo ≤ hi → (int = true ∨ 0 ≤ lo) →
  clamp_spec st int p t = Some t' →
  lo ≤ fst (fst (strtoll t' (if int then 10 else 16))) ≤ hi.
Proof.
  intros Hp Ha Hb Hle Hint Hc. unfold clamp_spec in Hc. rewrite Hp, Ha, Hb in Hc. simpl in Hc.
  assert (∀ d v, bound_spec st (if int then 10 else 16) d = Some v → - 2 ^ 63 ≤ v < 2 ^ 63) as Hbnd.
  { intros d v E. unfold bound_spec in E. apply bind_Some in E as (k & _ & E).
    apply bind_Some in E as (x & _ & E). injection E as <-. apply strtoll_range. }
  pose proof (Hbnd a lo Ha). pose proof (Hbnd b hi Hb).
  assert (∀ v, lo ≤ v ≤ hi → fst (fst (strtoll (fmt_num int v) (if int then 10 else 16))) = v) as Hfmt.
  { intros v Hv. destruct int; simpl; [by rewrite strtoll_fmt_lld by lia|].
    destruct Hint; [done|]. by rewrite strtoll_fmt_0xllx by lia. }
  destruct (lo <=? _) eqn:Hlo in Hc; [destruct (_ <=? hi) eqn:Hhi in Hc|].
  - injection Hc as <-. apply Z.leb_le in Hlo, Hhi. done.
  - injection Hc as <-. rewrite Hfmt; lia.
  - injection Hc as <-. rewrite Hfmt; lia.
Qed.

(** ** Examples *)
Module Demo3.
Definition get_state {A} (dflt : state) (r : result (A * state)) : state :=
  match r with Ret (_, st) => st | Fault _ => dflt end.
Definition calc1 (s : symbol) (st : state) : state :=
  match sym_calc_value s st with Ret st' => st' | Fault _ => st end.
(** FOO is calculated, and set from m to y. *)
Definition st0 : state := Eval vm_compute in calc1 (Sym 1) Demo.ready8.
Definition st1 : state := Eval vm_compute in get_state st0 (sym_set_tristate_value (Sym 1) yes st0).
Definition st2 : state := Eval vm_compute in calc1 (Sym 1) st1.
(** SIZE, whose default of 100 is beyond its range. *)
Definition size : state := Eval vm_compute in calc1 (Sym 4) Demo.ready8.
Lemma foo_ordinary : ordinary st0 (Sym 1).
Proof. constructor; [reflexivity..|]. intros s Hm. revert s Hm. Demo2.no_lists. Qed.
End Demo3.

(** ** Results *)

(** C22: A value the user sets is the value the symbol gets: where a tristate
    or boolean outside of choices is set to a new value and the setting is
    accepted, the next calculation of the symbol gives this value, if its
    visibility, what selects it and its type are then as they were (and its
    dependencies are met if it is selected). *)
Theorem set_tristate_sticks s v st st1 st2 :
  known st s → s ≠ modules st → ordinary st s →
  (k_type (ks st s) = S_BOOLEAN ∨ k_type (ks st s) = S_TRISTATE) → tri st s ≠ v →
  sym_set_tristate_value s v st = Ret (true, st1) → has SYMBOL_VALID (ks st1 s) = false →
  sym_calc_value s st1 = Ret st2 →
  k_visible (ks st2 s) = k_visible (ks st s) →
  ev_tri (k_rev (ks st2 s)) = ev_tri (k_rev (ks st s)) →
  sym_get_type st2 s = sym_get_type st s →
  (ev_tri (k_dir (ks st2 s)) ≠ no ∨ ev_tri (k_rev (ks st2 s)) = no) →
  tri st2 s = v.
Proof.
  intros Hk Hm Ho Hty Hne E Hv Ec Evis Erev Ety Hdir.
  destruct (set_accepted s v st st1 Hk Ho Hne E) as (Hr & st0 & Ecl & O0 & T0 & U0 & D0 & M0).
  assert (usual st0 s st1) as HU.
  { eapply clear_usual; [|exact Ecl]. by constructor. }
  destruct HU as [O1 T1 U1 D1 M1].
  assert (calculable s st1) as HC.
  { constructor; [by rewrite T1, T0|done|apply O1|apply O1|]. intros c Hc. by apply (or_lists _ _ O1) in Hc. }
  destruct (calc_tri_rule s st1 st2 HC Ec) as (_ & _ & _ & v0 & b & Ev & Hb & HR).
  rewrite (or_value _ _ O1) in HR. simpl in HR. destruct HR as (w & -> & Hw).
  pose proof (within_range_inv st s v (or_value _ _ Ho) Hr) as (Hvis & Hbool & Hlo & Hhi).
  rewrite U1, U0, D1, D0, Evis in Hw. rewrite (Hw Hvis eq_refl) in Ev.
  rewrite (and_le v) in Ev by done. rewrite decide_False in Ev by tauto. rewrite Erev, or_ge in Ev by done.
  unfold tri. rewrite Ev. clear Ev.
  assert (modules st2 = modules st1) as M2.
  { clear -Ec. revert Ec. apply (calc_value_keeps_minor (λ st', modules st' = modules st1)
      (λ _, True) (λ _, True) (λ _, True)); try done; intros; by rewrite modules_upd. }
  rewrite Hb, Ety by congruence. unfold promote. destruct v; try done.
  rewrite bool_decide_eq_false_2; [done|]. intros Hbt. by apply Hbool.
Qed.
Lemma set_tristate_sticks_witness :
  sym_set_tristate_value (Sym 1) yes Demo3.st0 = Ret (true, Demo3.st1) ∧ tri Demo3.st2 (Sym 1) = yes.
Proof.
  assert (sym_set_tristate_value (Sym 1) yes Demo3.st0 = Ret (true, Demo3.st1)) as E
    by (vm_compute; reflexivity).
  assert (sym_calc_value (Sym 1) Demo3.st1 = Ret Demo3.st2) as Ec by (vm_compute; reflexivity).
  split; [exact E|].
  apply (set_tristate_sticks (Sym 1) yes Demo3.st0 Demo3.st1 Demo3.st2);
    [simpl; lia|discriminate|exact Demo3.foo_ordinary|right; reflexivity|discriminate|exact E
    |reflexivity|exact Ec|reflexivity..|right; reflexivity].
Defined.

(** Toggling is setting to the next value that is accepted: going from n
    to m, y and n again, [sym_toggle_tristate_value] sets the first value
    within range, and if there is none sets the old value again; its loop
    ends within three rounds in every table. *)
Theorem toggle_next s st :
  let o := tri st s in
  let ok := sym_tristate_within_range st s in
  let v := if ok (next_val o) then next_val o
           else if ok (next_val (next_val o)) then next_val (next_val o) else o in
  sym_toggle_tristate_value s st = ('(_, st') ← sym_set_tristate_value s v st; Ret (v, st')) ∧
  sym_toggle_tristate_value s st ≠ Fault OutOfFuel.
Proof.
  cbv zeta. set (o := tri st s). set (ok := sym_tristate_within_range st s).
  assert (sym_toggle_tristate_value s st =
    let v := if ok (next_val o) then next_val o
             else if ok (next_val (next_val o)) then next_val (next_val o) else o in
    '(_, st') ← sym_set_tristate_value s v st; Ret (v, st')) as E.
  { unfold sym_toggle_tristate_value, sym_get_tristate_value. fold o. destruct (next_ne o) as [N1 N2].
    cbn [toggle_loop]. destruct (ok (next_val o)) eqn:R1.
    { pose proof (set_true s (next_val o) st (or_intror R1)) as H.
      destruct (sym_set_tristate_value s (next_val o) st) as [[b st']|]; [by subst b|done]. }
    rewrite (set_refused s (next_val o) st N1 R1). cbn [mbind result_bind]. rewrite decide_False by done.
    destruct (ok (next_val (next_val o))) eqn:R2.
    { pose proof (set_true s (next_val (next_val o)) st (or_intror R2)) as H.
      destruct (sym_set_tristate_value s (next_val (next_val o)) st) as [[b st']|]; [by subst b|done]. }
    rewrite (set_refused s (next_val (next_val o)) st N2 R2). cbn [mbind result_bind].
    rewrite decide_False, next_cycle by done.
    pose proof (set_true s o st (or_introl eq_refl)) as H.
    destruct (sym_set_tristate_value s o st) as [[b st']|]; [by subst b|done]. }
  split; [exact E|]. rewrite E. cbv zeta.
  assert (∀ v, sym_set_tristate_value s v st ≠ Fault OutOfFuel) as Hf by (intros v; apply set_fuel).
  match goal with |- context [sym_set_tristate_value s ?v st] =>
    specialize (Hf v); destruct (sym_set_tristate_value s v st) as [[? ?]|f]; [done|] end.
  simpl. congruence.
Qed.

(** The texts of integers are the numbers in the form the code prints
    them: every number of 64 bits is printed ("%lld") as a text that
    [sym_string_valid] accepts and that reads back ([strtoll]) as the number;
    and an accepted text, "-0" apart, whose number fits is the one that is
    printed for it. *)
Theorem integer_text_canonical :
  (∀ v, - 2 ^ 63 ≤ v < 2 ^ 63 →
     sym_string_valid S_INT (fmt_lld v) = true ∧ strtoll (fmt_lld v) 10 = (v, false, [])) ∧
  (∀ str v r, sym_string_valid S_INT str = true → str ≠ cs "-0" →
     strtoll str 10 = (v, false, r) → r = [] ∧ fmt_lld v = str).
Proof.
  split.
  - intros v Hv. split; [|by apply strtoll_fmt_lld]. apply int_valid_dec.
    destruct (fmt_lld_dec v Hv) as (ds & E & Hds & Hc & _). by exists (v <? 0), ds.
  - intros str v r Hs Hn E. apply int_valid_dec in Hs as (neg & ds & -> & Hds & Hc).
    assert (ds ≠ []) as Hne by (intros ->; by destruct Hc as [?|(?&?&?&?)]).
    unfold strtoll in E. rewrite strto_dec in E by done. cbv zeta in E.
    pose proof (digits_value_nonneg 10 ds 0 ltac:(lia) ltac:(lia) Hds) as Hp.
    assert (r = [] ∧ v = (if neg then - digits_value 10 ds 0 else digits_value 10 ds 0) ∧
            digits_value 10 ds 0 ≤ 2 ^ 63) as (-> & -> & Hb).
    { destruct neg; case_tests; try discriminate E; injection E as <- <-;
        rewrite ?Z.ltb_ge in *; split_and!; (done || lia). }
    split; [done|].
    assert (digits_of 10 20 (digits_value 10 ds 0) [] = ds) as Hdig.
    { rewrite digits_of_unique, app_nil_r; [done..|]. apply (canonical_length 10); try done; lia. }
    unfold fmt_lld. cbv zeta. destruct neg.
    + assert (digits_value 10 ds 0 ≠ 0) as Hz.
      { intros Hz. destruct Hc as [->|(d & l & -> & Hd)]; [done|].
        apply Forall_cons in Hds as [Hd' Hds].
        pose proof (digits_value_pos 10 d l 0 ltac:(lia) ltac:(lia) ltac:(lia) Hds). lia. }
      rewrite (proj2 (Z.ltb_lt _ 0)), Z.opp_involutive by lia. by rewrite Hdig.
    + rewrite (proj2 (Z.ltb_ge _ 0)) by lia. by rewrite Hdig.
Qed.

(** Numbers stay in their ranges: after the calculation of an integer or
    hexadecimal symbol with a range that applies (choices and cycles apart),
    its value is a number between the bounds; for hexadecimal symbols if the
    bounds are not negative. *)
Theorem number_in_range `{Ranking} st s st' p c a b lo hi :
  consistent st → known st s → sym_calc_value s st = Ret st' →
  let k := ks st' s in
  let int := bool_decide (k_type k = S_INT) in
  let base := if int then 10 else 16 in
  k_type k = S_INT ∨ k_type k = S_HEX ∧ 0 ≤ lo →
  first_active st' P_RANGE (k_props k) = Some (Some (p, c)) → p_expr p = RANGE a b →
  bound_spec st' base a = Some lo → bound_spec st' base b = Some hi → lo ≤ hi →
  ∃ t, k_curr k = Val (VStr t) no ∧ lo ≤ fst (fst (strtoll t base)) ≤ hi.
Proof.
  intros Hc Hk E k int base Hty Hact Hp Ha Hb Hle.
  destruct (calc_consistent st s Hc) as (st1 & E1 & (_ & _ & Hd) & V & _ & T); [by destruct s|].
  assert (st1 = st') as -> by congruence.
  assert (described st' k) as HD by (apply Hd; [by apply (known_len _ _ _ (sa_len _ _ T))|done]).
  pose proof (de_curr _ _ HD) as Hcurr. unfold curr_spec, in_range_spec in Hcurr. fold int in Hcurr.
  rewrite Hact in Hcurr.
  assert (∃ t0 t, clamp_spec st' int p t0 = Some t ∧ k_curr k = Val (VStr t) no) as (t0 & t & Ht & ->).
  { destruct Hty as [Et|[Et _]]; rewrite Et in Hcurr; apply bind_Some in Hcurr as (t0 & _ & Hcurr);
      cbn [mbind option_bind] in Hcurr; apply bind_Some in Hcurr as (t & Ht & Hcurr);
      injection Hcurr as Hcurr; by exists t0, t. }
  exists t. split; [done|]. eapply clamp_spec_range; try done.
  unfold int. destruct Hty as [->|[-> ?]]; [by left|by right].
Qed.
Lemma number_in_range_witness :
  ∃ t, k_curr (ks Demo3.size (Sym 4)) = Val (VStr t) no ∧ 1 ≤ fst (fst (strtoll t 10)) ≤ 64.
Proof.
  assert (sym_calc_value (Sym 4) Demo.ready8 = Ret Demo3.size) as E by (vm_compute; reflexivity).
  apply (@number_in_range demo_ranking Demo.ready8 (Sym 4) Demo3.size
    (Prop_ P_RANGE false NULL (RANGE (Sym 6) (Sym 7))) yes (Sym 6) (Sym 7) 1 64 demo_consistent);
    [simpl; lia|exact E|left; reflexivity|reflexivity..|lia].
Defined.
End KconfigSetProps.
