(* ===== verification/KconfigLookup.v ===== *)
(** * Kconfig: the symbol hash table (scripts/config/symbol.c)

    [sym_lookup], which interns the names of the configuration language, and
    [sym_find].  Symbols are chained by the FNV hash of their names, the
    newest first; the chains refine a search through the symbols in the
    reverse order of their allocation. *)

From S2P Require Import Prelude CLib KconfigExpr KconfigSym.
Open Scope Z_scope.

Module KconfigLookup.
Import KconfigExpr KconfigSym.

Section lookup.
Context {A : Arch}.

(** The characters are sign-extended where [char] is signed. *)
Definition strhash (s : list Z) : Z :=
  foldl (λ hash c, u32 (Z.lxor hash (u32 (char_val c)) * 0x01000193)) 2166136261 s.
Definition SYMBOL_HASHSIZE : Z := 9973.
(** The chain a name belongs to. *)
Definition bucket (name : option (list Z)) : Z :=
  match name with Some n => strhash n mod SYMBOL_HASHSIZE | None => 0 end.

Definition const_name (name : list Z) : option symbol :=
  match name with
  | [c] =>
      if c =? 121 then Some symbol_yes
      else if c =? 109 then Some symbol_mod
      else if c =? 110 then Some symbol_no
      else None
  | _ => None
  end.

(** The first symbol of a chain with a name, whose flags pass a test. *)
Fixpoint chain_find (st : state) (name : list Z) (ok : Z → bool) (l : list symbol) : option symbol :=
  match l with
  | [] => None
  | s :: l =>
      if bool_decide (k_name (ks st s) = Some name) && ok (k_flags (ks st s)) then Some s
      else chain_find st name ok l
  end.
Definition lookup_test (flags fl : Z) : bool :=
  if flags =? 0 then fl .& (SYMBOL_CONST .| SYMBOL_CHOICE) =? 0 else negb (fl .& flags =? 0).
Definition find_test (fl : Z) : bool := fl .& SYMBOL_CONST =? 0.

Definition new_symbol (name : option (list Z)) (flags : Z) : ksym :=
  KSym name S_UNKNOWN flags (Val VNull no) (Val VNull no) no [] (EVal NULL no) (EVal NULL no)
    (EVal NULL no).
Definition chain (st : state) (hash : Z) : list symbol := default [] (symbol_hash st !! hash).
Definition add_symbol (name : option (list Z)) (flags hash : Z) (st : state) : symbol * state :=
  let s := Sym (length (syms st)) in
  (s, State (syms st ++ [new_symbol name flags]) (<[hash := s :: chain st hash]> (symbol_hash st))
        (modules_val st) (modules st) (conf_changed st)).

Definition sym_lookup (name : option (list Z)) (flags : Z) (st : state) : symbol * state :=
  match name with
  | Some n =>
      match const_name n with
      | Some s => (s, st)
      | None =>
          let hash := strhash n mod SYMBOL_HASHSIZE in
          match chain_find st n (lookup_test flags) (chain st hash) with
          | Some s => (s, st)
          | None => add_symbol name flags hash st
          end
      end
  | None => add_symbol None flags 0 st
  end.

Definition sym_find (name : option (list Z)) (st : state) : option symbol :=
  n ← name;
  match const_name n with
  | Some s => Some s
  | None => chain_find st n find_test (chain st (strhash n mod SYMBOL_HASHSIZE))
  end.

(** ** Specification *)

(** All symbols, the newest first. *)
Definition newest (st : state) : list symbol := Sym <$> reverse (seq 0 (length (syms st))).
Definition lookup_spec (name : option (list Z)) (flags : Z) (st : state) : option symbol :=
  n ← name;
  match const_name n with
  | Some s => Some s
  | None => chain_find st n (lookup_test flags) (newest st)
  end.

(** The chains hold the symbols whose names hash to them, the newest first. *)
Definition hash_ok (st : state) : Prop :=
  ∀ h, chain st h = filter (λ s, bucket (k_name (ks st s)) = h) (newest st).

Lemma chain_find_filter st n ok l :
  chain_find st n ok (filter (λ s, bucket (k_name (ks st s)) = bucket (Some n)) l) =
  chain_find st n ok l.
Proof.
  induction l as [|s l IH]; [done|]. rewrite filter_cons. case_decide as Hd; cbn [chain_find]; [by rewrite IH|].
  rewrite bool_decide_eq_false_2; [done|]. intros E. apply Hd. by rewrite E.
Qed.
Lemma chain_find_some st n ok l s :
  chain_find st n ok l = Some s → s ∈ l ∧ k_name (ks st s) = Some n ∧ ok (k_flags (ks st s)) = true.
Proof.
  induction l as [|x l IH]; simpl; [done|]. destruct (_ && _) eqn:E.
  - intros [= <-]. apply andb_true_iff in E as [E1%bool_decide_eq_true E2]. split_and!; [set_solver|done..].
  - intros H. destruct (IH H) as (? & ? & ?). split_and!; [set_solver|done..].
Qed.
Lemma chain_find_none st n ok l :
  chain_find st n ok l = None →
  Forall (λ s, k_name (ks st s) = Some n → ok (k_flags (ks st s)) = false) l.
Proof.
  induction l as [|x l IH]; simpl; [done|]. destruct (_ && _) eqn:E; [done|]. intros H.
  constructor; [|auto]. intros Hn. rewrite bool_decide_eq_true_2 in E by done. done.
Qed.

Lemma add_symbol_ks name fl h st s : s ≠ Sym (length (syms st)) → ks (add_symbol name fl h st).2 s = ks st s.
Proof.
  destruct s as [| | |n]; try done. intros Hn. simpl.
  destruct (decide (n < length (syms st))%nat) as [Hl|Hl]; [by rewrite app_nth1|].
  rewrite !nth_overflow; [done|lia|]. rewrite length_app. simpl.
  assert (n ≠ length (syms st)) by congruence. lia.
Qed.
Lemma add_symbol_new name fl h st :
  ks (add_symbol name fl h st).2 (Sym (length (syms st))) = new_symbol name fl.
Proof. simpl. by rewrite app_nth2, Nat.sub_diag by lia. Qed.
Lemma newest_add name fl h st :
  newest (add_symbol name fl h st).2 = Sym (length (syms st)) :: newest st.
Proof.
  unfold newest. simpl. rewrite length_app, Nat.add_1_r, seq_S, reverse_snoc. done.
Qed.
Lemma newest_old st s : s ∈ newest st → s ≠ Sym (length (syms st)).
Proof.
  unfold newest. intros (n & -> & Hn)%list_elem_of_fmap. apply elem_of_reverse, elem_of_seq in Hn.
  intros [= ->]. lia.
Qed.
Lemma filter_agree st st' (l : list symbol) h :
  (∀ s, s ∈ l → ks st' s = ks st s) →
  filter (λ s, bucket (k_name (ks st' s)) = h) l = filter (λ s, bucket (k_name (ks st s)) = h) l.
Proof.
  induction l as [|s l IH]; intros Hl; [done|]. rewrite !filter_cons, (Hl s) by set_solver.
  rewrite IH by set_solver. done.
Qed.

(** Adding a symbol keeps the chains in order. *)
Lemma add_symbol_ok name fl st : hash_ok st → hash_ok (add_symbol name fl (bucket name) st).2.
Proof.
  intros Hok h. rewrite newest_add, filter_cons, add_symbol_new, (filter_agree st).
  2: { intros s Hs. apply add_symbol_ks. by apply newest_old. }
  rewrite <- Hok. unfold chain. simpl. case_decide as Hd.
  - subst h. by rewrite lookup_insert_eq.
  - by rewrite lookup_insert_ne.
Qed.

Lemma sym_lookup_spec name fl st :
  hash_ok st →
  sym_lookup name fl st =
    match lookup_spec name fl st with
    | Some s => (s, st)
    | None => add_symbol name fl (bucket name) st
    end.
Proof.
  intros Hok. unfold sym_lookup, lookup_spec. destruct name as [n|]; [|done]. simpl.
  destruct (const_name n); [done|]. rewrite Hok. by rewrite (chain_find_filter st n).
Qed.

Lemma const_name_ks n s st : const_name n = Some s → k_name (ks st s) = Some n.
Proof.
  destruct n as [|c [|? ?]]; try done. simpl.
  destruct (Z.eqb_spec c 121) as [->|]; [by intros [= <-]|].
  destruct (Z.eqb_spec c 109) as [->|]; [by intros [= <-]|].
  destruct (Z.eqb_spec c 110) as [->|]; [by intros [= <-]|done].
Qed.
Lemma lookup_test_new fl : lookup_test fl fl = true.
Proof.
  unfold lookup_test. destruct (Z.eqb_spec fl 0) as [->|Hf]; [done|].
  rewrite Z.land_diag. by apply negb_true_iff, Z.eqb_neq.
Qed.
(** A symbol that is looked up has the name, is in the table and is found again. *)
Lemma lookup_found n fl st :
  hash_ok st → let '(s, st') := sym_lookup (Some n) fl st in
  hash_ok st' ∧ k_name (ks st' s) = Some n ∧ s ≠ Sym (length (syms st')) ∧
  lookup_spec (Some n) fl st' = Some s.
Proof.
  intros Hok. rewrite sym_lookup_spec by done. destruct (lookup_spec (Some n) fl st) as [s|] eqn:E.
  - split_and!; [done| | |done]; unfold lookup_spec in E; simpl in E;
      destruct (const_name n) eqn:Ec; simplify_eq.
    + by apply const_name_ks.
    + by apply chain_find_some in E as (_ & ? & _).
    + destruct n as [|c [|? ?]]; try done. simpl in Ec. by case_tests; simplify_eq.
    + apply newest_old. by apply chain_find_some in E as (? & _ & _).
  - destruct (add_symbol (Some n) fl (bucket (Some n)) st) as [s st'] eqn:Ea.
    pose proof (add_symbol_ok (Some n) fl st Hok) as Ha.
    pose proof (add_symbol_new (Some n) fl (bucket (Some n)) st) as Hn.
    pose proof (newest_add (Some n) fl (bucket (Some n)) st) as Hw. rewrite Ea in Ha, Hn, Hw.
    cbn [snd] in *.
    assert (s = Sym (length (syms st)) ∧ length (syms st') = S (length (syms st))) as [-> Hl].
    { injection Ea as <- <-. simpl. rewrite length_app. simpl. split; [done|lia]. }
    split_and!; [done|by rewrite Hn|rewrite Hl; intros [= ?]; lia|].
    unfold lookup_spec in *. cbn [mbind option_bind] in *. destruct (const_name n); [done|].
    rewrite Hw. cbn [chain_find].
    by rewrite Hn, bool_decide_eq_true_2, lookup_test_new.
Qed.
Lemma lookup_keeps name fl st s :
  hash_ok st → s ≠ Sym (length (syms st)) → ks (sym_lookup name fl st).2 s = ks st s.
Proof.
  intros Hok Hs. rewrite sym_lookup_spec by done.
  destruct (lookup_spec name fl st); [done|]. by apply add_symbol_ks.
Qed.

(** ** Results *)

(** C23: The hash table implements a search through all symbols, the newest
    first: [sym_lookup] returns what the search finds and leaves the table
    alone, or adds the symbol; [sym_find] finds what the search for a symbol
    that is no constant finds; and the chains stay in the order the search
    relies on. *)
Theorem lookup_refines name fl st :
  hash_ok st →
  let '(s, st') := sym_lookup name fl st in
  hash_ok st' ∧
  match lookup_spec name fl st with
  | Some s0 => s = s0 ∧ st' = st
  | None => s = Sym (length (syms st)) ∧ syms st' = syms st ++ [new_symbol name fl]
  end ∧
  sym_find name st =
    (n ← name; match const_name n with Some c => Some c | None => chain_find st n find_test (newest st) end).
Proof.
  intros Hok. rewrite sym_lookup_spec by done.
  assert (sym_find name st = (n ← name; match const_name n with Some c => Some c
            | None => chain_find st n find_test (newest st) end)) as Hf.
  { unfold sym_find. destruct name as [n|]; [|done]. simpl. destruct (const_name n); [done|].
    rewrite Hok. by rewrite (chain_find_filter st n). }
  destruct (lookup_spec name fl st); [done|].
  pose proof (add_symbol_ok name fl st Hok) as Ha. by destruct (add_symbol name fl (bucket name) st) eqn:E;
    injection E as <- <-.
Qed.

(** Names are interned: looking a name up once more with the same flags
    returns the symbol of the first time and leaves the table alone, and two
    names that are looked up give one symbol only if they are the same name. *)
Theorem lookup_interns n n' fl fl' st :
  hash_ok st →
  let '(s, st1) := sym_lookup (Some n) fl st in
  sym_lookup (Some n) fl st1 = (s, st1) ∧
  let '(s', st2) := sym_lookup (Some n') fl' st1 in
  s = s' → n = n'.
Proof.
  intros Hok. pose proof (lookup_found n fl st Hok) as Hf.
  destruct (sym_lookup (Some n) fl st) as [s st1] eqn:E1. destruct Hf as (Hok1 & Hn & Hs & Hl).
  split; [by rewrite sym_lookup_spec, Hl by done|].
  pose proof (lookup_found n' fl' st1 Hok1) as Hf. pose proof (lookup_keeps (Some n') fl' st1 s Hok1 Hs) as Hk.
  destruct (sym_lookup (Some n') fl' st1) as [s' st2] eqn:E2. destruct Hf as (_ & Hn' & _).
  intros <-. simpl in Hk. rewrite Hk in Hn'. congruence.
Qed.

(** ** Tables that the parser builds *)

Definition empty_table : state := State [] ∅ no symbol_no false.
Lemma empty_hash_ok : hash_ok empty_table.
Proof. intros h. unfold chain. simpl. by rewrite lookup_empty. Qed.

(** The parser looks up words with no flags, texts in quotes as constants and
    choices, which may have a name, as choices; between the lookups it changes
    the symbols, but no name and neither of these two flags. *)
Definition same_class (k k' : ksym) : Prop :=
  has SYMBOL_CONST k = has SYMBOL_CONST k' ∧ has SYMBOL_CHOICE k = has SYMBOL_CHOICE k'.
Record same_names (st st' : state) : Prop := {
  sn_hash : symbol_hash st' = symbol_hash st;
  sn_len : length (syms st') = length (syms st);
  sn_name : ∀ s, k_name (ks st' s) = k_name (ks st s);
  sn_class : ∀ s, same_class (ks st' s) (ks st s)
}.
Inductive parse_step : state → state → Prop :=
  | parse_word n st : parse_step st (sym_lookup (Some n) 0 st).2
  | parse_quoted n st : parse_step st (sym_lookup (Some n) SYMBOL_CONST st).2
  | parse_choice n st : parse_step st (sym_lookup n SYMBOL_CHOICE st).2
  | parse_edit st st' : same_names st st' → parse_step st st'.
Inductive parsed : state → Prop :=
  | parsed_start : parsed empty_table
  | parsed_step st st' : parsed st → parse_step st st' → parsed st'.

(** A name is at most once a word, once a constant and once a choice, and the
    names of the built-in constants are in no chain. *)
Record names_ok (st : state) : Prop := {
  no_hash : hash_ok st;
  no_excl : ∀ s, s ∈ newest st → has SYMBOL_CONST (ks st s) && has SYMBOL_CHOICE (ks st s) = false;
  no_builtin : ∀ s n, s ∈ newest st → k_name (ks st s) = Some n → const_name n = None;
  no_dup : ∀ s s' n, s ∈ newest st → s' ∈ newest st →
    k_name (ks st s) = Some n → k_name (ks st s') = Some n →
    same_class (ks st s) (ks st s') → s = s'
}.

Lemma lookup_test_class fl k :
  fl = 0 ∨ fl = SYMBOL_CONST ∨ fl = SYMBOL_CHOICE →
  has SYMBOL_CONST k && has SYMBOL_CHOICE k = false →
  same_class k (new_symbol None fl) → lookup_test fl (k_flags k) = true.
Proof.
  intros Hfl He [H1 H2]. unfold lookup_test. destruct Hfl as [-> | [-> | ->]].
  - change (has SYMBOL_CONST (new_symbol None 0)) with false in H1.
    change (has SYMBOL_CHOICE (new_symbol None 0)) with false in H2. change (0 =? 0) with true. cbn iota.
    unfold has in H1, H2. apply negb_false_iff, Z.eqb_eq in H1, H2.
    apply Z.eqb_eq. rewrite Z.land_lor_distr_r. by rewrite H1, H2.
  - exact H1.
  - exact H2.
Qed.
Lemma lookup_names_ok name fl st :
  fl = 0 ∨ fl = SYMBOL_CONST ∨ fl = SYMBOL_CHOICE → names_ok st → names_ok (sym_lookup name fl st).2.
Proof.
  intros Hfl Hok. pose proof Hok as [Hh He Hb Hd]. rewrite sym_lookup_spec by done.
  destruct (lookup_spec name fl st) eqn:E; [done|].
  set (st' := (add_symbol name fl (bucket name) st).2). set (s0 := Sym (length (syms st))).
  assert (∀ s, s ∈ newest st → ks st' s = ks st s) as Hold.
  { intros s Hs. by apply add_symbol_ks, newest_old. }
  assert (ks st' s0 = new_symbol name fl) as Hs0 by apply add_symbol_new.
  assert (newest st' = s0 :: newest st) as Hw by apply newest_add.
  assert (∀ s n, s ∈ newest st → name = Some n → k_name (ks st s) = Some n →
    same_class (ks st s) (new_symbol name fl) → False) as Hclash.
  { intros s n Hs -> Hn Hc. unfold lookup_spec in E. simpl in E. destruct (const_name n); [done|].
    apply chain_find_none in E. pose proof (proj1 (Forall_forall _ _) E s Hs Hn) as Ht.
    rewrite (lookup_test_class fl) in Ht; [done|done|by apply He|done]. }
  constructor.
  - by apply add_symbol_ok.
  - intros s. rewrite Hw, elem_of_cons. intros [->|Hs]; [|rewrite (Hold s Hs); auto].
    rewrite Hs0. by destruct Hfl as [-> | [-> | ->]].
  - intros s n. rewrite Hw, elem_of_cons. intros [->|Hs]; [|rewrite (Hold s Hs); eauto].
    rewrite Hs0. simpl. intros ->. unfold lookup_spec in E. simpl in E. by destruct (const_name n).
  - intros s s' n. rewrite Hw, !elem_of_cons. intros [->|Hs] [->|Hs']; [done|..].
    + rewrite (Hold s' Hs'), Hs0. intros Hn Hn' [Hc1 Hc2]. by destruct (Hclash s' n Hs' Hn Hn').
    + rewrite (Hold s Hs), Hs0. intros Hn Hn' Hc. by destruct (Hclash s n Hs Hn' Hn).
    + rewrite (Hold s Hs), (Hold s' Hs'). eauto.
Qed.
Lemma edit_names_ok st st' : same_names st st' → names_ok st → names_ok st'.
Proof.
  intros [Hh Hl Hn Hc] [Hok He Hb Hd]. assert (newest st' = newest st) as Hw by (unfold newest; by rewrite Hl).
  constructor.
  - intros h. unfold chain. rewrite Hh. change (default [] (symbol_hash st !! h)) with (chain st h).
    rewrite Hok, Hw. apply list_filter_iff. intros s. by rewrite Hn.
  - intros s Hs. rewrite Hw in Hs. destruct (Hc s) as [-> ->]. auto.
  - intros s n Hs. rewrite Hw in Hs. rewrite Hn. eauto.
  - intros s s' n Hs Hs'. rewrite Hw in Hs, Hs'. rewrite !Hn. intros H1 H2 [H3 H4].
    destruct (Hc s), (Hc s'). apply (Hd s s' n); try done. split; congruence.
Qed.
Lemma parsed_ok st : parsed st → names_ok st.
Proof.
  induction 1 as [|st st1 _ IH Hstep]; [|destruct Hstep as [n st|n st|n st|st st1 Hs]].
  - constructor; [apply empty_hash_ok|..]; intros s *; by intros ?%not_elem_of_nil.
  - apply lookup_names_ok; auto.
  - apply lookup_names_ok; auto.
  - apply lookup_names_ok; auto.
  - by eapply edit_names_ok.
Qed.

(** C24: In every table the parser can build, by any sequence of lookups and of
    changes that leave names and kinds alone, the chains are in order, a name
    belongs to at most one word, one constant and one choice, and, unless a
    choice has taken the name, [sym_find] finds exactly the word. *)
Theorem parsed_names st n s :
  parsed st → const_name n = None →
  (∀ c, c ∈ newest st → k_name (ks st c) = Some n → has SYMBOL_CHOICE (ks st c) = false) →
  names_ok st ∧
  (sym_find (Some n) st = Some s ↔
   s ∈ newest st ∧ k_name (ks st s) = Some n ∧ has SYMBOL_CONST (ks st s) = false).
Proof.
  intros Hp%parsed_ok Hn Hch. split; [done|]. destruct Hp as [Hh _ _ Hd].
  assert (∀ k, find_test (k_flags k) = negb (has SYMBOL_CONST k)) as Hft.
  { intros k. unfold find_test, has. by rewrite negb_involutive. }
  unfold sym_find. simpl. rewrite Hn, Hh, (chain_find_filter st n find_test). split.
  - intros (Hs & Hk & Ht)%chain_find_some. rewrite Hft in Ht. by apply negb_true_iff in Ht.
  - intros (Hs & Hk & Hc). destruct (chain_find st n find_test (newest st)) as [s'|] eqn:E.
    + apply chain_find_some in E as (Hs' & Hk' & Ht'). rewrite Hft in Ht'. apply negb_true_iff in Ht'.
      f_equal. apply (Hd s' s n); try done. split; [congruence|]. by rewrite !Hch.
    + apply chain_find_none in E. pose proof (proj1 (Forall_forall _ _) E s Hs Hk) as Ht.
      rewrite Hft, Hc in Ht. done.
Qed.
End lookup.

Lemma lookup_refines_witness :
  let '(s, st') := @sym_lookup x86_64 (Some (cs "FOO")) 0 empty_table in
  @hash_ok x86_64 st' ∧ s = Sym 0.
Proof.
  pose proof (@lookup_refines x86_64 (Some (cs "FOO")) 0 empty_table empty_hash_ok) as H.
  destruct (@sym_lookup x86_64 (Some (cs "FOO")) 0 empty_table) as [s st'] eqn:E.
  destruct H as (H1 & [H2 _] & _). split; [exact H1|exact H2].
Defined.
Lemma lookup_interns_witness :
  let '(s, st1) := @sym_lookup x86_64 (Some (cs "FOO")) 0 empty_table in
  @sym_lookup x86_64 (Some (cs "FOO")) 0 st1 = (s, st1).
Proof.
  pose proof (@lookup_interns x86_64 (cs "FOO") (cs "BAR") 0 0 empty_table empty_hash_ok) as H.
  destruct (@sym_lookup x86_64 (Some (cs "FOO")) 0 empty_table) as [s st1] eqn:E.
  exact (proj1 H).
Defined.
Definition one_name : state := (@sym_lookup x86_64 (Some (cs "FOO")) 0 empty_table).2.
Lemma parsed_names_witness :
  @parsed x86_64 one_name ∧ @sym_find x86_64 (Some (cs "FOO")) one_name = Some (Sym 0).
Proof.
  assert (@parsed x86_64 one_name) as Hp.
  { unfold one_name. eapply parsed_step; [apply parsed_start|apply parse_word]. }
  split; [exact Hp|].
  apply (@parsed_names x86_64 one_name (cs "FOO") (Sym 0) Hp eq_refl).
  - intros c Hc. apply (proj1 (Forall_forall (λ c, k_name (ks one_name c) = Some (cs "FOO") →
      has SYMBOL_CHOICE (ks one_name c) = false) (newest one_name))); [|exact Hc].
    apply (bool_decide_unpack _). vm_compute. exact I.
  - split; [|split; reflexivity]. apply (bool_decide_unpack _). vm_compute. exact I.
Defined.
Example strhash_foo : @strhash x86_64 (cs "FOO") = 0xeccd95f7.
Proof. vm_compute. reflexivity. Qed.
End KconfigLookup.
