(* ===== verification/KconfigConf.v ===== *)
(** * Kconfig: configuration files (scripts/config/confdata.c)

    The reader of .config files, line by line, the calculation that follows
    it, and the printers of symbol values.  A file is the list of its bytes;
    that a file cannot be opened is [None].  Values are read into
    [def[S_DEF_USER]]: the other slots serve include/config/auto.conf, which
    this build does not write ([conf_write_autoconf] returns at once).  The
    environment variables that rename files and the prefix are taken as not
    set. *)

From S2P Require Import Prelude CLib KconfigExpr KconfigSym KconfigSet KconfigLookup.
Open Scope Z_scope.

Module KconfigConf.
Import KconfigExpr KconfigSym KconfigSet KconfigLookup.

(** The symbols and the counter of confdata.c. *)
Record conf := Conf { c_st : state; c_warnings : Z }.
Definition on_st (f : state → state) (c : conf) : conf := Conf (f (c_st c)) (c_warnings c).
Definition conf_warning (c : conf) : conf := Conf (c_st c) (c_warnings c + 1).

Definition CONFIG_ : list Z := cs "CONFIG_".

(** ** Escaping (symbol.c) *)

Definition special (c : Z) : bool := (c =? 34) || (c =? 92).
(** The size of the buffer, and what is written to it. *)
Definition escape_size (s : list Z) : nat := length s + 2 + 1 + length (List.filter special s).
Fixpoint escape_body (s : list Z) : list Z :=
  match s with
  | [] => []
  | c :: s => if special c then 92 :: c :: escape_body s else c :: escape_body s
  end.
Definition sym_escape_string_value (s : list Z) : result (list Z) :=
  let res := [34] ++ escape_body s ++ [34] in
  if decide (length res < escape_size s)%nat then Ret res else Fault OutOfBounds.

(** The string after its opening quote, to the closing one; [None] if there
    is no closing quote. *)
Fixpoint unescape (p : list Z) : option (list Z) :=
  match p with
  | [] => None
  | c :: p =>
      if c =? 34 then Some []
      else if c =? 92 then
        match p with
        | [] => None
        | d :: p => cons d <$> unescape p
        end
      else cons c <$> unescape p
  end.

(** ** Reading *)

Definition raise_user (s : symbol) (v : symbol_value) (st : state) : state :=
  upd s (λ k, raise SYMBOL_DEF_USER (set_user v k)) st.
Definition user_val (st : state) (s : symbol) : symbol_value := k_user (ks st s).

(** [true] where the source returns 1. *)
Definition conf_set_sym_val (s : symbol) (p : list Z) (c : conf) : bool * conf :=
  let st := c_st c in
  let set_tri (t : tristate) := (false, on_st (raise_user s (Val (v_val (user_val st s)) t)) c) in
  let set_text (t : list Z) :=
    if sym_string_valid (k_type (ks st s)) t
    then (false, on_st (raise_user s (Val (VStr t) (v_tri (user_val st s)))) c)
    else (true, conf_warning c) in
  let set_bool :=
    if head_byte p =? 121 then set_tri yes
    else if head_byte p =? 110 then set_tri no
    else (true, conf_warning c) in
  match k_type (ks st s) with
  | S_TRISTATE => if head_byte p =? 109 then set_tri mod_ else set_bool
  | S_BOOLEAN => set_bool
  | S_STRING =>
      if head_byte p =? 34 then
        match unescape (tail p) with
        | Some t => set_text t
        | None => (true, conf_warning c)
        end
      else (false, c)
  | S_INT | S_HEX => set_text p
  | S_UNKNOWN => (false, c)
  end.

(** [conf_reset(S_DEF_USER)] *)
Definition conf_reset (st : state) : state :=
  let reset (k : ksym) :=
    let k := lower (SYMBOL_DEF_USER .| SYMBOL_VALID) k in
    set_user (Val VNull no) (if has SYMBOL_CHOICE k then raise SYMBOL_DEF_USER k else k) in
  set_syms (reset <$> syms st) st.

(** [compat_getline]: the lines with their newlines. *)
Fixpoint getlines (cur l : list Z) : list (list Z) :=
  match l with
  | [] => if decide (cur = []) then [] else [cur]
  | c :: l => if c =? 10 then (cur ++ [c]) :: getlines [] l else getlines (cur ++ [c]) l
  end.
(** The string at the start of a line: a NUL byte ends it. *)
Fixpoint cut0 (l : list Z) : list Z :=
  match l with
  | [] => []
  | c :: l => if c =? 0 then [] else c :: cut0 l
  end.

Fixpoint strip_prefix (p s : list Z) : option (list Z) :=
  match p, s with
  | [], _ => Some s
  | _ :: _, [] => None
  | a :: p, b :: s => if a =? b then strip_prefix p s else None
  end.
(** What is before the first [c] and after it. *)
Definition split_char (s : list Z) (c : Z) : option (list Z * list Z) :=
  i ← strchr s c; Some (take i s, drop (S i) s).
(** The value of a line without its end. *)
Definition trim_line (p : list Z) : list Z :=
  match split_char p 10 with
  | Some (v, _) => match last v with Some c => if c =? 13 then take (length v - 1) v else v | None => v end
  | None => p
  end.

Section conf.
Context {A : Arch}.

(** What the value of a choice's value means for the choice. *)
Definition update_choice (s : symbol) (c : conf) : result conf :=
  if sym_is_choice_value (c_st c) s then
    cs ← choice_of (c_st c) s;
    cs ← of_option NullDeref cs;
    let t := v_tri (user_val (c_st c) s) in
    let old := v_tri (user_val (c_st c) cs) in
    let c :=
      match t with
      | no => c
      | mod_ =>
          if decide (old = yes) then on_st (upd cs (lower SYMBOL_DEF_USER)) (conf_warning c) else c
      | yes =>
          on_st (upd cs (λ k, set_user (Val (VSym s) (v_tri (k_user k))) k))
            (if decide (old = no) then c else conf_warning c)
      end in
    Ret (on_st (upd cs (λ k, set_user (Val (v_val (k_user k)) (EXPR_OR old t)) k)) c)
  else Ret c.

(** A line "# CONFIG_... is not set"; of a line "#" with no newline the
    source reads what an earlier line has left in the buffer. *)
Definition read_comment (line : list Z) (c : conf) : result conf :=
  match line with
  | _ :: _ :: r =>
      match strip_prefix CONFIG_ r ≫= λ r, split_char r 32 with
      | None => Ret c
      | Some (name, p) =>
          match strip_prefix (cs "is not set") p with
          | None => Ret c
          | Some _ =>
              match sym_find (Some name) (c_st c) with
              | None => Ret (on_st (conf_set_changed true) c)
              | Some s =>
                  let c :=
                    match k_type (ks (c_st c) s) with
                    | S_BOOLEAN | S_TRISTATE =>
                        on_st (raise_user s (Val (v_val (user_val (c_st c) s)) no)) c
                    | _ => c
                    end in
                  update_choice s c
              end
          end
      end
  | _ => Fault OutOfBounds
  end.
Definition read_setting (r : list Z) (c : conf) : result conf :=
  match split_char r 61 with
  | None => Ret c
  | Some (name, p) =>
      let p := trim_line p in
      match sym_find (Some name) (c_st c) with
      | None => Ret (on_st (conf_set_changed true) c)
      | Some s =>
          let '(err, c) := conf_set_sym_val s p c in
          if (err : bool) then Ret c else update_choice s c
      end
  end.
Definition read_line (line : list Z) (c : conf) : result conf :=
  if head_byte line =? 35 then read_comment line c
  else
    match strip_prefix CONFIG_ line with
    | Some r => read_setting r c
    | None =>
        Ret (if (head_byte line =? 13) || (head_byte line =? 10) then c else conf_warning c)
    end.
Fixpoint read_lines (l : list (list Z)) (c : conf) : result conf :=
  match l with
  | [] => Ret c
  | line :: l => c ← read_line (cut0 line) c; read_lines l c
  end.

(** [conf_read_simple(name, S_DEF_USER)] of a file that is named. *)
Definition conf_read_simple (file : option (list Z)) (st : state) : result (bool * conf) :=
  match file with
  | None => Ret (true, Conf st 0)
  | Some bytes =>
      c ← read_lines (getlines [] bytes) (Conf (conf_reset st) 0);
      Ret (false, c)
  end.

(** [for_all_symbols] *)
Definition all_symbols (st : state) : list symbol :=
  concat (chain st <$> seqZ 0 SYMBOL_HASHSIZE).

(** Whether a calculated value is not the one of the file. *)
Definition differs (s : symbol) (st : state) : result bool :=
  let k := ks st s in
  if sym_is_choice st s || has SYMBOL_NO_WRITE k then Ret false
  else if has SYMBOL_DEF_USER k && has SYMBOL_WRITE k then
    match k_type k with
    | S_BOOLEAN | S_TRISTATE => Ret (negb (bool_decide (v_tri (k_user k) = tri st s)))
    | _ =>
        a ← as_text (v_val (k_curr k));
        b ← as_text (v_val (k_user k));
        Ret (negb (strcmp_eq a b))
    end
  else Ret (has SYMBOL_DEF_USER k || has SYMBOL_WRITE k).
Fixpoint check_values (l : list symbol) (n : Z) (st : state) : result (Z * state) :=
  match l with
  | [] => Ret (n, st)
  | s :: l =>
      st ← sym_calc_value s st;
      d ← differs s st;
      check_values l (if (d : bool) then n + 1 else n) st
  end.
(** User values that do not count, or are out of range, are dropped; every
    string is in range. *)
Fixpoint drop_values (l : list symbol) (n : Z) (st : state) : result (Z * state) :=
  match l with
  | [] => Ret (n, st)
  | s :: l =>
      if sym_has_value st s && negb (sym_is_choice_value st s) then
        let st :=
          if decide (k_visible (ks st s) = no ∧ n = 0) then upd s (lower SYMBOL_DEF_USER) st else st in
        match k_type (ks st s) with
        | S_INT | S_HEX =>
            t ← as_text (v_val (k_user (ks st s)));
            '(ok, st) ← sym_string_within_range s t st;
            if (ok : bool) then drop_values l n st
            else drop_values l (n + 1) (upd s (lower (SYMBOL_VALID .| SYMBOL_DEF_USER)) st)
        | _ => drop_values l n st
        end
      else drop_values l n st
  end.
Definition conf_read (file : option (list Z)) (st : state) : result (bool * state) :=
  '(err, c) ← conf_read_simple file (conf_set_changed false st);
  st ← sym_calc_value (modules (c_st c)) (c_st c);
  if (err : bool) then Ret (true, st)
  else
    '(n, st) ← check_values (all_symbols st) 0 st;
    '(n, st) ← drop_values (all_symbols st) n st;
    Ret (false, if (c_warnings c =? 0) && (n =? 0) then st else conf_set_changed true st).
End conf.

(** ** Writing *)

Definition is_unset (ty : symbol_type) (value : list Z) : bool :=
  match ty with S_BOOLEAN | S_TRISTATE => head_byte value =? 110 | _ => false end.
(** [skip_unset]: the argument of the printer. *)
Definition kconfig_print_symbol (ty : symbol_type) (name value : list Z) (skip_unset : bool) : list Z :=
  if is_unset ty value then
    if skip_unset then [] else cs "# " ++ CONFIG_ ++ name ++ cs " is not set" ++ [10]
  else CONFIG_ ++ name ++ cs "=" ++ value ++ [10].

(** A comment is printed line by line. *)
Fixpoint comment_lines (cur l : list Z) : list (list Z) :=
  match l with
  | [] => [cur]
  | c :: l => if c =? 10 then cur :: comment_lines [] l else comment_lines (cur ++ [c]) l
  end.
Definition comment_line (start : list Z) (l : list Z) : list Z :=
  start ++ (if decide (l = []) then [] else 32 :: l) ++ [10].
Definition kconfig_print_comment (value : list Z) : list Z :=
  concat (comment_line (cs "#") <$> comment_lines [] value).
Definition header_print_comment (value : list Z) : list Z :=
  cs "/*" ++ [10] ++ concat (comment_line (cs " *") <$> comment_lines [] value) ++ cs " */" ++ [10].

Definition header_print_symbol (ty : symbol_type) (name value : list Z) : list Z :=
  let define (suffix text : list Z) := cs "#define " ++ CONFIG_ ++ name ++ suffix ++ cs " " ++ text ++ [10] in
  match ty with
  | S_BOOLEAN | S_TRISTATE =>
      if head_byte value =? 110 then []
      else define (if head_byte value =? 109 then cs "_MODULE" else []) (cs "1")
  | S_HEX => define [] ((if is_0x value then [] else cs "0x") ++ value)
  | S_STRING | S_INT => define [] value
  | S_UNKNOWN => []
  end.

(** The text that a symbol is printed with. *)
Definition print_text (s : symbol) (st : state) : result (option (list Z) * state) :=
  match k_type (ks st s) with
  | S_UNKNOWN => Ret (None, st)
  | S_STRING =>
      '(t, st) ← text_value sym_calc_value s st;
      t ← sym_escape_string_value t;
      Ret (Some t, st)
  | _ => '(t, st) ← text_value sym_calc_value s st; Ret (Some t, st)
  end.
(** [conf_write_symbol] with the printer of .config files. *)
Definition conf_write_symbol (s : symbol) (skip_unset : bool) (st : state) : result (list Z * state) :=
  '(t, st) ← print_text s st;
  match t with
  | None => Ret ([], st)
  | Some t =>
      name ← of_option NullDeref (k_name (ks st s));
      Ret (kconfig_print_symbol (k_type (ks st s)) name t skip_unset, st)
  end.
End KconfigConf.
