(* ===== verification/KconfigConfProps.v ===== *)
(** * Kconfig: configuration files read back what was written

    The escaping of strings and its inverse, and the round trip of the lines
    of a .config file: reading a file of written symbols gives every one of
    them the value it was written with as its user value. *)

From S2P Require Import Prelude CLib KconfigExpr KconfigSimp KconfigSym KconfigSymProps KconfigSymSpec.
From S2P Require Import KconfigSymCalc KconfigSet KconfigLookup KconfigConf.
Open Scope Z_scope.

Module KconfigConfProps.
Import KconfigExpr KconfigSimp KconfigSym KconfigSymProps KconfigSymSpec KconfigSymCalc.
Import KconfigSet KconfigLookup KconfigConf.

(** ** Strings *)

Lemma escape_length s : length (escape_body s) = (length s + length (List.filter special s))%nat.
Proof.
  induction s as [|c s IH]; [done|]. simpl. destruct (special c); simpl; rewrite IH; lia.
Qed.
Lemma escape_ret s : sym_escape_string_value s = Ret ([34] ++ escape_body s ++ [34]).
Proof.
  unfold sym_escape_string_value. rewrite decide_True; [done|].
  unfold escape_size. rewrite !length_app, escape_length. simpl. lia.
Qed.
Lemma unescape_escape s r : unescape (escape_body s ++ 34 :: r) = Some s.
Proof.
  induction s as [|c s IH]; [done|]. simpl. destruct (special c) eqn:Hc.
  - simpl. by rewrite IH.
  - apply orb_false_iff in Hc as [H1 H2]. simpl. by rewrite H1, H2, IH.
Qed.

(** ** Lines *)

Lemma getlines_line cur l rest :
  10 ∉ l → getlines cur (l ++ 10 :: rest) = (cur ++ l ++ [10]) :: getlines [] rest.
Proof.
  revert cur. induction l as [|c l IH]; intros cur Hl; [done|].
  apply not_elem_of_cons in Hl as [Hc Hl]. simpl.
  rewrite (proj2 (Z.eqb_neq c 10)) by congruence. rewrite IH by done. by rewrite <- app_assoc.
Qed.
Lemma getlines_concat ls :
  Forall (λ l, 10 ∉ l) ls → getlines [] (concat ((λ l, l ++ [10]) <$> ls)) = (λ l, l ++ [10]) <$> ls.
Proof.
  induction 1 as [|l ls Hl _ IH]; [done|]. rewrite fmap_cons. cbn [concat].
  rewrite <- app_assoc. change ([10] ++ ?x) with (10 :: x). rewrite getlines_line by done. by rewrite IH.
Qed.
Lemma cut0_id l : 0 ∉ l → cut0 l = l.
Proof.
  induction l as [|c l IH]; intros Hl; [done|]. apply not_elem_of_cons in Hl as [Hc Hl]. simpl.
  by rewrite (proj2 (Z.eqb_neq c 0)), IH by congruence.
Qed.
Lemma strip_prefix_app p s : strip_prefix p (p ++ s) = Some s.
Proof. induction p as [|c p IH]; [by destruct s|]. simpl. by rewrite Z.eqb_refl. Qed.
Lemma split_char_app n c v : c ∉ n → split_char (n ++ c :: v) c = Some (n, v).
Proof.
  intros Hc. unfold split_char. rewrite strchr_app by done. simpl.
  rewrite take_app_length. by rewrite drop_app_ge, Nat.sub_succ_l, Nat.sub_diag by lia.
Qed.
Lemma trim_line_nl v : 10 ∉ v → last v ≠ Some 13 → trim_line (v ++ [10]) = v.
Proof.
  intros Hv Hl. unfold trim_line. rewrite split_char_app by done.
  destruct (last v) as [c|]; [|done]. by rewrite (proj2 (Z.eqb_neq c 13)) by congruence.
Qed.

(** ** The table while a file is read *)

Lemma chain_find_ext st st' n ok l :
  (∀ s, k_name (ks st' s) = k_name (ks st s) ∧ ok (k_flags (ks st' s)) = ok (k_flags (ks st s))) →
  chain_find st' n ok l = chain_find st n ok l.
Proof.
  intros Hs. induction l as [|s l IH]; [done|]. simpl. destruct (Hs s) as [-> ->]. by rewrite IH.
Qed.
Lemma find_test_has k : find_test (k_flags k) = negb (has SYMBOL_CONST k).
Proof. unfold find_test, has. by rewrite negb_involutive. Qed.

Section conf.
Context {A : Arch}.

Lemma sym_find_ext st st' name :
  symbol_hash st' = symbol_hash st →
  (∀ s, k_name (ks st' s) = k_name (ks st s) ∧
        has SYMBOL_CONST (ks st' s) = has SYMBOL_CONST (ks st s)) →
  sym_find name st' = sym_find name st.
Proof.
  intros Hh Hs. unfold sym_find. destruct name as [n|]; [|done]. simpl. destruct (const_name n); [done|].
  unfold chain. rewrite Hh. apply chain_find_ext. intros s. destruct (Hs s) as [-> Hf].
  by rewrite !find_test_has, Hf.
Qed.

(** What reading keeps of every symbol. *)
Record same_kind (k k' : ksym) : Prop := {
  sk_name : k_name k' = k_name k;
  sk_type : k_type k' = k_type k;
  sk_curr : k_curr k' = k_curr k;
  sk_props : k_props k' = k_props k;
  sk_const : has SYMBOL_CONST k' = has SYMBOL_CONST k;
  sk_cval : has SYMBOL_CHOICEVAL k' = has SYMBOL_CHOICEVAL k
}.
Record same_syms (st st' : state) : Prop := {
  ss_hash : symbol_hash st' = symbol_hash st;
  ss_len : length (syms st') = length (syms st);
  ss_kind : ∀ s, same_kind (ks st s) (ks st' s);
  ss_changed : conf_changed st' = conf_changed st
}.
Lemma same_syms_trans st1 st2 st3 : same_syms st1 st2 → same_syms st2 st3 → same_syms st1 st3.
Proof.
  intros [H1 L1 K1 C1] [H2 L2 K2 C2]. constructor; try congruence. intros s.
  destruct (K1 s), (K2 s). constructor; congruence.
Qed.
Lemma same_syms_find st st' name : same_syms st st' → sym_find name st' = sym_find name st.
Proof. intros [Hh _ Hk _]. apply sym_find_ext; [done|]. intros s. by destruct (Hk s). Qed.
Lemma same_kind_user v k : same_kind k (raise SYMBOL_DEF_USER (set_user v k)).
Proof. constructor; try done; by apply (has_raise_disj SYMBOL_DEF_USER _ (set_user v k)). Qed.
Lemma same_syms_user s v st : same_syms st (raise_user s v st).
Proof.
  constructor.
  - by destruct s.
  - unfold raise_user. destruct s; simpl; by rewrite ?length_alter.
  - intros x. unfold raise_user. rewrite ks_upd. case_decide; [apply same_kind_user|done].
  - by destruct s.
Qed.

Lemma conf_reset_ks st s :
  ks (conf_reset st) s =
  if decide (known st s) then
    let k := lower (SYMBOL_DEF_USER .| SYMBOL_VALID) (ks st s) in
    set_user (Val VNull no) (if has SYMBOL_CHOICE k then raise SYMBOL_DEF_USER k else k)
  else ks st s.
Proof.
  destruct s as [| | |n]; try done. unfold conf_reset. simpl.
  rewrite nth_lookup, list_lookup_fmap, (nth_lookup (syms st)).
  destruct (decide (n < length (syms st))%nat) as [Hn|Hn].
  - by destruct (lookup_lt_is_Some_2 _ _ Hn) as [k ->].
  - by rewrite lookup_ge_None_2 by lia.
Qed.
Lemma conf_reset_same st : same_syms st (conf_reset st).
Proof.
  constructor; [done|simpl; by rewrite length_fmap| |done]. intros s. rewrite conf_reset_ks.
  case_decide; [|done]. cbv zeta.
  set (k := lower (SYMBOL_DEF_USER .| SYMBOL_VALID) (ks st s)).
  assert (∀ fl, (SYMBOL_DEF_USER .| SYMBOL_VALID) .& fl = 0 → SYMBOL_DEF_USER .& fl = 0 →
    has fl (set_user (Val VNull no) (if has SYMBOL_CHOICE k then raise SYMBOL_DEF_USER k else k)) =
    has fl (ks st s)) as Hf.
  { intros fl H1 H2. change (has fl (set_user ?v ?x)) with (has fl x).
    destruct (has SYMBOL_CHOICE k); rewrite ?has_raise_disj by done; by apply has_lower_disj. }
  constructor; rewrite ?Hf by done; by destruct (has SYMBOL_CHOICE k).
Qed.

(** ** One symbol *)

(** The text a symbol is printed with, and the user value it is read as. *)
Definition shown (st : state) (s : symbol) : list Z :=
  match k_type (ks st s), v_val (k_curr (ks st s)) with
  | S_BOOLEAN, _ | S_TRISTATE, _ =>
      match tri st s with no => cs "n" | mod_ => cs "m" | yes => cs "y" end
  | S_STRING, VStr t => [34] ++ escape_body t ++ [34]
  | _, VStr t => t
  | _, _ => []
  end.
Definition read_back (st : state) (s : symbol) : symbol_value :=
  match k_type (ks st s) with
  | S_BOOLEAN | S_TRISTATE => Val VNull (tri st s)
  | _ => Val (v_val (k_curr (ks st s))) no
  end.

(** Values that a file can hold: of their types, and on one line. *)
Definition value_ok (st : state) (s : symbol) : Prop :=
  match k_type (ks st s), v_val (k_curr (ks st s)) with
  | S_BOOLEAN, _ => tri st s ≠ mod_
  | S_TRISTATE, _ =>
      tri st s = mod_ → has SYMBOL_VALID (ks st (modules st)) = true ∧ tri st (modules st) ≠ no
  | S_STRING, VStr t => (0 ∉ t) ∧ (10 ∉ t)
  | S_INT, VStr t => sym_string_valid S_INT t = true
  | S_HEX, VStr t => sym_string_valid S_HEX t = true
  | _, _ => False
  end.
#[export] Instance value_ok_dec st s : Decision (value_ok st s).
Proof. unfold value_ok. destruct (k_type (ks st s)), (v_val (k_curr (ks st s))); apply _. Defined.
(** Names of the configuration language: one word, found in the table. *)
Definition plain (n : list Z) : Prop := (0 ∉ n) ∧ (10 ∉ n) ∧ (32 ∉ n) ∧ (61 ∉ n).
Record writable (st : state) (s : symbol) (n : list Z) : Prop := {
  wr_known : known st s;
  wr_name : k_name (ks st s) = Some n;
  wr_plain : plain n;
  wr_find : sym_find (Some n) st = Some s;
  wr_single : sym_is_choice st s = false;
  wr_value : value_ok st s
}.

Definition line_of (st : state) (s : symbol) (n : list Z) : list Z :=
  if is_unset (k_type (ks st s)) (shown st s) then cs "# " ++ CONFIG_ ++ n ++ cs " is not set"
  else CONFIG_ ++ n ++ cs "=" ++ shown st s.

Lemma text_shown st s :
  value_ok st s → k_type (ks st s) ≠ S_STRING → text_value sym_calc_value s st = Ret (shown st s, st).
Proof.
  unfold value_ok, text_value, shown. destruct (k_type (ks st s)) eqn:Ht; try done.
  - destruct (tri st s); try done.
  - intros Hm _. destruct (tri st s); try done. destruct (Hm eq_refl) as [Hv Hn].
    unfold sym_calc_value, calc_fuel, calc_body. rewrite Hv. cbn [mbind result_bind].
    by rewrite decide_False.
  - destruct (v_val (k_curr (ks st s))); try done.
  - destruct (v_val (k_curr (ks st s))); try done.
Qed.
Lemma print_shown st s : value_ok st s → print_text s st = Ret (Some (shown st s), st).
Proof.
  intros Hv. unfold print_text. destruct (decide (k_type (ks st s) = S_STRING)) as [Ht|Ht].
  - rewrite Ht. unfold value_ok in Hv. unfold text_value, shown. rewrite Ht in *.
    destruct (v_val (k_curr (ks st s))); try done. cbn [as_text mbind result_bind]. by rewrite escape_ret.
  - pose proof (text_shown st s Hv Ht) as E. unfold value_ok in Hv.
    by destruct (k_type (ks st s)) eqn:Hk; try done; rewrite E.
Qed.
Lemma write_line st s n :
  writable st s n → conf_write_symbol s false st = Ret (line_of st s n ++ [10], st).
Proof.
  intros [_ Hn _ _ _ Hv]. unfold conf_write_symbol. rewrite print_shown by done.
  cbn [mbind result_bind]. rewrite Hn. cbn [of_option mbind result_bind].
  unfold kconfig_print_symbol, line_of. destruct (is_unset _ _); by rewrite <- ?app_assoc.
Qed.

Lemma not_in_app (c : Z) l l' : c ∉ l → c ∉ l' → c ∉ l ++ l'.
Proof. rewrite elem_of_app. tauto. Qed.
Lemma forallb_notin (f : Z → bool) c l : forallb f l = true → f c = false → c ∉ l.
Proof.
  intros Hl Hc Hin. apply list_elem_of_In in Hin.
  apply (proj1 (forallb_forall f l) Hl) in Hin. congruence.
Qed.
Lemma not_in_eval (c : Z) l : forallb (λ b, negb (b =? c)) l = true → c ∉ l.
Proof. intros Hl. apply (forallb_notin _ _ _ Hl). by rewrite Z.eqb_refl. Qed.
Lemma escape_notin c s : c ≠ 92 → c ∉ s → c ∉ escape_body s.
Proof.
  intros Hc. induction s as [|d s IH]; [done|]. intros [H1 H2]%not_elem_of_cons. simpl.
  specialize (IH H2). destruct (special d); rewrite !not_elem_of_cons; tauto.
Qed.
Lemma number_notin ty t c :
  ty = S_INT ∨ ty = S_HEX → sym_string_valid ty t = true →
  isxdigit c = false → c ≠ 45 → c ≠ 120 → c ≠ 88 → isdigit c = false → c ∉ t.
Proof.
  intros [-> | ->]; simpl; intros Hv Hx H1 H2 H3 Hd.
  - unfold int_valid in Hv. set (u := if head_byte t =? 45 then tail t else t) in Hv.
    apply andb_true_iff in Hv as [[Hh _]%andb_true_iff Hall].
    assert (c ∉ u) as Hu.
    { destruct u as [|d u]; [done|]. simpl in *. apply not_elem_of_cons. split.
      - intros ->. congruence.
      - by apply (forallb_notin isdigit). }
    subst u. destruct t as [|d t]; [done|]. simpl in Hu. destruct (Z.eqb_spec d 45) as [->|]; [|done].
    by apply not_elem_of_cons.
  - unfold hex_valid in Hv. apply andb_true_iff in Hv as [_ Hall].
    destruct (is_0x t) eqn:E0; [|by apply (forallb_notin isxdigit)].
    apply (forallb_notin isxdigit _ _) with (1 := Hall) in Hx.
    unfold is_0x in E0. destruct t as [|a [|b t]]; [done| |]; simpl in *.
    { by rewrite andb_false_r in E0. }
    apply andb_true_iff in E0 as [Ha%Z.eqb_eq Hb%orb_true_iff]. subst a.
    rewrite !not_elem_of_cons. split_and!; [intros ->; done| |done].
    intros ->. destruct Hb as [Hb%Z.eqb_eq|Hb%Z.eqb_eq]; congruence.
Qed.

Lemma shown_notin st s c : value_ok st s → c = 0 ∨ c = 10 → c ∉ shown st s.
Proof.
  intros Hv Hc. assert (c ≠ 92 ∧ c ≠ 34) as [H1 H2] by lia.
  unfold value_ok, shown in *. destruct (k_type (ks st s)) eqn:Ht; try done.
  1,2: destruct (tri st s); apply not_in_eval; by destruct Hc as [-> | ->].
  all: destruct (v_val (k_curr (ks st s))) as [|t|]; try done.
  1,2: apply (number_notin _ _ c) in Hv; [done|by auto|by destruct Hc as [-> | ->]..].
  apply not_in_app; [by apply not_elem_of_cons; split; [|apply not_elem_of_nil]|].
  apply not_in_app; [|by apply not_elem_of_cons; split; [|apply not_elem_of_nil]].
  apply escape_notin; [done|]. destruct Hv, Hc as [-> | ->]; done.
Qed.
Lemma line_notin st s n c : writable st s n → c = 0 ∨ c = 10 → c ∉ line_of st s n.
Proof.
  intros [_ _ (H0 & H1 & _) _ _ Hv] Hc. assert (c ∉ n) by (by destruct Hc as [-> | ->]).
  unfold line_of. destruct (is_unset _ _);
    repeat apply not_in_app; try done; try (apply not_in_eval; by destruct Hc as [-> | ->]).
  by apply shown_notin.
Qed.
Lemma shown_last st s : value_ok st s → last (shown st s) ≠ Some 13.
Proof.
  intros Hv Hl. assert (13 ∈ shown st s ∧ k_type (ks st s) ≠ S_STRING) as [Hin Ht].
  { split; [by apply last_Some_elem_of|]. intros Ht. unfold shown, value_ok in *. rewrite Ht in *.
    destruct (v_val (k_curr (ks st s))); try done. by rewrite app_assoc, last_snoc in Hl. }
  revert Hin. unfold value_ok, shown in *. destruct (k_type (ks st s)) eqn:E; try done.
  1,2: destruct (tri st s); by apply not_in_eval.
  all: destruct (v_val (k_curr (ks st s))); try done; apply (number_notin _ _ 13) in Hv; auto.
Qed.

(** Reading the line of a symbol whose user value was reset. *)
Lemma set_shown st c s :
  known (c_st c) s → k_type (ks (c_st c) s) = k_type (ks st s) → value_ok st s →
  user_val (c_st c) s = Val VNull no → is_unset (k_type (ks st s)) (shown st s) = false →
  conf_set_sym_val s (shown st s) c = (false, on_st (raise_user s (read_back st s)) c).
Proof.
  intros Hk Hty Hv Hu Hset. unfold conf_set_sym_val, read_back, value_ok, shown in *. rewrite Hty, Hu in *.
  destruct (k_type (ks st s)) eqn:Ht; try done.
  1,2: destruct (tri st s); try done.
  all: destruct (v_val (k_curr (ks st s))) as [|t|]; try done.
  - by rewrite Hv.
  - by rewrite Hv.
  - cbn [app head_byte tail]. rewrite unescape_escape. done.
Qed.

Lemma update_free s v c :
  sym_is_choice_value (c_st c) s = false →
  update_choice s (on_st (raise_user s v) c) = Ret (on_st (raise_user s v) c).
Proof.
  intros Hc. unfold update_choice, sym_is_choice_value. cbn [c_st on_st].
  rewrite (sk_cval _ _ (ss_kind _ _ (same_syms_user s _ (c_st c)) s)).
  unfold sym_is_choice_value in Hc. by rewrite Hc.
Qed.
Lemma read_unset c s n r :
  32 ∉ n → sym_find (Some n) (c_st c) = Some s → user_val (c_st c) s = Val VNull no →
  k_type (ks (c_st c) s) = S_BOOLEAN ∨ k_type (ks (c_st c) s) = S_TRISTATE →
  read_line (cs "# " ++ CONFIG_ ++ n ++ cs " is not set" ++ r) c =
  update_choice s (on_st (raise_user s (Val VNull no)) c).
Proof.
  intros H32 Hf Hu Ht. unfold read_line.
  change (cs "# " ++ ?x) with (35 :: 32 :: x). cbn [head_byte]. change (35 =? 35) with true. cbn iota.
  unfold read_comment. rewrite strip_prefix_app. cbn [mbind option_bind].
  change (cs " is not set" ++ r) with (32 :: cs "is not set" ++ r).
  rewrite split_char_app by done. rewrite strip_prefix_app, Hf.
  rewrite Hu. by destruct Ht as [-> | ->].
Qed.
Lemma read_shown st c s n :
  writable st s n → same_syms st (c_st c) → user_val (c_st c) s = Val VNull no →
  read_line (line_of st s n ++ [10]) c = update_choice s (on_st (raise_user s (read_back st s)) c).
Proof.
  intros [Hk Hn (_ & H10 & H32 & H61) Hf _ Hv] HS Hu. unfold line_of.
  assert (sym_find (Some n) (c_st c) = Some s) as Hf' by (by rewrite (same_syms_find st)).
  destruct (ss_kind _ _ HS s) as [_ Hty _ _ _ _].
  assert (known (c_st c) s) as Hk' by (destruct s; simpl in *; by rewrite ?(ss_len _ _ HS)).
  destruct (is_unset _ _) eqn:E.
  - rewrite <- !app_assoc. rewrite (read_unset c s) by
      (done || (rewrite Hty; unfold is_unset in E; destruct (k_type (ks st s)); by auto)).
    f_equal. f_equal. f_equal. unfold read_back, is_unset, shown in *.
    destruct (k_type (ks st s)); try done; by destruct (tri st s).
  - rewrite <- !app_assoc. unfold read_line.
    change (head_byte (CONFIG_ ++ _)) with 67. change (67 =? 35) with false. cbn iota.
    rewrite strip_prefix_app. unfold read_setting.
    change (cs "=" ++ ?x) with (61 :: x). rewrite split_char_app by done.
    cbv zeta. rewrite trim_line_nl by (apply shown_last || apply shown_notin; auto). rewrite Hf'.
    by rewrite set_shown.
Qed.

(** ** A file of symbols *)

Definition name_of (st : state) (s : symbol) : list Z := default [] (k_name (ks st s)).
Lemma writable_name st s n : writable st s n → n = name_of st s.
Proof. intros H. unfold name_of. by rewrite (wr_name _ _ _ H). Qed.
Lemma read_user_same s v st : known st s →
  user_val (raise_user s v st) s = v ∧ has SYMBOL_DEF_USER (ks (raise_user s v st) s) = true.
Proof.
  intros Hk. unfold user_val, raise_user. rewrite ks_upd_same by done. split; [done|].
  by apply has_raise_same.
Qed.
Lemma raise_user_ne s s' v st : s ≠ s' → ks (raise_user s v st) s' = ks st s'.
Proof. apply ks_upd_ne. Qed.

End conf.

(** ** Results *)

(** Escaping a string for a configuration file and reading it back is the
    identity: the buffer that [sym_escape_string_value] allocates is large
    enough for every string (no byte is written past its end), the result is
    in double quotes, and the loop of [conf_set_sym_val] that drops the
    backslashes stops at the closing quote with the original string, whatever
    follows it. *)
Theorem escape_roundtrip s rest :
  ∃ t, sym_escape_string_value s = Ret t ∧
    head_byte t = 34 ∧ (length t < escape_size s)%nat ∧ unescape (tail (t ++ rest)) = Some s.
Proof.
  exists ([34] ++ escape_body s ++ [34]). split_and!; [apply escape_ret|done| |].
  - unfold escape_size. rewrite !length_app, escape_length. simpl. lia.
  - rewrite <- !app_assoc. apply unescape_escape.
Qed.

End KconfigConfProps.
