(* ===== verification/KconfigFile.v ===== *)
(** * Reading a whole configuration file

    A file is a list of lines, of which some are for people only and the
    others hold the value of a symbol each.  Reading it gives every symbol of
    the file its value, and every choice the value that is y. *)

From S2P Require Import Prelude CLib KconfigExpr KconfigSym KconfigSymProps KconfigSet KconfigLookup KconfigConf.
From S2P Require Import KconfigConfProps.
Open Scope Z_scope.

Module KconfigFile.
Import KconfigExpr KconfigSym KconfigSymProps KconfigSet KconfigLookup KconfigConf KconfigConfProps.

(** ** Lines *)

Inductive item := Note (l : list Z) | Line (s : symbol).
Definition item_line (st : state) (i : item) : list Z :=
  match i with Note l => l | Line s => line_of st s (name_of st s) end.
Definition item_sym (i : item) : option symbol := match i with Note _ => None | Line s => Some s end.
Definition file_syms (l : list item) : list symbol := omap item_sym l.
Definition file_text (st : state) (l : list item) : list Z := concat ((λ i, item_line st i ++ [10]) <$> l).

Lemma file_text_app st l l' : file_text st (l ++ l') = file_text st l ++ file_text st l'.
Proof. unfold file_text. by rewrite fmap_app, concat_app. Qed.
Lemma file_syms_app l l' : file_syms (l ++ l') = file_syms l ++ file_syms l'.
Proof. apply omap_app. Qed.

(** A line that the reader passes over. *)
Definition plain_text (l : list Z) : Prop := (0 ∉ l) ∧ (10 ∉ l) ∧ strip_prefix CONFIG_ l = None.
#[export] Instance plain_text_dec l : Decision (plain_text l).
Proof. unfold plain_text. apply _. Defined.
Definition ignored (l : list Z) : Prop := l = [] ∨ l = cs "#" ∨ ∃ r, l = cs "# " ++ r ∧ plain_text r.

Lemma ignored_notin l c : ignored l → c = 0 ∨ c = 10 → c ∉ l.
Proof.
  intros Hl Hc. destruct Hl as [-> |[-> |(r & -> & H0 & H1 & _)]]; [apply not_elem_of_nil| |].
  - apply not_in_eval. by destruct Hc as [-> | ->].
  - apply not_in_app; [apply not_in_eval; by destruct Hc as [-> | ->]|]. by destruct Hc as [-> | ->].
Qed.
Lemma strip_prefix_line p r : 10 ∉ p → strip_prefix p r = None → strip_prefix p (r ++ [10]) = None.
Proof.
  revert r. induction p as [|a p IH]; intros r Hp; [done|]. apply not_elem_of_cons in Hp as [Ha Hp].
  destruct r as [|b r]; cbn.
  - intros _. assert ((a =? 10) = false) as -> by (apply Z.eqb_neq; congruence). done.
  - destruct (a =? b); [|done]. by apply IH.
Qed.

Section file.
Context {A : Arch}.

Lemma read_ignored l c : ignored l → read_line (cut0 (l ++ [10])) c = Ret c.
Proof.
  intros Hl. rewrite cut0_id.
  2: { apply not_in_app; [apply (ignored_notin l); auto|by apply not_in_eval]. }
  destruct Hl as [-> |[-> |(r & -> & _ & _ & Hs)]]; [done|done|]. rewrite <- app_assoc.
  change (cs "# " ++ ?x) with (35 :: 32 :: x). unfold read_line. cbn [head_byte]. change (35 =? 35) with true. cbn iota.
  unfold read_comment. rewrite strip_prefix_line; [done|by apply not_in_eval|done].
Qed.

(** ** Choices *)

(** Whether [d] is a value of choice [c]. *)
Definition of_choice (st : state) (c d : symbol) : bool :=
  sym_is_choice_value st d && match choice_of st d with Ret (Some c') => bool_decide (c' = c) | _ => false end.
(** The user value of a choice after those of its values are read. *)
Definition pick (st : state) (v : symbol_value) (d : symbol) : symbol_value :=
  let t := v_tri (read_back st d) in
  Val (if decide (t = yes) then VSym d else v_val v) (EXPR_OR (v_tri v) t).
Definition picked (st : state) (c : symbol) (l : list symbol) : symbol_value :=
  foldl (pick st) (Val VNull no) (List.filter (of_choice st c) l).

(** At most one value of a choice is y, and then the others are n. *)
Definition exclusive (st : state) (l : list symbol) : Prop :=
  ∀ c d d', d ∈ l → d' ∈ l → d ≠ d' → of_choice st c d = true → of_choice st c d' = true →
    v_tri (read_back st d) = yes → v_tri (read_back st d') = no.

Lemma picked_snoc st c l d :
  picked st c (l ++ [d]) = if of_choice st c d then pick st (picked st c l) d else picked st c l.
Proof.
  unfold picked. rewrite List.filter_app. cbn. destruct (of_choice st c d); rewrite ?app_nil_r; [|done]. by rewrite foldl_app.
Qed.
Lemma EXPR_OR_no a b : EXPR_OR a b = no ↔ a = no ∧ b = no.
Proof. destruct a, b; cbn; intuition congruence. Qed.
Lemma EXPR_OR_yes a b : EXPR_OR a b = yes ↔ a = yes ∨ b = yes.
Proof. destruct a, b; cbn; intuition congruence. Qed.
Lemma picked_no st c l : (∀ d, d ∈ l → of_choice st c d = true → v_tri (read_back st d) = no) → v_tri (picked st c l) = no.
Proof.
  induction l as [|d l IH] using rev_ind; intros Hl; [done|]. rewrite picked_snoc.
  assert (v_tri (picked st c l) = no) as E by (apply IH; set_solver). destruct (of_choice st c d) eqn:Hd; [|done].
  cbn. rewrite E, (Hl d) by (done || set_solver). done.
Qed.
Lemma picked_not_yes st c l : (∀ d, d ∈ l → of_choice st c d = true → v_tri (read_back st d) ≠ yes) → v_tri (picked st c l) ≠ yes.
Proof.
  induction l as [|d l IH] using rev_ind; intros Hl; [done|]. rewrite picked_snoc.
  assert (v_tri (picked st c l) ≠ yes) as E by (apply IH; set_solver). destruct (of_choice st c d) eqn:Hd; [|done].
  cbn. rewrite EXPR_OR_yes. intros [H|H]; [done|]. apply (Hl d); [set_solver|done|done].
Qed.
(** The value that is y is the one of the choice. *)
Lemma picked_yes st c l d : exclusive st l → NoDup l → d ∈ l → of_choice st c d = true → v_tri (read_back st d) = yes →
  picked st c l = Val (VSym d) yes.
Proof.
  induction l as [|x l IH] using rev_ind; intros He Hnd Hd Hc Hy; [by apply not_elem_of_nil in Hd|]. rewrite picked_snoc.
  apply NoDup_app in Hnd as (Hnd & Hdis & _). assert (exclusive st l) as He' by (intros c0 a b Ha Hb; apply (He c0 a b); set_solver).
  apply elem_of_app in Hd as [Hd| ->%list_elem_of_singleton].
  - rewrite IH by done. destruct (of_choice st c x) eqn:Hx; [|done]. unfold pick.
    assert (v_tri (read_back st x) = no) as -> by (apply (He c d x); set_solver). done.
  - rewrite Hc. unfold pick. rewrite Hy. cbn. f_equal. apply EXPR_OR_yes. by right.
Qed.

Lemma choice_of_same st st' s : same_syms st st' → choice_of st' s = choice_of st s.
Proof. intros HS. unfold choice_of, sym_get_choice_prop. by rewrite (sk_props _ _ (ss_kind _ _ HS s)). Qed.
Lemma same_syms_set s f st : (∀ k, same_kind k (f k)) → same_syms st (upd s f st).
Proof.
  intros Hf. split; [by destruct s|destruct s; cbn; by rewrite ?length_alter| |by destruct s].
  intros x. rewrite ks_upd. case_decide; [apply Hf|done].
Qed.
Lemma known_same st st' s : same_syms st st' → known st' s ↔ known st s.
Proof. intros HS. destruct s; cbn; by rewrite ?(ss_len _ _ HS). Qed.

(** The value of [s] counts for its choice. *)
Lemma update_choice_ok s ch c : let t := v_tri (user_val (c_st c) s) in let old := user_val (c_st c) ch in
  sym_is_choice_value (c_st c) s = true → choice_of (c_st c) s = Ret (Some ch) → known (c_st c) ch →
  (t = yes → v_tri old = no) → (t = mod_ → v_tri old ≠ yes) →
  ∃ st', update_choice s c = Ret (Conf st' (c_warnings c)) ∧ same_syms (c_st c) st' ∧ (∀ x, x ≠ ch → ks st' x = ks (c_st c) x) ∧
    user_val st' ch = Val (if decide (t = yes) then VSym s else v_val old) (EXPR_OR (v_tri old) t) ∧
    k_flags (ks st' ch) = k_flags (ks (c_st c) ch).
Proof.
  intros t old Hcv Hch Hk Hy Hm. unfold update_choice. rewrite Hcv, Hch. cbn [mbind result_bind of_option]. fold t. fold old.
  set (f := λ k : ksym, set_user (Val (v_val (k_user k)) (EXPR_OR (v_tri old) t)) k).
  set (g := λ k : ksym, set_user (Val (VSym s) (v_tri (k_user k))) k).
  assert (∀ v k, same_kind k (set_user v k)) as Hsk by (intros; by split).
  assert (same_syms (c_st c) (upd ch f (c_st c))) as S1 by (apply same_syms_set; intros; apply Hsk).
  destruct c as [st w]. cbn [c_st c_warnings on_st] in *. destruct t eqn:Et.
  - exists (upd ch f st). split; [done|]. split; [done|]. split; [intros x Hx; by apply ks_upd_ne|].
    unfold user_val. rewrite ks_upd_same by done. done.
  - rewrite (decide_False (P := v_tri old = yes)) by auto. exists (upd ch f st). split; [done|]. split; [done|].
    split; [intros x Hx; by apply ks_upd_ne|]. unfold user_val. rewrite ks_upd_same by done. done.
  - rewrite (decide_True (P := v_tri old = no)) by auto. exists (upd ch f (upd ch g st)). split; [done|].
    split; [|split].
    + eapply same_syms_trans; apply same_syms_set; intros; apply Hsk.
    + intros x Hx. by rewrite !ks_upd_ne.
    + unfold user_val. rewrite ks_upd_same by (by apply known_upd). by rewrite ks_upd_same.
Qed.

(** ** Reading *)

(** The symbols [l] have been read. *)
Record reading (st : state) (l : list symbol) (c : conf) : Prop := {
  rd_same : same_syms st (c_st c);
  rd_warn : c_warnings c = 0;
  rd_user s : known st s → sym_is_choice st s = false →
    user_val (c_st c) s = (if decide (s ∈ l) then read_back st s else Val VNull no) ∧
    has SYMBOL_DEF_USER (ks (c_st c) s) = bool_decide (s ∈ l);
  rd_choice s : known st s → sym_is_choice st s = true →
    user_val (c_st c) s = picked st s l ∧ has SYMBOL_DEF_USER (ks (c_st c) s) = true
}.
Lemma reading_reset st : reading st [] (Conf (conf_reset st) 0).
Proof.
  assert (∀ s, known st s → user_val (conf_reset st) s = Val VNull no ∧
            has SYMBOL_DEF_USER (ks (conf_reset st) s) = sym_is_choice st s) as Hreset.
  { intros s Hk. unfold user_val. rewrite conf_reset_ks, decide_True by done. cbv zeta.
    split; [done|]. unfold sym_is_choice.
    rewrite (has_lower_disj (SYMBOL_DEF_USER .| SYMBOL_VALID) SYMBOL_CHOICE) by done.
    change (has ?f (set_user ?v ?k)) with (has f k).
    destruct (has SYMBOL_CHOICE _); [by apply has_raise_same|by apply has_lower_same]. }
  split; [apply conf_reset_same|done| |].
  - intros s Hk Hc. cbn [c_st]. destruct (Hreset s Hk) as [-> ->]. rewrite Hc, decide_False, bool_decide_false by apply not_elem_of_nil. done.
  - intros s Hk Hc. cbn [c_st]. destruct (Hreset s Hk) as [-> ->]. by rewrite Hc.
Qed.

(** A symbol of a choice knows it. *)
Definition choice_known (st : state) (s : symbol) : Prop :=
  sym_is_choice_value st s = true →
  match choice_of st s with Ret (Some c) => known st c ∧ sym_is_choice st c = true | _ => False end.
#[export] Instance choice_known_dec st s : Decision (choice_known st s).
Proof. unfold choice_known. destruct (choice_of st s) as [[c|]|]; apply _. Defined.

Lemma elem_snoc_ne (x s : symbol) l : x ≠ s → x ∈ l ++ [s] ↔ x ∈ l.
Proof. rewrite elem_of_app, list_elem_of_singleton. intuition congruence. Qed.
Lemma read_line_step st l c s n : reading st l c → writable st s n → choice_known st s → s ∉ l → exclusive st (l ++ [s]) →
  ∃ c', read_line (line_of st s n ++ [10]) c = Ret c' ∧ reading st (l ++ [s]) c'.
Proof.
  intros [HS Hw Hu Hc] Hwr Hck Hnew He. destruct (Hu s (wr_known _ _ _ Hwr) (wr_single _ _ _ Hwr)) as [Us _].
  rewrite decide_False in Us by done. rewrite (read_shown st) by done.
  pose proof (proj2 (known_same _ _ s HS) (wr_known _ _ _ Hwr)) as Hk. set (c1 := on_st _ c).
  destruct (read_user_same s (read_back st s) (c_st c) Hk) as [U1 D1].
  assert (same_syms st (c_st c1)) as S1 by (eapply same_syms_trans; [done|apply same_syms_user]).
  assert (∀ x, x ≠ s → ks (c_st c1) x = ks (c_st c) x) as Hne by (intros x Hx; by apply raise_user_ne).
  assert (∀ x, known st x → sym_is_choice st x = false →
    user_val (c_st c1) x = (if decide (x ∈ l ++ [s]) then read_back st x else Val VNull no) ∧
    has SYMBOL_DEF_USER (ks (c_st c1) x) = bool_decide (x ∈ l ++ [s])) as Hu1.
  { intros x Hx Hxc. destruct (decide (x = s)) as [-> |Hxs].
    - assert (s ∈ l ++ [s]) as Hin by (apply elem_of_app; right; by apply list_elem_of_singleton).
      rewrite decide_True, bool_decide_true by done. done.
    - unfold user_val. rewrite (Hne x Hxs). destruct (Hu x Hx Hxc) as [E1 E2]. unfold user_val in E1. rewrite E1, E2. split.
      + destruct (decide (x ∈ l)) as [Hl|Hl]; [rewrite decide_True|rewrite decide_False]; try done; by rewrite elem_snoc_ne.
      + apply bool_decide_ext. by rewrite elem_snoc_ne. }
  destruct (sym_is_choice_value st s) eqn:Hcv.
  - specialize (Hck Hcv). destruct (choice_of st s) as [[ch|]|] eqn:Hch; [|done..]. destruct Hck as [Hkc Hcc].
    assert (ch ≠ s) as Hcs by (intros ->; pose proof (wr_single _ _ _ Hwr); congruence).
    destruct (Hc ch Hkc Hcc) as [Uc Dc].
    assert (user_val (c_st c1) ch = picked st ch l) as Uc1 by (unfold user_val; by rewrite (Hne ch Hcs)).
    assert (of_choice st ch s = true) as Hof by (unfold of_choice; rewrite Hcv, Hch; by rewrite bool_decide_true).
    assert (∀ d, d ∈ l → d ∈ l ++ [s] ∧ d ≠ s) as Hd.
    { intros d Hd. split; [apply elem_of_app; by left|congruence]. }
    assert (s ∈ l ++ [s]) as Hs by (apply elem_of_app; right; by apply list_elem_of_singleton).
    destruct (update_choice_ok s ch c1) as (st' & E & S2 & Hne2 & Uc2 & Fc).
    + unfold sym_is_choice_value in *. by rewrite (sk_cval _ _ (ss_kind _ _ S1 s)).
    + by rewrite (choice_of_same st).
    + by apply (known_same st).
    + change (user_val (c_st c1) s) with (user_val (raise_user s (read_back st s) (c_st c)) s). rewrite U1, Uc1. intros Hy.
      apply picked_no. intros d Hdl Hdc. destruct (Hd d Hdl). by apply (He ch s d).
    + change (user_val (c_st c1) s) with (user_val (raise_user s (read_back st s) (c_st c)) s). rewrite U1, Uc1. intros Hm.
      apply picked_not_yes. intros d Hdl Hdc Hy. destruct (Hd d Hdl). rewrite (He ch d s) in Hm by done. done.
    + rewrite E. eexists. split; [done|]. cbn [c_st c_warnings] in *. split; [by eapply same_syms_trans|done| |].
      * intros x Hx Hxc. cbn [c_st]. unfold user_val. rewrite Hne2 by (intros ->; congruence). by apply Hu1.
      * intros x Hx Hxc. cbn [c_st]. rewrite picked_snoc. destruct (decide (x = ch)) as [-> |Hxc'].
        -- rewrite Hof, Uc2, Uc1. change (user_val (c_st c1) s) with (user_val (raise_user s (read_back st s) (c_st c)) s).
           rewrite U1. split; [done|]. unfold has in *. rewrite Fc, (Hne ch Hcs). done.
        -- assert (of_choice st x s = false) as -> by (unfold of_choice; rewrite Hcv, Hch; by rewrite bool_decide_false by congruence).
           assert (x ≠ s) as Hxs by (intros ->; pose proof (wr_single _ _ _ Hwr); congruence).
           unfold user_val. rewrite Hne2, Hne by done. by apply Hc.
  - unfold c1. rewrite (update_free s (read_back st s) c).
    2: { unfold sym_is_choice_value in *. by rewrite (sk_cval _ _ (ss_kind _ _ HS s)). }
    exists c1. split; [done|]. split; [done|done|done|]. intros x Hx Hxc. rewrite picked_snoc.
    assert (of_choice st x s = false) as -> by (unfold of_choice; by rewrite Hcv).
    unfold user_val. rewrite Hne by (intros ->; pose proof (wr_single _ _ _ Hwr); congruence). by apply Hc.
Qed.

(** ** The whole file *)

Definition item_ok (st : state) (i : item) : Prop :=
  match i with Note l => ignored l | Line s => (∃ n, writable st s n) ∧ choice_known st s end.
Lemma item_notin st i c : item_ok st i → c = 0 ∨ c = 10 → c ∉ item_line st i.
Proof.
  destruct i as [l|s]; cbn; [apply ignored_notin|]. intros [[n Hw] _] Hc. rewrite <- (writable_name _ _ _ Hw).
  by apply (line_notin st s n).
Qed.
Lemma exclusive_sub st l l' : l ⊆ l' → exclusive st l' → exclusive st l.
Proof. intros Hl He c d d' Hd Hd'. apply He; by apply Hl. Qed.
Lemma read_items st its l c : reading st l c → NoDup (l ++ file_syms its) → exclusive st (l ++ file_syms its) →
  Forall (item_ok st) its →
  ∃ c', read_lines ((λ i, item_line st i ++ [10]) <$> its) c = Ret c' ∧ reading st (l ++ file_syms its) c'.
Proof.
  revert l c. induction its as [|i its IH]; intros l c Hr Hnd He Hi; [exists c; by rewrite app_nil_r|].
  apply Forall_cons in Hi as [Hi Hits]. rewrite fmap_cons. cbn [read_lines]. destruct i as [t|s].
  - cbn [item_line]. rewrite read_ignored by done. cbn [mbind result_bind]. by apply IH.
  - change (file_syms (Line s :: its)) with (s :: file_syms its) in *. destruct Hi as [[n Hw] Hck].
    assert (l ++ s :: file_syms its = (l ++ [s]) ++ file_syms its) as E by (by rewrite <- app_assoc). rewrite E in *.
    pose proof Hnd as ((_ & Hs & _)%NoDup_app & _)%NoDup_app.
    rewrite cut0_id by (apply not_in_app; [apply (item_notin st (Line s)); [by split; [exists n|]|by left]|by apply not_in_eval]).
    cbn [item_line]. rewrite <- (writable_name _ _ _ Hw).
    destruct (read_line_step st l c s n Hr Hw Hck) as (c1 & -> & R1).
    { intros Hin. apply (Hs s Hin). by apply list_elem_of_singleton. }
    { eapply exclusive_sub; [|exact He]. intros x Hx. apply elem_of_app. by left. }
    cbn [mbind result_bind]. by apply IH.
Qed.
Lemma read_file st its : NoDup (file_syms its) → exclusive st (file_syms its) → Forall (item_ok st) its →
  ∃ c, conf_read_simple (Some (file_text st its)) st = Ret (false, c) ∧ reading st (file_syms its) c.
Proof.
  intros Hnd He Hi. destruct (read_items st its [] _ (reading_reset st) Hnd He Hi) as (c & E & Hr). exists c. split; [|done].
  unfold conf_read_simple, file_text.
  assert ((λ i, item_line st i ++ [10]) <$> its = (λ x, x ++ [10]) <$> (item_line st <$> its)) as Ef by (by rewrite <- list_fmap_compose).
  rewrite Ef, getlines_concat, <- Ef, E; [done|]. apply Forall_fmap. eapply Forall_impl; [exact Hi|]. intros i H.
  apply (item_notin st i); auto.
Qed.

End file.
End KconfigFile.
