(* ===== verification/KconfigTree.v ===== *)
(** * The menu tree (scripts/config/menu.c, expr.h)

    The tree of menu entries that the parser builds and [menu_finalize]
    completes: dependencies are passed down to entries and properties,
    entries that depend on the symbol before them become its submenu, the
    entries of an "if" join those of the menu around it, and the symbols of a
    choice become its values.

    Entries are linked by pointers, which are positions in [menus] here; the
    root is entry 0.  Properties are kept in the order of their creation; the
    list [sym->prop], to which a property is only ever appended, is the
    sublist of those whose [mp_owner] is the symbol.  Files, line numbers,
    help texts and the flags of front ends are left out; a warning is a value
    of type [warning]. *)

From S2P Require Import Prelude CLib KconfigExpr KconfigMenu KconfigSym KconfigSet.
Open Scope Z_scope.

Module KconfigTree.
Import KconfigExpr KconfigMenu KconfigSym KconfigSet.

(** ** Data *)

Record menu := Menu {
  m_next : option nat;
  m_parent : option nat;
  m_list : option nat;
  m_sym : option symbol;
  m_prompt : option nat;
  m_visibility : expr;
  m_dep : expr
}.
Record mprop := MProp {
  mp_type : prop_type;
  mp_text : option (list Z);
  mp_visible : expr;
  mp_expr : expr;
  mp_menu : nat;
  mp_owner : option symbol
}.

(** What warnings are about: a symbol, a property or a menu entry. *)
Inductive warning :=
  | W_type_redefined (s : symbol)
  | W_leading_space (p : nat)
  | W_prompt_redefined (p : nat)
  | W_default_not_symbol (p : nat)
  | W_number_invalid (p : nat)
  | W_not_in_choice (p : nat)
  | W_not_bool (p : nat)
  | W_wrong_type (p : nat)
  | W_range_type (p : nat)
  | W_range_invalid (p : nat)
  | W_value_without_prompt (m : nat)
  | W_value_default (p : nat)
  | W_outside_choice (p : nat)
  | W_no_type (m : nat)
  | W_choice_without_prompt (m : nat)
  | W_menuconfig_without_prompt (m : nat).

(** [last_entry_ptr]: the [list] or the [next] of an entry. *)
Inductive slot := In_list (m : nat) | In_next (m : nat).

Record tree := Tree {
  menus : list menu;
  props : list mprop;
  t_st : state;
  current_entry : nat;
  current_menu : option nat;
  last_entry : slot;
  warnings : list warning
}.

Definition SYMBOL_OPTIONAL : Z := 0x100.
Definition SYMBOL_WARNED : Z := 0x8000.
Definition rootmenu : nat := 0.

Definition set_menus (l : list menu) (t : tree) : tree :=
  Tree l (props t) (t_st t) (current_entry t) (current_menu t) (last_entry t) (warnings t).
Definition set_props (l : list mprop) (t : tree) : tree :=
  Tree (menus t) l (t_st t) (current_entry t) (current_menu t) (last_entry t) (warnings t).
Definition set_st (st : state) (t : tree) : tree :=
  Tree (menus t) (props t) st (current_entry t) (current_menu t) (last_entry t) (warnings t).
Definition set_entry (m : nat) (t : tree) : tree :=
  Tree (menus t) (props t) (t_st t) m (current_menu t) (last_entry t) (warnings t).
Definition set_place (m : option nat) (l : slot) (t : tree) : tree :=
  Tree (menus t) (props t) (t_st t) (current_entry t) m l (warnings t).
Definition warn (w : warning) (t : tree) : tree :=
  Tree (menus t) (props t) (t_st t) (current_entry t) (current_menu t) (last_entry t) (warnings t ++ [w]).
Definition warn_if (b : bool) (w : warning) (t : tree) : tree := if b then warn w t else t.

Definition set_next (p : option nat) (m : menu) : menu :=
  Menu p (m_parent m) (m_list m) (m_sym m) (m_prompt m) (m_visibility m) (m_dep m).
Definition set_parent (p : option nat) (m : menu) : menu :=
  Menu (m_next m) p (m_list m) (m_sym m) (m_prompt m) (m_visibility m) (m_dep m).
Definition set_list (p : option nat) (m : menu) : menu :=
  Menu (m_next m) (m_parent m) p (m_sym m) (m_prompt m) (m_visibility m) (m_dep m).
Definition set_prompt (p : nat) (m : menu) : menu :=
  Menu (m_next m) (m_parent m) (m_list m) (m_sym m) (Some p) (m_visibility m) (m_dep m).
Definition set_visibility (e : expr) (m : menu) : menu :=
  Menu (m_next m) (m_parent m) (m_list m) (m_sym m) (m_prompt m) e (m_dep m).
Definition set_dep (e : expr) (m : menu) : menu :=
  Menu (m_next m) (m_parent m) (m_list m) (m_sym m) (m_prompt m) (m_visibility m) e.
Definition upd_menu (m : nat) (f : menu → menu) (t : tree) : tree := set_menus (alter f m (menus t)) t.
Definition upd_prop (p : nat) (f : mprop → mprop) (t : tree) : tree := set_props (alter f p (props t)) t.
Definition upd_sym (s : symbol) (f : ksym → ksym) (t : tree) : tree := set_st (upd s f (t_st t)) t.

Definition set_mp_visible (e : expr) (p : mprop) : mprop :=
  MProp (mp_type p) (mp_text p) e (mp_expr p) (mp_menu p) (mp_owner p).
Definition set_mp_expr (e : expr) (p : mprop) : mprop :=
  MProp (mp_type p) (mp_text p) (mp_visible p) e (mp_menu p) (mp_owner p).
Definition set_mp_text (s : list Z) (p : mprop) : mprop :=
  MProp (mp_type p) (Some s) (mp_visible p) (mp_expr p) (mp_menu p) (mp_owner p).
Definition set_mp_type (ty : prop_type) (p : mprop) : mprop :=
  MProp ty (mp_text p) (mp_visible p) (mp_expr p) (mp_menu p) (mp_owner p).

Definition set_type (ty : symbol_type) (k : ksym) : ksym :=
  KSym (k_name k) ty (k_flags k) (k_curr k) (k_user k) (k_visible k) (k_props k) (k_dir k) (k_rev k) (k_imp k).
Definition or_dir (e : expr) (k : ksym) : ksym :=
  KSym (k_name k) (k_type k) (k_flags k) (k_curr k) (k_user k) (k_visible k) (k_props k)
    (EVal (expr_alloc_or (ev_expr (k_dir k)) e) (ev_tri (k_dir k))) (k_rev k) (k_imp k).
Definition or_rev (e : expr) (k : ksym) : ksym :=
  KSym (k_name k) (k_type k) (k_flags k) (k_curr k) (k_user k) (k_visible k) (k_props k)
    (k_dir k) (EVal (expr_alloc_or (ev_expr (k_rev k)) e) (ev_tri (k_rev k))) (k_imp k).
Definition or_imp (e : expr) (k : ksym) : ksym :=
  KSym (k_name k) (k_type k) (k_flags k) (k_curr k) (k_user k) (k_visible k) (k_props k)
    (k_dir k) (k_rev k) (EVal (expr_alloc_or (ev_expr (k_imp k)) e) (ev_tri (k_imp k))).

(** Reading through a pointer. *)
Definition menu_at (m : nat) (t : tree) : result menu := of_option NullDeref (menus t !! m).
Definition prop_at (p : nat) (t : tree) : result mprop := of_option NullDeref (props t !! p).
Definition sym_ (s : symbol) (t : tree) : ksym := ks (t_st t) s.
Definition is_choice (s : symbol) (t : tree) : bool := sym_is_choice (t_st t) s.

(** [sym->prop] *)
Definition owned (s : symbol) (t : tree) : list nat :=
  filter (λ p, (props t !! p) ≫= mp_owner = Some s) (seq 0 (length (props t))).
(** [sym_get_choice_prop] *)
Definition choice_prop (s : symbol) (t : tree) : option nat :=
  head (filter (λ p, mp_type <$> (props t !! p) = Some P_CHOICE) (owned s t)).

(** ** Building the tree *)

Definition empty_menu : menu := Menu None None None None None NULL NULL.
(** [_menu_init], with the symbols as they are. *)
Definition _menu_init (st : state) : tree :=
  Tree [empty_menu] [] st rootmenu (Some rootmenu) (In_list rootmenu) [].

Definition menu_add_prop (ty : prop_type) (e dep : expr) (t : tree) : result (nat * tree) :=
  m ← menu_at (current_entry t) t;
  Ret (length (props t), set_props (props t ++ [MProp ty None dep e (current_entry t) (m_sym m)]) t).
Definition menu_add_expr (ty : prop_type) (e dep : expr) (t : tree) : result tree :=
  '(_, t) ← menu_add_prop ty e dep t; Ret t.
Definition menu_add_symbol (ty : prop_type) (s : symbol) (dep : expr) (t : tree) : result tree :=
  '(_, t) ← menu_add_prop ty (expr_alloc_symbol s) dep t; Ret t.

Definition menu_add_entry (sym : option symbol) (t : tree) : result tree :=
  let m := length (menus t) in
  let t := set_menus (menus t ++ [Menu None (current_menu t) None sym None NULL NULL]) t in
  let t := match last_entry t with
           | In_list l => upd_menu l (set_list (Some m)) t
           | In_next l => upd_menu l (set_next (Some m)) t
           end in
  let t := set_entry m (set_place (current_menu t) (In_next m) t) in
  match sym with
  | Some s => menu_add_symbol P_SYMBOL s NULL t
  | None => Ret t
  end.
Definition menu_add_menu (t : tree) : tree :=
  set_place (Some (current_entry t)) (In_list (current_entry t)) t.
Definition menu_end_menu (t : tree) : result tree :=
  m ← of_option NullDeref (current_menu t);
  mn ← menu_at m t;
  Ret (set_place (m_parent mn) (In_next m) t).

Definition menu_add_dep (dep : expr) (t : tree) : tree :=
  upd_menu (current_entry t) (λ m, set_dep (expr_alloc_and (m_dep m) dep) m) t.
Definition menu_add_visibility (e : expr) (t : tree) : tree :=
  upd_menu (current_entry t) (λ m, set_visibility (expr_alloc_and (m_visibility m) e) m) t.

Definition menu_set_type (ty : symbol_type) (t : tree) : result tree :=
  m ← menu_at (current_entry t) t;
  s ← of_option NullDeref (m_sym m);
  let old := k_type (sym_ s t) in
  Ret (if decide (old = ty) then t
       else if decide (old = S_UNKNOWN) then upd_sym s (set_type ty) t
       else warn (W_type_redefined s) t).

(** The "visible if" of the menus around an entry, and-ed to [e]. *)
Fixpoint upper_visibility (n : nat) (m : option nat) (e : expr) (t : tree) : result expr :=
  match m with
  | None => Ret e
  | Some m =>
      match n with
      | O => Fault OutOfFuel
      | S n =>
          mn ← menu_at m t;
          e ← match m_visibility mn with
              | NULL => Ret e
              | v => v ← expr_copy v; Ret (expr_alloc_and e v)
              end;
          upper_visibility n (m_parent mn) e t
      end
  end.
Definition menu_add_prompt (ty : prop_type) (prompt : list Z) (dep : expr) (t : tree) : result tree :=
  '(p, t) ← menu_add_prop ty NULL dep t;
  let t := warn_if (isspace (hd 0 prompt)) (W_leading_space p) t in
  let prompt := skip_spaces prompt in
  m ← menu_at (current_entry t) t;
  let t := warn_if (bool_decide (is_Some (m_prompt m))) (W_prompt_redefined p) t in
  dep ← (if decide (ty = P_PROMPT) then upper_visibility (length (menus t)) (m_parent m) dep t
         else Ret dep);
  Ret (upd_prop p (λ q, set_mp_text prompt (set_mp_visible dep q))
         (upd_menu (current_entry t) (set_prompt p) t)).

(** ** Warnings about properties *)

(** The first member of the expression of a property, where it is a symbol. *)
Definition prop_symbol (e : expr) : result (option symbol) :=
  prop_get_symbol (Prop_ P_UNKNOWN false NULL e).

Definition menu_validate_number (s s2 : symbol) (t : tree) : result bool :=
  match k_type (sym_ s2 t) with
  | S_INT | S_HEX => Ret true
  | S_UNKNOWN =>
      n ← of_option NullDeref (k_name (sym_ s2 t));
      Ret (sym_string_valid (k_type (sym_ s t)) n)
  | _ => Ret false
  end.

(** Whether the choice that [s2] is a value of is [s]. *)
Definition value_of (s s2 : symbol) (t : tree) : bool :=
  match choice_prop s2 t ≫= (λ p, props t !! p) with
  | Some p => bool_decide (mp_expr p = SYMBOL s)
  | None => false
  end.
Definition numeric (ty : symbol_type) : bool := match ty with S_INT | S_HEX => true | _ => false end.
Definition logical (ty : symbol_type) : bool := match ty with S_BOOLEAN | S_TRISTATE => true | _ => false end.
Definition check_one (s : symbol) (p : nat) (t : tree) : result tree :=
  q ← prop_at p t;
  let ty := k_type (sym_ s t) in
  match mp_type q with
  | P_DEFAULT =>
      e ← deref (mp_expr q);
      match e with
      | SYMBOL s2 =>
          t ← (if numeric ty then
                 ok ← menu_validate_number s s2 t; Ret (warn_if (negb ok) (W_number_invalid p) t)
               else Ret t);
          Ret (warn_if (is_choice s t && negb (value_of s s2 t)) (W_not_in_choice p) t)
      | _ => Ret (warn_if (bool_decide (ty = S_STRING) || numeric ty) (W_default_not_symbol p) t)
      end
  | P_SELECT | P_IMPLY =>
      s2 ← prop_symbol (mp_expr q);
      if negb (logical ty) then Ret (warn (W_not_bool p) t)
      else
        s2 ← of_option NullDeref s2;
        let ty2 := k_type (sym_ s2 t) in
        Ret (warn_if (negb (bool_decide (ty2 = S_UNKNOWN) || logical ty2)) (W_wrong_type p) t)
  | P_RANGE =>
      let t := warn_if (negb (numeric ty)) (W_range_type p) t in
      '(a, b) ← range_of (Prop_ P_RANGE false NULL (mp_expr q));
      lo ← menu_validate_number s a t;
      hi ← (if lo : bool then menu_validate_number s b t else Ret false);
      Ret (warn_if (negb hi) (W_range_invalid p) t)
  | _ => Ret t
  end.
Fixpoint for_props (f : nat → tree → result tree) (l : list nat) (t : tree) : result tree :=
  match l with
  | [] => Ret t
  | p :: l => t ← f p t; for_props f l t
  end.
Definition sym_check_prop (s : symbol) (t : tree) : result tree := for_props (check_one s) (owned s t) t.

(** ** Completing the tree *)

(** [for (menu = p; menu; menu = menu->next)] *)
Fixpoint each (n : nat) (body : nat → tree → result tree) (p : option nat) (t : tree) : result tree :=
  match p with
  | None => Ret t
  | Some m =>
      match n with
      | O => Fault OutOfFuel
      | S n =>
          t ← body m t;
          mn ← menu_at m t;
          each n body (m_next mn) t
      end
  end.
(** No list has more entries than there are. *)
Definition each_entry (body : nat → tree → result tree) (p : option nat) (t : tree) : result tree :=
  each (length (menus t)) body p t.

Definition prompt_of (m : menu) (t : tree) : result (option mprop) :=
  match m_prompt m with
  | Some p => q ← prop_at p t; Ret (Some q)
  | None => Ret None
  end.
(** The type of a choice is that of its first value with a type, ... *)
Fixpoint first_type (n : nat) (p : option nat) (t : tree) : result (option symbol_type) :=
  match p with
  | None => Ret None
  | Some m =>
      match n with
      | O => Fault OutOfFuel
      | S n =>
          mn ← menu_at m t;
          match m_sym mn with
          | Some s =>
              if decide (k_type (sym_ s t) = S_UNKNOWN) then first_type n (m_next mn) t
              else Ret (Some (k_type (sym_ s t)))
          | None => first_type n (m_next mn) t
          end
      end
  end.
(** ... and values without a type have that of the choice. *)
Definition value_type (s : symbol) (m : nat) (t : tree) : result tree :=
  let t := set_entry m t in
  mn ← menu_at m t;
  match m_sym mn with
  | Some s2 =>
      if decide (k_type (sym_ s2 t) = S_UNKNOWN) then menu_set_type (k_type (sym_ s t)) t else Ret t
  | None => Ret t
  end.
Definition choice_types (parent : nat) (s : symbol) (list : option nat) (t : tree) : result tree :=
  t ← (if decide (k_type (sym_ s t) = S_UNKNOWN) then
         let t := set_entry parent t in
         ty ← first_type (length (menus t)) list t;
         match ty with Some ty => menu_set_type ty t | None => Ret t end
       else Ret t);
  each_entry (value_type s) list t.

(** A property of an entry with dependency [basedep]. *)
Definition finish_prop (m : nat) (basedep : expr) (p : nat) (t : tree) : result tree :=
  mn ← menu_at m t;
  q ← prop_at p t;
  if negb (bool_decide (mp_menu q = m)) then Ret t
  else
    dep ← @visible_expr (tab_of (t_st t)) ((λ s, k_type (sym_ s t)) <$> m_sym mn) basedep (mp_visible q);
    let t := upd_prop p (set_mp_visible dep) t in
    let by_sym (or : expr → ksym → ksym) :=
      es ← prop_symbol (mp_expr q);
      es ← of_option NullDeref es;
      s ← of_option NullDeref (m_sym mn);
      c ← expr_copy dep;
      Ret (upd_sym es (or (expr_alloc_and (expr_alloc_symbol s) c)) t) in
    match mp_type q with
    | P_SELECT => by_sym or_rev
    | P_IMPLY => by_sym or_imp
    | _ => Ret t
    end.
(** An entry below one with dependency [parentdep]. *)
Definition pass_down (parentdep : expr) (m : nat) (t : tree) : result tree :=
  mn ← menu_at m t;
  basedep ← @propagate_dep (tab_of (t_st t)) parentdep (m_dep mn);
  let t := upd_menu m (set_dep basedep) t in
  for_props (finish_prop m basedep)
    (match m_sym mn with Some s => owned s t | None => option_list (m_prompt mn) end) t.

(** The entries after [parent] that depend on its symbol; the last of them. *)
Fixpoint take_items (fin : nat → tree → result tree) (n : nat) (parent : nat) (s : symbol) (basedep : expr)
    (p last : option nat) (t : tree) : result (option nat * tree) :=
  match p with
  | None => Ret (last, t)
  | Some m =>
      match n with
      | O => Fault OutOfFuel
      | S n =>
          mn ← menu_at m t;
          prompt ← prompt_of mn t;
          let dep := match prompt with Some q => mp_visible q | None => m_dep mn end in
          item ← @depends_on (tab_of (t_st t)) s basedep dep;
          if item : bool then
            t ← fin m t;
            let t := upd_menu m (set_parent (Some parent)) t in
            mn ← menu_at m t;
            take_items fin n parent s basedep (m_next mn) (Some m) t
          else Ret (last, t)
      end
  end.
Definition make_submenu (fin : nat → tree → result tree) (parent : nat) (s : symbol) (t : tree) : result tree :=
  pm ← menu_at parent t;
  prompt ← prompt_of pm t;
  basedep ← @nonzero_expr (tab_of (t_st t)) (match prompt with Some q => mp_visible q | None => NULL end);
  '(last, t) ← take_items fin (length (menus t)) parent s basedep (m_next pm) None t;
  t ← match last with
      | None => Ret t
      | Some l =>
          ln ← menu_at l t;
          pm ← menu_at parent t;
          let t := upd_menu parent (λ m, set_next (m_next ln) (set_list (m_next pm) m)) t in
          Ret (upd_menu l (set_next None) t)
      end;
  pm ← menu_at parent t;
  Ret (upd_sym s (or_dir (m_dep pm)) t).

(** The end of the list that the values of a choice are kept in. *)
Fixpoint list_add (e : expr) (s : symbol) : result expr :=
  match e with
  | NULL => Ret (LIST NULL s)
  | LIST l x => l ← list_add l s; Ret (LIST l x)
  | _ => Fault BadUnion
  end.
Definition check_value_prop (s : symbol) (m : nat) (p : nat) (t : tree) : result tree :=
  q ← prop_at p t;
  let t := warn_if (bool_decide (mp_type q = P_DEFAULT)) (W_value_default p) t in
  if decide (mp_menu q = m) then Ret t
  else if decide (mp_type q = P_PROMPT) then
    qm ← menu_at (mp_menu q) t;
    up ← of_option NullDeref (m_parent qm);
    um ← menu_at up t;
    Ret (warn_if (negb (bool_decide (m_sym um = Some s))) (W_outside_choice p) t)
  else Ret t.
Definition and_visible (m : nat) (e : expr) (p : nat) (t : tree) : result tree :=
  q ← prop_at p t;
  if decide (mp_menu q = m) then
    c ← expr_copy e;
    Ret (upd_prop p (set_mp_visible (expr_alloc_and c (mp_visible q))) t)
  else Ret t.
(** Entry [m], with symbol [v], becomes a value of choice [s]. *)
Definition add_value (s v : symbol) (m : nat) (t : tree) : result tree :=
  let t := upd_sym v (raise SYMBOL_CHOICEVAL) (set_entry m t) in
  mn ← menu_at m t;
  let t := warn_if (bool_decide (m_prompt mn = None)) (W_value_without_prompt m) t in
  t ← for_props (check_value_prop s m) (owned v t) t;
  t ← (if decide (k_type (sym_ s t) = S_TRISTATE ∧ k_type (sym_ v t) ≠ S_TRISTATE) then
         let basedep := expr_alloc_comp EQUAL s symbol_yes in
         let t := upd_menu m (λ n, set_dep (expr_alloc_and basedep (m_dep n)) n) t in
         for_props (and_visible m basedep) (owned v t) t
       else Ret t);
  t ← menu_add_symbol P_CHOICE s NULL t;
  p ← of_option NullDeref (choice_prop s t);
  q ← prop_at p t;
  e ← list_add (mp_expr q) v;
  Ret (upd_prop p (set_mp_expr e) t).

(** The entries of a list get a new parent; the last of them. *)
Fixpoint reparent (n : nat) (parent m : nat) (t : tree) : result (nat * tree) :=
  match n with
  | O => Fault OutOfFuel
  | S n =>
      let t := upd_menu m (set_parent (Some parent)) t in
      mn ← menu_at m t;
      match m_next mn with
      | None => Ret (m, t)
      | Some m => reparent n parent m t
      end
  end.
(** The entries of an "if", or below a symbol without a prompt, go up. *)
Definition flatten (parent m : nat) (t : tree) : result tree :=
  mn ← menu_at m t;
  prompt ← prompt_of mn t;
  match m_list mn with
  | Some first =>
      if decide ((prompt ≫= mp_text) = None) then
        '(l, t) ← reparent (length (menus t)) parent first t;
        let t := upd_menu l (set_next (m_next mn)) t in
        Ret (upd_menu m (λ n, set_list None (set_next (Some first) n)) t)
      else Ret t
  | None => Ret t
  end.
Definition finish_child (parent : nat) (sym : option symbol) (m : nat) (t : tree) : result tree :=
  mn ← menu_at m t;
  t ← match sym, m_sym mn with
      | Some s, Some v =>
          if is_choice s t && negb (sym_is_choice_value (t_st t) v) then add_value s v m t else Ret t
      | _, _ => Ret t
      end;
  flatten parent m t.

Definition check_symbol (parent : nat) (s : symbol) (t : tree) : result tree :=
  if has SYMBOL_WARNED (sym_ s t) then Ret t
  else
    pm ← menu_at parent t;
    let t := warn_if (bool_decide (k_type (sym_ s t) = S_UNKNOWN)) (W_no_type parent) t in
    let t := warn_if (is_choice s t && bool_decide (m_prompt pm = None)) (W_choice_without_prompt parent) t in
    t ← sym_check_prop s t;
    Ret (upd_sym s (raise SYMBOL_WARNED) t).
(** A choice that is not optional selects itself. *)
Definition force_choice (parent : nat) (s : symbol) (t : tree) : result tree :=
  pm ← menu_at parent t;
  prompt ← prompt_of pm t;
  match prompt with
  | Some q =>
      if has SYMBOL_OPTIONAL (sym_ s t) then Ret t
      else Ret (upd_sym s (or_rev (expr_alloc_and (mp_visible q) (expr_alloc_symbol symbol_mod))) t)
  | None => Ret t
  end.

Definition finalize_body (fin : nat → tree → result tree) (parent : nat) (t : tree) : result tree :=
  pm ← menu_at parent t;
  let sym := m_sym pm in
  t ← match m_list pm with
      | Some first =>
          '(parentdep, t) ← match sym with
                            | Some s =>
                                if is_choice s t then
                                  t ← choice_types parent s (Some first) t; Ret (expr_alloc_symbol s, t)
                                else Ret (m_dep pm, t)
                            | None => Ret (m_dep pm, t)
                            end;
          t ← each_entry (pass_down parentdep) (Some first) t;
          each_entry fin (Some first) t
      | None => match sym with Some s => make_submenu fin parent s t | None => Ret t end
      end;
  pm ← menu_at parent t;
  t ← each_entry (finish_child parent sym) (m_list pm) t;
  match sym with
  | Some s => t ← check_symbol parent s t; force_choice parent s t
  | None => Ret t
  end.
Fixpoint finalize_fuel (n : nat) (parent : nat) (t : tree) : result tree :=
  match n with
  | O => Fault OutOfFuel
  | S n => finalize_body (finalize_fuel n) parent t
  end.
Definition menu_finalize (parent : nat) (t : tree) : result tree :=
  finalize_fuel (S (length (menus t))) parent t.

End KconfigTree.
