(* ===== verification/KconfigTreeLemmas.v ===== *)
(** * Linked menu entries as forests

    The entries that hang together by [list] and [next] are the nodes of a
    forest; its preorder is the order in which they come in the Kconfig
    files.  What the steps of [menu_finalize] do to the links is stated on
    forests here, and what they keep of the rest. *)

From S2P Require Import Prelude CLib KconfigExpr KconfigMenu KconfigSimp KconfigDups KconfigProps.
From S2P Require Import KconfigSym KconfigSymProps KconfigSet KconfigTree.
Open Scope Z_scope.

Module KconfigTreeLemmas.
Import KconfigExpr KconfigMenu KconfigSimp KconfigDups KconfigProps KconfigSym KconfigSymProps KconfigSet KconfigTree.

(** ** Forests *)

(** An entry with those below it, and the entries after it. *)
Inductive forest := FNil | FCons (m : nat) (kids rest : forest).

Fixpoint pre (f : forest) : list nat :=
  match f with FNil => [] | FCons m k r => m :: pre k ++ pre r end.
Fixpoint fapp (f g : forest) : forest :=
  match f with FNil => g | FCons m k r => FCons m k (fapp r g) end.
(** The last entry of the topmost list. *)
Fixpoint flast (f : forest) : option nat :=
  match f with FNil => None | FCons m _ r => match flast r with Some l => Some l | None => Some m end end.

Lemma pre_app f g : pre (fapp f g) = pre f ++ pre g.
Proof. induction f as [|m k _ r IH]; cbn; [done|]. by rewrite IH, app_assoc. Qed.
Lemma flast_in f l : flast f = Some l → l ∈ pre f.
Proof.
  revert l. induction f as [|m k _ r IH]; cbn; [done|]. intros l. destruct (flast r) as [l'|].
  - intros [= <-]. set_solver.
  - intros [= ->]. set_solver.
Qed.
Lemma flast_some f : f ≠ FNil → is_Some (flast f).
Proof. destruct f as [|m k r]; [done|]. intros _. cbn. destruct (flast r); eauto. Qed.

(** The pointers of an entry: to the next one, up, and down. *)
Definition lk (ms : list menu) (m : nat) : option (option nat * option nat * option nat) :=
  (λ n, (m_next n, m_parent n, m_list n)) <$> ms !! m.

(** The list that starts at [p] and ends at [stop] holds [f], below [par]. *)
Fixpoint repr (ms : list menu) (par stop : option nat) (f : forest) (p : option nat) : Prop :=
  match f with
  | FNil => p = stop
  | FCons m k r =>
      p = Some m ∧ ∃ n l, lk ms m = Some (n, par, l) ∧ repr ms (Some m) None k l ∧ repr ms par stop r n
  end.

Lemma repr_frame ms ms' f par stop p :
  (∀ m, m ∈ pre f → lk ms' m = lk ms m) → repr ms par stop f p → repr ms' par stop f p.
Proof.
  revert par stop p. induction f as [|m k IHk r IHr]; intros par stop p Hf; cbn; [done|].
  intros (-> & n & l & Hm & Hk & Hr). split; [done|]. exists n, l. split; [|split].
  - rewrite Hf; [done|]. set_solver.
  - apply IHk; [|done]. intros y Hy. apply Hf. set_solver.
  - apply IHr; [|done]. intros y Hy. apply Hf. set_solver.
Qed.
Lemma repr_app ms par stop f g p :
  repr ms par stop (fapp f g) p ↔ ∃ q, repr ms par q f p ∧ repr ms par stop g q.
Proof.
  revert p. induction f as [|m k _ r IHr]; intros p; cbn.
  - split; [|by intros (q & -> & ?)]. intros ?. by exists p.
  - split.
    + intros (-> & n & l & Hm & Hk & (q & Hr & Hg)%IHr). exists q. split; [|done]. split; [done|]. by exists n, l.
    + intros (q & (-> & n & l & Hm & Hk & Hr) & Hg). split; [done|]. exists n, l. rewrite IHr. eauto.
Qed.
Lemma lk_some ms m : is_Some (lk ms m) ↔ (m < length ms)%nat.
Proof. unfold lk. rewrite fmap_is_Some. apply lookup_lt_is_Some. Qed.
Lemma repr_in ms par stop f p m : repr ms par stop f p → m ∈ pre f → (m < length ms)%nat.
Proof.
  revert par stop p. induction f as [|x k IHk r IHr]; intros par stop p; cbn; [set_solver|].
  intros (_ & n & l & Hx & Hk & Hr). rewrite elem_of_cons, elem_of_app. intros [-> | [H|H]]; [|by eauto..].
  apply lk_some. by rewrite Hx.
Qed.
(** A forest has no more entries than there are. *)
Lemma repr_size ms par stop f p : repr ms par stop f p → NoDup (pre f) → (length (pre f) ≤ length ms)%nat.
Proof.
  intros Hr Hnd. rewrite <- (length_seq (length ms) 0). apply submseteq_length, NoDup_submseteq; [done|].
  intros m Hm. apply elem_of_seq. apply (repr_in _ _ _ _ _ _ Hr) in Hm. lia.
Qed.

(** The [next] of the last entry is changed. *)
Lemma lk_alter f m ms y :
  lk (alter f m ms) y = if decide (y = m) then (λ n, (m_next (f n), m_parent (f n), m_list (f n))) <$> ms !! m else lk ms y.
Proof.
  unfold lk. case_decide as Hy.
  - subst y. rewrite list_lookup_alter_eq. by destruct (ms !! m).
  - by rewrite list_lookup_alter_ne.
Qed.
Lemma lk_next ms m q y :
  lk (alter (set_next q) m ms) y = if decide (y = m) then (λ x, (q, x.1.2, x.2)) <$> lk ms m else lk ms y.
Proof. rewrite lk_alter. case_decide; [|done]. unfold lk. by destruct (ms !! m). Qed.
Lemma lk_parent ms m q y :
  lk (alter (set_parent q) m ms) y = if decide (y = m) then (λ x, (x.1.1, q, x.2)) <$> lk ms m else lk ms y.
Proof. rewrite lk_alter. case_decide; [|done]. unfold lk. by destruct (ms !! m). Qed.

Lemma repr_close ms par stop q f p l :
  repr ms par stop f p → flast f = Some l → NoDup (pre f) → repr (alter (set_next q) l ms) par q f p.
Proof.
  revert p. induction f as [|m k _ r IHr]; intros p; cbn [repr flast pre]; [done|].
  intros (-> & n & ls & Hm & Hk & Hr) Hl Hnd. split; [done|]. rewrite NoDup_cons, NoDup_app in Hnd.
  destruct Hnd as (Hmn & _ & Hkr & Hnr). destruct (flast r) as [l'|] eqn:El.
  - injection Hl as ->. pose proof (flast_in _ _ El) as Hin. exists n, ls. split; [|split].
    + rewrite lk_next, decide_False; [done|]. set_solver.
    + apply (repr_frame ms); [|done]. intros y Hy. rewrite lk_next, decide_False; [done|]. set_solver.
    + by apply IHr.
  - injection Hl as ->. assert (r = FNil) as ->.
    { destruct r as [|y k' r']; [done|]. destruct (flast_some (FCons y k' r')) as [? E]; [done|]. by rewrite E in El. }
    exists q, ls. split; [|split; [|done]].
    + rewrite lk_next, decide_True, Hm by done. done.
    + apply (repr_frame ms); [|done]. intros y Hy. rewrite lk_next, decide_False; [done|]. set_solver.
Qed.

(** ** What the parser leaves

    Dependencies are expressions or missing; the property of a prompt has the
    type of one; what a property selects is a symbol, what a range or the
    default of a number names has a name; a prompt is inside a menu; a choice
    has a property that lists its values. *)

Definition named (s : symbol) (t : tree) : Prop := is_Some (k_name (sym_ s t)).
Fixpoint is_list (e : expr) : bool := match e with NULL => true | LIST l _ => is_list l | _ => false end.

(** [s] has an entry. *)
Definition entered (s : symbol) (t : tree) : Prop := ∃ m n, menus t !! m = Some n ∧ m_sym n = Some s.

Definition prop_ok (t : tree) (q : mprop) : Prop :=
  dep_ok (mp_visible q) ∧
  match mp_type q with
  | P_SELECT | P_IMPLY => ∃ s, mp_expr q = SYMBOL s
  | P_DEFAULT => mp_expr q ≠ NULL ∧ ∀ s, mp_expr q = SYMBOL s → named s t
  | P_RANGE => ∃ a b, mp_expr q = RANGE a b ∧ named a t ∧ named b t
  | P_PROMPT => ∃ n up, menus t !! mp_menu q = Some n ∧ m_parent n = Some up ∧ (up < length (menus t))%nat
  | _ => True
  end.
Record ok (t : tree) : Prop := {
  ok_menu m n : menus t !! m = Some n → dep_ok (m_dep n) ∧
    ∀ p, m_prompt n = Some p → ∃ q, props t !! p = Some q ∧ mp_type q ≠ P_SELECT ∧ mp_type q ≠ P_IMPLY;
  ok_prop p q : props t !! p = Some q → prop_ok t q;
  ok_choice s : entered s t → is_choice s t = true →
    ∃ p q, choice_prop s t = Some p ∧ props t !! p = Some q ∧ is_list (mp_expr q) = true
}.

(** What stays as it is: the symbols and the prompts of entries, the kinds of
    properties, the names and the kinds of symbols. *)
Definition kind (q : mprop) : prop_type * option (list Z) * nat * option symbol :=
  (mp_type q, mp_text q, mp_menu q, mp_owner q).
Record same (t t' : tree) : Prop := {
  sm_len : length (menus t') = length (menus t);
  sm_menu m : (λ n, (m_sym n, m_prompt n)) <$> menus t' !! m = (λ n, (m_sym n, m_prompt n)) <$> menus t !! m;
  sm_prop p q : props t !! p = Some q → ∃ q', props t' !! p = Some q' ∧ kind q' = kind q;
  sm_name s : k_name (sym_ s t') = k_name (sym_ s t);
  sm_choice s : is_choice s t' = is_choice s t
}.
#[export] Instance same_preorder : PreOrder same.
Proof.
  split.
  - intros t. split; eauto.
  - intros t1 t2 t3 H1 H2. split.
    + by rewrite (sm_len _ _ H2), (sm_len _ _ H1).
    + intros m. by rewrite (sm_menu _ _ H2), (sm_menu _ _ H1).
    + intros p q Hq. destruct (sm_prop _ _ H1 p q Hq) as (q2 & Hq2 & E2).
      destruct (sm_prop _ _ H2 p q2 Hq2) as (q3 & Hq3 & E3). exists q3. split; [done|congruence].
    + intros s. by rewrite (sm_name _ _ H2), (sm_name _ _ H1).
    + intros s. by rewrite (sm_choice _ _ H2), (sm_choice _ _ H1).
Qed.

Lemma filter_ext_in {A} (P Q : A → Prop) `{∀ x, Decision (P x), ∀ x, Decision (Q x)} (l : list A) :
  (∀ x, x ∈ l → P x ↔ Q x) → filter P l = filter Q l.
Proof.
  induction l as [|a l IH]; intros Hl; [done|]. rewrite !filter_cons. rewrite IH by set_solver.
  destruct (decide (P a)) as [Ha|Ha], (decide (Q a)) as [Hb|Hb]; try done; destruct (Hl a); set_solver.
Qed.
Lemma same_props_len t t' : same t t' → (length (props t) ≤ length (props t'))%nat.
Proof.
  intros Hs. destruct (length (props t)) as [|n] eqn:E; [lia|].
  destruct (lookup_lt_is_Some_2 (props t) n) as [q Hq]; [lia|].
  destruct (sm_prop _ _ Hs n q Hq) as (q' & Hq'%lookup_lt_Some & _). lia.
Qed.
Lemma owned_same t t' s : same t t' → ∃ l, owned s t' = owned s t ++ l ∧ ∀ p, p ∈ l → (length (props t) ≤ p)%nat.
Proof.
  intros Hs. pose proof (same_props_len t t' Hs) as Hle. unfold owned.
  replace (length (props t')) with (length (props t) + (length (props t') - length (props t)))%nat by lia.
  rewrite seq_app, filter_app. eexists. split.
  - f_equal. apply filter_ext_in. intros p [_ Hp]%elem_of_seq.
    destruct (lookup_lt_is_Some_2 (props t) p) as [q Hq]; [lia|].
    destruct (sm_prop _ _ Hs p q Hq) as (q' & Hq' & [= _ _ _ Ho]). rewrite Hq, Hq'. cbn. by rewrite Ho.
  - intros p [_ Hp%elem_of_seq]%list_elem_of_filter. lia.
Qed.

Lemma choice_prop_same t t' s p : same t t' → choice_prop s t = Some p → choice_prop s t' = Some p.
Proof.
  intros Hs Hp. unfold choice_prop in *. destruct (owned_same t t' s Hs) as (l & -> & _).
  rewrite filter_app.
  assert (filter (λ p, mp_type <$> (props t' !! p) = Some P_CHOICE) (owned s t) =
          filter (λ p, mp_type <$> (props t !! p) = Some P_CHOICE) (owned s t)) as ->.
  { apply filter_ext_in. intros x [_ [_ Hx]%elem_of_seq]%list_elem_of_filter.
    destruct (lookup_lt_is_Some_2 (props t) x) as [q Hq]; [lia|].
    destruct (sm_prop _ _ Hs x q Hq) as (q' & Hq' & [= Ht _ _ _]). rewrite Hq, Hq'. cbn. by rewrite Ht. }
  by destruct (filter _ (owned s t)).
Qed.

Lemma entered_same t t' s : same t t' → entered s t' ↔ entered s t.
Proof.
  intros Hs. split; intros (m & n & Hn & E); pose proof (sm_menu _ _ Hs m) as Em; rewrite Hn in Em.
  - destruct (menus t !! m) as [n'|] eqn:Hn'; [|done]. injection Em as Em _. exists m, n'. by rewrite <- Em.
  - destruct (menus t' !! m) as [n'|] eqn:Hn'; [|done]. injection Em as Em _. exists m, n'. by rewrite Em.
Qed.

(** The rules of [ok] are kept by a step that changes little. *)
Lemma ok_step t t' :
  ok t → same t t' →
  (∀ m n n', menus t !! m = Some n → menus t' !! m = Some n' → dep_ok (m_dep n') ∧
     (m_parent n' = m_parent n ∨ ∃ up, m_parent n' = Some up ∧ (up < length (menus t))%nat)) →
  (∀ p q', props t' !! p = Some q' → dep_ok (mp_visible q') ∧
     (mp_type q' = P_CHOICE ∨ ∃ q, props t !! p = Some q ∧ mp_expr q' = mp_expr q)) →
  (∀ s p q', entered s t → is_choice s t = true → choice_prop s t = Some p → props t' !! p = Some q' → is_list (mp_expr q') = true) →
  ok t'.
Proof.
  intros Hok Hs Hm Hp Hc. split.
  - intros m n' Hn'. pose proof (sm_menu _ _ Hs m) as E. rewrite Hn' in E.
    destruct (menus t !! m) as [n|] eqn:Hn; [|done]. injection E as Es Ep.
    destruct (Hm m n n' Hn Hn') as [Hd _]. split; [done|]. intros p Hpr. rewrite Ep in Hpr.
    destruct (proj2 (ok_menu _ Hok m n Hn) p Hpr) as (q & Hq & H1 & H2).
    destruct (sm_prop _ _ Hs p q Hq) as (q' & Hq' & [= Ht _ _ _]). exists q'. rewrite Ht. done.
  - intros p q' Hq'. destruct (Hp p q' Hq') as [Hd Hx]. split; [done|].
    destruct Hx as [-> |(q & Hq & He)]; [done|]. destruct (sm_prop _ _ Hs p q Hq) as (q2 & Hq2 & [= Ht _ Hmn _]).
    assert (q2 = q') as -> by congruence. pose proof (ok_prop _ Hok p q Hq) as [_ Hk]. rewrite Ht, He, Hmn.
    unfold named in *. destruct (mp_type q); try done.
    + destruct Hk as (n & up & Hn & Hup & Hlt). pose proof (sm_menu _ _ Hs (mp_menu q)) as E. rewrite Hn in E.
      destruct (menus t' !! mp_menu q) as [n'|] eqn:Hn'; [|done]. exists n'. rewrite (sm_len _ _ Hs).
      destruct (Hm _ _ _ Hn Hn') as [_ [E'|(up' & E' & Hlt')]]; [exists up|exists up']; split_and!; congruence || done.
    + destruct Hk as [Hk1 Hk2]. split; [done|]. intros s Es. rewrite (sm_name _ _ Hs). by apply Hk2.
    + destruct Hk as (a & b & -> & Ha & Hb). exists a, b. by rewrite !(sm_name _ _ Hs).
  - intros s He Hch. rewrite (sm_choice _ _ Hs) in Hch. apply (entered_same t t' s Hs) in He.
    destruct (ok_choice _ Hok s He Hch) as (p & q & Hcp & Hq & Hl).
    destruct (sm_prop _ _ Hs p q Hq) as (q' & Hq' & _). exists p, q'. split; [by eapply choice_prop_same|].
    split; [done|]. by eapply Hc.
Qed.

(** A step that leaves the links alone. *)
Record quiet (t t' : tree) : Prop := {
  qu_ok : ok t';
  qu_same : same t t';
  qu_lk m : lk (menus t') m = lk (menus t) m
}.
Lemma quiet_refl t : ok t → quiet t t.
Proof. by split. Qed.
Lemma quiet_trans t1 t2 t3 : quiet t1 t2 → quiet t2 t3 → quiet t1 t3.
Proof. intros [_ S1 L1] [O2 S2 L2]. split; [done|by etrans|]. intros m. by rewrite L2. Qed.

(** ** Small steps *)

Lemma ok_list t s p q : ok t → entered s t → is_choice s t = true → choice_prop s t = Some p → props t !! p = Some q →
  is_list (mp_expr q) = true.
Proof. intros Hok He Hch Hp Hq. destruct (ok_choice _ Hok s He Hch) as (p' & q' & ? & ? & ?). congruence. Qed.

Lemma quiet_eq t t' :
  ok t → menus t' = menus t → props t' = props t → t_st t' = t_st t → quiet t t'.
Proof.
  intros Hok Em Ep Es. assert (same t t') as Hs.
  { split; rewrite ?Em, ?Ep; unfold sym_, is_choice; rewrite ?Es; eauto. }
  split; [|done|by rewrite Em]. apply (ok_step t); try done; rewrite ?Em, ?Ep.
  - intros m n n' Hn ?. assert (n' = n) as -> by congruence. split; [apply (ok_menu _ Hok m n Hn)|by left].
  - intros p q' Hq. split; [apply (ok_prop _ Hok p q' Hq)|eauto].
  - intros s p q' He Hch Hc Hq. by eapply ok_list.
Qed.
(** A property keeps its expression. *)
Lemma quiet_props t t' :
  ok t → menus t' = menus t → t_st t' = t_st t → length (props t') = length (props t) →
  (∀ p q q', props t !! p = Some q → props t' !! p = Some q' →
     kind q' = kind q ∧ mp_expr q' = mp_expr q ∧ dep_ok (mp_visible q')) →
  quiet t t'.
Proof.
  intros Hok Em Es El Hp. assert (same t t') as Hs.
  { split; rewrite ?Em; unfold sym_, is_choice; rewrite ?Es; try done.
    intros p q Hq. destruct (lookup_lt_is_Some_2 (props t') p) as [q' Hq']; [rewrite El; by eapply lookup_lt_Some|].
    exists q'. split; [done|]. by apply (Hp p q q' Hq Hq'). }
  split; [|done|by rewrite Em]. apply (ok_step t); try done; rewrite ?Em.
  - intros m n n' Hn ?. assert (n' = n) as -> by congruence. split; [apply (ok_menu _ Hok m n Hn)|by left].
  - intros p q' Hq'. destruct (lookup_lt_is_Some_2 (props t) p) as [q Hq]; [rewrite <- El; by eapply lookup_lt_Some|].
    destruct (Hp p q q' Hq Hq') as (_ & He & Hv). split; [done|]. right. by exists q.
  - intros s p q' He Hch Hc Hq'. destruct (ok_choice _ Hok s He Hch) as (p2 & q & Hc2 & Hq & Hl).
    assert (p2 = p) as -> by congruence. destruct (Hp p q q' Hq Hq') as (_ & -> & _). done.
Qed.
Lemma quiet_visible t p e : ok t → dep_ok e → quiet t (upd_prop p (set_mp_visible e) t).
Proof.
  intros Hok He. apply quiet_props; try done; cbn.
  - by rewrite length_alter.
  - intros p' q q' Hq Hq'. rewrite list_lookup_alter in Hq'. case_decide as Hp.
    + subst p'. rewrite Hq in Hq'. injection Hq' as <-. done.
    + assert (q' = q) as -> by congruence. split_and!; try done. apply (ok_prop _ Hok _ _ Hq).
Qed.

(** A symbol keeps its name and its kind. *)
Lemma quiet_sym t s f : ok t →
  (∀ k, k_name (f k) = k_name k ∧ has SYMBOL_CHOICE (f k) = has SYMBOL_CHOICE k) → quiet t (upd_sym s f t).
Proof.
  intros Hok Hf.
  assert (∀ s', k_name (sym_ s' (upd_sym s f t)) = k_name (sym_ s' t) ∧
                is_choice s' (upd_sym s f t) = is_choice s' t) as Hk.
  { intros s'. unfold sym_, is_choice, sym_is_choice. cbn. rewrite ks_upd. case_decide; [apply Hf|done]. }
  assert (same t (upd_sym s f t)) as Hs.
  { split; cbn; eauto; intros s'; apply Hk. }
  split; [|done|done]. apply (ok_step t); try done; cbn.
  - intros m n n' Hn ?. assert (n' = n) as -> by congruence. split; [apply (ok_menu _ Hok m n Hn)|by left].
  - intros p q' Hq. split; [apply (ok_prop _ Hok p q' Hq)|eauto].
  - intros s' p q' He Hch Hc Hq. by eapply ok_list.
Qed.

(** A dependency is changed, or the links of an entry. *)
Lemma ok_menu_step t m f : ok t →
  (∀ n, menus t !! m = Some n → m_sym (f n) = m_sym n ∧ m_prompt (f n) = m_prompt n ∧ dep_ok (m_dep (f n)) ∧
     (m_parent (f n) = m_parent n ∨ ∃ up, m_parent (f n) = Some up ∧ (up < length (menus t))%nat)) →
  ok (upd_menu m f t) ∧ same t (upd_menu m f t).
Proof.
  intros Hok Hf. assert (same t (upd_menu m f t)) as Hs.
  { split; cbn; eauto; [by rewrite length_alter|]. intros m'. rewrite list_lookup_alter. case_decide as Hm; [|done].
    subst m'. destruct (menus t !! m) as [n|] eqn:Hn; [|done]. cbn. by destruct (Hf n eq_refl) as (-> & -> & _). }
  split; [|done]. apply (ok_step t); try done; cbn.
  - intros m' n n' Hn Hn'. rewrite list_lookup_alter in Hn'. case_decide as Hm.
    + subst m'. rewrite Hn in Hn'. injection Hn' as <-. by destruct (Hf n Hn) as (_ & _ & ? & ?).
    + assert (n' = n) as -> by congruence. split; [apply (ok_menu _ Hok _ n Hn)|by left].
  - intros p q' Hq. split; [apply (ok_prop _ Hok p q' Hq)|eauto].
  - intros s' p q' He Hch Hc Hq. by eapply ok_list.
Qed.
Lemma quiet_dep t m g : ok t → (∀ n, menus t !! m = Some n → dep_ok (g n)) →
  quiet t (upd_menu m (λ n, set_dep (g n) n) t).
Proof.
  intros Hok Hg. destruct (ok_menu_step t m (λ n, set_dep (g n) n) Hok) as [H1 H2].
  { intros n Hn. cbn. split_and!; auto. }
  split; [done|done|]. intros y. cbn. rewrite lk_alter. case_decide; [|done]. subst y. unfold lk. by destruct (menus t !! m).
Qed.

(** ** Expressions *)

Lemma trans_bool_wf {T : SymTab} e : wf e → wf (expr_trans_bool e).
Proof.
  induction e as [| |o l IHl r IHr|l IHl|o a b| |s|]; try done; cbn [expr_trans_bool].
  - intros [Hl Hr]%wf_bin_inv. apply wf_bin; auto.
  - intros _. destruct o; try done. repeat case_decide; done.
Qed.
Lemma visible_total {T : SymTab} ty b d : dep_ok b → dep_ok d → ∃ e, visible_expr ty b d = Ret e ∧ dep_ok e.
Proof.
  intros Hb Hd. unfold visible_expr. destruct (propagate_ok b d Hb Hd) as (e & -> & He & _). cbn [mbind result_bind].
  eexists. split; [done|]. destruct ty as [ty|]; [|done]. case_decide; [|done].
  destruct He as [He| ->]; [left; by apply trans_bool_wf|by right].
Qed.
Lemma nonzero_total {T : SymTab} e : dep_ok e → ∃ e', nonzero_expr e = Ret e' ∧ wf e'.
Proof.
  intros He. unfold nonzero_expr.
  assert (wf (expr_trans_compare e UNEQUAL symbol_no)) as Wc by (apply wf_trans_compare; auto).
  destruct (transform_ok _ _ Wc (Nat.lt_succ_diag_r _)) as (e1 & E1 & W1 & _).
  unfold expr_transform. rewrite E1. cbn [mbind result_bind].
  destruct (eliminate_dups_ok e1 W1) as (e2 & -> & W2 & _). eauto.
Qed.
Lemma depends_total {T : SymTab} s b d : wf b → dep_ok d → ∃ r, depends_on s b d = Ret r.
Proof.
  intros Hb Hd. unfold depends_on. destruct (negb _); [eauto|]. destruct (expr_depends_symbol d s); [eauto|].
  destruct (nonzero_total d Hd) as (d' & -> & Hd'). cbn [mbind result_bind]. rewrite copy_wf by done.
  cbn [mbind result_bind]. destruct (expr_eliminate_eq_ok d' b 0 Hd' Hb) as (x & y & c & -> & _).
  cbn [mbind result_bind]. eauto.
Qed.

End KconfigTreeLemmas.
