(* ===== verification/KconfigTreeSteps.v ===== *)
(** * The steps of [menu_finalize] that leave the links alone

    Each of them returns when the tree is as the parser leaves it, and keeps
    it so. *)

From S2P Require Import Prelude CLib KconfigExpr KconfigMenu KconfigSimp KconfigDups KconfigProps.
From S2P Require Import KconfigSym KconfigSymProps KconfigSet KconfigTree KconfigTreeLemmas.
Open Scope Z_scope.

Module KconfigTreeSteps.
Import KconfigExpr KconfigMenu KconfigSimp KconfigDups KconfigProps KconfigSym KconfigSymProps KconfigSet.
Import KconfigTree KconfigTreeLemmas.

(** [f] returns from [t], and the step is quiet. *)
Definition returns (f : tree → result tree) (t : tree) : Prop := ∃ t', f t = Ret t' ∧ quiet t t'.

Lemma returns_ret t : ok t → returns Ret t.
Proof. intros Hok. exists t. split; [done|by apply quiet_refl]. Qed.
Lemma returns_warn b w t : ok t → quiet t (warn_if b w t).
Proof. intros Hok. by destruct b; apply quiet_eq. Qed.
(** After one quiet step another. *)
Lemma returns_then t t1 f : quiet t t1 → returns f t1 → ∃ t', f t1 = Ret t' ∧ quiet t t'.
Proof. intros H1 (t2 & E & H2). exists t2. split; [done|by eapply quiet_trans]. Qed.

Lemma quiet_menu t t' m n : quiet t t' → menus t !! m = Some n →
  ∃ n', menus t' !! m = Some n' ∧ m_sym n' = m_sym n ∧ m_prompt n' = m_prompt n ∧ m_next n' = m_next n ∧
    m_parent n' = m_parent n ∧ m_list n' = m_list n.
Proof.
  intros Hq Hn. pose proof (sm_menu _ _ (qu_same _ _ Hq) m) as E. pose proof (qu_lk _ _ Hq m) as L.
  unfold lk in L. rewrite Hn in E, L. destruct (menus t' !! m) as [n'|]; [|done]. injection E as ? ?. injection L as ? ? ?.
  by exists n'.
Qed.
Lemma quiet_prop t t' p q : quiet t t' → props t !! p = Some q → ∃ q', props t' !! p = Some q' ∧ kind q' = kind q.
Proof. intros Hq. apply (sm_prop _ _ (qu_same _ _ Hq)). Qed.
Lemma owned_in s p t : p ∈ owned s t → ∃ q, props t !! p = Some q ∧ mp_owner q = Some s.
Proof.
  intros [Hp _]%list_elem_of_filter. destruct (props t !! p) as [q|]; [|done]. by exists q.
Qed.

Lemma for_props_returns f l t : ok t →
  (∀ p t1, p ∈ l → quiet t t1 → returns (f p) t1) → returns (for_props f l) t.
Proof.
  revert t. induction l as [|p l IH]; intros t Hok Hf; cbn [for_props]; [by apply returns_ret|].
  destruct (Hf p t) as (t1 & E1 & Q1); [set_solver|by apply quiet_refl|].
  unfold returns. rewrite E1. cbn [mbind result_bind]. apply (returns_then t t1 (for_props f l)); [done|].
  apply IH; [apply (qu_ok _ _ Q1)|]. intros p' t2 Hp' Q2. apply Hf; [set_solver|by eapply quiet_trans].
Qed.

(** ** Dependencies *)

Lemma finish_prop_returns m n basedep p q t :
  ok t → dep_ok basedep → menus t !! m = Some n → props t !! p = Some q →
  (m_sym n = None → mp_type q ≠ P_SELECT ∧ mp_type q ≠ P_IMPLY) → returns (finish_prop m basedep p) t.
Proof.
  intros Hok Hb Hn Hq Hs. unfold returns, finish_prop, menu_at, prop_at. rewrite Hn, Hq. cbn [of_option mbind result_bind].
  case_bool_decide as Hm; cbn [negb]; [|by apply returns_ret].
  pose proof (ok_prop _ Hok p q Hq) as [Hv Hk].
  destruct (@visible_total (tab_of (t_st t)) ((λ s, k_type (sym_ s t)) <$> m_sym n) basedep (mp_visible q) Hb Hv)
    as (e & -> & He). cbn [mbind result_bind].
  pose proof (quiet_visible t p e Hok He) as Q1.
  assert (∀ or : expr → ksym → ksym, (∀ x k, k_name (or x k) = k_name k ∧ has SYMBOL_CHOICE (or x k) = has SYMBOL_CHOICE k) →
    (∃ s, mp_expr q = SYMBOL s) → is_Some (m_sym n) → ∃ t',
      (es ← prop_symbol (mp_expr q); es ← of_option NullDeref es; s ← of_option NullDeref (m_sym n); c ← expr_copy e;
       Ret (upd_sym es (or (expr_alloc_and (expr_alloc_symbol s) c)) (upd_prop p (set_mp_visible e) t))) = Ret t' ∧ quiet t t') as Hsel.
  { intros or Hor (es & ->) (s & ->). unfold prop_symbol, prop_get_symbol. cbn [p_expr of_option mbind result_bind].
    rewrite copy_dep by done. cbn [mbind result_bind]. eexists. split; [done|]. eapply quiet_trans; [exact Q1|].
    apply quiet_sym; [apply (qu_ok _ _ Q1)|]. intros k. apply Hor. }
  assert (is_Some (m_sym n) ∨ (mp_type q ≠ P_SELECT ∧ mp_type q ≠ P_IMPLY)) as Hc
    by (destruct (m_sym n); [left; by eexists|right; by apply Hs]).
  destruct (mp_type q); try (by eexists).
  - destruct Hc as [Hc|[? _]]; [|done]. apply Hsel; [done|done|done].
  - destruct Hc as [Hc|[_ ?]]; [|done]. apply Hsel; [done|done|done].
Qed.

Lemma pass_down_returns parentdep m t : ok t → dep_ok parentdep → (m < length (menus t))%nat → returns (pass_down parentdep m) t.
Proof.
  intros Hok Hp Hm. destruct (lookup_lt_is_Some_2 _ _ Hm) as [n Hn]. pose proof (ok_menu _ Hok m n Hn) as [Hd Hpr].
  unfold returns, pass_down, menu_at. rewrite Hn. cbn [of_option mbind result_bind].
  destruct (@propagate_ok (tab_of (t_st t)) parentdep (m_dep n) Hp Hd) as (e & -> & He & _). cbn [mbind result_bind].
  assert (quiet t (upd_menu m (set_dep e) t)) as Q1 by (by apply (quiet_dep t m (λ _, e))).
  eapply returns_then; [exact Q1|]. apply for_props_returns; [apply (qu_ok _ _ Q1)|].
  intros p t1 Hin Q2. destruct (quiet_menu _ _ _ _ (quiet_trans _ _ _ Q1 Q2) Hn) as (n1 & Hn1 & Hs1 & _).
  assert (∃ q, props (upd_menu m (set_dep e) t) !! p = Some q ∧
            (m_sym n = None → mp_type q ≠ P_SELECT ∧ mp_type q ≠ P_IMPLY)) as (q & Hq & Hsel).
  { destruct (m_sym n) as [s|] eqn:Es.
    - destruct (owned_in _ _ _ Hin) as (q & Hq & _). by exists q.
    - destruct (m_prompt n) as [p'|]; [|by apply elem_of_nil in Hin]. apply list_elem_of_singleton in Hin as ->.
      destruct (Hpr p' eq_refl) as (q & Hq & ? & ?). by exists q. }
  destruct (quiet_prop _ _ _ _ Q2 Hq) as (q1 & Hq1 & [= Ht _ _ _]).
  apply (finish_prop_returns m n1 e p q1); try done; [apply (qu_ok _ _ Q2)|]. rewrite Hs1, Ht. done.
Qed.

(** ** Types *)

Lemma set_type_returns ty m n t : ok t → current_entry t = m → menus t !! m = Some n → is_Some (m_sym n) →
  returns (menu_set_type ty) t.
Proof.
  intros Hok Hm Hn [s Hs]. unfold returns, menu_set_type, menu_at. rewrite Hm, Hn. cbn [of_option mbind result_bind].
  rewrite Hs. cbn [of_option mbind result_bind]. eexists. split; [done|].
  repeat case_decide; [by apply quiet_refl|by apply quiet_sym|by apply quiet_eq].
Qed.
Lemma value_type_returns s m t : ok t → (m < length (menus t))%nat → returns (value_type s m) t.
Proof.
  intros Hok Hm. destruct (lookup_lt_is_Some_2 _ _ Hm) as [n Hn]. unfold returns, value_type, menu_at. cbn. rewrite Hn.
  cbn [of_option mbind result_bind]. assert (quiet t (set_entry m t)) as Q1 by (by apply quiet_eq).
  destruct (m_sym n) as [s2|] eqn:Es; [|by exists (set_entry m t)].
  case_decide; [|by exists (set_entry m t)]. eapply returns_then; [exact Q1|].
  eapply (set_type_returns _ m n); [apply (qu_ok _ _ Q1)|done|done|by rewrite Es].
Qed.
Lemma first_type_total n par f p t : repr (menus t) par None f p → (length (pre f) ≤ n)%nat → ∃ r, first_type n p t = Ret r.
Proof.
  revert f p. induction n as [|n IH]; intros f p Hr Hl; (destruct f as [|m k r]; [cbn in Hr; subst p; by eexists|]).
  { cbn in Hl. lia. }
  destruct Hr as (-> & nx & l & Hm & _ & Hr). cbn [first_type]. unfold menu_at. unfold lk in Hm.
  destruct (menus t !! m) as [mn|]; [|done]. injection Hm as <- _ _. cbn [of_option mbind result_bind].
  assert (∃ x, first_type n (m_next mn) t = Ret x) as [x Hx].
  { apply (IH r); [done|]. cbn in Hl. rewrite length_app in Hl. lia. }
  destruct (m_sym mn); [case_decide|]; eauto.
Qed.

(** ** Choices *)

Lemma check_value_returns s m p q t : ok t → props t !! p = Some q → returns (check_value_prop s m p) t.
Proof.
  intros Hok Hq. unfold returns, check_value_prop, prop_at. rewrite Hq. cbn [of_option mbind result_bind].
  set (t1 := warn_if _ _ t). assert (quiet t t1) as Q1 by by apply returns_warn.
  case_decide; [by exists t1|]. case_decide as Ht; [|by exists t1].
  pose proof (ok_prop _ Hok p q Hq) as [_ Hk]. rewrite Ht in Hk. destruct Hk as (n & up & Hn & Hup & Hlt).
  unfold menu_at. destruct (quiet_menu _ _ _ _ Q1 Hn) as (n1 & -> & _ & _ & _ & Hp1 & _). cbn [of_option mbind result_bind].
  rewrite Hp1, Hup. cbn [of_option mbind result_bind].
  destruct (lookup_lt_is_Some_2 (menus t1) up) as [u Hu]; [by rewrite (sm_len _ _ (qu_same _ _ Q1))|].
  rewrite Hu. cbn [of_option mbind result_bind]. eexists. split; [done|]. eapply quiet_trans; [exact Q1|].
  apply returns_warn, (qu_ok _ _ Q1).
Qed.
Lemma and_visible_returns m e p q t : ok t → dep_ok e → props t !! p = Some q → returns (and_visible m e p) t.
Proof.
  intros Hok He Hq. unfold returns, and_visible, prop_at. rewrite Hq. cbn [of_option mbind result_bind].
  case_decide; [|by apply returns_ret]. rewrite copy_dep by done. cbn [mbind result_bind]. eexists. split; [done|].
  apply quiet_visible; [done|]. apply (@alloc_and_dep (tab_of (t_st t))); [done|]. apply (ok_prop _ Hok _ _ Hq).
Qed.
Lemma owned_returns f s t : ok t →
  (∀ p q t1, quiet t t1 → props t1 !! p = Some q → returns (f p) t1) → returns (for_props f (owned s t)) t.
Proof.
  intros Hok Hf. apply for_props_returns; [done|]. intros p t1 Hp Q1. destruct (owned_in _ _ _ Hp) as (q & Hq & _).
  destruct (quiet_prop _ _ _ _ Q1 Hq) as (q1 & Hq1 & _). by eapply Hf.
Qed.

Lemma list_add_ok e s : is_list e = true → ∃ e', list_add e s = Ret e' ∧ is_list e' = true.
Proof.
  induction e as [| | | | |l IH x| |]; try done; cbn; [by eexists|]. intros (l' & -> & Hl')%IH. cbn [mbind result_bind].
  by eexists.
Qed.

Lemma quiet_append e m o t : ok t → quiet t (set_props (props t ++ [MProp P_CHOICE None NULL e m o]) t).
Proof.
  intros Hok. set (t' := set_props _ t). assert (same t t') as Hs.
  { split; cbn; try done. intros p q Hq. exists q. by rewrite lookup_app_l by (by eapply lookup_lt_Some). }
  split; [|done|done]. apply (ok_step t); try done; cbn.
  - intros m' n n' Hn ?. assert (n' = n) as -> by congruence. split; [apply (ok_menu _ Hok m' n Hn)|by left].
  - intros p q' [Hq|[_ Hq]]%lookup_app_Some.
    + split; [apply (ok_prop _ Hok p q' Hq)|eauto].
    + apply list_lookup_singleton_Some in Hq as [_ <-]. split; [by right|by left].
  - intros s p q' He Hch Hc Hq'. destruct (ok_choice _ Hok s He Hch) as (p2 & q & Hc2 & Hq & Hl).
    assert (p2 = p) as -> by congruence. rewrite lookup_app_l in Hq' by (by eapply lookup_lt_Some). congruence.
Qed.
Lemma choice_prop_type s p t : choice_prop s t = Some p → ∃ q, props t !! p = Some q ∧ mp_type q = P_CHOICE.
Proof.
  unfold choice_prop. intros Hp. apply head_Some_elem_of, list_elem_of_filter in Hp as [Hp _].
  destruct (props t !! p) as [q|]; [|done]. injection Hp as Hp. by exists q.
Qed.
Lemma quiet_choice_expr s p e t : ok t → choice_prop s t = Some p → is_list e = true → quiet t (upd_prop p (set_mp_expr e) t).
Proof.
  intros Hok Hp He. destruct (choice_prop_type s p t Hp) as (q & Hq & Ht). set (t' := upd_prop _ _ t).
  assert (∀ p', props t' !! p' = if decide (p = p') then Some (set_mp_expr e q) else props t !! p') as Hl.
  { intros p'. cbn. rewrite list_lookup_alter. case_decide; [|done]. by rewrite Hq. }
  assert (same t t') as Hs.
  { split; try done. intros p' q' Hq'. rewrite Hl. case_decide as E; [|by exists q']. subst p'.
    eexists. split; [done|]. by assert (q' = q) as -> by congruence. }
  split; [|done|done]. apply (ok_step t); try done.
  - intros m' n n' Hn ?. assert (n' = n) as -> by (cbn in *; congruence). split; [apply (ok_menu _ Hok m' n Hn)|by left].
  - intros p' q'. rewrite Hl. case_decide as E.
    + intros [= <-]. split; [apply (ok_prop _ Hok p q Hq)|by left].
    + intros Hq'. split; [apply (ok_prop _ Hok p' q' Hq')|eauto].
  - intros s' p' q' Hen Hch Hc. rewrite Hl. case_decide; [by intros [= <-]|]. by apply (ok_list t s').
Qed.

(** The current entry stays. *)
Lemma for_props_entry f l t t' : (∀ p t t', f p t = Ret t' → current_entry t' = current_entry t) →
  for_props f l t = Ret t' → current_entry t' = current_entry t.
Proof.
  intros Hf. revert t. induction l as [|p l IH]; intros t; cbn [for_props]; [by intros [= <-]|].
  destruct (f p t) as [t1|] eqn:E; [|done]. cbn [mbind result_bind]. intros Ht. rewrite (IH _ Ht). by eapply Hf.
Qed.
Lemma check_value_entry s m p t t' : check_value_prop s m p t = Ret t' → current_entry t' = current_entry t.
Proof.
  unfold check_value_prop, prop_at, menu_at. destruct (props t !! p) as [q|]; [|done]. cbn [of_option mbind result_bind].
  set (t1 := warn_if _ _ t). assert (current_entry t1 = current_entry t) as <- by (unfold t1, warn_if; by case_bool_decide).
  repeat case_decide; [by intros [= <-]| |by intros [= <-]].
  destruct (menus t1 !! mp_menu q) as [n|]; [|done]. cbn [of_option mbind result_bind].
  destruct (m_parent n) as [u|]; [|done]. cbn [of_option mbind result_bind].
  destruct (menus t1 !! u); [|done]. cbn [of_option mbind result_bind]. intros [= <-]. unfold warn_if. by destruct (negb _).
Qed.
Lemma and_visible_entry m e p t t' : and_visible m e p t = Ret t' → current_entry t' = current_entry t.
Proof.
  unfold and_visible, prop_at. destruct (props t !! p) as [q|]; [|done]. cbn [of_option mbind result_bind].
  case_decide; [|by intros [= <-]]. destruct (expr_copy e); [|done]. cbn [mbind result_bind]. by intros [= <-].
Qed.

Lemma add_value_returns s v m n t : ok t → entered s t → is_choice s t = true → menus t !! m = Some n → m_sym n = Some v →
  returns (add_value s v m) t.
Proof.
  intros Hok Hen Hch Hn Hv. unfold returns, add_value.
  set (t0 := upd_sym v (raise SYMBOL_CHOICEVAL) (set_entry m t)). assert (quiet t t0) as Q0.
  { eapply quiet_trans; [by apply (quiet_eq t (set_entry m t))|]. apply quiet_sym; [by apply (qu_ok t), quiet_eq|].
    intros k. split; [done|by apply has_raise_disj]. }
  destruct (quiet_menu _ _ _ _ Q0 Hn) as (n0 & Hn0 & _). unfold menu_at. rewrite Hn0. cbn [of_option mbind result_bind].
  set (t1 := warn_if (bool_decide (m_prompt n0 = None)) (W_value_without_prompt m) t0). assert (quiet t t1) as Q1 by (eapply quiet_trans; [exact Q0|apply returns_warn, (qu_ok _ _ Q0)]).
  destruct (owned_returns (check_value_prop s m) v t1 (qu_ok _ _ Q1)) as (t2 & E2 & Q2).
  { intros p q t' Q' Hq. apply (check_value_returns s m p q); [apply (qu_ok _ _ Q')|done]. }
  rewrite E2. cbn [mbind result_bind]. pose proof (quiet_trans _ _ _ Q1 Q2) as Q12.
  destruct (quiet_menu _ _ _ _ Q12 Hn) as (n2 & Hn2 & _).
  assert (∃ t3, (if decide (k_type (sym_ s t2) = S_TRISTATE ∧ k_type (sym_ v t2) ≠ S_TRISTATE) then
     for_props (and_visible m (expr_alloc_comp EQUAL s symbol_yes))
       (owned v (upd_menu m (λ n, set_dep (expr_alloc_and (expr_alloc_comp EQUAL s symbol_yes) (m_dep n)) n) t2))
       (upd_menu m (λ n, set_dep (expr_alloc_and (expr_alloc_comp EQUAL s symbol_yes) (m_dep n)) n) t2)
     else Ret t2) = Ret t3 ∧ quiet t2 t3) as (t3 & E3 & Q3).
  { case_decide; [|exists t2; split; [done|apply quiet_refl, (qu_ok _ _ Q2)]].
    assert (dep_ok (expr_alloc_comp EQUAL s symbol_yes)) as Hd by by left.
    assert (quiet t2 (upd_menu m (λ n, set_dep (expr_alloc_and (expr_alloc_comp EQUAL s symbol_yes) (m_dep n)) n) t2)) as Q.
    { apply (quiet_dep t2 m (λ n, expr_alloc_and (expr_alloc_comp EQUAL s symbol_yes) (m_dep n))); [apply (qu_ok _ _ Q2)|].
      intros x Hx. apply (@alloc_and_dep (tab_of (t_st t))); [done|]. apply (ok_menu _ (qu_ok _ _ Q2) m x Hx). }
    eapply returns_then; [exact Q|]. apply owned_returns; [apply (qu_ok _ _ Q)|].
    intros p q t' Q' Hq. apply (and_visible_returns m _ p q); [apply (qu_ok _ _ Q')|done|done]. }
  rewrite E3. cbn [mbind result_bind]. pose proof (quiet_trans _ _ _ Q12 Q3) as Q13.
  assert (current_entry t3 = m) as Hcur.
  { assert (current_entry t2 = m) as H2.
    { rewrite (for_props_entry _ _ _ _ (check_value_entry s m) E2). by unfold t1, warn_if; case_bool_decide. }
    case_decide; [|by injection E3 as <-]. by rewrite (for_props_entry _ _ _ _ (and_visible_entry m _) E3). }
  destruct (quiet_menu _ _ _ _ Q13 Hn) as (n3 & Hn3 & Hs3 & _).
  unfold menu_add_symbol, menu_add_prop, menu_at. rewrite Hcur, Hn3. cbn [of_option mbind result_bind].
  pose proof (quiet_append (expr_alloc_symbol s) m (m_sym n3) t3 (qu_ok _ _ Q13)) as Q4.
  set (t4 := set_props _ t3) in *. pose proof (quiet_trans _ _ _ Q13 Q4) as Q14.
  destruct (ok_choice _ (qu_ok _ _ Q14) s) as (p & q & Hp & Hq & Hl).
  { by apply (entered_same _ _ s (qu_same _ _ Q14)). }
  { by rewrite (sm_choice _ _ (qu_same _ _ Q14)). }
  rewrite Hp. cbn [of_option mbind result_bind]. unfold prop_at. rewrite Hq. cbn [of_option mbind result_bind].
  destruct (list_add_ok (mp_expr q) v Hl) as (e & -> & He). cbn [mbind result_bind]. eexists. split; [done|].
  eapply quiet_trans; [exact Q14|]. apply (quiet_choice_expr s); [apply (qu_ok _ _ Q14)|done|done].
Qed.

(** ** Warnings *)

Lemma validate_total s s2 t : named s2 t → ∃ b, menu_validate_number s s2 t = Ret b.
Proof. intros [n Hn]. unfold menu_validate_number. rewrite Hn. destruct (k_type (sym_ s2 t)); cbn; eauto. Qed.
Lemma named_quiet s t t' : quiet t t' → named s t → named s t'.
Proof. intros Q. unfold named. by rewrite (sm_name _ _ (qu_same _ _ Q)). Qed.
Lemma check_one_returns s p q t : ok t → props t !! p = Some q → returns (check_one s p) t.
Proof.
  intros Hok Hq. unfold returns, check_one, prop_at. rewrite Hq. cbn [of_option mbind result_bind].
  pose proof (ok_prop _ Hok p q Hq) as [_ Hk]. destruct (mp_type q); try (by apply returns_ret).
  - destruct Hk as [Hne Hnm].
    assert (deref (mp_expr q) = Ret (mp_expr q)) as -> by (by destruct (mp_expr q)). cbn [mbind result_bind].
    destruct (mp_expr q) as [| | | | | |s2|] eqn:Ee; try (eexists; split; [done|by apply returns_warn]).
    destruct (validate_total s s2 t (Hnm s2 eq_refl)) as [b Hb].
    assert (∃ t1, (if numeric (k_type (sym_ s t)) then ok ← menu_validate_number s s2 t;
        Ret (warn_if (negb ok) (W_number_invalid p) t) else Ret t) = Ret t1 ∧ quiet t t1) as (t1 & -> & Q1).
    { destruct (numeric _); [|by apply returns_ret]. rewrite Hb. cbn [mbind result_bind]. eexists. split; [done|].
      by apply returns_warn. }
    cbn [mbind result_bind]. eexists. split; [done|]. eapply quiet_trans; [exact Q1|]. apply returns_warn, (qu_ok _ _ Q1).
  - destruct Hk as (s2 & ->). cbn. destruct (logical _); cbn.
    + eexists. split; [done|by apply returns_warn].
    + eexists. split; [done|by apply quiet_eq].
  - destruct Hk as (s2 & ->). cbn. destruct (logical _); cbn.
    + eexists. split; [done|by apply returns_warn].
    + eexists. split; [done|by apply quiet_eq].
  - destruct Hk as (a & b & -> & Ha & Hb). set (t1 := warn_if _ _ t). assert (quiet t t1) as Q1 by by apply returns_warn.
    unfold range_of. cbn [p_expr mbind result_bind].
    destruct (validate_total s a t1 (named_quiet _ _ _ Q1 Ha)) as [lo ->].
    destruct (validate_total s b t1 (named_quiet _ _ _ Q1 Hb)) as [hi Hhi]. cbn [mbind result_bind].
    assert (∃ x, (if lo then menu_validate_number s b t1 else Ret false) = Ret x) as [x ->] by (destruct lo; eauto).
    cbn [mbind result_bind]. eexists. split; [done|]. eapply quiet_trans; [exact Q1|]. apply returns_warn, (qu_ok _ _ Q1).
Qed.
Lemma check_symbol_returns parent s t : ok t → (parent < length (menus t))%nat → returns (check_symbol parent s) t.
Proof.
  intros Hok Hp. destruct (lookup_lt_is_Some_2 _ _ Hp) as [n Hn]. unfold returns, check_symbol.
  destruct (has SYMBOL_WARNED _); [by apply returns_ret|]. unfold menu_at. rewrite Hn. cbn [of_option mbind result_bind].
  set (t1 := warn_if _ _ t). assert (quiet t t1) as Q1 by by apply returns_warn.
  set (t2 := warn_if _ _ t1). assert (quiet t t2) as Q2 by (eapply quiet_trans; [exact Q1|apply returns_warn, (qu_ok _ _ Q1)]).
  unfold sym_check_prop. destruct (owned_returns (check_one s) s t2 (qu_ok _ _ Q2)) as (t3 & -> & Q3).
  { intros p q t' Q' Hq. apply (check_one_returns s p q); [apply (qu_ok _ _ Q')|done]. }
  cbn [mbind result_bind]. eexists. split; [done|]. eapply quiet_trans; [exact Q2|]. eapply quiet_trans; [exact Q3|].
  apply quiet_sym; [apply (qu_ok _ _ Q3)|]. intros k. split; [done|by apply has_raise_disj].
Qed.
Lemma prompt_of_total m n t : ok t → menus t !! m = Some n → ∃ o, prompt_of n t = Ret o ∧
  match o with Some q => dep_ok (mp_visible q) | None => True end.
Proof.
  intros Hok Hn. unfold prompt_of. destruct (m_prompt n) as [p|] eqn:Hp; [|by exists None].
  destruct (proj2 (ok_menu _ Hok m n Hn) p Hp) as (q & Hq & _). unfold prop_at. rewrite Hq. cbn. exists (Some q).
  split; [done|]. apply (ok_prop _ Hok p q Hq).
Qed.
Lemma force_choice_returns parent s t : ok t → (parent < length (menus t))%nat → returns (force_choice parent s) t.
Proof.
  intros Hok Hp. destruct (lookup_lt_is_Some_2 _ _ Hp) as [n Hn]. unfold returns, force_choice, menu_at. rewrite Hn.
  cbn [of_option mbind result_bind]. destruct (prompt_of_total parent n t Hok Hn) as (o & -> & _). cbn [mbind result_bind].
  destruct o as [q|]; [|by apply returns_ret]. destruct (has SYMBOL_OPTIONAL _); [by apply returns_ret|].
  eexists. split; [done|]. by apply quiet_sym.
Qed.

End KconfigTreeSteps.
