(* ===== verification/KconfigTreeProps.v ===== *)
(** * [menu_finalize] keeps the entries in order

    The completion of the menu tree returns, and the entries of the new tree,
    read from top to bottom, are those of the old one in the same order. *)

From S2P Require Import Prelude CLib KconfigExpr KconfigMenu KconfigSimp KconfigProps.
From S2P Require Import KconfigSym KconfigSymProps KconfigSet KconfigTree KconfigTreeLemmas KconfigTreeSteps.
Open Scope Z_scope.

Module KconfigTreeProps.
Import KconfigExpr KconfigMenu KconfigSimp KconfigProps KconfigSym KconfigSymProps KconfigSet.
Import KconfigTree KconfigTreeLemmas KconfigTreeSteps.

(** ** Steps that move entries *)

(** Only the links of [l] change. *)
Record moved (l : list nat) (t t' : tree) : Prop := {
  mv_ok : ok t';
  mv_same : same t t';
  mv_lk y : y ∉ l → lk (menus t') y = lk (menus t) y
}.
Lemma moved_quiet l t t' : quiet t t' → moved l t t'.
Proof. intros []. by split. Qed.
Lemma moved_trans l t1 t2 t3 : moved l t1 t2 → moved l t2 t3 → moved l t1 t3.
Proof. intros [_ S1 L1] [O2 S2 L2]. split; [done|by etrans|]. intros y Hy. by rewrite L2, L1. Qed.
Lemma moved_wider l l' t t' : l ⊆ l' → moved l t t' → moved l' t t'.
Proof. intros Hl [? ? L]. split; try done. intros y Hy. apply L. set_solver. Qed.
Lemma moved_repr l t t' par stop f p : moved l t t' → (∀ y, y ∈ pre f → y ∉ l) →
  repr (menus t) par stop f p → repr (menus t') par stop f p.
Proof. intros Hm Hf. apply repr_frame. intros y Hy. apply (mv_lk _ _ _ Hm). by apply Hf. Qed.

(** [body] turns an entry, with what is below it and after it, into the same
    entry with the same entries below it and after it, in order. *)
Definition keeps_order (t0 : tree) (body : nat → tree → result tree) (par : option nat) (N : nat) : Prop :=
  ∀ m k r t, (length (pre (FCons m k r)) ≤ N)%nat → ok t → same t0 t →
    NoDup (pre (FCons m k r)) → repr (menus t) par None (FCons m k r) (Some m) →
    ∃ t' k' r', body m t = Ret t' ∧ moved (pre (FCons m k r)) t t' ∧
      repr (menus t') par None (FCons m k' r') (Some m) ∧ pre (FCons m k' r') = pre (FCons m k r).

Lemma quiet_keeps_order t0 body par N :
  (∀ m t, ok t → (m < length (menus t))%nat → returns (body m) t) → keeps_order t0 body par N.
Proof.
  intros Hb m k r t _ Hok _ _ Hr. destruct (Hb m t Hok) as (t' & E & Q).
  { by apply (repr_in _ _ _ _ _ m Hr); left. }
  exists t', k, r. split; [done|]. split; [by apply moved_quiet|]. split; [|done].
  apply (repr_frame (menus t)); [|done]. intros y _. apply (qu_lk _ _ Q).
Qed.

Lemma each_keeps_order t0 body par N n f p t :
  keeps_order t0 body par N → (length (pre f) ≤ N)%nat → (length (pre f) ≤ n)%nat → ok t →
  same t0 t → NoDup (pre f) → repr (menus t) par None f p →
  ∃ t' f', each n body p t = Ret t' ∧ moved (pre f) t t' ∧ repr (menus t') par None f' p ∧ pre f' = pre f.
Proof.
  intros Hb. revert f p t. induction n as [|n IH]; intros f p t HN Hn Hok Hpar Hnd Hr;
    (destruct f as [|m k r]; [cbn in Hr; subst p; exists t, FNil; split_and!; try done; by apply moved_quiet, quiet_refl|]).
  { cbn in Hn. lia. }
  assert (p = Some m) as -> by apply Hr. cbn [each].
  destruct (Hb m k r t HN Hok Hpar Hnd Hr) as (t1 & k1 & r1 & -> & M1 & R1 & P1). cbn [mbind result_bind].
  pose proof R1 as (_ & nx & l & L1 & K1 & R1'). unfold menu_at. unfold lk in L1.
  destruct (menus t1 !! m) as [mn|] eqn:Em; [|done]. cbn [of_option mbind result_bind]. injection L1 as <- Hpm <-.
  assert (NoDup (pre (FCons m k1 r1))) as Hnd1 by (by rewrite P1).
  cbn [pre] in Hnd1. apply NoDup_cons in Hnd1 as [Hm1 Hnd1]. apply NoDup_app in Hnd1 as (Hk1 & Hkr & Hr1).
  assert (length (pre k1) + length (pre r1) = length (pre k) + length (pre r))%nat as Hlen.
  { pose proof (f_equal length P1) as E. cbn [pre length] in E. rewrite !length_app in E. lia. }
  cbn [pre length] in HN, Hn. rewrite length_app in HN, Hn.
  destruct (IH r1 (m_next mn) t1) as (t2 & r2 & -> & M2 & R2 & P2); [lia|lia|apply (mv_ok _ _ _ M1)| |done|done|].
  { etrans; [exact Hpar|apply (mv_same _ _ _ M1)]. }
  exists t2, (FCons m k1 r2). split; [done|]. split; [|split].
  - eapply moved_trans; [exact M1|]. eapply moved_wider; [|exact M2]. rewrite <- P1. cbn [pre]. set_solver.
  - cbn [repr]. split; [done|]. exists (m_next mn), (m_list mn). split; [|split; [|done]].
    + rewrite (mv_lk _ _ _ M2) by set_solver. unfold lk. rewrite Em. cbn. by rewrite Hpm.
    + apply (moved_repr _ _ _ _ _ _ _ M2); [|done]. intros y Hy Hy'. by apply (Hkr y).
  - rewrite <- P1. cbn [pre]. by rewrite P2.
Qed.

(** ** Flattening *)

Lemma upd_links t m f : ok t →
  (∀ n, menus t !! m = Some n → m_sym (f n) = m_sym n ∧ m_prompt (f n) = m_prompt n ∧ m_dep (f n) = m_dep n ∧
     (m_parent (f n) = m_parent n ∨ ∃ up, m_parent (f n) = Some up ∧ (up < length (menus t))%nat)) →
  moved [m] t (upd_menu m f t).
Proof.
  intros Hok Hf. destruct (ok_menu_step t m f Hok) as [H1 H2].
  { intros n Hn. destruct (Hf n Hn) as (-> & -> & -> & ?). split_and!; try done. apply (ok_menu _ Hok m n Hn). }
  split; [done|done|]. intros y Hy. cbn. rewrite lk_alter, decide_False by set_solver. done.
Qed.

Lemma reparent_ok n f m par parent t :
  ok t → (parent < length (menus t))%nat → repr (menus t) par None f (Some m) → NoDup (pre f) → (length (pre f) ≤ n)%nat →
  ∃ t' l, reparent n parent m t = Ret (l, t') ∧ flast f = Some l ∧ moved (pre f) t t' ∧
    repr (menus t') (Some parent) None f (Some m).
Proof.
  revert f m t. induction n as [|n IH]; intros f m t Hok Hp Hr Hnd Hn; (destruct f as [|m' k r]; [done|]).
  { cbn in Hn. lia. }
  destruct Hr as ([= <-] & nx & l & Hm & Hk & Hr). cbn [reparent].
  pose proof (upd_links t m (set_parent (Some parent)) Hok) as M1. destruct M1 as [O1 S1 L1].
  { intros x Hx. cbn. split_and!; try done. right. eauto. }
  set (t1 := upd_menu m (set_parent (Some parent)) t) in *.
  assert (lk (menus t1) m = Some (nx, Some parent, l)) as Hm1.
  { cbn. rewrite lk_parent, decide_True, Hm by done. done. }
  cbn [pre] in Hnd. apply NoDup_cons in Hnd as [Hmn Hnd]. apply NoDup_app in Hnd as (Hndk & Hkr & Hndr).
  assert (∀ g par' stop q, (∀ y, y ∈ pre g → y ≠ m) → repr (menus t) par' stop g q → repr (menus t1) par' stop g q) as Hfr.
  { intros g par' stop q Hg. apply repr_frame. intros y Hy. apply L1. set_solver. }
  assert (moved (pre (FCons m k r)) t t1) as M1.
  { split; try done. intros y Hy. apply L1. cbn in Hy. set_solver. }
  unfold menu_at. unfold lk in Hm1. destruct (menus t1 !! m) as [mn|] eqn:Em; [|done]. injection Hm1 as Hnx Hpm Hls.
  cbn [of_option mbind result_bind]. rewrite Hnx.
  assert (repr (menus t1) (Some m) None k l) as Hk1 by (apply Hfr; [set_solver|done]).
  destruct nx as [m2|].
  - assert (flast r ≠ None) as Hlr by (destruct r; [done|]; cbn; by destruct (flast _)).
    destruct (IH r m2 t1) as (t2 & l2 & -> & Hl2 & M2 & R2); [done|by rewrite (sm_len _ _ S1)|apply Hfr; [set_solver|done]|done| |].
    { cbn in Hn. rewrite length_app in Hn. lia. }
    exists t2, l2. cbn [flast]. rewrite Hl2. split; [done|]. split; [done|]. split.
    + eapply moved_trans; [exact M1|]. eapply moved_wider; [|exact M2]. cbn. set_solver.
    + cbn [repr]. split; [done|]. exists (Some m2), l. split; [|split; [|done]].
      * rewrite (mv_lk _ _ _ M2) by set_solver. unfold lk. rewrite Em. cbn. by rewrite Hnx, Hpm, Hls.
      * apply (moved_repr _ _ _ _ _ _ _ M2); [|done]. intros y Hy Hy'. by apply (Hkr y).
  - assert (r = FNil) as -> by (by destruct r; [|destruct Hr as [? _]]). exists t1, m. split; [done|]. split; [done|].
    split; [done|]. cbn [repr]. split; [done|]. exists None, l. split; [|split; done]. unfold lk. rewrite Em. cbn.
    by rewrite Hnx, Hpm, Hls.
Qed.

Lemma flatten_keeps_order t0 parent N : (parent < length (menus t0))%nat → keeps_order t0 (flatten parent) (Some parent) N.
Proof.
  intros Hlt m k r t _ Hok Hpar Hnd Hr. pose proof Hr as (_ & nx & l & Hm & Hk & Hr').
  unfold lk in Hm. destruct (menus t !! m) as [mn|] eqn:Em; [|done]. injection Hm as Hnx Hpm Hl.
  unfold flatten, menu_at. rewrite Em. cbn [of_option mbind result_bind].
  destruct (prompt_of_total m mn t Hok Em) as (o & -> & _). cbn [mbind result_bind]. rewrite Hl.
  assert (∃ t' k' r', Ret t = Ret t' ∧ moved (pre (FCons m k r)) t t' ∧
    repr (menus t') (Some parent) None (FCons m k' r') (Some m) ∧ pre (FCons m k' r') = pre (FCons m k r)) as Hstay.
  { exists t, k, r. split; [done|]. split; [by apply moved_quiet, quiet_refl|done]. }
  destruct l as [first|]; [|done]. case_decide; [|done].
  cbn [pre] in Hnd. apply NoDup_cons in Hnd as [Hmn Hnd]. apply NoDup_app in Hnd as (Hndk & Hkr & Hndr).
  destruct (reparent_ok (length (menus t)) k first (Some m) parent t) as (t1 & lst & -> & Hlast & M1 & R1);
    [done|by rewrite (sm_len _ _ Hpar)|done|done|by eapply repr_size|]. cbn [mbind result_bind]. rewrite Hnx.
  pose proof (flast_in _ _ Hlast) as Hlin.
  pose proof (upd_links t1 lst (set_next nx) (mv_ok _ _ _ M1)) as M2. specialize (M2 ltac:(intros; cbn; by auto)).
  set (t2 := upd_menu lst (set_next nx) t1) in *.
  pose proof (upd_links t2 m (λ n, set_list None (set_next (Some first) n)) (mv_ok _ _ _ M2)) as M3.
  specialize (M3 ltac:(intros; cbn; by auto)). set (t3 := upd_menu m _ t2) in *.
  assert (repr (menus t2) (Some parent) nx k (Some first)) as R2 by (by eapply repr_close).
  assert (lk (menus t2) m = Some (nx, Some parent, Some first)) as Lm.
  { rewrite (mv_lk _ _ _ M2), (mv_lk _ _ _ M1) by set_solver. unfold lk. rewrite Em. cbn. by rewrite Hnx, Hpm, Hl. }
  exists t3, FNil, (fapp k r). split; [done|]. split; [|split].
  - eapply moved_trans; [eapply moved_wider; [|exact M1]; cbn; set_solver|].
    eapply moved_trans; [eapply moved_wider; [|exact M2]; cbn; set_solver|].
    eapply moved_wider; [|exact M3]; cbn; set_solver.
  - cbn [repr]. split; [done|]. exists (Some first), None. split; [|split; [done|]].
    + change (menus t3) with (alter (λ n, set_list None (set_next (Some first) n)) m (menus t2)).
      rewrite lk_alter, decide_True by done. unfold lk in Lm. destruct (menus t2 !! m) as [n2|]; [|done].
      injection Lm as _ Hp _. cbn. by rewrite Hp.
    + apply repr_app. exists nx. split.
      * apply (moved_repr _ _ _ _ _ _ _ M3); [set_solver|done].
      * apply (moved_repr _ _ _ _ _ _ _ M3); [set_solver|]. apply (moved_repr _ _ _ _ _ _ _ M2); [set_solver|].
        apply (moved_repr _ _ _ _ _ _ _ M1); [set_solver|done].
  - cbn [pre]. by rewrite pre_app.
Qed.

(** A quiet step before. *)
Lemma keeps_order_after t0 m k r par t t1 body N :
  quiet t t1 → keeps_order t0 body par N → (length (pre (FCons m k r)) ≤ N)%nat →
  same t0 t → NoDup (pre (FCons m k r)) →
  repr (menus t) par None (FCons m k r) (Some m) →
  ∃ t' k' r', body m t1 = Ret t' ∧ moved (pre (FCons m k r)) t t' ∧
    repr (menus t') par None (FCons m k' r') (Some m) ∧ pre (FCons m k' r') = pre (FCons m k r).
Proof.
  intros Q Hb HN Hpar Hnd Hr. destruct (Hb m k r t1) as (t2 & k' & r' & E & M & R & P); try done.
  - apply (qu_ok _ _ Q).
  - etrans; [exact Hpar|apply (qu_same _ _ Q)].
  - apply (repr_frame (menus t)); [|done]. intros y _. apply (qu_lk _ _ Q).
  - exists t2, k', r'. split; [done|]. split; [|done]. eapply moved_trans; [by apply moved_quiet|done].
Qed.

Lemma finish_child_keeps_order t0 parent sym N :
  (parent < length (menus t0))%nat → (∀ s, sym = Some s → entered s t0) →
  keeps_order t0 (finish_child parent sym) (Some parent) N.
Proof.
  intros Hlt Hen m k r t HN Hok Hpar Hnd Hr. pose proof (repr_in _ _ _ _ _ m Hr ltac:(by left)) as Hm.
  destruct (lookup_lt_is_Some_2 _ _ Hm) as [mn Em]. unfold finish_child, menu_at. rewrite Em. cbn [of_option mbind result_bind].
  assert (∃ t1, match sym, m_sym mn with
      | Some s, Some v => if is_choice s t && negb (sym_is_choice_value (t_st t) v) then add_value s v m t else Ret t
      | _, _ => Ret t end = Ret t1 ∧ quiet t t1) as (t1 & -> & Q).
  { destruct sym as [s|], (m_sym mn) as [v|] eqn:Ev; try by apply returns_ret.
    destruct (is_choice s t) eqn:Hch; [|by apply returns_ret]. destruct (negb _); [|by apply returns_ret].
    eapply add_value_returns; try done. by apply (entered_same t0 t s Hpar), Hen. }
  cbn [mbind result_bind]. eapply keeps_order_after; [exact Q|by apply (flatten_keeps_order t0 parent N)|done..].
Qed.

(** ** Submenus *)

Lemma repr_last ms par q f p l : repr ms par q f p → flast f = Some l → ∃ n, ms !! l = Some n ∧ m_next n = q.
Proof.
  revert p. induction f as [|m k _ r IH]; intros p; cbn [repr flast]; [done|]. intros (_ & nx & ls & Hm & _ & Hr) Hl.
  destruct (flast r) as [l'|] eqn:El; [injection Hl as ->; by eapply IH|]. injection Hl as ->.
  assert (r = FNil) as -> by (destruct r as [|y ? ?]; [done|]; cbn in El; by destruct (flast _)). cbn in Hr. subst nx.
  unfold lk in Hm. destruct (ms !! l) as [n|]; [|done]. injection Hm as Hn _ _. by exists n.
Qed.

Lemma take_items_ok t0 fin N n x s b f p last t par :
  (∀ par, keeps_order t0 fin par N) → wf b → (length (pre f) ≤ N)%nat → (length (pre f) ≤ n)%nat → ok t →
  (x < length (menus t))%nat → same t0 t → NoDup (pre f) →
  repr (menus t) par None f p →
  ∃ t' last' g f' q, take_items fin n x s b p last t = Ret (last', t') ∧ moved (pre f) t t' ∧
    repr (menus t') (Some x) q g p ∧ repr (menus t') par None f' q ∧ pre g ++ pre f' = pre f ∧
    last' = match flast g with Some l => Some l | None => last end.
Proof.
  intros Hfin Hb. revert f p last t. induction n as [|n IH]; intros f p last t HN Hn Hok Hx Hpar Hnd Hr;
    (destruct f as [|m k r]; [cbn in Hr; subst p; exists t, last, FNil, FNil, None; split_and!; try done; by apply moved_quiet, quiet_refl|]).
  { cbn in Hn. lia. }
  assert (p = Some m) as -> by apply Hr. pose proof (repr_in _ _ _ _ _ m Hr ltac:(by left)) as Hm.
  destruct (lookup_lt_is_Some_2 _ _ Hm) as [mn Em]. cbn [take_items]. unfold menu_at. rewrite Em. cbn [of_option mbind result_bind].
  destruct (prompt_of_total m mn t Hok Em) as (o & -> & Ho). cbn [mbind result_bind].
  assert (dep_ok (match o with Some q => mp_visible q | None => m_dep mn end)) as Hd
    by (destruct o; [done|apply (ok_menu _ Hok m mn Em)]).
  destruct (@depends_total (tab_of (t_st t)) s b _ Hb Hd) as [item ->]. cbn [mbind result_bind].
  destruct item.
  2: { exists t, last, FNil, (FCons m k r), (Some m). split; [done|]. split; [by apply moved_quiet, quiet_refl|]. by split_and!. }
  destruct (Hfin par m k r t HN Hok Hpar Hnd Hr) as (t1 & k1 & r1 & -> & M1 & R1 & P1). cbn [mbind result_bind].
  pose proof R1 as (_ & nx & ls & L1 & K1 & R1').
  assert (NoDup (pre (FCons m k1 r1))) as Hnd1 by (by rewrite P1).
  cbn [pre] in Hnd1. apply NoDup_cons in Hnd1 as [Hm1 Hnd1]. apply NoDup_app in Hnd1 as (Hk1 & Hkr & Hr1).
  pose proof (upd_links t1 m (set_parent (Some x)) (mv_ok _ _ _ M1)) as M2.
  specialize (M2 ltac:(intros; cbn; split_and!; try done; right; exists x; by rewrite (sm_len _ _ (mv_same _ _ _ M1)))).
  set (t2 := upd_menu m (set_parent (Some x)) t1) in *.
  assert (lk (menus t2) m = Some (nx, Some x, ls)) as L2 by (cbn; by rewrite lk_parent, decide_True, L1).
  pose proof L2 as L2'. unfold lk in L2. destruct (menus t2 !! m) as [m2|] eqn:Em2; [|done].
  cbn [of_option mbind result_bind]. injection L2 as -> _ _.
  assert (length (pre k1) + length (pre r1) = length (pre k) + length (pre r))%nat as Hlen.
  { pose proof (f_equal length P1) as E. cbn [pre length] in E. rewrite !length_app in E. lia. }
  cbn [pre length] in HN, Hn. rewrite length_app in HN, Hn.
  assert (moved (pre (FCons m k r)) t t2) as M12.
  { eapply moved_trans; [exact M1|]. eapply moved_wider; [|exact M2]. cbn. set_solver. }
  destruct (IH r1 nx (Some m) t2) as (t3 & last' & g & f' & q & -> & M3 & Rg & Rf & Pgf & Hl);
    [lia|lia|apply (mv_ok _ _ _ M2)|by rewrite (sm_len _ _ (mv_same _ _ _ M12))| |done| |].
  { etrans; [exact Hpar|apply (mv_same _ _ _ M12)]. }
  { apply (moved_repr _ _ _ _ _ _ _ M2); [set_solver|done]. }
  exists t3, last', (FCons m k1 g), f', q. split; [done|]. split; [|split; [|split; [done|split]]].
  - eapply moved_trans; [exact M12|]. eapply moved_wider; [|exact M3]. rewrite <- P1. cbn. set_solver.
  - cbn [repr]. split; [done|]. exists nx, ls. split; [|split; [|done]].
    + rewrite (mv_lk _ _ _ M3) by set_solver. done.
    + apply (moved_repr _ _ _ _ _ _ _ M3); [intros y Hy Hy'; by apply (Hkr y)|].
      apply (moved_repr _ _ _ _ _ _ _ M2); [set_solver|done].
  - rewrite <- P1. cbn [pre app]. by rewrite <- app_assoc, Pgf.
  - rewrite Hl. cbn [flast]. by destruct (flast g).
Qed.

Section completion.
Context (fin : nat → tree → result tree) (N : nat) (Hfin : ∀ t0 par, keeps_order t0 fin par N).

Lemma make_submenu_ok t0 s x r t par :
  (length (pre r) ≤ N)%nat → ok t → same t0 t → NoDup (x :: pre r) →
  repr (menus t) par None (FCons x FNil r) (Some x) →
  ∃ t' k' r', make_submenu fin x s t = Ret t' ∧ moved (x :: pre r) t t' ∧
    repr (menus t') par None (FCons x k' r') (Some x) ∧ pre (FCons x k' r') = x :: pre r ∧ (r = FNil → r' = FNil).
Proof.
  intros HN Hok Hpar [Hxr Hnd]%NoDup_cons Hr. pose proof Hr as (_ & nx & l & Lx & Hl & Hr'). cbn in Hl. subst l.
  pose proof (repr_in _ _ _ _ _ x Hr ltac:(by left)) as Hx. destruct (lookup_lt_is_Some_2 _ _ Hx) as [xn Ex].
  unfold make_submenu, menu_at. rewrite Ex. cbn [of_option mbind result_bind].
  assert (m_next xn = nx) as -> by (unfold lk in Lx; rewrite Ex in Lx; by injection Lx).
  destruct (prompt_of_total x xn t Hok Ex) as (o & -> & Ho). cbn [mbind result_bind].
  assert (dep_ok (match o with Some q => mp_visible q | None => NULL end)) as Hd by (destruct o; [done|by right]).
  destruct (@nonzero_total (tab_of (t_st t)) _ Hd) as (b & -> & Hb). cbn [mbind result_bind].
  destruct (take_items_ok t0 fin N (length (menus t)) x s b r nx None t par) as
    (t1 & last & g & f' & q & -> & M1 & Rg & Rf & Pgf & Hlast); try done; [by eapply repr_size|].
  cbn [mbind result_bind].
  assert (lk (menus t1) x = Some (nx, par, None)) as Lx1 by (by rewrite (mv_lk _ _ _ M1)).
  assert (NoDup (pre g) ∧ ∀ y, y ∈ pre g → y ∉ pre f') as [Hndg Hgf].
  { rewrite <- Pgf, NoDup_app in Hnd. by destruct Hnd as (? & ? & _). }
  assert (∃ t2, match last with
      | None => Ret t1
      | Some l =>
          ln ← of_option NullDeref (menus t1 !! l); pm ← of_option NullDeref (menus t1 !! x);
          Ret (upd_menu l (set_next None) (upd_menu x (λ m, set_next (m_next ln) (set_list (m_next pm) m)) t1))
      end = Ret t2 ∧ moved (x :: pre r) t1 t2 ∧ repr (menus t2) par None (FCons x g f') (Some x)) as (t2 & E2 & M2 & R2).
  { destruct (flast g) as [lst|] eqn:El; subst last.
    2: { assert (g = FNil) as -> by (destruct g as [|y ? ?]; [done|]; cbn in El; by destruct (flast _)).
         exists t1. split; [done|]. split; [by apply moved_quiet, quiet_refl, (mv_ok _ _ _ M1)|]. cbn in Rg. subst q.
         split; [done|]. exists nx, None. by split_and!. }
    pose proof (flast_in _ _ El) as Hlin. assert (lst ≠ x) as Hlx by (intros ->; apply Hxr; rewrite <- Pgf; set_solver).
    pose proof (repr_last _ _ _ _ _ _ Rg El) as (ln & Eln & Hln). rewrite Eln. cbn [of_option mbind result_bind].
    pose proof Lx1 as Lx1'. unfold lk in Lx1. destruct (menus t1 !! x) as [xn1|] eqn:Ex1; [|done]. injection Lx1 as Hn1 Hp1 Hl1.
    cbn [of_option mbind result_bind]. rewrite Hln, Hn1.
    pose proof (upd_links t1 x (λ m, set_next q (set_list nx m)) (mv_ok _ _ _ M1) ltac:(intros; cbn; by auto)) as Ma.
    set (ta := upd_menu x _ t1) in *.
    pose proof (upd_links ta lst (set_next None) (mv_ok _ _ _ Ma) ltac:(intros; cbn; by auto)) as Mb.
    set (tb := upd_menu lst _ ta) in *. exists tb. split; [done|]. split.
    { eapply moved_trans; [eapply moved_wider; [|exact Ma]; set_solver|]. eapply moved_wider; [|exact Mb]. rewrite <- Pgf. set_solver. }
    cbn [repr]. split; [done|]. exists q, nx. split; [|split].
    - rewrite (mv_lk _ _ _ Mb) by set_solver. change (menus ta) with (alter (λ m, set_next q (set_list nx m)) x (menus t1)).
      rewrite lk_alter, decide_True, Ex1 by done. cbn. by rewrite Hp1.
    - apply (repr_close (menus ta) (Some x) q None g); [|done|done]. apply (moved_repr _ _ _ _ _ _ _ Ma); [|done].
      intros y Hy. rewrite list_elem_of_singleton. intros ->. apply Hxr. rewrite <- Pgf. set_solver.
    - apply (moved_repr _ _ _ _ _ _ _ Mb); [set_solver|]. apply (moved_repr _ _ _ _ _ _ _ Ma); [|done].
      intros y Hy. rewrite list_elem_of_singleton. intros ->. apply Hxr. rewrite <- Pgf. set_solver. }
  rewrite E2. cbn [mbind result_bind].
  destruct (lookup_lt_is_Some_2 (menus t2) x) as [x2 Ex2]; [by apply (repr_in _ _ _ _ _ x R2); left|].
  rewrite Ex2. cbn [of_option mbind result_bind].
  assert (quiet t2 (upd_sym s (or_dir (m_dep x2)) t2)) as Q3 by (apply quiet_sym; [apply (mv_ok _ _ _ M2)|done]).
  eexists _, g, f'. split; [done|]. split; [|split; [|split]].
  - eapply moved_trans; [eapply moved_wider; [|exact M1]; set_solver|]. eapply moved_trans; [exact M2|by apply moved_quiet].
  - apply (repr_frame (menus t2)); [|done]. intros y _. apply (qu_lk _ _ Q3).
  - cbn [pre]. by rewrite Pgf.
  - intros ->. apply app_eq_nil in Pgf as [_ Pgf]. by destruct f'.
Qed.

(** The entries below [x]; the links of [x] stay. *)
Lemma below_keeps_order body x k r t par xn :
  keeps_order t body (Some x) N → (length (pre k) ≤ N)%nat → ok t → NoDup (pre (FCons x k r)) →
  repr (menus t) par None (FCons x k r) (Some x) → menus t !! x = Some xn →
  ∃ t' k', each_entry body (m_list xn) t = Ret t' ∧ moved (pre k) t t' ∧
    repr (menus t') par None (FCons x k' r) (Some x) ∧ pre k' = pre k ∧
    ∃ xn', menus t' !! x = Some xn' ∧ m_list xn' = m_list xn ∧ m_sym xn' = m_sym xn.
Proof.
  intros Hb HN Hok Hnd Hr Ex. pose proof Hr as (_ & nx & l & Lx & Hk & Hr'). cbn [pre] in Hnd.
  apply NoDup_cons in Hnd as [Hxn Hnd]. apply NoDup_app in Hnd as (Hndk & Hkr & Hndr).
  assert (m_list xn = l) as -> by (unfold lk in Lx; rewrite Ex in Lx; by injection Lx).
  destruct (each_keeps_order t body (Some x) N (length (menus t)) k l t) as (t1 & k1 & E & M & R & P); try done.
  { by eapply repr_size. }
  assert (lk (menus t1) x = Some (nx, par, l)) as Lx1 by (rewrite (mv_lk _ _ _ M); [done|set_solver]).
  exists t1, k1. split; [done|]. split; [done|]. split; [|split; [done|]].
  - cbn [repr]. split; [done|]. exists nx, l. split; [done|]. split; [done|].
    apply (moved_repr _ _ _ _ _ _ _ M); [|done]. intros y Hy Hy'. by apply (Hkr y).
  - pose proof (sm_menu _ _ (mv_same _ _ _ M) x) as Es. rewrite Ex in Es. unfold lk in Lx1.
    destruct (menus t1 !! x) as [x1|]; [|done]. injection Es as Es _. injection Lx1 as _ _ El. by exists x1.
Qed.

Lemma choice_types_ok s x k r t par xn :
  (length (pre k) ≤ N)%nat → ok t → NoDup (pre (FCons x k r)) → repr (menus t) par None (FCons x k r) (Some x) →
  menus t !! x = Some xn → m_sym xn = Some s →
  ∃ t' k', choice_types x s (m_list xn) t = Ret t' ∧ moved (pre (FCons x k r)) t t' ∧
    repr (menus t') par None (FCons x k' r) (Some x) ∧ pre k' = pre k ∧
    ∃ xn', menus t' !! x = Some xn' ∧ m_list xn' = m_list xn ∧ m_sym xn' = m_sym xn.
Proof.
  intros HN Hok Hnd Hr Ex Hs. unfold choice_types.
  assert (∃ t1, (if decide (k_type (sym_ s t) = S_UNKNOWN) then
      ty ← first_type (length (menus (set_entry x t))) (m_list xn) (set_entry x t);
      match ty with Some ty => menu_set_type ty (set_entry x t) | None => Ret (set_entry x t) end
    else Ret t) = Ret t1 ∧ quiet t t1) as (t1 & -> & Q).
  { case_decide; [|by apply returns_ret]. assert (quiet t (set_entry x t)) as Q0 by by apply quiet_eq.
    pose proof Hr as (_ & nx & l & Lx & Hk & _). unfold lk in Lx. rewrite Ex in Lx. injection Lx as _ _ ->.
    destruct (first_type_total (length (menus (set_entry x t))) (Some x) k l (set_entry x t)) as [ty ->]; [done| |].
    { cbn. eapply repr_size; [exact Hk|]. cbn in Hnd. by apply NoDup_cons in Hnd as [_ (? & _)%NoDup_app]. }
    cbn [mbind result_bind]. destruct ty as [ty|]; [|by exists (set_entry x t)].
    eapply returns_then; [exact Q0|]. eapply (set_type_returns _ x xn); [apply (qu_ok _ _ Q0)|done|done|by rewrite Hs]. }
  cbn [mbind result_bind]. destruct (quiet_menu _ _ _ _ Q Ex) as (x1 & Ex1 & Es1 & _ & _ & _ & <-).
  destruct (below_keeps_order (value_type s) x k r t1 par x1)
    as (t2 & k2 & E2 & M2 & R2 & P2 & x2 & Ex2 & El2 & Es2); try done.
  { apply quiet_keeps_order. intros m t' Hok' Hm. by apply value_type_returns. }
  { apply (qu_ok _ _ Q). }
  { apply (repr_frame (menus t)); [|done]. intros y _. apply (qu_lk _ _ Q). }
  exists t2, k2. split; [done|]. split; [|split; [done|split; [done|]]].
  - eapply moved_trans; [by apply moved_quiet|]. eapply moved_wider; [|exact M2]. cbn. set_solver.
  - exists x2. by rewrite Es2.
Qed.

(** The first half: the entries below [x] are completed, or found. *)
Lemma complete_below t0 x k r t par xn :
  (length (pre (FCons x k r)) ≤ S N)%nat → ok t → same t0 t →
  NoDup (pre (FCons x k r)) → repr (menus t) par None (FCons x k r) (Some x) → menus t !! x = Some xn →
  ∃ t' k' r',
    match m_list xn with
    | Some first =>
        '(parentdep, t) ← match m_sym xn with
                          | Some s =>
                              if is_choice s t then
                                t ← choice_types x s (Some first) t; Ret (expr_alloc_symbol s, t)
                              else Ret (m_dep xn, t)
                          | None => Ret (m_dep xn, t)
                          end;
        t ← each_entry (pass_down parentdep) (Some first) t;
        each_entry fin (Some first) t
    | None => match m_sym xn with Some s => make_submenu fin x s t | None => Ret t end
    end = Ret t' ∧ moved (pre (FCons x k r)) t t' ∧
    repr (menus t') par None (FCons x k' r') (Some x) ∧ pre (FCons x k' r') = pre (FCons x k r) ∧ (r = FNil → r' = FNil).
Proof.
  intros HN Hok Hpar Hnd Hr Ex. cbn [pre length] in HN. rewrite length_app in HN.
  pose proof Hr as (_ & nx & l & Lx & Hk & Hr'). unfold lk in Lx. rewrite Ex in Lx. injection Lx as _ _ <-.
  destruct (m_list xn) as [first|] eqn:El.
  - assert (∃ parentdep t1 k1 x1, match m_sym xn with
        | Some s => if is_choice s t then t ← choice_types x s (Some first) t; Ret (expr_alloc_symbol s, t)
                    else Ret (m_dep xn, t)
        | None => Ret (m_dep xn, t) end = Ret (parentdep, t1) ∧ dep_ok parentdep ∧ moved (pre (FCons x k r)) t t1 ∧
        repr (menus t1) par None (FCons x k1 r) (Some x) ∧ pre k1 = pre k ∧ menus t1 !! x = Some x1 ∧ m_list x1 = Some first)
      as (pd & t1 & k1 & x1 & -> & Hpd & M1 & R1 & P1 & Ex1 & El1).
    { assert (∃ t1 k1 x1, Ret (m_dep xn, t) = Ret (m_dep xn, t1) ∧ dep_ok (m_dep xn) ∧ moved (pre (FCons x k r)) t t1 ∧
        repr (menus t1) par None (FCons x k1 r) (Some x) ∧ pre k1 = pre k ∧ menus t1 !! x = Some x1 ∧ m_list x1 = Some first) as Hst.
      { exists t, k, xn. split; [done|]. split; [apply (ok_menu _ Hok x xn Ex)|]. split; [by apply moved_quiet, quiet_refl|done]. }
      destruct (m_sym xn) as [s|] eqn:Es; [|by exists (m_dep xn)]. destruct (is_choice s t) eqn:Ech; [|by exists (m_dep xn)].
      destruct (choice_types_ok s x k r t par xn) as (t1 & k1 & E1 & M1 & R1 & P1 & x1 & Ex1 & El1 & _); try done; [lia|].
      rewrite El in E1, El1. rewrite E1. cbn [mbind result_bind]. exists (SYMBOL s), t1, k1, x1.
      split; [done|]. split; [by left|]. done. }
    cbn [mbind result_bind]. rewrite <- El1.
    assert (NoDup (pre (FCons x k1 r))) as Hnd1 by (cbn [pre] in *; by rewrite P1).
    destruct (below_keeps_order (pass_down pd) x k1 r t1 par x1)
      as (t2 & k2 & -> & M2 & R2 & P2 & x2 & Ex2 & El2 & _); try done.
    { apply quiet_keeps_order. intros m t' Hok' Hm. by apply pass_down_returns. }
    { rewrite P1. lia. } { apply (mv_ok _ _ _ M1). }
    cbn [mbind result_bind]. rewrite <- El2.
    assert (NoDup (pre (FCons x k2 r))) as Hnd2 by (cbn [pre] in *; by rewrite P2).
    destruct (below_keeps_order fin x k2 r t2 par x2)
      as (t3 & k3 & -> & M3 & R3 & P3 & _); try done.
    { rewrite P2, P1. lia. } { apply (mv_ok _ _ _ M2). }
    exists t3, k3, r. split; [done|]. split; [|split; [done|split; [|done]]].
    + eapply moved_trans; [exact M1|]. eapply moved_trans; [eapply moved_wider; [|exact M2]; rewrite P1; cbn; set_solver|].
      eapply moved_wider; [|exact M3]. rewrite P2, P1. cbn. set_solver.
    + cbn [pre]. by rewrite P3, P2, P1.
  - assert (k = FNil) as -> by (destruct k as [|y ? ?]; [done|by destruct Hk as [? _]]).
    destruct (m_sym xn) as [s|].
    + apply (make_submenu_ok t0); try done. cbn in HN. lia.
    + exists t, FNil, r. split; [done|]. split; [by apply moved_quiet, quiet_refl|done].
Qed.

Lemma finalize_body_order t0 par x k r t : (length (pre (FCons x k r)) ≤ S N)%nat → ok t → same t0 t →
  NoDup (pre (FCons x k r)) → repr (menus t) par None (FCons x k r) (Some x) →
  ∃ t' k' r', finalize_body fin x t = Ret t' ∧ moved (pre (FCons x k r)) t t' ∧
    repr (menus t') par None (FCons x k' r') (Some x) ∧ pre (FCons x k' r') = pre (FCons x k r) ∧ (r = FNil → r' = FNil).
Proof.
  intros HN Hok Hpar Hnd Hr. pose proof (repr_in _ _ _ _ _ x Hr ltac:(by left)) as Hx.
  destruct (lookup_lt_is_Some_2 _ _ Hx) as [xn Ex]. unfold finalize_body, menu_at. rewrite Ex. cbn [of_option mbind result_bind].
  destruct (complete_below t0 x k r t par xn) as (t1 & k1 & r1 & -> & M1 & R1 & P1 & Pr); try done. cbn [mbind result_bind].
  pose proof (repr_in _ _ _ _ _ x R1 ltac:(by left)) as Hx1. destruct (lookup_lt_is_Some_2 _ _ Hx1) as [x1 Ex1].
  rewrite Ex1. cbn [of_option mbind result_bind].
  destruct (below_keeps_order (finish_child x (m_sym xn)) x k1 r1 t1 par x1)
    as (t2 & k2 & -> & M2 & R2 & P2 & _); try done.
  { apply finish_child_keeps_order; [done|]. intros s Es. apply (entered_same t t1 s (mv_same _ _ _ M1)). by exists x, xn. }
  { pose proof (f_equal length P1) as E. cbn [pre length] in E, HN. rewrite length_app in HN. rewrite !length_app in E. lia. }
  { apply (mv_ok _ _ _ M1). } { by rewrite P1. }
  cbn [mbind result_bind].
  assert (moved (pre (FCons x k r)) t t2) as M12.
  { eapply moved_trans; [exact M1|]. eapply moved_wider; [|exact M2]. rewrite <- P1. cbn. set_solver. }
  assert (pre (FCons x k2 r1) = pre (FCons x k r)) as P12 by (rewrite <- P1; cbn [pre]; by rewrite P2).
  pose proof (repr_in _ _ _ _ _ x R2 ltac:(by left)) as Hx2.
  destruct (m_sym xn) as [s|]; [|by exists t2, k2, r1].
  destruct (check_symbol_returns x s t2 (mv_ok _ _ _ M12) Hx2) as (t3 & -> & Q3). cbn [mbind result_bind].
  destruct (force_choice_returns x s t3 (qu_ok _ _ Q3)) as (t4 & -> & Q4).
  { by rewrite (sm_len _ _ (qu_same _ _ Q3)). }
  pose proof (quiet_trans _ _ _ Q3 Q4) as Q. exists t4, k2, r1. split; [done|]. split; [|split; [|by split]].
  - eapply moved_trans; [exact M12|by apply moved_quiet].
  - apply (repr_frame (menus t2)); [|done]. intros y _. apply (qu_lk _ _ Q).
Qed.

Lemma finalize_body_keeps_order t0 par : keeps_order t0 (finalize_body fin) par (S N).
Proof.
  intros x k r t HN Hok Hpar Hnd Hr.
  destruct (finalize_body_order t0 par x k r t) as (t' & k' & r' & ? & ? & ? & ? & _); try done. by exists t', k', r'.
Qed.

End completion.

Lemma finalize_keeps_order n t0 par : keeps_order t0 (finalize_fuel (S n)) par (S n).
Proof.
  revert t0 par. induction n as [|n IH]; intros t0 par.
  - apply (finalize_body_keeps_order (finalize_fuel 0) 0). intros t0' par' m k r t Hl. cbn in Hl. lia.
  - apply (finalize_body_keeps_order (finalize_fuel (S n)) (S n)). exact IH.
Qed.
(** The root has nothing beside it. *)
Lemma menu_finalize_order t par x k : ok t → NoDup (pre (FCons x k FNil)) →
  repr (menus t) par None (FCons x k FNil) (Some x) →
  ∃ t' k', menu_finalize x t = Ret t' ∧ same t t' ∧ repr (menus t') par None (FCons x k' FNil) (Some x) ∧ pre k' = pre k.
Proof.
  intros Hok Hnd Hr. pose proof (repr_size _ _ _ _ _ Hr Hnd) as Hl.
  destruct (length (menus t)) as [|n] eqn:En; [cbn in Hl; lia|].
  destruct (finalize_body_order (finalize_fuel (S n)) (S n) (finalize_keeps_order n) t par x k FNil t)
    as (t' & k' & r' & E & M & R & P & Pr); [lia|done|done|done|done|]. specialize (Pr eq_refl). subst r'.
  exists t', k'. unfold menu_finalize. rewrite En. split; [done|]. split; [apply (mv_same _ _ _ M)|]. split; [done|].
  cbn [pre] in P. rewrite !app_nil_r in P. by injection P.
Qed.

End KconfigTreeProps.
