(* ===== verification/KconfigParse.v ===== *)
(** * What the parser does to the menu tree (scripts/config/parser.y)

    The actions of the grammar, over the statements that it recognises: the
    entries of a Kconfig file with their options, and what [conf_parse] does
    when all files have been read.  Symbols have been looked up; which symbol
    has the option "modules" is part of the state.  Help texts, "source" and
    syntax errors are left out. *)

From S2P Require Import Prelude CLib KconfigExpr KconfigSym KconfigTree.
Open Scope Z_scope.

Module KconfigParse.
Import KconfigExpr KconfigSym KconfigTree.

(** The options of an entry; an optional condition is NULL when it is not
    there. *)
Inductive opt :=
  | O_type (ty : symbol_type)
  | O_prompt (text : list Z) (cond : expr)
  | O_default (ty : symbol_type) (e cond : expr)     (** [ty] of def_bool, def_tristate *)
  | O_select (s : symbol) (cond : expr)
  | O_imply (s : symbol) (cond : expr)
  | O_range (a b : symbol) (cond : expr)
  | O_optional
  | O_reset (cond : expr)
  | O_depends (e : expr)
  | O_visible (e : expr).

(** Statements, in the order of the files. *)
Inductive stmts :=
  | S_nil
  | S_config (menuconfig : bool) (s : symbol) (opts : list opt) (rest : stmts)
  | S_comment (text : list Z) (opts : list opt) (rest : stmts)
  | S_choice (s : symbol) (opts : list opt) (body rest : stmts)
  | S_if (e : expr) (body rest : stmts)
  | S_menu (text : list Z) (opts : list opt) (body rest : stmts).

Definition parse_option (o : opt) (t : tree) : result tree :=
  match o with
  | O_type ty => menu_set_type ty t
  | O_prompt text cond => menu_add_prompt P_PROMPT text cond t
  | O_default ty e cond =>
      t ← menu_add_expr P_DEFAULT e cond t;
      if decide (ty = S_UNKNOWN) then Ret t else menu_set_type ty t
  | O_select s cond => menu_add_symbol P_SELECT s cond t
  | O_imply s cond => menu_add_symbol P_IMPLY s cond t
  | O_range a b cond => menu_add_expr P_RANGE (RANGE a b) cond t
  | O_optional =>
      m ← menu_at (current_entry t) t;
      s ← of_option NullDeref (m_sym m);
      Ret (upd_sym s (raise SYMBOL_OPTIONAL) t)
  | O_reset cond => menu_add_expr P_RESET NULL cond t
  | O_depends e => Ret (menu_add_dep e t)
  | O_visible e => Ret (menu_add_visibility e t)
  end.
Fixpoint parse_options (l : list opt) (t : tree) : result tree :=
  match l with
  | [] => Ret t
  | o :: l => t ← parse_option o t; parse_options l t
  end.

(** The prompt of a "menuconfig" entry counts as one of a menu. *)
Definition menuconfig_prompt (t : tree) : result tree :=
  m ← menu_at (current_entry t) t;
  Ret match m_prompt m with
      | Some p => upd_prop p (set_mp_type P_MENU) t
      | None => warn (W_menuconfig_without_prompt (current_entry t)) t
      end.

Fixpoint parse_stmts (l : stmts) (t : tree) : result tree :=
  match l with
  | S_nil => Ret t
  | S_config menuconfig s opts rest =>
      t ← menu_add_entry (Some s) (upd_sym s (raise SYMBOL_OPTIONAL) t);
      t ← parse_options opts t;
      t ← (if menuconfig then menuconfig_prompt t else Ret t);
      parse_stmts rest t
  | S_comment text opts rest =>
      t ← menu_add_entry None t;
      t ← menu_add_prompt P_COMMENT text NULL t;
      t ← parse_options opts t;
      parse_stmts rest t
  | S_choice s opts body rest =>
      t ← menu_add_entry (Some s) (upd_sym s (raise SYMBOL_NO_WRITE) t);
      t ← menu_add_expr P_CHOICE NULL NULL t;
      t ← parse_options opts t;
      t ← parse_stmts body (menu_add_menu t);
      t ← menu_end_menu t;
      parse_stmts rest t
  | S_if e body rest =>
      t ← menu_add_entry None t;
      t ← parse_stmts body (menu_add_menu (menu_add_dep e t));
      t ← menu_end_menu t;
      parse_stmts rest t
  | S_menu text opts body rest =>
      t ← menu_add_entry None t;
      t ← menu_add_prompt P_MENU text NULL t;
      t ← parse_options opts t;
      t ← parse_stmts body (menu_add_menu t);
      t ← menu_end_menu t;
      parse_stmts rest t
  end.

(** [mainmenu_stmt], and [conf_parse] up to the completion of the tree. *)
Definition menu_has_prompt (m : nat) (t : tree) : result bool :=
  mn ← menu_at m t; Ret (bool_decide (is_Some (m_prompt mn))).
Definition parse_file (mainmenu : option (list Z)) (l : stmts) (st : state) : result tree :=
  t ← match mainmenu with
      | Some text => menu_add_prompt P_MENU text NULL (_menu_init st)
      | None => Ret (_menu_init st)
      end;
  t ← parse_stmts l t;
  b ← menu_has_prompt rootmenu t;
  if b : bool then Ret t
  else menu_add_prompt P_MENU (cs "Main menu") NULL (set_entry rootmenu t).
Definition conf_parse (mainmenu : option (list Z)) (l : stmts) (st : state) : result tree :=
  t ← parse_file mainmenu l st;
  menu_finalize rootmenu t.

End KconfigParse.
