(* ===== verification/KconfigParseProps.v ===== *)
(** * The order of menu entries

    The parser links the entries of the files in the order in which they are
    written, and the completion of the tree keeps this order. *)

From S2P Require Import Prelude CLib KconfigExpr KconfigMenu KconfigSimp KconfigProps.
From S2P Require Import KconfigSym KconfigSymProps KconfigSet KconfigTree KconfigTreeLemmas KconfigTreeSteps.
From S2P Require Import KconfigTreeProps KconfigParse.
Open Scope Z_scope.

Module KconfigParseProps.
Import KconfigExpr KconfigMenu KconfigSimp KconfigProps KconfigSym KconfigSymProps KconfigSet.
Import KconfigTree KconfigTreeLemmas KconfigTreeSteps KconfigTreeProps KconfigParse.

(** ** Statements the parser accepts

    Conditions are expressions or missing; types and options of symbols occur
    in entries that have one; what a default or a range names has a name. *)
Definition known_name (st : state) (s : symbol) : Prop := is_Some (k_name (ks st s)).
Definition opt_ok (st : state) (has_sym : bool) (o : opt) : Prop :=
  match o with
  | O_type _ | O_optional => has_sym = true
  | O_prompt _ c | O_reset c => dep_ok c
  | O_select _ c | O_imply _ c => has_sym = true ∧ dep_ok c
  | O_default _ e c => has_sym = true ∧ e ≠ NULL ∧ (∀ s, e = SYMBOL s → known_name st s) ∧ dep_ok c
  | O_range a b c => known_name st a ∧ known_name st b ∧ dep_ok c
  | O_depends e | O_visible e => dep_ok e
  end.
Fixpoint stmts_ok (st : state) (l : stmts) : Prop :=
  match l with
  | S_nil => True
  | S_config _ s opts rest => sym_is_choice st s = false ∧ Forall (opt_ok st true) opts ∧ stmts_ok st rest
  | S_comment _ opts rest => Forall (opt_ok st false) opts ∧ stmts_ok st rest
  | S_choice s opts body rest => Forall (opt_ok st true) opts ∧ stmts_ok st body ∧ stmts_ok st rest
  | S_if e body rest => dep_ok e ∧ stmts_ok st body ∧ stmts_ok st rest
  | S_menu _ opts body rest => Forall (opt_ok st false) opts ∧ stmts_ok st body ∧ stmts_ok st rest
  end.

(** The forest of the statements, whose entries are numbered from [n] on. *)
Fixpoint entries (l : stmts) : nat :=
  match l with
  | S_nil => 0
  | S_config _ _ _ rest | S_comment _ _ rest => S (entries rest)
  | S_choice _ _ body rest | S_if _ body rest | S_menu _ _ body rest => S (entries body + entries rest)
  end.
Fixpoint forest_of (n : nat) (l : stmts) : forest :=
  match l with
  | S_nil => FNil
  | S_config _ _ _ rest | S_comment _ _ rest => FCons n FNil (forest_of (S n) rest)
  | S_choice _ _ body rest | S_if _ body rest | S_menu _ _ body rest =>
      FCons n (forest_of (S n) body) (forest_of (S n + entries body) rest)
  end.
Lemma pre_forest l n : pre (forest_of n l) = seq n (entries l).
Proof.
  revert n. induction l; intros n; cbn; rewrite ?IHl, ?IHl1, ?IHl2; try done; by rewrite seq_app.
Qed.

(** ** The tree while it is built *)

(** [x]: a choice whose list of values is still to come. *)
Record building (x : option symbol) (t : tree) : Prop := {
  bu_menu m n : menus t !! m = Some n → dep_ok (m_dep n) ∧ dep_ok (m_visibility n) ∧
    (if decide (m = 0%nat) then m_parent n = None else ∃ u, m_parent n = Some u ∧ (u < m)%nat) ∧
    ∀ p, m_prompt n = Some p → ∃ q, props t !! p = Some q ∧ mp_type q ≠ P_SELECT ∧ mp_type q ≠ P_IMPLY ∧ mp_type q ≠ P_CHOICE;
  bu_prop p q : props t !! p = Some q → prop_ok t q ∧ (mp_type q = P_CHOICE → is_list (mp_expr q) = true);
  bu_choice s : entered s t → is_choice s t = true → x ≠ Some s →
    ∃ p q, props t !! p = Some q ∧ mp_type q = P_CHOICE ∧ mp_owner q = Some s;
  bu_entry : (current_entry t < length (menus t))%nat
}.
(** What an option leaves as it is. *)
Record steady (t t' : tree) : Prop := {
  st_lk m : lk (menus t') m = lk (menus t) m;
  st_sym m : m_sym <$> menus t' !! m = m_sym <$> menus t !! m;
  st_place : current_entry t' = current_entry t ∧ current_menu t' = current_menu t ∧ last_entry t' = last_entry t;
  st_name s : k_name (sym_ s t') = k_name (sym_ s t);
  st_choice s : is_choice s t' = is_choice s t
}.
Lemma steady_refl t : steady t t.
Proof. by split. Qed.
Lemma steady_trans t1 t2 t3 : steady t1 t2 → steady t2 t3 → steady t1 t3.
Proof.
  intros [a1 b1 (c1 & d1 & e1) f1 g1] [a2 b2 (c2 & d2 & e2) f2 g2].
  split; [intros m; by rewrite a2|intros m; by rewrite b2|split_and!; congruence|intros s; by rewrite f2|intros s; by rewrite g2].
Qed.
Lemma steady_len t t' : steady t t' → length (menus t') = length (menus t).
Proof.
  intros Hs. assert (∀ m, (m < length (menus t'))%nat ↔ (m < length (menus t))%nat) as H.
  { intros m. by rewrite <- !lk_some, (st_lk _ _ Hs). }
  destruct (Nat.lt_trichotomy (length (menus t')) (length (menus t))) as [L|[L|L]]; [|done|].
  - apply H in L. lia.
  - apply H in L. lia.
Qed.

(** [f] returns and keeps the rules. *)
Definition builds (x : option symbol) (f : tree → result tree) (t : tree) : Prop :=
  ∃ t', f t = Ret t' ∧ building x t' ∧ steady t t'.

Lemma prop_ok_steady t t' q : steady t t' → prop_ok t q → prop_ok t' q.
Proof.
  intros Hs [Hv Hk]. split; [done|]. unfold named in *. destruct (mp_type q); try done.
  - destruct Hk as (n & up & Hn & Hup & Hlt). pose proof (st_lk _ _ Hs (mp_menu q)) as L. unfold lk in L. rewrite Hn in L.
    destruct (menus t' !! mp_menu q) as [n'|]; [|done]. injection L as _ L _. exists n', up.
    rewrite (steady_len _ _ Hs). split_and!; congruence || done.
  - destruct Hk as [H1 H2]. split; [done|]. intros s E. rewrite (st_name _ _ Hs). by apply H2.
  - destruct Hk as (a & b & -> & Ha & Hb). exists a, b. by rewrite !(st_name _ _ Hs).
Qed.
Definition prompt_type (q : mprop) : Prop := mp_type q ≠ P_SELECT ∧ mp_type q ≠ P_IMPLY ∧ mp_type q ≠ P_CHOICE.
Lemma building_gen x t t' : building x t → steady t t' →
  (∀ m n n', menus t !! m = Some n → menus t' !! m = Some n' → dep_ok (m_dep n') ∧ dep_ok (m_visibility n') ∧
     (m_prompt n' = m_prompt n ∨ ∃ p q, m_prompt n' = Some p ∧ props t' !! p = Some q ∧ prompt_type q)) →
  (∀ p q, props t !! p = Some q → ∃ q', props t' !! p = Some q' ∧ mp_owner q' = mp_owner q ∧
     (mp_type q' = mp_type q ∨ (mp_type q ≠ P_CHOICE ∧ mp_type q' = P_MENU))) →
  (∀ p q', props t' !! p = Some q' → prop_ok t q' ∧ (mp_type q' = P_CHOICE → is_list (mp_expr q') = true)) →
  building x t'.
Proof.
  intros Hb Hs Hm Hp Hq. split.
  - intros m n' Hn'. assert (is_Some (menus t !! m)) as [n Hn].
    { apply lookup_lt_is_Some. rewrite <- (steady_len _ _ Hs). by eapply lookup_lt_Some. }
    destruct (Hm m n n' Hn Hn') as (H1 & H2 & H3). destruct (bu_menu _ _ Hb m n Hn) as (_ & _ & Hpar & Hpr).
    split; [done|]. split; [done|]. split.
    + pose proof (st_lk _ _ Hs m) as L. unfold lk in L. rewrite Hn, Hn' in L. injection L as _ -> _. done.
    + intros p Ep. destruct H3 as [E|(p' & q & E & Hq' & Ht)]; [|assert (p' = p) as -> by congruence; by exists q].
      destruct (Hpr p) as (q & Hq0 & T1 & T2 & T3); [congruence|]. destruct (Hp p q Hq0) as (q' & Hq' & _ & Ht).
      exists q'. split; [done|]. destruct Ht as [-> |[_ ->]]; done.
  - intros p q' Hq'. destruct (Hq p q' Hq') as [H1 H2]. split; [by eapply prop_ok_steady|done].
  - intros s (m & n' & Hn' & Es) Hch Hx. rewrite (st_choice _ _ Hs) in Hch. destruct (bu_choice _ _ Hb s) as (p & q & Hq0 & Ht & Ho).
    + pose proof (st_sym _ _ Hs m) as E. rewrite Hn' in E. destruct (menus t !! m) as [n|] eqn:Hn; [|done]. injection E as E.
      exists m, n. by rewrite <- E.
    + done.
    + done.
    + destruct (Hp p q Hq0) as (q' & Hq' & Ho' & Ht'). exists p, q'. split; [done|]. rewrite Ho', Ho.
      destruct Ht' as [-> |[? _]]; done.
  - destruct (st_place _ _ Hs) as (-> & _). rewrite (steady_len _ _ Hs). apply (bu_entry _ _ Hb).
Qed.

(** A step that leaves entries and properties alone. *)
Lemma building_same x t t' : building x t → menus t' = menus t → props t' = props t →
  (current_entry t' = current_entry t ∧ current_menu t' = current_menu t ∧ last_entry t' = last_entry t) →
  (∀ s, k_name (sym_ s t') = k_name (sym_ s t) ∧ is_choice s t' = is_choice s t) → building x t' ∧ steady t t'.
Proof.
  intros Hb Em Ep Hpl Hk. assert (steady t t') as Hs.
  { split; rewrite ?Em; try done; intros s; apply Hk. }
  split; [|done]. apply (building_gen x t); try done; rewrite ?Em, ?Ep.
  - intros m n n' Hn Hn'. assert (n' = n) as -> by congruence. destruct (bu_menu _ _ Hb m n Hn) as (? & ? & _). auto.
  - intros p q Hq. exists q. auto.
  - apply (bu_prop _ _ Hb).
Qed.
Lemma building_sym x s f t : building x t →
  (∀ k, k_name (f k) = k_name k ∧ has SYMBOL_CHOICE (f k) = has SYMBOL_CHOICE k) →
  building x (upd_sym s f t) ∧ steady t (upd_sym s f t).
Proof.
  intros Hb Hf. apply building_same; try done. intros s'. unfold sym_, is_choice, sym_is_choice. cbn. rewrite ks_upd.
  case_decide; [apply Hf|done].
Qed.
Lemma building_warn x b w t : building x t → building x (warn_if b w t) ∧ steady t (warn_if b w t).
Proof. intros Hb. destruct b; by apply building_same. Qed.

(** The dependency, visibility or prompt of an entry. *)
Lemma building_menu x m f t : building x t →
  (∀ n, menus t !! m = Some n → m_next (f n) = m_next n ∧ m_parent (f n) = m_parent n ∧ m_list (f n) = m_list n ∧
     m_sym (f n) = m_sym n ∧ dep_ok (m_dep (f n)) ∧ dep_ok (m_visibility (f n)) ∧
     (m_prompt (f n) = m_prompt n ∨ ∃ p q, m_prompt (f n) = Some p ∧ props t !! p = Some q ∧ prompt_type q)) →
  building x (upd_menu m f t) ∧ steady t (upd_menu m f t).
Proof.
  intros Hb Hf. assert (steady t (upd_menu m f t)) as Hs.
  { split; cbn; try done.
    - intros y. rewrite lk_alter. case_decide; [|done]. subst y. unfold lk. destruct (menus t !! m) as [n|] eqn:Hn; [|done].
      cbn. by destruct (Hf n eq_refl) as (-> & -> & -> & _).
    - intros y. rewrite list_lookup_alter. case_decide; [|done]. subst y. destruct (menus t !! m) as [n|] eqn:Hn; [|done].
      cbn. by destruct (Hf n eq_refl) as (_ & _ & _ & -> & _). }
  split; [|done]. apply (building_gen x t); try done; cbn.
  - intros m' n n' Hn. rewrite list_lookup_alter. case_decide.
    + subst m'. rewrite Hn. intros [= <-]. by destruct (Hf n Hn) as (_ & _ & _ & _ & ? & ? & ?).
    + intros Hn'. assert (n' = n) as -> by congruence. destruct (bu_menu _ _ Hb m' n Hn) as (? & ? & _). auto.
  - intros p q Hq. exists q. auto.
  - apply (bu_prop _ _ Hb).
Qed.

(** A new property. *)
Lemma building_append x ty e dep t : building x t →
  prop_ok t (MProp ty None dep e (current_entry t) None) → (ty = P_CHOICE → is_list e = true) →
  ∃ t' p, menu_add_prop ty e dep t = Ret (p, t') ∧ building x t' ∧ steady t t' ∧
    ∃ n, menus t !! current_entry t = Some n ∧ props t' !! p = Some (MProp ty None dep e (current_entry t) (m_sym n)) ∧
      menus t' = menus t.
Proof.
  intros Hb Hok Hl. destruct (lookup_lt_is_Some_2 _ _ (bu_entry _ _ Hb)) as [n Hn].
  unfold menu_add_prop, menu_at. rewrite Hn. cbn [of_option mbind result_bind]. eexists _, _. split; [done|].
  set (q := MProp ty None dep e (current_entry t) (m_sym n)). set (t' := set_props _ t).
  assert (steady t t') as Hs by by split.
  assert (props t' !! length (props t) = Some q) as Hq by (cbn; by apply list_lookup_middle).
  split; [|split; [done|by exists n]]. apply (building_gen x t); try done; cbn.
  - intros m' n1 n' Hn1 Hn'. assert (n' = n1) as -> by congruence. destruct (bu_menu _ _ Hb m' n1 Hn1) as (? & ? & _). auto.
  - intros p q0 Hq0. exists q0. rewrite lookup_app_l by (by eapply lookup_lt_Some). auto.
  - intros p q' [Hq'|[_ Hq']]%lookup_app_Some; [by apply (bu_prop _ _ Hb p)|].
    apply list_lookup_singleton_Some in Hq' as [_ <-]. split; [exact Hok|exact Hl].
Qed.

(** A property keeps its owner; a prompt may become that of a menu. *)
Lemma building_prop x p f t : building x t →
  (∀ q, props t !! p = Some q → mp_owner (f q) = mp_owner q ∧
     (mp_type (f q) = mp_type q ∨ (mp_type q ≠ P_CHOICE ∧ mp_type (f q) = P_MENU)) ∧
     prop_ok t (f q) ∧ mp_expr (f q) = mp_expr q) →
  building x (upd_prop p f t) ∧ steady t (upd_prop p f t).
Proof.
  intros Hb Hf. assert (steady t (upd_prop p f t)) as Hs by by split.
  split; [|done]. apply (building_gen x t); try done; cbn.
  - intros m n n' Hn Hn'. assert (n' = n) as -> by congruence. destruct (bu_menu _ _ Hb m n Hn) as (? & ? & _). auto.
  - intros p' q Hq. rewrite list_lookup_alter. case_decide; [|exists q; auto]. subst p'. rewrite Hq.
    destruct (Hf q Hq) as (? & ? & _). by exists (f q).
  - intros p' q'. rewrite list_lookup_alter. case_decide; [|apply (bu_prop _ _ Hb)]. subst p'.
    destruct (props t !! p) as [q|] eqn:Hq; [|done]. intros [= <-]. destruct (Hf q eq_refl) as (_ & Ht & Hok & He).
    split; [done|]. rewrite He. intros Hc. apply (bu_prop _ _ Hb p q Hq). destruct Ht as [Ht|[_ Ht]]; congruence.
Qed.

(** The chain of parents leads to the root. *)
Lemma upper_visibility_total x n m e t : building x t → dep_ok e →
  (∀ u, m = Some u → (u < n)%nat ∧ (u < length (menus t))%nat) → ∃ e', upper_visibility n m e t = Ret e' ∧ dep_ok e'.
Proof.
  intros Hb. revert m e. induction n as [|n IH]; intros m e He Hm; (destruct m as [u|]; [|by exists e]);
    destruct (Hm u eq_refl) as [Hu Hl]; [lia|].
  destruct (lookup_lt_is_Some_2 _ _ Hl) as [un Hn]. cbn [upper_visibility]. unfold menu_at. rewrite Hn.
  cbn [of_option mbind result_bind]. destruct (bu_menu _ _ Hb u un Hn) as (_ & Hv & Hp & _).
  assert (∃ e1, match m_visibility un with
            | NULL => Ret e
            | v => v ← expr_copy v; Ret (expr_alloc_and e v)
            end = Ret e1 ∧ dep_ok e1) as (e1 & -> & He1).
  { destruct (m_visibility un) eqn:Ev; try (rewrite <- Ev, copy_dep by (by rewrite Ev); cbn [mbind result_bind]; eexists;
      split; [done|]; apply (@alloc_and_dep (tab_of (t_st t))); [done|by rewrite Ev]). by exists e. }
  cbn [mbind result_bind]. apply IH; [done|]. intros u' E. case_decide; [congruence|].
  destruct Hp as (u2 & E2 & Hlt). assert (u2 = u') as -> by congruence. lia.
Qed.

(** ** Options *)

Lemma builds_then x t t1 f : building x t1 ∧ steady t t1 → builds x f t1 → ∃ t', f t1 = Ret t' ∧ building x t' ∧ steady t t'.
Proof. intros [_ S1] (t' & E & B & S2). exists t'. split; [done|]. split; [done|by eapply steady_trans]. Qed.
Lemma builds_entry x t : building x t → ∃ n, menus t !! current_entry t = Some n.
Proof. intros Hb. destruct (lookup_lt_is_Some_2 _ _ (bu_entry _ _ Hb)) as [n Hn]. eauto. Qed.
Lemma prompt_place x t : building x t → current_entry t ≠ 0%nat →
  ∃ n up, menus t !! current_entry t = Some n ∧ m_parent n = Some up ∧ (up < length (menus t))%nat.
Proof.
  intros Hb Hc. destruct (builds_entry x t Hb) as [n Hn]. destruct (bu_menu _ _ Hb _ n Hn) as (_ & _ & Hp & _).
  rewrite decide_False in Hp by done. destruct Hp as (u & Hu & Hlt). exists n, u. split_and!; try done.
  apply lookup_lt_Some in Hn. lia.
Qed.

Lemma add_prompt_builds x ty text c t : building x t → dep_ok c → ty ∈ [P_PROMPT; P_MENU; P_COMMENT] →
  (ty = P_PROMPT → current_entry t ≠ 0%nat) → builds x (menu_add_prompt ty text c) t.
Proof.
  intros Hb Hc Hty Hr. unfold builds, menu_add_prompt.
  assert (∀ v e, dep_ok v → prop_ok t (MProp ty e v NULL (current_entry t) None)) as Hpk.
  { intros v e Hv. split; [done|]. cbn. assert (ty = P_PROMPT ∨ ty = P_MENU ∨ ty = P_COMMENT) as [-> |[-> | ->]] by set_solver;
      try done. cbn. by apply (prompt_place x), Hr. }
  destruct (building_append x ty NULL c t Hb (Hpk c None Hc) ltac:(done)) as (t1 & p & -> & B1 & S1 & n & Hn & Hq & Em).
  cbn [mbind result_bind].
  destruct (building_warn x (isspace (hd 0 text)) (W_leading_space p) t1 B1) as [B2 S2].
  set (t2 := warn_if _ (W_leading_space p) t1) in *.
  assert (menus t2 = menus t ∧ props t2 = props t1 ∧ current_entry t2 = current_entry t) as (Em2 & Ep2 & Ec2).
  { destruct (st_place _ _ S1) as (E & _). unfold t2, warn_if. destruct (isspace _); cbn; by rewrite Em, E. }
  unfold menu_at. rewrite Ec2, Em2, Hn. cbn [of_option mbind result_bind].
  destruct (building_warn x (bool_decide (is_Some (m_prompt n))) (W_prompt_redefined p) t2 B2) as [B3 S3].
  set (t3 := warn_if _ (W_prompt_redefined p) t2) in *.
  assert (menus t3 = menus t ∧ props t3 = props t1 ∧ current_entry t3 = current_entry t) as (Em3 & Ep3 & Ec3).
  { unfold t3, warn_if. case_bool_decide; by rewrite <- ?Em2, <- ?Ep2, <- ?Ec2. }
  assert (∃ v, (if decide (ty = P_PROMPT) then upper_visibility (length (menus t3)) (m_parent n) c t3 else Ret c) = Ret v ∧
    dep_ok v) as (v & -> & Hv).
  { case_decide as E; [|by exists c]. apply (upper_visibility_total x); [done|done|]. intros u Hu. rewrite Em3.
    destruct (prompt_place x t Hb (Hr E)) as (n' & u' & Hn' & Hu' & Hlt). assert (u' = u) as -> by congruence. done. }
  cbn [mbind result_bind]. eexists. split; [done|]. rewrite Ec3.
  assert (steady t t3) as St3 by (eapply steady_trans; [|exact S3]; by eapply steady_trans).
  assert (prompt_type (MProp ty None c NULL (current_entry t) (m_sym n))) as Hpt.
  { assert (ty = P_PROMPT ∨ ty = P_MENU ∨ ty = P_COMMENT) as [-> |[-> | ->]] by set_solver; done. }
  destruct (building_menu x (current_entry t) (set_prompt p) t3 B3) as [B4 S4].
  { intros n' Hn'. destruct (bu_menu _ _ B3 _ _ Hn') as (? & ? & _). cbn. split_and!; try done.
    right. eexists p, _. rewrite Ep3. by split_and!. }
  set (t4 := upd_menu _ _ t3) in *. pose proof (steady_trans _ _ _ St3 S4) as St4.
  destruct (building_prop x p (λ q, set_mp_text (skip_spaces text) (set_mp_visible v q)) t4 B4) as [B5 S5].
  { intros q Hq'. assert (q = MProp ty None c NULL (current_entry t) (m_sym n)) as ->.
    { cbn in Hq'. rewrite Ep3 in Hq'. congruence. }
    cbn. split_and!; try done; [by left|]. apply (prop_ok_steady t t4 _ St4). exact (Hpk v (Some (skip_spaces text)) Hv). }
  split; [done|]. by eapply steady_trans.
Qed.

Lemma set_type_builds x ty t n : building x t → menus t !! current_entry t = Some n → is_Some (m_sym n) →
  builds x (menu_set_type ty) t.
Proof.
  intros Hb Hn [s Hs]. unfold builds, menu_set_type, menu_at. rewrite Hn. cbn [of_option mbind result_bind]. rewrite Hs.
  cbn [of_option mbind result_bind]. eexists. split; [done|].
  repeat case_decide; [split; [done|apply steady_refl]|by apply building_sym|by apply (building_warn x true)].
Qed.

Lemma add_expr_builds x ty e dep t : building x t →
  prop_ok t (MProp ty None dep e (current_entry t) None) → (ty = P_CHOICE → is_list e = true) →
  builds x (menu_add_expr ty e dep) t.
Proof.
  intros Hb Hok Hl. destruct (building_append x ty e dep t Hb Hok Hl) as (t1 & p & E & B & S & _).
  exists t1. unfold menu_add_expr. rewrite E. cbn [mbind result_bind]. done.
Qed.
Lemma building_dep x f t : building x t → (∀ n, menus t !! current_entry t = Some n → dep_ok (m_dep (f n)) ∧
    dep_ok (m_visibility (f n)) ∧ m_next (f n) = m_next n ∧ m_parent (f n) = m_parent n ∧ m_list (f n) = m_list n ∧
    m_sym (f n) = m_sym n ∧ m_prompt (f n) = m_prompt n) →
  building x (upd_menu (current_entry t) f t) ∧ steady t (upd_menu (current_entry t) f t).
Proof. intros Hb Hf. apply building_menu; [done|]. intros n Hn. destruct (Hf n Hn) as (? & ? & ? & ? & ? & ? & ?). auto 10. Qed.
Lemma add_dep_builds x e t : building x t → dep_ok e → building x (menu_add_dep e t) ∧ steady t (menu_add_dep e t).
Proof.
  intros Hb He. apply building_dep; [done|]. intros n Hn. destruct (bu_menu _ _ Hb _ n Hn) as (? & ? & _). cbn.
  split_and!; try done. by apply (@alloc_and_dep (tab_of (t_st t))).
Qed.

(** The symbol of the current entry is there when options ask for it. *)
Definition at_entry (has_sym : bool) (t : tree) : Prop :=
  current_entry t ≠ 0%nat ∧ ∀ n, menus t !! current_entry t = Some n → has_sym = true → is_Some (m_sym n).
Lemma at_entry_steady b t t' : steady t t' → at_entry b t → at_entry b t'.
Proof.
  intros S [H1 H2]. destruct (st_place _ _ S) as (E & _). unfold at_entry. rewrite E. split; [done|]. intros n' Hn' Hb.
  pose proof (st_sym _ _ S (current_entry t)) as Es. rewrite Hn' in Es. destruct (menus t !! current_entry t) as [n|]; [|done].
  injection Es as ->. by apply H2.
Qed.
Lemma opt_ok_names st st' b o : (∀ s, k_name (ks st' s) = k_name (ks st s)) → opt_ok st b o → opt_ok st' b o.
Proof.
  intros Hn. unfold opt_ok, known_name. destruct o; try done.
  - intros (? & ? & H & ?). split_and!; try done. intros s Es. rewrite Hn. by apply H.
  - by rewrite !Hn.
Qed.

Lemma parse_option_builds x b o t : building x t → at_entry b t → opt_ok (t_st t) b o → builds x (parse_option o) t.
Proof.
  intros Hb [He Hs] Ho. destruct (builds_entry x t Hb) as [n Hn]. destruct o; cbn in Ho; unfold builds; cbn [parse_option].
  - apply (set_type_builds x _ t n); auto.
  - apply add_prompt_builds; [done|done|set_solver|done].
  - destruct Ho as (Hsym & Hne & Hnm & Hc). destruct (add_expr_builds x P_DEFAULT e cond t Hb) as (t1 & E1 & B1 & S1); [|done|].
    { by split. }
    rewrite E1. cbn [mbind result_bind]. case_decide; [by exists t1|]. apply (builds_then x); [done|].
    destruct (builds_entry x t1 B1) as [n1 Hn1]. apply (set_type_builds x _ t1 n1); [done|done|].
    by apply (at_entry_steady b t t1 S1 (conj He Hs)).
  - apply (add_expr_builds x P_SELECT (SYMBOL s)); [done| |done]. split; [apply Ho|]. by exists s.
  - apply (add_expr_builds x P_IMPLY (SYMBOL s)); [done| |done]. split; [apply Ho|]. by exists s.
  - apply add_expr_builds; [done| |done]. destruct Ho as (? & ? & ?). split; [done|]. by exists a, b0.
  - destruct (Hs n Hn Ho) as [s Es]. unfold menu_at. rewrite Hn. cbn [of_option mbind result_bind]. rewrite Es.
    cbn [of_option mbind result_bind]. eexists. split; [done|]. apply building_sym; [done|]. intros k. split; [done|by apply has_raise_disj].
  - apply add_expr_builds; [done| |done]. by split.
  - eexists. split; [done|]. by apply add_dep_builds.
  - eexists. split; [done|]. apply building_dep; [done|]. intros n' Hn'. destruct (bu_menu _ _ Hb _ n' Hn') as (? & ? & _). cbn.
    split_and!; try done. by apply (@alloc_and_dep (tab_of (t_st t))).
Qed.
Lemma parse_options_builds x b l t : building x t → at_entry b t → Forall (opt_ok (t_st t) b) l → builds x (parse_options l) t.
Proof.
  revert t. induction l as [|o l IH]; intros t Hb He Hl; cbn [parse_options].
  { exists t. split; [done|]. split; [done|apply steady_refl]. }
  apply Forall_cons in Hl as [Ho Hl]. unfold builds.
  destruct (parse_option_builds x b o t Hb He Ho) as (t1 & -> & B1 & S1). cbn [mbind result_bind].
  apply (builds_then x); [done|]. apply IH; [done|by eapply at_entry_steady|]. eapply Forall_impl; [exact Hl|].
  intros o'. apply opt_ok_names, (st_name _ _ S1).
Qed.
Lemma menuconfig_builds x t : building x t → builds x menuconfig_prompt t.
Proof.
  intros Hb. destruct (builds_entry x t Hb) as [n Hn]. unfold builds, menuconfig_prompt, menu_at. rewrite Hn.
  cbn [of_option mbind result_bind]. eexists. split; [done|].
  destruct (m_prompt n) as [p|] eqn:Hp; [|by apply (building_warn x true)]. apply building_prop; [done|]. intros q Hq.
  destruct (bu_menu _ _ Hb _ n Hn) as (_ & _ & _ & Hpr). destruct (Hpr p Hp) as (q' & Hq' & T1 & T2 & T3).
  assert (q' = q) as -> by congruence. cbn. split_and!; try done; [by right|]. split; [apply (bu_prop _ _ Hb p q Hq)|done].
Qed.

(** ** Entries *)

Definition slot_of (sl : slot) : nat := match sl with In_list l | In_next l => l end.
(** The pointers after [p] is written to [sl]. *)
Definition lk_set (sl : slot) (p : option nat) (ms : list menu) (m : nat) : option (option nat * option nat * option nat) :=
  if decide (m = slot_of sl) then
    (λ x, match sl with In_list _ => (x.1, p) | In_next _ => (p, x.1.2, x.2) end) <$> lk ms m
  else lk ms m.
(** Nothing hangs at [sl]. *)
Definition free (sl : slot) (ms : list menu) : Prop := (slot_of sl < length ms)%nat ∧ ∀ m, lk_set sl None ms m = lk ms m.

(** A new entry, the last one, hangs where [last_entry] says. *)
Record hung (sym : option symbol) (t t' : tree) : Prop := {
  hu_lk m : (m < length (menus t))%nat → lk (menus t') m = lk_set (last_entry t) (Some (length (menus t))) (menus t) m;
  hu_new : lk (menus t') (length (menus t)) = Some (None, current_menu t, None);
  hu_syms : m_sym <$> menus t' = (m_sym <$> menus t) ++ [sym];
  hu_place : current_entry t' = length (menus t) ∧ current_menu t' = current_menu t ∧ last_entry t' = In_next (length (menus t));
  hu_name s : k_name (sym_ s t') = k_name (sym_ s t);
  hu_choice s : is_choice s t' = is_choice s t
}.
Lemma steady_syms t t' : steady t t' → m_sym <$> menus t' = m_sym <$> menus t.
Proof. intros S. apply list_eq. intros m. rewrite !list_lookup_fmap. apply (st_sym _ _ S). Qed.
Lemma hung_steady sym t t1 t2 : hung sym t t1 → steady t1 t2 → hung sym t t2.
Proof.
  intros [a b c (d & e & f) g h] S. destruct (st_place _ _ S) as (d' & e' & f'). split.
  - intros m Hm. by rewrite (st_lk _ _ S), a.
  - by rewrite (st_lk _ _ S).
  - by rewrite (steady_syms _ _ S).
  - split_and!; congruence.
  - intros s. by rewrite (st_name _ _ S).
  - intros s. by rewrite (st_choice _ _ S).
Qed.
Lemma hung_len sym t t' : hung sym t t' → length (menus t') = S (length (menus t)).
Proof. intros H. pose proof (f_equal length (hu_syms _ _ _ H)) as E. rewrite length_app, !length_fmap in E. cbn in E. lia. Qed.

(** The list of entries with the new one hung up. *)
Definition hang (sl : slot) (p : nat) (ms : list menu) : list menu :=
  match sl with In_list l => alter (set_list (Some p)) l ms | In_next l => alter (set_next (Some p)) l ms end.
Lemma hang_lookup sl p ms m n' : hang sl p ms !! m = Some n' → ∃ n, ms !! m = Some n ∧ m_sym n' = m_sym n ∧
  m_prompt n' = m_prompt n ∧ m_parent n' = m_parent n ∧ m_dep n' = m_dep n ∧ m_visibility n' = m_visibility n.
Proof.
  destruct sl; cbn; rewrite list_lookup_alter; (case_decide; [|by eauto 10]); subst m; destruct (ms !! _) as [n|]; try done;
    intros [= <-]; by exists n.
Qed.
Lemma hang_syms sl p ms : m_sym <$> hang sl p ms = m_sym <$> ms.
Proof.
  apply list_eq. intros m. rewrite !list_lookup_fmap. destruct sl; cbn; rewrite list_lookup_alter; (case_decide; [|done]);
    subst m; by destruct (ms !! _).
Qed.
Lemma hang_lk sl p ms m : lk (hang sl p ms) m = lk_set sl (Some p) ms m.
Proof.
  unfold lk_set. destruct sl; cbn; rewrite lk_alter; (case_decide; [|done]); subst m; unfold lk; by destruct (ms !! _).
Qed.
Lemma lk_app_l ms ms' m : (m < length ms)%nat → lk (ms ++ ms') m = lk ms m.
Proof. intros Hm. unfold lk. by rewrite lookup_app_l. Qed.
Lemma hang_last sl p ms n : (slot_of sl < length ms)%nat → hang sl p (ms ++ [n]) !! length ms = Some n.
Proof.
  intros Hs. destruct sl; cbn in *; rewrite list_lookup_alter_ne by lia; by apply list_lookup_middle.
Qed.

Lemma add_entry_builds x sym t cm : building None t → current_menu t = Some cm → (cm < length (menus t))%nat →
  (slot_of (last_entry t) < length (menus t))%nat → (∀ s, sym = Some s → is_choice s t = true → x = Some s) →
  ∃ t', menu_add_entry sym t = Ret t' ∧ building x t' ∧ hung sym t t'.
Proof.
  intros Hb Hcm Hlt Hsl Hx. set (N := length (menus t)) in *. set (new := Menu None (current_menu t) None sym None NULL NULL).
  set (t1 := Tree (hang (last_entry t) N (menus t ++ [new])) (props t) (t_st t) N (current_menu t) (In_next N) (warnings t)).
  assert (menu_add_entry sym t = match sym with Some s => menu_add_symbol P_SYMBOL s NULL t1 | None => Ret t1 end) as ->.
  { unfold menu_add_entry. cbn [last_entry set_menus]. by destruct (last_entry t). }
  assert (∀ m n', menus t1 !! m = Some n' → (∃ n, menus t !! m = Some n ∧ m_sym n' = m_sym n ∧
    m_prompt n' = m_prompt n ∧ m_parent n' = m_parent n ∧ m_dep n' = m_dep n ∧ m_visibility n' = m_visibility n) ∨
    (m = N ∧ n' = new)) as Hold.
  { intros m n' Hn'. destruct (decide (m = N)) as [-> |Hm].
    - right. split; [done|]. cbn in Hn'. unfold N in Hn'. rewrite hang_last in Hn' by done. by injection Hn'.
    - left. destruct (hang_lookup _ _ _ _ _ Hn') as (n & Hn & H). exists n. split; [|done].
      apply lookup_app_Some in Hn as [Hn|[H1 H2]]; [done|]. apply list_lookup_singleton_Some in H2 as [H2 _].
      unfold N in Hm. lia. }
  assert (hung sym t t1) as Hh.
  { split; cbn; try done.
    - intros m Hm. rewrite hang_lk. unfold lk_set. by rewrite lk_app_l.
    - unfold lk, N. by rewrite hang_last.
    - by rewrite hang_syms, fmap_app. }
  assert (building x t1) as B1.
  { split.
    - intros m n' Hn'. destruct (Hold m n' Hn') as [(n & Hn & _ & Ep & Eu & Ed & Ev)|[-> ->]].
      + rewrite Ep, Eu, Ed, Ev. apply (bu_menu _ _ Hb m n Hn).
      + cbn. split_and!; [by right|by right| |done]. rewrite decide_False by lia. exists cm. done.
    - intros p q Hq. destruct (bu_prop _ _ Hb p q Hq) as [[Hv Hk] Hl]. split; [|done]. split; [done|].
      destruct (mp_type q); try done. destruct Hk as (n & up & Hn & Hup & Hl').
      pose proof (hung_len _ _ _ Hh) as Hlen. destruct (lookup_lt_is_Some_2 (menus t1) (mp_menu q)) as [n' Hn'].
      { apply lookup_lt_Some in Hn. lia. }
      exists n', up. split; [done|]. split; [|lia]. destruct (Hold _ _ Hn') as [(n2 & Hn2 & _ & _ & -> & _)|[E _]]; [congruence|].
      apply lookup_lt_Some in Hn. unfold N in E. lia.
    - intros s (m & n' & Hn' & Es) Hch Hxs. destruct (Hold m n' Hn') as [(n & Hn & E & _)|[-> ->]].
      + apply (bu_choice _ _ Hb s); [exists m, n; by rewrite <- E|done|done].
      + cbn in Es. by rewrite (Hx s Es Hch) in Hxs.
    - change (current_entry t1) with N. rewrite (hung_len _ _ _ Hh). fold N. lia. }
  destruct sym as [s|]; [|by exists t1].
  destruct (add_expr_builds x P_SYMBOL (SYMBOL s) NULL t1 B1) as (t2 & E2 & B2 & S2); [split; [by right|done]|done|].
  exists t2. split; [exact E2|]. split; [done|]. by eapply hung_steady.
Qed.

(** ** Statements *)

(** The symbols of the entries, in the order of the files. *)
Fixpoint stmt_syms (l : stmts) : list (option symbol) :=
  match l with
  | S_nil => []
  | S_config _ s _ rest => Some s :: stmt_syms rest
  | S_comment _ _ rest => None :: stmt_syms rest
  | S_choice s _ body rest => Some s :: stmt_syms body ++ stmt_syms rest
  | S_if _ body rest | S_menu _ _ body rest => None :: stmt_syms body ++ stmt_syms rest
  end.
Lemma stmt_syms_len l : length (stmt_syms l) = entries l.
Proof. induction l; cbn; rewrite ?length_app; lia. Qed.
Definition fhead (f : forest) : option nat := match f with FNil => None | FCons m _ _ => Some m end.

(** There is a current menu, and a place for the next entry. *)
Definition placed (t : tree) : Prop :=
  (∃ cm, current_menu t = Some cm ∧ (cm < length (menus t))%nat) ∧ free (last_entry t) (menus t).
Lemma free_next ms l u k : lk ms l = Some (None, u, k) → free (In_next l) ms.
Proof.
  intros L. split; [apply (lk_some ms l); by rewrite L|]. intros m. unfold lk_set. cbn [slot_of]. case_decide; [|done]. subst m. by rewrite L.
Qed.
Lemma free_list ms l u n : lk ms l = Some (n, u, None) → free (In_list l) ms.
Proof.
  intros L. split; [apply (lk_some ms l); by rewrite L|]. intros m. unfold lk_set. cbn [slot_of]. case_decide; [|done]. subst m. by rewrite L.
Qed.

(** The entries of [l] hang where [last_entry] says. *)
Record parsed (l : stmts) (t t' : tree) : Prop := {
  pa_building : building None t';
  pa_menu : current_menu t' = current_menu t;
  pa_lk m : (m < length (menus t))%nat →
    lk (menus t') m = lk_set (last_entry t) (fhead (forest_of (length (menus t)) l)) (menus t) m;
  pa_repr : repr (menus t') (current_menu t) None (forest_of (length (menus t)) l) (fhead (forest_of (length (menus t)) l));
  pa_syms : m_sym <$> menus t' = (m_sym <$> menus t) ++ stmt_syms l;
  pa_name s : k_name (sym_ s t') = k_name (sym_ s t);
  pa_choice s : is_choice s t' = is_choice s t
}.
Lemma parsed_len l t t' : parsed l t t' → length (menus t') = (length (menus t) + entries l)%nat.
Proof.
  intros H. pose proof (f_equal length (pa_syms _ _ _ H)) as E. rewrite length_app, !length_fmap, stmt_syms_len in E. done.
Qed.
Lemma lk_set_other sl p ms m : m ≠ slot_of sl → lk_set sl p ms m = lk ms m.
Proof. intros Hm. unfold lk_set. by rewrite decide_False. Qed.

(** An entry without others below it. *)
Lemma parsed_leaf sym l rest t t1 t' : hung sym t t1 → parsed rest t1 t' →
  (∀ n, forest_of n l = FCons n FNil (forest_of (S n) rest)) → stmt_syms l = sym :: stmt_syms rest → parsed l t t'.
Proof.
  intros Hh Hp Hf Hs. destruct (hu_place _ _ _ Hh) as (He & Hm & Hl). pose proof (hung_len _ _ _ Hh) as Hlen. split.
  - apply (pa_building _ _ _ Hp).
  - by rewrite (pa_menu _ _ _ Hp).
  - intros m Hlt. rewrite (pa_lk _ _ _ Hp), Hl, lk_set_other by (cbn; lia). rewrite Hf. by apply (hu_lk _ _ _ Hh).
  - pose proof (pa_repr _ _ _ Hp) as Hr. rewrite Hlen, Hm in Hr. rewrite Hf. cbn. split; [done|]. eexists _, None.
    split; [|split; [done|exact Hr]]. rewrite (pa_lk _ _ _ Hp) by lia. unfold lk_set. rewrite Hl, Hlen. cbn.
    rewrite decide_True by done. by rewrite (hu_new _ _ _ Hh).
  - by rewrite (pa_syms _ _ _ Hp), (hu_syms _ _ _ Hh), Hs, <- app_assoc.
  - intros s. by rewrite (pa_name _ _ _ Hp), (hu_name _ _ _ Hh).
  - intros s. by rewrite (pa_choice _ _ _ Hp), (hu_choice _ _ _ Hh).
Qed.
(** An entry with those of [body] below it: [t3] is where the block ends. *)
Lemma parsed_block sym l body rest t t1 t2 t' : hung sym t t1 → parsed body (menu_add_menu t1) t2 →
  parsed rest (set_place (current_menu t) (In_next (length (menus t))) t2) t' →
  (∀ n, forest_of n l = FCons n (forest_of (S n) body) (forest_of (S n + entries body) rest)) →
  stmt_syms l = sym :: stmt_syms body ++ stmt_syms rest → parsed l t t'.
Proof.
  intros Hh Hb Hp Hf Hs. destruct (hu_place _ _ _ Hh) as (He & Hm & Hl). pose proof (hung_len _ _ _ Hh) as Hlen.
  pose proof (parsed_len _ _ _ Hb) as Hlen2. cbn in Hlen2. rewrite Hlen in Hlen2.
  assert (∀ m, (m < length (menus t1))%nat → lk (menus t2) m =
    lk_set (In_list (length (menus t))) (fhead (forest_of (S (length (menus t))) body)) (menus t1) m) as Hk2.
  { intros m Hlt. rewrite (pa_lk _ _ _ Hb) by done. cbn. by rewrite He, Hlen. }
  assert (∀ m, (m < length (menus t2))%nat → lk (menus t') m =
    lk_set (In_next (length (menus t))) (fhead (forest_of (S (length (menus t)) + entries body) rest)) (menus t2) m) as Hk3.
  { intros m Hlt. rewrite (pa_lk _ _ _ Hp) by done. cbn. by rewrite Hlen2. }
  split.
  - apply (pa_building _ _ _ Hp).
  - by rewrite (pa_menu _ _ _ Hp).
  - intros m Hlt. rewrite Hk3, lk_set_other, Hk2, lk_set_other by (cbn; lia). rewrite Hf. by apply (hu_lk _ _ _ Hh).
  - rewrite Hf. cbn [fhead repr]. split; [done|]. eexists _, _. split; [|split].
    + rewrite Hk3 by lia. unfold lk_set. cbn [slot_of]. rewrite decide_True, Hk2 by (done || lia). unfold lk_set. cbn [slot_of].
      rewrite decide_True, (hu_new _ _ _ Hh) by done. cbn. reflexivity.
    + pose proof (pa_repr _ _ _ Hb) as Hr. cbn in Hr. rewrite He, Hlen in Hr. apply (repr_frame (menus t2)); [|exact Hr].
      intros m. rewrite pre_forest, elem_of_seq. intros Hin. rewrite Hk3, lk_set_other by (cbn; lia). done.
    + pose proof (pa_repr _ _ _ Hp) as Hr. cbn in Hr. by rewrite Hlen2 in Hr.
  - rewrite (pa_syms _ _ _ Hp). cbn. rewrite (pa_syms _ _ _ Hb). cbn. by rewrite (hu_syms _ _ _ Hh), Hs, <- !app_assoc.
  - intros s. rewrite (pa_name _ _ _ Hp). etrans; [apply (pa_name _ _ _ Hb)|apply (hu_name _ _ _ Hh)].
  - intros s. rewrite (pa_choice _ _ _ Hp). etrans; [apply (pa_choice _ _ _ Hb)|apply (hu_choice _ _ _ Hh)].
Qed.

Lemma stmts_ok_names st st' l : (∀ s, k_name (ks st' s) = k_name (ks st s) ∧ sym_is_choice st' s = sym_is_choice st s) →
  stmts_ok st l → stmts_ok st' l.
Proof.
  intros Hn. assert (∀ b opts, Forall (opt_ok st b) opts → Forall (opt_ok st' b) opts) as Ho.
  { intros b opts Ho. eapply Forall_impl; [exact Ho|]. intros o. apply opt_ok_names. intros s. apply Hn. }
  induction l; cbn; naive_solver.
Qed.
Lemma hung_ok sym t t1 l : hung sym t t1 → stmts_ok (t_st t) l → stmts_ok (t_st t1) l.
Proof. intros Hh. apply stmts_ok_names. intros s. split; [apply (hu_name _ _ _ Hh)|apply (hu_choice _ _ _ Hh)]. Qed.
Lemma hung_placed sym t t1 : placed t → hung sym t t1 → placed t1.
Proof.
  intros [(cm & Hcm & Hlt) _] Hh. destruct (hu_place _ _ _ Hh) as (_ & Em & El). split.
  - exists cm. rewrite Em, (hung_len _ _ _ Hh). split; [done|lia].
  - rewrite El. eapply free_next. apply (hu_new _ _ _ Hh).
Qed.
Lemma hung_sym sym t t1 : hung sym t t1 → ∃ n, menus t1 !! current_entry t1 = Some n ∧ m_sym n = sym.
Proof.
  intros Hh. destruct (hu_place _ _ _ Hh) as (-> & _). pose proof (f_equal (lookup (length (menus t))) (hu_syms _ _ _ Hh)) as E.
  rewrite list_lookup_fmap, lookup_app_r, length_fmap, Nat.sub_diag in E by (by rewrite length_fmap).
  destruct (menus t1 !! length (menus t)) as [n|]; [|done]. injection E as E. by exists n.
Qed.
Lemma hung_at_entry b sym t t1 : placed t → hung sym t t1 → (b = true → is_Some sym) → at_entry b t1.
Proof.
  intros [(cm & _ & Hlt) _] Hh Hb. destruct (hung_sym _ _ _ Hh) as (n' & Hn' & <-). split.
  - destruct (hu_place _ _ _ Hh) as (-> & _). lia.
  - intros n Hn Et. assert (n' = n) as -> by congruence. by apply Hb.
Qed.
Lemma building_place x t m sl : building x t → building x (set_place m sl t).
Proof. by intros [? ? ? ?]. Qed.
Lemma steady_placed t t' : steady t t' → placed t → placed t'.
Proof.
  intros S [(cm & Hcm & Hlt) [Hf1 Hf2]]. destruct (st_place _ _ S) as (_ & Em & El). split.
  - exists cm. by rewrite Em, (steady_len _ _ S).
  - rewrite El. split; [by rewrite (steady_len _ _ S)|]. intros m. unfold lk_set in *. by rewrite (st_lk _ _ S).
Qed.
Lemma hung_opts sym b opts x t t1 : placed t → hung sym t t1 → building x t1 → (b = true → is_Some sym) →
  Forall (opt_ok (t_st t) b) opts → ∃ t2, parse_options opts t1 = Ret t2 ∧ building x t2 ∧ hung sym t t2.
Proof.
  intros Hpl Hh Hb Hs Ho. destruct (parse_options_builds x b opts t1 Hb) as (t2 & E & B & S).
  - by eapply hung_at_entry.
  - eapply Forall_impl; [exact Ho|]. intros o. apply opt_ok_names, (hu_name _ _ _ Hh).
  - exists t2. split; [done|]. split; [done|]. by eapply hung_steady.
Qed.

(** The flags of a symbol change before its entry is made. *)
Lemma hung_upd sym s f t t1 : (∀ k, k_name (f k) = k_name k ∧ has SYMBOL_CHOICE (f k) = has SYMBOL_CHOICE k) →
  hung sym (upd_sym s f t) t1 → hung sym t t1.
Proof.
  intros Hf [a b c d e g]. split; try done.
  - intros s'. rewrite e. unfold sym_. cbn. rewrite ks_upd. case_decide; [apply Hf|done].
  - intros s'. rewrite g. unfold is_choice, sym_is_choice. cbn. rewrite ks_upd. case_decide; [apply Hf|done].
Qed.
Lemma open_entry x sym t : building None t → placed t → (∀ s, sym = Some s → is_choice s t = true → x = Some s) →
  ∃ t1, menu_add_entry sym t = Ret t1 ∧ building x t1 ∧ hung sym t t1.
Proof. intros Hb [(cm & Hcm & Hlt) [Hf _]] Hx. by apply (add_entry_builds x sym t cm). Qed.
Lemma open_symbol x s fl t : building None t → placed t → fl .& SYMBOL_CHOICE = 0 → (is_choice s t = true → x = Some s) →
  ∃ t1, menu_add_entry (Some s) (upd_sym s (raise fl) t) = Ret t1 ∧ building x t1 ∧ hung (Some s) t t1.
Proof.
  intros Hb Hpl Hfl Hx. assert (∀ k, k_name (raise fl k) = k_name k ∧ has SYMBOL_CHOICE (raise fl k) = has SYMBOL_CHOICE k) as Hf.
  { intros k. split; [done|by apply has_raise_disj]. }
  destruct (building_sym None s (raise fl) t Hb Hf) as [B S].
  destruct (open_entry x (Some s) _ B (steady_placed _ _ S Hpl)) as (t1 & E & B1 & H1).
  { intros s' [= <-]. rewrite (st_choice _ _ S). exact Hx. }
  exists t1. split; [done|]. split; [done|]. by eapply hung_upd.
Qed.

(** The choice at hand gets the property that lists its values. *)
Lemma choice_expr_builds s t : building (Some s) t →
  (∃ n, menus t !! current_entry t = Some n ∧ m_sym n = Some s) →
  ∃ t', menu_add_expr P_CHOICE NULL NULL t = Ret t' ∧ building None t' ∧ steady t t'.
Proof.
  intros Hb (n & Hn & Hs). destruct (building_append (Some s) P_CHOICE NULL NULL t Hb) as (t1 & p & E & B1 & S1 & n' & Hn' & Hq & _).
  { split; [by right|done]. } { done. }
  assert (n' = n) as -> by congruence. exists t1. unfold menu_add_expr. rewrite E. cbn [mbind result_bind]. split; [done|].
  split; [|done]. split; [apply (bu_menu _ _ B1)|apply (bu_prop _ _ B1)| |apply (bu_entry _ _ B1)].
  intros s' Hen Hch _. destruct (decide (s' = s)) as [-> |Hne]; [|apply (bu_choice _ _ B1); congruence].
  eexists p, _. split; [exact Hq|]. cbn. by rewrite Hs.
Qed.

(** The menu of the block is left. *)
Lemma end_menu sym t t1 t2 body : placed t → hung sym t t1 → parsed body (menu_add_menu t1) t2 →
  let t3 := set_place (current_menu t) (In_next (length (menus t))) t2 in
  menu_end_menu t2 = Ret t3 ∧ building None t3 ∧ placed t3.
Proof.
  intros [(cm & Hcm & Hlt) _] Hh Hb t3. destruct (hu_place _ _ _ Hh) as (He & _). pose proof (hung_len _ _ _ Hh) as Hlen.
  pose proof (parsed_len _ _ _ Hb) as Hlen2. cbn in Hlen2.
  assert (lk (menus t2) (length (menus t)) = Some (None, current_menu t, fhead (forest_of (length (menus t1)) body))) as L.
  { rewrite (pa_lk _ _ _ Hb) by (cbn; lia). unfold lk_set. cbn [last_entry menu_add_menu set_place slot_of]. rewrite He.
    rewrite decide_True by done. change (menus (menu_add_menu t1)) with (menus t1). by rewrite (hu_new _ _ _ Hh). }
  unfold menu_end_menu. rewrite (pa_menu _ _ _ Hb). cbn. rewrite He. cbn [of_option mbind result_bind]. unfold menu_at.
  split; [|split].
  - unfold lk in L. destruct (menus t2 !! length (menus t)) as [n|]; [|done]. injection L as _ Hu _. cbn [of_option mbind result_bind]. by rewrite Hu.
  - apply building_place, (pa_building _ _ _ Hb).
  - split; [exists cm; cbn; split; [done|lia]|]. by eapply free_next.
Qed.

(** A block with its statements, and those after it. *)
Lemma parse_block sym l body rest t t1 : placed t → building None t1 → hung sym t t1 →
  (∀ t, building None t → placed t → stmts_ok (t_st t) body → ∃ t', parse_stmts body t = Ret t' ∧ parsed body t t') →
  (∀ t, building None t → placed t → stmts_ok (t_st t) rest → ∃ t', parse_stmts rest t = Ret t' ∧ parsed rest t t') →
  stmts_ok (t_st t) body → stmts_ok (t_st t) rest →
  (∀ n, forest_of n l = FCons n (forest_of (S n) body) (forest_of (S n + entries body) rest)) →
  stmt_syms l = sym :: stmt_syms body ++ stmt_syms rest →
  ∃ t', (t ← parse_stmts body (menu_add_menu t1); t ← menu_end_menu t; parse_stmts rest t) = Ret t' ∧ parsed l t t'.
Proof.
  intros Hpl B1 H1 IHb IHr Hb Hr Hf Hs. destruct (hu_place _ _ _ H1) as (He & _). pose proof (hung_len _ _ _ H1) as Hlen.
  destruct (IHb (menu_add_menu t1)) as (t2 & -> & P2).
  { by apply building_place. }
  { split; [exists (length (menus t)); cbn; rewrite He; split; [done|lia]|]. cbn. rewrite He.
    eapply free_list. apply (hu_new _ _ _ H1). }
  { cbn. by eapply hung_ok. }
  cbn [mbind result_bind]. destruct (end_menu _ _ _ _ _ Hpl H1 P2) as (-> & B3 & Hpl3). cbn [mbind result_bind].
  destruct (IHr _ B3 Hpl3) as (t' & -> & P).
  { cbn. eapply stmts_ok_names; [|eapply (hung_ok _ _ _ _ H1), Hr]. intros s.
    split; [apply (pa_name _ _ _ P2)|apply (pa_choice _ _ _ P2)]. }
  exists t'. split; [done|]. by eapply parsed_block.
Qed.

Lemma parse_stmts_parsed l t : building None t → placed t → stmts_ok (t_st t) l → ∃ t', parse_stmts l t = Ret t' ∧ parsed l t t'.
Proof.
  revert t. induction l as [|mc s opts rest IH|text opts rest IH|s opts body IHb rest IHr|e body IHb rest IHr|text opts body IHb rest IHr];
    intros t Hb Hpl Hok; cbn [parse_stmts]; cbn [stmts_ok] in Hok.
  - exists t. split; [done|]. split; try done; [|by rewrite app_nil_r]. intros m _. symmetry. apply Hpl.
  - destruct Hok as (Hc & Ho & Hr). destruct (open_symbol None s SYMBOL_OPTIONAL t Hb Hpl) as (t1 & -> & B1 & H1); [done| |].
    { unfold is_choice. by rewrite Hc. }
    cbn [mbind result_bind]. destruct (hung_opts _ true opts _ _ _ Hpl H1 B1) as (t2 & -> & B2 & H2); [done|done|].
    cbn [mbind result_bind]. assert (∃ t3, (if mc then menuconfig_prompt t2 else Ret t2) = Ret t3 ∧ building None t3 ∧ hung (Some s) t t3)
      as (t3 & -> & B3 & H3).
    { destruct mc; [|by exists t2]. destruct (menuconfig_builds None t2 B2) as (t3 & -> & B3 & S3). exists t3.
      split; [done|]. split; [done|by eapply hung_steady]. }
    cbn [mbind result_bind]. destruct (IH t3 B3 (hung_placed _ _ _ Hpl H3) (hung_ok _ _ _ _ H3 Hr)) as (t' & -> & P).
    exists t'. split; [done|]. by eapply parsed_leaf.
  - destruct Hok as (Ho & Hr). destruct (open_entry None None t Hb Hpl) as (t1 & -> & B1 & H1); [done|]. cbn [mbind result_bind].
    destruct (add_prompt_builds None P_COMMENT text NULL t1 B1) as (t2 & -> & B2 & S2); [by right|set_solver|done|].
    pose proof (hung_steady _ _ _ _ H1 S2) as H2. cbn [mbind result_bind].
    destruct (hung_opts _ false opts _ _ _ Hpl H2 B2) as (t3 & -> & B3 & H3); [done|done|]. cbn [mbind result_bind].
    destruct (IH t3 B3 (hung_placed _ _ _ Hpl H3) (hung_ok _ _ _ _ H3 Hr)) as (t' & -> & P).
    exists t'. split; [done|]. by eapply parsed_leaf.
  - destruct Hok as (Ho & Hbd & Hr). destruct (open_symbol (Some s) s SYMBOL_NO_WRITE t Hb Hpl) as (t1 & -> & B1 & H1); [done|done|].
    cbn [mbind result_bind]. destruct (choice_expr_builds s t1) as (t2 & -> & B2 & S2).
    { done. } { by eapply hung_sym. }
    pose proof (hung_steady _ _ _ _ H1 S2) as H2. cbn [mbind result_bind].
    destruct (hung_opts _ true opts _ _ _ Hpl H2 B2) as (t3 & -> & B3 & H3); [done|done|]. cbn [mbind result_bind].
    by apply (parse_block (Some s) _ body rest t t3).
  - destruct Hok as (He & Hbd & Hr). destruct (open_entry None None t Hb Hpl) as (t1 & -> & B1 & H1); [done|]. cbn [mbind result_bind].
    destruct (add_dep_builds None e t1 B1 He) as [B2 S2]. pose proof (hung_steady _ _ _ _ H1 S2) as H2.
    by apply (parse_block None _ body rest t _).
  - destruct Hok as (Ho & Hbd & Hr). destruct (open_entry None None t Hb Hpl) as (t1 & -> & B1 & H1); [done|]. cbn [mbind result_bind].
    destruct (add_prompt_builds None P_MENU text NULL t1 B1) as (t2 & -> & B2 & S2); [by right|set_solver|done|].
    pose proof (hung_steady _ _ _ _ H1 S2) as H2. cbn [mbind result_bind].
    destruct (hung_opts _ false opts _ _ _ Hpl H2 B2) as (t3 & -> & B3 & H3); [done|done|]. cbn [mbind result_bind].
    by apply (parse_block None _ body rest t t3).
Qed.

(** ** The whole file *)

Lemma building_init st : building None (_menu_init st) ∧ placed (_menu_init st).
Proof.
  split; [split|split].
  - intros m n. cbn. rewrite list_lookup_singleton_Some. intros [<- <-]. cbn. split_and!; [by right|by right|by rewrite decide_True|done].
  - done.
  - intros s (m & n & Hn & Es). cbn in Hn. apply list_lookup_singleton_Some in Hn as [_ <-]. done.
  - apply Nat.lt_0_1.
  - exists 0%nat. cbn. split; [done|lia].
  - by eapply free_list.
Qed.
(** Nothing is left to do for the choices. *)
Lemma building_ok t : building None t → ok t.
Proof.
  intros Hb. split.
  - intros m n Hn. destruct (bu_menu _ _ Hb m n Hn) as (? & _ & _ & Hp). split; [done|]. intros p Ep.
    destruct (Hp p Ep) as (q & ? & ? & ? & _). by exists q.
  - intros p q Hq. apply (bu_prop _ _ Hb p q Hq).
  - intros s He Hch. destruct (bu_choice _ _ Hb s He Hch ltac:(done)) as (p & q & Hq & Ht & Ho).
    assert (is_Some (choice_prop s t)) as [p' Hp'].
    { unfold choice_prop. destruct (filter _ (owned s t)) as [|y ys] eqn:E; [|by eexists]. exfalso.
      apply (not_elem_of_nil p). rewrite <- E. apply list_elem_of_filter. rewrite Hq. cbn. split; [by rewrite Ht|].
      unfold owned. apply list_elem_of_filter. rewrite Hq. split; [done|]. apply elem_of_seq. apply lookup_lt_Some in Hq. lia. }
    destruct (choice_prop_type s p' t Hp') as (q' & Hq' & Ht'). exists p', q'. split; [done|]. split; [done|].
    by apply (bu_prop _ _ Hb p' q' Hq').
Qed.

Lemma parse_file_order mainmenu l st : stmts_ok st l → ∃ t, parse_file mainmenu l st = Ret t ∧ ok t ∧
  repr (menus t) None None (FCons 0 (forest_of 1 l) FNil) (Some 0%nat) ∧ m_sym <$> menus t = None :: stmt_syms l.
Proof.
  intros Hok. destruct (building_init st) as [B0 P0]. unfold parse_file.
  assert (∃ t1, match mainmenu with Some text => menu_add_prompt P_MENU text NULL (_menu_init st) | None => Ret (_menu_init st) end
    = Ret t1 ∧ building None t1 ∧ steady (_menu_init st) t1) as (t1 & -> & B1 & S1).
  { destruct mainmenu as [text|]; [|eexists; split; [done|]; split; [done|apply steady_refl]].
    apply add_prompt_builds; [done|by right|set_solver|done]. }
  cbn [mbind result_bind]. destruct (parse_stmts_parsed l t1 B1 (steady_placed _ _ S1 P0)) as (t2 & -> & P2).
  { eapply stmts_ok_names; [|exact Hok]. intros s. split; [apply (st_name _ _ S1)|apply (st_choice _ _ S1)]. }
  cbn [mbind result_bind]. destruct (st_place _ _ S1) as (_ & Em & El). pose proof (steady_len _ _ S1) as Hlen. cbn in Em, El, Hlen.
  assert (repr (menus t2) None None (FCons 0 (forest_of 1 l) FNil) (Some 0%nat)) as R2.
  { split; [done|]. exists None, (fhead (forest_of 1 l)). split; [|split; [|done]].
    - rewrite (pa_lk _ _ _ P2) by lia. unfold lk_set. rewrite El, Hlen. cbn [slot_of]. rewrite decide_True, (st_lk _ _ S1) by done. done.
    - pose proof (pa_repr _ _ _ P2) as Hr. by rewrite Em, Hlen in Hr. }
  assert (m_sym <$> menus t2 = None :: stmt_syms l) as Y2 by (by rewrite (pa_syms _ _ _ P2), (steady_syms _ _ S1)).
  pose proof (pa_building _ _ _ P2) as B2. pose proof (parsed_len _ _ _ P2) as Hlen2.
  unfold menu_has_prompt, menu_at. destruct (lookup_lt_is_Some_2 (menus t2) rootmenu) as [n Hn]; [unfold rootmenu; lia|].
  rewrite Hn. cbn [of_option mbind result_bind]. case_bool_decide; [exists t2; split_and!; try done; by apply building_ok|].
  assert (building None (set_entry rootmenu t2)) as B3 by (destruct B2; split; try done; cbn; unfold rootmenu; lia).
  destruct (add_prompt_builds None P_MENU (cs "Main menu") NULL (set_entry rootmenu t2) B3) as (t3 & -> & B4 & S4);
    [by right|set_solver|done|]. exists t3. split; [done|]. split; [by apply building_ok|]. split.
  - apply (repr_frame (menus t2)); [|done]. intros y _. apply (st_lk _ _ S4).
  - by rewrite (steady_syms _ _ S4).
Qed.

(** The root has a prompt. *)
Lemma add_prompt_root ty text t t' : current_entry t = rootmenu → menu_add_prompt ty text NULL t = Ret t' → ty = P_MENU →
  ∃ n p, menus t' !! rootmenu = Some n ∧ m_prompt n = Some p.
Proof.
  intros Hc E ->. unfold menu_add_prompt, menu_add_prop, menu_at in E. rewrite Hc in E.
  destruct (menus t !! rootmenu) as [n|] eqn:Hn; [|done]. cbn [of_option mbind result_bind] in E.
  set (t1 := warn_if _ _ _) in E. assert (menus t1 = menus t ∧ current_entry t1 = rootmenu) as [Em Ec].
  { unfold t1, warn_if. by destruct (isspace _). }
  rewrite Ec, Em, Hn in E. cbn [of_option mbind result_bind] in E. set (t2 := warn_if _ (W_prompt_redefined _) _) in E.
  assert (menus t2 = menus t ∧ current_entry t2 = rootmenu) as [Em2 Ec2].
  { unfold t2, warn_if. by destruct (bool_decide _). }
  cbn in E. injection E as <-. eexists _, _. cbn. rewrite Ec2, Em2, list_lookup_alter_eq, Hn. done.
Qed.
Lemma parse_file_prompt mainmenu l st t : parse_file mainmenu l st = Ret t →
  ∃ n p, menus t !! rootmenu = Some n ∧ m_prompt n = Some p.
Proof.
  unfold parse_file. destruct (match mainmenu with Some _ => _ | None => _ end) as [t1|]; [|done]. cbn [mbind result_bind].
  destruct (parse_stmts l t1) as [t2|]; [|done]. cbn [mbind result_bind]. unfold menu_has_prompt, menu_at.
  destruct (menus t2 !! rootmenu) as [n|] eqn:Hn; [|done]. cbn [of_option mbind result_bind]. case_bool_decide as Hb.
  - intros [= <-]. destruct Hb as [p Hp]. by exists n, p.
  - intros E. by apply (add_prompt_root P_MENU (cs "Main menu") (set_entry rootmenu t2)).
Qed.

Lemma conf_parse_ok mainmenu l st : stmts_ok st l →
  ∃ t k, conf_parse mainmenu l st = Ret t ∧
    repr (menus t) None None (FCons rootmenu k FNil) (Some rootmenu) ∧
    pre k = seq 1 (entries l) ∧ (λ m, menus t !! m ≫= m_sym) <$> pre k = stmt_syms l ∧
    (∃ n p, menus t !! rootmenu = Some n ∧ m_prompt n = Some p) ∧ (∀ n, menus t !! rootmenu = Some n → m_sym n = None) ∧
    length (menus t) = S (entries l).
Proof.
  intros Hok. destruct (parse_file_order mainmenu l st Hok) as (t1 & E & O1 & R1 & Y1). unfold conf_parse. rewrite E.
  cbn [mbind result_bind].
  destruct (menu_finalize_order t1 None rootmenu (forest_of 1 l) O1) as (t2 & k & -> & Hs & R2 & P2); [|done|].
  { cbn [pre]. rewrite app_nil_r, pre_forest. apply (NoDup_seq 0 (S (entries l))). }
  exists t2, k. split; [done|]. split; [done|]. rewrite P2, pre_forest. split; [done|]. split; [|split; [|split]].
  4: { rewrite (sm_len _ _ Hs), <- (length_fmap m_sym), Y1. cbn. by rewrite stmt_syms_len. }
  2, 3: destruct (parse_file_prompt mainmenu l st t1 E) as (n & p & Hn & Hp); pose proof (sm_menu _ _ Hs rootmenu) as Em;
    rewrite Hn in Em; destruct (menus t2 !! rootmenu) as [n2|] eqn:Hn2; [|done]; injection Em as Es Ep.
  2: { exists n2, p. by rewrite Ep. }
  2: { intros n' [= <-]. rewrite Es. pose proof (f_equal (lookup 0%nat) Y1) as Y0. rewrite list_lookup_fmap in Y0. unfold rootmenu in Hn.
    rewrite Hn in Y0. by injection Y0. }
  apply list_eq. intros i. rewrite list_lookup_fmap. destruct (decide (i < entries l)%nat) as [Hi|Hi].
  - rewrite lookup_seq_lt by done. cbn [fmap option_fmap option_map]. change (stmt_syms l !! i) with ((None :: stmt_syms l) !! S i).
    rewrite <- Y1, list_lookup_fmap. pose proof (sm_menu _ _ Hs (1 + i)) as Em. cbn [Nat.add] in *.
    assert (is_Some (menus t1 !! S i)) as [n Hn].
    { apply lookup_lt_is_Some. rewrite <- (length_fmap m_sym), Y1. cbn. rewrite stmt_syms_len. lia. }
    rewrite Hn in *. destruct (menus t2 !! S i) as [n2|]; [|done]. injection Em as Em _. cbn. by rewrite Em.
  - rewrite lookup_seq_ge, lookup_ge_None_2 by (rewrite ?stmt_syms_len; lia). done.
Qed.

(** C29: for statements that the grammar accepts, [conf_parse] returns; every
    entry of the files is then found below the root exactly once, and the
    entries of the completed tree, read from top to bottom, are in the order
    in which the files have them, each with its symbol.  Submenus that
    [menu_finalize] makes, and blocks that it dissolves, never lose, repeat or
    reorder an entry. *)
Theorem parse_order mainmenu l st : stmts_ok st l →
  ∃ t k, conf_parse mainmenu l st = Ret t ∧
    repr (menus t) None None (FCons rootmenu k FNil) (Some rootmenu) ∧
    pre k = seq 1 (entries l) ∧ (λ m, menus t !! m ≫= m_sym) <$> pre k = stmt_syms l.
Proof.
  intros Hok. destruct (conf_parse_ok mainmenu l st Hok) as (t & k & E & R & P & Y & _). by exists t, k.
Qed.

(** ** An example *)

Module DemoTree.
Definition sym_named (s : string) (fl : Z) : ksym :=
  KSym (Some (cs s)) S_UNKNOWN fl (Val VNull no) (Val VNull no) no [] (EVal NULL no) (EVal NULL no) (EVal NULL no).
(** FOO, BAR, BAZ, a choice of ONE and TWO, and SUB. *)
Definition st : state :=
  State [sym_named "FOO" 0; sym_named "BAR" 0; sym_named "BAZ" 0;
         KSym None S_UNKNOWN SYMBOL_CHOICE (Val VNull no) (Val VNull no) no [] (EVal NULL no) (EVal NULL no) (EVal NULL no);
         sym_named "ONE" 0; sym_named "TWO" 0; sym_named "SUB" 0] ∅ no symbol_no false.
Definition bool_ (text : string) : list opt := [O_prompt (cs text) NULL; O_type S_BOOLEAN].
Definition file : stmts :=
  S_config true (Sym 0) (bool_ "foo")
   (S_config false (Sym 1) (bool_ "bar" ++ [O_depends (SYMBOL (Sym 0)); O_select (Sym 2) NULL])
   (S_if (SYMBOL (Sym 1))
      (S_config false (Sym 2) [O_default S_BOOLEAN (SYMBOL symbol_yes) NULL] S_nil)
   (S_choice (Sym 3) [O_prompt (cs "one of") NULL; O_default S_UNKNOWN (SYMBOL (Sym 5)) NULL]
      (S_config false (Sym 4) (bool_ "one") (S_config false (Sym 5) (bool_ "two") S_nil))
   (S_menu (cs "more") [O_visible (SYMBOL (Sym 0))]
      (S_comment (cs "a comment") [] (S_config false (Sym 6) (bool_ "sub") S_nil)) S_nil)))).
(** The entries with what is next, up and down. *)
Definition links (r : result tree) : list (option nat * option nat * option nat) :=
  match r with Ret t => (λ n, (m_next n, m_parent n, m_list n)) <$> menus t | Fault _ => [] end.
End DemoTree.

(** BAR becomes the submenu of FOO, and the "if" that of BAR; the entry of the "if"
    goes up next to it. *)
Example demo_tree : DemoTree.links (conf_parse None DemoTree.file DemoTree.st) =
  [(None, None, Some 1%nat);
   (Some 5%nat, Some 0%nat, Some 2%nat); (None, Some 1%nat, Some 3%nat); (Some 4%nat, Some 2%nat, None); (None, Some 2%nat, None);
   (Some 8%nat, Some 0%nat, Some 6%nat); (Some 7%nat, Some 5%nat, None); (None, Some 5%nat, None);
   (None, Some 0%nat, Some 9%nat); (Some 10%nat, Some 8%nat, None); (None, Some 8%nat, None)].
Proof. vm_compute. reflexivity. Qed.

Lemma parse_order_witness : ∃ t k, conf_parse None DemoTree.file DemoTree.st = Ret t ∧
  repr (menus t) None None (FCons rootmenu k FNil) (Some rootmenu) ∧ pre k = seq 1 10 ∧
  (λ m, menus t !! m ≫= m_sym) <$> pre k = stmt_syms DemoTree.file.
Proof.
  apply (parse_order None DemoTree.file DemoTree.st). cbn.
  repeat match goal with
    | |- dep_ok NULL => by right
    | |- opt_ok _ _ _ => cbn [opt_ok]
    | |- _ => split || constructor
    end; try discriminate; intros ? [= <-]; eexists; reflexivity.
Defined.

End KconfigParseProps.
