(* ===== verification/KconfigWrite.v ===== *)
(** * Writing configuration files (scripts/config/confdata.c)

    [conf_write] and [conf_write_defconfig] walk over the menu tree by its
    pointers and write the symbols of the entries they meet.  The tree is that
    of KconfigTree; the symbols, with the properties that the tree has given
    them, are a state of KconfigSym.  Files are lists of bytes; opening,
    writing and renaming them succeeds. *)

From S2P Require Import Prelude CLib KconfigExpr KconfigSym KconfigSet KconfigConf KconfigTree.
Open Scope Z_scope.

Module KconfigWrite.
Import KconfigExpr KconfigSym KconfigSet KconfigConf KconfigTree.

Definition SYMBOL_WRITTEN : Z := 0x0800.

(** The symbols with the properties of the tree: [sym->prop] for the
    calculation of values. *)
Definition sym_props (s : symbol) (t : tree) : list property :=
  (λ q, Prop_ (mp_type q) (bool_decide (is_Some (mp_text q))) (mp_visible q) (mp_expr q))
    <$> omap (λ p, props t !! p) (owned s t).
Definition symbols (t : tree) : state :=
  set_syms (imap (λ i k, KSym (k_name k) (k_type k) (k_flags k) (k_curr k) (k_user k) (k_visible k)
                           (sym_props (Sym i) t) (k_dir k) (k_rev k) (k_imp k)) (syms (t_st t))) (t_st t).

(** ** Menus (menu.c) *)

(** For an entry without a symbol: confdata.c asks for no other. *)
Definition menu_is_visible (m : nat) (t : tree) (st : state) : result (bool * state) :=
  mn ← menu_at m t;
  match m_prompt mn with
  | None => Ret (false, st)
  | Some p =>
      '(v, st) ← match m_visibility mn with NULL => Ret (yes, st) | e => eval sym_calc_value e st end;
      if decide (v = no) then Ret (false, st)
      else
        q ← prop_at p t;
        '(v, st) ← eval sym_calc_value (mp_visible q) st;
        Ret (negb (bool_decide (v = no)), st)
  end.
Definition menu_get_prompt (m : nat) (t : tree) (st : state) : result (option (list Z)) :=
  mn ← menu_at m t;
  match m_prompt mn, m_sym mn with
  | Some p, _ => q ← prop_at p t; Ret (mp_text q)
  | None, Some s => Ret (k_name (ks st s))
  | None, None => Ret None
  end.

(** ** The walk

    After an entry comes the first one below it, else the one after it, else
    the one after the first of the entries above it that has one. *)
Section walk.
Context {S : Type} (t : tree) (visit leave : nat → S → result S).

Fixpoint climb (n : nat) (p : option nat) (a : S) : result (option nat * S) :=
  match p with
  | None => Ret (None, a)
  | Some p =>
      match n with
      | O => Fault OutOfFuel
      | Datatypes.S n =>
          a ← leave p a;
          pn ← menu_at p t;
          match m_next pn with
          | Some x => Ret (Some x, a)
          | None => climb n (m_parent pn) a
          end
      end
  end.
Fixpoint walk (n : nat) (p : option nat) (a : S) : result S :=
  match p with
  | None => Ret a
  | Some m =>
      match n with
      | O => Fault OutOfFuel
      | Datatypes.S n =>
          a ← visit m a;
          mn ← menu_at m t;
          match m_list mn, m_next mn with
          | Some x, _ => walk n (Some x) a
          | None, Some x => walk n (Some x) a
          | None, None => '(x, a) ← climb (length (menus t)) (m_parent mn) a; walk n x a
          end
      end
  end.
(** From the first entry below the root. *)
Definition walk_all (a : S) : result S :=
  root ← menu_at rootmenu t;
  walk (length (menus t)) (m_list root) a.
End walk.

(** ** [conf_write] *)

(** What has been written, and [need_newline]. *)
Record out := Out { o_text : list Z; o_st : state; o_newline : bool }.

Definition conf_write_heading (t : tree) : result (list Z) :=
  root ← menu_at rootmenu t;
  p ← of_option NullDeref (m_prompt root);
  q ← prop_at p t;
  text ← of_option NullDeref (mp_text q);
  let buf := take 255 ([10] ++ cs "Automatically generated file; DO NOT EDIT." ++ [10] ++ text ++ [10]) in
  Ret (kconfig_print_comment buf).

Definition write_menu (m : nat) (t : tree) (o : out) : result out :=
  '(b, st) ← menu_is_visible m t (o_st o);
  if b : bool then
    str ← menu_get_prompt m t st;
    str ← of_option NullDeref str;
    Ret (Out (o_text o ++ [10] ++ cs "#" ++ [10] ++ cs "# " ++ str ++ [10] ++ cs "#" ++ [10]) st false)
  else Ret (Out (o_text o) st (o_newline o)).
Definition write_symbol (s : symbol) (o : out) : result out :=
  let st := o_st o in
  if has SYMBOL_CHOICE (ks st s) || has SYMBOL_WRITTEN (ks st s) then Ret o
  else
    st ← sym_calc_value s st;
    if negb (has SYMBOL_WRITE (ks st s)) then Ret (Out (o_text o) st (o_newline o))
    else
      let text := o_text o ++ (if o_newline o then [10] else []) in
      '(line, st) ← conf_write_symbol s false (upd s (raise SYMBOL_WRITTEN) st);
      Ret (Out (text ++ line) st false).
Definition write_entry (t : tree) (m : nat) (o : out) : result out :=
  mn ← menu_at m t;
  match m_sym mn with
  | None => write_menu m t o
  | Some s => write_symbol s o
  end.
Definition write_end (t : tree) (m : nat) (o : out) : result out :=
  mn ← menu_at m t;
  match m_sym mn with
  | Some _ => Ret o
  | None =>
      '(b, st) ← menu_is_visible m t (o_st o);
      if b && negb (bool_decide (m = rootmenu)) then
        str ← menu_get_prompt m t st;
        str ← of_option NullDeref str;
        Ret (Out (o_text o ++ cs "# end of " ++ str ++ [10]) st true)
      else Ret (Out (o_text o) st (o_newline o))
  end.

Definition write_text (t : tree) (st : state) : result (list Z * state) :=
  heading ← conf_write_heading t;
  st ← (if conf_changed st then Ret st else sym_clear_all_valid st);
  o ← walk_all t (write_entry t) (write_end t) (Out heading st false);
  Ret (o_text o, set_syms (lower SYMBOL_WRITTEN <$> syms (o_st o)) (o_st o)).

(** The file and, where it is replaced by a new one, the old one; whether
    the old one is left as it is. *)
Record saved := Saved { sv_file : list Z; sv_old : option (list Z); sv_same : bool }.
(** [over]: KCONFIG_OVERWRITECONFIG is set; [old]: the file there is. *)
Definition conf_write (over : bool) (old : option (list Z)) (t : tree) (st : state) : result (saved * state) :=
  '(text, st) ← write_text t st;
  let st := conf_set_changed false st in
  Ret (if over then Saved text None false
       else if decide (old = Some text) then Saved text None true
       else Saved text old false, st).

(** ** [conf_write_defconfig] *)

(** The value the choice of [s] has anyway. *)
Definition default_choice (s : symbol) (st : state) : result (bool * state) :=
  if sym_is_choice_value st s then
    c ← choice_of st s;
    c ← of_option NullDeref c;
    '(d, st) ← sym_choice_default sym_calc_value c st;
    Ret (negb (has SYMBOL_OPTIONAL (ks st c)) && bool_decide (d = Some s) &&
         bool_decide (k_type (ks st s) = S_BOOLEAN) && bool_decide (tri st s = yes), st)
  else Ret (false, st).
Definition defconfig_symbol (s : symbol) (text : list Z) (st : state) : result (list Z * state) :=
  if sym_is_choice st s then Ret (text, st)
  else
    st ← sym_calc_value s st;
    if negb (has SYMBOL_WRITE (ks st s)) then Ret (text, st)
    else
      let st := upd s (lower SYMBOL_WRITE) st in
      if negb (sym_is_changeable st s) then Ret (text, st)
      else
        '(v, st) ← text_value sym_calc_value s st;
        '(d, st) ← sym_get_string_default s st;
        if strcmp_eq v d then Ret (text, st)
        else
          '(b, st) ← default_choice s st;
          if b : bool then Ret (text, st)
          else
            '(line, st) ← conf_write_symbol s false st;
            Ret (text ++ line, st).
Definition defconfig_entry (t : tree) (m : nat) (a : list Z * state) : result (list Z * state) :=
  mn ← menu_at m t;
  match m_sym mn with
  | None => '(_, st) ← menu_is_visible m t a.2; Ret (a.1, st)
  | Some s => defconfig_symbol s a.1 a.2
  end.
Definition conf_write_defconfig (t : tree) (st : state) : result (list Z * state) :=
  st ← sym_clear_all_valid st;
  walk_all t (defconfig_entry t) (λ _ a, Ret a) ([], st).

End KconfigWrite.
