(* ===== verification/KconfigWriteProps.v ===== *)
(** * Configuration files give back what was written

    The walk of [conf_write] over the pointers of the menu tree is the walk
    over the forest that they form; the file it writes, headings and comments
    included, is read back by [conf_read_simple] with the values of all
    symbols, those of choices included. *)

From S2P Require Import Prelude CLib KconfigExpr KconfigProps KconfigSym KconfigSymProps KconfigSymSpec KconfigSymCalc KconfigSet.
From S2P Require Import KconfigLookup KconfigConf KconfigConfProps KconfigFile KconfigTree KconfigTreeLemmas KconfigTreeProps KconfigParse.
From S2P Require Import KconfigParseProps KconfigWrite.
Open Scope Z_scope.

Module KconfigWriteProps.
Import KconfigExpr KconfigProps KconfigSym KconfigSymProps KconfigSymSpec KconfigSymCalc KconfigSet KconfigLookup KconfigConf KconfigConfProps KconfigFile.
Import KconfigTree KconfigTreeLemmas KconfigTreeProps KconfigParse KconfigParseProps KconfigWrite.

(** ** The walk *)

Lemma result_assoc {A B C} (r : result A) (f : A → result B) (g : B → result C) :
  (x ← (y ← r; f y); g x) = (y ← r; x ← f y; g x).
Proof. by destruct r. Qed.

Section walk.
Context {S : Type} (t : tree) (visit leave : nat → S → result S).

(** Over a forest: an entry, those below it, its end, and the ones after it. *)
Fixpoint tour (f : forest) (a : S) : result S :=
  match f with
  | FNil => Ret a
  | FCons m k r =>
      a ← visit m a;
      a ← match k with FNil => Ret a | _ => a ← tour k a; leave m a end;
      tour r a
  end.

(** [d] entries are above the list of [par]. *)
Fixpoint above (d : nat) (par : option nat) : Prop :=
  match d with
  | O => par = None
  | Datatypes.S d => ∃ p n, par = Some p ∧ menus t !! p = Some n ∧ above d (m_parent n)
  end.
Lemma climb_more d n par a : above d par → (d ≤ n)%nat → climb t leave n par a = climb t leave d par a.
Proof.
  revert n par a. induction d as [|d IH]; intros n par a; cbn.
  - intros -> _. by destruct n.
  - intros (p & pn & -> & Hp & Ha) Hn. destruct n as [|n]; [lia|]. cbn. destruct (leave p a) as [a1|]; [|done].
    cbn [mbind result_bind]. unfold menu_at. rewrite Hp. cbn [of_option mbind result_bind]. destruct (m_next pn); [done|].
    apply IH; [done|lia].
Qed.

Lemma walk_tour f d par p n a : f ≠ FNil → repr (menus t) par None f p → above d par →
  (d + length (pre f) ≤ length (menus t))%nat →
  walk t visit leave (length (pre f) + n) p a =
  (a ← tour f a; '(x, a) ← climb t leave d par a; walk t visit leave n x a).
Proof.
  revert d par p n a. induction f as [|m k IHk r IHr]; intros d par p n a; [done|]. intros _ Hr Ha Hl.
  pose proof Hr as (-> & nx & ls & Lm & Hk & Hrr). cbn [pre length tour] in *. rewrite length_app in Hl.
  replace (Datatypes.S (length (pre k ++ pre r)) + n)%nat with (Datatypes.S (length (pre k) + (length (pre r) + n)))
    by (rewrite length_app; lia). cbn [walk].
  destruct (visit m a) as [a1|]; [|done]. cbn [mbind result_bind]. unfold menu_at. unfold lk in Lm.
  destruct (menus t !! m) as [mn|] eqn:Em; [|done]. injection Lm as En Eu El. cbn [of_option mbind result_bind].
  rewrite En, Eu, El. destruct k as [|y yk yr].
  - cbn in Hk. rewrite Hk. cbn [pre length Nat.add mbind result_bind]. destruct r as [|z zk zr].
    + cbn in Hrr. rewrite Hrr. cbn [tour mbind result_bind pre length Nat.add]. rewrite (climb_more d); [done|done|lia].
    + pose proof Hrr as [E _]. rewrite E in *. apply IHr; [done|done|done|]. cbn [pre length] in *. lia.
  - pose proof Hk as [E _]. rewrite E in *. clear E. rewrite (IHk (Datatypes.S d) (Some m) _ (length (pre r) + n)%nat); [|done|done| |].
    + destruct (tour (FCons y yk yr) a1) as [a2|]; [|done]. cbn [mbind result_bind climb].
      destruct (leave m a2) as [a3|]; [|done]. cbn [mbind result_bind]. unfold menu_at. rewrite Em. cbn [of_option mbind result_bind].
      rewrite En, Eu. destruct r as [|z zk zr].
      * cbn in Hrr. by rewrite Hrr.
      * pose proof Hrr as [E _]. rewrite E in *. apply IHr; [done|done|done|]. cbn [pre length] in *. lia.
    + exists m, mn. by rewrite Eu.
    + lia.
Qed.

(** From the root: what [leave] does at the root comes last. *)
Lemma walk_all_tour k a : NoDup (rootmenu :: pre k) → repr (menus t) None None (FCons rootmenu k FNil) (Some rootmenu) →
  walk_all t visit leave a = match k with FNil => Ret a | _ => a ← tour k a; leave rootmenu a end.
Proof.
  intros Hnd Hr. pose proof (repr_size _ _ _ _ _ Hr) as Hs. cbn [pre] in Hs. rewrite app_nil_r in Hs. specialize (Hs Hnd).
  destruct Hr as (_ & nx & ls & L & Hk & Hn). cbn in Hn. subst nx. unfold walk_all, menu_at. unfold lk in L.
  destruct (menus t !! rootmenu) as [root|] eqn:Er; [|done]. injection L as En Eu El. cbn [of_option mbind result_bind].
  rewrite El. cbn [length] in Hs. destruct k as [|m kk r].
  - cbn in Hk. rewrite Hk. by destruct (length (menus t)).
  - replace (length (menus t)) with (length (pre (FCons m kk r)) + (length (menus t) - length (pre (FCons m kk r))))%nat by lia.
    rewrite (walk_tour (FCons m kk r) 1 (Some rootmenu)); [|done|done| |lia].
    + destruct (tour (FCons m kk r) a) as [a1|]; [|done]. cbn [mbind result_bind climb].
      destruct (leave rootmenu a1) as [a2|]; [|done]. cbn [mbind result_bind]. unfold menu_at. rewrite Er.
      cbn [of_option mbind result_bind]. rewrite En, Eu. cbn [mbind result_bind]. by destruct (_ - _)%nat.
    + exists rootmenu, root. split; [done|]. split; [done|]. cbn. by rewrite Eu.
Qed.
End walk.

(** ** Marking symbols as written *)

Definition mark (w : list symbol) (st : state) : state :=
  set_syms (imap (λ i k, if decide (Sym i ∈ w) then raise SYMBOL_WRITTEN k else k) (syms st)) st.
Lemma state_eq st st' : syms st = syms st' → symbol_hash st = symbol_hash st' → modules_val st = modules_val st' →
  modules st = modules st' → conf_changed st = conf_changed st' → st = st'.
Proof. destruct st, st'; cbn; by intros -> -> -> -> ->. Qed.
Lemma ks_mark w st s : ks (mark w st) s = ks st s ∨ ks (mark w st) s = raise SYMBOL_WRITTEN (ks st s).
Proof.
  destruct s as [| | |n]; [by left..|]. cbn. rewrite !nth_lookup, list_lookup_imap. destruct (syms st !! n); cbn; [|by left].
  case_decide; auto.
Qed.
Lemma has_written w st s : known st s → has SYMBOL_WRITTEN (ks st s) = false → has SYMBOL_WRITTEN (ks (mark w st) s) = bool_decide (s ∈ w).
Proof.
  destruct s as [| | |n]; [done..|]. cbn. intros Hn Hf. rewrite nth_lookup, list_lookup_imap. rewrite nth_lookup in Hf.
  destruct (lookup_lt_is_Some_2 _ _ Hn) as [k Hk]. rewrite Hk in *. cbn in *. case_decide as Hw.
  - rewrite bool_decide_true by done. by apply has_raise_same.
  - by rewrite bool_decide_false.
Qed.
Lemma mark_nil st : mark [] st = st.
Proof.
  apply state_eq; try done. cbn. apply list_eq. intros i. rewrite list_lookup_imap. destruct (syms st !! i); [|done]. cbn.
  by rewrite decide_False by apply not_elem_of_nil.
Qed.
Lemma mark_upd s w st : s ∉ w → upd s (raise SYMBOL_WRITTEN) (mark w st) = mark (w ++ [s]) st.
Proof.
  intros Hs. assert (∀ i, Sym i ∈ w ++ [s] ↔ Sym i ∈ w ∨ Sym i = s) as Hin.
  { intros i. by rewrite elem_of_app, list_elem_of_singleton. }
  assert (∀ i k, (if decide (Sym i ∈ w ++ [s]) then raise SYMBOL_WRITTEN k else k) =
    if decide (Sym i = s) then raise SYMBOL_WRITTEN k else if decide (Sym i ∈ w) then raise SYMBOL_WRITTEN k else k) as Hm.
  { intros i k. case_decide as H1; case_decide as H2; try case_decide as H3; try done; rewrite Hin in H1; tauto. }
  unfold mark. rewrite (imap_ext _ _ (syms st) (λ i k _, Hm i k)).
  apply state_eq; destruct s as [| | |n]; try done; cbn; apply list_eq; intros i; rewrite ?list_lookup_alter, ?list_lookup_imap;
    try (case_decide; subst); destruct (syms st !! _) as [k|]; try done; cbn.
  - rewrite (decide_False (P := Sym i ∈ w)) by done. by rewrite decide_True.
  - rewrite (decide_False (P := Sym i = Sym n)) by congruence. done.
Qed.
Lemma unmark w st : Forall (λ k, has SYMBOL_WRITTEN k = false) (syms st) →
  set_syms (lower SYMBOL_WRITTEN <$> syms (mark w st)) (mark w st) = st.
Proof.
  intros Hf. apply state_eq; try done. cbn. apply list_eq. intros i. rewrite list_lookup_fmap, list_lookup_imap.
  destruct (syms st !! i) as [k|] eqn:Hk; [|done]. cbn. f_equal. pose proof (Forall_lookup_1 _ _ _ _ Hf Hk) as Hb. cbn in Hb.
  assert (k_flags k .& SYMBOL_WRITTEN = 0) as H0 by (unfold has in Hb; by destruct (k_flags k .& SYMBOL_WRITTEN =? 0) eqn:E; [apply Z.eqb_eq in E|]).
  assert (∀ fl, fl .& SYMBOL_WRITTEN = 0 → Z.land fl (Z.lnot SYMBOL_WRITTEN) = fl) as Hl.
  { intros fl E. rewrite <- Z.ldiff_land. rewrite <- (Z.lor_ldiff_and fl SYMBOL_WRITTEN) at 2. by rewrite E, Z.lor_0_r. }
  destruct k as [? ? fl ? ? ? ? ? ? ?]. cbn in H0. case_decide; unfold lower, raise, set_flags; cbn; f_equal; [|by apply Hl].
  rewrite Z.land_lor_distr_l, Hl by done. by rewrite Z.land_lnot_diag, Z.lor_0_r.
Qed.

(** ** Calculated symbols *)

(** Every symbol has been calculated; a text can be read where expressions
    compare one. *)
Definition settled (st : state) : Prop := Forall (λ k, has SYMBOL_VALID k = true ∧ has SYMBOL_WRITTEN k = false) (syms st).
Definition has_text (st : state) (s : symbol) : Prop :=
  match k_type (ks st s), v_val (k_curr (ks st s)) with
  | S_BOOLEAN, _ | S_TRISTATE, _ | _, VStr _ => True
  | _, _ => False
  end.
#[export] Instance has_text_dec st s : Decision (has_text st s).
Proof. unfold has_text. destruct (k_type (ks st s)), (v_val (k_curr (ks st s))); apply _. Defined.
Definition readable (st : state) (e : expr) : Prop := Forall (has_text st) (expr_syms e).

Lemma settled_sym st s : settled st → has SYMBOL_VALID (ks st s) = true ∧ (known st s → has SYMBOL_WRITTEN (ks st s) = false).
Proof.
  intros Hs. destruct s as [| | |n]; [done..|]. cbn. rewrite nth_lookup. destruct (syms st !! n) as [k|] eqn:Hk.
  - pose proof (Forall_lookup_1 _ _ _ _ Hs Hk) as [H1 H2]. done.
  - split; [done|]. intros Hn. apply lookup_ge_None in Hk. lia.
Qed.
Lemma mark_keeps w st s : k_type (ks (mark w st) s) = k_type (ks st s) ∧ k_curr (ks (mark w st) s) = k_curr (ks st s) ∧
  k_name (ks (mark w st) s) = k_name (ks st s).
Proof. by destruct (ks_mark w st s) as [-> | ->]. Qed.
Lemma mark_flag fl w st s : SYMBOL_WRITTEN .& fl = 0 → has fl (ks (mark w st) s) = has fl (ks st s).
Proof. intros Hf. destruct (ks_mark w st s) as [-> | ->]; [done|by apply has_raise_disj]. Qed.
Lemma calc_mark w st s : settled st → sym_calc_value s (mark w st) = Ret (mark w st).
Proof. intros Hs. apply calc_value_valid. unfold valid. rewrite mark_flag by done. by apply settled_sym. Qed.
Lemma text_mark st s : settled st → has_text st s → ∃ x, ∀ w, text_value sym_calc_value s (mark w st) = Ret (x, mark w st).
Proof.
  intros Hs Ht. unfold text_value, has_text in *.
  assert (∀ w s, tri (mark w st) s = tri st s) as Htri by (intros; unfold tri; by destruct (mark_keeps w st s0) as (_ & -> & _)).
  destruct (k_type (ks st s)) eqn:Hty; destruct (v_val (k_curr (ks st s))) as [|x|] eqn:Hv; try done;
    try (exists x; intros w; destruct (mark_keeps w st s) as (-> & -> & _); by rewrite Hty, Hv);
    (destruct (tri st s) eqn:E; eexists; intros w; destruct (mark_keeps w st s) as (-> & _ & _); rewrite Hty, Htri, E;
      rewrite ?calc_mark by done; cbn [mbind result_bind]; rewrite ?Htri; try change (modules (mark w st)) with (modules st); reflexivity).
Qed.
Lemma eval_mark st e : settled st → readable st e → ∃ v, ∀ w, eval sym_calc_value e (mark w st) = Ret (v, mark w st).
Proof.
  intros Hs. unfold readable. induction e as [| |o l IHl r IHr|l IHl|o a b| |s|]; cbn [expr_syms]; intros Hr; try (by eexists).
  - apply Forall_app in Hr as [H1 H2]. destruct (IHl H1) as [v1 E1], (IHr H2) as [v2 E2].
    destruct o; eexists; intros w; cbn [eval]; rewrite E1; cbn [mbind result_bind]; rewrite E2; reflexivity.
  - destruct (IHl Hr) as [v E]. eexists. intros w. cbn [eval]. rewrite E. reflexivity.
  - apply Forall_cons in Hr as [Ha Hr]. apply Forall_cons in Hr as [Hb _].
    destruct (text_mark st a Hs Ha) as [x Ex], (text_mark st b Hs Hb) as [y Ey]. eexists. intros w. cbn [eval].
    rewrite !calc_mark by done. cbn [mbind result_bind]. rewrite calc_mark by done. cbn [mbind result_bind].
    rewrite Ex. cbn [mbind result_bind]. rewrite Ey. cbn [mbind result_bind].
    destruct (mark_keeps w st a) as (-> & _ & _), (mark_keeps w st b) as (-> & _ & _). reflexivity.
  - exists (tri st s). intros w. cbn [eval]. rewrite calc_mark by done. cbn [mbind result_bind]. unfold tri.
    by destruct (mark_keeps w st s) as (_ & -> & _).
Qed.

(** ** Menus *)

(** The conditions of an entry without a symbol can be read, and its text is
    on one line that is not taken for a symbol's. *)
Definition menu_ok (st : state) (t : tree) (n : menu) : Prop :=
  m_sym n = None → readable st (m_visibility n) ∧
  match m_prompt n with
  | None => True
  | Some p => match props t !! p with
              | Some q => readable st (mp_visible q) ∧ match mp_text q with Some x => plain_text x | None => False end
              | None => False
              end
  end.
#[export] Instance menu_ok_dec st t n : Decision (menu_ok st t n).
Proof.
  unfold menu_ok, readable. destruct (m_prompt n) as [p|]; [|apply _]. destruct (props t !! p) as [q|]; [|apply _].
  destruct (mp_text q); apply _.
Defined.
Lemma menu_visible st t m n : settled st → menus t !! m = Some n → m_sym n = None → menu_ok st t n →
  ∃ b, (∀ w, menu_is_visible m t (mark w st) = Ret (b, mark w st)) ∧
    (b = true → ∃ x, plain_text x ∧ ∀ w, menu_get_prompt m t (mark w st) = Ret (Some x)).
Proof.
  intros Hs Hn Hsym Hok. destruct (Hok Hsym) as [Hv Hp]. unfold menu_is_visible, menu_get_prompt, menu_at. rewrite Hn.
  cbn [of_option mbind result_bind]. destruct (m_prompt n) as [p|]; [|by exists false].
  unfold prop_at. destruct (props t !! p) as [q|]; [|done]. destruct Hp as [Hq Ht].
  destruct (eval_mark st _ Hs Hv) as [v1 E1], (eval_mark st _ Hs Hq) as [v2 E2].
  assert (∃ v, ∀ w, match m_visibility n with NULL => Ret (yes, mark w st) | e => eval sym_calc_value e (mark w st) end = Ret (v, mark w st))
    as [v Ev] by (destruct (m_visibility n); eauto).
  exists (negb (bool_decide (v = no)) && negb (bool_decide (v2 = no))). split.
  - intros w. rewrite Ev. cbn [mbind result_bind]. case_decide; [by rewrite (bool_decide_true (v = no))|]. rewrite (bool_decide_false (v = no)) by done.
    cbn [of_option mbind result_bind]. rewrite E2. cbn [mbind result_bind]. reflexivity.
  - intros _. cbn [of_option mbind result_bind]. destruct (mp_text q) as [x|]; [|done]. by exists x.
Qed.

(** ** Writing *)

Section writing.
Context {A : Arch}.

Lemma shown_mark w st s : shown (mark w st) s = shown st s.
Proof. unfold shown, tri. by destruct (mark_keeps w st s) as (-> & -> & _). Qed.
Lemma value_ok_mark w st s : value_ok st s → value_ok (mark w st) s.
Proof.
  unfold value_ok, tri. destruct (mark_keeps w st s) as (-> & -> & _). change (modules (mark w st)) with (modules st).
  rewrite mark_flag by done. by destruct (mark_keeps w st (modules st)) as (_ & -> & _).
Qed.
Lemma write_line_mark w st s n : writable st s n → conf_write_symbol s false (mark w st) = Ret (line_of st s n ++ [10], mark w st).
Proof.
  intros [_ Hn _ _ _ Hv]. unfold conf_write_symbol. rewrite print_shown by (by apply value_ok_mark).
  cbn [mbind result_bind]. destruct (mark_keeps w st s) as (Et & _ & ->). rewrite Hn. cbn [of_option mbind result_bind].
  unfold kconfig_print_symbol, line_of. rewrite Et, shown_mark. destruct (is_unset _ _); by rewrite <- ?app_assoc.
Qed.

(** The symbols that belong in the file. *)
Definition to_save (st : state) (s : symbol) : bool := negb (has SYMBOL_CHOICE (ks st s)) && has SYMBOL_WRITE (ks st s).
Definition add_sym (st : state) (w : list symbol) (o : option symbol) : list symbol :=
  match o with
  | Some s => if to_save st s && negb (bool_decide (s ∈ w)) then w ++ [s] else w
  | None => w
  end.
(** In the order of their first entries. *)
Definition saved_syms (st : state) (l : list (option symbol)) : list symbol := foldl (add_sym st) [] l.
Definition sym_ok (st : state) (s : symbol) : Prop :=
  to_save st s = true → (∃ n, writable st s n) ∧ choice_known st s.

(** [its] has been written. *)
Record wrote (st : state) (its : list item) (o : out) : Prop := {
  wo_st : o_st o = mark (file_syms its) st;
  wo_text : o_text o = file_text st its;
  wo_ok : Forall (item_ok st) its;
  wo_nodup : NoDup (file_syms its)
}.
Lemma wrote_notes st its o l text nl : wrote st its o → Forall ignored l → text = concat ((λ x, x ++ [10]) <$> l) →
  wrote st (its ++ (Note <$> l)) (Out (o_text o ++ text) (mark (file_syms its) st) nl) ∧
  file_syms (its ++ (Note <$> l)) = file_syms its.
Proof.
  intros [E1 E2 E3 E4] Hl ->. assert (file_syms (Note <$> l) = []) as En by (clear; by induction l).
  assert (file_syms (its ++ (Note <$> l)) = file_syms its) as E by (by rewrite file_syms_app, En, app_nil_r).
  split; [|done]. split; cbn; rewrite ?E; try done.
  - rewrite file_text_app, E2. f_equal. unfold file_text. by rewrite <- list_fmap_compose.
  - apply Forall_app. split; [done|]. by apply Forall_fmap.
Qed.
Lemma ignored_text x : plain_text x → ignored (cs "# " ++ x).
Proof. intros Hx. right. right. by exists x. Qed.
Lemma end_plain x : plain_text x → plain_text (cs "end of " ++ x).
Proof.
  intros (H0 & H1 & _). split_and!; [apply not_in_app; [by apply not_in_eval|done]..|done].
Qed.

Context (st : state) (t : tree) (Hs : settled st) (Hm : Forall (menu_ok st t) (menus t)).
Context (Hsym : ∀ m n s, menus t !! m = Some n → m_sym n = Some s → known st s ∧ sym_ok st s).

Lemma write_menu_ok its o m n : wrote st its o → menus t !! m = Some n → m_sym n = None →
  ∃ o' its', write_menu m t o = Ret o' ∧ wrote st its' o' ∧ file_syms its' = file_syms its.
Proof.
  intros Hw Hn Hno. unfold write_menu. rewrite (wo_st _ _ _ Hw).
  destruct (menu_visible st t m n Hs Hn Hno (Forall_lookup_1 _ _ _ _ Hm Hn)) as (b & -> & Hb). cbn [mbind result_bind].
  destruct b.
  - destruct (Hb eq_refl) as (x & Hx & ->). cbn [of_option mbind result_bind]. eexists _, _. split; [done|].
    apply (wrote_notes st its o [[]; cs "#"; cs "# " ++ x; cs "#"]); [done| |].
    + rewrite !Forall_cons. split_and!; [by left|by right; left|by apply ignored_text|by right; left|done].
    + cbn. by rewrite <- !app_assoc.
  - exists (Out (o_text o) (mark (file_syms its) st) (o_newline o)), its. split; [done|]. split; [|done]. by destruct Hw.
Qed.
Lemma write_end_ok its o m n : wrote st its o → menus t !! m = Some n →
  ∃ o' its', write_end t m o = Ret o' ∧ wrote st its' o' ∧ file_syms its' = file_syms its.
Proof.
  intros Hw Hn. unfold write_end, menu_at. rewrite Hn. cbn [of_option mbind result_bind].
  destruct (m_sym n) as [s|] eqn:Hno; [by exists o, its|]. rewrite (wo_st _ _ _ Hw).
  destruct (menu_visible st t m n Hs Hn Hno (Forall_lookup_1 _ _ _ _ Hm Hn)) as (b & -> & Hb). cbn [mbind result_bind].
  destruct (b && negb (bool_decide (m = rootmenu))) eqn:E.
  - apply andb_prop in E as [-> _]. destruct (Hb eq_refl) as (x & Hx & ->). cbn [of_option mbind result_bind].
    eexists _, _. split; [done|]. apply (wrote_notes st its o [cs "# end of " ++ x]); [done| |].
    + apply Forall_singleton. apply (ignored_text (cs "end of " ++ x)), end_plain, Hx.
    + cbn. by rewrite app_nil_r.
  - exists (Out (o_text o) (mark (file_syms its) st) (o_newline o)), its. split; [done|]. split; [|done]. by destruct Hw.
Qed.
Lemma write_symbol_ok its o s : wrote st its o → known st s → sym_ok st s →
  ∃ o' its', write_symbol s o = Ret o' ∧ wrote st its' o' ∧ file_syms its' = add_sym st (file_syms its) (Some s).
Proof.
  intros Hw Hk Hok. unfold write_symbol, add_sym. rewrite (wo_st _ _ _ Hw). rewrite !mark_flag by done.
  rewrite has_written by (done || by apply settled_sym). unfold sym_ok, to_save in *.
  destruct (has SYMBOL_CHOICE (ks st s)); cbn [orb negb andb] in *; [by exists o, its|].
  destruct (bool_decide (s ∈ file_syms its)) eqn:Hin; [rewrite andb_false_r; by exists o, its|].
  apply bool_decide_eq_false in Hin. rewrite calc_mark by done. cbn [mbind result_bind]. rewrite mark_flag by done.
  destruct (has SYMBOL_WRITE (ks st s)); cbn [negb andb] in *.
  2: { exists (Out (o_text o) (mark (file_syms its) st) (o_newline o)), its. split; [done|]. split; [|done]. by destruct Hw. }
  destruct (Hok eq_refl) as [[n Hwr] Hck]. rewrite mark_upd by done. rewrite (write_line_mark _ _ _ n) by done.
  cbn [mbind result_bind]. pose (l := (if o_newline o then [[]] else [] : list (list Z))).
  destruct (wrote_notes st its o l (if o_newline o then [10] else []) false Hw) as [W1 E1].
  { unfold l. destruct (o_newline o); [apply Forall_singleton; by left|done]. } { unfold l. by destruct (o_newline o). }
  eexists _, ((its ++ (Note <$> l)) ++ [Line s]). split; [done|].
  assert (file_syms ((its ++ (Note <$> l)) ++ [Line s]) = file_syms its ++ [s]) as E by (by rewrite file_syms_app, E1).
  split; [|done]. split; cbn [o_st o_text]; rewrite ?E; try done.
  - rewrite file_text_app, <- (wo_text _ _ _ W1). cbn [o_text]. unfold file_text. cbn. rewrite app_nil_r.
    by rewrite <- (writable_name _ _ _ Hwr).
  - apply Forall_app. split; [apply (wo_ok _ _ _ W1)|]. apply Forall_singleton. split; [by exists n|done].
  - apply NoDup_app. split; [apply (wo_nodup _ _ _ Hw)|]. split; [|apply NoDup_singleton].
    intros x Hx. rewrite list_elem_of_singleton. by intros ->.
Qed.

Lemma write_entry_ok its o m n : wrote st its o → menus t !! m = Some n →
  ∃ o' its', write_entry t m o = Ret o' ∧ wrote st its' o' ∧ file_syms its' = add_sym st (file_syms its) (m_sym n).
Proof.
  intros Hw Hn. unfold write_entry, menu_at. rewrite Hn. cbn [of_option mbind result_bind].
  destruct (m_sym n) as [s|] eqn:Es; [|by apply (write_menu_ok its o m n)].
  destruct (Hsym m n s Hn Es). by apply write_symbol_ok.
Qed.

(** Every entry of a forest. *)
Lemma tour_ok f its o : Forall (λ m, (m < length (menus t))%nat) (pre f) → wrote st its o →
  ∃ o' its', tour (write_entry t) (write_end t) f o = Ret o' ∧ wrote st its' o' ∧
    file_syms its' = foldl (add_sym st) (file_syms its) ((λ m, menus t !! m ≫= m_sym) <$> pre f).
Proof.
  revert its o. induction f as [|m k IHk r IHr]; intros its o Hf Hw; [by exists o, its|]. cbn [pre] in Hf.
  apply Forall_cons in Hf as [Hm' Hf]. apply Forall_app in Hf as [Hk Hr]. destruct (lookup_lt_is_Some_2 _ _ Hm') as [n Hn].
  cbn [tour pre]. destruct (write_entry_ok its o m n Hw Hn) as (o1 & i1 & -> & W1 & Y1). cbn [mbind result_bind].
  assert (∃ o2 i2, match k with FNil => Ret o1 | _ => a ← tour (write_entry t) (write_end t) k o1; write_end t m a end = Ret o2 ∧
    wrote st i2 o2 ∧ file_syms i2 = foldl (add_sym st) (file_syms i1) ((λ m, menus t !! m ≫= m_sym) <$> pre k)) as (o2 & i2 & -> & W2 & Y2).
  { destruct k as [|x kx rx]; [by exists o1, i1|]. destruct (IHk i1 o1 Hk W1) as (o2 & i2 & -> & W2 & Y2). cbn [mbind result_bind].
    destruct (write_end_ok i2 o2 m n W2 Hn) as (o3 & i3 & -> & W3 & Y3). exists o3, i3. by rewrite Y3. }
  cbn [mbind result_bind]. destruct (IHr i2 o2 Hr W2) as (o3 & i3 & -> & W3 & Y3). exists o3, i3. split; [done|]. split; [done|].
  rewrite Y3, Y2, Y1. rewrite fmap_cons, fmap_app. cbn [foldl]. rewrite foldl_app, Hn. done.
Qed.

(** ** The heading *)

Lemma comment_lines_nl cur a b : 10 ∉ a → comment_lines cur (a ++ 10 :: b) = (cur ++ a) :: comment_lines [] b.
Proof.
  revert cur. induction a as [|c a IH]; intros cur; cbn; [by rewrite app_nil_r|]. rewrite not_elem_of_cons. intros [Hc Ha].
  rewrite (proj2 (Z.eqb_neq c 10)) by congruence. rewrite IH by done. by rewrite <- app_assoc.
Qed.
Lemma comment_lines_end cur a : 10 ∉ a → comment_lines cur a = [cur ++ a].
Proof.
  revert cur. induction a as [|c a IH]; intros cur; cbn; [by rewrite app_nil_r|]. rewrite not_elem_of_cons. intros [Hc Ha].
  rewrite (proj2 (Z.eqb_neq c 10)) by congruence. rewrite IH by done. by rewrite <- app_assoc.
Qed.
Lemma comment_ignored l : plain_text l → ∃ x, ignored x ∧ comment_line (cs "#") l = x ++ [10].
Proof.
  intros Hl. unfold comment_line. case_decide; [exists (cs "#"); split; [by right; left|done]|].
  exists (cs "# " ++ l). split; [by apply ignored_text|done].
Qed.
Lemma comment_notes l : Forall plain_text l →
  ∃ x, Forall ignored x ∧ concat (comment_line (cs "#") <$> l) = concat ((λ y, y ++ [10]) <$> x).
Proof.
  induction 1 as [|a l Ha _ (x & Hx & E)]; [by exists []|]. destruct (comment_ignored a Ha) as (y & Hy & Ey).
  exists (y :: x). split; [by constructor|]. rewrite !fmap_cons. cbn [concat]. by rewrite Ey, E.
Qed.
Lemma strip_prefix_take p n x : strip_prefix p x = None → strip_prefix p (take n x) = None.
Proof.
  revert n x. induction p as [|a p IH]; intros n x; [done|]. destruct n as [|n]; [done|]. destruct x as [|b x]; cbn; [done|].
  destruct (a =? b); [apply IH|done].
Qed.
Lemma plain_take n x : plain_text x → plain_text (take n x).
Proof.
  intros (H0 & H1 & H2). split_and!; [intros Hi|intros Hi|by apply strip_prefix_take]; apply elem_of_take in Hi as (i & Hi & _);
    apply list_elem_of_lookup_2 in Hi; done.
Qed.
Lemma heading_ok : (∃ n p, menus t !! rootmenu = Some n ∧ m_prompt n = Some p) →
  (∀ n, menus t !! rootmenu = Some n → m_sym n = None) →
  ∃ text l, conf_write_heading t = Ret text ∧ Forall ignored l ∧ text = concat ((λ x, x ++ [10]) <$> l).
Proof.
  intros (n & p & Hn & Hp) Hno. destruct (Forall_lookup_1 _ _ _ _ Hm Hn (Hno n Hn)) as [_ Hq]. rewrite Hp in Hq.
  unfold conf_write_heading, menu_at, prop_at. rewrite Hn. cbn [of_option mbind result_bind]. rewrite Hp. cbn [of_option mbind result_bind].
  destruct (props t !! p) as [q|]; [|done]. cbn [of_option mbind result_bind]. destruct Hq as [_ Hx].
  destruct (mp_text q) as [x|]; [|done]. cbn [of_option mbind result_bind]. eexists. unfold kconfig_print_comment.
  set (title := cs "Automatically generated file; DO NOT EDIT.").
  assert (take 255 ([10] ++ title ++ [10] ++ x ++ [10]) = [] ++ 10 :: title ++ 10 :: take 211 (x ++ [10])) as -> by done.
  rewrite comment_lines_nl by apply not_elem_of_nil. rewrite comment_lines_nl by (by apply not_in_eval). cbn [app].
  assert (plain_text [] ∧ plain_text title) as [Pn Pt] by (split; apply (bool_decide_unpack _); vm_compute; exact I).
  destruct (comment_notes ([] :: title :: comment_lines [] (take 211 (x ++ [10])))) as (l & Hl & E).
  - constructor; [done|]. constructor; [done|]. destruct (decide (211 ≤ length x)%nat) as [Hlen|Hlen].
    + rewrite take_app_le by done. rewrite comment_lines_end by apply (plain_take 211 x Hx). apply Forall_singleton, plain_take, Hx.
    + rewrite take_ge by (rewrite length_app; cbn; lia). rewrite comment_lines_nl by apply Hx.
      constructor; [done|]. by apply Forall_singleton.
  - by exists l.
Qed.

End writing.

Lemma write_text_ok {A : Arch} mainmenu l st0 t st :
  stmts_ok st0 l → conf_parse mainmenu l st0 = Ret t → settled st → conf_changed st = true →
  Forall (menu_ok st t) (menus t) → Forall (from_option (λ s, known st s ∧ sym_ok st s) True) (stmt_syms l) →
  ∃ its, write_text t st = Ret (file_text st its, st) ∧ Forall (item_ok st) its ∧ NoDup (file_syms its) ∧
    file_syms its = saved_syms st (stmt_syms l).
Proof.
  intros Hok Et Hs Hch Hm Hsy. destruct (conf_parse_ok mainmenu l st0 Hok) as (t' & k & E' & R & P & Y & Hroot & Hno & Hlen).
  assert (t' = t) as -> by congruence. clear E'.
  assert (∀ m n s, menus t !! m = Some n → m_sym n = Some s → known st s ∧ sym_ok st s) as Hsym.
  { intros m n s Hn Es. assert (Some s ∈ stmt_syms l) as Hin.
    { rewrite <- Y, P. apply list_elem_of_fmap. exists m. rewrite Hn. split; [by cbn; rewrite Es|]. apply elem_of_seq.
      apply lookup_lt_Some in Hn as Hlt. destruct m as [|m]; [|lia]. pose proof (Hno n Hn). congruence. }
    by apply (proj1 (Forall_forall _ _) Hsy (Some s) Hin). }
  destruct (heading_ok st t Hm Hroot Hno) as (text & notes & Eh & Hnotes & ->).
  unfold write_text. rewrite Eh, Hch. cbn [mbind result_bind].
  destruct (wrote_notes st [] (Out [] st false) notes _ false ltac:(split; [by rewrite mark_nil|done|done|apply NoDup_nil_2]) Hnotes eq_refl) as [W0 Y0].
  change (file_syms []) with (@nil symbol) in W0, Y0. cbn [app o_text] in W0, Y0. rewrite mark_nil in W0.
  assert (Forall (λ m, (m < length (menus t))%nat) (pre k)) as Hin.
  { apply Forall_forall. intros m. rewrite P, elem_of_seq. lia. }
  rewrite (walk_all_tour t _ _ k); [|rewrite P; apply (NoDup_seq 0 (S (entries l)))|done].
  assert (∃ o its, match k with FNil => Ret (Out (concat ((λ x, x ++ [10]) <$> notes)) st false)
      | _ => a ← tour (write_entry t) (write_end t) k (Out (concat ((λ x, x ++ [10]) <$> notes)) st false); write_end t rootmenu a end = Ret o ∧
    wrote st its o ∧ file_syms its = saved_syms st (stmt_syms l)) as (o & its & -> & W & Yf).
  { destruct (tour_ok st t Hs Hm Hsym k _ _ Hin W0) as (o1 & i1 & E1 & W1 & Y1). rewrite Y in Y1.
    assert (file_syms i1 = saved_syms st (stmt_syms l)) as Y1' by (rewrite Y1, Y0; done).
    destruct Hroot as (rn & _ & Hrn & _). destruct k as [|x kx rx].
    - cbn in E1. injection E1 as <-. by exists (Out (concat ((λ x, x ++ [10]) <$> notes)) st false), i1.
    - rewrite E1. cbn [mbind result_bind]. destruct (write_end_ok st t Hs Hm i1 o1 rootmenu rn W1 Hrn) as (o2 & i2 & -> & W2 & Y2).
      exists o2, i2. by rewrite Y2. }
  cbn [mbind result_bind]. exists its. split; [|split; [apply (wo_ok _ _ _ W)|split; [apply (wo_nodup _ _ _ W)|done]]].
  rewrite (wo_st _ _ _ W), (wo_text _ _ _ W). rewrite unmark; [done|]. eapply Forall_impl; [exact Hs|]. by intros k0 [_ ?].
Qed.

(** ** The round trip *)

Lemma item_ok_changed {A : Arch} b st i : item_ok st i → item_ok (conf_set_changed b st) i.
Proof. destruct i as [l|s]; [done|]. intros [[n [H1 H2 H3 H4 H5 H6]] Hc].
  split; [exists n; split; [exact H1|exact H2|exact H3| |exact H5|exact H6]|exact Hc].
  rewrite <- H4. by apply sym_find_ext.
Qed.

(** C28: A configuration file gives back what was written: let the menu tree be
    that of accepted Kconfig files, all symbols calculated and the configuration
    marked as changed (otherwise [conf_write] calculates anew before it writes),
    the values of the symbols such that a file can hold them, at most one value
    of a choice y, the conditions of menus and comments such that they can be
    evaluated, and their texts single lines that do not begin with "CONFIG_" (a
    comment "CONFIG_FOO is not set" is read back as a line about FOO).  Then [conf_write] returns, and leaves the symbols as they are; the
    file, headings and ends of menus included, is read by [conf_read_simple]
    without a warning; every symbol that belongs in the file, once and in the
    order of the Kconfig files, has the value it was written with as its user
    value, no other symbol has one, and the user value of a choice is the
    value that is y. *)
Theorem config_roundtrip {A : Arch} mainmenu l st0 t st over old :
  stmts_ok st0 l → conf_parse mainmenu l st0 = Ret t → settled st → conf_changed st = true →
  Forall (menu_ok st t) (menus t) → Forall (from_option (λ s, known st s ∧ sym_ok st s) True) (stmt_syms l) →
  exclusive st (saved_syms st (stmt_syms l)) →
  ∃ file its st', conf_write over old t st = Ret (file, conf_set_changed false st) ∧
    sv_file file = file_text st its ∧ file_syms its = saved_syms st (stmt_syms l) ∧
    conf_read_simple (Some (sv_file file)) (conf_set_changed false st) = Ret (false, Conf st' 0) ∧
    (∀ s, known st s → sym_is_choice st s = false →
       user_val st' s = (if decide (s ∈ saved_syms st (stmt_syms l)) then read_back st s else Val VNull no) ∧
       has SYMBOL_DEF_USER (ks st' s) = bool_decide (s ∈ saved_syms st (stmt_syms l))) ∧
    (∀ c d, known st c → sym_is_choice st c = true → d ∈ saved_syms st (stmt_syms l) → of_choice st c d = true →
       v_tri (read_back st d) = yes → user_val st' c = Val (VSym d) yes).
Proof.
  intros Hok Et Hs Hch Hm Hsy He. destruct (write_text_ok mainmenu l st0 t st Hok Et Hs Hch Hm Hsy) as (its & Ew & Hi & Hnd & Y).
  rewrite <- Y in *. unfold conf_write. rewrite Ew. cbn [mbind result_bind].
  destruct (read_file (conf_set_changed false st) its Hnd He (Forall_impl _ _ _ Hi (item_ok_changed false st))) as ([st' w] & Er & Hr).
  pose proof (rd_warn _ _ _ Hr) as Hw. cbn in Hw. subst w.
  eexists _, its, st'. split; [done|]. split; [destruct over; [done|by case_decide]|]. split; [done|]. split; [|split].
  - destruct over; [exact Er|]. case_decide; exact Er.
  - intros s Hk Hc. exact (rd_user _ _ _ Hr s Hk Hc).
  - intros c d Hk Hc Hd Hof Hy. etrans; [apply (rd_choice _ _ _ Hr c Hk Hc)|]. exact (picked_yes st c _ d He Hnd Hd Hof Hy).
Qed.

(** ** An example *)

(** The file of KconfigParseProps, with FOO set to y by the user. *)
Module DemoFile.
Definition names : list (option (list Z) * Z) :=
  [(Some (cs "FOO"), 0); (Some (cs "BAR"), 0); (Some (cs "BAZ"), 0); (None, SYMBOL_CHOICE);
   (Some (cs "ONE"), 0); (Some (cs "TWO"), 0); (Some (cs "SUB"), 0)].
Definition st0 : state :=
  Eval vm_compute in foldl (λ st n, (@sym_lookup x86_64 n.1 n.2 st).2) empty_table names.
Definition get {B} (d : B) (r : result B) : B := match r with Ret x => x | Fault _ => d end.
Definition t : tree := Eval vm_compute in get (_menu_init st0) (conf_parse None DemoTree.file st0).
Definition st : state :=
  Eval vm_compute in
  let st := conf_set_changed true (raise_user (Sym 0) (Val VNull yes) (symbols t)) in
  foldl (λ st s, get st (sym_calc_value s st)) st (symbol_no :: (Sym <$> seq 0 7)).
Definition text : list Z :=
  Eval vm_compute in
  concat ((λ s, cs s ++ [10]) <$>
    ["#"; "# Automatically generated file; DO NOT EDIT."; "# Main menu"; "#"; "CONFIG_FOO=y"; "# CONFIG_BAR is not set";
     "# CONFIG_ONE is not set"; "CONFIG_TWO=y"; ""; "#"; "# more"; "#"; ""; "#"; "# a comment"; "#";
     "# CONFIG_SUB is not set"; "# end of more"]%string).
(** The conditions of the round trip, as they can be computed. *)
Definition sym_good (s : symbol) : Prop :=
  known st s ∧ (to_save st s = true → k_name (ks st s) = Some (name_of st s) ∧ plain (name_of st s) ∧
    @sym_find x86_64 (Some (name_of st s)) st = Some s ∧ sym_is_choice st s = false ∧ value_ok st s ∧ choice_known st s).
Lemma syms_ok : Forall (from_option (λ s, known st s ∧ @sym_ok x86_64 st s) True) (stmt_syms DemoTree.file).
Proof.
  cut (Forall sym_good (omap id (stmt_syms DemoTree.file))).
  - intros H. apply Forall_forall. intros [s|] Hs; [|done]. cbn.
    destruct (proj1 (Forall_forall _ _) H s) as [Hk Hg]; [apply list_elem_of_omap; by exists (Some s)|].
    split; [done|]. intros Hsv. destruct (Hg Hsv) as (? & ? & ? & ? & ? & ?). split; [|done]. exists (name_of st s). by split.
  - unfold sym_good. apply (bool_decide_unpack _). vm_compute. exact I.
Qed.
Lemma choice_ok : exclusive st (saved_syms st (stmt_syms DemoTree.file)).
Proof.
  intros c d d'. change (saved_syms st (stmt_syms DemoTree.file)) with (Sym <$> [0; 1; 4; 5; 6]%nat). cbn.
  intros Hd Hd' Hne Hc Hc' Hy. repeat (apply elem_of_cons in Hd as [-> |Hd]; [|]); try by apply not_elem_of_nil in Hd.
  all: try discriminate Hc; try discriminate Hy.
  repeat (apply elem_of_cons in Hd' as [-> |Hd']; [|]); try by apply not_elem_of_nil in Hd'.
  all: try discriminate Hc'; try done.
Qed.
End DemoFile.

Example demo_write : conf_write false None DemoFile.t DemoFile.st =
  Ret (Saved DemoFile.text None false, conf_set_changed false DemoFile.st).
Proof. vm_compute. reflexivity. Qed.

Lemma config_roundtrip_witness :
  ∃ st', @conf_read_simple x86_64 (Some DemoFile.text) (conf_set_changed false DemoFile.st) = Ret (false, Conf st' 0) ∧
    user_val st' (Sym 3) = Val (VSym (Sym 5)) yes.
Proof.
  destruct (@config_roundtrip x86_64 None DemoTree.file DemoFile.st0 DemoFile.t DemoFile.st false None)
    as (file & its & st' & Ew & _ & _ & Er & _ & Hc).
  - cbn. repeat match goal with
      | |- KconfigProps.dep_ok NULL => by right
      | |- opt_ok _ _ _ => cbn [opt_ok]
      | |- _ => split || constructor
      end; try discriminate; intros ? [= <-]; eexists; reflexivity.
  - reflexivity.
  - apply (bool_decide_unpack _). vm_compute. exact I.
  - reflexivity.
  - apply (bool_decide_unpack _). vm_compute. exact I.
  - exact DemoFile.syms_ok.
  - exact DemoFile.choice_ok.
  - rewrite demo_write in Ew. injection Ew as <-. exists st'. split; [exact Er|].
    apply Hc; [apply (bool_decide_unpack _); vm_compute; exact I|reflexivity| |reflexivity|reflexivity].
    apply (bool_decide_unpack _). vm_compute. exact I.
Defined.

End KconfigWriteProps.
