(* ===== verification/KconfigCheck.v ===== *)
(** * Kconfig: the check for recursive dependencies (scripts/config/symbol.c)

    [sym_check_deps] walks the dependencies of a symbol depth first, with
    SYMBOL_CHECK on the symbols of the current path and SYMBOL_CHECKED on
    those it has seen; the values of a choice are on the path together.  The
    message for a cycle is the symbol it is printed for: the stack that
    collects the text of the message is not modelled.  The built-in constants
    have no dependencies, so that the marks the source puts on them are left
    out. *)

From S2P Require Import Prelude CLib KconfigExpr KconfigSym KconfigLookup KconfigConf.
Open Scope Z_scope.

Module KconfigCheck.
Import KconfigExpr KconfigSym KconfigLookup KconfigConf.

Definition SYMBOL_CHECK : Z := 0x8.
Definition SYMBOL_CHECKED : Z := 0x2000.
Definition checking : Z := SYMBOL_CHECK .| SYMBOL_CHECKED.

(** The symbols and the messages, the last one first. *)
Record chk := Chk { h_st : state; h_reports : list symbol }.
Definition on_syms (f : state → state) (c : chk) : chk := Chk (f (h_st c)) (h_reports c).
(** [sym_check_print_recursive] *)
Definition report (s : symbol) (c : chk) : chk := Chk (h_st c) (s :: h_reports c).

(** What is done next unless a symbol was returned. *)
Definition or_else (r : result (option symbol * chk)) (k : chk → result (option symbol * chk)) :
    result (option symbol * chk) :=
  '(x, c) ← r;
  match x with Some _ => Ret (x, c) | None => k c end.

Section check.
Context (recursive_is_error : bool).
Context (check : symbol → chk → result (option symbol * chk)).

Fixpoint sym_check_expr_deps (e : expr) (c : chk) : result (option symbol * chk) :=
  match e with
  | NULL => Ret (None, c)
  | BIN _ l r => or_else (sym_check_expr_deps l c) (sym_check_expr_deps r)
  | NOT l => sym_check_expr_deps l c
  | COMP _ a b => or_else (check a c) (check b)
  | SYMBOL s => check s c
  | NONE | LIST _ _ | RANGE _ _ => Ret (None, c)
  end.

Definition skipped (p : property) : bool :=
  match p_type p with P_CHOICE | P_SELECT | P_IMPLY => true | _ => false end.
Fixpoint check_props (is_choice : bool) (l : list property) (c : chk) : result (option symbol * chk) :=
  match l with
  | [] => Ret (None, c)
  | p :: l =>
      if skipped p then check_props is_choice l c
      else
        or_else (sym_check_expr_deps (p_visible p) c) (λ c,
          if negb (bool_decide (p_type p = P_DEFAULT)) || is_choice then check_props is_choice l c
          else or_else (sym_check_expr_deps (p_expr p) c) (check_props is_choice l))
  end.
Definition sym_check_sym_deps (s : symbol) (c : chk) : result (option symbol * chk) :=
  let k := ks (h_st c) s in
  or_else (sym_check_expr_deps (ev_expr (k_dir k)) c) (λ c,
  or_else (sym_check_expr_deps (ev_expr (k_rev k)) c) (λ c,
  or_else (sym_check_expr_deps (ev_expr (k_imp k)) c)
          (check_props (has SYMBOL_CHOICE k) (k_props k)))).

Fixpoint check_values_deps (l : list symbol) (c : chk) : result (option symbol * chk) :=
  match l with
  | [] => Ret (None, c)
  | s :: l => or_else (sym_check_sym_deps s c) (check_values_deps l)
  end.
Definition mark_all (f : ksym → ksym) (l : list symbol) (c : chk) : chk :=
  on_syms (λ st, foldl (λ st s, upd s f st) st l) c.
Definition sym_check_choice_deps (choice : symbol) (c : chk) : result (option symbol * chk) :=
  p ← sym_get_choice_prop (h_st c) choice;
  l ← list_syms (p_expr p);
  let c := on_syms (upd choice (raise checking)) (mark_all (raise checking) l c) in
  '(x, c) ← sym_check_sym_deps choice c;
  let c := on_syms (upd choice (lower SYMBOL_CHECK)) c in
  '(x, c) ← or_else (Ret (x, c)) (check_values_deps l);
  let c := mark_all (lower SYMBOL_CHECK) l c in
  match x with
  | Some s2 =>
      if sym_is_choice_value (h_st c) s2 then
        d ← choice_of (h_st c) s2;
        Ret (if decide (d = Some choice) then Some choice else x, c)
      else Ret (x, c)
  | None => Ret (x, c)
  end.

Definition check_body (s : symbol) (c : chk) : result (option symbol * chk) :=
  let k := ks (h_st c) s in
  if has SYMBOL_CHECK k then Ret (Some s, report s c)
  else if has SYMBOL_CHECKED k then Ret (None, c)
  else
    '(x, c) ←
      (if has SYMBOL_CHOICEVAL k then
         d ← choice_of (h_st c) s;
         d ← of_option NullDeref d;
         check d c
       else if has SYMBOL_CHOICE k then sym_check_choice_deps s c
       else
         '(x, c) ← sym_check_sym_deps s (on_syms (upd s (raise checking)) c);
         Ret (x, on_syms (upd s (lower SYMBOL_CHECK)) c));
    Ret (if negb recursive_is_error && bool_decide (x = Some s) then None else x, c).
End check.

Fixpoint check_fuel (rie : bool) (n : nat) (s : symbol) (c : chk) : result (option symbol * chk) :=
  match n with
  | O => Fault OutOfFuel
  | S n => check_body rie (check_fuel rie n) s c
  end.

(** A path holds a symbol once, and a choice after each of its values. *)
Definition unchecked (st : state) : nat :=
  length (filter (λ k, has SYMBOL_CHECKED k = false) (syms st)).
Definition sym_check_deps (rie : bool) (s : symbol) (c : chk) : result (option symbol * chk) :=
  check_fuel rie (2 * unchecked (h_st c) + 2) s c.

(** The loop of [conf_parse]: the number of symbols with an error. *)
Fixpoint check_symbols (rie : bool) (l : list symbol) (n : Z) (c : chk) : result (Z * chk) :=
  match l with
  | [] => Ret (n, c)
  | s :: l =>
      '(x, c) ← sym_check_deps rie s c;
      check_symbols rie l (match x with Some _ => n + 1 | None => n end) c
  end.
Definition check_all (rie : bool) (st : state) : result (Z * chk) :=
  check_symbols rie (all_symbols st) 0 (Chk st []).
End KconfigCheck.
