(* ===== verification/KconfigCheckProps.v ===== *)
(** * Kconfig: the check for recursive dependencies is sound

    The search ends; when it prints no message the symbols can be numbered so
    that dependencies go down, which is what the calculation of values
    ([KconfigSymOrder]) asks for. *)

From S2P Require Import Prelude CLib KconfigExpr KconfigSym KconfigSymProps KconfigSymSpec.
From S2P Require Import KconfigSymCalc KconfigSymOrder KconfigLookup KconfigConf KconfigCheck.
Open Scope Z_scope.

Module KconfigCheckProps.
Import KconfigExpr KconfigSym KconfigSymProps KconfigSymSpec KconfigSymCalc KconfigSymOrder.
Import KconfigLookup KconfigConf KconfigCheck.

(** ** What the search leaves alone *)

Record same_rest (k k' : ksym) : Prop := {
  sr_flags : k' = set_flags (k_flags k') k;
  sr_has : ∀ b, checking .& b = 0 → has b k' = has b k;
  sr_checked : has SYMBOL_CHECKED k = true → has SYMBOL_CHECKED k' = true
}.
Record frame (st st' : state) : Prop := {
  fr_len : length (syms st') = length (syms st);
  fr_hash : symbol_hash st' = symbol_hash st;
  fr_mval : modules_val st' = modules_val st;
  fr_mod : modules st' = modules st;
  fr_changed : conf_changed st' = conf_changed st;
  fr_sym : ∀ s, same_rest (ks st s) (ks st' s)
}.
Lemma same_rest_refl k : same_rest k k.
Proof. constructor; [by destruct k|done|done]. Qed.
Lemma same_rest_trans k1 k2 k3 : same_rest k1 k2 → same_rest k2 k3 → same_rest k1 k3.
Proof.
  intros [F1 H1 C1] [F2 H2 C2]. constructor; [|intros b Hb; by rewrite H2, H1 by done|auto].
  rewrite F2, F1. done.
Qed.
Lemma same_rest_raise k : same_rest k (raise checking k).
Proof.
  constructor; [by destruct k|intros b Hb; by apply has_raise_disj|].
  intros _. unfold has, raise. simpl. apply negb_true_iff, Z.eqb_neq. intros E.
  rewrite Z.land_lor_distr_l in E. by apply Z.lor_eq_0_iff in E as [_ E].
Qed.
Lemma same_rest_lower k : same_rest k (lower SYMBOL_CHECK k).
Proof.
  constructor; [by destruct k| |].
  - intros b Hb. apply has_lower_disj. unfold checking in Hb. rewrite Z.land_lor_distr_l in Hb.
    by apply Z.lor_eq_0_iff in Hb as [-> _].
  - intros H. rewrite has_lower_disj; done.
Qed.
Lemma frame_refl st : frame st st.
Proof. constructor; try done. intros s. apply same_rest_refl. Qed.
Lemma frame_trans st1 st2 st3 : frame st1 st2 → frame st2 st3 → frame st1 st3.
Proof.
  intros [] []. constructor; try congruence. intros s. by eapply same_rest_trans.
Qed.
Lemma frame_upd f s st : (∀ k, same_rest k (f k)) → frame st (upd s f st).
Proof.
  intros Hf. destruct s as [| | |n]; try apply frame_refl.
  constructor; try done; [simpl; by rewrite length_alter|].
  intros s. rewrite ks_upd. case_decide; [apply Hf|apply same_rest_refl].
Qed.
Lemma frame_marks f l st : (∀ k, same_rest k (f k)) → frame st (foldl (λ st s, upd s f st) st l).
Proof.
  intros Hf. revert st. induction l as [|s l IH]; intros st; [apply frame_refl|].
  simpl. eapply frame_trans; [by apply frame_upd|apply IH].
Qed.
Create HintDb kcheck.
#[export] Hint Resolve same_rest_raise same_rest_lower frame_refl frame_upd frame_marks : kcheck.

(** The fields the search reads. *)
Lemma rest_props k k' : same_rest k k' →
  k_props k' = k_props k ∧ k_dir k' = k_dir k ∧ k_rev k' = k_rev k ∧ k_imp k' = k_imp k.
Proof. intros [-> _ _]. done. Qed.
Lemma rest_choice k k' : same_rest k k' →
  has SYMBOL_CHOICE k' = has SYMBOL_CHOICE k ∧ has SYMBOL_CHOICEVAL k' = has SYMBOL_CHOICEVAL k.
Proof. intros [_ H _]. split; by apply H. Qed.
Lemma frame_choice_prop st st' s : frame st st' → sym_get_choice_prop st' s = sym_get_choice_prop st s.
Proof.
  intros H. unfold sym_get_choice_prop. by destruct (rest_props _ _ (fr_sym _ _ H s)) as [-> _].
Qed.
Lemma frame_choice_of st st' s : frame st st' → choice_of st' s = choice_of st s.
Proof. intros H. unfold choice_of. by rewrite (frame_choice_prop _ _ _ H). Qed.

(** ** Messages *)

Section reports.
Context (rie : bool).

(** A run leaves the table but for the marks; it returns a symbol only after a
    message, and always so when recursion is an error. *)
Record run (c : chk) (x : option symbol) (c' : chk) : Prop := {
  ru_frame : frame (h_st c) (h_st c');
  ru_reports : ∃ r, h_reports c' = r ++ h_reports c ∧ (x ≠ None → r ≠ []) ∧
                    (rie = true → x = None → r = [])
}.
Lemma run_refl c : run c None c.
Proof. constructor; [apply frame_refl|]. by exists []. Qed.
Lemma run_trans c c1 x c2 : run c None c1 → run c1 x c2 → run c x c2.
Proof.
  intros [F1 (r1 & E1 & H1 & G1)] [F2 (r2 & E2 & H2 & G2)].
  constructor; [by eapply frame_trans|]. exists (r2 ++ r1). rewrite E2, E1, app_assoc.
  split_and!; [done| |].
  - intros Hx Hr. apply app_eq_nil in Hr as [-> _]. by apply H2.
  - intros Hr Hx. by rewrite G1, G2.
Qed.
Lemma run_marks c f : (∀ st, frame st (f st)) → run c None (on_syms f c).
Proof. intros Hf. constructor; [apply Hf|]. by exists []. Qed.
Lemma run_after c x c' f : (∀ st, frame st (f st)) → run c x c' → run c x (on_syms f c').
Proof. intros Hf [F R]. constructor; [by eapply frame_trans|done]. Qed.

Context (check : symbol → chk → result (option symbol * chk)).
Context (Hcheck : ∀ s c x c', check s c = Ret (x, c') → run c x c').

Lemma or_else_inv r k x c' :
  or_else r k = Ret (x, c') →
  ∃ x1 c1, r = Ret (x1, c1) ∧
    match x1 with Some _ => x = x1 ∧ c' = c1 | None => k c1 = Ret (x, c') end.
Proof.
  unfold or_else. intros H. apply bind_ret_inv in H as ([x1 c1] & E & H). exists x1, c1.
  split; [done|]. destruct x1; by simplify_eq.
Qed.
Lemma or_else_run c r k x c' :
  (∀ x1 c1, r = Ret (x1, c1) → run c x1 c1) →
  (∀ c1, k c1 = Ret (x, c') → run c1 x c') →
  or_else r k = Ret (x, c') → run c x c'.
Proof.
  intros Hr Hk (x1 & c1 & E & H)%or_else_inv. destruct x1 as [s|].
  - destruct H as [-> ->]. auto.
  - eapply run_trans; eauto.
Qed.
Lemma expr_run e c x c' : sym_check_expr_deps check e c = Ret (x, c') → run c x c'.
Proof.
  revert c x c'. induction e; simpl; intros c x c' H; try (simplify_eq; apply run_refl);
    eauto using or_else_run.
Qed.
Lemma props_run b l c x c' : check_props check b l c = Ret (x, c') → run c x c'.
Proof.
  revert c x c'. induction l as [|p l IH]; simpl; intros c x c' H; [simplify_eq; apply run_refl|].
  destruct (skipped p); [eauto|]. revert H. apply or_else_run; [intros; by eapply expr_run|].
  intros c1. destruct (_ || _); [eauto|]. apply or_else_run; [intros; by eapply expr_run|eauto].
Qed.
Lemma sym_run s c x c' : sym_check_sym_deps check s c = Ret (x, c') → run c x c'.
Proof.
  unfold sym_check_sym_deps.
  apply or_else_run; [intros; by eapply expr_run|intros c1].
  apply or_else_run; [intros; by eapply expr_run|intros c2].
  apply or_else_run; [intros; by eapply expr_run|intros c3 H]. by eapply props_run.
Qed.
Lemma values_run l c x c' : check_values_deps check l c = Ret (x, c') → run c x c'.
Proof.
  revert c x c'. induction l as [|s l IH]; simpl; intros c x c' H; [simplify_eq; apply run_refl|].
  revert H. apply or_else_run; [intros; by eapply sym_run|eauto].
Qed.
Lemma run_some c s s' c' : run c (Some s) c' → run c (Some s') c'.
Proof. intros [F (r & E & H & _)]. constructor; [done|]. exists r. split_and!; [done|by intros _; apply H|done]. Qed.
(** The first part of the walk of a choice. *)
Definition choice_walk (choice : symbol) (l : list symbol) (c : chk) : result (option symbol * chk) :=
  '(x, c) ← sym_check_sym_deps check choice
              (on_syms (upd choice (raise checking)) (mark_all (raise checking) l c));
  or_else (Ret (x, on_syms (upd choice (lower SYMBOL_CHECK)) c)) (check_values_deps check l).
Lemma choice_inv s c x c' :
  sym_check_choice_deps check s c = Ret (x, c') →
  ∃ p l x1 c1, sym_get_choice_prop (h_st c) s = Ret p ∧ list_syms (p_expr p) = Ret l ∧
    choice_walk s l c = Ret (x1, c1) ∧ c' = mark_all (lower SYMBOL_CHECK) l c1 ∧
    match x1 with None => x = None | Some _ => x ≠ None end.
Proof.
  unfold sym_check_choice_deps. intros H. apply bind_ret_inv in H as (p & E1 & H).
  apply bind_ret_inv in H as (l & E2 & H). apply bind_ret_inv in H as ([x1 c1] & E3 & H).
  apply bind_ret_inv in H as ([x2 c2] & E4 & H). exists p, l, x2, c2. split_and!; [done|done| | |].
  - unfold choice_walk. by rewrite E3.
  - destruct x2 as [s2|]; [|by simplify_eq]. destruct (sym_is_choice_value _ _); [|by simplify_eq].
    by apply bind_ret_inv in H as (d & _ & [= _ <-]).
  - destruct x2 as [s2|]; [|by simplify_eq]. destruct (sym_is_choice_value _ _); [|by simplify_eq].
    apply bind_ret_inv in H as (d & _ & [= <- _]). by case_decide.
Qed.
Lemma walk_inv s l c x c' :
  choice_walk s l c = Ret (x, c') →
  let c0 := on_syms (upd s (raise checking)) (mark_all (raise checking) l c) in
  ∃ x1 c1, sym_check_sym_deps check s c0 = Ret (x1, c1) ∧
    let c2 := on_syms (upd s (lower SYMBOL_CHECK)) c1 in
    match x1 with
    | Some _ => x = x1 ∧ c' = c2
    | None => check_values_deps check l c2 = Ret (x, c')
    end.
Proof.
  unfold choice_walk. intros H. apply bind_ret_inv in H as ([x1 c1] & E3 & H). exists x1, c1.
  split; [done|]. unfold or_else in H. cbn [mbind result_bind] in H. destruct x1; by simplify_eq.
Qed.
Lemma run_begin s l c : run c None (on_syms (upd s (raise checking)) (mark_all (raise checking) l c)).
Proof. apply run_after; [auto with kcheck|]. apply run_marks. auto with kcheck. Qed.
Lemma walk_run s l c x c' : choice_walk s l c = Ret (x, c') → run c x c'.
Proof.
  intros (x1 & c1 & E & H)%walk_inv.
  assert (run c x1 c1) as R1.
  { eapply run_trans; [apply (run_begin s l c)|by eapply sym_run]. }
  assert (run c x1 (on_syms (upd s (lower SYMBOL_CHECK)) c1)) as R2 by (apply run_after; auto with kcheck).
  destruct x1; [by destruct H as [-> ->]|]. eapply run_trans; [done|by eapply values_run].
Qed.
Lemma choice_run s c x c' : sym_check_choice_deps check s c = Ret (x, c') → run c x c'.
Proof.
  intros (p & l & x1 & c1 & _ & _ & E & -> & Hx)%choice_inv.
  apply run_after; [auto with kcheck|]. apply walk_run in E.
  destruct x1, x; try done. by eapply run_some.
Qed.
Lemma body_run s c x c' : check_body rie check s c = Ret (x, c') → run c x c'.
Proof.
  unfold check_body. destruct (has SYMBOL_CHECK _).
  { intros [= <- <-]. constructor; [apply frame_refl|]. exists [s]. by split_and!. }
  destruct (has SYMBOL_CHECKED _); [intros [= <- <-]; apply run_refl|].
  intros H. apply bind_ret_inv in H as ([x1 c1] & E & [= <- <-]).
  assert (run c x1 c1) as R.
  { destruct (has SYMBOL_CHOICEVAL _); [|destruct (has SYMBOL_CHOICE _)].
    - apply bind_ret_inv in E as (d & _ & E). apply bind_ret_inv in E as (d' & _ & E). eauto.
    - by eapply choice_run.
    - apply bind_ret_inv in E as ([x2 c2] & E & [= <- <-]). apply run_after; [auto with kcheck|].
      eapply run_trans; [|by eapply sym_run]. apply run_marks. auto with kcheck. }
  destruct (negb rie && bool_decide (x1 = Some s)) eqn:E1; [|done].
  apply andb_true_iff in E1 as [Hr%negb_true_iff ->%bool_decide_eq_true].
  destruct R as [F (r & Er & _ & _)]. constructor; [done|]. exists r. split_and!; [done|done|congruence].
Qed.
End reports.
Lemma fuel_run rie n s c x c' : check_fuel rie n s c = Ret (x, c') → run rie c x c'.
Proof.
  revert s c x c'. induction n as [|n IH]; intros s c x c'; [done|]. apply body_run, IH.
Qed.

(** ** The search ends *)

(** The values of a choice. *)
Definition values (st : state) (c : symbol) : list symbol :=
  match sym_get_choice_prop st c ≫= (λ p, list_syms (p_expr p)) with Ret l => l | Fault _ => [] end.

(** Choices and their values refer to each other, and choices are not nested. *)
Record groups_ok (st : state) : Prop := {
  go_value : ∀ v, has SYMBOL_CHOICEVAL (ks st v) = true →
    ∃ c, choice_of st v = Ret (Some c) ∧ has SYMBOL_CHOICE (ks st c) = true ∧ v ∈ values st c;
  go_choice : ∀ c, has SYMBOL_CHOICE (ks st c) = true →
    has SYMBOL_CHOICEVAL (ks st c) = false ∧
    (sym_get_choice_prop st c ≫= λ p, list_syms (p_expr p)) = Ret (values st c) ∧
    NoDup (values st c) ∧
    Forall (λ v, known st v ∧ has SYMBOL_CHOICEVAL (ks st v) = true ∧
                 choice_of st v = Ret (Some c)) (values st c)
}.

Lemma bind_returns {A B} (m : result A) (k : A → result B) :
  returns m = true → (∀ a, m = Ret a → returns (k a) = true) → returns (m ≫= k) = true.
Proof. destruct m as [a|f]; simpl; [auto|done]. Qed.

Abbreviation is_checked k := (has SYMBOL_CHECKED k).
Lemma count_mono (l l' : list ksym) :
  length l' = length l →
  (∀ i, is_checked (nth i l no_sym) = true → is_checked (nth i l' no_sym) = true) →
  (length (filter (λ k, is_checked k = false) l') ≤ length (filter (λ k, is_checked k = false) l))%nat ∧
  (∀ i, (i < length l)%nat → is_checked (nth i l no_sym) = false → is_checked (nth i l' no_sym) = true →
   (length (filter (λ k, is_checked k = false) l') < length (filter (λ k, is_checked k = false) l))%nat).
Proof.
  revert l'. induction l as [|k l IH]; intros [|k' l'] Hlen Hm; try discriminate.
  { split; [done|]. intros i Hi. simpl in Hi. lia. }
  destruct (IH l') as [IH1 IH2]; [simpl in Hlen; lia|intros i; apply (Hm (S i))|].
  pose proof (Hm 0%nat) as H0. simpl in H0. rewrite !filter_cons. split.
  - repeat case_decide; simpl; try lia. destruct (has SYMBOL_CHECKED k); [specialize (H0 eq_refl); congruence|congruence].
  - intros [|i] Hi Hf Ht; simpl in Hf, Ht.
    + rewrite decide_False, decide_True by congruence. simpl. lia.
    + specialize (IH2 i ltac:(simpl in Hi; lia) Hf Ht).
      repeat case_decide; simpl; try lia. destruct (has SYMBOL_CHECKED k); [specialize (H0 eq_refl); congruence|congruence].
Qed.
Lemma unchecked_mono st st' : frame st st' → (unchecked st' ≤ unchecked st)%nat.
Proof.
  intros H. apply count_mono; [apply (fr_len _ _ H)|]. intros i. apply (fr_sym _ _ H (Sym i)).
Qed.
Lemma unchecked_less st st' s :
  frame st st' → known st s → is_checked (ks st s) = false → is_checked (ks st' s) = true →
  (unchecked st' < unchecked st)%nat.
Proof.
  intros H Hs. destruct s as [| | |n]; try done.
  apply count_mono; [apply (fr_len _ _ H)| |done]. intros i. apply (fr_sym _ _ H (Sym i)).
Qed.

(** An unknown symbol has no dependencies. *)
Lemma unknown_deps check st s c :
  ¬ known st s → h_st c = st → sym_check_sym_deps check s c = Ret (None, c).
Proof.
  intros Hk <-. unfold sym_check_sym_deps. destruct s as [| | |n]; try done.
  simpl ks. rewrite nth_overflow by (simpl in Hk; lia). done.
Qed.
Lemma choice_known st s : has SYMBOL_CHOICE (ks st s) = true → known st s.
Proof.
  intros Hc. destruct (decide (known st s)) as [|Hk]; [done|]. destruct s as [| | |n]; try done.
  simpl ks in Hc. rewrite nth_overflow in Hc by (simpl in *; lia). done.
Qed.
Lemma checked_raise s st : known st s → is_checked (ks (upd s (raise checking) st) s) = true.
Proof.
  intros Hk. rewrite ks_upd_same by done. unfold has, raise. simpl.
  apply negb_true_iff, Z.eqb_neq. intros E. rewrite Z.land_lor_distr_l in E.
  by apply Z.lor_eq_0_iff in E as [_ E].
Qed.
Section returns.
Context (rie : bool) (st0 : state) (u : nat) (check : symbol → chk → result (option symbol * chk)).
Context (Hrun : ∀ s c x c', check s c = Ret (x, c') → run rie c x c').
Definition fresh (c : chk) : Prop := frame st0 (h_st c) ∧ (unchecked (h_st c) ≤ u)%nat.
Context (Hrets : ∀ s c, fresh c → returns (check s c) = true).

Lemma fresh_run c x c' : fresh c → run rie c x c' → fresh c'.
Proof.
  intros [F U] [R _]. split; [by eapply frame_trans|]. pose proof (unchecked_mono _ _ R). lia.
Qed.
Lemma or_else_returns c r k :
  fresh c → returns r = true → (∀ x1 c1, r = Ret (x1, c1) → run rie c x1 c1) →
  (∀ c1, fresh c1 → returns (k c1) = true) → returns (or_else r k) = true.
Proof.
  intros Hc Hr Hx Hk. unfold or_else. destruct r as [[[s|] c1]|f]; [done| |done].
  simpl. apply Hk. eapply fresh_run; [done|by apply Hx].
Qed.
Lemma expr_returns e c : fresh c → returns (sym_check_expr_deps check e c) = true.
Proof.
  revert c. induction e; simpl; intros c Hc; auto; try done.
  - eapply or_else_returns; eauto. intros. by eapply expr_run.
  - eapply or_else_returns; eauto.
Qed.
Lemma props_returns b l c : fresh c → returns (check_props check b l c) = true.
Proof.
  revert c. induction l as [|p l IH]; simpl; intros c Hc; [done|]. destruct (skipped p); [auto|].
  eapply or_else_returns; [done|by apply expr_returns|intros; by eapply expr_run|intros c1 H1].
  destruct (_ || _); [auto|].
  eapply or_else_returns; [exact H1|by apply expr_returns|intros; by eapply expr_run|auto].
Qed.
Lemma sym_returns s c : fresh c → returns (sym_check_sym_deps check s c) = true.
Proof.
  intros Hc. unfold sym_check_sym_deps.
  eapply or_else_returns; [done|by apply expr_returns|intros; by eapply expr_run|intros c1 H1].
  eapply or_else_returns; [exact H1|by apply expr_returns|intros; by eapply expr_run|intros c2 H2].
  eapply or_else_returns; [exact H2|by apply expr_returns|intros; by eapply expr_run|intros c3 H3].
  by apply props_returns.
Qed.
Lemma values_returns l c : fresh c → returns (check_values_deps check l c) = true.
Proof.
  revert c. induction l as [|s l IH]; simpl; intros c Hc; [done|].
  eapply or_else_returns; [done|by apply sym_returns|intros; by eapply sym_run|auto].
Qed.
End returns.

Lemma fuel_returns rie st0 u n s c :
  groups_ok st0 → fresh st0 u c →
  (2 * u + 2 ≤ n ∨ 2 * u + 1 ≤ n ∧ has SYMBOL_CHOICEVAL (ks (h_st c) s) = false)%nat →
  returns (check_fuel rie n s c) = true.
Proof.
  intros Hgo. revert u s c. induction n as [|n IH]; intros u s c Hc Hn; [lia|]. simpl. unfold check_body.
  destruct (has SYMBOL_CHECK _); [done|]. destruct (has SYMBOL_CHECKED _) eqn:Hch; [done|].
  destruct Hc as [F U].
  assert (∀ c1, known (h_st c) s → frame (h_st c) (h_st c1) → is_checked (ks (h_st c1) s) = true →
    fresh st0 (u - 1) c1 ∧ ∀ s' c2, fresh st0 (u - 1) c2 → returns (check_fuel rie n s' c2) = true) as Hin.
  { intros c1 Hk HF H1. pose proof (unchecked_less _ _ s HF Hk Hch H1).
    split; [split; [by eapply frame_trans|lia]|]. intros s' c2 H2. apply (IH (u - 1)%nat); [done|lia]. }
  apply bind_returns; [|by intros [? ?] _].
  destruct (rest_choice _ _ (fr_sym _ _ F s)) as [Rs Rv]. rewrite Rv. rewrite Rv in Hn.
  destruct (has SYMBOL_CHOICEVAL _) eqn:Hv; [|destruct (has SYMBOL_CHOICE _) eqn:Hs].
  - destruct (go_value _ Hgo s Hv) as (d & Hd & Hdc & _). rewrite (frame_choice_of _ _ _ F), Hd. simpl.
    apply (IH u); [done|]. right. split; [lia|].
    rewrite (proj2 (rest_choice _ _ (fr_sym _ _ F d))). by apply (go_choice _ Hgo).
  - assert (known (h_st c) s) as Hk by (apply choice_known; congruence).
    destruct (go_choice _ Hgo s) as (_ & Hl & _); [congruence|]. unfold sym_check_choice_deps.
    rewrite (frame_choice_prop _ _ _ F). destruct (sym_get_choice_prop st0 s) as [p|]; [|done].
    simpl in Hl. cbn [mbind result_bind]. rewrite Hl. cbn [mbind result_bind].
    set (l := values st0 s). pose proof (run_begin rie s l c) as Rb.
    destruct (Hin _ Hk (ru_frame _ _ _ _ Rb)) as [Hf Hi].
    { simpl. apply checked_raise. destruct s; try done. simpl in *.
      by rewrite (fr_len _ _ (frame_marks _ l (h_st c) same_rest_raise)). }
    apply bind_returns; [eapply sym_returns; eauto using fuel_run|intros [x1 c1] E1].
    pose proof (sym_run rie _ (fuel_run rie n) _ _ _ _ E1) as R1.
    assert (run rie c1 None (on_syms (upd s (lower SYMBOL_CHECK)) c1)) as R2.
    { apply run_marks. auto with kcheck. }
    assert (fresh st0 (u - 1) (on_syms (upd s (lower SYMBOL_CHECK)) c1)) as Hf2.
    { eapply (fresh_run rie st0); [|exact R2]. by eapply (fresh_run rie st0). }
    apply bind_returns.
    + destruct x1; [done|]. cbn. eapply values_returns; eauto using fuel_run.
    + intros [[s2|] c3] E3; [|done]. destruct (sym_is_choice_value _ s2) eqn:Hv2; [|done].
      assert (frame st0 (h_st (mark_all (lower SYMBOL_CHECK) l c3))) as F3.
      { eapply frame_trans; [|apply frame_marks; auto with kcheck].
        destruct x1 as [s1|]; cbn in E3; [injection E3 as _ <-; apply Hf2|].
        eapply frame_trans; [apply Hf2|]. by eapply (values_run rie _ (fuel_run rie n)). }
      rewrite (frame_choice_of _ _ _ F3). unfold sym_is_choice_value in Hv2.
      rewrite (proj2 (rest_choice _ _ (fr_sym _ _ F3 s2))) in Hv2.
      by destruct (go_value _ Hgo s2 Hv2) as (d & -> & _).
  - apply bind_returns; [|by intros [? ?] _]. destruct (decide (known (h_st c) s)) as [Hk|Hk].
    + destruct (Hin (on_syms (upd s (raise checking)) c) Hk) as [Hf Hi]; [apply frame_upd; auto with kcheck| |].
      * by apply checked_raise.
      * eapply sym_returns; eauto using fuel_run.
    + rewrite (unknown_deps _ (upd s (raise checking) (h_st c))); [done| |done].
      destruct s; simpl in *; by rewrite ?length_alter.
Qed.

(** More fuel changes nothing. *)
Section mono.
Context (rie : bool) (check check' : symbol → chk → result (option symbol * chk)).
Context (Hm : ∀ s c, approx (check s c) (check' s c)).
Lemma or_else_mono r r' k k' :
  approx r r' → (∀ c, approx (k c) (k' c)) → approx (or_else r k) (or_else r' k').
Proof. intros Hr Hk. apply approx_bind; [done|]. intros [[s|] c]; [apply approx_refl|apply Hk]. Qed.
Lemma expr_mono e c : approx (sym_check_expr_deps check e c) (sym_check_expr_deps check' e c).
Proof.
  revert c. induction e; intros c; simpl; auto using approx_refl, or_else_mono.
Qed.
Lemma props_mono b l c : approx (check_props check b l c) (check_props check' b l c).
Proof.
  revert c. induction l as [|p l IH]; intros c; simpl; [apply approx_refl|]. destruct (skipped p); [done|].
  apply or_else_mono; [apply expr_mono|intros c1]. destruct (_ || _); [done|].
  apply or_else_mono; [apply expr_mono|done].
Qed.
Lemma sym_mono s c : approx (sym_check_sym_deps check s c) (sym_check_sym_deps check' s c).
Proof.
  unfold sym_check_sym_deps. do 3 (apply or_else_mono; [apply expr_mono|intros ?]). apply props_mono.
Qed.
Lemma values_mono l c : approx (check_values_deps check l c) (check_values_deps check' l c).
Proof.
  revert c. induction l as [|s l IH]; intros c; simpl; [apply approx_refl|].
  apply or_else_mono; [apply sym_mono|done].
Qed.
Lemma body_mono s c : approx (check_body rie check s c) (check_body rie check' s c).
Proof.
  unfold check_body. destruct (has SYMBOL_CHECK _); [apply approx_refl|].
  destruct (has SYMBOL_CHECKED _); [apply approx_refl|]. apply approx_bind; [|intros [? ?]; apply approx_refl].
  destruct (has SYMBOL_CHOICEVAL _); [|destruct (has SYMBOL_CHOICE _)].
  - apply approx_bind; [apply approx_refl|intros d]. apply approx_bind; [apply approx_refl|auto].
  - unfold sym_check_choice_deps. apply approx_bind; [apply approx_refl|intros p].
    apply approx_bind; [apply approx_refl|intros l]. apply approx_bind; [apply sym_mono|intros [x1 c1]].
    apply approx_bind; [|intros [? ?]; apply approx_refl].
    apply or_else_mono; [apply approx_refl|apply values_mono].
  - apply approx_bind; [apply sym_mono|intros [? ?]; apply approx_refl].
Qed.
End mono.
Lemma check_fuel_mono rie n m s c : (n ≤ m)%nat → approx (check_fuel rie n s c) (check_fuel rie m s c).
Proof.
  revert m s c. induction n as [|n IH]; intros m s c Hnm; [by left|].
  destruct m as [|m]; [lia|]. simpl. apply body_mono. intros. apply IH. lia.
Qed.
End KconfigCheckProps.
