(* ===== verification/KconfigCheckSound.v ===== *)
(** * Kconfig: dependencies that pass the check have no cycle

    While no message is printed, the symbols that are finished can be listed
    so that each comes after what it depends on; the values of a choice are
    finished together, after the choice.  The list gives the numbering that
    the calculation of values asks for. *)

From S2P Require Import Prelude CLib KconfigExpr KconfigSym KconfigSymProps KconfigSymSpec.
From S2P Require Import KconfigSymCalc KconfigSymOrder KconfigLookup KconfigConf KconfigCheck.
From S2P Require Import KconfigCheckProps.
Open Scope Z_scope.

Module KconfigCheckSound.
Import KconfigExpr KconfigSym KconfigSymProps KconfigSymSpec KconfigSymCalc KconfigSymOrder.
Import KconfigLookup KconfigConf KconfigCheck KconfigCheckProps.

(** The symbols the search goes to from an expression and from a symbol. *)
Fixpoint visited (e : expr) : list symbol :=
  match e with
  | NULL | NONE | LIST _ _ | RANGE _ _ => []
  | SYMBOL s => [s]
  | BIN _ l r => visited l ++ visited r
  | NOT l => visited l
  | COMP _ a b => [a; b]
  end.
Fixpoint visited_props (is_choice : bool) (l : list property) : list symbol :=
  match l with
  | [] => []
  | p :: l =>
      (if skipped p then []
       else visited (p_visible p) ++
            (if negb (bool_decide (p_type p = P_DEFAULT)) || is_choice then [] else visited (p_expr p)))
      ++ visited_props is_choice l
  end.
Definition edges (k : ksym) : list symbol :=
  visited (ev_expr (k_dir k)) ++ visited (ev_expr (k_rev k)) ++ visited (ev_expr (k_imp k)) ++
  visited_props (has SYMBOL_CHOICE k) (k_props k).
Lemma edges_rest k k' : same_rest k k' → edges k' = edges k.
Proof.
  intros Hr. unfold edges. destruct (rest_props _ _ Hr) as (-> & -> & -> & ->).
  by destruct (rest_choice _ _ Hr) as [-> _].
Qed.

Lemma ks_marks f l st x :
  NoDup l → Forall (known st) l →
  ks (foldl (λ st s, upd s f st) st l) x = if decide (x ∈ l) then f (ks st x) else ks st x.
Proof.
  intros Hnd. revert st. induction Hnd as [|s l Hs Hnd IH]; intros st Hk; [done|].
  apply Forall_cons in Hk as [Hk Hl]. simpl. rewrite IH.
  2: { eapply Forall_impl; [exact Hl|]. intros y. destruct s, y; simpl; by rewrite ?length_alter. }
  destruct (decide (x = s)) as [->|Hx].
  - rewrite ks_upd_same by done. rewrite decide_False by done. rewrite decide_True by set_solver. done.
  - rewrite ks_upd_ne by congruence. destruct (decide (x ∈ l)) as [Hin|Hin].
    + rewrite decide_True by set_solver. done.
    + rewrite decide_False by set_solver. done.
Qed.

Section sound.
Context (st0 : state) (Hgo : groups_ok st0).
Implicit Types F G T : list symbol.

(** Finished symbols, the last one first: what a symbol depends on was
    finished before it. *)
Definition fin F (d : symbol) : Prop := d ∈ F ∨ ¬ known st0 d.
Fixpoint ordered F : Prop :=
  match F with
  | [] => True
  | x :: F => (x ∉ F) ∧ Forall (fin F) (edges (ks st0 x)) ∧ ordered F
  end.
Record searched (st : state) F : Prop := {
  se_frame : frame st0 st;
  se_fin : ∀ x, x ∈ F ↔ known st0 x ∧ is_checked (ks st x) = true ∧ has SYMBOL_CHECK (ks st x) = false;
  se_path : ∀ x, has SYMBOL_CHECK (ks st x) = true → is_checked (ks st x) = true;
  se_group : ∀ c v, has SYMBOL_CHOICE (ks st0 c) = true → v ∈ values st0 c →
                    is_checked (ks st v) = is_checked (ks st c);
  se_ordered : ordered F
}.
Lemma fin_app G F d : fin F d → fin (G ++ F) d.
Proof. clear Hgo. intros [H|H]; [left; set_solver|by right]. Qed.
Lemma known_frame st x : frame st0 st → known st x ↔ known st0 x.
Proof. intros Hf. destruct x; simpl; by rewrite ?(fr_len _ _ Hf). Qed.

(** Symbols are put on the path, with the whole of their groups. *)
Lemma search_begin st F l :
  searched st F → NoDup l → Forall (known st0) l → Forall (λ x, is_checked (ks st x) = false) l →
  (∀ c v, has SYMBOL_CHOICE (ks st0 c) = true → v ∈ values st0 c → v ∈ l ↔ c ∈ l) →
  searched (foldl (λ st s, upd s (raise checking) st) st l) F.
Proof.
  intros [Sf Sfin Sp Sg So] Hnd Hk Hun Hcl.
  assert (Forall (known st) l) as Hk'.
  { eapply Forall_impl; [exact Hk|]. intros x. by apply known_frame. }
  assert (∀ x, x ∈ l → x ∉ F) as HF.
  { intros x Hx HxF. apply Sfin in HxF as (_ & Hc & _).
    rewrite (proj1 (Forall_forall _ _) Hun x Hx) in Hc. done. }
  assert (∀ k, has SYMBOL_CHECK (raise checking k) = true ∧ is_checked (raise checking k) = true) as Hr.
  { intros k. unfold has, raise. simpl. rewrite !Z.land_lor_distr_l.
    split; apply negb_true_iff, Z.eqb_neq; by intros [_ E]%Z.lor_eq_0_iff. }
  constructor; [eapply frame_trans; [done|apply frame_marks; auto with kcheck]|..|done].
  - intros x. rewrite ks_marks by done. case_decide as Hx; [|apply Sfin].
    destruct (Hr (ks st x)) as [-> ->]. split; [intros ?%(HF x Hx); done|by intros (_ & _ & ?)].
  - intros x. rewrite ks_marks by done. case_decide; [by destruct (Hr (ks st x)) as [_ ->]|apply Sp].
  - intros c v Hc Hv. rewrite !ks_marks by done. pose proof (Hcl c v Hc Hv) as Hcv.
    repeat case_decide; try tauto; [|by apply Sg].
    by rewrite (proj2 (Hr (ks st v))), (proj2 (Hr (ks st c))).
Qed.
(** Symbols on the path whose dependencies are finished are finished. *)
Lemma ordered_app l F :
  NoDup l → (∀ x, x ∈ l → x ∉ F) → Forall (λ x, Forall (fin F) (edges (ks st0 x))) l → ordered F →
  ordered (l ++ F).
Proof.
  intros Hnd HF He Ho. induction Hnd as [|x l Hx Hnd IH]; [done|].
  apply Forall_cons in He as [He1 He2]. simpl. split_and!.
  - rewrite elem_of_app. intros [?|?]; [done|]. eapply HF; [|done]. set_solver.
  - eapply Forall_impl; [exact He1|]. intros d. apply fin_app.
  - apply IH; [|done]. intros y Hy. apply HF. set_solver.
Qed.
Lemma search_end st F l :
  searched st F → NoDup l → Forall (known st0) l →
  Forall (λ x, has SYMBOL_CHECK (ks st x) = true) l →
  Forall (λ x, Forall (fin F) (edges (ks st0 x))) l →
  searched (foldl (λ st s, upd s (lower SYMBOL_CHECK) st) st l) (l ++ F).
Proof.
  intros [Sf Sfin Sp Sg So] Hnd Hk Hch He.
  assert (Forall (known st) l) as Hk'.
  { eapply Forall_impl; [exact Hk|]. intros x. by apply known_frame. }
  assert (∀ k, has SYMBOL_CHECK (lower SYMBOL_CHECK k) = false ∧
               is_checked (lower SYMBOL_CHECK k) = is_checked k) as Hl.
  { intros k. split; [by apply has_lower_same|by apply has_lower_disj]. }
  assert (∀ x, x ∈ l → has SYMBOL_CHECK (ks st x) = true) as Hch' by (by apply Forall_forall).
  constructor; [eapply frame_trans; [done|apply frame_marks; auto with kcheck]|..].
  - intros x. rewrite ks_marks, elem_of_app by done. case_decide as Hx.
    + destruct (Hl (ks st x)) as [-> ->]. split; [|tauto]. intros _. split_and!; [|by apply Sp, Hch'|done].
      by apply (proj1 (Forall_forall _ _) Hk).
    + rewrite <- Sfin. tauto.
  - intros x. rewrite ks_marks by done. case_decide; [by destruct (Hl (ks st x)) as [-> _]|apply Sp].
  - intros c v Hc Hv. rewrite !ks_marks by done. pose proof (Sg c v Hc Hv).
    repeat case_decide; rewrite ?(proj2 (Hl _)); done.
  - apply ordered_app; [done| |done|done]. intros x Hx HxF. apply Sfin in HxF as (_ & _ & Hc).
    rewrite Hch' in Hc; done.
Qed.

(** A run without a message finishes the symbols [T] and leaves the path. *)
Definition finishes T (c : chk) (x : option symbol) (c' : chk) : Prop :=
  ∀ F, searched (h_st c) F → h_reports c' = h_reports c →
  x = None ∧ ∃ G, searched (h_st c') (G ++ F) ∧ Forall (fin (G ++ F)) T ∧
    (∀ y, has SYMBOL_CHECK (ks (h_st c') y) = has SYMBOL_CHECK (ks (h_st c) y)).
Lemma finishes_nil c : finishes [] c None c.
Proof. intros F HF _. split; [done|]. by exists []. Qed.

Context (rie : bool) (check : symbol → chk → result (option symbol * chk)).
Context (Hrun : ∀ s c x c', check s c = Ret (x, c') → run rie c x c').
Context (Hfin : ∀ s c x c', check s c = Ret (x, c') → finishes [s] c x c').

Lemma run_split c x1 c1 x c' :
  run rie c x1 c1 → run rie c1 x c' → h_reports c' = h_reports c →
  h_reports c1 = h_reports c ∧ h_reports c' = h_reports c1.
Proof.
  intros [_ (r1 & E1 & _)] [_ (r2 & E2 & _)] E. rewrite E2, E1 in E.
  apply (f_equal length) in E as El. rewrite !length_app in El.
  destruct r1; [|simpl in El; lia]. destruct r2; [|simpl in El; lia]. by rewrite E2, E1.
Qed.
Lemma finishes_trans T1 T2 c c1 x c' :
  run rie c None c1 → run rie c1 x c' →
  finishes T1 c None c1 → finishes T2 c1 x c' → finishes (T1 ++ T2) c x c'.
Proof.
  intros R1 R2 H1 H2 F HF E. destruct (run_split _ _ _ _ _ R1 R2 E) as [E1 E2].
  destruct (H1 F HF E1) as (_ & G1 & S1 & D1 & P1).
  destruct (H2 _ S1 E2) as (-> & G2 & S2 & D2 & P2). split; [done|].
  exists (G2 ++ G1). rewrite <- app_assoc. split_and!; [done| |by intros y; rewrite P2, P1].
  apply Forall_app. split; [|done]. eapply Forall_impl; [exact D1|]. intros d. apply fin_app.
Qed.
Lemma finishes_some T c s c' : run rie c (Some s) c' → finishes T c (Some s) c'.
Proof.
  intros [_ (r & Er & Hr & _)] F _ E. rewrite Er in E. apply (f_equal length) in E.
  rewrite length_app in E. destruct r; [by destruct Hr|simpl in E; lia].
Qed.
Lemma or_else_fin T1 T2 c r k x c' :
  (∀ x1 c1, r = Ret (x1, c1) → run rie c x1 c1 ∧ finishes T1 c x1 c1) →
  (∀ c1, k c1 = Ret (x, c') → run rie c1 x c' ∧ finishes T2 c1 x c') →
  or_else r k = Ret (x, c') → finishes (T1 ++ T2) c x c'.
Proof.
  intros Hr Hk (x1 & c1 & E & H)%or_else_inv. destruct (Hr _ _ E) as [R1 F1]. destruct x1 as [s|].
  - destruct H as [-> ->]. by apply finishes_some.
  - destruct (Hk _ H) as [R2 F2]. by eapply finishes_trans.
Qed.
Lemma expr_fin e c x c' : sym_check_expr_deps check e c = Ret (x, c') → finishes (visited e) c x c'.
Proof.
  revert c x c'. induction e; simpl; intros c x c' H;
    try (injection H as <- <-; apply finishes_nil); eauto.
  - revert H. apply or_else_fin; intros; split; eauto; by eapply expr_run.
  - revert H. apply (or_else_fin [left] [right]); intros; split; eauto.
Qed.
Lemma props_fin b l c x c' : check_props check b l c = Ret (x, c') → finishes (visited_props b l) c x c'.
Proof.
  revert c x c'. induction l as [|p l IH]; simpl; intros c x c' H; [simplify_eq; apply finishes_nil|].
  destruct (skipped p); [by apply IH|]. rewrite <- app_assoc. revert H.
  assert (∀ c1 x1 c2, check_props check b l c1 = Ret (x1, c2) →
    run rie c1 x1 c2 ∧ finishes (visited_props b l) c1 x1 c2) as Hl.
  { intros c1 x1 c2 H. split; [by eapply props_run|auto]. }
  apply or_else_fin; [intros x1 c1 H; split; [by eapply expr_run|by apply expr_fin]|].
  intros c1. destruct (_ || _); [apply Hl|]. intros H. split.
  - revert H. apply or_else_run; [intros x1 c2 H; by eapply expr_run|]. intros c2 H. by apply Hl.
  - revert H. apply or_else_fin; [intros x1 c2 H; split; [by eapply expr_run|by apply expr_fin]|].
    intros c2. apply Hl.
Qed.
Lemma sym_fin s c x c' :
  frame st0 (h_st c) → sym_check_sym_deps check s c = Ret (x, c') → finishes (edges (ks st0 s)) c x c'.
Proof.
  intros Hf H. rewrite <- (edges_rest _ _ (fr_sym _ _ Hf s)). revert H. unfold sym_check_sym_deps, edges.
  set (k := ks (h_st c) s). clearbody k. clear Hf.
  assert (∀ e c1 x1 c2, sym_check_expr_deps check e c1 = Ret (x1, c2) →
    run rie c1 x1 c2 ∧ finishes (visited e) c1 x1 c2) as He.
  { intros e c1 x1 c2 H. split; [by eapply expr_run|by apply expr_fin]. }
  assert (∀ c1 x1 c2, check_props check (has SYMBOL_CHOICE k) (k_props k) c1 = Ret (x1, c2) →
    run rie c1 x1 c2 ∧ finishes (visited_props (has SYMBOL_CHOICE k) (k_props k)) c1 x1 c2) as Hp.
  { intros c1 x1 c2 H. split; [by eapply props_run|by apply props_fin]. }
  apply or_else_fin; [apply He|]. intros c1 H. split.
  - revert H. apply or_else_run; [intros x1 c2 H; by eapply He|intros c2].
    apply or_else_run; [intros x1 c3 H; by eapply He|intros c3 H; by eapply Hp].
  - revert H. apply or_else_fin; [apply He|]. intros c2 H. split.
    + revert H. apply or_else_run; [intros x1 c3 H; by eapply He|intros c3 H; by eapply Hp].
    + revert H. apply or_else_fin; [apply He|]. intros c3. apply Hp.
Qed.
Lemma values_fin l c x c' :
  frame st0 (h_st c) → check_values_deps check l c = Ret (x, c') →
  finishes (concat ((λ v, edges (ks st0 v)) <$> l)) c x c'.
Proof.
  revert c x c'. induction l as [|v l IH]; simpl; intros c x c' Hf H; [simplify_eq; apply finishes_nil|].
  apply or_else_inv in H as (x1 & c1 & E & H). pose proof (sym_run rie _ Hrun _ _ _ _ E) as R1.
  pose proof (sym_fin _ _ _ _ Hf E) as F1. destruct x1 as [s|].
  - destruct H as [-> ->]. by apply finishes_some.
  - assert (frame st0 (h_st c1)) as Hf1 by (eapply frame_trans; [done|apply R1]).
    eapply finishes_trans; [done|by eapply values_run|done|auto].
Qed.

Lemma static_choice st x : frame st0 st →
  has SYMBOL_CHOICE (ks st x) = has SYMBOL_CHOICE (ks st0 x) ∧
  has SYMBOL_CHOICEVAL (ks st x) = has SYMBOL_CHOICEVAL (ks st0 x).
Proof. intros Hf. by apply rest_choice, fr_sym. Qed.
Lemma value_of c v :
  has SYMBOL_CHOICE (ks st0 c) = true → v ∈ values st0 c →
  known st0 v ∧ has SYMBOL_CHOICEVAL (ks st0 v) = true ∧ choice_of st0 v = Ret (Some c).
Proof.
  intros Hc Hv. destruct (go_choice _ Hgo c Hc) as (_ & _ & _ & H). exact (proj1 (Forall_forall _ _) H v Hv).
Qed.
Lemma unchecked_free st F x : searched st F → is_checked (ks st x) = false → has SYMBOL_CHECK (ks st x) = false.
Proof.
  intros HS Hx. destruct (has SYMBOL_CHECK (ks st x)) eqn:E; [|done].
  apply (se_path _ _ HS) in E. congruence.
Qed.

Lemma ks_group f l st x :
  NoDup l → Forall (known st0) l → frame st0 st →
  ks (foldl (λ st s, upd s f st) st l) x = if decide (x ∈ l) then f (ks st x) else ks st x.
Proof.
  intros Hnd Hk Hf. apply ks_marks; [done|]. eapply Forall_impl; [exact Hk|].
  intros z. by apply known_frame.
Qed.
Lemma check_raised k : has SYMBOL_CHECK (raise checking k) = true.
Proof.
  unfold has, raise. simpl. apply negb_true_iff, Z.eqb_neq. rewrite Z.land_lor_distr_l.
  by intros [_ ?]%Z.lor_eq_0_iff.
Qed.
Lemma checked_raised k : is_checked (raise checking k) = true.
Proof.
  unfold has, raise. simpl. apply negb_true_iff, Z.eqb_neq. rewrite Z.land_lor_distr_l.
  by intros [_ ?]%Z.lor_eq_0_iff.
Qed.
Lemma mark_all_app f l s c : on_syms (upd s f) (mark_all f l c) = mark_all f (l ++ [s]) c.
Proof. unfold mark_all, on_syms. simpl. by rewrite foldl_app. Qed.

Lemma group_list s :
  has SYMBOL_CHOICE (ks st0 s) = true →
  NoDup (values st0 s ++ [s]) ∧ Forall (known st0) (values st0 s ++ [s]).
Proof.
  intros Hs. destruct (go_choice _ Hgo s Hs) as (Hsv & _ & Hnd & Hall). split.
  - apply NoDup_app. split_and!; [done| |apply NoDup_singleton].
    intros v Hv ->%list_elem_of_singleton. destruct (value_of s s Hs Hv) as (_ & ? & _). congruence.
  - apply Forall_app. split; [|by apply Forall_singleton, choice_known].
    eapply Forall_impl; [exact Hall|]. by intros v (? & _).
Qed.
(** A choice goes on the path with its values. *)
Lemma group_begin c F s :
  searched (h_st c) F → has SYMBOL_CHOICE (ks st0 s) = true → is_checked (ks (h_st c) s) = false →
  searched (h_st (mark_all (raise checking) (values st0 s ++ [s]) c)) F ∧
  NoDup (values st0 s ++ [s]) ∧ Forall (known st0) (values st0 s ++ [s]) ∧
  Forall (λ v, is_checked (ks (h_st c) v) = false) (values st0 s ++ [s]).
Proof.
  intros HS Hs Hun. pose proof (se_frame _ _ HS) as Hf.
  destruct (group_list s Hs) as [Hnd Hk]. destruct (go_choice _ Hgo s Hs) as (Hsv & _).
  assert (Forall (λ v, is_checked (ks (h_st c) v) = false) (values st0 s ++ [s])) as Hu.
  { apply Forall_app. split; [|by apply Forall_singleton]. apply Forall_forall. intros v Hv.
    by rewrite (se_group _ _ HS s v Hs Hv). }
  split_and!; [|done..]. apply search_begin; [done..|].
  intros d v Hd Hv. destruct (value_of d v Hd Hv) as (_ & Hv1 & Hv2).
  rewrite !elem_of_app, !list_elem_of_singleton. split.
  - intros [Hin| ->].
    + destruct (value_of s v Hs Hin) as (_ & _ & H2). right. congruence.
    + congruence.
  - intros [Hin| ->]; [|by left].
    destruct (value_of s d Hs Hin) as (_ & H2 & _). destruct (go_choice _ Hgo d Hd). congruence.
Qed.
Lemma frame_values c s p l :
  frame st0 (h_st c) → sym_get_choice_prop (h_st c) s = Ret p → list_syms (p_expr p) = Ret l →
  l = values st0 s.
Proof.
  intros Hf E1 E2. unfold values. rewrite <- (frame_choice_prop _ _ _ Hf), E1. simpl. by rewrite E2.
Qed.

(** After the dependencies of a choice have been visited. *)
Lemma choice_turn s c F x1 c1 :
  searched (h_st c) F → has SYMBOL_CHOICE (ks st0 s) = true → is_checked (ks (h_st c) s) = false →
  let c0 := mark_all (raise checking) (values st0 s ++ [s]) c in
  sym_check_sym_deps check s c0 = Ret (x1, c1) → h_reports c1 = h_reports c0 →
  ∃ G, searched (h_st (on_syms (upd s (lower SYMBOL_CHECK)) c1)) ([s] ++ G ++ F) ∧
    searched (h_st c1) (G ++ F) ∧
    (∀ y, has SYMBOL_CHECK (ks (h_st c1) y) = has SYMBOL_CHECK (ks (h_st c0) y)) ∧
    (∀ v, v ∈ values st0 s ++ [s] → has SYMBOL_CHECK (ks (h_st c1) v) = true).
Proof.
  intros HS Hs Hun c0 E Hrep. destruct (group_begin c F s HS Hs Hun) as (HS0 & Hnd & Hk & _).
  destruct (sym_fin s c0 _ _ (se_frame _ _ HS0) E F HS0 Hrep) as (_ & G1 & S1 & D1 & P1).
  assert (∀ v, v ∈ values st0 s ++ [s] → has SYMBOL_CHECK (ks (h_st c1) v) = true) as Hg1.
  { intros v Hv. rewrite P1. unfold c0, mark_all. simpl. rewrite ks_group by (done || apply HS).
    rewrite decide_True by done. apply check_raised. }
  exists G1. split_and!; [|done..].
  apply (search_end (h_st c1) (G1 ++ F) [s]); [done|apply NoDup_singleton|..].
  - by apply Forall_singleton, choice_known.
  - apply Forall_singleton, Hg1. set_solver.
  - by apply Forall_singleton.
Qed.

Lemma choice_fin s c x c' :
  frame st0 (h_st c) → has SYMBOL_CHOICE (ks st0 s) = true → is_checked (ks (h_st c) s) = false →
  sym_check_choice_deps check s c = Ret (x, c') → finishes [s] c x c'.
Proof.
  intros Hf Hs Hun (p & l & x1 & c3 & E1 & E2 & E & -> & Hx)%choice_inv F HS Hrep.
  rewrite (frame_values c s p l) in * by done. set (l0 := values st0 s) in *. clear E1 E2.
  destruct (group_begin c F s HS Hs Hun) as (HS0 & Hnd & Hk & Hu). fold l0 in HS0, Hnd, Hk, Hu.
  apply walk_inv in E as (x0 & c1 & E & H). rewrite mark_all_app in E.
  set (c0 := mark_all (raise checking) (l0 ++ [s]) c) in *.
  set (c2 := on_syms (upd s (lower SYMBOL_CHECK)) c1) in *.
  pose proof (sym_run rie _ Hrun _ _ _ _ E) as R1. destruct x0 as [s0|].
  { destruct H as [-> ->]. destruct (finishes_some [] _ _ _ R1 F HS0 Hrep) as [? _]. done. }
  assert (run rie c1 None c2) as R2 by (apply run_marks; auto with kcheck).
  pose proof (values_run rie _ Hrun _ _ _ _ H) as R3.
  pose proof (run_trans _ _ _ _ _ R2 R3) as R23.
  destruct (run_split _ _ _ _ _ R1 R23 Hrep) as [Hr1 Hr2].
  destruct (choice_turn s c F None c1 HS Hs Hun E Hr1) as (G1 & S2 & S1 & P1 & Hg1).
  fold l0 in Hg1. fold c2 in S2. fold l0 c0 in P1.
  destruct (values_fin l0 c2 _ _ (se_frame _ _ S2) H _ S2 Hr2) as (-> & G2 & S3 & D3 & P3).
  rewrite Hx. split; [done|]. exists (l0 ++ G2 ++ [s] ++ G1). rewrite <- !app_assoc.
  pose proof Hnd as (Hnd0 & Hns & _)%NoDup_app. pose proof Hk as [Hk0 Hks]%Forall_app.
  assert (s ∉ l0) as Hsl by (intros ?; eapply Hns; [done|set_solver]).
  assert (∀ v, v ∈ l0 → has SYMBOL_CHECK (ks (h_st c3) v) = true) as Hg3.
  { intros v Hv. rewrite P3. unfold c2. simpl. rewrite ks_upd_ne by congruence. apply Hg1. set_solver. }
  split_and!.
  - apply (search_end (h_st c3) _ l0); [exact S3|done|done|by apply Forall_forall|].
    rewrite List.Forall_concat, Forall_fmap in D3. exact D3.
  - apply Forall_singleton. left. set_solver.
  - intros y. unfold mark_all. simpl. rewrite ks_group by (done || apply S3).
    destruct (decide (y ∈ l0)) as [Hy|Hy].
    + rewrite has_lower_same by done. symmetry. apply (unchecked_free _ F); [done|].
      apply (proj1 (Forall_forall _ _) Hu). set_solver.
    + rewrite P3. unfold c2. simpl. destruct (decide (y = s)) as [->|Hys].
      * rewrite ks_upd_same by (apply known_frame; [apply S1|by apply choice_known]).
        rewrite has_lower_same by done. symmetry. by apply (unchecked_free _ F).
      * rewrite ks_upd_ne by congruence. rewrite P1. unfold c0, mark_all. simpl.
        rewrite ks_group by (done || apply HS). by rewrite decide_False by set_solver.
Qed.

Lemma on_syms_id f c : f (h_st c) = h_st c → on_syms f c = c.
Proof. intros E. unfold on_syms. rewrite E. by destruct c. Qed.
(** A symbol without dependencies, such as a constant, is left alone. *)
Lemma unknown_fin s c x c' :
  frame st0 (h_st c) → ¬ known st0 s →
  sym_check_sym_deps check s (on_syms (upd s (raise checking)) c) = Ret (x, c') →
  finishes [s] c x (on_syms (upd s (lower SYMBOL_CHECK)) c').
Proof.
  intros Hf Hk E. assert (∀ f, upd s f (h_st c) = h_st c) as Hu.
  { intros f. apply upd_unknown. by rewrite known_frame. }
  rewrite on_syms_id, (unknown_deps _ (h_st c)) in E by (done || by rewrite known_frame). simplify_eq.
  rewrite on_syms_id by done. intros F HF _. split; [done|]. exists [].
  split_and!; [done|by apply Forall_singleton; right|done].
Qed.
Lemma plain_begin s c F :
  searched (h_st c) F → known st0 s → has SYMBOL_CHOICE (ks st0 s) = false →
  has SYMBOL_CHOICEVAL (ks st0 s) = false → is_checked (ks (h_st c) s) = false →
  searched (h_st (on_syms (upd s (raise checking)) c)) F.
Proof.
  intros HS Hk H1 H2 Hun.
  apply (search_begin (h_st c) F [s]); [done|apply NoDup_singleton|by apply Forall_singleton..|].
  intros d v Hd Hv. destruct (value_of d v Hd Hv) as (_ & ? & _). rewrite !list_elem_of_singleton.
  split; intros ->; congruence.
Qed.
Lemma plain_fin s c x c' :
  frame st0 (h_st c) → has SYMBOL_CHOICE (ks st0 s) = false → has SYMBOL_CHOICEVAL (ks st0 s) = false →
  is_checked (ks (h_st c) s) = false →
  sym_check_sym_deps check s (on_syms (upd s (raise checking)) c) = Ret (x, c') →
  finishes [s] c x (on_syms (upd s (lower SYMBOL_CHECK)) c').
Proof.
  intros Hf H1 H2 Hun E. destruct (decide (known st0 s)) as [Hk|Hk]; [|by apply unknown_fin].
  intros F HS Hrep. set (c0 := on_syms (upd s (raise checking)) c) in *.
  assert (searched (h_st c0) F) as HS0 by (by apply plain_begin).
  destruct (sym_fin s c0 _ _ (se_frame _ _ HS0) E F HS0 Hrep) as (-> & G & S1 & D1 & P1).
  assert (has SYMBOL_CHECK (ks (h_st c') s) = true) as Hg.
  { rewrite P1. unfold c0. simpl. rewrite ks_upd_same by (by apply known_frame).
    apply check_raised. }
  split; [done|]. exists ([s] ++ G). rewrite <- app_assoc. split_and!.
  - apply (search_end (h_st c') (G ++ F) [s]); [done|apply NoDup_singleton|by apply Forall_singleton..].
  - apply Forall_singleton. left. set_solver.
  - intros y. simpl. destruct (decide (y = s)) as [->|Hy].
    + rewrite ks_upd_same by (apply known_frame; [apply S1|done]).
      rewrite has_lower_same by done. symmetry. by apply (unchecked_free _ F).
    + rewrite ks_upd_ne by congruence. rewrite P1. unfold c0. simpl. by rewrite ks_upd_ne by congruence.
Qed.
(** The check of a value of a choice is the check of the choice. *)
Lemma value_fin s c x c' d :
  frame st0 (h_st c) → has SYMBOL_CHOICEVAL (ks st0 s) = true → is_checked (ks (h_st c) s) = false →
  choice_of (h_st c) s = Ret (Some d) → check d c = Ret (x, c') → finishes [s] c x c'.
Proof.
  intros Hf Hv Hun Hd E F HS Hrep. rewrite (frame_choice_of _ _ _ Hf) in Hd.
  destruct (go_value _ Hgo s Hv) as (d' & Hd' & Hch & Hin). assert (d' = d) as -> by congruence.
  destruct (Hfin _ _ _ _ E F HS Hrep) as (-> & G & S1 & D1 & P1). split; [done|]. exists G.
  split_and!; [done| |done]. rewrite Forall_singleton in D1. apply Forall_singleton. left.
  assert (is_checked (ks (h_st c') d) = true) as Hc.
  { destruct D1 as [D1|D1]; [by apply (proj1 (se_fin _ _ S1 d) D1)|]. by apply choice_known in Hch. }
  apply (se_fin _ _ S1). split_and!.
  - by apply (value_of d s).
  - by rewrite (se_group _ _ S1 d s).
  - rewrite P1. by apply (unchecked_free _ F).
Qed.
Lemma body_fin s c x c' : check_body rie check s c = Ret (x, c') → finishes [s] c x c'.
Proof.
  intros H F HS. pose proof (se_frame _ _ HS) as Hf. revert F HS. fold (finishes [s] c x c').
  revert H. unfold check_body. destruct (static_choice _ s Hf) as [-> ->].
  destruct (has SYMBOL_CHECK _) eqn:Hp.
  { intros [= <- <-] F HS E. apply (f_equal length) in E. simpl in E. lia. }
  destruct (has SYMBOL_CHECKED _) eqn:Hun.
  { intros [= <- <-] F HS E. split; [done|]. exists []. split_and!; [done| |done].
    apply Forall_singleton. destruct (decide (known st0 s)); [left|by right]. by apply (se_fin _ _ HS). }
  intros H. apply bind_ret_inv in H as ([x1 c1] & E & [= <- <-]).
  assert (finishes [s] c x1 c1) as HF.
  { destruct (has SYMBOL_CHOICEVAL _) eqn:Hv; [|destruct (has SYMBOL_CHOICE _) eqn:Hch].
    - apply bind_ret_inv in E as (d & Ed & E). destruct d as [d|]; [|done]. by eapply value_fin.
    - by apply choice_fin.
    - apply bind_ret_inv in E as ([x2 c2] & E & [= <- <-]). by apply plain_fin. }
  intros F HS Hrep. destruct (HF F HS Hrep) as (-> & HG). by rewrite andb_false_r.
Qed.
End sound.
Lemma fuel_fin rie st0 n s c x c' :
  groups_ok st0 → check_fuel rie n s c = Ret (x, c') → finishes st0 [s] c x c'.
Proof.
  intros Hgo. revert s c x c'. induction n as [|n IH]; intros s c x c'; [done|].
  apply (body_fin st0 Hgo rie); [apply fuel_run|apply IH].
Qed.

(** ** The whole table *)

Lemma symbols_run rie l n c m c' :
  check_symbols rie l n c = Ret (m, c') →
  n ≤ m ∧ frame (h_st c) (h_st c') ∧
  ∃ r, h_reports c' = r ++ h_reports c ∧ (rie = true → m = n → r = []).
Proof.
  revert n c. induction l as [|s l IH]; simpl; intros n c H.
  { simplify_eq. split_and!; [lia|apply frame_refl|by exists []]. }
  apply bind_ret_inv in H as ([x c1] & E & H). apply fuel_run in E as [F1 (r1 & E1 & _ & G1)].
  apply IH in H as (Hn & F2 & r2 & E2 & G2).
  assert (n ≤ match x with Some _ => n + 1 | None => n end) as Hx by (destruct x; lia).
  split_and!; [lia|by eapply frame_trans|]. exists (r2 ++ r1). rewrite E2, E1, app_assoc.
  split; [done|]. intros Hr Hm. destruct x; [lia|]. by rewrite G1, G2.
Qed.
Lemma symbols_fin rie st0 l n c m c' F :
  groups_ok st0 → check_symbols rie l n c = Ret (m, c') → h_reports c' = h_reports c →
  searched st0 (h_st c) F →
  m = n ∧ ∃ G, searched st0 (h_st c') (G ++ F) ∧ Forall (fin st0 (G ++ F)) l.
Proof.
  intros Hgo. revert n c F. induction l as [|s l IH]; simpl; intros n c F H Hr HS.
  { simplify_eq. split; [done|]. by exists []. }
  apply bind_ret_inv in H as ([x c1] & E & H).
  pose proof (fuel_run _ _ _ _ _ _ E) as [_ (r1 & E1 & _)].
  pose proof (symbols_run _ _ _ _ _ _ H) as (_ & _ & r2 & E2 & _).
  assert (r1 = [] ∧ r2 = []) as [-> ->].
  { rewrite E2, E1 in Hr. apply (f_equal length) in Hr. rewrite !length_app in Hr.
    destruct r1; [|simpl in Hr; lia]. destruct r2; [done|simpl in Hr; lia]. }
  destruct (fuel_fin _ st0 _ _ _ _ _ Hgo E F HS E1) as (-> & G1 & S1 & D1 & _).
  destruct (IH _ _ _ H E2 S1) as (-> & G2 & S2 & D2). split; [done|].
  exists (G2 ++ G1). rewrite <- app_assoc. split; [done|]. apply Forall_cons_2; [|done].
  rewrite Forall_singleton in D1. by apply fin_app.
Qed.

(** No mark of an earlier search. *)
Definition unmarked (st : state) : Prop := Forall (λ k, has checking k = false) (syms st).
Lemma unmarked_ks st s : unmarked st → has SYMBOL_CHECK (ks st s) = false ∧ is_checked (ks st s) = false.
Proof.
  intros Hu. assert (has checking (ks st s) = false) as H.
  { destruct s as [| | |n]; try done. simpl. destruct (decide (n < length (syms st))%nat) as [Hn|Hn].
    - apply (proj1 (Forall_forall _ _) Hu). apply list_elem_of_In, nth_In. done.
    - by rewrite nth_overflow by lia. }
  split; (eapply has_sub; [|exact H]; done).
Qed.
Lemma searched_start st : unmarked st → searched st st [].
Proof.
  intros Hu. constructor; [apply frame_refl|..|done].
  - intros x. split; [by intros ?%not_elem_of_nil|]. destruct (unmarked_ks _ x Hu) as [_ ->].
    by intros (_ & ? & _).
  - intros x. by destruct (unmarked_ks _ x Hu) as [-> _].
  - intros c v _ _. by rewrite !(proj2 (unmarked_ks _ _ Hu)).
Qed.

(** The place of a symbol in a list of finished ones. *)
Fixpoint place (F : list symbol) (x : symbol) : nat :=
  match F with
  | [] => 0
  | y :: F => if decide (x = y) then S (length F) else place F x
  end.
Lemma place_le F x : (place F x ≤ length F)%nat.
Proof. induction F as [|y F IH]; simpl; [lia|]. case_decide; lia. Qed.
Lemma place_notin F x : x ∉ F → place F x = 0%nat.
Proof.
  induction F as [|y F IH]; intros Hx; [done|]. apply not_elem_of_cons in Hx as [H1 H2]. simpl.
  by rewrite decide_False, IH.
Qed.
Lemma edge_fin st0 F x d : ordered st0 F → x ∈ F → d ∈ edges (ks st0 x) → fin st0 F d.
Proof.
  induction F as [|y F IH]; intros Ho Hx Hd; [by apply not_elem_of_nil in Hx|].
  destruct Ho as (_ & He & Ho). apply (fin_app st0 [y] F). apply elem_of_cons in Hx as [->|Hx]; [|auto].
  by apply (proj1 (Forall_forall _ _) He).
Qed.
Lemma place_edge st0 F x d :
  ordered st0 F → Forall (known st0) F → x ∈ F → d ∈ edges (ks st0 x) → (place F d < place F x)%nat.
Proof.
  induction F as [|y F IH]; intros Ho Hk Hx Hd; [by apply not_elem_of_nil in Hx|].
  destruct Ho as (Hy & He & Ho). apply Forall_cons in Hk as [Hky Hk]. simpl.
  destruct (decide (x = y)) as [->|Hxy].
  - assert (fin st0 F d) as Hf by (by apply (proj1 (Forall_forall _ _) He)).
    rewrite decide_False; [pose proof (place_le F d); lia|]. intros ->. by destruct Hf.
  - apply elem_of_cons in Hx as [?|Hx]; [done|].
    rewrite decide_False; [auto|]. intros ->. by destruct (edge_fin st0 F x y Ho Hx Hd).
Qed.

(** Every symbol is in a chain. *)
Lemma in_all_symbols `{Arch} st s : hash_ok st → known st s → s ∈ all_symbols st.
Proof.
  intros Hh Hk. unfold all_symbols. apply list_elem_of_In, in_concat.
  set (h := bucket (k_name (ks st s))).
  assert (0 ≤ h < SYMBOL_HASHSIZE) as Hr.
  { unfold h, bucket. destruct (k_name _); [apply Z.mod_pos_bound|]; unfold SYMBOL_HASHSIZE; lia. }
  exists (chain st h). split.
  - apply list_elem_of_In, list_elem_of_fmap. exists h. split; [done|]. apply elem_of_seqZ. lia.
  - apply list_elem_of_In. rewrite Hh. apply list_elem_of_filter. split; [done|].
    destruct s as [| | |n]; try done. unfold newest. apply list_elem_of_fmap. exists n. split; [done|].
    apply elem_of_reverse, elem_of_seq. simpl in Hk. lia.
Qed.
End KconfigCheckSound.
