(* ===== verification/KconfigCheckFull.v ===== *)
(** * Kconfig: the check for recursive dependencies gives no false alarm

    If the symbols can be numbered so that dependencies go down, with one
    number for a choice and its values, no message is printed. *)

From S2P Require Import Prelude CLib KconfigExpr KconfigSym KconfigSymProps KconfigSymSpec.
From S2P Require Import KconfigSymCalc KconfigSymOrder KconfigLookup KconfigConf KconfigCheck.
From S2P Require Import KconfigCheckProps KconfigCheckSound.
Open Scope Z_scope.

Module KconfigCheckFull.
Import KconfigExpr KconfigSym KconfigSymProps KconfigSymSpec KconfigSymCalc KconfigSymOrder.
Import KconfigLookup KconfigConf KconfigCheck KconfigCheckProps KconfigCheckSound.

(** A value may depend on its own choice. *)
Record leveled (st : state) (level : symbol → nat) : Prop := {
  le_edge : ∀ s d, d ∈ edges (ks st s) →
    (level d < level s)%nat ∨ has SYMBOL_CHOICE (ks st d) = true ∧ s ∈ values st d;
  le_group : ∀ c v, has SYMBOL_CHOICE (ks st c) = true → v ∈ values st c → level v = level c
}.

Section quiet.
Context (st0 : state) (Hgo : groups_ok st0) (level : symbol → nat) (Hlev : leveled st0 level).

Abbreviation on_path c g := (has SYMBOL_CHECK (ks (h_st c) g) = true).
(** A symbol below the path, or one that is finished. *)
Definition under (c : chk) (s : symbol) : Prop :=
  (∀ g, on_path c g → (level s < level g)%nat) ∨
  is_checked (ks (h_st c) s) = true ∧ has SYMBOL_CHECK (ks (h_st c) s) = false.
Record quiet (c : chk) (x : option symbol) (c' : chk) : Prop := {
  qu_none : x = None;
  qu_reports : h_reports c' = h_reports c;
  qu_frame : frame (h_st c) (h_st c');
  qu_path : ∀ y, has SYMBOL_CHECK (ks (h_st c') y) = has SYMBOL_CHECK (ks (h_st c) y)
}.
Lemma quiet_check_refl c : quiet c None c.
Proof. constructor; try done. apply frame_refl. Qed.
Lemma quiet_check_trans c x1 c1 x c' : quiet c x1 c1 → quiet c1 x c' → quiet c x c'.
Proof.
  intros [_ R1 F1 P1] [N2 R2 F2 P2].
  constructor; [done|congruence|by eapply frame_trans|intros y; by rewrite P2, P1].
Qed.
Lemma under_quiet c x c' s : quiet c x c' → under c s → under c' s.
Proof.
  intros [_ _ F P] [H|[H1 H2]]; [left|right].
  - intros g. rewrite P. auto.
  - split; [by apply (sr_checked _ _ (fr_sym _ _ F s))|by rewrite P].
Qed.

(** The marks are as the search leaves them. *)
Definition ok (c : chk) : Prop := ∃ F, searched st0 (h_st c) F.
Lemma ok_frame c : ok c → frame st0 (h_st c).
Proof. intros [F H]. apply H. Qed.
Definition calm (c : chk) (x : option symbol) (c' : chk) : Prop := quiet c x c' ∧ ok c'.

Context (rie : bool) (check : symbol → chk → result (option symbol * chk)).
Context (Hrun : ∀ s c x c', check s c = Ret (x, c') → run rie c x c').
Context (Hfin : ∀ s c x c', check s c = Ret (x, c') → finishes st0 [s] c x c').
Context (Hq : ∀ s c x c', ok c → under c s → check s c = Ret (x, c') → calm c x c').

Lemma calm_refl c : ok c → calm c None c.
Proof. split; [apply quiet_check_refl|done]. Qed.
Lemma or_else_calm c r k x c' :
  (∀ x1 c1, r = Ret (x1, c1) → calm c x1 c1) →
  (∀ x1 c1, calm c x1 c1 → k c1 = Ret (x, c') → calm c1 x c') →
  or_else r k = Ret (x, c') → calm c x c'.
Proof.
  intros Hr Hk (x1 & c1 & E & H)%or_else_inv. pose proof (Hr _ _ E) as [Q1 O1].
  rewrite (qu_none _ _ _ Q1) in H. destruct (Hk x1 c1 ltac:(done) H) as [Q2 O2].
  split; [by eapply quiet_check_trans|done].
Qed.
Lemma unders_calm c x c' l : calm c x c' → Forall (under c) l → Forall (under c') l.
Proof. intros [Q _] Hl. eapply Forall_impl; [exact Hl|]. intros d. by eapply under_quiet. Qed.
Lemma expr_calm e c x c' :
  ok c → Forall (under c) (visited e) → sym_check_expr_deps check e c = Ret (x, c') → calm c x c'.
Proof.
  revert c x c'. induction e; simpl; intros c x c' Hf Hl;
    try (intros [= <- <-]; by apply calm_refl); eauto.
  - apply Forall_app in Hl as [Hl1 Hl2]. apply or_else_calm; [eauto|]. intros x1 c1 Q.
    apply IHe2; [apply Q|by eapply unders_calm].
  - apply Forall_cons in Hl as [Hl1 Hl2]. apply or_else_calm; [eauto|]. intros x1 c1 Q.
    apply Hq; [apply Q|]. by eapply (unders_calm _ _ _ _ Q), Forall_cons in Hl2 as [? _].
  - apply Forall_cons in Hl as [Hl1 _]. eauto.
Qed.
Lemma props_calm b l c x c' :
  ok c → Forall (under c) (visited_props b l) → check_props check b l c = Ret (x, c') → calm c x c'.
Proof.
  revert c x c'. induction l as [|p l IH]; simpl; intros c x c' Hf Hl;
    [intros [= <- <-]; by apply calm_refl|].
  destruct (skipped p); [by apply IH|]. apply Forall_app in Hl as [[Hv He]%Forall_app Hl].
  apply or_else_calm; [intros ? ?; by apply expr_calm|]. intros x1 c1 Q1.
  destruct (_ || _); [apply IH; [apply Q1|by eapply unders_calm]|].
  apply or_else_calm; [intros ? ?; apply expr_calm; [apply Q1|by eapply unders_calm]|].
  intros x2 c2 Q2. apply IH; [apply Q2|]. eapply unders_calm; [exact Q2|]. by eapply unders_calm.
Qed.
Lemma sym_calm s c x c' :
  ok c → Forall (under c) (edges (ks st0 s)) → sym_check_sym_deps check s c = Ret (x, c') → calm c x c'.
Proof.
  intros Hf. rewrite <- (edges_rest _ _ (fr_sym _ _ (ok_frame _ Hf) s)). unfold sym_check_sym_deps, edges.
  set (k := ks (h_st c) s). clearbody k. rewrite !Forall_app. intros (H1 & H2 & H3 & H4).
  apply or_else_calm; [intros ? ?; by apply expr_calm|]. intros x1 c1 Q1.
  apply (unders_calm _ _ _ _ Q1) in H2, H3, H4.
  apply or_else_calm; [intros ? ?; apply expr_calm; [apply Q1|done]|]. intros x2 c2 Q2.
  apply (unders_calm _ _ _ _ Q2) in H3, H4.
  apply or_else_calm; [intros ? ?; apply expr_calm; [apply Q2|done]|]. intros x3 c3 Q3.
  apply (unders_calm _ _ _ _ Q3) in H4. apply props_calm; [apply Q3|done].
Qed.
Lemma values_calm l c x c' :
  ok c → Forall (λ v, Forall (under c) (edges (ks st0 v))) l →
  check_values_deps check l c = Ret (x, c') → calm c x c'.
Proof.
  revert c x c'. induction l as [|v l IH]; simpl; intros c x c' Hf Hl;
    [intros [= <- <-]; by apply calm_refl|].
  apply Forall_cons in Hl as [Hv Hl]. apply or_else_calm; [intros ? ?; by apply sym_calm|].
  intros x1 c1 Q. apply IH; [apply Q|]. eapply Forall_impl; [exact Hl|]. intros y. by eapply unders_calm.
Qed.

Lemma edge_level s d g :
  d ∈ edges (ks st0 s) → (level s ≤ level g)%nat →
  (level d < level g)%nat ∨ has SYMBOL_CHOICE (ks st0 d) = true ∧ s ∈ values st0 d.
Proof. intros Hd Hg. destruct (le_edge _ _ Hlev s d Hd) as [?|?]; [left; lia|by right]. Qed.
(** The dependencies of a symbol that is put on the path with its group. *)
Lemma begin_under c l s :
  frame st0 (h_st c) → NoDup l → Forall (known st0) l → (∀ g, on_path c g → (level s < level g)%nat) →
  (∀ g, g ∈ l → level g = level s) →
  (∀ d, has SYMBOL_CHOICE (ks st0 d) = true → s ∉ values st0 d) →
  Forall (under (mark_all (raise checking) l c)) (edges (ks st0 s)).
Proof.
  intros Hf Hnd Hk Hg Hl Hv. apply Forall_forall. intros d Hd. left. intros g.
  unfold mark_all. simpl. rewrite (ks_group st0) by done.
  case_decide as Hin; intros Hp.
  - destruct (edge_level s d g Hd) as [?|[? ?]]; [by rewrite (Hl g Hin)|done|]. by edestruct Hv.
  - specialize (Hg g Hp). destruct (edge_level s d g Hd) as [?|[? ?]]; [lia|done|]. by edestruct Hv.
Qed.

Lemma plain_quiet s c x c' :
  ok c → (∀ g, on_path c g → (level s < level g)%nat) →
  has SYMBOL_CHOICE (ks st0 s) = false → has SYMBOL_CHOICEVAL (ks st0 s) = false →
  has SYMBOL_CHECK (ks (h_st c) s) = false → is_checked (ks (h_st c) s) = false →
  sym_check_sym_deps check s (on_syms (upd s (raise checking)) c) = Ret (x, c') →
  quiet c x (on_syms (upd s (lower SYMBOL_CHECK)) c').
Proof.
  intros [F0 HS] Hg H1 H2 Hp Hun E. pose proof (se_frame _ _ _ HS) as Hf.
  destruct (decide (known st0 s)) as [Hk|Hk].
  - pose proof (plain_begin st0 Hgo s c F0 HS Hk H1 H2 Hun) as HS0.
    apply sym_calm in E as [[-> R F P] O1]; [|by exists F0|].
    + assert (frame (h_st c) (h_st c')) as Fc.
      { eapply frame_trans; [apply (frame_upd (raise checking) s); auto with kcheck|exact F]. }
      constructor; [done|done| |].
      { eapply frame_trans; [exact Fc|apply frame_upd; auto with kcheck]. }
      intros y. simpl. destruct (decide (y = s)) as [->|Hy].
      * rewrite ks_upd_same by (apply (known_frame st0); [by apply ok_frame|done]).
        by rewrite has_lower_same, Hp.
      * rewrite ks_upd_ne by congruence. rewrite P. simpl. by rewrite ks_upd_ne by congruence.
    + apply (begin_under c [s]); [done|apply NoDup_singleton|by apply Forall_singleton|done|..].
      * by intros g ->%list_elem_of_singleton.
      * intros d Hd Hs. destruct (value_of st0 Hgo d s Hd Hs) as (_ & ? & _). congruence.
  - assert (∀ f, upd s f (h_st c) = h_st c) as Hu.
    { intros f. apply upd_unknown. by rewrite known_frame. }
    rewrite on_syms_id, (unknown_deps _ (h_st c)) in E by (done || by rewrite known_frame). simplify_eq.
    rewrite on_syms_id by done. apply quiet_check_refl.
Qed.
Lemma value_level s v :
  has SYMBOL_CHOICE (ks st0 s) = true → v ∈ values st0 s →
  level v = level s ∧ v ≠ s ∧ choice_of st0 v = Ret (Some s).
Proof.
  intros Hs Hv. destruct (value_of st0 Hgo s v Hs Hv) as (_ & Hcv & Hch).
  split_and!; [by apply (le_group _ _ Hlev)| |done]. intros ->.
  destruct (go_choice _ Hgo s Hs) as [? _]. congruence.
Qed.

(** The stages of the walk of a choice: its group is put on the path, its own
    dependencies are visited, it is taken from the path. *)
Section stages.
Context (s : symbol) (c c1 : chk) (x1 : option symbol) (Hf : frame st0 (h_st c)).
Context (Hs : has SYMBOL_CHOICE (ks st0 s) = true) (Hg : ∀ g, on_path c g → (level s < level g)%nat).
Let l0 := values st0 s.
Let c0 := mark_all (raise checking) (l0 ++ [s]) c.
Let c2 := on_syms (upd s (lower SYMBOL_CHECK)) c1.
Context (Q1 : quiet c0 x1 c1).

Lemma stage_frame : frame (h_st c) (h_st c0) ∧ frame st0 (h_st c0) ∧ frame st0 (h_st c1).
Proof.
  assert (frame (h_st c) (h_st c0)) as F0 by (apply frame_marks; auto with kcheck).
  assert (frame st0 (h_st c0)) as Hf0 by (by eapply frame_trans).
  split_and!; [done|done|]. eapply frame_trans; [exact Hf0|apply Q1].
Qed.
Lemma stage_known : known (h_st c1) s.
Proof. apply (known_frame st0); [apply stage_frame|by apply choice_known]. Qed.
Lemma stage_path g :
  has SYMBOL_CHECK (ks (h_st c2) g) =
  if decide (g = s) then false
  else if decide (g ∈ l0) then true else has SYMBOL_CHECK (ks (h_st c) g).
Proof.
  destruct (group_list st0 Hgo s Hs) as [Hnd Hk]. unfold c2. simpl.
  destruct (decide (g = s)) as [->|Hgs].
  - rewrite ks_upd_same by apply stage_known. by rewrite has_lower_same.
  - rewrite ks_upd_ne by congruence. rewrite (qu_path _ _ _ Q1). unfold c0, mark_all. simpl.
    rewrite (ks_group st0) by done. destruct (decide (g ∈ l0)) as [Hin|Hin].
    + rewrite decide_True by set_solver. apply check_raised.
    + by rewrite decide_False by set_solver.
Qed.
Lemma stage_checked : is_checked (ks (h_st c2) s) = true.
Proof.
  destruct (group_list st0 Hgo s Hs) as [Hnd Hk]. unfold c2. simpl.
  rewrite ks_upd_same by apply stage_known. rewrite has_lower_disj by done.
  apply (sr_checked _ _ (fr_sym _ _ (qu_frame _ _ _ Q1) s)). unfold c0, mark_all. simpl.
  rewrite (ks_group st0) by done. rewrite decide_True by set_solver. apply checked_raised.
Qed.
Lemma stage_under : Forall (λ v, Forall (under c2) (edges (ks st0 v))) l0.
Proof.
  apply Forall_forall. intros v Hv. destruct (value_level s v Hs Hv) as (Lv & _ & Cv). apply Forall_forall.
  intros d Hd. destruct (le_edge _ _ Hlev v d Hd) as [Hlt|[Hch Hin]].
  - left. intros g. rewrite stage_path. destruct (decide (g = s)); [done|].
    destruct (decide (g ∈ l0)) as [Hg0|_]; [destruct (value_level s g Hs Hg0); lia|].
    intros Hp. specialize (Hg g Hp). lia.
  - right. destruct (value_of st0 Hgo d v Hch Hin) as (_ & _ & Cd). assert (d = s) as -> by congruence.
    split; [apply stage_checked|]. by rewrite stage_path, decide_True.
Qed.
End stages.

Lemma choice_quiet s c x c' :
  ok c → (∀ g, on_path c g → (level s < level g)%nat) →
  has SYMBOL_CHOICE (ks st0 s) = true → is_checked (ks (h_st c) s) = false →
  sym_check_choice_deps check s c = Ret (x, c') → quiet c x c'.
Proof.
  intros [F HS] Hg Hs Hun (p & l & x1 & c3 & E1 & E2 & E & -> & Hx)%choice_inv.
  pose proof (se_frame _ _ _ HS) as Hf. rewrite (frame_values st0 c s p l) in * by done. clear E1 E2.
  destruct (group_begin st0 Hgo c F s HS Hs Hun) as (HS0 & Hnd & Hk & Hu).
  apply walk_inv in E as (x0 & c1 & E & H). rewrite mark_all_app in E.
  set (c2 := on_syms (upd s (lower SYMBOL_CHECK)) c1) in *.
  apply sym_calm in E as Q; [destruct Q as [Q1 O1]|by exists F|].
  2: { apply begin_under; [done..| |].
       - intros g [Hv| ->%list_elem_of_singleton]%elem_of_app; [by apply value_level|done].
       - intros d Hd Hv. destruct (value_of st0 Hgo d s Hd Hv) as (_ & ? & _).
         destruct (go_choice _ Hgo s Hs) as [? _]. congruence. }
  rewrite (qu_none _ _ _ Q1) in H. destruct (stage_frame s c c1 x0 Hf Q1) as (F0 & _ & Hf1).
  destruct (choice_turn st0 Hgo rie check Hrun Hfin s c F x0 c1 HS Hs Hun E (qu_reports _ _ _ Q1))
    as (G & S2 & _).
  apply values_calm in H as Q; [destruct Q as [Q3 O3]|by eexists|by apply (stage_under s c c1 x0)].
  rewrite (qu_none _ _ _ Q3) in Hx. apply NoDup_app in Hnd as (Hnd0 & _). apply Forall_app in Hk as [Hk0 _].
  constructor; [done| | |].
  - simpl. rewrite (qu_reports _ _ _ Q3). unfold c2. simpl. by rewrite (qu_reports _ _ _ Q1).
  - eapply frame_trans; [|apply frame_marks; auto with kcheck]. eapply frame_trans; [|apply Q3].
    eapply frame_trans; [|apply frame_upd; auto with kcheck]. eapply frame_trans; [exact F0|apply Q1].
  - intros y. unfold mark_all. simpl. rewrite (ks_group st0); [|done|done|by apply ok_frame].
    assert (∀ v, v ∈ values st0 s ++ [s] → has SYMBOL_CHECK (ks (h_st c) v) = false) as Hoff.
    { intros v Hv. apply (unchecked_free st0 _ F); [done|]. by apply (proj1 (Forall_forall _ _) Hu). }
    destruct (decide (y ∈ values st0 s)) as [Hy|Hy].
    + rewrite has_lower_same by done. symmetry. apply Hoff. set_solver.
    + rewrite (qu_path _ _ _ Q3). unfold c2. rewrite (stage_path s c c1 x0) by done.
      destruct (decide (y = s)) as [->|]; [symmetry; apply Hoff; set_solver|]. by rewrite decide_False.
Qed.
Lemma body_calm s c x c' : ok c → under c s → check_body rie check s c = Ret (x, c') → calm c x c'.
Proof.
  intros Hok Hun E. cut (quiet c x c').
  { intros Q. split; [done|]. destruct Hok as [F HS].
    destruct (body_fin st0 Hgo rie check Hrun Hfin s c x c' E F HS (qu_reports _ _ _ Q)) as (_ & G & S & _).
    by eexists. }
  revert E. unfold check_body. destruct (static_choice st0 _ s (ok_frame _ Hok)) as [-> ->].
  destruct (has SYMBOL_CHECK _) eqn:Hp.
  { destruct Hun as [Hun|[_ Hun]]; [|congruence]. specialize (Hun s Hp). lia. }
  destruct (has SYMBOL_CHECKED _) eqn:Hc; [intros [= <- <-]; apply quiet_check_refl|].
  destruct Hun as [Hun|[Hun _]]; [|congruence].
  intros H. apply bind_ret_inv in H as ([x1 c1] & E & [= <- <-]).
  assert (quiet c x1 c1) as Q.
  { destruct (has SYMBOL_CHOICEVAL _) eqn:Hv; [|destruct (has SYMBOL_CHOICE _) eqn:Hch].
    - apply bind_ret_inv in E as (d & Ed & E). destruct d as [d|]; [|done].
      rewrite (frame_choice_of _ _ _ (ok_frame _ Hok)) in Ed.
      destruct (go_value _ Hgo s Hv) as (d' & Hd' & Hch & Hin). assert (d' = d) as -> by congruence.
      apply (Hq d); [done| |done]. left. intros g Hg. rewrite <- (le_group _ _ Hlev d s Hch Hin). auto.
    - by eapply choice_quiet.
    - apply bind_ret_inv in E as ([x2 c2] & E & [= <- <-]). by apply plain_quiet. }
  pose proof (qu_none _ _ _ Q) as ->. by rewrite andb_false_r.
Qed.
End quiet.
Lemma fuel_calm rie st0 level n s c x c' :
  groups_ok st0 → leveled st0 level → ok st0 c → under level c s →
  check_fuel rie n s c = Ret (x, c') → calm st0 c x c'.
Proof.
  intros Hgo Hlev. revert s c x c'. induction n as [|n IH]; intros s c x c' Hok Hu; [done|].
  apply (body_calm st0 Hgo level Hlev rie); [apply fuel_run|intros *; by apply fuel_fin| |done|done].
  intros *. apply IH.
Qed.

Lemma symbols_calm rie st0 level l n c m c' :
  groups_ok st0 → leveled st0 level → ok st0 c →
  (∀ g, has SYMBOL_CHECK (ks (h_st c) g) = false) →
  check_symbols rie l n c = Ret (m, c') → m = n ∧ h_reports c' = h_reports c.
Proof.
  intros Hgo Hlev. revert n c. induction l as [|s l IH]; simpl; intros n c Hok Hp H; [by simplify_eq|].
  apply bind_ret_inv in H as ([x c1] & E & H).
  destruct (fuel_calm _ _ level _ _ _ _ _ Hgo Hlev Hok ltac:(by left; intros g; rewrite Hp) E) as [[-> R _ P] Hok1].
  destruct (IH _ _ Hok1 ltac:(intros g; by rewrite P) H) as [-> R1]. split; [done|congruence].
Qed.
Lemma deps_return rie st0 s c :
  groups_ok st0 → frame st0 (h_st c) → ∃ x c', sym_check_deps rie s c = Ret (x, c').
Proof.
  intros Hgo Hf. pose proof (fuel_returns rie st0 (unchecked (h_st c)) (2 * unchecked (h_st c) + 2) s c Hgo
    ltac:(by split) ltac:(by left)) as Hr.
  unfold sym_check_deps. destruct (check_fuel _ _ s c) as [[x c']|]; [eauto|done].
Qed.
Lemma symbols_return rie st0 l n c :
  groups_ok st0 → frame st0 (h_st c) → ∃ m c', check_symbols rie l n c = Ret (m, c').
Proof.
  intros Hgo. revert n c. induction l as [|s l IH]; simpl; intros n c Hf; [eauto|].
  destruct (deps_return rie st0 s c Hgo Hf) as (x & c1 & E). rewrite E. cbn [mbind result_bind].
  apply IH. eapply frame_trans; [exact Hf|]. by apply (fuel_run rie) in E as [? _].
Qed.

(** ** Tables for which values are calculated *)

(** A condition, as the grammar has it. *)
Fixpoint condition (e : expr) : bool :=
  match e with
  | NULL | SYMBOL _ | COMP _ _ _ => true
  | NOT l => condition l
  | BIN _ l r => condition l && condition r
  | NONE | LIST _ _ | RANGE _ _ => false
  end.
Lemma condition_visited e : condition e = true → visited e = expr_syms e.
Proof.
  induction e; simpl; try done. intros [H1 H2]%andb_true_iff. by rewrite IHe1, IHe2.
Qed.
Definition prop_plain (p : property) : bool :=
  condition (p_visible p) && (negb (p_text p) || negb (skipped p)) &&
  match p_type p with P_DEFAULT => condition (p_expr p) | _ => true end.
(** The bounds of a range are symbols that depend on nothing. *)
Definition range_plain (st : state) (p : property) : Prop :=
  p_type p = P_RANGE → Forall (λ d, deps (ks st d) = []) (expr_syms (p_expr p)).
Record plain_sym (st : state) (k : ksym) : Prop := {
  ps_flags : has plain_flags k = false;
  ps_name : k_type k = S_UNKNOWN → k_name k ≠ None;
  ps_user : textual (k_type k) → has SYMBOL_DEF_USER k = true → kval_text (v_val (k_user k)) ≠ None;
  ps_props : Forall (λ p, prop_ok p ∧ prop_plain p = true ∧ range_plain st p) (k_props k);
  ps_conds : condition (ev_expr (k_dir k)) && condition (ev_expr (k_rev k))
             && condition (ev_expr (k_imp k)) = true;
  ps_deps : Forall (exists_sym st) (deps k)
}.
(** Two tables with the same dependencies. *)
Record same_deps (st st' : state) : Prop := {
  sd_len : length (syms st') = length (syms st);
  sd_props : ∀ s, k_props (ks st' s) = k_props (ks st s);
  sd_dir : ∀ s, ev_expr (k_dir (ks st' s)) = ev_expr (k_dir (ks st s));
  sd_rev : ∀ s, ev_expr (k_rev (ks st' s)) = ev_expr (k_rev (ks st s));
  sd_imp : ∀ s, ev_expr (k_imp (ks st' s)) = ev_expr (k_imp (ks st s));
  sd_choice : ∀ s, has SYMBOL_CHOICE (ks st' s) = has SYMBOL_CHOICE (ks st s)
}.
Lemma same_deps_edges st st' s : same_deps st st' → edges (ks st' s) = edges (ks st s).
Proof.
  intros [_ H1 H2 H3 H4 H5]. unfold edges. by rewrite H1, H2, H3, H4, H5.
Qed.

(** What the calculation reads is visited, but for the bounds of ranges. *)
Lemma deps_visited st k d :
  plain_sym st k → d ∈ deps k → d ∈ edges k ∨ deps (ks st d) = [].
Proof.
  intros [Hfl _ _ Hp Hc _] Hd. apply andb_true_iff in Hc as [[C1 C2]%andb_true_iff C3].
  assert (has SYMBOL_CHOICE k = false) as Hch by (eapply has_sub; [|exact Hfl]; done).
  unfold deps in Hd. unfold edges. rewrite !condition_visited, Hch by done. rewrite !elem_of_app in *.
  destruct Hd as [?|[?|[?|Hd]]]; [by left; left|by left; right; left|by left; right; right; left|].
  cut (d ∈ visited_props false (k_props k) ∨ deps (ks st d) = []); [tauto|]. clear C1 C2 C3 Hch Hfl.
  induction Hp as [|p l (_ & Hpp & Hpr) _ IH]; [by apply not_elem_of_nil in Hd|].
  rewrite fmap_cons in Hd. cbn [concat] in Hd. cbn [visited_props]. rewrite elem_of_app in Hd |- *.
  destruct Hd as [Hd|Hd]; [|destruct (IH Hd); tauto]. unfold prop_syms in Hd. unfold prop_plain in Hpp.
  apply andb_true_iff in Hpp as [[Hv Ht]%andb_true_iff He]. rewrite elem_of_app in Hd.
  destruct Hd as [Hd|Hd].
  - destruct (p_text p || read_type (p_type p)) eqn:Er; [|by apply not_elem_of_nil in Hd].
    assert (skipped p = false) as ->.
    { destruct (p_text p); [by apply negb_true_iff in Ht|]. unfold skipped. simpl in Er. by destruct (p_type p). }
    left. left. rewrite condition_visited by done. set_solver.
  - destruct (p_type p) eqn:Ep; simpl in Hd; try (by apply not_elem_of_nil in Hd).
    + left. left. unfold skipped. rewrite Ep. rewrite bool_decide_eq_true_2 by done. simpl.
      rewrite !condition_visited by done. set_solver.
    + right. by apply (proj1 (Forall_forall _ _) (Hpr Ep)).
Qed.

(** A numbering for the calculation from one for the search. *)
Definition calc_ranking (st : state) (rk : symbol → nat) : Ranking :=
  {| rank := λ s, if decide (deps (ks st s) = []) then 0%nat else S (rk s) |}.
Lemma plain_wf st rk s :
  plain_sym st (ks st s) → (∀ d, d ∈ edges (ks st s) → (rk d < rk s)%nat) →
  @wf_sym (calc_ranking st rk) st s (ks st s).
Proof.
  intros HP Hrk. constructor; try apply HP.
  - eapply Forall_impl; [apply HP|]. by intros p [? _].
  - apply Forall_forall. intros d Hd. split; [by apply (proj1 (Forall_forall _ _) (ps_deps _ _ HP))|].
    cbn. rewrite (decide_False (P := deps (ks st s) = [])).
    2: { intros E. rewrite E in Hd. by apply not_elem_of_nil in Hd. }
    case_decide as H0; [lia|]. destruct (deps_visited st _ d HP Hd) as [He|]; [|done].
    specialize (Hrk d He). lia.
Qed.

Lemma check_all_sound `{Arch} rie st n c' :
  hash_ok st → groups_ok st → unmarked st → check_all rie st = Ret (n, c') →
  h_reports c' = [] ∨ rie = true ∧ n = 0 →
  ∃ rk : symbol → nat, ∀ s d, known st s → d ∈ edges (ks st s) → (rk d < rk s)%nat.
Proof.
  intros Hh Hgo Hu E Hq. unfold check_all in E.
  assert (h_reports c' = []) as Hr.
  { destruct Hq as [?|[-> ->]]; [done|]. apply symbols_run in E as (_ & _ & r & Er & Hr).
    rewrite Er, Hr by done. done. }
  destruct (symbols_fin rie st _ _ _ _ _ [] Hgo E Hr (searched_start _ Hu)) as (_ & G & HS & HF).
  rewrite app_nil_r in HS, HF. exists (place G). intros s d Hs Hd.
  apply (place_edge st); [apply HS| | |done].
  - apply Forall_forall. intros x Hx. by apply (se_fin _ _ _ HS).
  - assert (fin st G s) as [?|?]; [|done|done].
    apply (proj1 (Forall_forall _ _) HF). by apply in_all_symbols.
Qed.

(** ** Results *)

(** The check for recursive dependencies returns for every symbol, from
    any state of the marks: the depth of the search is bounded by the number
    of symbols not yet seen, more room changes nothing, and no pointer of a
    choice is followed wrongly.  It is enough that choices and their values
    refer to each other and are not nested. *)
Theorem check_deps_returns rie s c :
  groups_ok (h_st c) →
  (∃ x c', sym_check_deps rie s c = Ret (x, c')) ∧
  (∀ n, (2 * unchecked (h_st c) + 2 ≤ n)%nat → check_fuel rie n s c = sym_check_deps rie s c).
Proof.
  intros Hgo. pose proof (deps_return rie _ s c Hgo (frame_refl _)) as (x & c' & E).
  split; [eauto|]. intros n Hn. destruct (check_fuel_mono rie _ n s c Hn) as [H|H]; [|done].
  unfold sym_check_deps in E. congruence.
Qed.

(** C25: The dependencies that the check follows have no cycle when they pass
    it: when all symbols of the table are checked and no message is printed (or
    recursion is an error and none is counted), the symbols can be numbered so
    that every symbol that occurs in the dependencies of another, in what
    selects or implies it, in the conditions of its prompts, defaults and
    ranges, or in the values of its defaults unless it is a choice, has a lower
    number than it.  Not followed, and so not claimed, are the bounds of ranges,
    and the values of a choice as its list and its defaults name them: these
    depend on the choice in turn. *)
Theorem check_sound `{Arch} rie st :
  hash_ok st → groups_ok st → unmarked st →
  ∃ n c', check_all rie st = Ret (n, c') ∧ frame st (h_st c') ∧
    (h_reports c' = [] ∨ rie = true ∧ n = 0 →
     ∃ rk : symbol → nat, ∀ s d, known st s → d ∈ edges (ks st s) → (rk d < rk s)%nat).
Proof.
  intros Hh Hgo Hu. destruct (symbols_return rie st (all_symbols st) 0 (Chk st []) Hgo (frame_refl _))
    as (n & c' & E).
  exists n, c'. split_and!; [done|by apply symbols_run in E as (_ & ? & _)|by apply check_all_sound].
Qed.

(** C27: The check gives no false alarm: when the symbols can be numbered so that
    dependencies go down, a choice and its values having one number, the
    check of the whole table prints no message and counts no error. *)
Theorem check_quiet rie st level :
  groups_ok st → unmarked st → leveled st level →
  ∃ c', check_all rie st = Ret (0, c') ∧ h_reports c' = [].
Proof.
  intros Hgo Hu Hl. destruct (symbols_return rie st (all_symbols st) 0 (Chk st []) Hgo (frame_refl _))
    as (n & c' & E).
  assert (ok st (Chk st [])) as Hok by (exists []; by apply searched_start).
  destruct (symbols_calm rie st level _ _ _ _ _ Hgo Hl Hok ltac:(intros g; by apply (unmarked_ks st)) E)
    as [-> Hr].
  by exists c'.
Qed.

(** C26: A configuration that passes the check has well-defined values: if the
    check of the table [st] prints no message, then in any later table with
    the same dependencies, without choices and with ranges bounded by
    constants, once the module symbol is calculated, the calculation of any
    list of symbols returns in whatever order it is made, and gives every
    symbol the same value and the value that its description states. *)
Theorem checked_values `{Arch} rie st n c' st1 l1 l2 :
  hash_ok st → groups_ok st → unmarked st →
  check_all rie st = Ret (n, c') → h_reports c' = [] →
  same_deps st st1 → (∀ s, known st1 s → plain_sym st1 (ks st1 s)) → valid st1 (modules st1) →
  (∀ s, known st1 s → valid st1 s → described st1 (ks st1 s)) →
  Forall (exists_sym st1) l1 → l1 ≡ₚ l2 →
  ∃ st2 st3, calc_list l1 st1 = Ret st2 ∧ calc_list l2 st1 = Ret st3 ∧
    ∀ s, s ∈ l1 → same_values (ks st2 s) (ks st3 s) ∧
                  (known st1 s → described st2 (ks st2 s)).
Proof.
  intros Hh Hgo Hu E Hr HD HP Hm Hv Hl Hp.
  destruct (check_all_sound rie st n c' Hh Hgo Hu E (or_introl Hr)) as (rk & Hrk).
  assert (@consistent (calc_ranking st1 rk) st1) as Hc.
  { split_and!; [|done|done]. intros s Hs. apply plain_wf; [by apply HP|]. intros d Hd.
    rewrite (same_deps_edges _ _ _ HD) in Hd. apply Hrk; [|done].
    destruct s; simpl in *; by rewrite <- ?(sd_len _ _ HD). }
  assert (Forall (exists_sym st1) l2) as Hl2 by (by rewrite <- Hp).
  destruct (calc_list_consistent (RK := calc_ranking st1 rk) l1 st1 Hc Hl) as (st2 & R2 & C2 & T2 & V2 & _).
  destruct (calc_list_consistent (RK := calc_ranking st1 rk) l2 st1 Hc Hl2) as (st3 & R3 & C3 & T3 & V3 & _).
  assert (same_table st2 st3) as T by (eapply same_table_trans; [by apply same_table_sym|done]).
  exists st2, st3. split_and!; [done..|]. intros s Hs. split.
  - destruct (decide (known st2 s)) as [Hk|Hk]; [|by rewrite (unknown_same st2 st3 s (sa_len _ _ T) Hk)].
    apply (consistent_unique (RK := calc_ranking st1 rk)); auto. apply V3. right. by rewrite <- Hp.
  - intros Hk. apply C2; [|by apply V2; right]. destruct s; simpl in *; by rewrite ?(sa_len _ _ T2).
Qed.

(** ** A small configuration *)

Lemma edit_same_names st st' :
  symbol_hash st' = symbol_hash st →
  Forall2 (λ k k', k_name k' = k_name k ∧ has SYMBOL_CONST k' = has SYMBOL_CONST k ∧
                   has SYMBOL_CHOICE k' = has SYMBOL_CHOICE k) (syms st) (syms st') →
  same_names st st'.
Proof.
  intros Hh H2. assert (∀ s, k_name (ks st' s) = k_name (ks st s) ∧ same_class (ks st' s) (ks st s)) as Hs.
  { intros [| | |n]; try done. simpl. revert n. induction H2 as [|k k' l l' (H1 & H2 & H3) _ IH]; intros n.
    - by destruct n.
    - destruct n as [|n]; [done|apply IH]. }
  constructor; [done|by rewrite (Forall2_length _ _ _ H2)|apply Hs|apply Hs].
Qed.

Module DemoCheck.
Definition names : list (option (list Z) * Z) :=
  [(Some (cs "MODULES"), 0); (Some (cs "FOO"), 0); (Some (cs "BAR"), 0);
   (None, SYMBOL_CHOICE); (Some (cs "A"), 0); (Some (cs "B"), 0)].
Definition looked : state :=
  Eval vm_compute in foldl (λ st n, (@sym_lookup x86_64 n.1 n.2 st).2) empty_table names.
Definition prompt (e : expr) : property := Prop_ P_PROMPT true e NULL.
Definition sym (n : option (list Z)) (ty : symbol_type) (fl : Z) (props : list property) (dir : expr) :
    ksym :=
  KSym n ty fl (Val VNull no) (Val VNull no) no props (EVal dir no) (EVal NULL no) (EVal NULL no).
Definition table : list ksym :=
  [ sym (Some (cs "MODULES")) S_BOOLEAN 0 [Prop_ P_DEFAULT false NULL (SYMBOL symbol_yes)] NULL;
    sym (Some (cs "FOO")) S_TRISTATE 0 [prompt NULL; Prop_ P_SELECT false NULL (SYMBOL (Sym 0))] NULL;
    sym (Some (cs "BAR")) S_BOOLEAN 0
      [prompt (SYMBOL (Sym 1)); Prop_ P_DEFAULT false NULL (SYMBOL (Sym 1))] (SYMBOL (Sym 1));
    sym None S_BOOLEAN SYMBOL_CHOICE
      [prompt NULL; Prop_ P_CHOICE false NULL (LIST (LIST NULL (Sym 5)) (Sym 4))] NULL;
    sym (Some (cs "A")) S_BOOLEAN SYMBOL_CHOICEVAL
      [prompt (SYMBOL (Sym 3)); Prop_ P_CHOICE false NULL (SYMBOL (Sym 3))] (SYMBOL (Sym 3));
    sym (Some (cs "B")) S_BOOLEAN SYMBOL_CHOICEVAL
      [prompt (BIN AND (SYMBOL (Sym 3)) (SYMBOL (Sym 2))); Prop_ P_CHOICE false NULL (SYMBOL (Sym 3))]
      (SYMBOL (Sym 3)) ].
Definition st : state := State table (symbol_hash looked) no (Sym 0) false.
Definition level (s : symbol) : nat :=
  match s with Sym 2 => 2 | Sym 3 | Sym 4 | Sym 5 => 3 | Sym _ => 1 | _ => 0 end%nat.
(** The symbols before the choice, and the table with MODULES calculated. *)
Definition looked3 : state :=
  Eval vm_compute in foldl (λ st n, (@sym_lookup x86_64 n.1 n.2 st).2) empty_table (take 3 names).
Definition st3 : state := State (take 3 table) (symbol_hash looked3) no (Sym 0) false.
Definition ready3 : state :=
  Eval vm_compute in match sym_calc_value (Sym 0) st3 with Ret st => st | Fault _ => st3 end.
End DemoCheck.
Lemma parsed_lookups `{Arch} l st :
  Forall (λ n : option (list Z) * Z, (∃ w, n = (Some w, 0)) ∨ n.2 = SYMBOL_CHOICE) l →
  parsed st → parsed (foldl (λ st n, (sym_lookup n.1 n.2 st).2) st l).
Proof.
  intros Hl. revert st. induction Hl as [|[n fl] l Hn _ IH]; intros st Hp; [done|]. cbn [foldl].
  apply IH. eapply parsed_step; [exact Hp|]. destruct Hn as [[w [= -> ->]]|Hfl].
  - apply parse_word.
  - simpl in Hfl. rewrite Hfl. apply parse_choice.
Qed.
Lemma built_hash_ok l st st' :
  Forall (λ n : option (list Z) * Z, (∃ w, n = (Some w, 0)) ∨ n.2 = SYMBOL_CHOICE) l →
  foldl (λ st n, (@sym_lookup x86_64 n.1 n.2 st).2) empty_table l = st →
  same_names st st' → @hash_ok x86_64 st'.
Proof.
  intros Hl <- Hs. apply parsed_ok. eapply parsed_step; [|by apply parse_edit].
  apply parsed_lookups; [done|apply parsed_start].
Qed.
Lemma demo_names_ok :
  Forall (λ n : option (list Z) * Z, (∃ w, n = (Some w, 0)) ∨ n.2 = SYMBOL_CHOICE) DemoCheck.names.
Proof.
  unfold DemoCheck.names.
  repeat (apply Forall_cons_2; [first [left; eexists; reflexivity|right; reflexivity]|]). apply Forall_nil_2.
Qed.
Lemma demo_hash_ok : @hash_ok x86_64 DemoCheck.st.
Proof.
  apply (built_hash_ok DemoCheck.names DemoCheck.looked); [apply demo_names_ok|vm_compute; reflexivity|].
  apply edit_same_names; [reflexivity|]. repeat constructor.
Qed.
Lemma demo_hash_ok3 : @hash_ok x86_64 DemoCheck.st3.
Proof.
  apply (built_hash_ok (take 3 DemoCheck.names) DemoCheck.looked3); [|vm_compute; reflexivity|].
  - apply Forall_take, demo_names_ok.
  - apply edit_same_names; [reflexivity|]. repeat constructor.
Qed.
Lemma demo_groups : groups_ok DemoCheck.st.
Proof.
  constructor.
  - intros [| | |n] Hv; try discriminate Hv.
    destruct n as [|[|[|[|[|[|n]]]]]]; try discriminate Hv; [..|by destruct n];
      (exists (Sym 3); split_and!; [reflexivity|reflexivity|apply (bool_decide_unpack _); exact I]).
  - intros [| | |n] Hv; try discriminate Hv.
    destruct n as [|[|[|[|[|[|n]]]]]]; try discriminate Hv; [|by destruct n].
    split_and!; [reflexivity|reflexivity|apply (bool_decide_unpack _); exact I|].
    vm_compute values. repeat (apply Forall_cons_2; [by split_and!; [vm_compute; lia|..]|]). apply Forall_nil_2.
Qed.
Lemma demo_unmarked : unmarked DemoCheck.st.
Proof. apply (bool_decide_unpack _). vm_compute. exact I. Qed.
Lemma demo_leveled : leveled DemoCheck.st DemoCheck.level.
Proof.
  constructor.
  - intros [| | |n] d Hd; try by apply not_elem_of_nil in Hd.
    destruct n as [|[|[|[|[|[|n]]]]]]; [..|by destruct n; apply not_elem_of_nil in Hd].
    all: revert d Hd; vm_compute edges; apply Forall_forall;
      repeat (apply Forall_cons_2; [first [left; vm_compute; lia
        | right; split; [reflexivity|apply (bool_decide_unpack _); exact I]]|]); apply Forall_nil_2.
  - intros [| | |n] v Hv; try discriminate Hv.
    destruct n as [|[|[|[|[|[|n]]]]]]; try discriminate Hv; [|by destruct n].
    vm_compute values. revert v. apply Forall_forall. repeat constructor.
Qed.

Lemma demo_silent rie n c' : check_all rie DemoCheck.st = Ret (n, c') → h_reports c' = [].
Proof.
  unfold check_all. intros E. eapply symbols_calm in E as [_ ->]; [done|apply demo_groups|apply demo_leveled| |].
  - exists []. apply searched_start, demo_unmarked.
  - intros g. by apply unmarked_ks, demo_unmarked.
Qed.
Lemma check_deps_returns_witness :
  ∃ x c', sym_check_deps true (Sym 5) (Chk DemoCheck.st []) = Ret (x, c').
Proof. exact (proj1 (check_deps_returns true (Sym 5) (Chk DemoCheck.st []) demo_groups)). Defined.
Lemma check_quiet_witness : ∃ c', check_all false DemoCheck.st = Ret (0, c') ∧ h_reports c' = [].
Proof. exact (check_quiet false DemoCheck.st DemoCheck.level demo_groups demo_unmarked demo_leveled). Defined.
Lemma check_sound_witness :
  ∃ rk : symbol → nat, ∀ s d, known DemoCheck.st s → d ∈ edges (ks DemoCheck.st s) → (rk d < rk s)%nat.
Proof.
  destruct (@check_sound x86_64 true DemoCheck.st demo_hash_ok demo_groups demo_unmarked)
    as (n & c' & E & _ & H).
  apply H. left. exact (demo_silent true n c' E).
Defined.

Lemma demo_groups3 : groups_ok DemoCheck.st3.
Proof.
  constructor; intros [| | |n] Hv; try discriminate Hv; destruct n as [|[|[|n]]]; try discriminate Hv;
    by destruct n.
Qed.
Lemma demo_leveled3 : leveled DemoCheck.st3 DemoCheck.level.
Proof.
  constructor.
  - intros [| | |n] d Hd; try by apply not_elem_of_nil in Hd.
    destruct n as [|[|[|n]]]; [..|by destruct n; apply not_elem_of_nil in Hd].
    all: revert d Hd; vm_compute edges; apply Forall_forall;
      repeat (apply Forall_cons_2; [left; vm_compute; lia|]); apply Forall_nil_2.
  - intros [| | |n] v Hv; try discriminate Hv. destruct n as [|[|[|n]]]; try discriminate Hv. by destruct n.
Qed.
Lemma demo_same_deps3 : same_deps DemoCheck.st3 DemoCheck.ready3.
Proof.
  constructor; [reflexivity|..]; intros [| | |n]; try reflexivity;
    destruct n as [|[|[|n]]]; try reflexivity; by destruct n.
Qed.
Lemma demo_plain3 s : known DemoCheck.ready3 s → plain_sym DemoCheck.ready3 (ks DemoCheck.ready3 s).
Proof.
  intros Hs. destruct s as [| | |n]; try done.
  destruct n as [|[|[|n]]]; [..|simpl in Hs; lia].
  all: constructor; [reflexivity|done|by intros [?|[?|?]]| |reflexivity|].
  all: try (vm_compute deps; repeat (apply Forall_cons_2; [vm_compute; first [exact I|lia]|]); apply Forall_nil_2).
  all: vm_compute k_props; repeat (apply Forall_cons_2; [split_and!; [by split|reflexivity|by intros ?]|]); apply Forall_nil_2.
Qed.
Lemma demo_described3 s :
  known DemoCheck.ready3 s → valid DemoCheck.ready3 s → described DemoCheck.ready3 (ks DemoCheck.ready3 s).
Proof.
  intros Hs Hv. destruct s as [| | |n]; try done. destruct n as [|[|[|n]]]; try discriminate Hv.
  - constructor; done.
  - simpl in Hs. lia.
Qed.
Lemma checked_values_witness :
  ∃ st2 st3, calc_list [Sym 2; Sym 1] DemoCheck.ready3 = Ret st2 ∧
    calc_list [Sym 1; Sym 2] DemoCheck.ready3 = Ret st3 ∧
    same_values (ks st2 (Sym 2)) (ks st3 (Sym 2)).
Proof.
  destruct (symbols_return true DemoCheck.st3 (all_symbols DemoCheck.st3) 0 (Chk DemoCheck.st3 [])
    demo_groups3 (frame_refl _)) as (n & c' & E).
  assert (unmarked DemoCheck.st3) as Hu by (apply (bool_decide_unpack _); vm_compute; exact I).
  assert (h_reports c' = []) as Hr.
  { eapply symbols_calm in E as [_ ->]; [reflexivity|apply demo_groups3|apply demo_leveled3| |].
    - exists []. apply searched_start, Hu.
    - intros g. apply (unmarked_ks _ g Hu). }
  destruct (@checked_values x86_64 true DemoCheck.st3 n c' DemoCheck.ready3 [Sym 2; Sym 1] [Sym 1; Sym 2]
    demo_hash_ok3 demo_groups3 Hu E Hr demo_same_deps3 demo_plain3) as (st2 & st3 & R2 & R3 & HV).
  - reflexivity.
  - exact demo_described3.
  - repeat (apply Forall_cons_2; [vm_compute; lia|]). apply Forall_nil_2.
  - constructor.
  - exists st2, st3. split; [exact R2|]. split; [exact R3|]. apply HV. constructor.
Defined.
End KconfigCheckFull.
