(* ===== verification/MtdMd5.v ===== *)
(** * MD5 of the mtd tool (package/system/mtd/src/md5.c)

    The context of md5.c with [MD5_Init], [MD5_Update] and [MD5_Final]: unlike
    the one of mkhash it counts bits, and copies its input byte by byte into
    the 64-byte buffer, transforming when the buffer is full.  It computes
    RFC 1321 for every split of a message. *)

From S2P Require Import Prelude CLib HashSpec Mkhash MkhashProps.
Import HashSpec.
Open Scope Z_scope.
Open Scope cint_scope.

Module MtdMd5.

(** ** The program *)

(** [UINT4] is 32 bits wide whatever [_LP64] says. *)
Record MD5_CTX := Ctx {
  i0 : Z; i1 : Z;                  (** number of bits handled mod 2^64 *)
  buf : Z * Z * Z * Z;
  in_ : list Z;
  digest : list Z
}.

Definition F (x y z : Z) : Z := (x .& y) .| (Z.lnot x .& z).
Definition G (x y z : Z) : Z := (x .& z) .| (y .& Z.lnot z).
Definition H (x y z : Z) : Z := (x .^ y) .^ z.
Definition I (x y z : Z) : Z := y .^ (x .| u32 (Z.lnot z)).

Definition ROTATE_LEFT (x n : Z) : Z := u32 (x .<< n) .| (x .>> (32 - n)).

(** [FF], [GG], [HH] and [II] differ in the function [f]: the new value of
    their first argument. *)
Definition STEP (f : Z → Z → Z → Z) (a b c d x s ac : Z) : Z :=
  let a := u32 (a + (f b c d + x + ac)) in
  let a := ROTATE_LEFT a s in
  u32 (a + b).

(** A line of [Transform]: the function, the variable it assigns, the index
    into [in], the rotation and the constant. *)
Inductive reg := Ra | Rd | Rc | Rb.
Definition line : Type := (Z → Z → Z → Z) * reg * nat * Z * Z.

Definition S11 := 7.
Definition S12 := 12.
Definition S13 := 17.
Definition S14 := 22.
Definition S21 := 5.
Definition S22 := 9.
Definition S23 := 14.
Definition S24 := 20.
Definition S31 := 4.
Definition S32 := 11.
Definition S33 := 16.
Definition S34 := 23.
Definition S41 := 6.
Definition S42 := 10.
Definition S43 := 15.
Definition S44 := 21.

Definition lines : list line := [
  (F, Ra, 0%nat, S11, 3614090360); (F, Rd, 1%nat, S12, 3905402710);
  (F, Rc, 2%nat, S13, 606105819); (F, Rb, 3%nat, S14, 3250441966);
  (F, Ra, 4%nat, S11, 4118548399); (F, Rd, 5%nat, S12, 1200080426);
  (F, Rc, 6%nat, S13, 2821735955); (F, Rb, 7%nat, S14, 4249261313);
  (F, Ra, 8%nat, S11, 1770035416); (F, Rd, 9%nat, S12, 2336552879);
  (F, Rc, 10%nat, S13, 4294925233); (F, Rb, 11%nat, S14, 2304563134);
  (F, Ra, 12%nat, S11, 1804603682); (F, Rd, 13%nat, S12, 4254626195);
  (F, Rc, 14%nat, S13, 2792965006); (F, Rb, 15%nat, S14, 1236535329);
  (G, Ra, 1%nat, S21, 4129170786); (G, Rd, 6%nat, S22, 3225465664);
  (G, Rc, 11%nat, S23, 643717713); (G, Rb, 0%nat, S24, 3921069994);
  (G, Ra, 5%nat, S21, 3593408605); (G, Rd, 10%nat, S22, 38016083);
  (G, Rc, 15%nat, S23, 3634488961); (G, Rb, 4%nat, S24, 3889429448);
  (G, Ra, 9%nat, S21, 568446438); (G, Rd, 14%nat, S22, 3275163606);
  (G, Rc, 3%nat, S23, 4107603335); (G, Rb, 8%nat, S24, 1163531501);
  (G, Ra, 13%nat, S21, 2850285829); (G, Rd, 2%nat, S22, 4243563512);
  (G, Rc, 7%nat, S23, 1735328473); (G, Rb, 12%nat, S24, 2368359562);
  (H, Ra, 5%nat, S31, 4294588738); (H, Rd, 8%nat, S32, 2272392833);
  (H, Rc, 11%nat, S33, 1839030562); (H, Rb, 14%nat, S34, 4259657740);
  (H, Ra, 1%nat, S31, 2763975236); (H, Rd, 4%nat, S32, 1272893353);
  (H, Rc, 7%nat, S33, 4139469664); (H, Rb, 10%nat, S34, 3200236656);
  (H, Ra, 13%nat, S31, 681279174); (H, Rd, 0%nat, S32, 3936430074);
  (H, Rc, 3%nat, S33, 3572445317); (H, Rb, 6%nat, S34, 76029189);
  (H, Ra, 9%nat, S31, 3654602809); (H, Rd, 12%nat, S32, 3873151461);
  (H, Rc, 15%nat, S33, 530742520); (H, Rb, 2%nat, S34, 3299628645);
  (I, Ra, 0%nat, S41, 4096336452); (I, Rd, 7%nat, S42, 1126891415);
  (I, Rc, 14%nat, S43, 2878612391); (I, Rb, 5%nat, S44, 4237533241);
  (I, Ra, 12%nat, S41, 1700485571); (I, Rd, 3%nat, S42, 2399980690);
  (I, Rc, 10%nat, S43, 4293915773); (I, Rb, 1%nat, S44, 2240044497);
  (I, Ra, 8%nat, S41, 1873313359); (I, Rd, 15%nat, S42, 4264355552);
  (I, Rc, 6%nat, S43, 2734768916); (I, Rb, 13%nat, S44, 1309151649);
  (I, Ra, 4%nat, S41, 4149444226); (I, Rd, 11%nat, S42, 3174756917);
  (I, Rc, 2%nat, S43, 718787259); (I, Rb, 9%nat, S44, 3951481745)].

Definition run_line (words : list Z) (st : Z * Z * Z * Z) (l : line) : Z * Z * Z * Z :=
  let '(a, b, c, d) := st in
  let '(f, r, k, s, ac) := l in
  let x := nth k words 0 in
  match r with
  | Ra => (STEP f a b c d x s ac, b, c, d)
  | Rd => (a, b, c, STEP f d a b c x s ac)
  | Rc => (a, b, STEP f c d a b x s ac, d)
  | Rb => (a, STEP f b c d a x s ac, c, d)
  end.

Definition Transform (buf : Z * Z * Z * Z) (words : list Z) : Z * Z * Z * Z :=
  let '(b0, b1, b2, b3) := buf in
  let '(a, b, c, d) := foldl (run_line words) buf lines in
  (u32 (b0 + a), u32 (b1 + b), u32 (b2 + c), u32 (b3 + d)).

(** [in[i] = (in[ii+3] << 24) | (in[ii+2] << 16) | (in[ii+1] << 8) | in[ii]]
    for the first [n] words. *)
Definition load_word (b : list Z) (i : nat) : Z :=
  match drop (4 * i) b with
  | b0 :: b1 :: b2 :: b3 :: _ => ((b3 .<< 24) .| (b2 .<< 16)) .| (b1 .<< 8) .| b0
  | _ => 0
  end.
Definition load_words (n : nat) (b : list Z) : list Z := load_word b <$> seq 0 n.

(** [junk]: what the memory of the context holds before. *)
Definition MD5_Init (junk dig : list Z) : MD5_CTX :=
  Ctx 0 0 (0x67452301, 0xefcdab89, 0x98badcfe, 0x10325476) junk dig.

(** [while (inLen--) { ... }] *)
Fixpoint update_loop (inLen : nat) (inBuf : list Z) (b : Z * Z * Z * Z) (inb : list Z) (mdi : nat)
    : result ((Z * Z * Z * Z) * list Z) :=
  match inLen with
  | O => Ret (b, inb)
  | S n =>
      c ← of_option OutOfBounds (head inBuf);
      inb ← mwrite inb mdi [c];
      let mdi := S mdi in
      if decide (mdi = 64%nat)
      then update_loop n (tail inBuf) (Transform b (load_words 16 inb)) inb 0
      else update_loop n (tail inBuf) b inb mdi
  end.

Definition MD5_Update (ctx : MD5_CTX) (inBuf : list Z) (inLen : Z) : result MD5_CTX :=
  let mdi := Z.to_nat ((i0 ctx .>> 3) .& 0x3F) in
  let bits := u32 (inLen .<< 3) in
  let n1 := if u32 (i0 ctx + bits) <? i0 ctx then u32 (i1 ctx + 1) else i1 ctx in
  let n0 := u32 (i0 ctx + bits) in
  let n1 := u32 (n1 + (inLen .>> 29)) in
  '(b, inb) ← update_loop (Z.to_nat inLen) inBuf (buf ctx) (in_ ctx) mdi;
  Ret (Ctx n0 n1 b inb (digest ctx)).

Definition PADDING : list Z := 0x80 :: replicate 63 0.

(** The bytes of the digest of one word. *)
Definition store_word (w : Z) : list Z :=
  [w .& 0xFF; (w .>> 8) .& 0xFF; (w .>> 16) .& 0xFF; (w .>> 24) .& 0xFF].

(** The hash and the context left behind. *)
Definition MD5_Final (ctx : MD5_CTX) : result (list Z * MD5_CTX) :=
  let in14 := i0 ctx in
  let in15 := i1 ctx in
  let mdi := (i0 ctx .>> 3) .& 0x3F in
  let padLen := if mdi <? 56 then 56 - mdi else 120 - mdi in
  ctx ← MD5_Update ctx PADDING padLen;
  let b := Transform (buf ctx) (load_words 14 (in_ ctx) ++ [in14; in15]) in
  let '(b0, b1, b2, b3) := b in
  dig ← mwrite (digest ctx) 0 (store_word b0 ++ store_word b1 ++ store_word b2 ++ store_word b3);
  Ret (take 16 dig, Ctx (i0 ctx) (i1 ctx) b (in_ ctx) dig).

(** ** The block function *)

Lemma nth_lookup_word (words : list Z) k x : words !! k = Some x → nth k words 0 = x.
Proof. intros Hk. by apply nth_lookup_Some with (d := 0) in Hk. Qed.

Lemma load_word_rfc b k :
  bytes_wf b → (4 * k + 4 ≤ length b)%nat → load_word b k = Rfc1321.word b k.
Proof.
  intros Hb Hl. destruct (MkhashProps.block_word b k Hb Hl) as (b0 & b1 & b2 & b3 & r & E & ? & ? & ? & ?).
  unfold load_word, Rfc1321.word. rewrite E.
  replace (((b3 .<< 24) .| (b2 .<< 16)) .| (b1 .<< 8) .| b0)
    with (((b0 .| (b1 .<< 8)) .| (b2 .<< 16)) .| (b3 .<< 24)).
  - rewrite MkhashProps.lor_bytes by done. cbn. rewrite take_0. cbn. lia.
  - apply Z.bits_inj. intros i. rewrite !Z.lor_spec.
    by destruct (Z.testbit b0 i), (Z.testbit (b1 .<< 8) i), (Z.testbit (b2 .<< 16) i), (Z.testbit (b3 .<< 24) i).
Qed.

Lemma load_word_prefix b b' k :
  take (4 * k + 4) b = take (4 * k + 4) b' → load_word b k = load_word b' k.
Proof.
  intros E. assert (take 4 (drop (4 * k) b) = take 4 (drop (4 * k) b')) as E4
    by (by rewrite !take_drop_commute, E).
  unfold load_word. destruct (drop (4 * k) b) as [|x0 [|x1 [|x2 [|x3 r]]]],
    (drop (4 * k) b') as [|y0 [|y1 [|y2 [|y3 r']]]]; cbn in E4; by simplify_eq.
Qed.

(** The words [Transform] is given are those of a block. *)
Definition words_of (words block : list Z) : Prop :=
  ∀ k, (k < 16)%nat → nth k words 0 = Rfc1321.word block k.

Lemma load_words_of b : bytes_wf b → length b = 64%nat → words_of (load_words 16 b) b.
Proof.
  intros Hb Hl k Hk. rewrite <- (load_word_rfc b k Hb) by lia. apply nth_lookup_word.
  unfold load_words. rewrite list_lookup_fmap, lookup_seq_lt by lia. done.
Qed.

(** A line of the code, as an operation of the standard. *)
Definition line_matches (l : line) (i : nat) : Prop :=
  let '(f, _, k, s, ac) := l in
  (∀ x y z, f x y z = Rfc1321.op_fun i x y z) ∧ k = Rfc1321.op_word i ∧ (k < 16)%nat ∧
  ac = default 0 (Rfc1321.T !! i) ∧ s = Rfc1321.op_shift i.

Definition next_reg (r : reg) : reg :=
  match r with Ra => Rd | Rd => Rc | Rc => Rb | Rb => Ra end.
Definition reg_view (r : reg) (st : Z * Z * Z * Z) : Z * Z * Z * Z :=
  let '(a, b, c, d) := st in
  match r with Ra => (a, b, c, d) | Rd => (d, a, b, c) | Rc => (c, d, a, b) | Rb => (b, c, d, a) end.

Lemma STEP_op words block f a b c d k s ac i :
  words_of words block → line_matches (f, Ra, k, s, ac) i →
  Rfc1321.operation block (a, b, c, d) i = (d, STEP f a b c d (nth k words 0) s ac, b, c).
Proof.
  intros Hw (Hf & Hk & Hk16 & Hac & Hs). unfold STEP, Rfc1321.operation, ROTATE_LEFT, rotl.
  rewrite Hf, Hw, <- Hk, <- Hac, <- Hs, (Z.add_comm b) by done. by rewrite !Z.add_assoc.
Qed.

Lemma run_line_operation words block st f r k s ac i :
  words_of words block → line_matches (f, r, k, s, ac) i →
  reg_view (next_reg r) (run_line words st (f, r, k, s, ac)) =
  Rfc1321.operation block (reg_view r st) i.
Proof.
  intros Hw Hm. destruct st as [[[a b] c] d].
  destruct r; cbn [reg_view next_reg run_line]; by rewrite (STEP_op words block f _ _ _ _ k s ac).
Qed.

Fixpoint lines_match (r : reg) (i : nat) (l : list line) : Prop :=
  match l with
  | [] => True
  | s :: l => s.1.1.1.2 = r ∧ line_matches s i ∧ lines_match (next_reg r) (S i) l
  end.

Lemma run_lines_ok words block st r i l :
  words_of words block → lines_match r i l →
  reg_view (Nat.iter (length l) next_reg r) (foldl (run_line words) st l) =
  foldl (Rfc1321.operation block) (reg_view r st) (seq i (length l)).
Proof.
  intros Hw. revert st r i. induction l as [|[[[[f r'] k] s] ac] l IH]; intros st r i; [done|].
  intros (<- & Hm & Hlm). cbn [fst snd] in *. cbn [foldl length seq].
  rewrite <- (run_line_operation words block st f r' k s ac i) by done.
  rewrite <- IH by done. by rewrite Nat.iter_succ_r.
Qed.

Lemma lines_rfc : lines_match Ra 0 lines.
Proof.
  cbn [lines lines_match].
  repeat (split; [done|]; split; [split; [done|apply (bool_decide_unpack _); vm_compute; exact Logic.I]|]).
  done.
Qed.

Lemma Transform_rfc st words block :
  words_of words block → Transform st words = Rfc1321.compress st block.
Proof.
  intros Hw. pose proof (run_lines_ok words block st Ra 0 _ Hw lines_rfc) as Hrun.
  assert (length lines = 64%nat) as H64 by done. rewrite H64 in Hrun. clear H64.
  change (Nat.iter 64 next_reg Ra) with Ra in Hrun.
  unfold Transform, Rfc1321.compress. destruct st as [[[aa bb] cc] dd]. cbn [reg_view] in Hrun.
  revert Hrun. generalize (foldl (Rfc1321.operation block) (aa, bb, cc, dd) (seq 0 64)).
  generalize (foldl (run_line words) (aa, bb, cc, dd) lines).
  intros [[[a b] c] d] q <-. cbn [reg_view]. by rewrite (Z.add_comm a), (Z.add_comm b), (Z.add_comm c), (Z.add_comm d).
Qed.

(** ** Streaming *)

Abbreviation absorbed m := (absorb_all Rfc1321.compress Rfc1321.init m).

Lemma absorb_one {St} (f : St → list Z → St) st b : length b = 64%nat → absorb_all f st b = f st b.
Proof.
  intros Hb. rewrite <- (app_nil_r b) at 1. rewrite MkhashProps.absorb_block by done.
  by apply MkhashProps.absorb_all_small; cbn; lia.
Qed.

(** The context after the bytes [m]. *)
Record md5_after (m : list Z) (ctx : MD5_CTX) : Prop := {
  ma_buf : buf ctx = absorbed m;
  ma_in : MkhashProps.holds (in_ ctx) m;
  ma_i0 : i0 ctx = 8 * Z.of_nat (length m) mod 2 ^ 32;
  ma_i1 : i1 ctx = 8 * Z.of_nat (length m) / 2 ^ 32 mod 2 ^ 32;
  ma_digest : length (digest ctx) = 16%nat
}.

Lemma mdi_used n : 0 ≤ n → ((8 * n mod 2 ^ 32) .>> 3) .& 0x3F = n mod 64.
Proof.
  intros Hn. change 0x3F with (Z.ones 6). rewrite Z.land_ones, Z.shiftr_div_pow2 by lia.
  change (2 ^ 32) with (2 ^ 3 * 2 ^ 29). change 8 with (2 ^ 3).
  rewrite Z.mul_mod_distr_l, (Z.mul_comm (2 ^ 3)), Z.div_mul by lia.
  rewrite Z.mod_mod_divide by (by exists (2 ^ 23)). done.
Qed.

Lemma bits_count n k :
  0 ≤ n → 0 ≤ k < 2 ^ 32 →
  let n0 := 8 * n mod 2 ^ 32 in let n1 := 8 * n / 2 ^ 32 mod 2 ^ 32 in
  let bits := u32 (k .<< 3) in
  u32 (n0 + bits) = 8 * (n + k) mod 2 ^ 32 ∧
  u32 ((if u32 (n0 + bits) <? n0 then u32 (n1 + 1) else n1) + (k .>> 29)) = 8 * (n + k) / 2 ^ 32 mod 2 ^ 32.
Proof.
  intros Hn Hk n0 n1 bits.
  assert (bits = 8 * k mod 2 ^ 32) as Eb by (unfold bits, u32; rewrite Z.shiftl_mul_pow2 by lia; f_equal; lia).
  assert (u32 (n0 + bits) = 8 * (n + k) mod 2 ^ 32) as E0.
  { unfold u32, n0. rewrite Eb, <- Z.add_mod by lia. f_equal. lia. }
  split; [done|]. rewrite E0, Z.shiftr_div_pow2 by lia.
  assert (8 * (n + k) / 2 ^ 32 = 8 * n / 2 ^ 32 + k / 2 ^ 29 +
    (if 8 * (n + k) mod 2 ^ 32 <? n0 then 1 else 0)) as ->.
  { assert (k / 2 ^ 29 = 8 * k / 2 ^ 32) as -> by
      (change (2 ^ 32) with (8 * 2 ^ 29); by rewrite Z.div_mul_cancel_l by lia).
    pose proof (Z.div_mod (8 * n) (2 ^ 32)). pose proof (Z.div_mod (8 * k) (2 ^ 32)).
    pose proof (Z.mod_pos_bound (8 * n) (2 ^ 32)). pose proof (Z.mod_pos_bound (8 * k) (2 ^ 32)).
    pose proof (Z.div_mod (8 * (n + k)) (2 ^ 32)). pose proof (Z.mod_pos_bound (8 * (n + k)) (2 ^ 32)).
    unfold n0. destruct (Z.ltb_spec (8 * (n + k) mod 2 ^ 32) (8 * n mod 2 ^ 32)); lia. }
  unfold n1, u32. destruct (_ <? n0).
  - rewrite Z.add_mod_idemp_l, <- Z.add_assoc, Z.add_mod_idemp_l by lia. f_equal. lia.
  - rewrite Z.add_mod_idemp_l by lia. f_equal. lia.
Qed.

(** One byte fills the buffer further, or completes a block. *)
Lemma update_loop_after x m inb more :
  bytes_wf m → bytes_wf x → MkhashProps.holds inb m →
  ∃ inb', update_loop (length x) (x ++ more) (absorbed m) inb (length (MkhashProps.rest m)) =
    Ret (absorbed (m ++ x), inb') ∧ MkhashProps.holds inb' (m ++ x).
Proof.
  revert m inb. induction x as [|c x IH]; intros m inb Hm Hx Hh.
  { exists inb. by rewrite app_nil_r. }
  apply Forall_cons in Hx as [Hc Hx]. cbn [length update_loop app head of_option mbind result_bind tail].
  pose proof (MkhashProps.length_rest m) as Hr.
  pose proof (Nat.mod_upper_bound (length m) 64 ltac:(lia)) as Hr64. rewrite <- Hr in Hr64.
  destruct (MkhashProps.fill inb m [c] Hh) as (b & -> & Hb & Ht); [cbn [length]; lia|]. cbn [mbind result_bind].
  cbn [length] in Ht. assert (bytes_wf (m ++ [c])) as Hmc by (apply Forall_app; auto).
  specialize (IH (m ++ [c])). rewrite <- app_assoc in IH. cbn [app] in IH.
  destruct (MkhashProps.blocks_app m [c]) as [_ Hrest].
  case_decide as Hfull.
  - rewrite Nat.add_1_r, Hfull, take_ge in Ht by lia. subst b.
    assert (MkhashProps.rest (m ++ [c]) = []) as Hnil by (rewrite Hrest; by apply MkhashProps.rest_block).
    rewrite (Transform_rfc _ _ (MkhashProps.rest m ++ [c])).
    2: { apply load_words_of; [|done]. apply Forall_app; split; [by apply MkhashProps.rest_wf|auto]. }
    assert (Rfc1321.compress (absorbed m) (MkhashProps.rest m ++ [c]) = absorbed (m ++ [c])) as ->.
    { by rewrite MkhashProps.absorb_all_app, (absorb_one _ _ (_ ++ [c])). }
    destruct (IH (MkhashProps.rest m ++ [c])) as (b & E & Hh'); [done|done| |].
    { split; [done|]. by rewrite Hnil. }
    rewrite Hnil in E. exists b. by split.
  - assert (MkhashProps.rest (m ++ [c]) = MkhashProps.rest m ++ [c]) as Hrc.
    { rewrite Hrest. apply MkhashProps.rest_small. rewrite length_app. cbn [length]. lia. }
    assert (absorbed (m ++ [c]) = absorbed m) as Habs.
    { rewrite MkhashProps.absorb_all_app. apply MkhashProps.absorb_all_small. rewrite length_app. cbn [length]. lia. }
    destruct (IH b) as (b' & E & Hh'); [done|done| |].
    { split; [done|]. by rewrite Hrc, length_app. }
    rewrite Habs, Hrc, length_app, Nat.add_1_r in E. exists b'. by split.
Qed.

Lemma MD5_Update_after m x more ctx :
  bytes_wf m → bytes_wf x → Z.of_nat (length x) < 2 ^ 32 → md5_after m ctx →
  ∃ ctx', MD5_Update ctx (x ++ more) (Z.of_nat (length x)) = Ret ctx' ∧ md5_after (m ++ x) ctx'.
Proof.
  intros Hm Hx Hl [Hb Hin H0 H1 Hd]. unfold MD5_Update. rewrite H0, H1, Hb, mdi_used by lia.
  destruct (bits_count (Z.of_nat (length m)) (Z.of_nat (length x)) ltac:(lia) ltac:(lia)) as [E0 E1].
  rewrite E0. cbn zeta in E1. rewrite E0 in E1. rewrite E1.
  replace (Z.to_nat (Z.of_nat (length m) mod 64)) with (length (MkhashProps.rest m)).
  2: { rewrite MkhashProps.length_rest. change 64 with (Z.of_nat 64). by rewrite <- Nat2Z.inj_mod, Nat2Z.id. }
  rewrite Nat2Z.id. destruct (update_loop_after x m (in_ ctx) more) as (inb & -> & Hh); [done..|].
  cbn [mbind result_bind]. eexists. split; [done|].
  split; cbn [buf in_ i0 i1 digest]; [done|done| |  |done]; rewrite length_app, Nat2Z.inj_add; done.
Qed.

(** The 56th byte of the last block is the one after the padding. *)
Lemma pad_rest m padLen :
  padLen = (if decide (length m mod 64 < 56)%nat then 56 - length m mod 64 else 120 - length m mod 64)%nat →
  m ++ take padLen PADDING ++ le_bytes 8 (8 * Z.of_nat (length m)) =
    padded m (le_bytes 8 (8 * Z.of_nat (length m))) ∧
  length (MkhashProps.rest (m ++ take padLen PADDING)) = 56%nat ∧ (1 ≤ padLen ≤ 64)%nat.
Proof.
  intros Hp. pose proof (Nat.mod_upper_bound (length m) 64 ltac:(lia)) as H64.
  assert (1 ≤ padLen ≤ 64)%nat as Hpl by (rewrite Hp; case_decide; lia).
  assert (take padLen PADDING = 0x80 :: replicate (padLen - 1) 0) as ->.
  { destruct padLen as [|p]; [lia|]. unfold PADDING. cbn [take]. f_equal.
    rewrite take_replicate. f_equal. lia. }
  split_and!; [|rewrite MkhashProps.length_rest, length_app; cbn [length]; rewrite length_replicate|lia..].
  - unfold padded. cbn [app]. do 4 f_equal.
    pose proof (Nat.div_mod (length m) 64 ltac:(lia)) as Hd.
    assert ((55 - Z.of_nat (length m)) mod 64 = (55 - Z.of_nat (length m mod 64)) mod 64) as ->.
    { rewrite Nat2Z.inj_mod. change (Z.of_nat 64) with 64. by rewrite Zminus_mod_idemp_r. }
    case_decide; [rewrite Z.mod_small by lia; lia|].
    rewrite <- (Z.mod_unique (55 - Z.of_nat (length m mod 64)) 64 (-1)
      (119 - Z.of_nat (length m mod 64))) by lia. lia.
  - pose proof (Nat.div_mod (length m) 64 ltac:(lia)) as Hd. case_decide.
    + symmetry. apply (Nat.mod_unique _ 64 (length m / 64)); lia.
    + symmetry. apply (Nat.mod_unique _ 64 (length m / 64 + 1)); lia.
Qed.

Lemma store_word_bytes w : store_word w = le_bytes 4 w.
Proof.
  unfold store_word. change 0xFF with (Z.ones 8). rewrite !Z.land_ones, !Z.shiftr_div_pow2 by lia.
  cbn [le_bytes]. by rewrite !Z.div_div by lia.
Qed.

(** The words of the last block: 14 from the buffer, two from the counters. *)
Lemma last_words inb p n :
  bytes_wf p → length p = 56%nat → take 56 inb = p → 0 ≤ n →
  words_of (load_words 14 inb ++ [8 * n mod 2 ^ 32; 8 * n / 2 ^ 32 mod 2 ^ 32]) (p ++ le_bytes 8 (8 * n)).
Proof.
  intros Hp Hl Ht Hn k Hk. apply nth_lookup_word.
  assert (length (load_words 14 inb) = 14%nat) as H14
    by (unfold load_words; by rewrite length_fmap, length_seq).
  assert (le_bytes 8 (8 * n) = le_bytes 4 (8 * n) ++ le_bytes 4 (8 * n / 2 ^ 32)) as E8
    by (by rewrite (le_bytes_add 4 4)).
  destruct (decide (k < 14)%nat) as [Hk14|Hk14].
  - rewrite lookup_app_l by lia. unfold load_words. rewrite list_lookup_fmap, lookup_seq_lt by done.
    cbn [fmap option_fmap option_map]. f_equal. rewrite <- load_word_rfc.
    + apply load_word_prefix. rewrite (take_app_le p) by lia. by rewrite <- Ht, take_take, Nat.min_l by lia.
    + apply Forall_app; split; [done|apply le_bytes_wf].
    + rewrite length_app, length_le_bytes. lia.
  - rewrite lookup_app_r, H14 by lia. unfold Rfc1321.word. rewrite E8.
    assert (k = 14 ∨ k = 15)%nat as [-> | ->] by lia.
    + rewrite drop_app_length' by lia. rewrite take_app_length' by (by rewrite length_le_bytes).
      by rewrite le_val_bytes.
    + rewrite app_assoc, drop_app_length' by (rewrite length_app, length_le_bytes; lia).
      rewrite take_ge by (by rewrite length_le_bytes). by rewrite le_val_bytes.
Qed.

Lemma MD5_Final_digest m ctx :
  bytes_wf m → md5_after m ctx →
  ∃ ctx', MD5_Final ctx = Ret (Rfc1321.digest m, ctx') ∧ length (digest ctx') = 16%nat.
Proof.
  intros Hm Ha. unfold MD5_Final. rewrite (ma_i0 _ _ Ha), (ma_i1 _ _ Ha), mdi_used by lia.
  assert (Z.of_nat (length m) mod 64 = Z.of_nat (length m mod 64)) as Emod by (by rewrite Nat2Z.inj_mod).
  destruct (pad_rest m (if decide (length m mod 64 < 56)%nat then 56 - length m mod 64
    else 120 - length m mod 64)%nat eq_refl) as (Epad & H56 & Hpl).
  assert ((if Z.of_nat (length m) mod 64 <? 56 then 56 - Z.of_nat (length m) mod 64
    else 120 - Z.of_nat (length m) mod 64) = Z.of_nat (if decide (length m mod 64 < 56)%nat
    then 56 - length m mod 64 else 120 - length m mod 64)%nat) as ->.
  { rewrite Emod. pose proof (Nat.mod_upper_bound (length m) 64 ltac:(lia)).
    case_decide; destruct (Z.ltb_spec (Z.of_nat (length m mod 64)) 56); lia. }
  revert Epad H56 Hpl. generalize (if decide (length m mod 64 < 56)%nat then 56 - length m mod 64
    else 120 - length m mod 64)%nat. intros k Epad H56 Hpl.
  assert (length (take k PADDING) = k) as Hk.
  { rewrite length_take. unfold PADDING. cbn [length]. rewrite length_replicate. lia. }
  assert (bytes_wf (take k PADDING)) as Hwf.
  { apply Forall_take. constructor; [lia|]. apply Forall_replicate. lia. }
  destruct (MD5_Update_after m (take k PADDING) (drop k PADDING) ctx) as (ctx1 & E1 & Ha1);
    [done|done|rewrite Hk; lia|done|].
  rewrite take_drop, Hk in E1. rewrite E1. cbn [mbind result_bind].
  destruct (ma_in _ _ Ha1) as [Hbl Hbt]. rewrite H56 in Hbt.
  rewrite (Transform_rfc _ _ _ (last_words _ _ (Z.of_nat (length m))
    (MkhashProps.rest_wf _ (Forall_app_2 _ _ _ Hm Hwf)) H56 Hbt ltac:(lia))).
  assert (Rfc1321.compress (buf ctx1) (MkhashProps.rest (m ++ take k PADDING) ++
    le_bytes 8 (8 * Z.of_nat (length m))) = absorbed (padded m (le_bytes 8 (8 * Z.of_nat (length m))))) as ->.
  { rewrite (ma_buf _ _ Ha1), <- Epad, app_assoc, (MkhashProps.absorb_all_app _ _ (m ++ _)).
    symmetry. apply absorb_one. rewrite length_app, length_le_bytes, H56. done. }
  unfold Rfc1321.digest. destruct (absorbed (padded _ _)) as [[[b0 b1] b2] b3].
  rewrite !store_word_bytes, mwrite_ret.
  2: { rewrite (ma_digest _ _ Ha1), !length_app, !length_le_bytes. lia. }
  cbn [mbind result_bind take app]. eexists. split.
  - reflexivity.
  - change (16 + length (drop 16 (digest ctx1)) = 16)%nat. rewrite length_drop, (ma_digest _ _ Ha1). done.
Qed.

Lemma MD5_Init_after junk dig : length junk = 64%nat → length dig = 16%nat → md5_after [] (MD5_Init junk dig).
Proof. by repeat split. Qed.

(** The digest of data handed over in pieces, each with its length. *)
Fixpoint updates (chunks : list (list Z)) (ctx : MD5_CTX) : result MD5_CTX :=
  match chunks with
  | [] => Ret ctx
  | x :: chunks => ctx ← MD5_Update ctx x (Z.of_nat (length x)); updates chunks ctx
  end.

Lemma updates_after chunks m ctx :
  bytes_wf m → Forall bytes_wf chunks → Forall (λ x, Z.of_nat (length x) < 2 ^ 32) chunks →
  md5_after m ctx → ∃ ctx', updates chunks ctx = Ret ctx' ∧ md5_after (m ++ mjoin chunks) ctx'.
Proof.
  revert m ctx. induction chunks as [|x chunks IH]; intros m ctx Hm Hx Hl Ha; cbn [updates].
  { exists ctx. cbn. by rewrite app_nil_r. }
  apply Forall_cons in Hx as [Hx Hxs]. apply Forall_cons in Hl as [Hl Hls].
  destruct (MD5_Update_after m x [] ctx) as (ctx1 & E & Ha1); [done..|].
  rewrite app_nil_r in E. rewrite E. cbn [mbind result_bind mjoin list_join]. rewrite app_assoc.
  apply IH; [|done..]. by apply Forall_app.
Qed.

(** ** Properties *)

(** C39: [MD5_Init], any number of [MD5_Update]s and [MD5_Final] of the mtd tool
    compute the MD5 digest of RFC 1321 of the bytes they were given, whatever
    the split, the length (the bit counter carries between its two words) and
    the memory the context lies in, and write only inside the context. *)
Theorem mtd_md5_stream junk dig chunks :
  length junk = 64%nat → length dig = 16%nat → Forall bytes_wf chunks →
  Forall (λ x, Z.of_nat (length x) < 2 ^ 32) chunks →
  (r ← (ctx ← updates chunks (MD5_Init junk dig); MD5_Final ctx); Ret r.1) =
  Ret (Rfc1321.digest (mjoin chunks)).
Proof.
  intros Hj Hd Hwf Hl.
  destruct (updates_after chunks [] (MD5_Init junk dig)) as (ctx & -> & Ha);
    [by apply Forall_nil|done|done|by apply MD5_Init_after|]. cbn [mbind result_bind].
  destruct (MD5_Final_digest (mjoin chunks) ctx) as (ctx' & -> & _); [by apply Forall_join|done|done].
Qed.

Lemma mtd_md5_stream_witness :
  (r ← (ctx ← updates [cs "message "; []; cs "digest"] (MD5_Init (replicate 64 7) (replicate 16 9));
        MD5_Final ctx); Ret r.1) = Ret (Rfc1321.digest (mjoin [cs "message "; []; cs "digest"])).
Proof.
  apply (mtd_md5_stream (replicate 64 7) (replicate 16 9) [cs "message "; []; cs "digest"]); [done|done| |];
    apply (bool_decide_unpack _); vm_compute; exact Logic.I.
Defined.

(** The test suite of RFC 1321. *)
Example md5_abc : Rfc1321.digest (cs "abc") =
  [0x90;0x01;0x50;0x98;0x3c;0xd2;0x4f;0xb0;0xd6;0x96;0x3f;0x7d;0x28;0xe1;0x7f;0x72].
Proof. by vm_compute. Qed.

End MtdMd5.
