(* ===== verification/Mtd.v ===== *)
(** * The mtd tool: the kernel interface, the static variables, devices
    (package/system/mtd/src/mtd.c, mtd.h)

    The tool is a client of the MTD character devices of the kernel.  The
    class [Kernel] has one operation per system call the code makes; a call
    returns a result and the next state of the kernel, which is arbitrary, so
    that a kernel may fail at any call.  The code runs in the monad [M]: a run
    is done, has left the program with a status, or has done something the
    language leaves undefined.  [wp] is the weakest precondition of a run. *)

From S2P Require Import Prelude CLib.
Open Scope Z_scope.
Open Scope cint_scope.

Module Mtd.

(** ** The kernel *)

(** The fields of [struct mtd_info_user] that are used. *)
Record mtd_info := MtdInfo {
  mi_type : Z;
  mi_size : Z;
  mi_erasesize : Z;
  mi_writesize : Z
}.
Definition MTD_NANDFLASH : Z := 4.

(** The fields of [struct stat] that are used. *)
Record file_stat := FileStat { st_mode : Z; st_size : Z; st_atime : Z; st_ctime : Z; st_mtime : Z }.

Definition EINTR : Z := 4.
Definition EAGAIN : Z := 11.

Class Kernel (K : Type) := {
  (** the lines of /proc/mtd, when it can be opened *)
  k_proc_mtd : K → option (list (list Z)) * K;
  (** [open(path, O_RDWR | O_SYNC)] *)
  k_open : list Z → K → Z * K;
  k_close : Z → K → K;
  (** [ioctl(fd, MEMGETINFO, &info)] *)
  k_getinfo : Z → K → option mtd_info * K;
  (** [ioctl(fd, MEMGETBADBLOCK, &off)] *)
  k_badblock : Z → Z → K → Z * K;
  (** [ioctl(fd, MEMUNLOCK, &{start, length})], whose result is never used *)
  k_unlock : Z → Z → Z → K → K;
  (** [ioctl(fd, MEMERASE, &{start, length})] *)
  k_erase : Z → Z → Z → K → Z * K;
  (** [pread(fd, _, n, off)]: the bytes, or a failure *)
  k_pread : Z → Z → Z → K → option (list Z) * K;
  (** [pwrite(fd, bs, length bs, off)] *)
  k_pwrite : Z → list Z → Z → K → Z * K;
  (** [read(fd, _, n)]: the bytes, or [errno] *)
  k_read : Z → Z → K → (Z + list Z) * K;
  (** [write(fd, bs, length bs)] *)
  k_write : Z → list Z → K → Z * K;
  (** [lseek(fd, off, SEEK_SET)] and [lseek(fd, off, SEEK_CUR)] *)
  k_seek_set : Z → Z → K → K;
  k_seek_cur : Z → Z → K → K;
  (** [open(path, O_RDONLY)] and [stat(path, &st)] of the files that are added *)
  k_open_ro : list Z → K → Z * K;
  k_stat : list Z → K → option file_stat * K;
  (** [mmap] of the first [n] bytes of a block device, and [msync] of a mapping
      whose bytes are now those given *)
  k_mmap : Z → Z → K → option (list Z) * K;
  k_msync : Z → list Z → K → K;
  (** [malloc(n)]: what the memory holds, or [NULL] *)
  k_malloc : Z → K → option (list Z) * K
}.

(** ** The build

    The functions of some targets are weak symbols: the Makefile links their
    files for the targets that use them, and the code tests whether they are
    there. *)

Class Target := {
  has_trx : bool;             (** trx.o: [trx_fixup], [trx_check], [mtd_fixtrx] *)
  has_seama : bool;           (** seama.o: [mtd_fixseama] *)
  has_wrg : bool;             (** wrg.o: [mtd_fixwrg] *)
  has_wrgg : bool;            (** wrgg.o: [mtd_fixwrgg] *)
  has_tpl : bool;             (** tpl_ramips_recoveryflag.o *)
  has_resetbc : bool;         (** linksys_bootcount.o: [mtd_resetbc] *)
  target_brcm : bool          (** bcm47xx, bcm53xx *)
}.
Definition ath79 : Target := Build_Target false true false true false false false.
Definition bcm53xx : Target := Build_Target true true false false false false true.
Definition ramips : Target := Build_Target false true true false true true false.

(** ** The static variables *)

Inductive image_format := IF_UNKNOWN | IF_TRX | IF_SEAMA | IF_WRG | IF_WRGG03.
#[export] Instance image_format_eq_dec : EqDecision image_format.
Proof. solve_decision. Defined.

(** Those of jffs2.c. *)
Record jffs2_vars := Jffs2 {
  last_ino : Z;
  last_version : Z;
  jbuf : option (list Z);
  ofs : Z;
  outfd : Z;
  mtdofs : Z;
  target_ino : Z
}.

(** [int] variables; [buf] is the object [buf] points to, [None] before
    [mtd_check] allocates it. *)
Record globals := Globals {
  no_erase : bool;
  mtdsize : Z;
  erasesize : Z;
  mtdtype : Z;
  opt_trxmagic : Z;
  imageformat : image_format;
  buf : option (list Z);
  buflen : Z;
  jffs2file : option (list Z);
  jffs2dir : list Z;
  jffs2_skip_bytes : Z;
  tpl_uboot_args_part : option (list Z);
  jffs2 : jffs2_vars
}.

Definition TRX_MAGIC : Z := 0x48445230.
Definition SEAMA_MAGIC : Z := 0x5ea3a417.
Definition WRG_MAGIC : Z := 0x20040220.
Definition WRGG03_MAGIC : Z := 0x20080321.

Definition initial_globals : globals :=
  Globals false 0 0 0 TRX_MAGIC IF_UNKNOWN None 0 None [] 0 None (Jffs2 0 0 None 0 (-1) 0 0).

Definition set_info (size es ty : Z) (g : globals) : globals :=
  Globals (no_erase g) size es ty (opt_trxmagic g) (imageformat g) (buf g) (buflen g)
    (jffs2file g) (jffs2dir g) (jffs2_skip_bytes g) (tpl_uboot_args_part g) (jffs2 g).
Definition set_format (f : image_format) (g : globals) : globals :=
  Globals (no_erase g) (mtdsize g) (erasesize g) (mtdtype g) (opt_trxmagic g) f (buf g) (buflen g)
    (jffs2file g) (jffs2dir g) (jffs2_skip_bytes g) (tpl_uboot_args_part g) (jffs2 g).
Definition set_buf (b : option (list Z)) (n : Z) (g : globals) : globals :=
  Globals (no_erase g) (mtdsize g) (erasesize g) (mtdtype g) (opt_trxmagic g) (imageformat g) b n
    (jffs2file g) (jffs2dir g) (jffs2_skip_bytes g) (tpl_uboot_args_part g) (jffs2 g).
Definition set_jffs2file (f : option (list Z)) (g : globals) : globals :=
  Globals (no_erase g) (mtdsize g) (erasesize g) (mtdtype g) (opt_trxmagic g) (imageformat g) (buf g) (buflen g)
    f (jffs2dir g) (jffs2_skip_bytes g) (tpl_uboot_args_part g) (jffs2 g).
Definition set_jffs2 (j : jffs2_vars) (g : globals) : globals :=
  Globals (no_erase g) (mtdsize g) (erasesize g) (mtdtype g) (opt_trxmagic g) (imageformat g) (buf g) (buflen g)
    (jffs2file g) (jffs2dir g) (jffs2_skip_bytes g) (tpl_uboot_args_part g) j.
Definition set_no_erase (g : globals) : globals :=
  Globals true (mtdsize g) (erasesize g) (mtdtype g) (opt_trxmagic g) (imageformat g) (buf g) (buflen g)
    (jffs2file g) (jffs2dir g) (jffs2_skip_bytes g) (tpl_uboot_args_part g) (jffs2 g).
Definition set_trxmagic (m : Z) (g : globals) : globals :=
  Globals (no_erase g) (mtdsize g) (erasesize g) (mtdtype g) m (imageformat g) (buf g) (buflen g)
    (jffs2file g) (jffs2dir g) (jffs2_skip_bytes g) (tpl_uboot_args_part g) (jffs2 g).
Definition set_jffs2dir (d : list Z) (g : globals) : globals :=
  Globals (no_erase g) (mtdsize g) (erasesize g) (mtdtype g) (opt_trxmagic g) (imageformat g) (buf g) (buflen g)
    (jffs2file g) d (jffs2_skip_bytes g) (tpl_uboot_args_part g) (jffs2 g).
Definition set_skip_bytes (n : Z) (g : globals) : globals :=
  Globals (no_erase g) (mtdsize g) (erasesize g) (mtdtype g) (opt_trxmagic g) (imageformat g) (buf g) (buflen g)
    (jffs2file g) (jffs2dir g) n (tpl_uboot_args_part g) (jffs2 g).
Definition set_tpl (p : option (list Z)) (g : globals) : globals :=
  Globals (no_erase g) (mtdsize g) (erasesize g) (mtdtype g) (opt_trxmagic g) (imageformat g) (buf g) (buflen g)
    (jffs2file g) (jffs2dir g) (jffs2_skip_bytes g) p (jffs2 g).

(** ** Runs *)

Record state (K : Type) := State { kern : K; gl : globals }.
Arguments State {K} _ _.
Arguments kern {K} _.
Arguments gl {K} _.

Inductive out (K A : Type) :=
  | Done (a : A) (s : state K)
  | Exited (code : Z) (s : state K)      (** [exit(code)] *)
  | Broken (f : fault).
Arguments Done {K A} _ _.
Arguments Exited {K A} _ _.
Arguments Broken {K A} _.

Definition M (K A : Type) : Type := state K → out K A.

#[export] Instance M_ret {K} : MRet (M K) := λ A a s, Done a s.
#[export] Instance M_bind {K} : MBind (M K) := λ A B k m s,
  match m s with
  | Done a s => k a s
  | Exited c s => Exited c s
  | Broken f => Broken f
  end.

Definition exit_ {K A} (code : Z) : M K A := λ s, Exited code s.
Definition lift {K A} (r : result A) : M K A := λ s,
  match r with Ret a => Done a s | Fault f => Broken f end.
Definition get {K} : M K globals := λ s, Done (gl s) s.
Definition put {K} (g : globals) : M K unit := λ s, Done tt (State (kern s) g).
Definition sys {K A} (f : K → A * K) : M K A := λ s,
  let '(a, k) := f (kern s) in Done a (State k (gl s)).
Definition sys_ {K} (f : K → K) : M K unit := λ s, Done tt (State (f (kern s)) (gl s)).

(** [while (1) { ... }]: the body goes on with a new value of the variables of
    the loop, or leaves it. *)
Fixpoint loop {K A B} (fuel : nat) (body : A → M K (A + B)) (a : A) : M K B :=
  match fuel with
  | O => λ _, Broken OutOfFuel
  | S n =>
      r ← body a;
      match r with inl a => loop n body a | inr b => mret b end
  end.

(** ** Integers *)

Section sizes.
Context {Ar : Arch}.

(** [size_t]; [off_t] has 64 bits. *)
Definition size_t (z : Z) : Z := z mod 2 ^ long_bits.
Definition off_t (z : Z) : Z := if z <? 2 ^ 63 then z else z - 2 ^ 64.
(** [~(erasesize - 1)] where the other operand is a [size_t]. *)
Definition block_mask (es : Z) : Z := size_t (Z.lnot (es - 1)).
End sizes.

Lemma s32_small z : 0 ≤ z < 2 ^ 31 → s32 z = z.
Proof. intros. unfold s32. rewrite u32_small by lia. case_match; lia. Qed.

(** ** Devices (mtd.c) *)

Section mtd.
Context {Ar : Arch} {K : Type} `{Kernel K}.

(** [strstr(dev, name)] *)
Fixpoint strstr (s name : list Z) : bool :=
  bool_decide (take (length name) s = name) ||
  match s with [] => false | _ :: s => strstr s name end.

(** [sscanf(dev, "mtd%d:", &i)] where it yields 1: the number after "mtd", as
    far as an [int] goes. *)
Definition scan_mtd (line : list Z) : option Z :=
  if bool_decide (take 3 line = cs "mtd") then
    let s := skip_spaces (drop 3 line) in
    let '(neg, s) := match s with
                     | c :: r => if c =? 45 then (true, r) else if c =? 43 then (false, r) else (false, s)
                     | [] => (false, s)
                     end in
    match s with
    | d :: _ => if is_digit 10 d then let v := (digits_run 10 s 0).1 in Some (if neg then - v else v) else None
    | [] => None
    end
  else None.

(** The first line with a number and the name. *)
Fixpoint find_mtd (lines : list (list Z)) (name : list Z) : option Z :=
  match lines with
  | [] => None
  | dev :: lines =>
      match scan_mtd dev with
      | Some i => if strstr dev name then Some i else find_mtd lines name
      | None => find_mtd lines name
      end
  end.

Definition fmt_d (i : Z) : list Z := if i <? 0 then 45 :: fmt_u (- i) else fmt_u i.
Definition dev_path (block slash : bool) (i : Z) : list Z :=
  cs "/dev/mtd" ++ (if block then cs "block" else []) ++ (if slash then cs "/" else []) ++ fmt_d i.

Definition mtd_open (mtd : list Z) (block : bool) : M K Z :=
  let name := take 4095 ([34] ++ mtd ++ [34]) in      (* [char name[PATH_MAX]] *)
  lines ← sys k_proc_mtd;
  match lines with
  | Some lines =>
      match find_mtd lines name with
      | Some i =>
          ret ← sys (k_open (dev_path block true i));
          if ret <? 0 then sys (k_open (dev_path block false i)) else mret ret
      | None => sys (k_open mtd)
      end
  | None => sys (k_open mtd)
  end.

Definition mtd_check_open (mtd : list Z) : M K Z :=
  fd ← mtd_open mtd false;
  if fd <? 0 then mret (-1)
  else
    info ← sys (k_getinfo fd);
    match info with
    | None => _ ← sys_ (k_close fd); mret (-1)
    | Some i =>
        g ← get;
        _ ← put (set_info (s32 (mi_size i)) (s32 (mi_erasesize i)) (mi_type i) g);
        mret fd
    end.

(** The argument is an [int]. *)
Definition mtd_block_is_bad (fd offset : Z) : M K Z :=
  g ← get;
  if decide (mtdtype g = MTD_NANDFLASH) then
    r ← sys (k_badblock fd (s32 offset));
    if r <? 0 then exit_ 1 else mret r
  else mret 0.

Definition mtd_erase_block (fd offset : Z) : M K Z :=
  g ← get;
  let start := u32 (s32 offset) in
  let length := u32 (erasesize g) in
  _ ← sys_ (k_unlock fd start length);
  r ← sys (k_erase fd start length);
  if r <? 0 then mret (-1) else mret 0.

Definition mtd_write_buffer (fd : Z) (b : list Z) (offset : Z) : M K Z :=
  _ ← sys_ (k_seek_set fd offset);
  _ ← sys (k_write fd b);
  mret 0.

(** [mtd_unlock] and [mtd_erase] for one device; the names of a list of
    devices are those between the colons. *)
Fixpoint split_colon (s : list Z) : list (list Z) :=
  match s with
  | [] => [[]]
  | c :: s =>
      if c =? 58 then [] :: split_colon s
      else match split_colon s with w :: ws => (c :: w) :: ws | [] => [[c]] end
  end.

Definition mtd_unlock1 (mtd : list Z) : M K unit :=
  fd ← mtd_check_open mtd;
  if fd <? 0 then exit_ 1
  else
    g ← get;
    _ ← sys_ (k_unlock fd 0 (u32 (mtdsize g)));
    sys_ (k_close fd).
Fixpoint mtd_unlock_list (names : list (list Z)) : M K Z :=
  match names with
  | [] => mret 0
  | mtd :: names => _ ← mtd_unlock1 mtd; mtd_unlock_list names
  end.
Definition mtd_unlock (mtd : list Z) : M K Z := mtd_unlock_list (split_colon mtd).

Fixpoint mtd_check_list (names : list (list Z)) : M K Z :=
  match names with
  | [] => mret 1
  | mtd :: names =>
      fd ← mtd_check_open mtd;
      if fd <? 0 then mret 0
      else
        g ← get;
        _ ← match buf g with
            | Some _ => mret tt
            | None =>
                mem ← sys (k_malloc (size_t (erasesize g)));
                put (set_buf mem (buflen g) g)
            end;
        _ ← sys_ (k_close fd);
        mtd_check_list names
  end.
Definition mtd_check (mtd : list Z) : M K Z := mtd_check_list (split_colon mtd).

(** [for (start = 0; start < mtdsize; start += erasesize)] on [uint32_t]. *)
Definition mtd_erase_step (fd start : Z) : M K (Z + unit) :=
  g ← get;
  if start <? u32 (mtdsize g) then
    bad ← mtd_block_is_bad fd start;
    _ ← (if bad =? 0 then
           _ ← sys_ (k_unlock fd start (u32 (erasesize g)));
           _ ← sys (k_erase fd start (u32 (erasesize g)));
           mret tt
         else mret tt);
    mret (inl (u32 (start + erasesize g)))
  else mret (inr tt).
Definition mtd_erase (fuel : nat) (mtd : list Z) : M K Z :=
  fd ← mtd_check_open mtd;
  if fd <? 0 then exit_ 1
  else
    _ ← loop fuel (mtd_erase_step fd) 0;
    _ ← sys_ (k_close fd);
    mret 0.

End mtd.
End Mtd.
