(* ===== verification/MtdCrc.v ===== *)
(** * CRC-32 of the mtd tool (package/system/mtd/src/crc32.c, crc32.h)

    The table loop, and the bit-serial division by the polynomial 0xedb88320
    that the comment of crc32.c names. *)

From S2P Require Import Prelude CLib Mtd.
Open Scope Z_scope.
Open Scope cint_scope.

Module MtdCrc.

Definition crc32_table : list Z := [
  0x00000000; 0x77073096; 0xee0e612c; 0x990951ba; 0x076dc419; 0x706af48f;
  0xe963a535; 0x9e6495a3; 0x0edb8832; 0x79dcb8a4; 0xe0d5e91e; 0x97d2d988;
  0x09b64c2b; 0x7eb17cbd; 0xe7b82d07; 0x90bf1d91; 0x1db71064; 0x6ab020f2;
  0xf3b97148; 0x84be41de; 0x1adad47d; 0x6ddde4eb; 0xf4d4b551; 0x83d385c7;
  0x136c9856; 0x646ba8c0; 0xfd62f97a; 0x8a65c9ec; 0x14015c4f; 0x63066cd9;
  0xfa0f3d63; 0x8d080df5; 0x3b6e20c8; 0x4c69105e; 0xd56041e4; 0xa2677172;
  0x3c03e4d1; 0x4b04d447; 0xd20d85fd; 0xa50ab56b; 0x35b5a8fa; 0x42b2986c;
  0xdbbbc9d6; 0xacbcf940; 0x32d86ce3; 0x45df5c75; 0xdcd60dcf; 0xabd13d59;
  0x26d930ac; 0x51de003a; 0xc8d75180; 0xbfd06116; 0x21b4f4b5; 0x56b3c423;
  0xcfba9599; 0xb8bda50f; 0x2802b89e; 0x5f058808; 0xc60cd9b2; 0xb10be924;
  0x2f6f7c87; 0x58684c11; 0xc1611dab; 0xb6662d3d; 0x76dc4190; 0x01db7106;
  0x98d220bc; 0xefd5102a; 0x71b18589; 0x06b6b51f; 0x9fbfe4a5; 0xe8b8d433;
  0x7807c9a2; 0x0f00f934; 0x9609a88e; 0xe10e9818; 0x7f6a0dbb; 0x086d3d2d;
  0x91646c97; 0xe6635c01; 0x6b6b51f4; 0x1c6c6162; 0x856530d8; 0xf262004e;
  0x6c0695ed; 0x1b01a57b; 0x8208f4c1; 0xf50fc457; 0x65b0d9c6; 0x12b7e950;
  0x8bbeb8ea; 0xfcb9887c; 0x62dd1ddf; 0x15da2d49; 0x8cd37cf3; 0xfbd44c65;
  0x4db26158; 0x3ab551ce; 0xa3bc0074; 0xd4bb30e2; 0x4adfa541; 0x3dd895d7;
  0xa4d1c46d; 0xd3d6f4fb; 0x4369e96a; 0x346ed9fc; 0xad678846; 0xda60b8d0;
  0x44042d73; 0x33031de5; 0xaa0a4c5f; 0xdd0d7cc9; 0x5005713c; 0x270241aa;
  0xbe0b1010; 0xc90c2086; 0x5768b525; 0x206f85b3; 0xb966d409; 0xce61e49f;
  0x5edef90e; 0x29d9c998; 0xb0d09822; 0xc7d7a8b4; 0x59b33d17; 0x2eb40d81;
  0xb7bd5c3b; 0xc0ba6cad; 0xedb88320; 0x9abfb3b6; 0x03b6e20c; 0x74b1d29a;
  0xead54739; 0x9dd277af; 0x04db2615; 0x73dc1683; 0xe3630b12; 0x94643b84;
  0x0d6d6a3e; 0x7a6a5aa8; 0xe40ecf0b; 0x9309ff9d; 0x0a00ae27; 0x7d079eb1;
  0xf00f9344; 0x8708a3d2; 0x1e01f268; 0x6906c2fe; 0xf762575d; 0x806567cb;
  0x196c3671; 0x6e6b06e7; 0xfed41b76; 0x89d32be0; 0x10da7a5a; 0x67dd4acc;
  0xf9b9df6f; 0x8ebeeff9; 0x17b7be43; 0x60b08ed5; 0xd6d6a3e8; 0xa1d1937e;
  0x38d8c2c4; 0x4fdff252; 0xd1bb67f1; 0xa6bc5767; 0x3fb506dd; 0x48b2364b;
  0xd80d2bda; 0xaf0a1b4c; 0x36034af6; 0x41047a60; 0xdf60efc3; 0xa867df55;
  0x316e8eef; 0x4669be79; 0xcb61b38c; 0xbc66831a; 0x256fd2a0; 0x5268e236;
  0xcc0c7795; 0xbb0b4703; 0x220216b9; 0x5505262f; 0xc5ba3bbe; 0xb2bd0b28;
  0x2bb45a92; 0x5cb36a04; 0xc2d7ffa7; 0xb5d0cf31; 0x2cd99e8b; 0x5bdeae1d;
  0x9b64c2b0; 0xec63f226; 0x756aa39c; 0x026d930a; 0x9c0906a9; 0xeb0e363f;
  0x72076785; 0x05005713; 0x95bf4a82; 0xe2b87a14; 0x7bb12bae; 0x0cb61b38;
  0x92d28e9b; 0xe5d5be0d; 0x7cdcefb7; 0x0bdbdf21; 0x86d3d2d4; 0xf1d4e242;
  0x68ddb3f8; 0x1fda836e; 0x81be16cd; 0xf6b9265b; 0x6fb077e1; 0x18b74777;
  0x88085ae6; 0xff0f6a70; 0x66063bca; 0x11010b5c; 0x8f659eff; 0xf862ae69;
  0x616bffd3; 0x166ccf45; 0xa00ae278; 0xd70dd2ee; 0x4e048354; 0x3903b3c2;
  0xa7672661; 0xd06016f7; 0x4969474d; 0x3e6e77db; 0xaed16a4a; 0xd9d65adc;
  0x40df0b66; 0x37d83bf0; 0xa9bcae53; 0xdebb9ec5; 0x47b2cf7f; 0x30b5ffe9;
  0xbdbdf21c; 0xcabac28a; 0x53b39330; 0x24b4a3a6; 0xbad03605; 0xcdd70693;
  0x54de5729; 0x23d967bf; 0xb3667a2e; 0xc4614ab8; 0x5d681b02; 0x2a6f2b94;
  0xb40bbe37; 0xc30c8ea1; 0x5a05df1b; 0x2d02ef8d].

(** One step of the loop. *)
Definition crc32_step (val b : Z) : Z :=
  nth (Z.to_nat ((val .^ b) .& 0xff)) crc32_table 0 .^ (val .>> 8).

Fixpoint crc32_loop (n : nat) (s : list Z) (val : Z) : result Z :=
  match n with
  | O => Ret val
  | S n =>
      match s with
      | [] => Fault OutOfBounds
      | b :: s => crc32_loop n s (crc32_step val b)
      end
  end.
(** [while (--len >= 0)]: nothing is read for a negative length. *)
Definition crc32 (val : Z) (ss : list Z) (len : Z) : result Z := crc32_loop (Z.to_nat len) ss val.

(** [len] is converted from [size_t] to [int]. *)
Definition crc32buf (buf : list Z) (len : Z) : result Z := crc32 0xFFFFFFFF buf (s32 len).

(** ** Reference: bit-serial division *)

Definition crc32_bit (c : Z) : Z := if Z.odd c then (c .>> 1) .^ 0xEDB88320 else c .>> 1.
Definition crc32_byte (crc b : Z) : Z := Nat.iter 8 crc32_bit (crc .^ b).
Definition crc32_serial (data : list Z) (crc : Z) : Z := foldl crc32_byte crc data.

(** ** Lemmas *)

Lemma crc32_table_serial x :
  0 ≤ x < 256 → nth (Z.to_nat x) crc32_table 0 = Nat.iter 8 crc32_bit x.
Proof.
  intros Hx. apply Z.eqb_eq.
  by refine (byte_forall (λ x, nth (Z.to_nat x) crc32_table 0 =? Nat.iter 8 crc32_bit x) _ x Hx);
    vm_compute.
Qed.

(** A bit step is linear: the high part of the register is only shifted. *)
Lemma crc32_bit_split h l n :
  0 ≤ n → crc32_bit ((h .<< (n + 1)) .^ l) = (h .<< n) .^ crc32_bit l.
Proof.
  intros Hn. unfold crc32_bit. rewrite <- !Z.bit0_odd, Z.lxor_spec, Z.shiftl_spec by lia.
  rewrite (Z.testbit_neg_r h (0 - (n + 1))) by lia. rewrite xorb_false_l.
  assert (((h .<< (n + 1)) .^ l) .>> 1 = (h .<< n) .^ (l .>> 1)) as E.
  { rewrite Z.shiftr_lxor. f_equal. rewrite Z.shiftr_shiftl_l by lia. f_equal. lia. }
  rewrite E. destruct (Z.testbit l 0); [by rewrite Z.lxor_assoc|done].
Qed.
Lemma crc32_bits_split h l : Nat.iter 8 crc32_bit ((h .<< 8) .^ l) = h .^ Nat.iter 8 crc32_bit l.
Proof.
  assert (∀ k, (k ≤ 8)%nat → Nat.iter k crc32_bit ((h .<< 8) .^ l) =
    (h .<< (8 - Z.of_nat k)) .^ Nat.iter k crc32_bit l) as Hk.
  { induction k as [|k IH]; intros Hle; [done|]. cbn [Nat.iter]. change (crc32_bit ?x) with (crc32_bit x).
    rewrite !Nat.iter_succ. rewrite IH by lia. rewrite <- crc32_bit_split by lia. do 3 f_equal. lia. }
  rewrite (Hk 8%nat) by lia. by rewrite Z.shiftl_0_r.
Qed.

Lemma crc32_step_serial val b :
  0 ≤ val < 2 ^ 32 → 0 ≤ b < 256 → crc32_step val b = crc32_byte val b.
Proof.
  intros Hv Hb. unfold crc32_step, crc32_byte.
  assert (0 ≤ (val .^ b) .& 0xff < 256) as Hi by (rewrite land_255; apply Z.mod_pos_bound; lia).
  rewrite crc32_table_serial by done.
  assert (val .^ b = ((val .>> 8) .<< 8) .^ ((val .^ b) .& 0xff)) as E.
  { change 0xff with (Z.ones 8). apply Z.bits_inj'. intros i Hi'.
    rewrite !Z.lxor_spec, Z.land_spec, Z.lxor_spec, Z.shiftl_spec, Z.testbit_ones by lia.
    destruct (Z.ltb_spec i 8).
    - rewrite (Z.testbit_neg_r _ (i - 8)), (proj2 (Z.leb_le 0 i)) by lia. by rewrite andb_true_r.
    - rewrite (bits_above b 8) by lia. rewrite Z.shiftr_spec by lia.
      replace (i - 8 + 8) with i by lia. by rewrite !andb_false_r, xorb_false_r. }
  rewrite E at 2. rewrite crc32_bits_split. apply Z.lxor_comm.
Qed.

Lemma crc32_step_range val b : 0 ≤ val < 2 ^ 32 → 0 ≤ b < 256 → 0 ≤ crc32_step val b < 2 ^ 32.
Proof.
  intros Hv Hb. unfold crc32_step. apply (lxor_range _ _ 32); [lia| |].
  - assert (0 ≤ (val .^ b) .& 0xff < 256) as Hi by (rewrite land_255; apply Z.mod_pos_bound; lia).
    pose proof (byte_forall (λ x, (0 <=? nth (Z.to_nat x) crc32_table 0) &&
      (nth (Z.to_nat x) crc32_table 0 <? 2 ^ 32)) ltac:(vm_compute; reflexivity) _ Hi) as Ht.
    cbv beta in Ht. apply andb_prop in Ht as [?%Z.leb_le ?%Z.ltb_lt]. done.
  - by apply shiftr_range.
Qed.

Lemma crc32_loop_foldl data rest val :
  crc32_loop (length data) (data ++ rest) val = Ret (foldl crc32_step val data).
Proof. revert val. induction data; intros; simpl; auto. Qed.

Lemma crc32_foldl data val :
  bytes_wf data → 0 ≤ val < 2 ^ 32 → foldl crc32_step val data = crc32_serial data val.
Proof.
  intros Hd. revert val. induction Hd as [|b data Hb Hd IH]; intros val Hv; simpl; [done|].
  rewrite IH by (by apply crc32_step_range). unfold crc32_serial. simpl. by rewrite crc32_step_serial.
Qed.
Lemma crc32_serial_range data val :
  bytes_wf data → 0 ≤ val < 2 ^ 32 → 0 ≤ crc32_serial data val < 2 ^ 32.
Proof.
  intros Hd Hv. rewrite <- crc32_foldl by done. revert val Hv.
  induction Hd as [|b data Hb Hd IH]; intros val Hv; simpl; [done|]. apply IH. by apply crc32_step_range.
Qed.

(** The checksum of a whole buffer of the tool. *)
Definition crc_of (data : list Z) : Z := crc32_serial data 0xFFFFFFFF.

Lemma crc32buf_ok data rest :
  bytes_wf data → Z.of_nat (length data) < 2 ^ 31 →
  crc32buf (data ++ rest) (Z.of_nat (length data)) = Ret (crc_of data).
Proof.
  intros Hd Hl. unfold crc32buf, crc32, crc_of.
  by rewrite Mtd.s32_small, Nat2Z.id, crc32_loop_foldl, crc32_foldl by (done || lia).
Qed.

(** ** Properties *)

(** C40: from any start value and over any bytes, the table loop of [crc32]
    is the bit-serial remainder by the polynomial 0xedb88320 (reflected) of
    the comment, and reads only the [len] bytes it was given. *)
Theorem crc32_polynomial data rest val :
  bytes_wf data → 0 ≤ val < 2 ^ 32 →
  crc32 val (data ++ rest) (Z.of_nat (length data)) = Ret (crc32_serial data val).
Proof.
  intros Hd Hv. unfold crc32. by rewrite Nat2Z.id, crc32_loop_foldl, crc32_foldl.
Qed.

Lemma crc32_polynomial_witness :
  crc32 0xFFFFFFFF (cs "123456789" ++ [7]) 9 = Ret (crc32_serial (cs "123456789") 0xFFFFFFFF).
Proof.
  apply (crc32_polynomial (cs "123456789") [7] 0xFFFFFFFF); [|lia].
  apply (bool_decide_unpack _). vm_compute. exact I.
Defined.

(** The check value of CRC-32 (the final complement is left to the callers,
    which never make it). *)
Example crc32_check : crc32 0xFFFFFFFF (cs "123456789") 9 = Ret (Z.lxor 0xCBF43926 0xFFFFFFFF).
Proof. by vm_compute. Qed.

End MtdCrc.
