(* ===== verification/MtdKernel.v ===== *)
(** * What the mtd tool relies on: the kernel's contract, and the logic of runs

    [KernelLaws] states the documented behaviour of the system calls over an
    abstract view of the kernel: the objects (devices and files) with their
    bytes, the open descriptors with their offsets.  Every call may fail; what
    a failed erase or write leaves behind is not known, inside the bytes it
    was asked for.  A [healthy] kernel refuses no reasonable request.  [Sim]
    is a kernel of its own, which satisfies the contract and fails where a
    plan says so. *)

From S2P Require Import Prelude CLib Mtd.
Import Mtd.
Open Scope Z_scope.
Open Scope cint_scope.

Module MtdKernel.

(** ** The abstract kernel *)

Record object := Object {
  o_bytes : list Z;
  o_info : option mtd_info;       (** for an MTD device *)
  o_bad : list Z                  (** the offsets of its bad blocks *)
}.
Record kview := View {
  v_proc : option (list (list Z));
  v_node : gmap (list Z) Z;       (** objects by path *)
  v_obj : gmap Z object;
  v_fd : gmap Z (Z * Z)           (** object and offset of a descriptor *)
}.

Definition size_of (o : object) : Z := Z.of_nat (length (o_bytes o)).
Definition with_bytes (b : list Z) (o : object) : object := Object b (o_info o) (o_bad o).
Definition set_obj (id : Z) (o : object) (v : kview) : kview :=
  View (v_proc v) (v_node v) (<[id := o]> (v_obj v)) (v_fd v).
Definition set_fd (fd : Z) (x : option (Z * Z)) (v : kview) : kview :=
  View (v_proc v) (v_node v) (v_obj v) (partial_alter (λ _, x) fd (v_fd v)).

(** What a descriptor refers to. *)
Definition refers (v : kview) (fd id pos : Z) (o : object) : Prop :=
  v_fd v !! fd = Some (id, pos) ∧ v_obj v !! id = Some o.

(** The bytes of a range; two contents that agree outside a range. *)
Definition range (b : list Z) (off n : Z) : list Z := take (Z.to_nat n) (drop (Z.to_nat off) b).
Definition same_outside (b b' : list Z) (off n : Z) : Prop :=
  length b' = length b ∧
  take (Z.to_nat off) b' = take (Z.to_nat off) b ∧
  drop (Z.to_nat (off + n)) b' = drop (Z.to_nat (off + n)) b.
Definition erased (b : list Z) (off n : Z) : Prop := range b off n = replicate (Z.to_nat n) 255.
(** No bad block is touched. *)
Definition good_range (o : object) (es off n : Z) : Prop :=
  ∀ x, x ∈ o_bad o → x + es ≤ off ∨ off + n ≤ x.

(** A change of [n] bytes at [off] of the object behind a descriptor. *)
Definition changes (v v' : kview) (fd off n : Z) (P : list Z → list Z → Prop) : Prop :=
  ∀ id pos o, refers v fd id pos o →
    ∃ b, v' = set_obj id (with_bytes b o) v ∧ same_outside (o_bytes o) b off n ∧ P (o_bytes o) b.

(** A [read] that was interrupted, or would have to wait, is tried again. *)
Definition retried (r : Z + list Z) : Prop := r = inl EINTR ∨ r = inl EAGAIN.

Class KernelLaws (K : Type) `{Kernel K} := {
  view : K → kview;
  healthy : K → Prop;
  (** how often a [read] can still be interrupted before one gives a result,
      and the most there can be *)
  retries : K → nat;
  max_retries : nat;
  (** no [read] is interrupted, or gives fewer bytes than there are: a regular
      file *)
  whole_reads : bool;
  law_retries k : (retries k ≤ max_retries)%nat;
  law_proc k r k' : k_proc_mtd k = (r, k') →
    view k' = view k ∧ (r = None ∨ r = v_proc (view k)) ∧
    (healthy k → healthy k' ∧ r = v_proc (view k));
  law_open p k r k' : k_open p k = (r, k') →
    ((r < 0 ∧ view k' = view k) ∨
     (0 ≤ r ∧ ∃ id, v_node (view k) !! p = Some id ∧ v_fd (view k) !! r = None ∧
        view k' = set_fd r (Some (id, 0)) (view k))) ∧
    (healthy k → healthy k' ∧ (is_Some (v_node (view k) !! p) → 0 ≤ r));
  law_close fd k : view (k_close fd k) = set_fd fd None (view k) ∧ (healthy k → healthy (k_close fd k));
  law_getinfo fd k r k' : k_getinfo fd k = (r, k') →
    view k' = view k ∧
    (∀ i id pos o, r = Some i → refers (view k) fd id pos o → o_info o = Some i) ∧
    (healthy k → healthy k' ∧
       ∀ id pos o, refers (view k) fd id pos o → r = o_info o);
  law_badblock fd off k r k' : k_badblock fd off k = (r, k') →
    view k' = view k ∧
    (∀ id pos o, 0 ≤ r → refers (view k) fd id pos o → r ≠ 0 ↔ off ∈ o_bad o) ∧
    (healthy k → healthy k' ∧
       ∀ id pos o, refers (view k) fd id pos o → 0 ≤ off < size_of o → 0 ≤ r);
  law_unlock fd start n k : view (k_unlock fd start n k) = view k ∧ (healthy k → healthy (k_unlock fd start n k));
  law_erase fd start n k r k' : 0 ≤ start → 0 ≤ n → k_erase fd start n k = (r, k') →
    changes (view k) (view k') fd start n (λ _ b, 0 ≤ r → erased b start n) ∧
    (healthy k → healthy k' ∧
       ∀ id pos o i, refers (view k) fd id pos o → o_info o = Some i → (mi_erasesize i | n) →
         (mi_erasesize i | start) → start + n ≤ size_of o → good_range o (mi_erasesize i) start n → 0 ≤ r);
  law_pread fd n off k r k' : 0 ≤ n → k_pread fd n off k = (r, k') →
    view k' = view k ∧
    (∀ bs id pos o, r = Some bs → refers (view k) fd id pos o →
       0 ≤ off ∧ ∃ m, m ≤ n ∧ bs = range (o_bytes o) off m) ∧
    (healthy k → healthy k' ∧
       ∀ id pos o, refers (view k) fd id pos o → 0 ≤ off →
         r = Some (range (o_bytes o) off n));
  law_pwrite fd bs off k r k' : 0 ≤ off → k_pwrite fd bs off k = (r, k') →
    let n := Z.of_nat (length bs) in
    changes (view k) (view k') fd off n
      (λ b b', r = n → erased b off n → range b' off n = bs) ∧
    (healthy k → healthy k' ∧
       ∀ id pos o i, refers (view k) fd id pos o → o_info o = Some i → off + n ≤ size_of o →
         good_range o (mi_erasesize i) off n → r = n);
  (** [read] gives the next bytes, and none only at the end; a pipe or a device
      may give fewer than there are, a regular file does not *)
  law_read fd n k r k' : 0 ≤ n → k_read fd n k = (r, k') →
    (∀ id pos o, refers (view k) fd id pos o → 0 ≤ pos →
       match r with
       | inl _ => view k' = view k
       | inr bs => bs = range (o_bytes o) pos (Z.of_nat (length bs)) ∧ Z.of_nat (length bs) ≤ n ∧
           (bs = [] → 0 < n → size_of o ≤ pos) ∧
           view k' = set_fd fd (Some (id, pos + Z.of_nat (length bs))) (view k)
       end) ∧
    (retried r → (retries k' < retries k)%nat) ∧
    (healthy k → healthy k' ∧
       ∀ id pos o, refers (view k) fd id pos o → 0 ≤ pos →
         (retried r ∨ ∃ bs, r = inr bs) ∧ (whole_reads = true → r = inr (range (o_bytes o) pos n)));
  law_write fd bs k r k' : k_write fd bs k = (r, k') →
    let n := Z.of_nat (length bs) in
    (∀ id pos o, refers (view k) fd id pos o → 0 ≤ pos →
       ∃ b pos', view k' = set_fd fd (Some (id, pos')) (set_obj id (with_bytes b o) (view k)) ∧
         same_outside (o_bytes o) b pos n ∧ r ≤ n ∧
         (r = n → pos' = pos + n ∧ (erased (o_bytes o) pos n → range b pos n = bs))) ∧
    (healthy k → healthy k' ∧
       ∀ id pos o i, refers (view k) fd id pos o → o_info o = Some i → 0 ≤ pos → pos + n ≤ size_of o →
         good_range o (mi_erasesize i) pos n → r = n);
  (** a seek inside a device succeeds *)
  law_seek_cur fd off k :
    (∀ id pos o, refers (view k) fd id pos o → 0 ≤ pos + off ≤ size_of o →
       view (k_seek_cur fd off k) = set_fd fd (Some (id, pos + off)) (view k)) ∧
    (healthy k → healthy (k_seek_cur fd off k));
  law_open_ro p k r k' : k_open_ro p k = (r, k') →
    ((r < 0 ∧ view k' = view k) ∨
     (0 ≤ r ∧ ∃ id, v_node (view k) !! p = Some id ∧ v_fd (view k) !! r = None ∧
        view k' = set_fd r (Some (id, 0)) (view k))) ∧
    (healthy k → healthy k' ∧ (is_Some (v_node (view k) !! p) → 0 ≤ r));
  law_malloc n k r k' : k_malloc n k = (r, k') →
    view k' = view k ∧ (∀ mem, r = Some mem → length mem = Z.to_nat n) ∧
    (healthy k → healthy k' ∧ is_Some r)
}.

(** ** Weakest preconditions *)

Section wp.
Context {K : Type}.

Definition wp {A} (m : M K A) (Q : A → state K → Prop) (E : Z → state K → Prop) (s : state K) : Prop :=
  match m s with
  | Done a s => Q a s
  | Exited c s => E c s
  | Broken _ => False
  end.

Lemma wp_ret {A} (a : A) Q E s : Q a s → wp (mret a) Q E s.
Proof. done. Qed.
Lemma wp_bind {A B} (m : M K A) (k : A → M K B) Q E s :
  wp m (λ a s', wp (k a) Q E s') E s → wp (m ≫= k) Q E s.
Proof. unfold wp, mbind, M_bind. by destruct (m s). Qed.
Lemma wp_mono {A} (m : M K A) (Q Q' : A → state K → Prop) (E E' : Z → state K → Prop) s :
  wp m Q E s → (∀ a s', Q a s' → Q' a s') → (∀ c s', E c s' → E' c s') → wp m Q' E' s.
Proof. unfold wp. destruct (m s); auto. Qed.
Lemma wp_exit {A} c (Q : A → state K → Prop) E s : E c s → wp (exit_ c) Q E s.
Proof. done. Qed.
Lemma wp_get Q E (s : state K) : Q (gl s) s → wp get Q E s.
Proof. done. Qed.
Lemma wp_put g Q E (s : state K) : Q tt (State (kern s) g) → wp (put g) Q E s.
Proof. done. Qed.
Lemma wp_lift {A} (r : result A) (a : A) Q E (s : state K) : r = Ret a → Q a s → wp (lift r) Q E s.
Proof. by intros ->. Qed.
Lemma wp_sys {A} (f : K → A * K) Q E (s : state K) :
  (∀ a k, f (kern s) = (a, k) → Q a (State k (gl s))) → wp (sys f) Q E s.
Proof. intros Hf. unfold wp, sys. destruct (f (kern s)) eqn:E1. by apply Hf. Qed.
Lemma wp_sys_ (f : K → K) Q E (s : state K) : Q tt (State (f (kern s)) (gl s)) → wp (sys_ f) Q E s.
Proof. done. Qed.

(** A loop with an invariant and a measure; the fuel is above the measure. *)
Lemma wp_loop_state {A B} (body : A → M K (A + B)) (I : A → state K → Prop) (measure : A → state K → nat) Q E fuel :
  (∀ a s, I a s → wp (body a) (λ r s', match r with
     | inl a' => I a' s' ∧ (measure a' s' < measure a s)%nat
     | inr b => Q b s' end) E s) →
  ∀ a s, I a s → (measure a s < fuel)%nat → wp (loop fuel body a) Q E s.
Proof.
  intros Hb. induction fuel as [|n IH]; intros a s HI Hm; [lia|]. cbn [loop].
  apply wp_bind. eapply wp_mono; [by apply Hb| |done].
  intros [a'|b] s'; [|done]. intros [HI' Hm']. apply IH; [done|lia].
Qed.
Lemma wp_loop {A B} (body : A → M K (A + B)) (I : A → state K → Prop) (measure : A → nat) Q E fuel :
  (∀ a s, I a s → wp (body a) (λ r s', match r with
     | inl a' => I a' s' ∧ (measure a' < measure a)%nat
     | inr b => Q b s' end) E s) →
  ∀ a s, I a s → (measure a < fuel)%nat → wp (loop fuel body a) Q E s.
Proof. intros Hb. by apply (wp_loop_state body I (λ a _, measure a)). Qed.
End wp.

(** ** Contents *)

Lemma length_range b off n :
  0 ≤ off → 0 ≤ n → off + n ≤ Z.of_nat (length b) → length (range b off n) = Z.to_nat n.
Proof. intros. unfold range. rewrite length_take, length_drop. lia. Qed.
Lemma range_length_le b off n : (length (range b off n) ≤ Z.to_nat n)%nat.
Proof. unfold range. rewrite length_take. lia. Qed.
Lemma range_clip b off n : range b off n = range b off (Z.of_nat (length (range b off n))).
Proof.
  unfold range. rewrite Nat2Z.id, length_take.
  destruct (decide (Z.to_nat n ≤ length (drop (Z.to_nat off) b))%nat).
  - by rewrite Nat.min_l by lia.
  - rewrite Nat.min_r by lia. by rewrite !take_ge by lia.
Qed.

Lemma same_outside_refl b off n : same_outside b b off n.
Proof. done. Qed.
#[export] Hint Resolve same_outside_refl : core.

(** Bytes [off, off + n) replaced by [bs]. *)
Definition splice (b : list Z) (off : Z) (bs : list Z) : list Z :=
  take (Z.to_nat off) b ++ bs ++ drop (Z.to_nat (off + Z.of_nat (length bs))) b.

Lemma length_splice b off bs :
  0 ≤ off → off + Z.of_nat (length bs) ≤ Z.of_nat (length b) → length (splice b off bs) = length b.
Proof. intros. unfold splice. rewrite !length_app, length_take, length_drop. lia. Qed.
Lemma splice_same_outside b off bs :
  0 ≤ off → off + Z.of_nat (length bs) ≤ Z.of_nat (length b) →
  same_outside b (splice b off bs) off (Z.of_nat (length bs)).
Proof.
  intros Ho Hl. split; [by apply length_splice|]. unfold splice. split.
  - rewrite take_app_le by (rewrite length_take; lia). apply take_ge. rewrite length_take. lia.
  - rewrite app_assoc, drop_app_length'; [done|]. rewrite length_app, length_take. lia.
Qed.
Lemma range_splice b off bs :
  0 ≤ off → off + Z.of_nat (length bs) ≤ Z.of_nat (length b) →
  range (splice b off bs) off (Z.of_nat (length bs)) = bs.
Proof.
  intros Ho Hl. unfold range, splice. rewrite drop_app_length' by (rewrite length_take; lia).
  rewrite Nat2Z.id. apply take_app_length.
Qed.

Lemma same_outside_lookup b b' off n i :
  same_outside b b' off n → 0 ≤ off → 0 ≤ n → Z.of_nat i < off ∨ off + n ≤ Z.of_nat i → b' !! i = b !! i.
Proof.
  intros (Hl & Ht & Hd) Ho Hn [Hi|Hi].
  - rewrite <- (lookup_take_lt b' (Z.to_nat off) i), <- (lookup_take_lt b (Z.to_nat off) i) by lia.
    by rewrite Ht.
  - replace i with (Z.to_nat (off + n) + (i - Z.to_nat (off + n)))%nat by lia.
    by rewrite <- !lookup_drop, Hd.
Qed.
Lemma lookup_range b off n i :
  0 ≤ off → 0 ≤ n → (i < Z.to_nat n)%nat → range b off n !! i = b !! (Z.to_nat off + i)%nat.
Proof. intros. unfold range. by rewrite lookup_take_lt, lookup_drop by lia. Qed.
Lemma range_ext b b' off n off' n' :
  same_outside b b' off n → 0 ≤ off → 0 ≤ n → 0 ≤ off' → 0 ≤ n' →
  off' + n' ≤ off ∨ off + n ≤ off' → range b' off' n' = range b off' n'.
Proof.
  intros Hs ?????. apply list_eq. intros i.
  destruct (decide (i < Z.to_nat n')%nat).
  - rewrite !lookup_range by lia. eapply same_outside_lookup; [done..|]. lia.
  - rewrite !lookup_ge_None_2; [done|..]; (eapply Nat.le_trans; [apply range_length_le|lia]).
Qed.
(** Two contents that agree outside and inside a range are equal. *)
Lemma same_outside_range b b' off n :
  same_outside b b' off n → 0 ≤ off → 0 ≤ n → range b' off n = range b off n → b' = b.
Proof.
  intros Hs Ho Hn Hr. apply list_eq. intros i.
  destruct (decide (Z.of_nat i < off ∨ off + n ≤ Z.of_nat i)); [by eapply same_outside_lookup|].
  replace i with (Z.to_nat off + (i - Z.to_nat off))%nat by lia.
  rewrite <- !(lookup_range _ off n) by lia. by rewrite Hr.
Qed.
Lemma same_outside_trans b b1 b2 off n :
  same_outside b b1 off n → same_outside b1 b2 off n → same_outside b b2 off n.
Proof. unfold same_outside. naive_solver congruence. Qed.
Lemma range_app b off n m :
  0 ≤ off → 0 ≤ n → 0 ≤ m → range b off (n + m) = range b off n ++ range b (off + n) m.
Proof.
  intros. unfold range. rewrite !Z2Nat.inj_add by lia. rewrite <- drop_drop.
  generalize (drop (Z.to_nat off) b). intros l.
  rewrite <- (take_drop (Z.to_nat n) l) at 1.
  destruct (decide (Z.to_nat n ≤ length l)%nat).
  - by rewrite take_app_add' by (rewrite length_take; lia).
  - rewrite (take_ge l), (drop_ge l), app_nil_r, take_nil, app_nil_r by lia. apply take_ge. lia.
Qed.

(** A content cut at a range. *)
Lemma cut_range b off n :
  0 ≤ off → 0 ≤ n → off + n ≤ Z.of_nat (length b) →
  ∃ p q, b = p ++ range b off n ++ q ∧ off = Z.of_nat (length p) ∧ n = Z.of_nat (length (range b off n)).
Proof.
  intros. exists (take (Z.to_nat off) b), (drop (Z.to_nat n) (drop (Z.to_nat off) b)).
  rewrite length_range, length_take by lia. unfold range. rewrite take_drop, take_drop. split_and!; [done|lia..].
Qed.
Lemma range_at (p w q : list Z) off n :
  off = Z.of_nat (length p) → n = Z.of_nat (length w) → range (p ++ w ++ q) off n = w.
Proof. intros -> ->. unfold range. by rewrite !Nat2Z.id, drop_app_length, take_app_length. Qed.
Lemma splice_at (p w q bs : list Z) off :
  off = Z.of_nat (length p) → length bs = length w → splice (p ++ w ++ q) off bs = p ++ bs ++ q.
Proof.
  intros -> Hl. unfold splice. rewrite Nat2Z.id, take_app_length, <- Nat2Z.inj_add, Nat2Z.id, Hl.
  by rewrite <- drop_drop, !drop_app_length.
Qed.
Lemma range_range b off n x m :
  0 ≤ off → 0 ≤ x → 0 ≤ m → x + m ≤ n → off + n ≤ Z.of_nat (length b) →
  range (range b off n) x m = range b (off + x) m.
Proof.
  intros. destruct (cut_range b off n) as (p & q & Hb & Hp & Hn); [lia..|].
  destruct (cut_range (range b off n) x m) as (u & t & Hw & Hu & Hm); [lia..|].
  revert Hb Hn Hm Hw. generalize (range b off n). intros w Hb Hn.
  generalize (range w x m). intros c Hm ->. subst b.
  rewrite <- !app_assoc, app_assoc. symmetry. apply range_at; rewrite ?length_app; lia.
Qed.
(** A content is known from its outside and its inside. *)
Lemma splice_unique b b' off bs :
  0 ≤ off → off + Z.of_nat (length bs) ≤ Z.of_nat (length b) →
  same_outside b b' off (Z.of_nat (length bs)) → range b' off (Z.of_nat (length bs)) = bs →
  b' = splice b off bs.
Proof.
  intros Ho Hl Hs Hr. apply (same_outside_range (splice b off bs) b' off (Z.of_nat (length bs))); [|done|lia|].
  - pose proof (splice_same_outside b off bs Ho Hl) as (Hl2 & Ht2 & Hd2).
    destruct Hs as (Hl1 & Ht1 & Hd1). split_and!; congruence.
  - by rewrite range_splice.
Qed.
(** A write inside a part of a content. *)
Lemma splice_range b off n x cs :
  0 ≤ off → 0 ≤ n → 0 ≤ x → off + n ≤ Z.of_nat (length b) → x + Z.of_nat (length cs) ≤ n →
  splice b off (splice (range b off n) x cs) = splice b (off + x) cs.
Proof.
  intros. destruct (cut_range b off n) as (p & q & Hb & Hp & Hn); [lia..|].
  destruct (cut_range (range b off n) x (Z.of_nat (length cs))) as (u & t & Hw & Hu & Hm); [lia..|].
  revert Hb Hn Hm Hw. generalize (range b off n). intros w Hb Hn.
  generalize (range w x (Z.of_nat (length cs))). intros c Hm ->. subst b.
  rewrite (splice_at u), (splice_at p) by (rewrite ?length_app; lia).
  rewrite <- !app_assoc, !(app_assoc p u). symmetry. apply splice_at; rewrite ?length_app; lia.
Qed.
(** Two adjacent writes are one. *)
Lemma splice_splice b off bs cs :
  0 ≤ off → off + Z.of_nat (length bs) + Z.of_nat (length cs) ≤ Z.of_nat (length b) →
  splice (splice b off bs) (off + Z.of_nat (length bs)) cs = splice b off (bs ++ cs).
Proof.
  intros. destruct (cut_range b off (Z.of_nat (length bs) + Z.of_nat (length cs))) as (p & q & Hb & Hp & Hn); [lia..|].
  revert Hb Hn. generalize (range b off (Z.of_nat (length bs) + Z.of_nat (length cs))). intros w -> Hn.
  rewrite <- (take_drop (length bs) w) at 1. rewrite <- (app_assoc _ _ q).
  rewrite (splice_at p) by (rewrite ?length_take; lia). rewrite (app_assoc p bs).
  rewrite splice_at by (rewrite ?length_app, ?length_drop; lia).
  rewrite (splice_at p) by (rewrite ?length_app; lia). by rewrite <- !app_assoc.
Qed.

(** ** Names of devices *)

Definition quoted (name : list Z) : list Z := take 4095 ([34] ++ name ++ [34]).

(** The paths [mtd_open] may open for a name. *)
Definition named (v : kview) (block : bool) (name : list Z) (id : Z) : Prop :=
  v_node v !! name = Some id ∨
  ∃ lines i slash, v_proc v = Some lines ∧ find_mtd lines (quoted name) = Some i ∧
    v_node v !! dev_path block slash i = Some id.
(** The one it opens when nothing fails. *)
Definition resolve (v : kview) (block : bool) (name : list Z) : option Z :=
  match v_proc v ≫= λ lines, find_mtd lines (quoted name) with
  | Some i =>
      match v_node v !! dev_path block true i with
      | Some id => Some id
      | None => v_node v !! dev_path block false i
      end
  | None => v_node v !! name
  end.
(** [name] is the name of the device [o], and of nothing else. *)
Record names (v : kview) (name : list Z) (id : Z) (o : object) (i : mtd_info) : Prop := {
  nm_resolve : resolve v false name = Some id;
  nm_only id' : named v false name id' → id' = id;
  nm_obj : v_obj v !! id = Some o;
  nm_info : o_info o = Some i
}.

Lemma view_eta v : View (v_proc v) (v_node v) (v_obj v) (v_fd v) = v.
Proof. by destruct v. Qed.
Lemma set_fd_undo v fd x : v_fd v !! fd = None → set_fd fd None (set_fd fd x v) = v.
Proof.
  intros Hf. rewrite <- (view_eta v) at 2. unfold set_fd. cbn. f_equal.
  apply map_eq. intros j. destruct (decide (j = fd)) as [->|Hj].
  - by rewrite lookup_partial_alter_eq.
  - by rewrite !lookup_partial_alter_ne.
Qed.
Lemma set_fd_twice w f x y : set_fd f x (set_fd f y w) = set_fd f x w.
Proof.
  unfold set_fd. cbn. f_equal. apply map_eq. intros j. destruct (decide (j = f)) as [->|];
    [by rewrite !lookup_partial_alter_eq|by rewrite !lookup_partial_alter_ne].
Qed.
Lemma set_fd_comm w f f' x y : f ≠ f' → set_fd f x (set_fd f' y w) = set_fd f' y (set_fd f x w).
Proof.
  intros. unfold set_fd. cbn. f_equal. apply map_eq. intros j.
  destruct (decide (j = f)), (decide (j = f')); simplify_eq;
    by rewrite ?lookup_partial_alter_eq, ?lookup_partial_alter_ne, ?lookup_partial_alter_eq, ?lookup_partial_alter_ne by done.
Qed.
Lemma set_fd_id w f x : v_fd w !! f = Some x → set_fd f (Some x) w = w.
Proof.
  intros Hf. rewrite <- (view_eta w) at 2. unfold set_fd. f_equal. apply map_eq. intros j.
  destruct (decide (j = f)) as [->|]; [by rewrite lookup_partial_alter_eq|by rewrite lookup_partial_alter_ne].
Qed.
Lemma refers_set_obj v fd id pos o o' : refers v fd id pos o → refers (set_obj id o' v) fd id pos o'.
Proof. intros [? ?]. split; [done|]. apply lookup_insert_eq. Qed.
Lemma refers_set_fd v fd id pos o : v_obj v !! id = Some o → refers (set_fd fd (Some (id, pos)) v) fd id pos o.
Proof. intros. unfold refers, set_fd. cbn [v_fd v_obj]. by rewrite lookup_partial_alter_eq. Qed.
Lemma set_obj_id v id o : v_obj v !! id = Some o → set_obj id o v = v.
Proof. intros. unfold set_obj. rewrite insert_id by done. apply view_eta. Qed.
Lemma set_obj_twice v id o o' : set_obj id o' (set_obj id o v) = set_obj id o' v.
Proof. unfold set_obj. cbn. by rewrite insert_insert_eq. Qed.
Lemma with_bytes_id o : with_bytes (o_bytes o) o = o.
Proof. by destruct o. Qed.

(** ** The operations of mtd.c *)

Section ops.
Context {K : Type} `{KernelLaws K}.
Implicit Types s : state K.

Lemma wp_sys_open p Q E s :
  (∀ r k, (r < 0 ∧ view k = view (kern s)) ∨
     (0 ≤ r ∧ ∃ id, v_node (view (kern s)) !! p = Some id ∧ v_fd (view (kern s)) !! r = None ∧
        view k = set_fd r (Some (id, 0)) (view (kern s))) →
     (healthy (kern s) → healthy k ∧ (is_Some (v_node (view (kern s)) !! p) → 0 ≤ r)) →
     Q r (State k (gl s))) →
  wp (sys (k_open p)) Q E s.
Proof. intros HQ. apply wp_sys. intros r k [? ?]%law_open. by apply HQ. Qed.

(** [mtd_open] gives a descriptor of a device of that name at its start, or
    fails with nothing changed. *)
Definition opened (v : kview) (block : bool) (name : list Z) (r : Z) (v' : kview) : Prop :=
  (r < 0 ∧ v' = v) ∨
  (0 ≤ r ∧ ∃ id, named v block name id ∧ v_fd v !! r = None ∧ v' = set_fd r (Some (id, 0)) v).

Lemma wp_open_last block name p k0 k1 g Q E :
  view k1 = view k0 →
  (∀ id, v_node (view k0) !! p = Some id → named (view k0) block name id) →
  (healthy k0 → healthy k1 ∧
     ∀ id, resolve (view k0) block name = Some id → is_Some (v_node (view k0) !! p)) →
  (∀ r k, opened (view k0) block name r (view k) →
     (healthy k0 → healthy k ∧ ∀ id, resolve (view k0) block name = Some id → 0 ≤ r) →
     Q r (State k g)) →
  wp (sys (k_open p)) Q E (State k1 g).
Proof.
  intros Hv Hn Hh HQ. apply wp_sys_open. cbn [kern gl]. rewrite Hv. intros r k Ho Hk. apply HQ.
  - destruct Ho as [Ho|(? & id & ? & ? & ?)]; [by left|right]. split; [done|]. exists id. auto.
  - intros [Hk1 Hres]%Hh. destruct (Hk Hk1) as [? Hok]. split; [done|]. eauto.
Qed.

Lemma wp_mtd_open name block Q E s :
  (∀ r k, opened (view (kern s)) block name r (view k) →
     (healthy (kern s) → healthy k ∧
        ∀ id, resolve (view (kern s)) block name = Some id → 0 ≤ r) →
     Q r (State k (gl s))) →
  wp (mtd_open name block) Q E s.
Proof.
  intros HQ. unfold mtd_open. fold (quoted name). apply wp_bind, wp_sys.
  intros lines k1 (Hv1 & Hl & Hh1)%law_proc.
  assert (v_proc (view (kern s)) ≫= (λ lines, find_mtd lines (quoted name)) = None ∨ lines = None →
    wp (sys (k_open name)) Q E (State k1 (gl s))) as Hdirect.
  { intros Hnone. apply (wp_open_last block name _ (kern s)); [done|by left| |done].
    intros [? Hlp]%Hh1. split; [done|]. intros id. unfold resolve.
    assert (v_proc (view (kern s)) ≫= (λ lines, find_mtd lines (quoted name)) = None) as ->
      by (destruct Hnone as [?| ->]; [done|by rewrite <- Hlp]).
    by intros ->. }
  destruct lines as [lines|]; [|by apply Hdirect; right].
  assert (v_proc (view (kern s)) = Some lines) as Hp by (by destruct Hl).
  rewrite Hp in Hdirect. cbn [mbind option_bind] in Hdirect.
  destruct (find_mtd lines (quoted name)) as [i|] eqn:Hf; [|by apply Hdirect; left].
  assert (∀ slash id, v_node (view (kern s)) !! dev_path block slash i = Some id →
    named (view (kern s)) block name id) as Hnamed by (intros slash id ?; right; by exists lines, i, slash).
  apply wp_bind, wp_sys_open. cbn [kern gl]. rewrite Hv1. intros r k2 Ho Hk2.
  destruct (Z.ltb_spec r 0) as [Hr|Hr].
  - destruct Ho as [[_ Hv2]|[? _]]; [|lia].
    apply (wp_open_last block name _ (kern s)); [done|apply Hnamed| |done].
    intros [Hk1 _]%Hh1. destruct (Hk2 Hk1) as [? Hok]. split; [done|]. intros id. unfold resolve.
    rewrite Hp. cbn [mbind option_bind]. rewrite Hf. destruct (v_node _ !! dev_path block true i) eqn:Hn1; [|by intros ->].
    specialize (Hok ltac:(eauto)). lia.
  - destruct Ho as [[? _]|(_ & id & ? & ? & ?)]; [lia|]. apply wp_ret, HQ.
    + right. split; [done|]. exists id. eauto.
    + intros [Hk1 _]%Hh1. destruct (Hk2 Hk1). split; [done|]. intros; done.
Qed.

(** Opening the device a name stands for. *)
Lemma wp_check_open name id o i Q E s :
  names (view (kern s)) name id o i →
  (∀ k, view k = view (kern s) → ¬ healthy (kern s) → Q (-1) (State k (gl s))) →
  (∀ fd k, 0 ≤ fd → v_fd (view (kern s)) !! fd = None →
     view k = set_fd fd (Some (id, 0)) (view (kern s)) → (healthy (kern s) → healthy k) →
     Q fd (State k (set_info (s32 (mi_size i)) (s32 (mi_erasesize i)) (mi_type i) (gl s)))) →
  wp (mtd_check_open name) Q E s.
Proof.
  intros Hn Hfail Hok. unfold mtd_check_open. apply wp_bind, wp_mtd_open. cbn [kern gl].
  intros fd k1 Ho Hh1. destruct (Z.ltb_spec fd 0) as [Hfd|Hfd].
  { apply wp_ret. destruct Ho as [[_ Hv1]|[? _]]; [|lia]. apply Hfail; [done|].
    intros [_ Hres]%Hh1. specialize (Hres id (nm_resolve _ _ _ _ _ Hn)). lia. }
  destruct Ho as [[? _]|(_ & id' & Hid & Hfree & Hv1)]; [lia|].
  apply (nm_only _ _ _ _ _ Hn) in Hid as ->.
  assert (refers (view k1) fd id 0 o) as Href by (rewrite Hv1; apply refers_set_fd, (nm_obj _ _ _ _ _ Hn)).
  apply wp_bind, wp_sys. cbn [kern gl]. intros info k2 (Hv2 & Hinfo & Hh2)%law_getinfo.
  destruct info as [i'|].
  - assert (i' = i) as -> by
      (specialize (Hinfo i' _ _ _ eq_refl Href); rewrite (nm_info _ _ _ _ _ Hn) in Hinfo; congruence).
    apply wp_bind, wp_get, wp_bind, wp_put, wp_ret. cbn [kern gl]. apply Hok; [done|done|by rewrite Hv2|].
    intros [Hk1 _]%Hh1. by apply Hh2 in Hk1 as [].
  - apply wp_bind, wp_sys_, wp_ret. cbn [kern gl]. destruct (law_close fd k2) as [Hv3 _]. apply Hfail.
    + rewrite Hv3, Hv2, Hv1. by apply set_fd_undo.
    + intros [Hk1 _]%Hh1. apply Hh2 in Hk1 as [_ Hi]. specialize (Hi _ _ _ Href).
      by rewrite (nm_info _ _ _ _ _ Hn) in Hi.
Qed.

(** A bad block of a NAND device; other devices are not asked. *)
Definition bad_block (o : object) (i : mtd_info) (off : Z) : bool :=
  bool_decide (mi_type i = MTD_NANDFLASH ∧ off ∈ o_bad o).

Lemma wp_block_is_bad fd off id pos o i Q E s :
  refers (view (kern s)) fd id pos o → mtdtype (gl s) = mi_type i → 0 ≤ off < 2 ^ 31 →
  (∀ r k, view k = view (kern s) → bool_decide (r = 0) = negb (bad_block o i off) →
     (healthy (kern s) → healthy k) → Q r (State k (gl s))) →
  (∀ k, view k = view (kern s) → (healthy (kern s) → size_of o ≤ off) → E 1 (State k (gl s))) →
  wp (mtd_block_is_bad fd off) Q E s.
Proof.
  intros Hr Hty Hoff HQ HE. unfold mtd_block_is_bad. apply wp_bind, wp_get. rewrite Hty.
  destruct (decide (mi_type i = MTD_NANDFLASH)) as [Hnand|Hnand].
  - rewrite s32_small by done. apply wp_bind, wp_sys. intros r k (Hv & Hbad & Hh)%law_badblock.
    destruct (Z.ltb_spec r 0) as [Hr0|Hr0].
    + apply wp_exit. apply HE; [done|]. intros [_ Hok]%Hh.
      destruct (decide (size_of o ≤ off)); [done|]. specialize (Hok _ _ _ Hr ltac:(lia)). lia.
    + apply wp_ret. apply HQ; [done| |by intros [??]%Hh].
      specialize (Hbad _ _ _ Hr0 Hr). unfold bad_block. 
      destruct (decide (off ∈ o_bad o)) as [Hin|Hin].
      * rewrite (bool_decide_eq_true_2 (_ ∧ _)) by done. apply bool_decide_eq_false_2. tauto.
      * rewrite (bool_decide_eq_false_2 (_ ∧ _)) by tauto. apply bool_decide_eq_true_2.
        destruct (decide (r = 0)); tauto.
  - apply wp_ret. destruct s as [k g]. apply (HQ 0 k); [done| |done].
    unfold bad_block. rewrite (bool_decide_eq_false_2 (_ ∧ _)) by tauto. done.
Qed.

Lemma wp_erase_block fd off id pos o i Q E s :
  refers (view (kern s)) fd id pos o → o_info o = Some i → erasesize (gl s) = mi_erasesize i →
  0 ≤ off < 2 ^ 31 → 0 ≤ mi_erasesize i < 2 ^ 31 →
  (∀ r b k, view k = set_obj id (with_bytes b o) (view (kern s)) →
     same_outside (o_bytes o) b off (mi_erasesize i) →
     (r = 0 ∧ erased b off (mi_erasesize i) ∨
      r = -1 ∧ (healthy (kern s) → (mi_erasesize i | off) → good_range o (mi_erasesize i) off (mi_erasesize i) →
        size_of o < off + mi_erasesize i)) →
     (healthy (kern s) → healthy k) → Q r (State k (gl s))) →
  wp (mtd_erase_block fd off) Q E s.
Proof.
  intros Hr Hi Hes Hoff Hlen HQ. unfold mtd_erase_block. apply wp_bind, wp_get. rewrite Hes.
  rewrite (u32_small (mi_erasesize i)), s32_small, u32_small by lia.
  apply wp_bind, wp_sys_. destruct (law_unlock fd off (mi_erasesize i) (kern s)) as [Hv1 Hh1].
  apply wp_bind, wp_sys. cbn [kern gl]. intros r k (Hch & Hh)%law_erase; [|lia|lia].
  rewrite Hv1 in Hch. destruct (Hch _ _ _ Hr) as (b & Hv & Hsame & Her).
  assert (healthy (kern s) → healthy k) as Hhk by (intros Hk; by apply Hh, Hh1).
  destruct (Z.ltb_spec r 0) as [Hr0|Hr0]; apply wp_ret; (eapply HQ; [done|done| |done]).
  - right. split; [done|]. intros Hk Hdiv Hgood.
    destruct (decide (off + mi_erasesize i ≤ size_of o)) as [Hle|]; [|lia].
    destruct (Hh (Hh1 Hk)) as [_ Hok]. rewrite Hv1 in Hok.
    specialize (Hok _ _ _ _ Hr Hi (Z.divide_refl _) Hdiv Hle Hgood). lia.
  - left. auto.
Qed.

Lemma wp_sys_pread fd n off id pos o Q E s :
  refers (view (kern s)) fd id pos o → 0 ≤ n →
  (∀ r k, view k = view (kern s) → (∀ bs, r = Some bs → (length bs ≤ Z.to_nat n)%nat) →
     (∀ bs, r = Some bs → Z.of_nat (length bs) = n → bs = range (o_bytes o) off n) →
     (healthy (kern s) → healthy k ∧ (0 ≤ off → r = Some (range (o_bytes o) off n))) →
     Q r (State k (gl s))) →
  wp (sys (k_pread fd n off)) Q E s.
Proof.
  intros Hr Hn HQ. apply wp_sys. intros r k (Hv & Hbs & Hh)%law_pread; [|done].
  apply HQ; [done|..].
  - intros bs Hb. destruct (Hbs _ _ _ _ Hb Hr) as (_ & m & Hm & ->).
    etrans; [apply range_length_le|]. lia.
  - intros bs Hb Hl. destruct (Hbs _ _ _ _ Hb Hr) as (Ho & m & Hm & Eb). rewrite Eb.
    assert (length bs ≤ Z.to_nat m)%nat as Hlm by (rewrite Eb; apply range_length_le).
    destruct (decide (0 < n)); [f_equal; lia|]. assert (n = 0) as -> by lia.
    unfold range. cbn. destruct (decide (m ≤ 0)); [|lia]. by rewrite Z2Nat.nonpos by lia.
  - intros [? Hok]%Hh. eauto.
Qed.

Lemma wp_sys_pwrite fd bs off id pos o i Q E s :
  refers (view (kern s)) fd id pos o → o_info o = Some i → 0 ≤ off →
  (∀ r b k, view k = set_obj id (with_bytes b o) (view (kern s)) →
     same_outside (o_bytes o) b off (Z.of_nat (length bs)) →
     (r = Z.of_nat (length bs) → erased (o_bytes o) off (Z.of_nat (length bs)) →
        range b off (Z.of_nat (length bs)) = bs) →
     (healthy (kern s) → healthy k ∧
        (off + Z.of_nat (length bs) ≤ size_of o →
         good_range o (mi_erasesize i) off (Z.of_nat (length bs)) → r = Z.of_nat (length bs))) →
     Q r (State k (gl s))) →
  wp (sys (k_pwrite fd bs off)) Q E s.
Proof.
  intros Hr Hi Hoff HQ. apply wp_sys. intros r k (Hch & Hh)%law_pwrite; [|done].
  destruct (Hch _ _ _ Hr) as (b & Hv & Hsame & Hw). eapply HQ; [done..|].
  intros [? Hok]%Hh. eauto.
Qed.

Lemma wp_sys_malloc n Q E s :
  (∀ r k, view k = view (kern s) → (∀ mem, r = Some mem → length mem = Z.to_nat n) →
     (healthy (kern s) → healthy k ∧ is_Some r) → Q r (State k (gl s))) →
  wp (sys (k_malloc n)) Q E s.
Proof. intros HQ. apply wp_sys. intros r k (? & ? & ?)%law_malloc. by apply HQ. Qed.

Lemma wp_sys_read fd n id pos o Q E s :
  refers (view (kern s)) fd id pos o → 0 ≤ n → 0 ≤ pos →
  (∀ e k, view k = view (kern s) → (retried (inl e) → (retries k < retries (kern s))%nat) →
     (healthy (kern s) → healthy k ∧ retried (inl e) ∧ whole_reads = false) → Q (inl e) (State k (gl s))) →
  (∀ bs k, bs = range (o_bytes o) pos (Z.of_nat (length bs)) → Z.of_nat (length bs) ≤ n →
     (bs = [] → 0 < n → size_of o ≤ pos) →
     view k = set_fd fd (Some (id, pos + Z.of_nat (length bs))) (view (kern s)) →
     (healthy (kern s) → healthy k ∧ (whole_reads = true → bs = range (o_bytes o) pos n)) → Q (inr bs) (State k (gl s))) →
  wp (sys (k_read fd n)) Q E s.
Proof.
  intros Hr Hn Hp He Hq. apply wp_sys. intros r k (Hs & Ht & Hh)%law_read; [|done].
  specialize (Hs _ _ _ Hr Hp). destruct r as [e|bs].
  - apply He; [done|done|]. intros [Hk Hres]%Hh. destruct (Hres _ _ _ Hr Hp) as [[?|[? ?]] Hw]; [|done].
    split_and!; [done..|]. apply not_true_is_false. by intros ?%Hw.
  - destruct Hs as (? & ? & ? & ?). apply Hq; try done. intros [? Hres]%Hh. split; [done|]. intros Hw.
    destruct (Hres _ _ _ Hr Hp) as [_ Hall]. by injection (Hall Hw).
Qed.

Lemma wp_sys_write fd bs id pos o i Q E s :
  refers (view (kern s)) fd id pos o → o_info o = Some i → 0 ≤ pos →
  (∀ r b pos' k, view k = set_fd fd (Some (id, pos')) (set_obj id (with_bytes b o) (view (kern s))) →
     same_outside (o_bytes o) b pos (Z.of_nat (length bs)) → r ≤ Z.of_nat (length bs) →
     (r = Z.of_nat (length bs) → pos' = pos + Z.of_nat (length bs) ∧
        (erased (o_bytes o) pos (Z.of_nat (length bs)) → range b pos (Z.of_nat (length bs)) = bs)) →
     (healthy (kern s) → healthy k ∧
        (pos + Z.of_nat (length bs) ≤ size_of o →
         good_range o (mi_erasesize i) pos (Z.of_nat (length bs)) → r = Z.of_nat (length bs))) →
     Q r (State k (gl s))) →
  wp (sys (k_write fd bs)) Q E s.
Proof.
  intros Hr Hi Hpos HQ. apply wp_sys. intros r k (Hch & Hh)%law_write.
  destruct (Hch _ _ _ Hr Hpos) as (b & pos' & Hv & Hsame & Hle & Hw). eapply HQ; [done..|].
  intros [? Hok]%Hh. eauto.
Qed.

Lemma wp_sys_seek_cur fd off id pos o Q E s :
  refers (view (kern s)) fd id pos o → 0 ≤ pos + off ≤ size_of o →
  (∀ k, view k = set_fd fd (Some (id, pos + off)) (view (kern s)) → (healthy (kern s) → healthy k) →
     Q tt (State k (gl s))) →
  wp (sys_ (k_seek_cur fd off)) Q E s.
Proof. intros Hr Ho HQ. apply wp_sys_. destruct (law_seek_cur fd off (kern s)) as [Hv Hh]. eauto. Qed.

Lemma wp_sys_close fd Q E s :
  (∀ k, view k = set_fd fd None (view (kern s)) → (healthy (kern s) → healthy k) → Q tt (State k (gl s))) →
  wp (sys_ (k_close fd)) Q E s.
Proof. intros HQ. apply wp_sys_. destruct (law_close fd (kern s)). by apply HQ. Qed.

End ops.
End MtdKernel.
