(* ===== verification/MtdSim.v ===== *)
(** * A kernel for the mtd tool

    [sim] keeps the objects of [MtdKernel.kview] and a plan: the next call
    fails when the plan says so, and a kernel whose plan is empty never fails.
    It satisfies the contract [KernelLaws], so that the hypotheses of the
    theorems can hold, and runs the tool on concrete devices. *)

From S2P Require Import Prelude CLib Mtd MtdKernel.
Import Mtd MtdKernel.
Open Scope Z_scope.
Open Scope cint_scope.

Module MtdSim.

Record sim := Sim { s_view : kview; s_plan : list bool }.

(** Does the next call fail, and the kernel after it was asked. *)
Definition fails (k : sim) : bool := match s_plan k with b :: _ => b | [] => false end.
Definition with_view (v : kview) (k : sim) : sim := Sim v (tail (s_plan k)).

(** The object behind a descriptor. *)
Definition obj_at (v : kview) (fd : Z) : option (Z * Z * object) :=
  '(id, pos) ← v_fd v !! fd; o ← v_obj v !! id; Some (id, pos, o).

Definition free_fd (m : gmap Z (Z * Z)) : Z := map_fold (λ fd _ a, Z.max (fd + 1) a) 3 m.

Definition sim_proc (k : sim) : option (list (list Z)) * sim :=
  (if fails k then None else v_proc (s_view k), with_view (s_view k) k).
Definition sim_open (p : list Z) (k : sim) : Z * sim :=
  let v := s_view k in
  match v_node v !! p with
  | Some id =>
      if fails k then (-1, with_view v k)
      else let fd := free_fd (v_fd v) in (fd, with_view (set_fd fd (Some (id, 0)) v) k)
  | None => (-1, with_view v k)
  end.
Definition sim_close (fd : Z) (k : sim) : sim := with_view (set_fd fd None (s_view k)) k.
Definition sim_getinfo (fd : Z) (k : sim) : option mtd_info * sim :=
  (if fails k then None else x ← obj_at (s_view k) fd; o_info x.2, with_view (s_view k) k).
Definition sim_badblock (fd off : Z) (k : sim) : Z * sim :=
  (if fails k then -1
   else match obj_at (s_view k) fd with
        | Some (_, _, o) => if bool_decide (off ∈ o_bad o) then 1 else 0
        | None => -1
        end, with_view (s_view k) k).
Definition sim_unlock (fd start n : Z) (k : sim) : sim := with_view (s_view k) k.

(** A change of [bs] at [off], when it fits. *)
Definition sim_change (fd off : Z) (bs : list Z) (k : sim) : bool * sim :=
  match obj_at (s_view k) fd with
  | Some (id, _, o) =>
      if negb (fails k) && (0 <=? off) && (off + Z.of_nat (length bs) <=? size_of o)
      then (true, with_view (set_obj id (with_bytes (splice (o_bytes o) off bs) o) (s_view k)) k)
      else (false, with_view (s_view k) k)
  | None => (false, with_view (s_view k) k)
  end.
(** Does the block at [x] meet the range? *)
Definition in_range (start n : Z) (i : option mtd_info) (x : Z) : Prop :=
  match i with Some i => start < x + mi_erasesize i ∧ x < start + n | None => False end.
#[export] Instance in_range_dec start n i x : Decision (in_range start n i x).
Proof. destruct i; apply _. Defined.
Definition sim_erase (fd start n : Z) (k : sim) : Z * sim :=
  match obj_at (s_view k) fd with
  | Some (_, _, o) =>
      if bool_decide (Exists (in_range start n (o_info o)) (o_bad o)) then (-1, with_view (s_view k) k)
      else let '(ok, k) := sim_change fd start (replicate (Z.to_nat n) 255) k in (if ok then 0 else -1, k)
  | None => (-1, with_view (s_view k) k)
  end.
Definition sim_pread (fd n off : Z) (k : sim) : option (list Z) * sim :=
  (if fails k || (off <? 0) then None
   else match obj_at (s_view k) fd with
        | Some (_, _, o) => Some (range (o_bytes o) off n)
        | None => None
        end, with_view (s_view k) k).
Definition sim_pwrite (fd : Z) (bs : list Z) (off : Z) (k : sim) : Z * sim :=
  let '(ok, k) := sim_change fd off bs k in (if ok then Z.of_nat (length bs) else -1, k).
Definition sim_read (fd n : Z) (k : sim) : (Z + list Z) * sim :=
  match obj_at (s_view k) fd with
  | Some (id, pos, o) =>
      if fails k then (inl 5, with_view (s_view k) k)
      else
        let bs := range (o_bytes o) pos n in
        (inr bs, with_view (set_fd fd (Some (id, pos + Z.of_nat (length bs))) (s_view k)) k)
  | None => (inl 9, with_view (s_view k) k)
  end.
Definition sim_write (fd : Z) (bs : list Z) (k : sim) : Z * sim :=
  match obj_at (s_view k) fd with
  | Some (id, pos, o) =>
      let '(ok, k) := sim_change fd pos bs k in
      if ok then (Z.of_nat (length bs), Sim (set_fd fd (Some (id, pos + Z.of_nat (length bs))) (s_view k)) (s_plan k))
      else (-1, k)
  | None => (-1, with_view (s_view k) k)
  end.
Definition sim_seek (fd : Z) (f : Z → Z) (k : sim) : sim :=
  match v_fd (s_view k) !! fd with
  | Some (id, pos) => with_view (set_fd fd (Some (id, f pos)) (s_view k)) k
  | None => with_view (s_view k) k
  end.
Definition sim_malloc (n : Z) (k : sim) : option (list Z) * sim :=
  (if fails k then None else Some (replicate (Z.to_nat n) 170), with_view (s_view k) k).

Definition sim_stat (p : list Z) (k : sim) : option file_stat * sim :=
  (if fails k then None
   else o ← (v_node (s_view k) !! p ≫= λ id, v_obj (s_view k) !! id); Some (FileStat 33188 (size_of o) 0 0 0),
   with_view (s_view k) k).
Definition sim_msync (fd : Z) (bs : list Z) (k : sim) : sim := (sim_change fd 0 bs k).2.

#[export] Instance sim_kernel : Kernel sim := {|
  k_proc_mtd := sim_proc; k_open := sim_open; k_close := sim_close; k_getinfo := sim_getinfo;
  k_badblock := sim_badblock; k_unlock := sim_unlock; k_erase := sim_erase; k_pread := sim_pread;
  k_pwrite := sim_pwrite; k_read := sim_read; k_write := sim_write;
  k_seek_set fd off := sim_seek fd (λ _, off); k_seek_cur fd off := sim_seek fd (λ pos, pos + off);
  k_open_ro := sim_open; k_stat := sim_stat; k_mmap fd n := sim_pread fd n 0; k_msync := sim_msync;
  k_malloc := sim_malloc
|}.

(** ** It keeps the contract *)

Lemma obj_at_refers v fd id pos o : refers v fd id pos o → obj_at v fd = Some (id, pos, o).
Proof. intros [E1 E2]. unfold obj_at. rewrite E1. cbn. by rewrite E2. Qed.

Lemma free_fd_free m : 3 ≤ free_fd m ∧ m !! free_fd m = None.
Proof.
  assert (3 ≤ free_fd m ∧ ∀ fd x, m !! fd = Some x → fd < free_fd m) as [? Hm].
  { unfold free_fd. apply (map_fold_weak_ind (λ r m, 3 ≤ r ∧ ∀ fd x, m !! fd = Some x → fd < r)).
    - split; [lia|]. intros fd x. by rewrite lookup_empty.
    - intros fd x m' r Hfd [H3 IH]. split; [lia|]. intros fd' x'.
      rewrite lookup_insert_Some. intros [[-> _]|[_ Hx]]; [lia|]. specialize (IH _ _ Hx). lia. }
  split; [done|]. destruct (m !! free_fd m) eqn:E; [|done]. apply Hm in E. lia.
Qed.

Lemma sim_change_spec fd off bs k ok k' id pos o :
  sim_change fd off bs k = (ok, k') → refers (s_view k) fd id pos o →
  s_plan k' = tail (s_plan k) ∧
  (if ok then 0 ≤ off ∧ off + Z.of_nat (length bs) ≤ size_of o ∧
       s_view k' = set_obj id (with_bytes (splice (o_bytes o) off bs) o) (s_view k)
   else s_view k' = s_view k ∧
       (s_plan k = [] → 0 ≤ off → off + Z.of_nat (length bs) ≤ size_of o → False)).
Proof.
  intros E Hr. unfold sim_change in E. rewrite (obj_at_refers _ _ _ _ _ Hr) in E.
  destruct (negb (fails k) && (0 <=? off) && (off + Z.of_nat (length bs) <=? size_of o)) eqn:Et;
    injection E as <- <-; cbn; (split; [done|]).
  - apply andb_prop in Et as [[_ ?%Z.leb_le]%andb_prop ?%Z.leb_le]. done.
  - split; [done|]. intros Hp H0 Hl. unfold fails in Et. rewrite Hp in Et. cbn in Et.
    by rewrite (proj2 (Z.leb_le 0 off)), (proj2 (Z.leb_le _ _) Hl) in Et.
Qed.

Lemma same_obj v fd id pos o : refers v fd id pos o → v = set_obj id (with_bytes (o_bytes o) o) v.
Proof. intros Hr. by rewrite with_bytes_id, set_obj_id by apply Hr. Qed.

Lemma sim_erase_law fd start n k r k' : 0 ≤ start → 0 ≤ n → sim_erase fd start n k = (r, k') →
  changes (s_view k) (s_view k') fd start n (λ _ b, 0 ≤ r → erased b start n) ∧
  (s_plan k = [] → s_plan k' = [] ∧
     ∀ id pos o i, refers (s_view k) fd id pos o → o_info o = Some i → (mi_erasesize i | n) →
       (mi_erasesize i | start) → start + n ≤ size_of o → good_range o (mi_erasesize i) start n → 0 ≤ r).
Proof.
  intros Hs Hn E. split.
  - intros id pos o Hr. unfold sim_erase in E. rewrite (obj_at_refers _ _ _ _ _ Hr) in E.
    case_bool_decide.
    { injection E as <- <-. exists (o_bytes o). split; [by eapply same_obj|split; [done|lia]]. }
    destruct (sim_change fd start (replicate (Z.to_nat n) 255) k) as [ok k1] eqn:Ec. injection E as <- <-.
    destruct (sim_change_spec _ _ _ _ _ _ _ _ _ Ec Hr) as [_ Hok]. destruct ok.
    + destruct Hok as (_ & Hl & ->). rewrite length_replicate, Z2Nat.id in Hl by done. eexists. split; [done|].
      assert (Z.of_nat (length (replicate (Z.to_nat n) 255)) = n) as En by (rewrite length_replicate; lia).
      pose proof (splice_same_outside (o_bytes o) start (replicate (Z.to_nat n) 255) Hs) as Hso.
      pose proof (range_splice (o_bytes o) start (replicate (Z.to_nat n) 255) Hs) as Hra.
      rewrite En in Hso, Hra. split; [by apply Hso|]. intros _. by apply Hra.
    + destruct Hok as [-> _]. exists (o_bytes o). split; [by eapply same_obj|split; [done|lia]].
  - intros Hp. unfold sim_erase in E. destruct (obj_at (s_view k) fd) as [[[id' pos'] o']|] eqn:Eo.
    2: { injection E as <- <-. cbn. rewrite Hp. split; [done|]. intros ???? Hr. by rewrite (obj_at_refers _ _ _ _ _ Hr) in Eo. }
    case_bool_decide as Hbad.
    { injection E as <- <-. cbn. rewrite Hp. split; [done|]. intros id pos o i Hr Hi _ _ _ Hg.
      rewrite (obj_at_refers _ _ _ _ _ Hr) in Eo. injection Eo as <- <- <-.
      apply Exists_exists in Hbad as (x & Hx & Hin). rewrite Hi in Hin. cbn in Hin.
      destruct (Hg x Hx); lia. }
    unfold sim_change in E. rewrite Eo in E.
    destruct (negb (fails k) && _ && _) eqn:Et; injection E as <- <-; cbn; rewrite Hp; (split; [done|]); [done|].
    intros id pos o i Hr Hi Hni Hdiv Hfit Hg. rewrite (obj_at_refers _ _ _ _ _ Hr) in Eo. injection Eo as <- <- <-.
    unfold fails in Et. rewrite Hp in Et. cbn in Et. rewrite length_replicate, Z2Nat.id in Et by done.
    by rewrite (proj2 (Z.leb_le 0 start)), (proj2 (Z.leb_le _ _) Hfit) in Et.
Qed.

Lemma sim_pwrite_law fd bs off k r k' : 0 ≤ off → sim_pwrite fd bs off k = (r, k') →
  let n := Z.of_nat (length bs) in
  changes (s_view k) (s_view k') fd off n (λ b b', r = n → erased b off n → range b' off n = bs) ∧
  (s_plan k = [] → s_plan k' = [] ∧
     ∀ id pos o i, refers (s_view k) fd id pos o → o_info o = Some i → off + n ≤ size_of o →
       good_range o (mi_erasesize i) off n → r = n).
Proof.
  intros Hs E n. unfold sim_pwrite in E.
  destruct (sim_change fd off bs k) as [ok k1] eqn:Ec. injection E as <- <-. split.
  - intros id pos o Hr. destruct (sim_change_spec _ _ _ _ _ _ _ _ _ Ec Hr) as [_ Hok]. destruct ok.
    + destruct Hok as (_ & Hl & ->). eexists. split; [done|]. split; [by apply splice_same_outside; unfold size_of in *; lia|].
      intros _ _. by apply range_splice; unfold size_of in *; lia.
    + destruct Hok as [-> _]. exists (o_bytes o). split; [by eapply same_obj|split; [done|lia]].
  - intros Hp. split.
    { unfold sim_change in Ec. repeat case_match; injection Ec as <- <-; cbn; by rewrite Hp. }
    intros id pos o i Hr Hi Hfit _. destruct (sim_change_spec _ _ _ _ _ _ _ _ _ Ec Hr) as [_ Hok].
    destruct ok; [done|]. destruct Hok as [_ Hno]. by destruct Hno.
Qed.

Lemma sim_open_law p k r k' : sim_open p k = (r, k') →
  ((r < 0 ∧ s_view k' = s_view k) ∨
   (0 ≤ r ∧ ∃ id, v_node (s_view k) !! p = Some id ∧ v_fd (s_view k) !! r = None ∧
      s_view k' = set_fd r (Some (id, 0)) (s_view k))) ∧
  (s_plan k = [] → s_plan k' = [] ∧ (is_Some (v_node (s_view k) !! p) → 0 ≤ r)).
Proof.
  intros E. unfold sim_open in E. destruct (v_node (s_view k) !! p) as [id|] eqn:Hn.
  - unfold fails in E. destruct (s_plan k) as [|[] pl] eqn:Hp.
    + injection E as <- <-. cbn. rewrite Hp. destruct (free_fd_free (v_fd (s_view k))). split; [|split; [done|lia]].
      right. split; [lia|]. exists id. done.
    + injection E as <- <-. split; [left; split; [lia|done]|done].
    + injection E as <- <-. cbn. destruct (free_fd_free (v_fd (s_view k))). split; [|done].
      right. split; [lia|]. exists id. done.
  - injection E as <- <-. split; [left; split; [lia|done]|]. cbn. intros ->. split; [done|]. by intros [].
Qed.

Lemma sim_read_law fd n k r k' : 0 ≤ n → sim_read fd n k = (r, k') →
  (∀ id pos o, refers (s_view k) fd id pos o → 0 ≤ pos →
     match r with
     | inl _ => s_view k' = s_view k
     | inr bs => bs = range (o_bytes o) pos (Z.of_nat (length bs)) ∧ Z.of_nat (length bs) ≤ n ∧
         (bs = [] → 0 < n → size_of o ≤ pos) ∧
         s_view k' = set_fd fd (Some (id, pos + Z.of_nat (length bs))) (s_view k)
     end) ∧
  (retried r → (0 < 0)%nat) ∧
  (s_plan k = [] → s_plan k' = [] ∧
     ∀ id pos o, refers (s_view k) fd id pos o → 0 ≤ pos →
       (retried r ∨ ∃ bs, r = inr bs) ∧ (true = true → r = inr (range (o_bytes o) pos n))).
Proof.
  intros Hn E. unfold sim_read in E. split_and!.
  - intros id pos o Hr Hp. rewrite (obj_at_refers _ _ _ _ _ Hr) in E.
    destruct (fails k); injection E as <- <-; [done|]. split_and!; [apply range_clip| |intros Hnil Hn0|done].
    + pose proof (range_length_le (o_bytes o) pos n). lia.
    + apply (f_equal length) in Hnil. unfold range, size_of in *. rewrite length_take, length_drop in Hnil. cbn in Hnil. lia.
  - intros [->| ->]; repeat case_match; by injection E.
  - intros Hp. split.
    + repeat case_match; injection E as <- <-; cbn; by rewrite Hp.
    + intros id pos o Hr _. rewrite (obj_at_refers _ _ _ _ _ Hr) in E. unfold fails in E. rewrite Hp in E.
      injection E as <- <-. eauto.
Qed.

Lemma sim_write_law fd bs k r k' : sim_write fd bs k = (r, k') →
  let n := Z.of_nat (length bs) in
  (∀ id pos o, refers (s_view k) fd id pos o → 0 ≤ pos →
     ∃ b pos', s_view k' = set_fd fd (Some (id, pos')) (set_obj id (with_bytes b o) (s_view k)) ∧
       same_outside (o_bytes o) b pos n ∧ r ≤ n ∧
       (r = n → pos' = pos + n ∧ (erased (o_bytes o) pos n → range b pos n = bs))) ∧
  (s_plan k = [] → s_plan k' = [] ∧
     ∀ id pos o i, refers (s_view k) fd id pos o → o_info o = Some i → 0 ≤ pos → pos + n ≤ size_of o →
       good_range o (mi_erasesize i) pos n → r = n).
Proof.
  intros E n. unfold sim_write in E. split.
  - intros id pos o Hr Hpos. rewrite (obj_at_refers _ _ _ _ _ Hr) in E.
    destruct (sim_change fd pos bs k) as [ok k1] eqn:Ec.
    destruct (sim_change_spec _ _ _ _ _ _ _ _ _ Ec Hr) as [_ Hok]. destruct ok; injection E as <- <-.
    + destruct Hok as (_ & Hl & Hv). eexists _, _. cbn. split_and!.
      * by rewrite Hv.
      * by apply splice_same_outside; unfold size_of in *; lia.
      * done.
      * intros _. split; [done|]. intros _. by apply range_splice; unfold size_of in *; lia.
    + destruct Hok as [Hv _]. exists (o_bytes o), pos. rewrite Hv, with_bytes_id, set_obj_id by apply Hr.
      split_and!; [by rewrite set_fd_id by apply Hr|done|lia|lia].
  - intros Hp. split.
    + unfold sim_change in E. repeat case_match; simplify_eq/=; by rewrite Hp.
    + intros id pos o i Hr Hi Hpos Hfit _. rewrite (obj_at_refers _ _ _ _ _ Hr) in E.
      destruct (sim_change fd pos bs k) as [ok k1] eqn:Ec.
      destruct (sim_change_spec _ _ _ _ _ _ _ _ _ Ec Hr) as [_ Hok]. destruct ok; injection E as <- <-; [done|].
      destruct Hok as [_ Hno]. by destruct Hno.
Qed.

#[export] Instance sim_laws : KernelLaws sim.
Proof.
  refine {| view := s_view; healthy k := s_plan k = []; retries _ := 0%nat; max_retries := 0%nat; whole_reads := true |}.
  - done.
  - intros k r k' [= <- <-]. split; [done|]. cbn. unfold fails. split; [case_match; auto|].
    intros ->. done.
  - intros p k r k'. apply sim_open_law.
  - intros fd k. cbn. split; [done|]. by intros ->.
  - intros fd k r k' [= <- <-]. split; [done|]. split.
    + intros i id pos o Hi Hr. rewrite (obj_at_refers _ _ _ _ _ Hr) in Hi. by destruct (fails k).
    + cbn. unfold fails. intros ->. split; [done|]. intros id pos o Hr. by rewrite (obj_at_refers _ _ _ _ _ Hr).
  - intros fd off k r k' [= <- <-]. split; [done|]. split.
    + intros id pos o Hge Hr. rewrite (obj_at_refers _ _ _ _ _ Hr) in *. destruct (fails k); [lia|]. by case_bool_decide.
    + cbn. unfold fails. intros ->. split; [done|]. intros id pos o Hr. rewrite (obj_at_refers _ _ _ _ _ Hr).
      case_bool_decide; lia.
  - intros fd start n k. cbn. split; [done|]. by intros ->.
  - intros fd start n k r k'. apply sim_erase_law.
  - intros fd n off k r k' Hn [= <- <-]. split; [done|]. split.
    + intros bs id pos o Hbs Hr. rewrite (obj_at_refers _ _ _ _ _ Hr) in Hbs.
      destruct (fails k || (off <? 0)) eqn:Eo; [done|]. injection Hbs as <-.
      apply orb_false_iff in Eo as [_ ?%Z.ltb_ge]. split; [done|]. by exists n.
    + cbn. unfold fails. intros ->. split; [done|]. intros id pos o Hr Hoff. rewrite (obj_at_refers _ _ _ _ _ Hr).
      by rewrite (proj2 (Z.ltb_ge off 0)).
  - intros fd bs off k r k'. apply sim_pwrite_law.
  - intros fd n k r k'. apply sim_read_law.
  - intros fd bs k r k'. apply sim_write_law.
  - intros fd off k. cbn. unfold sim_seek. split.
    + intros id pos o [-> _] _. done.
    + intros Hp. destruct (v_fd (s_view k) !! fd) as [[? ?]|]; cbn; by rewrite Hp.
  - intros p k r k'. apply sim_open_law.
  - intros n k r k' [= <- <-]. split; [done|]. split.
    + intros mem. destruct (fails k); [done|]. intros [= <-]. apply length_replicate.
    + cbn. unfold fails. intros ->. done.
Defined.

(** ** A kernel with one device *)

(** The only device is /dev/mtd0, called "firmware" in /proc/mtd; no call fails. *)
Definition proc_lines : list (list Z) :=
  [cs "dev:    size   erasesize  name"; cs "mtd0: 00000060 00000020 " ++ [34] ++ cs "firmware" ++ [34; 10]].
Definition one_device (dev : object) : sim :=
  Sim (View (Some proc_lines) {[ cs "/dev/mtd0" := 7 ]} {[ 7 := dev ]} ∅) [].

Lemma one_device_names dev i :
  o_info dev = Some i → names (view (one_device dev)) (cs "firmware") 7 dev i.
Proof.
  intros Hi. split; [done| |done|done].
  intros id [Hn|(lines & j & slash & Hp & Hf & Hn)]; [done|].
  injection Hp as <-. assert (find_mtd proc_lines (quoted (cs "firmware")) = Some 0) as E by done.
  rewrite E in Hf. injection Hf as <-. destruct slash; [done|].
  change (v_node (view (one_device dev))) with ({[ cs "/dev/mtd0" := 7 ]} : gmap (list Z) Z) in Hn.
  assert (dev_path false false 0 = cs "/dev/mtd0") as Ed by done. rewrite Ed, lookup_singleton_eq in Hn.
  by injection Hn.
Qed.

End MtdSim.
