(* ===== verification/MtdDev.v ===== *)
(** * Devices of whole blocks

    What the theorems on the mtd tool share: well-formed devices, the blocks
    and the good bytes of a range, the state of the tool once it has opened a
    device, and the replacement of a block. *)

From S2P Require Import Prelude CLib Mtd MtdKernel.
Import Mtd MtdKernel.
Open Scope Z_scope.
Open Scope cint_scope.

Module MtdDev.

(** ** Devices *)

(** A device of whole blocks, whose block size is a power of two. *)
Record wf_device (o : object) (i : mtd_info) : Prop := {
  wd_info : o_info o = Some i;
  wd_size : mi_size i = size_of o;
  wd_pow : ∃ k, 0 ≤ k ∧ mi_erasesize i = 2 ^ k;
  wd_range : 0 < size_of o < 2 ^ 31;
  wd_blocks : (mi_erasesize i | size_of o);
  wd_bytes : bytes_wf (o_bytes o);
  wd_bad x : x ∈ o_bad o → (mi_erasesize i | x);
  wd_bad_in x : x ∈ o_bad o → 0 ≤ x < size_of o;
  wd_nand : mi_type i ≠ MTD_NANDFLASH → o_bad o = []
}.

(** The block an offset lies in. *)
Definition block_of (i : mtd_info) (x : Z) : Z := x - x mod mi_erasesize i.

(** The bytes of a range that lie in good blocks, in order. *)
Definition good_byte (o : object) (i : mtd_info) (x : Z) : option Z :=
  if bad_block o i (block_of i x) then None else o_bytes o !! Z.to_nat x.
Definition good_bytes (o : object) (i : mtd_info) (start n : Z) : list Z :=
  omap (good_byte o i) (seqZ start n).

Section device.
Context {Ar : Arch} (o : object) (i : mtd_info) (Hwf : wf_device o i).

Lemma wd_es_pos : 0 < mi_erasesize i.
Proof. destruct (wd_pow _ _ Hwf) as (k & Hk & ->). by apply Z.pow_pos_nonneg. Qed.
Lemma wd_es_le : mi_erasesize i ≤ size_of o.
Proof. apply Z.divide_pos_le; [apply (wd_range _ _ Hwf)|apply (wd_blocks _ _ Hwf)]. Qed.
Lemma long_bits_32 : 2 ^ 32 ≤ 2 ^ long_bits.
Proof. destruct long_bits_ok as [-> | ->]; lia. Qed.
Lemma size_t_small z : 0 ≤ z < 2 ^ 32 → size_t z = z.
Proof. intros. unfold size_t. apply Z.mod_small. pose proof long_bits_32. lia. Qed.
Lemma off_t_small z : z < 2 ^ 63 → off_t z = z.
Proof. intros. unfold off_t. case_match; lia. Qed.

Lemma block_mask_block x : 0 ≤ x < 2 ^ long_bits → x .& block_mask (mi_erasesize i) = block_of i x.
Proof.
  intros Hx. destruct (wd_pow _ _ Hwf) as (k & Hk & Ek). unfold block_mask, block_of, size_t. rewrite Ek.
  assert (0 < long_bits) by (destruct long_bits_ok as [-> | ->]; lia).
  replace (2 ^ k - 1) with (Z.ones k) by (by rewrite Z.ones_equiv, <- Z.sub_1_r).
  assert (x .& (Z.lnot (Z.ones k) mod 2 ^ long_bits) = Z.ldiff x (Z.ones k)) as ->.
  { rewrite <- Z.land_ones by lia. apply Z.bits_inj'. intros j Hj.
    rewrite !Z.land_spec, Z.ldiff_spec, Z.lnot_spec, !Z.testbit_ones by lia.
    destruct (decide (j < long_bits)).
    - rewrite (proj2 (Z.leb_le 0 j)), (proj2 (Z.ltb_lt j long_bits)) by lia. cbn. by rewrite andb_true_r.
    - rewrite (bits_above x long_bits) by lia. done. }
  rewrite Z.ldiff_ones_r by lia. rewrite Z.shiftl_mul_pow2, Z.shiftr_div_pow2 by lia.
  pose proof (Z.div_mod x (2 ^ k)). lia.
Qed.
Lemma low_mask x : 0 ≤ x → mi_erasesize i ≤ 2 ^ 32 → x .& size_t (mi_erasesize i - 1) = x mod mi_erasesize i.
Proof.
  intros Hx Hle. pose proof wd_es_pos. destruct (wd_pow _ _ Hwf) as (k & Hk & Ek).
  rewrite size_t_small by lia. rewrite Ek. by apply land_ones_mod.
Qed.

Lemma block_of_range x : 0 ≤ x → 0 ≤ block_of i x ≤ x ∧ x < block_of i x + mi_erasesize i.
Proof.
  intros Hx. pose proof wd_es_pos. unfold block_of. pose proof (Z.mod_pos_bound x (mi_erasesize i)).
  pose proof (Z.mod_le x (mi_erasesize i)). lia.
Qed.
Lemma block_of_divide x : (mi_erasesize i | block_of i x).
Proof.
  pose proof wd_es_pos. unfold block_of. exists (x / mi_erasesize i).
  pose proof (Z.div_mod x (mi_erasesize i)). lia.
Qed.
Lemma block_of_same x y : x ≤ y < x - x mod mi_erasesize i + mi_erasesize i → block_of i y = block_of i x.
Proof.
  intros Hy. pose proof wd_es_pos. unfold block_of.
  pose proof (Z.mod_pos_bound x (mi_erasesize i)). pose proof (Z.div_mod x (mi_erasesize i)).
  assert (y mod mi_erasesize i = y - mi_erasesize i * (x / mi_erasesize i)) as ->; [|lia].
  symmetry. apply (Z.mod_unique _ _ (x / mi_erasesize i)); lia.
Qed.
(** The last block of the device ends at its end. *)
Lemma block_fits x : 0 ≤ x < size_of o → block_of i x + mi_erasesize i ≤ size_of o.
Proof.
  intros Hx. pose proof wd_es_pos. destruct (block_of_range x); [lia|].
  destruct (block_of_divide x) as [q Hq]. destruct (wd_blocks _ _ Hwf) as [t Ht].
  rewrite Hq, Ht in *. assert (q < t) by nia. nia.
Qed.

Lemma good_bytes_app start n m :
  0 ≤ n → 0 ≤ m → good_bytes o i start (n + m) = good_bytes o i start n ++ good_bytes o i (start + n) m.
Proof. intros. unfold good_bytes. by rewrite seqZ_app, omap_app by lia. Qed.

Lemma omap_seqZ_lookup (b : list Z) start n :
  0 ≤ start → 0 ≤ n → start + n ≤ Z.of_nat (length b) →
  omap (λ x, b !! Z.to_nat x) (seqZ start n) = range b start n.
Proof.
  intros Hs Hn. revert start Hs. pattern n. apply natlike_ind; [|clear n Hn; intros n Hn IH|done];
    intros start Hs Hl.
  - done.
  - rewrite seqZ_cons by lia. cbn. destruct (lookup_lt_is_Some_2 b (Z.to_nat start)) as [c Hc]; [lia|].
    rewrite Hc, Z.pred_succ, <- Z.add_1_r. rewrite (IH (start + 1)) by lia. unfold range.
    rewrite (drop_S b c (Z.to_nat start)) by done. rewrite Z2Nat.inj_succ by lia. cbn. do 3 f_equal. lia.
Qed.

(** The part of a range that lies in one block, whatever the bytes. *)
Lemma good_bytes_block b x c :
  0 ≤ x → 0 ≤ c → x mod mi_erasesize i + c ≤ mi_erasesize i → x + c ≤ Z.of_nat (length b) →
  good_bytes (with_bytes b o) i x c = if bad_block o i (block_of i x) then [] else range b x c.
Proof.
  intros Hx Hc Hle Hsz. unfold good_bytes.
  assert (omap (good_byte (with_bytes b o) i) (seqZ x c) =
    omap (λ y, if bad_block o i (block_of i x) then None else b !! Z.to_nat y) (seqZ x c)) as ->.
  { apply list_omap_ext. apply Forall_Forall2_diag, Forall_forall. intros y Hy%elem_of_seqZ.
    unfold good_byte. by rewrite (block_of_same x y) by lia. }
  destruct (bad_block o i (block_of i x)).
  - induction (seqZ x c); [done|]. done.
  - by apply omap_seqZ_lookup.
Qed.
Lemma good_bytes_chunk x c :
  0 ≤ x → 0 ≤ c → x mod mi_erasesize i + c ≤ mi_erasesize i → x + c ≤ size_of o →
  good_bytes o i x c = if bad_block o i (block_of i x) then [] else range (o_bytes o) x c.
Proof. intros. rewrite <- (with_bytes_id o) at 1. by apply good_bytes_block. Qed.

(** Bytes outside a range do not see a change inside it, and the number of
    good bytes is that of the device. *)
Lemma good_bytes_ext b b' lo m start n :
  same_outside b b' lo m → 0 ≤ lo → 0 ≤ m → 0 ≤ start → start + n ≤ lo ∨ lo + m ≤ start →
  good_bytes (with_bytes b' o) i start n = good_bytes (with_bytes b o) i start n.
Proof.
  intros Hs Hlo Hm Hst Hn. unfold good_bytes. apply list_omap_ext, Forall_Forall2_diag, Forall_forall.
  intros x Hx%elem_of_seqZ. unfold good_byte. change (bad_block (with_bytes b' o) i) with (bad_block o i).
  change (bad_block (with_bytes b o) i) with (bad_block o i).
  destruct (bad_block o i (block_of i x)); [done|]. cbn [o_bytes with_bytes].
  eapply same_outside_lookup; [done|lia..].
Qed.
Lemma good_bytes_count b start n :
  length b = length (o_bytes o) →
  length (good_bytes (with_bytes b o) i start n) = length (good_bytes o i start n).
Proof.
  intros Hl. unfold good_bytes. induction (seqZ start n) as [|x l IH]; [done|]. cbn.
  assert (is_Some (good_byte (with_bytes b o) i x) ↔ is_Some (good_byte o i x)) as Hs.
  { unfold good_byte. change (bad_block (with_bytes b o) i) with (bad_block o i).
    destruct (bad_block o i (block_of i x)); [done|]. cbn [o_bytes with_bytes]. by rewrite !lookup_lt_is_Some, Hl. }
  destruct (good_byte (with_bytes b o) i x), (good_byte o i x); cbn; rewrite ?IH; [done|..|done];
    destruct Hs as [H1 H2]; exfalso; [by destruct H1 as [? [=]]|by destruct H2 as [? [=]]].
Qed.

Lemma good_bytes_length start n : 0 ≤ n → Z.of_nat (length (good_bytes o i start n)) ≤ n.
Proof.
  intros Hn. unfold good_bytes. assert (∀ l, length (omap (good_byte o i) l) ≤ length l)%nat as Hl.
  { induction l as [|x l IH]; [done|]. cbn. destruct (good_byte o i x); cbn; lia. }
  specialize (Hl (seqZ start n)). rewrite length_seqZ in Hl. lia.
Qed.
Lemma good_bytes_wf start n : bytes_wf (good_bytes o i start n).
Proof.
  unfold good_bytes. apply Forall_forall. intros b (x & _ & Hb)%list_elem_of_omap.
  unfold good_byte in Hb. case_match; [done|]. apply (proj1 (Forall_forall _ _) (wd_bytes _ _ Hwf)).
  by eapply list_elem_of_lookup_2.
Qed.
End device.

(** ** The tool at a device *)

Section run.
Context {Ar : Arch} {K : Type} `{KernelLaws K}.
Context (o : object) (i : mtd_info) (Hwf : wf_device o i).
Implicit Types s : state K.

(** The state of the tool after [mtd_check_open]. *)
Record at_device (fd id pos : Z) (s : state K) : Prop := {
  ad_refers : refers (view (kern s)) fd id pos o;
  ad_es : erasesize (gl s) = mi_erasesize i;
  ad_size : mtdsize (gl s) = size_of o;
  ad_type : mtdtype (gl s) = mi_type i
}.

Lemma es_small : 0 < mi_erasesize i < 2 ^ 31.
Proof. pose proof (wd_es_pos _ _ Hwf). pose proof (wd_es_le _ _ Hwf). pose proof (wd_range _ _ Hwf). lia. Qed.

(** A run that fails leaves everything but one block as it was. *)
Definition left_in_block (v : kview) (id bo : Z) (v' : kview) : Prop :=
  ∃ b, v_obj v' = <[id := with_bytes b o]> (v_obj v) ∧ same_outside (o_bytes o) b bo (mi_erasesize i).

Lemma left_same v id bo v' :
  v_obj v !! id = Some o → v_obj v' = v_obj v → left_in_block v id bo v'.
Proof. intros Ho Hv. exists (o_bytes o). by rewrite with_bytes_id, insert_id, Hv. Qed.

Lemma good_block x : (mi_erasesize i | x) → x ∉ o_bad o → good_range o (mi_erasesize i) x (mi_erasesize i).
Proof.
  intros [q Hq] Hx y Hy. pose proof es_small. destruct (wd_bad _ _ Hwf y Hy) as [t Ht].
  assert (y ≠ x) by congruence. assert (t ≠ q) by congruence. nia.
Qed.

(** A block is erased and written anew; what follows sees the device with the
    new block. *)
Lemma wp_replace_block fd id v bo block (rest : M K Z) Q E s :
  view (kern s) = set_fd fd (Some (id, 0)) v → at_device fd id 0 s →
  (mi_erasesize i | bo) → 0 ≤ bo → bo + mi_erasesize i ≤ size_of o →
  length block = Z.to_nat (mi_erasesize i) →
  (∀ k, view k = set_fd fd (Some (id, 0)) (set_obj id (with_bytes (splice (o_bytes o) bo block) o) v) →
     (healthy (kern s) → healthy k) → wp rest Q E (State k (gl s))) →
  (∀ s', left_in_block v id bo (view (kern s')) → (healthy (kern s) → bo ∈ o_bad o) → E 1 s') →
  wp (r ← mtd_erase_block fd bo;
      if r =? 0 then
        res ← sys (k_pwrite fd block (off_t bo));
        if res =? mi_erasesize i then rest else exit_ 1
      else exit_ 1) Q E s.
Proof.
  intros Hv [Href Hes Hsz Hty] Hdiv Hbo Hfit Hlen HQ HE.
  pose proof es_small as Hesr. pose proof (wd_range _ _ Hwf) as Hrange.
  apply wp_bind. apply (wp_erase_block fd bo id 0 o i); [done|apply Hwf|congruence|lia|lia|].
  intros r b1 k1 Hv1 Hs1 Hr Hh1.
  destruct Hr as [[-> Her]|[-> Hbad]]; cbn [Z.eqb].
  2: { apply wp_exit, HE; [exists b1; cbn [kern]; by rewrite Hv1, Hv|]. intros Hh.
       destruct (decide (bo ∈ o_bad o)) as [|Hg]; [done|]. specialize (Hbad Hh Hdiv (good_block bo Hdiv Hg)). lia. }
  rewrite off_t_small by lia. apply wp_bind.
  apply (wp_sys_pwrite fd block bo id 0 (with_bytes b1 o) i);
    [cbn [kern]; rewrite Hv1; by eapply refers_set_obj|apply Hwf|lia|].
  cbn [kern gl]. rewrite Hlen, Z2Nat.id by lia.
  intros res b2 k2 Hv2 Hs2 Hw Hh2. cbn [o_bytes with_bytes] in Hs2, Hw.
  rewrite Hv1, set_obj_twice, Hv in Hv2.
  assert (same_outside (o_bytes o) b2 bo (mi_erasesize i)) as Hs12 by (by eapply same_outside_trans).
  destruct (Z.eqb_spec res (mi_erasesize i)) as [->|Hres].
  - rewrite (splice_unique (o_bytes o) b2 bo block) in Hv2;
      rewrite ?Hlen, ?Z2Nat.id by lia; [|lia|unfold size_of in *; lia|done|by apply Hw].
    apply HQ; [done|]. intros Hh. by apply Hh2, Hh1.
  - apply wp_exit, HE; [exists b2; cbn [kern]; by rewrite Hv2|]. intros Hh.
    destruct (decide (bo ∈ o_bad o)) as [|Hg]; [done|]. destruct Hres. apply Hh2; [by apply Hh1| |].
    + unfold size_of. cbn [o_bytes with_bytes]. destruct Hs1 as [-> _]. done.
    + exact (good_block bo Hdiv Hg).
Qed.

Lemma split_colon_one name : 58 ∉ name → split_colon name = [name].
Proof.
  induction name as [|c name IH]; [done|]. intros [Hc Hn]%not_elem_of_cons. cbn.
  rewrite (proj2 (Z.eqb_neq c 58)) by done. by rewrite IH.
Qed.

(** [mtd_unlock] of one device leaves everything as it was. *)
Lemma wp_unlock_device name id s Q E :
  names (view (kern s)) name id o i → 58 ∉ name →
  (∀ r k, view k = view (kern s) → (healthy (kern s) → healthy k) →
     Q r (State k (set_info (size_of o) (mi_erasesize i) (mi_type i) (gl s)))) →
  (∀ k, view k = view (kern s) → ¬ healthy (kern s) → E 1 (State k (gl s))) →
  wp (mtd_unlock name) Q E s.
Proof.
  intros Hn Hc HQ HE. pose proof es_small as Hesr. pose proof (wd_range _ _ Hwf) as Hrange.
  unfold mtd_unlock. rewrite split_colon_one by done. cbn [mtd_unlock_list]. unfold mtd_unlock1.
  apply wp_bind, wp_bind, (wp_check_open name id o i); [done|..].
  { intros k Hk Hnh. rewrite (proj2 (Z.ltb_lt (-1) 0)) by done. by apply wp_exit, HE. }
  intros fd k1 Hfd Hfree Hv1 Hh1. rewrite (proj2 (Z.ltb_ge fd 0)) by done.
  rewrite !s32_small by (rewrite ?(wd_size _ _ Hwf); lia). rewrite (wd_size _ _ Hwf).
  apply wp_bind, wp_get, wp_bind, wp_sys_. cbn [kern gl].
  match goal with |- context [k_unlock fd ?a ?b k1] => destruct (law_unlock fd a b k1) as [Hv2 Hh2] end.
  apply wp_sys_close. cbn [kern gl]. intros k3 Hv3 Hh3. apply wp_ret, HQ; [|auto].
  rewrite Hv3, Hv2, Hv1. by apply set_fd_undo.
Qed.

End run.
(** ** Going through the blocks *)

Section blocks.
Context (o : object) (i : mtd_info) (Hwf : wf_device o i).
Abbreviation es := (mi_erasesize i).
Implicit Types b : list Z.

(** No bad block has been touched. *)
Definition bad_kept (b : list Z) : Prop :=
  ∀ x, x ∈ o_bad o → range b x es = range (o_bytes o) x es.

Lemma bad_kept_step b b' x :
  bad_kept b → same_outside b b' x es → 0 ≤ x → (es | x) → x ∉ o_bad o → bad_kept b'.
Proof.
  intros Hk Hs Hx Hdiv Hg y Hy. rewrite <- (Hk y Hy). pose proof (es_small o i Hwf).
  destruct (good_block o i Hwf x Hdiv Hg y Hy) as [Hl|Hr];
    (eapply range_ext; [done|lia|lia|apply (wd_bad_in _ _ Hwf y Hy)|lia|lia]).
Qed.

Lemma next_block e : (es | e) → 0 ≤ e < size_of o → (es | e + es) ∧ e + es ≤ size_of o.
Proof.
  intros Hd He. pose proof (es_small o i Hwf). split; [by apply Z.divide_add_r|].
  destruct Hd as [q Hq]. destruct (wd_blocks _ _ Hwf) as [t Ht]. assert (q < t) by nia. nia.
Qed.
Lemma block_of_start e : (es | e) → block_of i e = e.
Proof. intros Hd. pose proof (es_small o i Hwf). unfold block_of. rewrite (proj2 (Z.mod_divide e es ltac:(lia)) Hd). lia. Qed.
Lemma bad_block_iff x : bad_block o i x = true ↔ x ∈ o_bad o.
Proof.
  unfold bad_block. rewrite bool_decide_eq_true. split; [by intros [_ ?]|]. intros Hx. split; [|done].
  destruct (decide (mi_type i = MTD_NANDFLASH)) as [|Hn]; [done|]. rewrite (wd_nand _ _ Hwf Hn) in Hx. set_solver.
Qed.

Lemma good_bytes_next b e wr :
  length b = length (o_bytes o) → (es | e) → 0 ≤ e < size_of o → good_bytes (with_bytes b o) i 0 e = wr →
  good_bytes (with_bytes b o) i 0 (e + es) = wr ++ if bad_block o i e then [] else range b e es.
Proof.
  intros Hl Hd He Hg. pose proof (es_small o i Hwf). destruct (next_block e Hd He) as [_ Hfit].
  rewrite good_bytes_app, Hg, Z.add_0_l by lia. f_equal.
  rewrite (good_bytes_block o i Hwf); [by rewrite block_of_start|lia..| |unfold size_of in *; lia].
  rewrite (proj2 (Z.mod_divide e es ltac:(lia)) Hd). lia.
Qed.

Lemma same_outside_wider b b' x n e m :
  same_outside b b' x n → 0 ≤ e → e ≤ x → 0 ≤ n → x + n ≤ e + m → same_outside b b' e m.
Proof.
  intros (Hl & Ht & Hd) He Hx Hn Hm. split; [done|]. split.
  - replace (Z.to_nat e) with (Z.to_nat e `min` Z.to_nat x)%nat by lia. by rewrite <- !take_take, Ht.
  - replace (Z.to_nat (e + m)) with (Z.to_nat (x + n) + (Z.to_nat (e + m) - Z.to_nat (x + n)))%nat by lia.
    by rewrite <- !drop_drop, Hd.
Qed.

End blocks.
End MtdDev.
