(* ===== verification/MtdTrx.v ===== *)
(** * TRX headers (package/system/mtd/src/trx.c)

    [mtd_fixtrx] brings the length and the checksum of a TRX header on flash
    up to date with the data after it, by reading the data from the good
    blocks, and erasing and rewriting the block of the header. *)

From S2P Require Import Prelude CLib Mtd MtdCrc MtdKernel.
Import Mtd MtdCrc MtdKernel.
Open Scope Z_scope.
Open Scope cint_scope.

Module MtdTrx.

(** ** The program *)

Definition TRX_CRC32_DATA_OFFSET : Z := 12.
Definition TRX_CRC32_DATA_SIZE : Z := 16.
(** The fields of [struct trx_header] by their offsets. *)
Definition trx_magic : Z := 0.
Definition trx_len : Z := 4.
Definition trx_crc32 : Z := 8.
Definition trx_flag_version : Z := 12.
Definition sizeof_trx_header : Z := 28.

Section trx.
Context {Ar : Arch} {K : Type} `{Kernel K}.

Definition STORE32_LE (X : Z) : Z :=
  if big_endian
  then (((((X .& 0x000000FF) .<< 24) .| ((X .& 0x0000FF00) .<< 8)) .| ((X .& 0x00FF0000) .>> 8)) .|
         ((X .& 0xFF000000) .>> 24))
  else X.

(** A 32-bit field of a header that lies at [pos] in a block. *)
Definition field32 (block : list Z) (pos : Z) : result Z :=
  w ← mread block (Z.to_nat pos) 4; Ret (u32_of w).
Definition set_field32 (block : list Z) (pos v : Z) : result (list Z) :=
  mwrite block (Z.to_nat pos) (u32_bytes (u32 v)).

(** One round of [while (data_size) { ... }]: the offset, the bytes left, and
    the bytes read so far into the [cap] bytes of [buf]. *)
Definition trx_read_step (fd cap : Z) (x : Z * Z * list Z) : M K (Z * Z * list Z + list Z) :=
  let '(data_offset, data_size, to_) := x in
  if data_size =? 0 then mret (inr to_)
  else
    g ← get;
    let read_block_offset := data_offset .& block_mask (erasesize g) in
    let read_chunk := size_t (erasesize g - (data_offset .& size_t (erasesize g - 1))) in
    let read_chunk := if read_chunk <? data_size then read_chunk else data_size in
    bad ← mtd_block_is_bad fd read_block_offset;
    to_ ← (if bad =? 0 then
             if cap <? Z.of_nat (length to_) + read_chunk then lift (Fault OutOfBounds)
             else
               res ← sys (k_pread fd read_chunk (off_t data_offset));
               match res with
               | Some bs => if Z.of_nat (length bs) =? read_chunk then mret (to_ ++ bs) else exit_ 1
               | None => exit_ 1
               end
           else mret to_);
    mret (inl (size_t (data_offset + read_chunk), size_t (data_size - read_chunk), to_)).

(** From "trx->len =" to the end. *)
Definition trx_rewrite (fd : Z) (first_block : list Z) (block_offset offset : Z) (b : list Z) : M K Z :=
  g ← get;
  let data_size := Z.of_nat (length b) in
  first_block ← lift (set_field32 first_block (offset + trx_len)
                        (STORE32_LE (size_t (data_size + trx_flag_version))));
  crc ← lift (crc32buf b data_size);
  first_block ← lift (set_field32 first_block (offset + trx_crc32) (STORE32_LE crc));
  r ← mtd_erase_block fd block_offset;
  if r =? 0 then
    res ← sys (k_pwrite fd first_block (off_t block_offset));
    if res =? erasesize g then
      _ ← sys_ (k_close fd);
      mret 0
    else exit_ 1
  else exit_ 1.

(** From the allocation of [first_block] on; [offset] is within the block. *)
Definition trx_fix_at (fd block_offset offset data_offset data_size : Z) : M K Z :=
  g ← get;
  mem ← sys (k_malloc (size_t (erasesize g)));
  if mem is None then exit_ 1
  else
    res ← sys (k_pread fd (size_t (erasesize g)) (off_t block_offset));
    match res with
    | None => exit_ 1
    | Some first_block =>
        if negb (Z.of_nat (length first_block) =? erasesize g) then exit_ 1
        else
          magic ← lift (field32 first_block (offset + trx_magic));
          if negb (ntohl magic =? opt_trxmagic g) then exit_ 1
          else
            mem ← sys (k_malloc data_size);
            if mem is None then exit_ 1
            else
              b ← loop (S (Z.to_nat data_size)) (trx_read_step fd data_size)
                    (data_offset, data_size, []);
              let data_size := Z.of_nat (length b) in
              len ← lift (field32 first_block (offset + trx_len));
              crc ← lift (field32 first_block (offset + trx_crc32));
              want ← lift (crc32buf b data_size);
              if (len =? STORE32_LE (size_t (data_size + TRX_CRC32_DATA_OFFSET))) &&
                 (crc =? STORE32_LE want)
              then
                _ ← sys_ (k_close fd);
                mret 0
              else trx_rewrite fd first_block block_offset offset b
    end.

Definition mtd_fixtrx (mtd : list Z) (offset data_size : Z) : M K Z :=
  fd ← mtd_check_open mtd;
  if fd <? 0 then exit_ 1
  else
    g ← get;
    let data_offset := size_t (offset + TRX_CRC32_DATA_OFFSET) in
    let data_size := if data_size =? 0 then size_t (erasesize g - TRX_CRC32_DATA_OFFSET)
                     else size_t (data_size + TRX_CRC32_DATA_SIZE) in
    let block_offset := offset .& block_mask (erasesize g) in
    let offset := size_t (offset - block_offset) in
    if size_t (mtdsize g) <? size_t (data_offset + data_size) then exit_ 1
    else trx_fix_at fd block_offset offset data_offset data_size.

(** The header of the image that has been written is at the start of the
    mapping of the block device. *)
Definition trx_fixup (fd : Z) (name : list Z) : M K Z :=
  info ← sys (k_getinfo fd);
  match info with
  | None => mret (-1)
  | Some i =>
      let len := u32 (mi_size i) in
      if len =? 0 then mret (-1)
      else
        bfd ← mtd_open name true;
        ptr ← sys (k_mmap bfd len);
        match ptr with
        | None => _ ← sys_ (k_close bfd); mret (-1)
        | Some m =>
            g ← get;
            magic ← lift (field32 m trx_magic);
            if negb (ntohl magic =? opt_trxmagic g) then mret (-1)
            else
              n ← lift (field32 m trx_len);
              c ← lift (crc32buf (drop (Z.to_nat trx_flag_version) m) (size_t (n - trx_flag_version)));
              m ← lift (set_field32 m trx_crc32 c);
              _ ← sys_ (k_msync bfd m);
              _ ← sys_ (k_close bfd);
              mret 0
        end
  end.

(** The second argument is what [buf] points to, of which [len] bytes are
    filled; the result, and both of them after the call.  The file name
    "firmware" is that of the device. *)
Definition trx_check (imagefd : Z) (mtd b : list Z) (len : Z) : M K (Z * list Z * Z) :=
  if negb (bool_decide (mtd = cs "firmware")) then mret (1, b, len)
  else
    '(b, len) ← (if len <? 32 then
                   r ← sys (k_read imagefd (size_t (32 - len)));
                   match r with
                   | inl _ => mret (b, len - 1)
                   | inr bs =>
                       b ← lift (mwrite b (Z.to_nat len) bs);
                       mret (b, len + Z.of_nat (length bs))
                   end
                 else mret (b, len));
    if len <? 32 then mret (0, b, len)
    else
      g ← get;
      magic ← lift (field32 b trx_magic);
      n ← lift (field32 b trx_len);
      if negb (ntohl magic =? opt_trxmagic g) || (n <? sizeof_trx_header) then mret (0, b, len)
      else
        fd ← mtd_check_open mtd;
        if fd <? 0 then exit_ 1
        else
          g ← get;
          _ ← sys_ (k_close fd);
          (* an [int] is compared with a [uint32_t] *)
          if u32 (mtdsize g) <? n then mret (0, b, len)
          else mret (1, b, len).

End trx.
End MtdTrx.
