(* ===== verification/MtdTrxProps.v ===== *)
(** * TRX headers: what [mtd_fixtrx] leaves on the flash *)

From S2P Require Import Prelude CLib Mtd MtdCrc MtdKernel MtdSim MtdDev MtdTrx.
Import Mtd MtdCrc MtdKernel MtdSim MtdDev MtdTrx.
Open Scope Z_scope.
Open Scope cint_scope.

Module MtdTrxProps.

(** ** Fields of a header *)

Section fields.
Context {Ar : Arch}.

Lemma land_byte_id x k : 0 ≤ k → x .& (0xff .<< k) = ((x .>> k) .& 0xff) .<< k.
Proof.
  intros Hk. apply Z.bits_inj'. intros j Hj.
  rewrite Z.shiftl_spec, !Z.land_spec, Z.shiftl_spec by lia.
  destruct (decide (j < k)).
  - rewrite !(Z.testbit_neg_r _ (j - k)) by lia. by rewrite andb_false_r.
  - rewrite Z.shiftr_spec by lia. by replace (j - k + k) with j by lia.
Qed.

Lemma lor_be b0 b1 b2 b3 :
  0 ≤ b0 < 256 → 0 ≤ b1 < 256 → 0 ≤ b2 < 256 → 0 ≤ b3 < 256 →
  (((b0 .<< 24) .| (b1 .<< 16)) .| (b2 .<< 8)) .| b3 = be_val [b0; b1; b2; b3].
Proof.
  intros. rewrite !be_val_cons. rewrite (Z.lor_comm (b0 .<< 24)).
  rewrite (Z.lor_comm (_ .| (b0 .<< 24)) (b2 .<< 8)), Z.lor_comm, !Z.lor_assoc.
  rewrite (lor_shiftl_add b3) by lia. rewrite (lor_shiftl_add _ b1), (lor_shiftl_add _ b0) by lia.
  cbn. lia.
Qed.
Lemma STORE32_LE_of x : 0 ≤ x < 2 ^ 32 → STORE32_LE x = u32_of (le_bytes 4 x).
Proof.
  intros Hx. unfold STORE32_LE, u32_of. destruct big_endian.
  2: { rewrite le_val_bytes. symmetry. by apply Z.mod_small. }
  change 0x0000FF00 with (0xff .<< 8). change 0x00FF0000 with (0xff .<< 16).
  change 0xFF000000 with (0xff .<< 24). change 0x000000FF with 0xff.
  rewrite !land_byte_id, !land_255 by lia. rewrite Z.shiftl_shiftl, !Z.shiftr_shiftl_r by lia.
  change (8 + 8) with 16. change (8 - 16) with (- (8)). change (24 - 24) with 0.
  rewrite Z.shiftr_opp_r, Z.shiftr_0_r, !Z.shiftr_div_pow2 by lia.
  change (2 ^ 16) with (256 * 256). change (2 ^ 24) with (256 * 256 * 256). change (2 ^ 8) with 256.
  rewrite <- !Z.div_div by lia. cbn [le_bytes].
  apply lor_be; apply Z.mod_pos_bound; lia.
Qed.
Lemma u32_STORE32_LE x : 0 ≤ x < 2 ^ 32 → u32_bytes (u32 (STORE32_LE x)) = le_bytes 4 x.
Proof.
  intros Hx. assert (bytes_wf (le_bytes 4 x)) as Hb by apply le_bytes_wf.
  rewrite STORE32_LE_of, u32_small by (done || by apply u32_of_range). by apply u32_bytes_of.
Qed.
Lemma u32_of_inj a b : bytes_wf a → bytes_wf b → length a = 4%nat → length b = 4%nat → u32_of a = u32_of b → a = b.
Proof. intros. rewrite <- (u32_bytes_of a), <- (u32_bytes_of b) by done. congruence. Qed.
Lemma field_test w x :
  bytes_wf w → length w = 4%nat → 0 ≤ x < 2 ^ 32 →
  (u32_of w =? STORE32_LE x) = bool_decide (w = le_bytes 4 x).
Proof.
  intros Hw Hl Hx. rewrite STORE32_LE_of by done. case_bool_decide as E.
  - rewrite E. apply Z.eqb_refl.
  - apply Z.eqb_neq. intros Heq. apply E, u32_of_inj; auto using length_le_bytes, le_bytes_wf.
Qed.

Lemma field32_range b pos :
  0 ≤ pos → pos + 4 ≤ Z.of_nat (length b) → field32 b pos = Ret (u32_of (range b pos 4)).
Proof. intros. unfold field32, mread. by rewrite decide_True by lia. Qed.
Lemma set_field32_splice b pos x :
  0 ≤ pos → pos + 4 ≤ Z.of_nat (length b) → 0 ≤ x < 2 ^ 32 →
  set_field32 b pos (STORE32_LE x) = Ret (splice b pos (le_bytes 4 x)).
Proof.
  intros. unfold set_field32. rewrite u32_STORE32_LE by done.
  rewrite mwrite_ret by (rewrite length_le_bytes; lia). unfold splice. do 4 f_equal.
  rewrite length_le_bytes. lia.
Qed.
End fields.

(** ** Reading the data *)

Section run.
Context {Ar : Arch} {K : Type} `{KernelLaws K}.
Context (o : object) (i : mtd_info) (Hwf : wf_device o i).
Implicit Types s : state K.

(** One round: the chunk up to the end of its block. *)
Lemma wp_trx_read_step fd id pos x m acc cap Q E s :
  at_device o i fd id pos s → 0 ≤ x → 0 < m → x + m ≤ size_of o →
  Z.of_nat (length acc) + m ≤ cap →
  (∀ c k, 0 < c ≤ m → view k = view (kern s) → (healthy (kern s) → healthy k) →
     Q (inl (x + c, m - c, acc ++ good_bytes o i x c)) (State k (gl s))) →
  (∀ k, view k = view (kern s) → ¬ healthy (kern s) → E 1 (State k (gl s))) →
  wp (trx_read_step fd cap (x, m, acc)) Q E s.
Proof.
  intros [Href Hes Hsz Hty] Hx Hm Hle Hcap HQ HE.
  pose proof (es_small o i Hwf) as Hesr. pose proof (wd_range _ _ Hwf) as Hrange. pose proof long_bits_32 as H32.
  pose proof (Z.mod_pos_bound x (mi_erasesize i) ltac:(lia)) as Hmod.
  unfold trx_read_step. rewrite (proj2 (Z.eqb_neq m 0)) by lia. apply wp_bind, wp_get. rewrite Hes.
  rewrite (block_mask_block o i Hwf) by lia. rewrite (low_mask o i Hwf) by lia.
  rewrite (size_t_small (mi_erasesize i - _)) by lia.
  set (c := if mi_erasesize i - x mod mi_erasesize i <? m then mi_erasesize i - x mod mi_erasesize i else m).
  assert (0 < c ≤ m ∧ x mod mi_erasesize i + c ≤ mi_erasesize i) as [Hc Hblock].
  { unfold c. destruct (Z.ltb_spec (mi_erasesize i - x mod mi_erasesize i) m); lia. }
  clearbody c. destruct (block_of_range o i Hwf x Hx) as [Hbr _].
  apply wp_bind. apply (wp_block_is_bad fd _ id pos o i); [done|done|lia| |].
  2: { intros k Hv Hk. apply HE; [done|]. intros Hh. specialize (Hk Hh). lia. }
  intros r k1 Hv1 Hbad Hh1. apply wp_bind.
  rewrite (size_t_small (x + c)), (size_t_small (m - c)) by lia.
  pose proof (good_bytes_chunk o i Hwf x c Hx ltac:(lia) Hblock ltac:(lia)) as Hchunk.
  destruct (Z.eqb_spec r 0) as [Hr|Hr].
  - rewrite Hr in Hbad. cbn in Hbad. destruct (bad_block o i (block_of i x)); [done|].
    rewrite (proj2 (Z.ltb_ge cap _)) by lia. apply wp_bind.
    rewrite off_t_small by lia. apply (wp_sys_pread fd c x id pos o); [by cbn; rewrite Hv1|lia|].
    cbn [kern gl]. rewrite Hv1. intros res k2 Hv2 Hlen Hbs Hh2.
    assert (∀ P : Prop, (healthy k1 → P) → healthy (kern s) → P) as Hlift by auto.
    destruct res as [bs|].
    + destruct (Z.eqb_spec (Z.of_nat (length bs)) c) as [Hlb|Hlb].
      * apply wp_ret, wp_ret. rewrite (Hbs bs eq_refl Hlb), <- Hchunk. apply HQ; [done|done|].
        intros Hh. by apply Hh2, Hh1.
      * apply wp_exit, HE; [done|]. intros Hh. destruct (Hh2 (Hh1 Hh)) as [_ Hok].
        specialize (Hok Hx). injection Hok as ->. rewrite length_range in Hlb by (unfold size_of in *; lia). lia.
    + apply wp_exit, HE; [done|]. intros Hh. destruct (Hh2 (Hh1 Hh)) as [_ Hok]. by specialize (Hok Hx).
  - rewrite (bool_decide_eq_false_2 _ Hr) in Hbad.
    destruct (bad_block o i (block_of i x)); [|done]. apply wp_ret, wp_ret.
    rewrite <- (app_nil_r acc), <- Hchunk. by apply HQ.
Qed.

Lemma wp_trx_read fd id pos start n Q E s :
  at_device o i fd id pos s → 0 ≤ start → 0 ≤ n → start + n ≤ size_of o →
  (∀ k, view k = view (kern s) → (healthy (kern s) → healthy k) →
     Q (good_bytes o i start n) (State k (gl s))) →
  (∀ k, view k = view (kern s) → ¬ healthy (kern s) → E 1 (State k (gl s))) →
  wp (loop (S (Z.to_nat n)) (trx_read_step fd n) (start, n, [])) Q E s.
Proof.
  intros Had Hs Hn Hle HQ HE.
  set (I := λ (x : Z * Z * list Z) (s' : state K), let '(y, m, acc) := x in
    gl s' = gl s ∧ view (kern s') = view (kern s) ∧ (healthy (kern s) → healthy (kern s')) ∧
    0 ≤ m ≤ n ∧ y + m = start + n ∧ acc = good_bytes o i start (n - m)).
  apply (wp_loop _ I (λ x, Z.to_nat x.1.2)); [|by repeat split; rewrite ?Z.sub_diag; auto; lia|cbn; lia].
  intros [[y m] acc] s' (Hgl & Hv & Hh & Hm & Hy & ->).
  destruct (decide (m = 0)) as [->|Hm0].
  { unfold trx_read_step. rewrite Z.sub_0_r, Z.eqb_refl. apply wp_ret. destruct s' as [k g].
    cbn [kern gl] in *. subst g. by apply HQ. }
  destruct Had as [Href Hes Hsz Hty].
  apply (wp_trx_read_step fd id pos); [split; congruence|lia|lia|lia| | |].
  - pose proof (good_bytes_length o i start (n - m) ltac:(lia)). lia.
  - intros c k Hc Hvk Hhk. split; [|cbn; lia]. unfold I. cbn [kern gl].
    split_and!; [done|congruence|auto|lia|lia|lia|].
    replace (n - (m - c)) with (n - m + c) by lia. rewrite good_bytes_app by lia.
    by replace (start + (n - m)) with y by lia.
  - intros k Hvk Hbad. rewrite Hgl. apply HE; [congruence|auto].
Qed.

(** ** The header *)

(** The bytes a header says it covers, and the state [mtd_fixtrx] wants. *)
Definition trx_count (data_size : Z) : Z :=
  if data_size =? 0 then mi_erasesize i - 12 else data_size + 16.
Definition trx_fields (d : list Z) : list Z :=
  le_bytes 4 (Z.of_nat (length d) + 12) ++ le_bytes 4 (crc_of d).
Definition trx_fixed (o : object) (offset n : Z) : Prop :=
  range (o_bytes o) (offset + 4) 8 = trx_fields (good_bytes o i (offset + 12) n).

#[export] Instance trx_fixed_dec o' offset n : Decision (trx_fixed o' offset n).
Proof. unfold trx_fixed. apply _. Defined.
Lemma length_trx_fields d : length (trx_fields d) = 8%nat.
Proof. unfold trx_fields. by rewrite length_app, !length_le_bytes. Qed.

Lemma crc_of_range d : bytes_wf d → 0 ≤ crc_of d < 2 ^ 32.
Proof. intros. by apply crc32_serial_range. Qed.

(** The block with the two fields replaced is the device with eight bytes
    replaced. *)
Lemma rewritten_block bo rel d :
  0 ≤ bo → 0 ≤ rel → rel + 12 ≤ mi_erasesize i → bo + mi_erasesize i ≤ size_of o →
  let first := range (o_bytes o) bo (mi_erasesize i) in
  let first' := splice (splice first (rel + 4) (le_bytes 4 (Z.of_nat (length d) + 12))) (rel + 8) (le_bytes 4 (crc_of d)) in
  length first' = Z.to_nat (mi_erasesize i) ∧
  splice (o_bytes o) bo first' = splice (o_bytes o) (bo + rel + 4) (trx_fields d).
Proof.
  intros Hbo Hrel Hle Hfit first first'. unfold size_of in Hfit.
  assert (length first = Z.to_nat (mi_erasesize i)) as Hlf by (apply length_range; lia).
  assert (first' = splice first (rel + 4) (trx_fields d)) as E.
  { unfold first', trx_fields. replace (rel + 8) with (rel + 4 + Z.of_nat (length (le_bytes 4 (Z.of_nat (length d) + 12))))
      by (rewrite length_le_bytes; lia).
    apply splice_splice; rewrite ?length_le_bytes; lia. }
  rewrite E. split.
  - rewrite length_splice; rewrite ?length_trx_fields; lia.
  - unfold first. rewrite splice_range; rewrite ?length_trx_fields; [f_equal; lia|lia..].
Qed.

(** ** The run *)

(** What a successful run leaves: a header that fits its data, and no byte
    changed but those of the two fields, none if they were right. *)
Definition trx_done (v : kview) (id offset n : Z) (v' : kview) : Prop :=
  ∃ b, v' = set_obj id (with_bytes b o) v ∧ same_outside (o_bytes o) b (offset + 4) 8 ∧
    trx_fixed (with_bytes b o) offset n ∧ (trx_fixed o offset n → b = o_bytes o).

Lemma trx_fields_done v id offset n :
  0 ≤ offset → offset + 12 + n ≤ size_of o → 0 ≤ n → ¬ trx_fixed o offset n →
  trx_done v id offset n (set_obj id (with_bytes
    (splice (o_bytes o) (offset + 4) (trx_fields (good_bytes o i (offset + 12) n))) o) v).
Proof.
  intros Hoff Hfit Hn Hnew. set (d := good_bytes o i (offset + 12) n). unfold size_of in Hfit.
  assert (same_outside (o_bytes o) (splice (o_bytes o) (offset + 4) (trx_fields d)) (offset + 4) 8) as Hs8.
  { replace 8 with (Z.of_nat (length (trx_fields d))) by (by rewrite length_trx_fields).
    apply splice_same_outside; rewrite ?length_trx_fields; lia. }
  eexists. split_and!; [done|done| |done].
  unfold trx_fixed. rewrite (good_bytes_ext o i (o_bytes o) _ (offset + 4) 8), with_bytes_id by (done || lia). fold d. cbn [o_bytes with_bytes].
  replace 8 with (Z.of_nat (length (trx_fields d))) by (by rewrite length_trx_fields).
  apply range_splice; rewrite ?length_trx_fields; lia.
Qed.

Lemma wp_trx_rewrite fd id v offset n s E :
  v_fd v !! fd = None → view (kern s) = set_fd fd (Some (id, 0)) v → at_device o i fd id 0 s →
  0 ≤ offset → 0 ≤ n → offset mod mi_erasesize i + 12 ≤ mi_erasesize i → offset + 12 + n ≤ size_of o →
  ¬ trx_fixed o offset n →
  (∀ s', left_in_block o i v id (block_of i offset) (view (kern s')) →
     (healthy (kern s) → block_of i offset ∈ o_bad o) → E 1 s') →
  wp (trx_rewrite fd (range (o_bytes o) (block_of i offset) (mi_erasesize i)) (block_of i offset)
        (offset - block_of i offset) (good_bytes o i (offset + 12) n))
     (λ r s', r = 0 ∧ trx_done v id offset n (view (kern s'))) E s.
Proof.
  intros Hfree Hv Had Hoff Hn Hhdr Hfit Hnew HE.
  pose proof (es_small o i Hwf) as Hesr. pose proof (wd_range _ _ Hwf) as Hrange.
  set (bo := block_of i offset) in *. set (d := good_bytes o i (offset + 12) n).
  assert (bytes_wf d) as Hd by (by apply good_bytes_wf).
  assert (Z.of_nat (length d) ≤ n) as Hdn by (by apply good_bytes_length).
  destruct (block_of_range o i Hwf offset Hoff) as [Hbo1 Hbo2]. fold bo in Hbo1, Hbo2.
  assert (bo + mi_erasesize i ≤ size_of o) as Hbofit by (apply block_fits; [done|lia]).
  assert (offset - bo + 12 ≤ mi_erasesize i) as Hrel by (unfold bo, block_of; lia).
  pose proof (crc_of_range d Hd) as Hcrc.
  assert (length (range (o_bytes o) bo (mi_erasesize i)) = Z.to_nat (mi_erasesize i)) as Hlf
    by (apply length_range; unfold size_of in *; lia).
  destruct (rewritten_block bo (offset - bo) d) as [Hlen Hsplice]; [lia..|].
  replace (bo + (offset - bo) + 4) with (offset + 4) in Hsplice by lia.
  unfold trx_rewrite. apply wp_bind, wp_get. rewrite (ad_es _ _ _ _ _ _ Had).
  change trx_len with 4. change trx_crc32 with 8. change trx_flag_version with 12.
  rewrite (size_t_small (_ + 12)) by lia.
  eapply wp_bind, wp_lift; [apply set_field32_splice; lia|].
  eapply wp_bind, wp_lift; [rewrite <- (app_nil_r d) at 1; apply crc32buf_ok; [done|lia]|].
  eapply wp_bind, wp_lift.
  { apply set_field32_splice; [lia| |done]. rewrite length_splice; rewrite ?length_le_bytes; lia. }
  eapply (wp_replace_block o i Hwf); [done|done|by eapply block_of_divide|lia|done|done| |by apply HE].
  intros k Hk _. apply wp_bind, wp_sys_close. cbn [kern gl]. intros k3 Hv3 _. apply wp_ret. split; [done|].
  cbn [kern]. rewrite Hv3, Hk, set_fd_undo, Hsplice by done. by apply trx_fields_done.
Qed.

(** The test of the code for a header that fits already. *)
Lemma trx_test offset n :
  0 ≤ offset → offset + 12 ≤ size_of o → Z.of_nat (length (good_bytes o i (offset + 12) n)) < 2 ^ 31 →
  let d := good_bytes o i (offset + 12) n in
  (u32_of (range (o_bytes o) (offset + 4) 4) =? STORE32_LE (Z.of_nat (length d) + 12)) &&
  (u32_of (range (o_bytes o) (offset + 8) 4) =? STORE32_LE (crc_of d)) = bool_decide (trx_fixed o offset n).
Proof.
  intros Hoff Hfit Hl d. unfold size_of in Hfit. fold d in Hl |- *.
  assert (∀ x, bytes_wf (range (o_bytes o) x 4)) as Hb
    by (intros; apply Forall_take, Forall_drop, (wd_bytes _ _ Hwf)).
  pose proof (crc_of_range d (good_bytes_wf _ _ Hwf _ _)).
  rewrite !field_test by (apply Hb || done || lia || (rewrite length_range by lia; done)).
  rewrite <- bool_decide_and. apply bool_decide_ext. unfold trx_fixed, trx_fields. fold d.
  assert (range (o_bytes o) (offset + 4) 8 = range (o_bytes o) (offset + 4) 4 ++ range (o_bytes o) (offset + 8) 4) as ->.
  { replace (offset + 8) with (offset + 4 + 4) by lia. apply (range_app _ (offset + 4) 4 4); lia. }
  split; [by intros [-> ->]|]. apply app_inj_1. rewrite length_range, length_le_bytes by lia. done.
Qed.

Lemma range_magic offset : 0 ≤ offset → offset + 4 ≤ size_of o →
  ntohl (u32_of (range (o_bytes o) offset 4)) = be_val (range (o_bytes o) offset 4).
Proof.
  intros. apply ntohl_of; [apply Forall_take, Forall_drop, (wd_bytes _ _ Hwf)|].
  rewrite length_range by (unfold size_of in *; lia). done.
Qed.

(** Why a run gives up under a kernel that does not fail. *)
Definition trx_refused (magic offset n : Z) : Prop :=
  size_of o < offset + 12 + n ∨ be_val (range (o_bytes o) offset 4) ≠ magic ∨ block_of i offset ∈ o_bad o.

Lemma wp_trx_fix_at fd id v offset n s :
  v_obj v !! id = Some o → v_fd v !! fd = None → view (kern s) = set_fd fd (Some (id, 0)) v →
  at_device o i fd id 0 s → 0 ≤ offset → 0 ≤ n →
  offset mod mi_erasesize i + 12 ≤ mi_erasesize i → offset + 12 + n ≤ size_of o →
  wp (trx_fix_at fd (block_of i offset) (offset - block_of i offset) (offset + 12) n)
    (λ r s', r = 0 ∧ trx_done v id offset n (view (kern s')))
    (λ c s', c = 1 ∧ left_in_block o i v id (block_of i offset) (view (kern s')) ∧
       (healthy (kern s) → trx_refused (opt_trxmagic (gl s)) offset n)) s.
Proof.
  intros Hobj Hfree Hv Had Hoff Hn Hhdr Hfit.
  pose proof (es_small o i Hwf) as Hesr. pose proof (wd_range _ _ Hwf) as Hrange.
  set (bo := block_of i offset) in *.
  destruct (block_of_range o i Hwf offset Hoff) as [Hbo1 Hbo2]. fold bo in Hbo1, Hbo2.
  assert (bo + mi_erasesize i ≤ size_of o) as Hbofit by (apply block_fits; [done|lia]).
  assert (offset - bo + 12 ≤ mi_erasesize i) as Hrel by (unfold bo, block_of; lia).
  pose proof (good_bytes_length o i (offset + 12) n Hn) as Hdn.
  set (E := λ (c : Z) s', c = 1 ∧ left_in_block o i v id bo (view (kern s')) ∧ (healthy (kern s) → trx_refused (opt_trxmagic (gl s)) offset n)).
  assert (∀ k g, view k = set_fd fd (Some (id, 0)) v → (healthy (kern s) → trx_refused (opt_trxmagic (gl s)) offset n) →
    E 1 (State k g)) as Hquit.
  { intros k g Hvk ?. split_and!; [done|apply left_same; [done|cbn [kern]; by rewrite Hvk]|done]. }
  unfold trx_fix_at. apply wp_bind, wp_get. rewrite (ad_es _ _ _ _ _ _ Had), (size_t_small (mi_erasesize i)) by lia.
  rewrite off_t_small by lia. apply wp_bind, wp_sys_malloc. cbn [kern gl]. rewrite Hv. intros mem k2 Hv2 _ Hh2.
  destruct mem as [mem|]; [|apply wp_exit, Hquit; [done|intros Hh; by destruct (Hh2 Hh) as [_ []]]].
  assert (refers (set_fd fd (Some (id, 0)) v) fd id 0 o) as Href by (by apply refers_set_fd).
  apply wp_bind, (wp_sys_pread fd (mi_erasesize i) bo id 0 o); [by cbn [kern]; rewrite Hv2|lia|].
  cbn [kern gl]. rewrite Hv2. intros res k3 Hv3 _ Hres Hh3.
  assert (healthy (kern s) → res = Some (range (o_bytes o) bo (mi_erasesize i)) ∧ healthy k3) as Hh3'.
  { intros Hh. destruct (Hh2 Hh) as [Hk2 _]. destruct (Hh3 Hk2) as [? Hr]. split; [apply Hr; lia|done]. }
  assert (length (range (o_bytes o) bo (mi_erasesize i)) = Z.to_nat (mi_erasesize i)) as Hlf
    by (apply length_range; unfold size_of in *; lia).
  destruct res as [first|]; [|apply wp_exit, Hquit; [done|intros [? _]%Hh3'; done]].
  destruct (Z.eqb_spec (Z.of_nat (length first)) (mi_erasesize i)) as [Hlen|Hlen]; cbn [negb].
  2: { apply wp_exit, Hquit; [done|]. intros [[= ->] _]%Hh3'. lia. }
  rewrite (Hres first eq_refl Hlen) in *. clear Hres Hlen first.
  change TRX_CRC32_DATA_OFFSET with 12. change trx_len with 4. change trx_crc32 with 8. change trx_magic with 0.
  rewrite !field32_range by lia. rewrite !range_range by (unfold size_of in *; lia).
  replace (bo + (offset - bo + 0)) with offset by lia. replace (bo + (offset - bo + 4)) with (offset + 4) by lia.
  replace (bo + (offset - bo + 8)) with (offset + 8) by lia.
  eapply wp_bind, wp_lift; [done|]. rewrite range_magic by lia.
  destruct (Z.eqb_spec (be_val (range (o_bytes o) offset 4)) (opt_trxmagic (gl s))) as [Hmag|Hmag]; cbn [negb].
  2: { apply wp_exit, Hquit; [done|]. intros _. right. by left. }
  apply wp_bind, wp_sys_malloc. cbn [kern gl]. rewrite Hv3. intros mem2 k4 Hv4 _ Hh4.
  destruct mem2 as [mem2|]; [|apply wp_exit, Hquit; [done|]].
  2: { intros [_ Hk3]%Hh3'. by destruct (Hh4 Hk3) as [_ []]. }
  assert (at_device o i fd id 0 (State k4 (gl s))) as Had4
    by (split; cbn [kern gl]; [by rewrite Hv4|apply Had..]).
  apply wp_bind, (wp_trx_read fd id 0); [done|lia|lia|lia| |]; cbn [kern gl]; rewrite Hv4.
  2: { intros k Hvk Hbad. apply Hquit; [done|]. intros [_ Hk3]%Hh3'. destruct Hbad. by apply Hh4. }
  intros k5 Hv5 Hh5. eapply wp_bind, wp_lift; [done|]. eapply wp_bind, wp_lift; [done|].
  assert (bytes_wf (good_bytes o i (offset + 12) n)) as Hd by (by apply good_bytes_wf).
  eapply wp_bind, wp_lift.
  { rewrite <- (app_nil_r (good_bytes o i (offset + 12) n)) at 1. apply crc32buf_ok; [done|lia]. }
  rewrite (size_t_small (_ + 12)) by lia. rewrite (trx_test offset n) by lia.
  case_bool_decide as Hfixed.
  - apply wp_bind, wp_sys_close. cbn [kern gl]. rewrite Hv5. intros k6 Hv6 _. apply wp_ret. split; [done|].
    exists (o_bytes o). rewrite with_bytes_id. cbn [kern]. rewrite Hv6, set_fd_undo, set_obj_id by done.
    split_and!; done.
  - eapply wp_trx_rewrite; [done|done|split; cbn [kern gl]; [by rewrite Hv5|apply Had..]|done..|].
    intros s' Hleft Hbad. split_and!; [done|done|]. intros [_ Hk3]%Hh3'. right. right. apply Hbad.
    cbn [kern]. apply Hh5. by apply Hh4.
Qed.

(** C30: [mtd_fixtrx] on a device with good and bad blocks, under a kernel that
    may fail at any call, for an offset whose header fields lie in one block (12
    bytes or more are left in the block of [offset]; with fewer it runs off the
    buffer of the block) and with [offset], 12 and the length summing up to less
    than 4 GiB: it never runs off a buffer, always ends, and when it
    returns the header at [offset] has the length and the CRC-32 of the bytes
    that the good blocks hold after it, no other byte of the device has
    changed, and nothing at all if the header was right (so that a second run
    writes nothing); when it gives up it leaves status 1 and has changed at
    most the block of the header, and unless the kernel failed the device is
    too small, has no TRX magic there, or has a bad block there. *)
Theorem fixtrx_correct name id offset data_size s :
  let v := view (kern s) in
  let n := trx_count data_size in
  names v name id o i →
  0 ≤ offset → 0 ≤ data_size → offset + 12 + n < 2 ^ 32 →
  offset mod mi_erasesize i + 12 ≤ mi_erasesize i →
  wp (mtd_fixtrx name offset data_size)
    (λ r s', r = 0 ∧ trx_done v id offset n (view (kern s')))
    (λ c s', c = 1 ∧ left_in_block o i v id (block_of i offset) (view (kern s')) ∧
       (healthy (kern s) → trx_refused (opt_trxmagic (gl s)) offset n)) s.
Proof.
  intros v n Hn Hoff Hds Hnw Hhdr. pose proof (es_small o i Hwf) as Hesr. pose proof (wd_range _ _ Hwf) as Hrange.
  pose proof (nm_obj _ _ _ _ _ Hn) as Hobj. pose proof (wd_es_le _ _ Hwf) as Hesle.
  pose proof (Z.mod_pos_bound offset (mi_erasesize i) ltac:(lia)) as Hmod.
  assert (0 ≤ n) as Hn0 by (unfold n, trx_count; case_match; lia).
  unfold mtd_fixtrx. apply wp_bind. apply (wp_check_open name id o i); [done|..].
  { intros k Hv Hk. rewrite (proj2 (Z.ltb_lt (-1) 0)) by done. apply wp_exit.
    split_and!; [done|apply left_same; [done|cbn [kern]; by rewrite Hv]|done]. }
  intros fd k1 Hfd Hfree Hv1 Hh1. rewrite (proj2 (Z.ltb_ge fd 0)) by done.
  apply wp_bind, wp_get. cbn [gl set_info erasesize mtdsize].
  rewrite !s32_small by (rewrite ?(wd_size _ _ Hwf); lia). rewrite (wd_size _ _ Hwf).
  change TRX_CRC32_DATA_OFFSET with 12. change TRX_CRC32_DATA_SIZE with 16.
  rewrite (block_mask_block o i Hwf) by (pose proof long_bits_32; lia).
  destruct (block_of_range o i Hwf offset Hoff) as [Hbo1 Hbo2].
  rewrite (size_t_small (offset + 12)), (size_t_small (offset - _)), (size_t_small (size_of o)) by lia.
  replace (if data_size =? 0 then _ else _) with n.
  2: { revert Hnw. unfold n, trx_count. destruct (data_size =? 0); intros; symmetry; apply size_t_small; lia. }
  rewrite (size_t_small (offset + 12 + n)) by lia.
  destruct (Z.ltb_spec (size_of o) (offset + 12 + n)) as [Hbig|Hfit].
  { apply wp_exit. split_and!; [done|apply left_same; [done|cbn [kern]; by rewrite Hv1]|by left]. }
  eapply wp_mono; [apply (wp_trx_fix_at fd id v); try done|done|].
  - split; cbn [kern gl set_info erasesize mtdsize mtdtype]; [|done..].
    rewrite Hv1. by apply refers_set_fd.
  - intros c s' (-> & Hleft & Hwhy). split_and!; [done|done|]. intros Hh. by apply Hwhy, Hh1.
Qed.

End run.

(** ** A device *)

Module DemoTrx.
(** Three blocks of 32 bytes of NAND flash, the second one bad. *)
Definition info : mtd_info := MtdInfo MTD_NANDFLASH 96 32 1.
Definition dev : object :=
  Object (cs "HDR0" ++ replicate 24 0 ++ (Z.of_nat <$> seq 0 68)) (Some info) [32].
Definition start : state sim := State (one_device dev) initial_globals.

Lemma trx_dev_wf : wf_device dev info.
Proof.
  split; [done|done|by exists 5|done|by exists 3| | | |by intros []].
  - apply (bool_decide_unpack _). by vm_compute.
  - intros x [->|[]%not_elem_of_nil]%elem_of_cons. by exists 1.
  - intros x [->|[]%not_elem_of_nil]%elem_of_cons. by vm_compute.
Qed.

(** The run: the length is that of the header and the 24 bytes of the good
    blocks. *)
Definition after (o : out sim Z) : option (list Z) :=
  match o with Done _ s => o_bytes <$> v_obj (view (kern s)) !! 7 | _ => None end.
Example trx_run_fixed :
  take 12 <$> after (mtd_fixtrx (Ar := mipsel) (cs "firmware") 0 40 start) =
    Some (cs "HDR0" ++ [36; 0; 0; 0] ++ le_bytes 4 (crc_of (good_bytes dev info 12 56))).
Proof. by vm_compute. Qed.
End DemoTrx.

Lemma fixtrx_correct_witness :
  wp (mtd_fixtrx (Ar := mipsel) (cs "firmware") 0 40)
    (λ r s', r = 0 ∧ trx_done DemoTrx.dev DemoTrx.info (view (kern DemoTrx.start)) 7 0
       (trx_count DemoTrx.info 40) (view (kern s')))
    (λ c s', c = 1 ∧ left_in_block DemoTrx.dev DemoTrx.info (view (kern DemoTrx.start)) 7
         (block_of DemoTrx.info 0) (view (kern s')) ∧
       (healthy (kern DemoTrx.start) → trx_refused DemoTrx.dev DemoTrx.info (opt_trxmagic (gl DemoTrx.start)) 0
         (trx_count DemoTrx.info 40))) DemoTrx.start.
Proof.
  apply (fixtrx_correct (Ar := mipsel) DemoTrx.dev DemoTrx.info DemoTrx.trx_dev_wf (cs "firmware") 7 0 40 DemoTrx.start);
    [by apply one_device_names|lia..| |]; by vm_compute.
Defined.

End MtdTrxProps.
