(* ===== verification/MtdFix.v ===== *)
(** * SEAMA, WRG and WRGG headers (package/system/mtd/src/seama.c, wrg.c,
    wrgg.c)

    The three files are the same program over three header layouts: they bring
    the size and the MD5 digest of a header up to date with the data that
    follow it on flash.  [format] says which; what differs between the files is
    a definition by cases. *)

From S2P Require Import Prelude CLib Mtd MtdMd5 MtdTrx.
Import Mtd.
Open Scope Z_scope.
Open Scope cint_scope.

Module MtdFix.

Inductive format := Seama | Wrg | Wrgg.

(** ** Layouts *)

(** [struct seama_entity_header], [struct wrg_header], [struct wrgg03_header] *)
Definition hdr_sizeof (F : format) : Z := match F with Seama => 28 | Wrg => 96 | Wrgg => 160 end.
Definition hdr_magic_pos (F : format) : Z := match F with Seama => 0 | Wrg => 32 | Wrgg => 32 end.
Definition hdr_size_pos (F : format) : Z := match F with Seama => 8 | Wrg => 40 | Wrgg => 104 end.
Definition hdr_md5_pos (F : format) : Z := match F with Seama => 12 | Wrg => 80 | Wrgg => 144 end.
(** What is hashed before the data: the fields [offset] and [devname]. *)
Definition hdr_hashed (F : format) : list (Z * Z) :=
  match F with Seama => [] | Wrg => [(44, 4); (48, 32)] | Wrgg => [(108, 4); (112, 32)] end.

Section fix_header.
Context {Ar : Arch} {K : Type} `{Kernel K}.
(** What the stack holds where the [MD5_CTX] lies: its buffer and digest. *)
Context (junk dig : list Z).

Definition field (block : list Z) (pos n : Z) : result (list Z) := mread block (Z.to_nat pos) (Z.to_nat n).

(** [shdr->magic != htonl(SEAMA_MAGIC)] and so on *)
Definition hdr_magic_ok (F : format) (block : list Z) (pos : Z) : result bool :=
  w ← field block (pos + hdr_magic_pos F) 4;
  Ret match F with
      | Seama => u32_of w =? htonl SEAMA_MAGIC
      | Wrg => le_val w =? WRG_MAGIC        (* [le32_to_cpu] of the word *)
      | Wrgg => le_val w =? WRGG03_MAGIC    (* [le32_to_cpu] of its bytes *)
      end.
(** [ntohl(shdr->size)], [le32_to_cpu(shdr->size)], [shdr->size] *)
Definition hdr_size (F : format) (block : list Z) (pos : Z) : result Z :=
  w ← field block (pos + hdr_size_pos F) 4;
  Ret match F with Seama => ntohl (u32_of w) | Wrg => le_val w | Wrgg => u32_of w end.
(** [htonl(data_size)], [cpu_to_le32(data_size)], [data_size], as the bytes of
    the field *)
Definition size_bytes (F : format) (data_size : Z) : list Z :=
  match F with
  | Seama => u32_bytes (htonl (u32 data_size))
  | Wrg => le_bytes 4 (u32 data_size)
  | Wrgg => u32_bytes (u32 data_size)
  end.
(** [ntohs(shdr->metasize)] *)
Definition hdr_meta (F : format) (block : list Z) (pos : Z) : result Z :=
  match F with
  | Seama => w ← field block (pos + 6) 2; Ret (be_val w)
  | _ => Ret 0
  end.

Fixpoint hash_fields (block : list Z) (pos : Z) (l : list (Z * Z)) (ctx : MtdMd5.MD5_CTX)
    : result MtdMd5.MD5_CTX :=
  match l with
  | [] => Ret ctx
  | (p, n) :: l =>
      w ← field block (pos + p) n;
      ctx ← MtdMd5.MD5_Update ctx w n;
      hash_fields block pos l ctx
  end.

Definition ENOMEM : Z := 12.
Definition EIO : Z := 5.

(** [seama_fix_md5], [wrg_fix_md5], [wrgg_fix_md5]: the result, and the block
    with the header. *)
Definition fix_md5 (F : format) (block : list Z) (pos fd data_offset data_size : Z) : M K (Z * list Z) :=
  mem ← sys (k_malloc data_size);
  if mem is None then mret (- ENOMEM, block)
  else
    res ← sys (k_pread fd data_size (off_t data_offset));
    match res with
    | None => mret (- EIO, block)
    | Some data =>
        if negb (Z.of_nat (length data) =? data_size) then mret (- EIO, block)
        else
          ctx ← lift (hash_fields block pos (hdr_hashed F) (MtdMd5.MD5_Init junk dig));
          ctx ← lift (MtdMd5.MD5_Update ctx data (u32 data_size));
          r ← lift (MtdMd5.MD5_Final ctx);
          let digest := r.1 in
          old ← lift (field block (pos + hdr_md5_pos F) 16);
          if bool_decide (digest = old) then mret (-1, block)
          else
            block ← lift (mwrite block (Z.to_nat (pos + hdr_size_pos F)) (size_bytes F data_size));
            block ← lift (mwrite block (Z.to_nat (pos + hdr_md5_pos F)) digest);
            mret (0, block)
    end.

Definition seama_fix_md5 := fix_md5 Seama.
Definition wrg_fix_md5 := fix_md5 Wrg.
Definition wrgg_fix_md5 := fix_md5 Wrgg.

(** The end of [mtd_fixseama], [mtd_fixwrg] and [mtd_fixwrgg]. *)
Definition rewrite_block (fd block_offset : Z) (block : list Z) : M K Z :=
  g ← get;
  r ← mtd_erase_block fd block_offset;
  if r =? 0 then
    res ← sys (k_pwrite fd block (off_t block_offset));
    if res =? erasesize g then
      _ ← sys_ (k_close fd);
      mret 0
    else exit_ 1
  else exit_ 1.

(** From the allocation of [first_block] on. *)
Definition fix_at (F : format) (fd block_offset offset data_size : Z) : M K Z :=
  g ← get;
  mem ← sys (k_malloc (size_t (erasesize g)));
  if mem is None then exit_ 1
  else
    res ← sys (k_pread fd (size_t (erasesize g)) (off_t block_offset));
    match res with
    | None => exit_ 1
    | Some first_block =>
        if negb (Z.of_nat (length first_block) =? erasesize g) then exit_ 1
        else
          ok ← lift (hdr_magic_ok F first_block offset);
          if negb ok then exit_ 1
          else
            size ← lift (hdr_size F first_block offset);
            if size =? 0 then exit_ 1
            else
              meta ← lift (hdr_meta F first_block offset);
              let data_offset := size_t (offset + hdr_sizeof F + meta) in
              let data_size := if data_size =? 0 then size_t (mtdsize g - data_offset) else data_size in
              let data_size := if size <? data_size then size else data_size in
              r ← fix_md5 F first_block offset fd data_offset data_size;
              if r.1 =? 0 then rewrite_block fd block_offset r.2
              else
                _ ← sys_ (k_close fd);
                mret 0
    end.

(** The block offset is taken before the device is opened, with the block size
    of the device that was opened last (0 at first). *)
Definition mtd_fix (F : format) (mtd : list Z) (offset data_size : Z) : M K Z :=
  g ← get;
  let block_offset := offset .& block_mask (erasesize g) in
  let offset := size_t (offset - block_offset) in
  fd ← mtd_check_open mtd;
  if fd <? 0 then exit_ 1
  else
    g ← get;
    if size_t (mtdsize g) <? size_t (block_offset + erasesize g) then exit_ 1
    else fix_at F fd block_offset offset data_size.

Definition mtd_fixseama : list Z → Z → Z → M K Z := mtd_fix Seama.
Definition mtd_fixwrg : list Z → Z → Z → M K Z := mtd_fix Wrg.
Definition mtd_fixwrgg : list Z → Z → Z → M K Z := mtd_fix Wrgg.

End fix_header.
End MtdFix.
