(* ===== verification/MtdFixProps.v ===== *)
(** * SEAMA, WRG and WRGG headers: what the fix-ups leave on the flash *)

From S2P Require Import Prelude CLib HashSpec Mtd MtdMd5 MtdKernel MtdSim MtdDev MtdFix.
Import HashSpec Mtd MtdKernel MtdSim MtdDev MtdFix.
Open Scope Z_scope.
Open Scope cint_scope.

Module MtdFixProps.

(** ** Headers on a device *)

Section spec.
Context {Ar : Arch}.
Implicit Types b : list Z.

(** The fields of a header at the start of the content [b]. *)
Definition magic_of (F : format) b : Prop :=
  match F with
  | Seama => be_val (range b 0 4) = SEAMA_MAGIC
  | Wrg => le_val (range b 32 4) = WRG_MAGIC
  | Wrgg => le_val (range b 32 4) = WRGG03_MAGIC
  end.
Definition size_field (F : format) b : Z :=
  match F with
  | Seama => be_val (range b 8 4)
  | Wrg => le_val (range b 40 4)
  | Wrgg => u32_of (range b 104 4)
  end.
Definition data_at (F : format) b : Z :=
  hdr_sizeof F + match F with Seama => be_val (range b 6 2) | _ => 0 end.

(** The number of bytes that are hashed: all the device has, or those asked
    for, but no more than the header says. *)
Definition data_len (F : format) (total : Z) b (data_size : Z) : Z :=
  let n := if data_size =? 0 then size_t (total - data_at F b) else data_size in
  Z.min (size_field F b) n.
Definition hashed (F : format) (total : Z) b (data_size : Z) : list Z :=
  mjoin ((λ p, range b p.1 p.2) <$> hdr_hashed F) ++ range b (data_at F b) (data_len F total b data_size).

(** The digest of the header is that of the data. *)
Definition md5_fixed (F : format) (total : Z) b (data_size : Z) : Prop :=
  range b (hdr_md5_pos F) 16 = Rfc1321.digest (hashed F total b data_size).
(** The content with the size and the digest of the header brought up to date. *)
Definition md5_update (F : format) (total : Z) b (data_size : Z) : list Z :=
  splice (splice b (hdr_size_pos F) (size_bytes F (data_len F total b data_size)))
    (hdr_md5_pos F) (Rfc1321.digest (hashed F total b data_size)).

Lemma length_digest m : length (Rfc1321.digest m) = 16%nat.
Proof.
  unfold Rfc1321.digest. destruct (absorb_all _ _ _) as [[[? ?] ?] ?]. by rewrite !length_app, !length_le_bytes.
Qed.
Lemma length_size_bytes F n : length (size_bytes F n) = 4%nat.
Proof. destruct F; cbn [size_bytes]; auto using length_u32_bytes, length_le_bytes. Qed.
Lemma range_wf b x n : bytes_wf b → bytes_wf (range b x n).
Proof. intros. by apply Forall_take, Forall_drop. Qed.

(** A change of a header leaves the ranges it does not meet. *)
Lemma range_two b x bs y cs p n :
  0 ≤ x → 0 ≤ y → x + Z.of_nat (length bs) ≤ Z.of_nat (length b) → y + Z.of_nat (length cs) ≤ Z.of_nat (length b) →
  0 ≤ p → 0 ≤ n → (p + n ≤ x ∨ x + Z.of_nat (length bs) ≤ p) → (p + n ≤ y ∨ y + Z.of_nat (length cs) ≤ p) →
  range (splice (splice b x bs) y cs) p n = range b p n.
Proof.
  intros. assert (length (splice b x bs) = length b) as Hl by (apply length_splice; lia).
  rewrite (range_ext (splice b x bs) _ y (Z.of_nat (length cs))); [|apply splice_same_outside; lia|lia..].
  rewrite (range_ext b _ x (Z.of_nat (length bs))); [done|apply splice_same_outside; lia|lia..].
Qed.

Lemma size_field_range F b : bytes_wf b → hdr_sizeof F ≤ Z.of_nat (length b) → 0 ≤ size_field F b < 2 ^ 32.
Proof.
  intros Hb Hl. destruct F; cbn [size_field hdr_sizeof] in *.
  - pose proof (be_val_bound (range b 8 4) (range_wf _ _ _ Hb)) as Hr. by rewrite length_range in Hr by lia.
  - pose proof (le_val_bound (range b 40 4) (range_wf _ _ _ Hb)) as Hr. by rewrite length_range in Hr by lia.
  - apply u32_of_range; [by apply range_wf|]. by rewrite length_range by lia.
Qed.
Lemma data_at_range F b : bytes_wf b → hdr_sizeof F ≤ Z.of_nat (length b) →
  hdr_sizeof F ≤ data_at F b < 2 ^ 17.
Proof.
  intros Hb Hl. unfold data_at. destruct F; cbn [hdr_sizeof] in *; [|lia..].
  pose proof (be_val_bound (range b 6 2) (range_wf _ _ _ Hb)) as Hr. rewrite length_range in Hr by lia.
  change (256 ^ Z.of_nat (Z.to_nat 2)) with (2 ^ 16) in Hr. lia.
Qed.

(** The layouts: the fields lie inside the header and apart. *)
Lemma layout F : 0 ≤ hdr_size_pos F ∧ hdr_size_pos F + 4 ≤ hdr_md5_pos F ∧
  hdr_md5_pos F + 16 = hdr_sizeof F.
Proof. by destruct F. Qed.

Lemma hashed_layout F :
  Forall (λ p, 0 ≤ p.1 ∧ 0 ≤ p.2 < 2 ^ 32 ∧ hdr_size_pos F + 4 ≤ p.1 ∧ p.1 + p.2 ≤ hdr_md5_pos F) (hdr_hashed F).
Proof. destruct F; repeat constructor; cbn; lia. Qed.

Section update.
Context (F : format) (total : Z) (b : list Z) (ds : Z).
Hypothesis Hwf : bytes_wf b.
Hypothesis Hlen : hdr_sizeof F ≤ Z.of_nat (length b).
Hypothesis Hds : 0 ≤ ds.
Let n := data_len F total b ds.
Let b' := md5_update F total b ds.

Lemma data_len_range : 0 ≤ n ≤ size_field F b.
Proof.
  unfold n, data_len. pose proof (size_field_range F b Hwf Hlen).
  assert (0 ≤ size_t (total - data_at F b)).
  { unfold size_t. apply Z.mod_pos_bound. destruct long_bits_ok as [-> | ->]; lia. }
  destruct (ds =? 0); lia.
Qed.
Lemma length_update : length b' = length b.
Proof.
  unfold b', md5_update. pose proof (layout F). assert (∀ m, length (splice b (hdr_size_pos F) (size_bytes F m)) = length b) as E
    by (intros; apply length_splice; rewrite ?length_size_bytes; lia).
  rewrite length_splice; rewrite ?E, ?length_digest; [done|lia..].
Qed.

(** Ranges outside the two fields. *)
Lemma range_update p k :
  0 ≤ p → 0 ≤ k → p + k ≤ hdr_size_pos F ∨ (hdr_size_pos F + 4 ≤ p ∧ p + k ≤ hdr_md5_pos F) ∨ hdr_sizeof F ≤ p →
  range b' p k = range b p k.
Proof.
  intros Hp Hk Hd. pose proof (layout F). apply range_two; rewrite ?length_size_bytes, ?length_digest; lia.
Qed.
Lemma range_size : range b' (hdr_size_pos F) 4 = size_bytes F n.
Proof.
  pose proof (layout F). pose proof (length_size_bytes F n) as H4.
  unfold b', md5_update. fold n. set (b1 := splice b _ _).
  assert (length b1 = length b) as Hl by (apply length_splice; rewrite ?H4; lia).
  rewrite (range_ext b1 _ (hdr_md5_pos F) (Z.of_nat 16)); [|rewrite <- (length_digest (hashed F total b ds));
    apply splice_same_outside; rewrite ?length_digest; lia|lia..].
  unfold b1. replace 4 with (Z.of_nat (length (size_bytes F n))) by (by rewrite H4).
  apply range_splice; rewrite ?H4; lia.
Qed.
Lemma range_md5 : range b' (hdr_md5_pos F) 16 = Rfc1321.digest (hashed F total b ds).
Proof.
  pose proof (layout F). unfold b', md5_update.
  replace 16 with (Z.of_nat (length (Rfc1321.digest (hashed F total b ds)))) by (by rewrite length_digest).
  apply range_splice; [lia|]. rewrite length_digest, length_splice; rewrite ?length_size_bytes; lia.
Qed.

Lemma size_field_bytes b1 : range b1 (hdr_size_pos F) 4 = size_bytes F n → size_field F b1 = n.
Proof.
  pose proof data_len_range. pose proof (size_field_range F b Hwf Hlen).
  destruct F; cbn [hdr_size_pos size_field size_bytes]; intros ->; rewrite (u32_small n) by lia.
  - rewrite u32_bytes_htonl, be_val_bytes. apply Z.mod_small. lia.
  - rewrite le_val_bytes. apply Z.mod_small. lia.
  - rewrite u32_of_bytes. by apply u32_small; lia.
Qed.

Lemma data_at_update : data_at F b' = data_at F b.
Proof.
  assert (F = Seama → range b' 6 2 = range b 6 2) as Hr
    by (intros E; apply range_update; rewrite ?E; cbn; lia).
  revert Hr. generalize b'. intros c. unfold data_at. case F; [|done..]. intros ->; done.
Qed.
Lemma data_len_update : data_len F total b' ds = n.
Proof.
  unfold data_len at 1. rewrite (size_field_bytes b' range_size), data_at_update.
  unfold n at 1. unfold data_len. fold n. pose proof data_len_range. unfold n, data_len in *. lia.
Qed.
Lemma hashed_update : hashed F total b' ds = hashed F total b ds.
Proof.
  unfold hashed. rewrite data_len_update, data_at_update. fold n. f_equal.
  - f_equal. apply list_fmap_ext. intros j p Hp.
    destruct (Forall_lookup_1 _ _ _ _ (hashed_layout F) Hp) as (? & ? & ? & ?).
    apply range_update; lia.
  - pose proof (data_at_range F b Hwf Hlen). pose proof data_len_range.
    pose proof (layout F). apply range_update; lia.
Qed.
Lemma update_fixed : md5_fixed F total b' ds.
Proof. unfold md5_fixed. by rewrite hashed_update, range_md5. Qed.
End update.

(** ** The fields as the code reads them in the first block *)

Lemma field_block b es p n :
  0 ≤ p → 0 ≤ n → p + n ≤ es → es ≤ Z.of_nat (length b) → field (range b 0 es) (0 + p) n = Ret (range b p n).
Proof.
  intros. unfold field, mread. rewrite Z.add_0_l.
  rewrite decide_True by (rewrite length_range by lia; lia).
  fold (range (range b 0 es) p n). by rewrite range_range by lia.
Qed.

Lemma magic_seama w : bytes_wf w → length w = 4%nat →
  (u32_of w =? htonl SEAMA_MAGIC) = bool_decide (be_val w = SEAMA_MAGIC).
Proof.
  intros Hw Hl. assert (u32_of (be_bytes 4 SEAMA_MAGIC) = htonl SEAMA_MAGIC) as E
    by (unfold u32_of, htonl; by destruct big_endian).
  case_bool_decide as Hm.
  - apply Z.eqb_eq. rewrite <- E. f_equal. rewrite <- Hm, <- Hl. symmetry. by apply be_bytes_val.
  - apply Z.eqb_neq. intros Hu. apply Hm. rewrite <- (ntohl_of w Hw Hl), Hu, <- E.
    rewrite ntohl_of by (auto using length_be_bytes, be_bytes_wf). by rewrite be_val_bytes.
Qed.

Lemma header_read F b es :
  bytes_wf b → hdr_sizeof F ≤ es → es ≤ Z.of_nat (length b) →
  (∃ ok, hdr_magic_ok F (range b 0 es) 0 = Ret ok ∧ (ok = true ↔ magic_of F b)) ∧
  hdr_size F (range b 0 es) 0 = Ret (size_field F b) ∧
  (∃ meta, hdr_meta F (range b 0 es) 0 = Ret meta ∧ hdr_sizeof F + meta = data_at F b) ∧
  field (range b 0 es) (0 + hdr_md5_pos F) 16 = Ret (range b (hdr_md5_pos F) 16).
Proof.
  intros Hb Hs He. unfold hdr_magic_ok, hdr_size, hdr_meta, data_at, magic_of, size_field.
  destruct F; cbn [hdr_magic_pos hdr_size_pos hdr_md5_pos hdr_sizeof] in *;
    rewrite !field_block by lia; cbn [mbind result_bind].
  - assert (length (range b 0 4) = 4%nat) as H0 by (rewrite length_range by lia; done).
    assert (length (range b 8 4) = 4%nat) as H8 by (rewrite length_range by lia; done).
    split_and!; [|by rewrite ntohl_of by (auto using range_wf)|by eexists|done].
    eexists. split; [done|]. rewrite magic_seama by (auto using range_wf). apply bool_decide_eq_true.
  - split_and!; [|done|by eexists|done]. eexists. split; [done|]. apply Z.eqb_eq.
  - split_and!; [|done|by eexists|done]. eexists. split; [done|]. apply Z.eqb_eq.
Qed.

(** The two fields replaced in the block. *)
Lemma splice_absorb b off w w' :
  0 ≤ off → length w = length w' → off + Z.of_nat (length w) ≤ Z.of_nat (length b) →
  splice (splice b off w) off w' = splice b off w'.
Proof.
  intros Ho Hl Hb. destruct (cut_range b off (Z.of_nat (length w))) as (p & q & E & Hp & Hn); [lia..|].
  revert E Hn. generalize (range b off (Z.of_nat (length w))). intros c -> Hn.
  rewrite !(splice_at p) by lia. done.
Qed.
Lemma update_block F total b ds es :
  bytes_wf b → hdr_sizeof F ≤ es → es ≤ Z.of_nat (length b) →
  let n := data_len F total b ds in let dg := Rfc1321.digest (hashed F total b ds) in
  ∃ b1, mwrite (range b 0 es) (Z.to_nat (0 + hdr_size_pos F)) (size_bytes F n) = Ret b1 ∧
  ∃ b2, mwrite b1 (Z.to_nat (0 + hdr_md5_pos F)) dg = Ret b2 ∧
    length b2 = Z.to_nat es ∧ splice b 0 b2 = md5_update F total b ds.
Proof.
  intros Hb Hs He n dg. pose proof (layout F) as (HL1 & HL2 & HL3).
  pose proof (length_size_bytes F n) as H4. pose proof (length_digest (hashed F total b ds)) as H16. fold dg in H16.
  assert (length (range b 0 es) = Z.to_nat es) as Hlr by (apply length_range; lia).
  assert (∀ m p bs, 0 ≤ p → p + Z.of_nat (length bs) ≤ Z.of_nat (length m) →
    mwrite m (Z.to_nat (0 + p)) bs = Ret (splice m p bs)) as Hw.
  { intros m p bs Hp Hm. rewrite mwrite_ret by lia. unfold splice. rewrite Z.add_0_l. do 4 f_equal. lia. }
  assert (length (splice (range b 0 es) (hdr_size_pos F) (size_bytes F n)) = Z.to_nat es) as Hl1
    by (rewrite length_splice; lia).
  eexists. split; [apply Hw; lia|]. eexists. split; [apply Hw; lia|]. split; [rewrite length_splice; lia|].
  unfold md5_update. fold n dg. set (c1 := splice b (hdr_size_pos F) (size_bytes F n)).
  assert (splice b 0 (splice (range b 0 es) (hdr_size_pos F) (size_bytes F n)) = c1) as E1
    by (rewrite splice_range by lia; done).
  assert (range c1 0 es = splice (range b 0 es) (hdr_size_pos F) (size_bytes F n)) as Er.
  { pose proof (range_splice b 0 (splice (range b 0 es) (hdr_size_pos F) (size_bytes F n))) as Hr.
    rewrite Hl1, Z2Nat.id, E1 in Hr by lia. apply Hr; lia. }
  rewrite <- Er. assert (length c1 = length b) as Hlc by (apply length_splice; lia).
  assert (length (splice (range c1 0 es) (hdr_md5_pos F) dg) = Z.to_nat es) as Hl2
    by (rewrite length_splice; rewrite ?Er; lia).
  transitivity (splice (splice b 0 (splice (range b 0 es) (hdr_size_pos F) (size_bytes F n))) 0
    (splice (range c1 0 es) (hdr_md5_pos F) dg)).
  - symmetry. apply splice_absorb; lia.
  - rewrite E1, splice_range by lia. done.
Qed.

End spec.
(** ** The runs *)

Section run.
Context {Ar : Arch} {K : Type} `{KernelLaws K}.
Context (o : object) (i : mtd_info) (Hwf : wf_device o i).
Context (junk dig : list Z) (Hjunk : length junk = 64%nat) (Hdig : length dig = 16%nat).
Context (F : format) (Hes : hdr_sizeof F ≤ mi_erasesize i).
Implicit Types s : state K.

Let b := o_bytes o.
Let es := mi_erasesize i.

(** What a finished run leaves: the header was right already; or it has been
    brought up to date; or the data could not be read. *)
Definition fix_done (v : kview) (id ds : Z) (h : Prop) (v' : kview) : Prop :=
  ∃ b', v' = set_obj id (with_bytes b' o) v ∧
    (md5_fixed F (size_of o) b ds ∧ b' = b ∨
     ¬ md5_fixed F (size_of o) b ds ∧ b' = md5_update F (size_of o) b ds ∧ md5_fixed F (size_of o) b' ds ∨
     b' = b ∧ (h → size_of o < data_at F b + data_len F (size_of o) b ds)).

Lemma hash_fields_after l m ctx :
  bytes_wf m → MtdMd5.md5_after m ctx →
  Forall (λ p, 0 ≤ p.1 ∧ 0 ≤ p.2 < 2 ^ 32 ∧ p.1 + p.2 ≤ es) l →
  ∃ ctx', hash_fields (range b 0 es) 0 l ctx = Ret ctx' ∧
    MtdMd5.md5_after (m ++ mjoin ((λ p, range b p.1 p.2) <$> l)) ctx'.
Proof.
  intros Hm Ha Hl. pose proof (wd_es_le _ _ Hwf). revert m ctx Hm Ha.
  induction Hl as [|[p n] l (Hp & Hn & Hpn) Hl IH]; intros m ctx Hm Ha.
  { exists ctx. cbn. by rewrite app_nil_r. }
  cbn [fst snd] in *. cbn [hash_fields]. rewrite field_block by (unfold es, b in *; unfold size_of in *; lia).
  cbn [mbind result_bind].
  assert (Z.of_nat (length (range b p n)) = n) as Hlen
    by (rewrite length_range by (unfold es, b in *; unfold size_of in *; lia); lia).
  assert (bytes_wf (range b p n)) as Hw by (apply range_wf, (wd_bytes _ _ Hwf)).
  destruct (MtdMd5.MD5_Update_after m (range b p n) [] ctx) as (ctx1 & E & Ha1); [done|done|lia|done|].
  rewrite app_nil_r, Hlen in E. rewrite E. cbn [mbind result_bind fmap list_fmap mjoin list_join].
  rewrite app_assoc. apply IH; [|done]. by apply Forall_app.
Qed.

(** The digest, from the block and the data read. *)
Lemma digest_run ds data :
  data = range b (data_at F b) (data_len F (size_of o) b ds) →
  Z.of_nat (length data) = data_len F (size_of o) b ds → data_len F (size_of o) b ds < 2 ^ 32 →
  ∃ ctx1 ctx2 ctx3, hash_fields (range b 0 es) 0 (hdr_hashed F) (MtdMd5.MD5_Init junk dig) = Ret ctx1 ∧
    MtdMd5.MD5_Update ctx1 data (u32 (data_len F (size_of o) b ds)) = Ret ctx2 ∧
    MtdMd5.MD5_Final ctx2 = Ret (Rfc1321.digest (hashed F (size_of o) b ds), ctx3).
Proof.
  intros Hd Hl H32. pose proof (layout F) as (?&?&?).
  destruct (hash_fields_after (hdr_hashed F) [] (MtdMd5.MD5_Init junk dig)) as (ctx1 & E1 & Ha1);
    [by apply Forall_nil|by apply MtdMd5.MD5_Init_after| |].
  { eapply Forall_impl; [apply hashed_layout|]. intros p (? & ? & ? & ?). unfold es. lia. }
  assert (bytes_wf (mjoin ((λ p, range b p.1 p.2) <$> hdr_hashed F))) as Hw1.
  { apply Forall_join, Forall_fmap, Forall_forall. intros p _. apply range_wf, (wd_bytes _ _ Hwf). }
  assert (bytes_wf data) as Hw2 by (rewrite Hd; apply range_wf, (wd_bytes _ _ Hwf)).
  destruct (MtdMd5.MD5_Update_after _ data [] ctx1 Hw1 Hw2 ltac:(lia) Ha1) as (ctx2 & E2 & Ha2).
  rewrite app_nil_r, Hl in E2. rewrite Hd in Ha2.
  destruct (MtdMd5.MD5_Final_digest _ ctx2 (Forall_app_2 _ _ _ Hw1 Hw2)) as (ctx3 & E3 & _); [by rewrite Hd|].
  exists ctx1, ctx2, ctx3. rewrite Hd in E3. split_and!; [done| |done].
  rewrite u32_small by lia. done.
Qed.

Lemma header_on_device :
  hdr_sizeof F ≤ Z.of_nat (length b) ∧ bytes_wf b ∧ 0 < es < 2 ^ 31 ∧ es ≤ Z.of_nat (length b) ∧
  Z.of_nat (length b) < 2 ^ 31.
Proof.
  pose proof (wd_es_le _ _ Hwf) as Hle. pose proof (wd_range _ _ Hwf) as Hr.
  pose proof (es_small o i Hwf). pose proof (wd_bytes _ _ Hwf).
  unfold size_of in *. fold b in Hle, Hr. fold es in Hle. unfold es, b in *. split_and!; (done || lia).
Qed.

Lemma wp_fix_md5 fd id pos ds Q E s :
  at_device o i fd id pos s → 0 ≤ ds →
  let n := data_len F (size_of o) b ds in
  (∀ k r, r ≠ 0 → view k = view (kern s) →
     md5_fixed F (size_of o) b ds ∨ (healthy (kern s) → size_of o < data_at F b + n) →
     Q (r, range b 0 es) (State k (gl s))) →
  (∀ k b2, view k = view (kern s) → (healthy (kern s) → healthy k) → ¬ md5_fixed F (size_of o) b ds →
     length b2 = Z.to_nat es → splice b 0 b2 = md5_update F (size_of o) b ds →
     Q (0, b2) (State k (gl s))) →
  wp (fix_md5 junk dig F (range b 0 es) 0 fd (data_at F b) n) Q E s.
Proof.
  intros Had Hds n Hbad Hok. destruct header_on_device as (Hs & Hb & Hesr & Hesl & H31).
  pose proof (data_len_range F (size_of o) b ds Hb Hs Hds) as Hn. fold n in Hn.
  pose proof (size_field_range F b Hb Hs). pose proof (data_at_range F b Hb Hs) as Hat.
  pose proof (layout F) as (?&?&?).
  unfold fix_md5. apply wp_bind, wp_sys_malloc. cbn [kern gl]. intros mem k1 Hv1 _ Hh1.
  destruct mem as [mem|]; [|apply wp_ret, Hbad; [done|done|right; intros Hh; by destruct (Hh1 Hh) as [_ []]]].
  rewrite off_t_small by lia. apply wp_bind, (wp_sys_pread fd n _ id pos o);
    [cbn [kern]; rewrite Hv1; apply Had|lia|].
  cbn [kern gl]. rewrite Hv1. intros res k2 Hv2 _ Hres Hh2.
  assert (healthy (kern s) → healthy k2 ∧ res = Some (range b (data_at F b) n)) as Hh2'.
  { intros Hh. destruct (Hh1 Hh) as [Hk1 _]. destruct (Hh2 Hk1) as [? Hr]. split; [done|]. apply Hr. lia. }
  destruct res as [data|].
  2: { apply wp_ret, Hbad; [done|done|]. right. by intros [_ ?]%Hh2'. }
  destruct (Z.eqb_spec (Z.of_nat (length data)) n) as [Hl|Hl]; cbn [negb].
  2: { apply wp_ret, Hbad; [done|done|]. right. intros [_ [= ->]]%Hh2'.
       destruct (decide (data_at F b + n ≤ size_of o)) as [Hle|]; [|lia].
       destruct Hl. rewrite length_range by (unfold size_of in Hle; unfold b in *; lia). lia. }
  pose proof (Hres data eq_refl Hl) as Hdata. fold b in Hdata.
  destruct (digest_run ds data Hdata Hl ltac:(lia)) as (c1 & c2 & c3 & E1 & E2 & E3). fold n in E2.
  eapply wp_bind, wp_lift; [exact E1|]. eapply wp_bind, wp_lift; [exact E2|].
  eapply wp_bind, wp_lift; [exact E3|]. cbn [fst].
  eapply wp_bind, wp_lift; [by apply header_read|].
  case_bool_decide as Hd.
  - apply wp_ret, Hbad; [done|done|]. left. by unfold md5_fixed.
  - destruct (update_block F (size_of o) b ds es Hb Hes Hesl) as (b1 & W1 & b2 & W2 & Hlen & Hsp).
    eapply wp_bind, wp_lift; [exact W1|]. eapply wp_bind, wp_lift; [exact W2|].
    apply wp_ret, Hok; [done|by intros [? ?]%Hh2'| |done|done]. unfold md5_fixed. congruence.
Qed.

(** Why a run gives up under a kernel that does not fail. *)
Definition fix_refused : Prop := ¬ magic_of F b ∨ size_field F b = 0 ∨ 0 ∈ o_bad o.

Lemma wp_fix_at fd id v ds s :
  v_obj v !! id = Some o → v_fd v !! fd = None → view (kern s) = set_fd fd (Some (id, 0)) v →
  at_device o i fd id 0 s → 0 ≤ ds →
  wp (fix_at junk dig F fd 0 0 ds)
    (λ r s', r = 0 ∧ fix_done v id ds (healthy (kern s)) (view (kern s')))
    (λ c s', c = 1 ∧ left_in_block o i v id 0 (view (kern s')) ∧ (healthy (kern s) → fix_refused)) s.
Proof.
  intros Hobj Hfree Hv Had Hds. destruct header_on_device as (Hs & Hb & Hesr & Hesl & H31).
  pose proof (data_at_range F b Hb Hs) as Hat. pose proof (layout F) as (?&?&?).
  set (E := λ (c : Z) s', c = 1 ∧ left_in_block o i v id 0 (view (kern s')) ∧ (healthy (kern s) → fix_refused)).
  assert (∀ k g, view k = set_fd fd (Some (id, 0)) v → (healthy (kern s) → fix_refused) → E 1 (State k g)) as Hquit.
  { intros k g Hvk ?. split_and!; [done|apply left_same; [done|cbn [kern]; by rewrite Hvk]|done]. }
  unfold fix_at. apply wp_bind, wp_get. rewrite (ad_es _ _ _ _ _ _ Had), (ad_size _ _ _ _ _ _ Had). fold es.
  rewrite (size_t_small es) by lia. apply wp_bind, wp_sys_malloc. cbn [kern gl]. rewrite Hv. intros mem k1 Hv1 _ Hh1.
  destruct mem as [mem|]; [|apply wp_exit, Hquit; [done|intros Hh; by destruct (Hh1 Hh) as [_ []]]].
  assert (refers (set_fd fd (Some (id, 0)) v) fd id 0 o) as Href by (by apply refers_set_fd).
  rewrite off_t_small by lia. apply wp_bind, (wp_sys_pread fd es 0 id 0 o); [by cbn [kern]; rewrite Hv1|lia|].
  cbn [kern gl]. rewrite Hv1. intros res k2 Hv2 _ Hres Hh2.
  assert (healthy (kern s) → healthy k2 ∧ res = Some (range b 0 es)) as Hh2'.
  { intros Hh. destruct (Hh1 Hh) as [Hk1 _]. destruct (Hh2 Hk1) as [? Hr]. split; [done|]. apply Hr. lia. }
  destruct res as [first|]; [|apply wp_exit, Hquit; [done|by intros [_ ?]%Hh2']].
  destruct (Z.eqb_spec (Z.of_nat (length first)) es) as [Hlen|Hlen]; cbn [negb].
  2: { apply wp_exit, Hquit; [done|]. intros [_ [= ->]]%Hh2'. rewrite length_range in Hlen by lia. lia. }
  rewrite (Hres first eq_refl Hlen). fold b.
  destruct (header_read F b es Hb Hes Hesl) as ((ok & Eok & Hmag) & Esz & (meta & Emeta & Hmeta) & _).
  eapply wp_bind, wp_lift; [exact Eok|]. destruct ok; cbn [negb].
  2: { apply wp_exit, Hquit; [done|]. intros _. left. by intros ?%Hmag. }
  eapply wp_bind, wp_lift; [exact Esz|]. destruct (Z.eqb_spec (size_field F b) 0) as [Hz|Hz].
  { apply wp_exit, Hquit; [done|]. intros _. right. by left. }
  eapply wp_bind, wp_lift; [exact Emeta|]. rewrite Z.add_0_l, Hmeta, (size_t_small (data_at F b)) by lia.
  replace (if _ <? _ then size_field F b else _) with (data_len F (size_of o) b ds).
  2: { unfold data_len. destruct (Z.ltb_spec (size_field F b) (if ds =? 0 then size_t (size_of o - data_at F b) else ds)); lia. }
  assert (at_device o i fd id 0 (State k2 (gl s))) as Had2
    by (split; cbn [kern gl]; [by rewrite Hv2|apply Had..]).
  apply wp_bind, (wp_fix_md5 fd id 0 ds); [done|done|..]; cbn [kern gl]; rewrite Hv2; cbn [fst snd].
  - intros k3 r Hr Hv3 Hwhy. rewrite (proj2 (Z.eqb_neq r 0)) by done.
    apply wp_bind, wp_sys_close. cbn [kern gl]. rewrite Hv3. intros k4 Hv4 _. apply wp_ret. split; [done|].
    exists b. cbn [kern]. rewrite Hv4, set_fd_undo by done. unfold b at 1. rewrite with_bytes_id, set_obj_id by done.
    split; [done|]. destruct Hwhy as [?|Hwhy]; [by left|]. right. right. split; [done|].
    intros Hh. apply Hwhy. by apply Hh2'.
  - intros k3 b2 Hv3 Hh3 Hnf Hlen2 Hsp. unfold rewrite_block. apply wp_bind, wp_get. cbn [gl].
    rewrite (ad_es _ _ _ _ _ _ Had). apply (wp_replace_block o i Hwf fd id v 0 b2); cbn [kern gl].
    + done.
    + split; cbn [kern gl]; [by rewrite Hv3|apply Had..].
    + apply Z.divide_0_r.
    + done.
    + fold es. unfold size_of. fold b. lia.
    + done.
    + intros k4 Hv4 _. apply wp_bind, wp_sys_close. cbn [kern gl]. intros k5 Hv5 _. apply wp_ret. split; [done|].
      exists (md5_update F (size_of o) b ds). cbn [kern]. rewrite Hv5, Hv4. fold b. rewrite Hsp, set_fd_undo by done.
      split; [done|]. right. left. split_and!; [done|done|by apply update_fixed].
    + intros s' Hleft Hbad. split_and!; [done|done|]. intros Hh. right. right. apply Hbad, Hh3. by apply Hh2'.
Qed.

(** C31: [mtd_fixseama], [mtd_fixwrg] and [mtd_fixwrgg] as [main] calls them, on
    a device whose first block holds the header and under a kernel that may
    fail at any call: they never run off a buffer, always end, and when they
    return the digest of the header was that of the data already and nothing
    has changed, or its size and digest have been brought up to date, by these
    two fields alone, after which the first case holds, or the data could not
    be read, and nothing has changed; when they give up they leave status 1
    and have changed at most the first block, and unless the kernel failed the
    magic number is wrong, the size is 0 or the block is bad. *)
Theorem fix_correct name id ds s :
  let v := view (kern s) in
  names v name id o i → 0 ≤ ds →
  wp (mtd_fix junk dig F name 0 ds)
    (λ r s', r = 0 ∧ fix_done v id ds (healthy (kern s)) (view (kern s')))
    (λ c s', c = 1 ∧ left_in_block o i v id 0 (view (kern s')) ∧ (healthy (kern s) → fix_refused)) s.
Proof.
  intros v Hn Hds. destruct header_on_device as (Hs & Hb & Hesr & Hesl & H31).
  pose proof (nm_obj _ _ _ _ _ Hn) as Hobj. pose proof (wd_range _ _ Hwf) as Hrange.
  unfold mtd_fix. apply wp_bind, wp_get. rewrite Z.land_0_l. change (size_t (0 - 0)) with 0.
  apply wp_bind. apply (wp_check_open name id o i); [done|..].
  { intros k Hv Hk. rewrite (proj2 (Z.ltb_lt (-1) 0)) by done. apply wp_exit.
    split_and!; [done|apply left_same; [done|cbn [kern]; by rewrite Hv]|done]. }
  intros fd k1 Hfd Hfree Hv1 Hh1. rewrite (proj2 (Z.ltb_ge fd 0)) by done.
  apply wp_bind, wp_get. cbn [gl set_info erasesize mtdsize]. rewrite Z.add_0_l.
  rewrite !s32_small by (rewrite ?(wd_size _ _ Hwf); fold es; lia). rewrite (wd_size _ _ Hwf).
  fold es. rewrite (size_t_small es), (size_t_small (size_of o)) by lia.
  rewrite (proj2 (Z.ltb_ge (size_of o) es)) by (unfold size_of; fold b; lia).
  eapply wp_mono; [apply (wp_fix_at fd id v); try done|cbn [kern]|].
  - split; cbn [kern gl set_info erasesize mtdsize mtdtype]; [|done..]. rewrite Hv1. by apply refers_set_fd.
  - intros r s' (-> & b' & Hv' & Hwhy). split; [done|]. exists b'. split; [done|]. naive_solver.
  - intros c s' (-> & Hleft & Hwhy). split_and!; [done|done|]. intros Hh. by apply Hwhy, Hh1.
Qed.

End run.

(** ** A device *)

Module DemoSeama.
(** Three blocks of 32 bytes of NOR flash with a SEAMA header for 40 bytes. *)
Definition info : mtd_info := MtdInfo 3 96 32 1.
Definition dev : object :=
  Object (be_bytes 4 SEAMA_MAGIC ++ [0; 0; 0; 0] ++ be_bytes 4 40 ++ replicate 16 0 ++ (Z.of_nat <$> seq 0 68))
    (Some info) [].
Definition start : state sim := State (one_device dev) initial_globals.

Lemma seama_dev_wf : wf_device dev info.
Proof.
  split; [done|done|by exists 5|done|by exists 3| |by intros x []%not_elem_of_nil..|done].
  apply (bool_decide_unpack _). by vm_compute.
Qed.

(** The size stays 40, or becomes what the user asked for. *)
Definition header_after (o : out sim Z) : option (list Z) :=
  match o with Done _ s => take 28 ∘ o_bytes <$> v_obj (view (kern s)) !! 7 | _ => None end.
Example seama_run_fixed :
  header_after (mtd_fixseama (Ar := mipsel) (replicate 64 0) (replicate 16 0) (cs "firmware") 0 24 start) =
    Some (be_bytes 4 SEAMA_MAGIC ++ [0; 0; 0; 0] ++ be_bytes 4 24 ++ Rfc1321.digest (Z.of_nat <$> seq 0 24)).
Proof. by vm_compute. Qed.
End DemoSeama.

Lemma fix_correct_witness :
  wp (mtd_fix (Ar := mipsel) (replicate 64 0) (replicate 16 0) Seama (cs "firmware") 0 24)
    (λ r s', r = 0 ∧ fix_done (Ar := mipsel) DemoSeama.dev Seama (view (kern DemoSeama.start)) 7 24
       (healthy (kern DemoSeama.start)) (view (kern s')))
    (λ c s', c = 1 ∧ left_in_block DemoSeama.dev DemoSeama.info (view (kern DemoSeama.start)) 7 0 (view (kern s')) ∧
       (healthy (kern DemoSeama.start) → fix_refused (Ar := mipsel) DemoSeama.dev Seama)) DemoSeama.start.
Proof.
  apply (fix_correct (Ar := mipsel) DemoSeama.dev DemoSeama.info DemoSeama.seama_dev_wf (replicate 64 0)
    (replicate 16 0) eq_refl eq_refl Seama ltac:(cbn; lia) (cs "firmware") 7 24 DemoSeama.start);
    [by apply one_device_names|lia].
Defined.

End MtdFixProps.
