(* ===== verification/MtdJffs2.v ===== *)
(** * jffs2 data (package/system/mtd/src/jffs2.c, jffs2.h)

    The nodes of a directory entry and of a file's contents are put one after
    the other into a buffer of one erase block, which goes to the device when
    it is full; [mtd_parse_jffs2data] walks over the nodes of a block.  The
    variables of the file are [jffs2_vars]; its [buf] is [jbuf] here. *)

From S2P Require Import Prelude CLib Mtd MtdCrc MtdTrx.
Import Mtd MtdCrc.
Open Scope Z_scope.
Open Scope cint_scope.

Module MtdJffs2.

(** ** Constants *)

Definition JFFS2_EOF : list Z := [0xde; 0xad; 0xc0; 0xde].
Definition JFFS2_MAGIC_BITMASK : Z := 0x1985.
Definition JFFS2_NODETYPE_DIRENT : Z := 0xe001.
Definition JFFS2_NODETYPE_INODE : Z := 0xe002.
Definition S_IFDIR : Z := 0x4000.
Definition S_IFREG : Z := 0x8000.
Definition IFTODT (mode : Z) : Z := (mode .& 0xf000) .>> 12.

(** [sizeof] of [struct jffs2_raw_dirent], [struct jffs2_raw_inode] *)
Definition sizeof_dirent : Z := 40.
Definition sizeof_inode : Z := 68.

Definition PAD (x : Z) : Z := u32 (x + 3) .& 0xfffffffc.

(** ** Variables *)

Definition set_jbuf (b : option (list Z)) (j : jffs2_vars) : jffs2_vars :=
  Jffs2 (last_ino j) (last_version j) b (ofs j) (outfd j) (mtdofs j) (target_ino j).
Definition set_ofs (o : Z) (j : jffs2_vars) : jffs2_vars :=
  Jffs2 (last_ino j) (last_version j) (jbuf j) o (outfd j) (mtdofs j) (target_ino j).
Definition set_mtdofs (o : Z) (j : jffs2_vars) : jffs2_vars :=
  Jffs2 (last_ino j) (last_version j) (jbuf j) (ofs j) (outfd j) o (target_ino j).
Definition set_outfd (fd : Z) (j : jffs2_vars) : jffs2_vars :=
  Jffs2 (last_ino j) (last_version j) (jbuf j) (ofs j) fd (mtdofs j) (target_ino j).
Definition set_last_ino (n : Z) (j : jffs2_vars) : jffs2_vars :=
  Jffs2 n (last_version j) (jbuf j) (ofs j) (outfd j) (mtdofs j) (target_ino j).
Definition set_last_version (n : Z) (j : jffs2_vars) : jffs2_vars :=
  Jffs2 (last_ino j) n (jbuf j) (ofs j) (outfd j) (mtdofs j) (target_ino j).
Definition set_target_ino (n : Z) (j : jffs2_vars) : jffs2_vars :=
  Jffs2 (last_ino j) (last_version j) (jbuf j) (ofs j) (outfd j) (mtdofs j) n.

Section jffs2.
Context {Ar : Arch} {T : Target} {K : Type} `{Kernel K}.

(** The nodes are in the byte order of the CPU. *)
Definition u16_bytes (z : Z) : list Z := if big_endian then be_bytes 2 z else le_bytes 2 z.
Definition CLEANMARKER : list Z :=
  if big_endian then [0x19; 0x85; 0x20; 0x03; 0; 0; 0; 0x0c; 0xf0; 0x60; 0xdc; 0x98]
  else [0x85; 0x19; 0x03; 0x20; 0x0c; 0; 0; 0; 0xb1; 0xb0; 0x1e; 0xe4].

Definition getj : M K jffs2_vars := g ← get; mret (jffs2 g).
Definition modj (f : jffs2_vars → jffs2_vars) : M K unit := g ← get; put (set_jffs2 (f (jffs2 g)) g).

(** [memcpy(buf + pos, bs, length bs)] *)
Definition poke (pos : Z) (bs : list Z) : M K unit :=
  j ← getj;
  match jbuf j with
  | None => lift (Fault NullDeref)
  | Some m =>
      m ← lift (if pos <? 0 then Fault OutOfBounds else mwrite m (Z.to_nat pos) bs);
      modj (set_jbuf (Some m))
  end.

(** [a % b] of integers of type [int] *)
Definition rem (a b : Z) : result Z := if b =? 0 then Fault DivZero else Ret (Z.rem a b).

(** ** The block being filled *)

(** One round of the loop over bad blocks of [pad]. *)
Definition skip_bad_step (_ : unit) : M K (unit + unit) :=
  j ← getj;
  bad ← mtd_block_is_bad (outfd j) (mtdofs j);
  g ← get;
  if negb (bad =? 0) && (mtdofs j <? mtdsize g) then
    _ ← modj (set_mtdofs (s32 (mtdofs j + erasesize g)));
    _ ← sys_ (k_seek_cur (outfd j) (erasesize g));
    mret (inl tt)
  else mret (inr tt).

(** The block goes to the device; the results of the calls are not used. *)
Definition flush_block : M K unit :=
  g ← get;
  _ ← loop (S (Z.to_nat (mtdsize g))) skip_bad_step tt;
  j ← getj;
  _ ← mtd_erase_block (outfd j) (mtdofs j);
  match jbuf j with
  | None => lift (Fault NullDeref)
  | Some m =>
      b ← lift (mread m 0 (Z.to_nat (erasesize g)));
      _ ← sys (k_write (outfd j) b);
      modj (set_mtdofs (s32 (mtdofs j + erasesize g)))
  end.

Definition pad (size : Z) : M K unit :=
  g ← get;
  let o := ofs (jffs2 g) in
  r ← lift (rem o size);
  if (r =? 0) && (o <? erasesize g) then mret tt
  else
    _ ← (if o <? erasesize g then
           _ ← poke o (replicate (Z.to_nat (size - r)) 255);
           modj (set_ofs (o + (size - r)))
         else mret tt);
    j ← getj;
    o ← lift (rem (ofs j) (erasesize g));
    _ ← modj (set_ofs o);
    if o =? 0 then flush_block else mret tt.

Definition rbytes : M K Z :=
  g ← get;
  r ← lift (rem (ofs (jffs2 g)) (erasesize g));
  mret (erasesize g - r).

(** [add_data] and [prep_eraseblock] call each other; the marker fits in an
    erase block, so that one call is the deepest. *)
Definition prep_with (add : list Z → M K unit) : M K unit :=
  j ← getj;
  if 0 <? ofs j then mret tt else add CLEANMARKER.
Fixpoint add_data_fuel (n : nat) (ptr : list Z) : M K unit :=
  match n with
  | O => lift (Fault OutOfFuel)
  | S n =>
      g ← get;
      let len := Z.of_nat (length ptr) in
      _ ← (if erasesize g <? ofs (jffs2 g) + len then
             _ ← pad (erasesize g);
             prep_with (add_data_fuel n)
           else mret tt);
      j ← getj;
      _ ← poke (ofs j) ptr;
      modj (set_ofs (ofs j + len))
  end.
Definition add_data (ptr : list Z) : M K unit := add_data_fuel 2 ptr.
Definition prep_eraseblock : M K unit := prep_with (add_data_fuel 1).

(** ** Nodes *)

Definition crc (val : Z) (b : list Z) : result Z := crc32 val b (Z.of_nat (length b)).

(** The first three words of a node, the third being the checksum of the first two. *)
Definition node_header (nodetype totlen : Z) : result (list Z) :=
  let h := u16_bytes JFFS2_MAGIC_BITMASK ++ u16_bytes nodetype ++ u32_bytes (u32 totlen) in
  c ← crc 0 h;
  Ret (h ++ u32_bytes c).

(** [struct jffs2_raw_dirent] *)
Definition raw_dirent (name : list Z) (ty pino version ino : Z) : result (list Z) :=
  let len := Z.of_nat (length name) in
  name_crc ← crc 0 name;
  h ← node_header JFFS2_NODETYPE_DIRENT (sizeof_dirent + len);
  let d := h ++ u32_bytes (u32 pino) ++ u32_bytes (u32 version) ++ u32_bytes (u32 ino) ++ u32_bytes 0 ++
           [u8 len; ty; 0; 0] in
  c ← crc 0 d;
  Ret (d ++ u32_bytes c ++ u32_bytes name_crc).

(** [struct jffs2_raw_inode]; [fields] are the words from [isize] to [dsize]. *)
Definition raw_inode (totlen ino version mode : Z) (fields : list Z) (data : list Z) : result (list Z) :=
  h ← node_header JFFS2_NODETYPE_INODE totlen;
  let d := h ++ u32_bytes (u32 ino) ++ u32_bytes (u32 version) ++ u32_bytes (u32 mode) ++
           u16_bytes 0 ++ u16_bytes 0 ++ mjoin ((λ x, u32_bytes (u32 x)) <$> fields) ++ [0; 0; 0; 0] in
  c ← crc 0 d;
  dc ← crc 0 data;
  Ret (d ++ u32_bytes dc ++ u32_bytes c).

Definition add_dirent (name : list Z) (ty parent : Z) : M K Z :=
  g ← get;
  let len := Z.of_nat (length name) in
  (* an [int] is compared with a [size_t] *)
  _ ← (if size_t (ofs (jffs2 g) - erasesize g) <? size_t (sizeof_dirent + len) then pad (erasesize g)
       else mret tt);
  _ ← prep_eraseblock;
  _ ← modj (λ j, set_last_ino (s32 (last_ino j + 1)) j);
  j ← getj;
  _ ← poke (ofs j) (replicate (Z.to_nat sizeof_dirent) 0);
  de ← lift (raw_dirent name ty parent (last_version j) (last_ino j));
  _ ← modj (λ j, set_last_version (s32 (last_version j + 1)) (set_last_ino (s32 (last_ino j + 1)) j));
  _ ← poke (ofs j) de;
  _ ← poke (ofs j + sizeof_dirent) name;
  _ ← modj (set_ofs (ofs j + (sizeof_dirent + u8 len)));      (* [de->nsize] is a byte *)
  _ ← pad 4;
  mret (last_ino j).

Definition add_dir (name : list Z) (parent : Z) : M K Z :=
  inode ← add_dirent name (IFTODT S_IFDIR) parent;
  g ← get;
  r ← rbytes;
  _ ← (if size_t r <? sizeof_inode then pad (erasesize g) else mret tt);
  _ ← prep_eraseblock;
  ri ← lift (raw_inode sizeof_inode inode 1 (S_IFDIR .| 0x1ed) [0; 0; 0; 0; 0; 0; 0] []);
  _ ← add_data ri;
  _ ← pad 4;
  mret inode.

(** [strrchr(name, '/') + 1], or the name itself. *)
Fixpoint base_name (fname name : list Z) : list Z :=
  match name with
  | [] => fname
  | c :: name => base_name (if c =? 47 then name else fname) name
  end.

(** The room for data in the block, in a block of its own if there is too little. *)
Definition room_step (_ : unit) : M K (unit + Z) :=
  g ← get;
  r ← rbytes;
  let len := s32 (size_t (r - sizeof_inode)) in
  if 128 <? len then mret (inr len)
  else
    _ ← pad (erasesize g);
    _ ← prep_eraseblock;
    mret (inl tt).

(** One round of the loop of [add_file]: the offset in the file. *)
Definition add_file_step (fd inode : Z) (st : file_stat) (f_offset : Z) : M K (Z + unit) :=
  len ← loop 2 room_step tt;
  let len := if 4096 <? len then 4096 else len in
  r ← sys (k_read fd len);
  match r with
  | inl _ | inr [] => mret (inr tt)
  | inr wbuf =>
      let len := Z.of_nat (length wbuf) in
      _ ← modj (λ j, set_last_version (s32 (last_version j + 1)) j);
      j ← getj;
      ri ← lift (raw_inode (sizeof_inode + len) inode (last_version j) (st_mode st)
                  [st_size st; st_atime st; st_mtime st; st_ctime st; f_offset; len; len] wbuf);
      _ ← add_data ri;
      _ ← add_data wbuf;
      _ ← pad 4;
      _ ← prep_eraseblock;
      mret (inl (s32 (f_offset + len)))
  end.

Definition add_file (fuel : nat) (name : list Z) (parent : Z) : M K unit :=
  st ← sys (k_stat name);
  match st with
  | None => mret tt
  | Some st =>
      inode ← add_dirent (base_name name name) (IFTODT S_IFREG) parent;
      fd ← sys (k_open_ro name);
      if fd <? 0 then mret tt
      else
        _ ← loop fuel (add_file_step fd inode st) 0;
        sys_ (k_close fd)
  end.

(** ** What the rest of the tool calls *)

Definition mtd_replace_jffs2 (fuel : nat) (mtd : list Z) (fd ofs : Z) (filename : list Z) : M K Z :=
  g ← get;
  _ ← modj (λ j, set_mtdofs ofs (set_outfd fd j));
  mem ← sys (k_malloc (size_t (erasesize g)));
  _ ← modj (λ j, set_target_ino 1 (set_jbuf mem j));
  _ ← modj (λ j, if last_ino j =? 0 then set_last_ino 1 j else j);
  _ ← add_file fuel filename 1;
  _ ← pad (erasesize g);
  _ ← add_data JFFS2_EOF;
  _ ← pad (erasesize g);
  _ ← modj (set_jbuf None);
  j ← getj;
  mret (s32 (mtdofs j - ofs)).

(** Fields of a node that lies at [pos] in a block. *)
Definition field16 (b : list Z) (pos : Z) : result Z :=
  w ← mread b (Z.to_nat pos) 2; Ret (if big_endian then be_val w else le_val w).
Definition field32 (b : list Z) (pos : Z) : result Z :=
  w ← mread b (Z.to_nat pos) 4; Ret (u32_of w).

(** [!strncmp(b + pos, s, n)] *)
Fixpoint same_text (b : list Z) (pos : nat) (s : list Z) (n : nat) : result bool :=
  match n with
  | O => Ret true
  | S n =>
      match b !! pos with
      | None => Fault OutOfBounds
      | Some c =>
          if negb (c =? hd 0 s) then Ret false
          else if c =? 0 then Ret true
          else same_text b (S pos) (tail s) n
      end
  end.

(** What a directory entry at [pos] tells. *)
Definition parse_dirent (b dir : list Z) (pos : Z) (j : jffs2_vars) : result jffs2_vars :=
  pino ← field32 b (pos + 12);
  version ← field32 b (pos + 16);
  ino ← field32 b (pos + 20);
  nsize ← mread b (Z.to_nat (pos + 28)) 1;
  same ← (if negb (bool_decide (dir = [])) && (pino =? 1)
          then same_text b (Z.to_nat (pos + 40)) dir (Z.to_nat (hd 0 nsize)) else Ret false);
  let j := if same : bool then set_target_ino (s32 ino) j else j in
  let j := if u32 (last_ino j) <? ino then set_last_ino (s32 ino) j else j in
  Ret (if u32 (last_version j) <? version then set_last_version (s32 version) j else j).

(** A run that ends is at an offset below [erasesize] at most once. *)
Fixpoint parse_nodes (fuel : nat) (es : Z) (b dir : list Z) (pos : Z) (j : jffs2_vars) : result jffs2_vars :=
  match fuel with
  | O => Fault OutOfFuel
  | S n =>
      if pos <? u32 es then
        magic ← field16 b pos;
        if negb (magic =? JFFS2_MAGIC_BITMASK) then Ret j
        else
          totlen ← field32 b (pos + 4);
          nodetype ← field16 b (pos + 2);
          j ← (if nodetype =? JFFS2_NODETYPE_DIRENT then parse_dirent b dir pos j else Ret j);
          parse_nodes n es b dir (u32 (pos + PAD totlen)) j
      else Ret j
  end.
Definition mtd_parse_jffs2data (b dir : list Z) : M K unit :=
  g ← get;
  j ← lift (parse_nodes (S (Z.to_nat (u32 (erasesize g)))) (erasesize g) b dir 0 (jffs2 g));
  modj (λ _, j).

(** One round of the search for the end of the file system: [inr true] when
    there is room after it, [inr false] when the function gives up. *)
Definition find_end_step (dir : list Z) (_ : unit) : M K (unit + bool) :=
  g ← get;
  r ← sys (k_read (outfd (jffs2 g)) (size_t (erasesize g)));
  match r with
  | inl _ => mret (inr false)
  | inr bs =>
      if negb (Z.of_nat (length bs) =? erasesize g) then mret (inr false)
      else
        _ ← poke 0 bs;
        _ ← modj (λ j, set_mtdofs (s32 (mtdofs j + erasesize g)) j);
        magic ← lift (field16 bs 0);
        if magic =? 0x8519 then mret (inr false)
        else if negb (magic =? JFFS2_MAGIC_BITMASK) then mret (inr true)
        else
          _ ← mtd_parse_jffs2data bs dir;
          mret (inl tt)
  end.

Definition mtd_write_jffs2 (fuel : nat) (mtd filename dir : list Z) : M K Z :=
  fd ← mtd_check_open mtd;
  _ ← modj (set_outfd fd);
  if fd <? 0 then mret (-1)
  else
    g ← get;
    mem ← sys (k_malloc (size_t (erasesize g)));
    _ ← modj (set_jbuf mem);
    err ← (if mem is None then mret (-1)
           else
             _ ← (if bool_decide (dir = []) then modj (set_target_ino 1) else mret tt);
             found ← loop fuel (find_end_step dir) tt;
             if negb found then mret (-1)
             else
               _ ← modj (λ j, set_mtdofs (s32 (mtdofs j - erasesize g)) j);
               j ← getj;
               _ ← sys_ (k_seek_set fd (mtdofs j));
               _ ← modj (set_ofs 0);
               _ ← modj (λ j, if last_ino j =? 0 then set_last_ino 1 j else j);
               j ← getj;
               _ ← (if target_ino j =? 0 then
                      ino ← add_dir dir 1;
                      modj (set_target_ino ino)
                    else mret tt);
               j ← getj;
               _ ← add_file fuel filename (target_ino j);
               _ ← pad (erasesize g);
               _ ← add_data JFFS2_EOF;
               _ ← pad (erasesize g);
               _ ← (if has_trx then _ ← MtdTrx.trx_fixup fd mtd; mret tt else mret tt);
               mret 0);
    _ ← sys_ (k_close fd);
    _ ← modj (set_jbuf None);
    mret err.

End jffs2.
End MtdJffs2.
