(* ===== verification/MtdTarget.v ===== *)
(** * Functions of single targets (package/system/mtd/src/tpl_ramips_recoveryflag.c,
    linksys_bootcount.c)

    The recovery flag of TP-Link boot loaders, which is set while an image is
    written, and the log in which Linksys boot loaders count attempts. *)

From S2P Require Import Prelude CLib Mtd.
Import Mtd.
Open Scope Z_scope.
Open Scope cint_scope.

Module MtdTarget.

Section target.
Context {Ar : Arch} {K : Type} `{Kernel K}.

(** ** The recovery flag *)

Definition TPL_RECOVER_MAGIC : Z := 0x89abcdef.
Definition TPL_NO_RECOVER_MAGIC : Z := 0x00000000.

(** [pread(fd, args, n, 0)], whose result is not used. *)
Definition read_over (fd : Z) (args : list Z) (n off : Z) : M K (list Z) :=
  r ← sys (k_pread fd n off);
  match r with
  | Some bs => lift (mwrite args 0 bs)
  | None => mret args
  end.

(** The buffer is as long as the blocks of the device that was opened before. *)
Definition mtd_tpl_recoverflag_write (mtd : list Z) (recovery_active : bool) : M K Z :=
  g ← get;
  mem ← sys (k_malloc (size_t (erasesize g)));
  match mem with
  | None => mret (-1)
  | Some args =>
      fd ← mtd_check_open mtd;
      ret ← (if fd <? 0 then mret (-1)
             else
               g ← get;
               args ← read_over fd args (size_t (erasesize g)) 0;
               let magic := if recovery_active then TPL_RECOVER_MAGIC else TPL_NO_RECOVER_MAGIC in
               old ← lift (mread args 0 4);
               if u32_of old =? magic then mret 0
               else
                 ret ← sys (k_erase fd 0 (u32 (erasesize g)));
                 if ret <? 0 then mret ret
                 else
                   args ← lift (mwrite args 0 (u32_bytes magic));
                   bs ← lift (mread args 0 (Z.to_nat (erasesize g)));
                   sys (k_pwrite fd bs 0));
      _ ← sys_ (k_close fd);
      mret ret
  end.

(** ** The boot count *)

Definition BOOTCOUNT_MAGIC : Z := 0x20110811.
Definition BC_OFFSET_INCREMENT_MIN : Z := 16.

(** One round of the search for the first free entry: its number, the count of
    the entry before it, and [page]. *)
Definition bc_step (fd inc num_bc : Z) (x : Z * Z * list Z) :
    M K (Z * Z * list Z + option (Z * Z * list Z)) :=
  let '(i, last_count, page) := x in
  if i <? u32 num_bc then
    page ← read_over fd page 12 (u32 (i * inc));
    m ← lift (mread page 0 4);
    c ← lift (mread page 4 4);
    let magic := u32_of m in
    if negb (magic =? BOOTCOUNT_MAGIC) && negb (magic =? 0xffffffff) then mret (inr None)
    else if magic =? 0xffffffff then mret (inr (Some (i, last_count, page)))
    else mret (inl (u32 (i + 1), s32 (u32_of c), page))
  else mret (inr (Some (i, last_count, page))).

(** From "if (last_count == 0)" on. *)
Definition bc_reset (fd inc num_bc size i last_count : Z) (page : list Z) : M K Z :=
  if last_count =? 0 then mret 0
  else
    i ← (if i =? u32 num_bc then
           ret ← sys (k_erase fd 0 size);
           mret (if ret <? 0 then None else Some 0)
         else mret (Some i));
    match i with
    | None => mret (-3)
    | Some i =>
        page ← lift (mset page 0 255 (Z.to_nat inc));
        page ← lift (mwrite page 0 (u32_bytes BOOTCOUNT_MAGIC ++ u32_bytes 0 ++ u32_bytes BOOTCOUNT_MAGIC));
        bs ← lift (mread page 0 (Z.to_nat inc));
        ret ← sys (k_pwrite fd bs (u32 (i * inc)));
        mret (if ret <? 0 then -4 else 0)
    end.

Definition mtd_resetbc (mtd : list Z) : M K Z :=
  let page := replicate 2048 0 in
  fd ← mtd_check_open mtd;
  info ← sys (k_getinfo fd);
  retval ← match info with
           | None => mret (-1)
           | Some i =>
               let inc := if mi_writesize i <? BC_OFFSET_INCREMENT_MIN then BC_OFFSET_INCREMENT_MIN
                          else mi_writesize i in
               let num_bc := s32 (mi_size i / inc) in
               x ← loop (S (Z.to_nat (u32 num_bc))) (bc_step fd inc num_bc) (0, 0, page);
               match x with
               | None => mret (-2)
               | Some (n, last_count, page) => bc_reset fd inc num_bc (mi_size i) n last_count page
               end
           end;
  _ ← sys_ (k_close fd);
  mret retval.

End target.
End MtdTarget.
