(* ===== verification/MtdWrite.v ===== *)
(** * Writing, dumping and verifying (package/system/mtd/src/mtd.c)

    [mtd_write] copies an image to one device or to several in turn, block by
    block, each block being erased before it is written and bad blocks being
    passed over.  The build is the one without FIS_SUPPORT; which of the
    functions of single targets are linked is the class [Target]. *)

From S2P Require Import Prelude CLib Mtd MtdJffs2 MtdTrx MtdFix MtdTarget.
Import Mtd.
Open Scope Z_scope.
Open Scope cint_scope.

Module MtdWrite.

Section write.
Context {Ar : Arch} {T : Target} {K : Type} `{Kernel K}.
(** What the stack holds where the [MD5_CTX] of a fix-up lies. *)
Context (junk dig : list Z).

Definition EFAULT : Z := 14.

(** [read(imagefd, buf + buflen, n)] and "buflen += r": the number of bytes, or
    [errno]. *)
Definition read_buf (imagefd n : Z) : M K (Z + Z) :=
  g ← get;
  match buf g with
  | None => mret (inl EFAULT)
  | Some m =>
      r ← sys (k_read imagefd n);
      match r with
      | inl e => mret (inl e)
      | inr bs =>
          let len := Z.of_nat (length bs) in
          m ← lift (mwrite m (Z.to_nat (buflen g)) bs);
          _ ← put (set_buf (Some m) (buflen g + len) g);
          mret (inr len)
      end
  end.
Definition get_buf : M K (list Z) := g ← get; lift (of_option NullDeref (buf g)).

(** ** The check of an image *)

Definition magic_step (imagefd : Z) (_ : unit) : M K (unit + unit) :=
  g ← get;
  if buflen g <? 4 then
    r ← read_buf imagefd (4 - buflen g);
    match r with
    | inr n => mret (if n <? 1 then inr tt else inl tt)
    | inl _ => mret (inr tt)
    end
  else mret (inr tt).

Definition image_check (imagefd : Z) (mtd : list Z) : M K Z :=
  _ ← loop 5 (magic_step imagefd) tt;
  g ← get;
  if buflen g <? 4 then mret 0
  else
    b ← get_buf;
    w ← lift (mread b 0 4);
    let f := if be_val w =? opt_trxmagic g then IF_TRX
             else if be_val w =? SEAMA_MAGIC then IF_SEAMA
             else if le_val w =? WRG_MAGIC then IF_WRG
             else if le_val w =? WRGG03_MAGIC then IF_WRGG03
             else imageformat g in
    _ ← put (set_format f g);
    match f with
    | IF_TRX =>
        if has_trx then
          '(ret, b, len) ← MtdTrx.trx_check imagefd mtd b (buflen g);
          g ← get;
          _ ← put (set_buf (Some b) len g);
          mret ret
        else mret 1
    | IF_SEAMA | IF_WRG | IF_WRGG03 => mret 1
    | IF_UNKNOWN => mret (if target_brcm && bool_decide (mtd = cs "firmware") then 0 else 1)
    end.

(** ** Writing *)

(** The variables of [mtd_write] that live across rounds; those of type
    [ssize_t] count bytes of a device. *)
Record wvars := Wvars {
  w_w : Z;            (** written *)
  w_e : Z;            (** erased, or passed over *)
  w_skip : Z;
  w_offset : Z;
  w_raw : Z;          (** [buflen_raw] *)
  w_replaced : bool;  (** [jffs2_replaced] *)
  w_bad : Z           (** [skip_bad_blocks] *)
}.
Definition set_we (w e : Z) (v : wvars) : wvars :=
  Wvars w e (w_skip v) (w_offset v) (w_raw v) (w_replaced v) (w_bad v).
Definition set_offset (o : Z) (v : wvars) : wvars :=
  Wvars (w_w v) (w_e v) (w_skip v) o (w_raw v) (w_replaced v) (w_bad v).
Definition set_raw (n : Z) (v : wvars) : wvars :=
  Wvars (w_w v) (w_e v) (w_skip v) (w_offset v) n (w_replaced v) (w_bad v).

(** One round of the loop that fills the buffer. *)
Definition fill_step (imagefd : Z) (_ : unit) : M K (unit + unit) :=
  g ← get;
  if buflen g <? erasesize g then
    r ← read_buf imagefd (size_t (erasesize g - buflen g));
    match r with
    | inl e => mret (if (e =? EINTR) || (e =? EAGAIN) then inl tt else inr tt)
    | inr n => mret (if n =? 0 then inr tt else inl tt)
    end
  else mret (inr tt).

(** "Pad block to eraseblock size" *)
Definition pad_buf : M K unit :=
  g ← get;
  if buflen g <? erasesize g then
    b ← get_buf;
    b ← lift (mset b (Z.to_nat (buflen g)) 255 (Z.to_nat (erasesize g - buflen g)));
    put (set_buf (Some b) (erasesize g) g)
  else mret tt.

(** "buflen = 0", where the round ends. *)
Definition clear_buf : M K unit := g ← get; put (set_buf (buf g) 0 g).

(** One round of the loop that erases; [inr true]: on to the next device. *)
Definition erase_step (fd : Z) (next : bool) (part_offset : Z) (v : wvars) : M K (wvars + bool * wvars) :=
  g ← get;
  if w_e v - w_bad v <? w_w v + buflen g then
    bad ← mtd_block_is_bad fd (w_e v);
    if negb (bad =? 0) then
      _ ← sys_ (k_seek_cur fd (erasesize g));
      mret (inl (Wvars (w_w v) (w_e v + erasesize g) (w_skip v) (w_offset v) (w_raw v) (w_replaced v)
                   (w_bad v + erasesize g)))
    else
      r ← mtd_erase_block fd (w_e v + part_offset);
      if r <? 0 then
        if next then
          v ← (if w_w v <? w_e v then
                 b ← get_buf;
                 bs ← lift (mread b (Z.to_nat (w_offset v)) (Z.to_nat (w_e v - w_w v)));
                 _ ← sys (k_write fd bs);
                 mret (set_offset (u32 (w_e v - w_w v)) v)
               else mret v);
          _ ← sys_ (k_close fd);
          mret (inr (true, set_we 0 0 v))
        else exit_ 1
      else mret (inl (set_we (w_w v) (w_e v + erasesize g) v))
  else mret (inr (false, v)).

(** From "need to erase the next block" to the end of the round. *)
Definition put_block (fd : Z) (next : bool) (part_offset : Z) (v : wvars) : M K (wvars + bool * wvars) :=
  g ← get;
  '(again, v) ← (if no_erase g then mret (false, v)
                 else loop (S (Z.to_nat (mtdsize g))) (erase_step fd next part_offset) v);
  if again : bool then mret (inr (true, v))
  else
    b ← get_buf;
    bs ← lift (mread b (Z.to_nat (w_offset v)) (Z.to_nat (buflen g)));
    result ← sys (k_write fd bs);
    if result <? buflen g then exit_ 1
    else
      _ ← clear_buf;
      mret (inl (Wvars (w_w v + buflen g) (w_e v) (w_skip v) 0 0 (w_replaced v) (w_bad v))).

(** One round of [for (;;)]: [inr false] when the image has ended, [inr true]
    to resume on the next device. *)
Definition write_round (fuel : nat) (imagefd fd : Z) (mtd : list Z) (next : bool) (part_offset : Z)
    (v : wvars) : M K (wvars + bool * wvars) :=
  _ ← loop fuel (fill_step imagefd) tt;
  g ← get;
  let v := if w_raw v =? 0 then set_raw (buflen g) v else v in
  if buflen g =? 0 then mret (inr (false, v))
  else
    _ ← pad_buf;
    g ← get;
    if 0 <? w_skip v then
      _ ← clear_buf;
      mret (inl (Wvars (w_w v) (w_e v) (w_skip v - buflen g) (w_offset v) 0 (w_replaced v) (w_bad v)))
    else
      match jffs2file g with
      | Some f =>
          if jffs2_skip_bytes g <=? w_w v then
            b ← get_buf;
            mark ← lift (mread b 0 4);
            if bool_decide (mark = MtdJffs2.JFFS2_EOF) then
              skip ← MtdJffs2.mtd_replace_jffs2 fuel mtd fd (s32 (w_e v)) f;
              g' ← get;
              _ ← put (set_jffs2file None g');
              _ ← clear_buf;
              mret (inl (Wvars (w_w v + skip) (w_e v + skip) (skip - buflen g) 0 0 true (w_bad v)))
            else
              _ ← MtdJffs2.mtd_parse_jffs2data b (jffs2dir g);
              put_block fd next part_offset v
          else put_block fd next part_offset v
      | None => put_block fd next part_offset v
      end.

(** The recovery flag before and after. *)
Definition tpl_flag (on : bool) : M K unit :=
  g ← get;
  match tpl_uboot_args_part g with
  | Some part =>
      if has_tpl then
        result ← MtdTarget.mtd_tpl_recoverflag_write part on;
        if result <? 0 then exit_ 1 else mret tt
      else mret tt
  | None => mret tt
  end.

(** From "resume:" to the end of the loop: the descriptor and the name of the
    device that the image ended on. *)
Fixpoint write_devices (fuel : nat) (imagefd part_offset : Z) (names : list (list Z)) (v : wvars) :
    M K (Z * list Z * wvars) :=
  match names with
  | [] => lift (Fault NullDeref)
  | mtd :: names =>
      fd ← mtd_check_open mtd;
      if fd <? 0 then exit_ 1
      else
        _ ← (if 0 <? part_offset then sys_ (k_seek_set fd (off_t part_offset)) else mret tt);
        _ ← tpl_flag true;
        '(again, v) ← loop fuel (write_round fuel imagefd fd mtd (negb (bool_decide (names = []))) part_offset)
                        (set_we 0 0 v);
        if again : bool then write_devices fuel imagefd part_offset names v
        else mret (fd, mtd, v)
  end.

(** The header of the image, once jffs2 data has been put after it. *)
Definition fix_image (fd : Z) (mtd : list Z) : M K unit :=
  g ← get;
  match imageformat g with
  | IF_TRX => if has_trx then _ ← MtdTrx.trx_fixup fd mtd; mret tt else mret tt
  | IF_SEAMA => if has_seama then _ ← MtdFix.mtd_fixseama junk dig mtd 0 0; mret tt else mret tt
  | IF_WRG => if has_wrg then _ ← MtdFix.mtd_fixwrg junk dig mtd 0 0; mret tt else mret tt
  | IF_WRGG03 => if has_wrgg then _ ← MtdFix.mtd_fixwrgg junk dig mtd 0 0; mret tt else mret tt
  | IF_UNKNOWN => mret tt
  end.

Definition mtd_write (fuel : nat) (imagefd : Z) (mtd : list Z) (part_offset : Z) : M K Z :=
  '(fd, mtd, v) ← write_devices fuel imagefd part_offset (split_colon mtd) (Wvars 0 0 0 0 0 false 0);
  _ ← (if w_replaced v then fix_image fd mtd else mret tt);
  _ ← sys_ (k_close fd);
  _ ← tpl_flag false;
  mret 0.

(** ** Dumping *)

(** One round: the number of bytes left, the offset, and [buf]; [inr r]: the
    function returns [r]. *)
Definition dump_step (fd : Z) (x : Z * Z * list Z) : M K (Z * Z * list Z + Z) :=
  let '(size, offset, b) := x in
  g ← get;
  let len := if erasesize g <? size then erasesize g else size in
  r ← sys (k_read fd (size_t len));
  match r with
  | inl e =>
      if e =? EINTR then mret (if 0 <? size then inl x else inr 0)
      else mret (inr (-1))
  | inr bs =>
      let rlen := Z.of_nat (length bs) in
      b ← lift (mwrite b 0 bs);
      if (rlen =? 0) || negb (rlen =? len) then mret (inr 0)
      else
        bad ← mtd_block_is_bad fd offset;
        size ← (if negb (bad =? 0) then mret size
                else _ ← sys (k_write 1 bs); mret (size - rlen));
        mret (if 0 <? size then inl (size, offset + rlen, b) else inr 0)
  end.
Definition mtd_dump (fuel : nat) (mtd : list Z) (part_offset size : Z) : M K Z :=
  fd ← mtd_check_open mtd;
  if fd <? 0 then mret (-1)
  else
    g ← get;
    let size := if size =? 0 then mtdsize g else size in
    _ ← (if negb (part_offset =? 0) then sys_ (k_seek_set fd part_offset) else mret tt);
    mem ← sys (k_malloc (size_t (erasesize g)));
    match mem with
    | None => mret (-1)
    | Some b =>
        ret ← loop fuel (dump_step fd) (size, 0, b);
        _ ← sys_ (k_close fd);
        mret ret
    end.

(** ** Verifying *)

Section verify.
(** libubox: the digest of a file, and that of a stream. *)
Context {md5_ctx : Type} (md5sum : list Z → K → option (list Z) * K) (md5_begin : md5_ctx)
  (md5_hash : list Z → md5_ctx → md5_ctx) (md5_end : md5_ctx → list Z).

Definition verify_step (fd : Z) (x : Z * md5_ctx) : M K (Z * md5_ctx + option md5_ctx) :=
  let '(size, ctx) := x in
  let len := if 256 <? size then 256 else size in
  r ← sys (k_read fd (size_t len));
  match r with
  | inl e =>
      if e =? EINTR then mret (if 0 <? size then inl x else inr (Some ctx))
      else mret (inr None)
  | inr [] => mret (inr (Some ctx))
  | inr bs =>
      let ctx := md5_hash bs ctx in
      let size := size - Z.of_nat (length bs) in
      mret (if 0 <? size then inl (size, ctx) else inr (Some ctx))
  end.
(** 1 stands for any result of [memcmp] that is not 0. *)
Definition mtd_verify (fuel : nat) (mtd file : list Z) : M K Z :=
  st ← sys (k_stat file);
  match st with
  | None => mret (-1)
  | Some st =>
      f_md5 ← sys (md5sum file);
      match f_md5 with
      | None => mret (-1)
      | Some f_md5 =>
          fd ← mtd_check_open mtd;
          if fd <? 0 then mret (-1)
          else
            ctx ← loop fuel (verify_step fd) (st_size st, md5_begin);
            _ ← sys_ (k_close fd);
            match ctx with
            | None => mret (-1)
            | Some ctx => mret (if bool_decide (f_md5 = md5_end ctx) then 0 else 1)
            end
      end
  end.
End verify.

End write.
End MtdWrite.
