(* ===== verification/MtdWriteProps.v ===== *)
(** * Writing an image: what the device holds afterwards

    [mtd_write] to one device, without jffs2 data: the image goes to the good
    blocks from the start of the device on, in order, and nothing else is
    touched. *)

From S2P Require Import Prelude CLib Mtd MtdKernel MtdSim MtdDev MtdWrite.
Import Mtd MtdKernel MtdSim MtdDev MtdWrite.
Open Scope Z_scope.
Open Scope cint_scope.

Module MtdWriteProps.

(** ** Blocks of an image *)

(** The last block of an image, or one that a failed [read] cut short. *)
Definition pad_to (es : Z) (c : list Z) : list Z := c ++ replicate (Z.to_nat (es - Z.of_nat (length c))) 255.
(** [w] is [d] cut into pieces of at most a block, each of them padded. *)
Inductive padded (es : Z) : list Z → list Z → Prop :=
  | padded_nil : padded es [] []
  | padded_app d w c : padded es d w → 0 < Z.of_nat (length c) ≤ es → padded es (d ++ c) (w ++ pad_to es c).

Lemma length_pad_to es c : Z.of_nat (length c) ≤ es → length (pad_to es c) = Z.to_nat es.
Proof. intros. unfold pad_to. rewrite length_app, length_replicate. lia. Qed.
Lemma pad_to_full es c : Z.of_nat (length c) = es → pad_to es c = c.
Proof. intros <-. unfold pad_to. by rewrite Z.sub_diag, app_nil_r. Qed.

Section run.
Context {Ar : Arch} {T : Target} {K : Type} `{KernelLaws K}.
Context (junk dig : list Z).
Context (o : object) (i : mtd_info) (Hwf : wf_device o i).
(** The device is the object [id], the image the object [iid] behind [ifd],
    and [v] the kernel before the device is opened as [fd]. *)
Context (v : kview) (id iid ifd fd : Z) (img : object).
Context (Hobj : v_obj v !! id = Some o) (Himg : v_obj v !! iid = Some img) (Hids : iid ≠ id)
  (Hfree : v_fd v !! fd = None) (Hfds : ifd ≠ fd).
Abbreviation es := (mi_erasesize i).
Implicit Types (s : state K) (b : list Z).

(** ** The state of a run *)

(** The kernel when the device holds [b] and the two files are at [pos] and [ipos]. *)
Definition wview (pos ipos : Z) (b : list Z) : kview :=
  set_fd ifd (Some (iid, ipos)) (set_fd fd (Some (id, pos)) (set_obj id (with_bytes b o) v)).

Lemma wview_device pos ipos b : refers (wview pos ipos b) fd id pos (with_bytes b o).
Proof.
  split; unfold wview; cbn; [|apply lookup_insert_eq].
  by rewrite lookup_partial_alter_ne, lookup_partial_alter_eq.
Qed.
Lemma wview_image pos ipos b : refers (wview pos ipos b) ifd iid ipos img.
Proof.
  split; unfold wview; cbn; [by rewrite lookup_partial_alter_eq|by rewrite lookup_insert_ne].
Qed.
Lemma wview_read pos ipos ipos' b : set_fd ifd (Some (iid, ipos')) (wview pos ipos b) = wview pos ipos' b.
Proof. apply set_fd_twice. Qed.
Lemma wview_seek pos pos' ipos b : set_fd fd (Some (id, pos')) (wview pos ipos b) = wview pos' ipos b.
Proof. unfold wview. rewrite set_fd_comm by done. by rewrite set_fd_twice. Qed.
Lemma wview_put pos ipos b b' :
  set_obj id (with_bytes b' (with_bytes b o)) (wview pos ipos b) = wview pos ipos b'.
Proof.
  change (set_fd ifd (Some (iid, ipos)) (set_fd fd (Some (id, pos))
    (set_obj id (with_bytes b' o) (set_obj id (with_bytes b o) v))) = wview pos ipos b').
  by rewrite set_obj_twice.
Qed.
Lemma wview_close pos ipos b :
  set_fd fd None (wview pos ipos b) = set_fd ifd (Some (iid, ipos)) (set_obj id (with_bytes b o) v).
Proof.
  unfold wview. rewrite set_fd_comm by done. f_equal. by apply set_fd_undo.
Qed.

(** The tool at the device, with the options of a plain write. *)
Record at_write (pos ipos : Z) (b : list Z) (s : state K) : Prop := {
  aw_view : view (kern s) = wview pos ipos b;
  aw_len : length b = length (o_bytes o);
  aw_es : erasesize (gl s) = es;
  aw_size : mtdsize (gl s) = size_of o;
  aw_type : mtdtype (gl s) = mi_type i;
  aw_erase : no_erase (gl s) = false;
  aw_jffs2 : jffs2file (gl s) = None;
  aw_tpl : tpl_uboot_args_part (gl s) = None
}.
Lemma at_write_buf pos ipos b m n s k :
  at_write pos ipos b s → ∀ ipos', view k = wview pos ipos' b →
  at_write pos ipos' b (State k (set_buf m n (gl s))).
Proof. intros [] ipos' Hv. by split. Qed.
Lemma at_write_kern pos ipos b pos' b' s k :
  at_write pos ipos b s → view k = wview pos' ipos b' → length b' = length b →
  at_write pos' ipos b' (State k (gl s)).
Proof. intros [] Hv Hl. split; try done. cbn. congruence. Qed.

(** What is left of the image: the bytes in the buffer, and those not read yet. *)
Record has_data (ipos : Z) (rest : list Z) (s : state K) : Prop := {
  hd_buf : ∃ m, buf (gl s) = Some m ∧ length m = Z.to_nat es ∧
    rest = take (Z.to_nat (buflen (gl s))) m ++ drop (Z.to_nat ipos) (o_bytes img);
  hd_len : 0 ≤ buflen (gl s) ≤ es;
  hd_pos : 0 ≤ ipos
}.

(** ** Filling the buffer *)

Lemma read_more m n ipos bs :
  0 ≤ ipos → (n + length bs ≤ length m)%nat → bs = range (o_bytes img) ipos (Z.of_nat (length bs)) →
  ∃ m', mwrite m n bs = Ret m' ∧ length m' = length m ∧
    take (n + length bs) m' ++ drop (Z.to_nat (ipos + Z.of_nat (length bs))) (o_bytes img) =
    take n m ++ drop (Z.to_nat ipos) (o_bytes img).
Proof.
  intros Hp Hn Hbs. eexists. split; [by apply mwrite_ret|]. split.
  { rewrite !length_app, length_take, length_drop. lia. }
  rewrite app_assoc, take_app_le by (rewrite length_app, length_take; lia).
  rewrite take_ge by (rewrite length_app, length_take; lia). rewrite <- app_assoc. f_equal.
  rewrite Hbs at 1. unfold range. rewrite Nat2Z.id. replace (Z.to_nat (ipos + Z.of_nat (length bs)))
    with (Z.to_nat ipos + length bs)%nat by lia. rewrite <- drop_drop. apply take_drop.
Qed.

Lemma wp_read_buf n m ipos Q E s :
  buf (gl s) = Some m → length m = Z.to_nat es → 0 ≤ buflen (gl s) → 0 ≤ n → buflen (gl s) + n ≤ es →
  refers (view (kern s)) ifd iid ipos img → 0 ≤ ipos →
  (∀ e k, view k = view (kern s) → (retried (inl e) → (retries k < retries (kern s))%nat) →
     (healthy (kern s) → healthy k ∧ retried (inl e) ∧ whole_reads = false) → Q (inl e) (State k (gl s))) →
  (∀ c m' k, view k = set_fd ifd (Some (iid, ipos + c)) (view (kern s)) → 0 ≤ c ≤ n →
     (c = 0 → 0 < n → size_of img ≤ ipos) → length m' = Z.to_nat es →
     take (Z.to_nat (buflen (gl s) + c)) m' ++ drop (Z.to_nat (ipos + c)) (o_bytes img) =
       take (Z.to_nat (buflen (gl s))) m ++ drop (Z.to_nat ipos) (o_bytes img) →
     (healthy (kern s) → healthy k) →
     Q (inr c) (State k (set_buf (Some m') (buflen (gl s) + c) (gl s)))) →
  wp (read_buf ifd n) Q E s.
Proof.
  intros Hm Hl Hb Hn Hfit Hr Hp He Hq. unfold read_buf. apply wp_bind, wp_get. rewrite Hm.
  apply wp_bind, (wp_sys_read ifd n iid ipos img); [done|lia|lia|..].
  - intros e k Hv Hret Hh. apply wp_ret. by apply He.
  - intros bs k Hbs Hle Hnil Hv Hh.
    destruct (read_more m (Z.to_nat (buflen (gl s))) ipos bs) as (m' & Hw & Hl' & Hrest'); [done|lia|done|].
    eapply wp_bind, wp_lift; [done|]. apply wp_bind, wp_put, wp_ret. cbn [kern].
    apply Hq; [done|lia| |lia| |by intros []%Hh].
    + intros Hz Hn0. apply Hnil; [|done]. destruct bs; [done|cbn in Hz; lia].
    + rewrite <- Hrest'. do 2 f_equal. lia.
Qed.

Lemma wp_fill_step pos ipos b rest s :
  at_write pos ipos b s → has_data ipos rest s →
  wp (fill_step ifd tt)
    (λ r s', ∃ ipos', at_write pos ipos' b s' ∧ has_data ipos' rest s' ∧ (healthy (kern s) → healthy (kern s')) ∧
       match r with
       | inl _ => buflen (gl s) < buflen (gl s') ∨
                  buflen (gl s') = buflen (gl s) ∧ (retries (kern s') < retries (kern s))%nat
       | inr _ => healthy (kern s) → buflen (gl s') = es ∨ size_of img ≤ ipos'
       end) (λ _ _, False) s.
Proof.
  intros Ha [(m & Hm & Hl & Hrest) Hn Hp]. pose proof (es_small o i Hwf) as Hesr.
  unfold fill_step. apply wp_bind, wp_get. rewrite (aw_es _ _ _ _ Ha).
  assert (has_data ipos rest s) as Hd by (split; [by exists m|done..]).
  destruct (Z.ltb_spec (buflen (gl s)) es) as [Hlt|Hge].
  2: { apply wp_ret. exists ipos. split_and!; [done..|]. left. lia. }
  rewrite size_t_small by lia. apply wp_bind.
  apply (wp_read_buf _ m ipos); [done|done|lia|lia|lia|rewrite (aw_view _ _ _ _ Ha); apply wview_image|done|..].
  - intros e k Hv Hret Hh.
    assert (at_write pos ipos b (State k (gl s))) as Ha'
      by (eapply at_write_kern; [done|by rewrite Hv; apply aw_view|done]).
    assert (has_data ipos rest (State k (gl s))) as Hd' by (split; [by exists m|done..]).
    destruct (Z.eqb_spec e EINTR) as [->|He1].
    { apply wp_ret. exists ipos. split_and!; [done|done|by intros []%Hh|]. right. split; [done|]. apply Hret. by left. }
    destruct (Z.eqb_spec e EAGAIN) as [->|He2]; cbn [orb]; apply wp_ret; exists ipos;
      (split_and!; [done|done|by intros []%Hh|]).
    { right. split; [done|]. apply Hret. by right. }
    intros (_ & Hr & _)%Hh. exfalso. destruct Hr as [Hr|Hr]; congruence.
  - intros c m' k Hv Hc Hz Hl' Hrest' Hh. set (s' := State k _).
    assert (at_write pos (ipos + c) b s') as Ha'.
    { eapply at_write_buf; [done|]. rewrite Hv, (aw_view _ _ _ _ Ha). apply wview_read. }
    assert (has_data (ipos + c) rest s') as Hd' by (split; cbn; [|lia..]; exists m'; by rewrite Hrest').
    destruct (Z.eqb_spec c 0) as [->|Hnz]; apply wp_ret; eexists; (split_and!; [done|done|done|]).
    + intros _. right. specialize (Hz eq_refl ltac:(lia)). lia.
    + left. cbn. lia.
Qed.

Lemma wp_fill fuel pos ipos b rest s Q E :
  at_write pos ipos b s → has_data ipos rest s →
  (Z.to_nat (size_of o) * S max_retries + max_retries < fuel)%nat →
  (∀ ipos' s', at_write pos ipos' b s' → has_data ipos' rest s' →
     (healthy (kern s) → healthy (kern s') ∧ (buflen (gl s') = es ∨ size_of img ≤ ipos')) → Q tt s') →
  wp (loop fuel (fill_step ifd) tt) Q E s.
Proof.
  intros Ha Hd Hfuel HQ. pose proof (es_small o i Hwf) as Hesr. pose proof (wd_es_le _ _ Hwf) as Hesle.
  set (I := λ (_ : unit) s', ∃ ipos', at_write pos ipos' b s' ∧ has_data ipos' rest s' ∧
    (healthy (kern s) → healthy (kern s'))).
  apply (wp_loop_state (fill_step ifd) I
    (λ _ s', (Z.to_nat (es - buflen (gl s')) * S max_retries + retries (kern s'))%nat)).
  - intros [] s1 (ip & Ha1 & Hd1 & Hh1). eapply wp_mono; [by eapply wp_fill_step| |done].
    intros [[]|[]] s2 (ip' & Ha2 & Hd2 & Hh2 & Hr).
    + split; [exists ip'; by split_and!; auto|]. pose proof (law_retries (kern s2)).
      pose proof (hd_len _ _ _ Hd1). pose proof (hd_len _ _ _ Hd2). destruct Hr as [Hr|[-> Hr]]; nia.
    + apply (HQ ip'); [done|done|]. auto.
  - by exists ipos.
  - pose proof (law_retries (kern s)). pose proof (hd_len _ _ _ Hd). nia.
Qed.

(** ** Erasing the next block *)

(** The bytes [wr] of the image are in the good blocks before [e]; nothing from
    [u] on has changed. *)
Record holds (e u : Z) (wr b : list Z) : Prop := {
  ho_range : 0 ≤ e ≤ size_of o;
  ho_div : (es | e);
  ho_good : good_bytes (with_bytes b o) i 0 e = wr;
  ho_outside : same_outside (o_bytes o) b 0 u;
  ho_bad : bad_kept o i b
}.

(** How a run may end early. *)
Definition gave_up (k : K) : Prop :=
  ∃ b, v_obj (view k) = <[id := with_bytes b o]> (v_obj v) ∧ length b = length (o_bytes o) ∧ bad_kept o i b.
Lemma gave_up_at pos ipos b k : view k = wview pos ipos b → length b = length (o_bytes o) → bad_kept o i b → gave_up k.
Proof. intros Hv Hl Hb. exists b. split_and!; [by rewrite Hv|done|done]. Qed.

(** The state before the erasure of the block for [wr], and after it. *)
Definition erasing (lo w : Z) (wr : list Z) (ipos raw : Z) (rep : bool) (s0 : state K) (x : wvars) s : Prop :=
  ∃ b e done_, x = Wvars w e 0 0 raw rep (if done_ : bool then e - es - w else e - w) ∧
    (if done_ then lo ≤ e - es else lo ≤ e) ∧
    gl s = gl s0 ∧ (healthy (kern s0) → healthy (kern s)) ∧ length b = length (o_bytes o) ∧
    (if done_ then
       let p := e - es in
       view (kern s) = wview p ipos b ∧ holds p e wr b ∧ erased b p es ∧ p < size_of o ∧ p ∉ o_bad o
     else view (kern s) = wview e ipos b ∧ holds e e wr b).

Lemma wp_erase_step lo w wr ipos raw rep s0 x s pos0 ipos0 b0 :
  at_write pos0 ipos0 b0 s0 → buflen (gl s0) = es → erasing lo w wr ipos raw rep s0 x s →
  wp (erase_step fd false 0 x)
    (λ r s', match r with
       | inl x' => erasing lo w wr ipos raw rep s0 x' s' ∧
           (Z.to_nat (size_of o - w_e x') < Z.to_nat (size_of o - w_e x))%nat
       | inr (again, x') => again = false ∧ ∃ b e, lo ≤ e ∧ x' = Wvars w (e + es) 0 0 raw rep (e - w) ∧
           gl s' = gl s0 ∧ (healthy (kern s0) → healthy (kern s')) ∧ view (kern s') = wview e ipos b ∧
           length b = length (o_bytes o) ∧ holds e (e + es) wr b ∧ erased b e es ∧ e < size_of o ∧ e ∉ o_bad o
       end)
    (λ c s', c = 1 ∧ gave_up (kern s') ∧
       (healthy (kern s0) → length wr = length (good_bytes o i 0 (size_of o)))) s.
Proof.
  intros Ha Hbl (b & e & dn & -> & Hlo & Hg & Hh & Hlb & Hst). pose proof (es_small o i Hwf) as Hesr.
  pose proof (wd_range _ _ Hwf) as Hrange. unfold erase_step. cbn [w_e w_bad w_w w_offset w_skip w_raw w_replaced].
  apply wp_bind, wp_get. rewrite Hg, Hbl. destruct dn; cbv iota.
  { destruct Hst as (Hv & Hho & Her & Hlt & Hgood). rewrite (proj2 (Z.ltb_ge _ _)) by lia. apply wp_ret.
    split; [done|]. exists b, (e - es). split; [done|]. replace (e - es + es) with e by lia. split_and!; done. }
  destruct Hst as [Hv Hho]. rewrite (proj2 (Z.ltb_lt _ _)) by lia. pose proof (ho_range _ _ _ _ Hho) as He.
  assert (healthy (kern s0) → ∀ k, view k = wview e ipos b → size_of o ≤ e →
    gave_up k ∧ length wr = length (good_bytes o i 0 (size_of o))) as Hend.
  { intros Hk k Hvk Hle. split; [eapply gave_up_at; [done|done|apply Hho]|].
    rewrite <- (ho_good _ _ _ _ Hho), good_bytes_count by done. do 2 f_equal. lia. }
  apply wp_bind. apply (wp_block_is_bad fd e id e (with_bytes b o) i);
    [rewrite Hv; apply wview_device|rewrite Hg; apply Ha|lia|..].
  2: { intros k Hvk Hbad. split_and!; [done|eapply gave_up_at; [cbn; by rewrite Hvk, Hv|done|apply Hho]|].
       intros Hk. apply (Hend Hk k); [by rewrite Hvk, Hv|]. specialize (Hbad (Hh Hk)).
       unfold size_of in *. cbn in Hbad. lia. }
  intros r k Hvk Hr Hhk. change (bad_block (with_bytes b o) i e) with (bad_block o i e) in Hr.
  assert (negb (r =? 0) = bad_block o i e) as ->.
  { rewrite <- (negb_involutive (bad_block o i e)), <- Hr. f_equal.
    destruct (Z.eqb_spec r 0); [by rewrite bool_decide_eq_true_2|by rewrite bool_decide_eq_false_2]. }
  destruct (bad_block o i e) eqn:Hbad.
  - apply (bad_block_iff o i Hwf) in Hbad as Hin. pose proof (wd_bad_in _ _ Hwf e Hin) as Hlt.
    destruct (next_block o i Hwf e (ho_div _ _ _ _ Hho)) as [Hd Hfit]; [lia|].
    rewrite (aw_es _ _ _ _ Ha).
    apply wp_bind, (wp_sys_seek_cur fd es id e (with_bytes b o)).
    { cbn [kern]. rewrite Hvk, Hv. apply wview_device. }
    { unfold size_of in *. cbn. lia. }
    cbn [kern gl]. intros k2 Hv2 Hh2. apply wp_ret. split; [|cbn; lia].
    exists b, (e + es), false. split_and!.
    + f_equal. lia.
    + lia.
    + cbn. done.
    + cbn. auto.
    + done.
    + cbn [kern]. rewrite Hv2, Hvk, Hv. apply wview_seek.
    + split; [lia|done| | |apply Hho].
      * rewrite (good_bytes_next o i Hwf b e wr), Hbad, app_nil_r; [done|done|apply Hho|lia|apply Hho].
      * eapply (same_outside_wider _ _ 0 e); [apply Hho|lia..].
  - assert (e ∉ o_bad o) as Hgood by (rewrite <- (bad_block_iff o i Hwf); congruence).
    rewrite Z.add_0_r. apply wp_bind.
    apply (wp_erase_block fd e id e (with_bytes b o) i);
      [cbn [kern]; rewrite Hvk, Hv; apply wview_device|apply Hwf|cbn [gl]; rewrite Hg; apply Ha|lia|lia|].
    cbn [kern gl]. intros r' b' k2 Hv2 Hs2 Hr' Hh2. cbn [o_bytes with_bytes] in Hs2.
    rewrite Hvk, Hv, wview_put in Hv2. pose proof (bad_kept_step o i Hwf b b' e (ho_bad _ _ _ _ Hho) Hs2 ltac:(lia) (ho_div _ _ _ _ Hho) Hgood) as Hk2.
    assert (length b' = length (o_bytes o)) as Hlb' by (destruct Hs2 as [-> _]; done).
    destruct Hr' as [[-> Her]|[-> Hfail]]; cbn [Z.ltb Z.compare].
    2: { apply wp_exit. split_and!; [done|by eapply gave_up_at|]. intros Hk.
         destruct (decide (size_of o ≤ e)) as [Hle|Hlt]; [by apply (Hend Hk k); [rewrite Hvk, Hv|]|].
         destruct (next_block o i Hwf e (ho_div _ _ _ _ Hho)) as [Hd Hfit]; [lia|].
         specialize (Hfail (Hhk (Hh Hk)) (ho_div _ _ _ _ Hho) (good_block o i Hwf e (ho_div _ _ _ _ Hho) Hgood)). unfold size_of in *. cbn in Hfail. lia. }
    assert (e < size_of o) as Hlt.
    { unfold erased, size_of in *. apply (f_equal length) in Her. rewrite length_replicate in Her.
      unfold range in Her. rewrite length_take, length_drop in Her. lia. }
    destruct (next_block o i Hwf e (ho_div _ _ _ _ Hho)) as [Hd Hfit]; [lia|].
    apply wp_ret. split; [|cbn [w_e set_we]; rewrite (aw_es _ _ _ _ Ha); lia].
    rewrite (aw_es _ _ _ _ Ha). exists b', (e + es), true. replace (e + es - es) with e by lia. split_and!.
    + done.
    + done.
    + done.
    + cbn. auto.
    + done.
    + split_and!; [done| |done|lia|done]. split; [lia|apply Hho| | |done].
      * rewrite <- (ho_good _ _ _ _ Hho). by apply (good_bytes_ext o i b b' e es); [|lia..|left; lia].
      * eapply same_outside_trans; [eapply (same_outside_wider _ _ 0 e)|eapply (same_outside_wider _ _ e es)];
          [apply Hho|lia..|done|lia|lia|lia|lia].
Qed.

(** ** A round of the loop *)

Lemma wp_erase_loop w wr e pos ipos b raw rep s Q E :
  at_write pos ipos b s → buflen (gl s) = es → pos = e → holds e e wr b →
  (∀ b' e' s', e ≤ e' → gl s' = gl s → (healthy (kern s) → healthy (kern s')) →
     view (kern s') = wview e' ipos b' → length b' = length (o_bytes o) → holds e' (e' + es) wr b' →
     erased b' e' es → e' < size_of o → e' ∉ o_bad o →
     Q (false, Wvars w (e' + es) 0 0 raw rep (e' - w)) s') →
  (∀ s', gave_up (kern s') → (healthy (kern s) → length wr = length (good_bytes o i 0 (size_of o))) → E 1 s') →
  wp (loop (S (Z.to_nat (size_of o))) (erase_step fd false 0) (Wvars w e 0 0 raw rep (e - w))) Q E s.
Proof.
  intros Ha Hbl -> Hho HQ HE. pose proof (ho_range _ _ _ _ Hho) as He.
  apply (wp_loop (erase_step fd false 0) (λ x s', erasing e w wr ipos raw rep s x s')
    (λ x, Z.to_nat (size_of o - w_e x))).
  - intros x s1 Hx. eapply wp_mono; [by eapply wp_erase_step|..].
    + intros [x'|[again x']] s2.
      * done.
      * intros (-> & b' & e' & Hlo & -> & Hg & Hh & Hv & Hl & Hho' & Her & Hlt & Hgood).
        by apply (HQ b' e').
    + intros c s2 (-> & Hgu & Hwhy). by apply HE.
  - exists b, e, false. split_and!; [done|done|done|done|apply Ha|apply Ha|done].
  - cbn. lia.
Qed.

Lemma wp_put_block w wr e ipos b raw rep m s Q E :
  at_write e ipos b s → buf (gl s) = Some m → length m = Z.to_nat es → buflen (gl s) = es → holds e e wr b →
  (∀ b' e' s', e < e' → at_write e' ipos b' s' → buf (gl s') = Some m → buflen (gl s') = 0 →
     holds e' e' (wr ++ m) b' → (healthy (kern s) → healthy (kern s')) →
     Q (inl (Wvars (w + es) e' 0 0 0 rep (e' - (w + es)))) s') →
  (∀ s', gave_up (kern s') → (healthy (kern s) → length wr = length (good_bytes o i 0 (size_of o))) → E 1 s') →
  wp (put_block fd false 0 (Wvars w e 0 0 raw rep (e - w))) Q E s.
Proof.
  intros Ha Hm Hl Hbl Hho HQ HE. pose proof (es_small o i Hwf) as Hesr.
  unfold put_block. apply wp_bind, wp_get. rewrite (aw_erase _ _ _ _ Ha), (aw_size _ _ _ _ Ha).
  apply wp_bind. eapply wp_erase_loop; [done|done|done|done| |done].
  intros b1 e1 s1 Hle Hg Hh Hv Hlb Hho1 Her Hlt Hgood. unfold get_buf. apply wp_bind, wp_bind, wp_get.
  destruct (next_block o i Hwf e1 (ho_div _ _ _ _ Hho1)) as [Hd Hfit]; [pose proof (ho_range _ _ _ _ Hho1); lia|].
  pose proof (ho_range _ _ _ _ Hho1) as He1.
  rewrite Hg, Hm, Hbl. eapply wp_lift; [done|]. eapply wp_bind, wp_lift.
  { cbn. rewrite <- Hl. unfold mread. rewrite decide_True by lia. by rewrite drop_0, firstn_all. }
  apply wp_bind. cbn [w_w w_e w_skip w_replaced w_bad].
  apply (wp_sys_write fd m id e1 (with_bytes b1 o) i); [rewrite Hv; apply wview_device|apply Hwf|lia|].
  rewrite Hl, Z2Nat.id by lia. intros r b2 pos' k Hv2 Hs2 Hrle Hr Hh2. cbn [o_bytes with_bytes] in Hs2, Hr.
  rewrite Hv, wview_put, wview_seek in Hv2.
  pose proof (bad_kept_step o i Hwf _ _ _ (ho_bad _ _ _ _ Hho1) Hs2 ltac:(lia) (ho_div _ _ _ _ Hho1) Hgood) as Hk2.
  assert (length b2 = length (o_bytes o)) as Hlb2 by (destruct Hs2 as [-> _]; done).
  destruct (Z.ltb_spec r es) as [Hbad|Hok].
  { apply wp_exit, HE; [by eapply gave_up_at|]. intros Hk. exfalso.
    enough (r = es) by lia. apply Hh2; [by apply Hh|unfold size_of in *; cbn; lia|].
    exact (good_block o i Hwf e1 (ho_div _ _ _ _ Hho1) Hgood). }
  destruct (Hr ltac:(lia)) as [-> Hdata]. specialize (Hdata Her).
  unfold clear_buf. apply wp_bind, wp_bind, wp_get, wp_put, wp_ret. cbn [kern gl].
  replace (e1 - w) with (e1 + es - (w + es)) by lia. rewrite Hg. apply (HQ b2 (e1 + es)).
  - lia.
  - split; cbn; try apply Ha; done.
  - done.
  - done.
  - split; [lia|done| | |done].
    + assert (bad_block o i e1 = false) as Hnb by (apply not_true_is_false; by rewrite (bad_block_iff o i Hwf)).
      rewrite (good_bytes_next o i Hwf b2 e1 wr), Hnb, Hdata; [done|done|apply Hho1|lia|].
      rewrite (good_bytes_ext o i b1 b2 e1 es); [apply Hho1|done|lia..].
    + eapply same_outside_trans; [eapply (same_outside_wider _ _ 0 (e1 + es))|eapply (same_outside_wider _ _ e1 es)];
        [apply Hho1|lia..|done|lia|lia|lia|lia].
  - cbn. intros Hk. by apply Hh2, Hh.
Qed.

(** Once it has been filled, the buffer holds the next piece of the image, padded. *)
Lemma wp_pad_buf pos ipos b rest s Q E :
  at_write pos ipos b s → has_data ipos rest s → buflen (gl s) ≠ 0 →
  (∀ c s', 0 < Z.of_nat (length c) ≤ es → Z.of_nat (length c) = buflen (gl s) →
     rest = c ++ drop (Z.to_nat ipos) (o_bytes img) → kern s' = kern s →
     at_write pos ipos b s' → buf (gl s') = Some (pad_to es c) → buflen (gl s') = es → Q tt s') →
  wp pad_buf Q E s.
Proof.
  intros Ha [(m & Hm & Hl & Hrest) Hn Hp] Hnz HQ.
  set (c := take (Z.to_nat (buflen (gl s))) m) in *.
  assert (Z.of_nat (length c) = buflen (gl s)) as Hc by (unfold c; rewrite length_take; lia).
  unfold pad_buf. apply wp_bind, wp_get. rewrite (aw_es _ _ _ _ Ha). destruct (Z.ltb_spec (buflen (gl s)) es) as [Hlt|Hge].
  - unfold get_buf. apply wp_bind, wp_bind, wp_get. rewrite Hm. eapply wp_lift; [done|].
    assert (mset m (Z.to_nat (buflen (gl s))) 255 (Z.to_nat (es - buflen (gl s))) = Ret (pad_to es c)) as Hset.
    { unfold mset. rewrite mwrite_ret by (rewrite length_replicate; lia). f_equal. unfold pad_to. rewrite Hc. fold c.
      f_equal. rewrite drop_ge; [apply app_nil_r|]. rewrite length_replicate. lia. }
    eapply wp_bind, wp_lift; [done|]. apply wp_put. apply (HQ c); [lia|done|done|done| |done|done].
    eapply at_write_buf; [done|apply Ha].
  - apply wp_ret. assert (c = m) as Hcm by (apply take_ge; lia).
    apply (HQ c); [lia|done|done|done|done| |lia]. rewrite pad_to_full by lia. by rewrite Hcm.
Qed.

(** What has been written, and what is left. *)
Record progress (h : Prop) (data wr rest : list Z) : Prop := {
  pr_written : ∃ d, data = d ++ rest ∧ padded es d wr;
  pr_exact : h → data = wr ++ rest ∨
    rest = [] ∧ ∃ n, wr = data ++ replicate n 255 ∧ Z.of_nat n < es
}.
Lemma progress_step (h : Prop) data wr c rest :
  progress h data wr (c ++ rest) → 0 < Z.of_nat (length c) ≤ es →
  (h → Z.of_nat (length c) = es ∨ rest = []) → progress h data (wr ++ pad_to es c) rest.
Proof.
  intros [(d & Hd & Hp) Hex] Hc Hh. split.
  - exists (d ++ c). rewrite <- app_assoc. split; [done|]. by apply padded_app.
  - intros Hk. destruct (Hex Hk) as [Hw|[Hnil _]].
    2: { apply app_eq_nil in Hnil as [-> _]. cbn in Hc. lia. }
    destruct (Z.eq_dec (Z.of_nat (length c)) es) as [Hfull|Hfull].
    { left. by rewrite pad_to_full, <- app_assoc. }
    right. destruct (Hh Hk) as [?|Hr]; [done|]. split; [done|].
    exists (Z.to_nat (es - Z.of_nat (length c))). split; [|lia].
    rewrite Hw, Hr, app_nil_r. unfold pad_to. by rewrite app_assoc.
Qed.

(** The invariant of the rounds. *)
Definition writing (h : Prop) (data : list Z) (x : wvars) (s : state K) : Prop :=
  ∃ w e raw ipos b rest wr, x = Wvars w e 0 0 raw false (e - w) ∧ at_write e ipos b s ∧ has_data ipos rest s ∧
    holds e e wr b ∧ progress h data wr rest ∧ (h → healthy (kern s)).

(** What a run leaves on the device: what has been read of the image, in the
    good blocks before [e], and under a healthy kernel all of it, padded to the
    end of its last block. *)
Definition written (h : Prop) (data b : list Z) : Prop :=
  ∃ e wr, holds e e wr b ∧ (∃ d rest, data = d ++ rest ∧ padded es d wr) ∧
    (h → ∃ n, wr = data ++ replicate n 255 ∧ Z.of_nat n < es).
Lemma progress_end (h : Prop) data wr rest e b :
  holds e e wr b → progress h data wr rest → (h → rest = []) → written h data b.
Proof.
  intros Hho [(d & Hd & Hp) Hex] Hend. exists e, wr. split_and!; [done|by exists d, rest|].
  intros Hk. destruct (Hex Hk) as [Hw|[_ Hw]]; [|done]. exists 0%nat. rewrite (Hend Hk), app_nil_r in Hw.
  cbn. rewrite app_nil_r. split; [done|]. pose proof (es_small o i Hwf). lia.
Qed.

Lemma wp_write_round (h : Prop) data fuel x mtd s :
  (Z.to_nat (size_of o) * S max_retries + max_retries < fuel)%nat → writing h data x s →
  wp (write_round fuel ifd fd mtd false 0 x)
    (λ r s', match r with
       | inl x' => writing h data x' s' ∧ (Z.to_nat (size_of o - w_e x') < Z.to_nat (size_of o - w_e x))%nat
       | inr (again, x') => again = false ∧ w_replaced x' = false ∧ ∃ pos ipos b, at_write pos ipos b s' ∧ 0 ≤ ipos ∧
           (h → healthy (kern s')) ∧ written h data b
       end)
    (λ c s', c = 1 ∧ gave_up (kern s') ∧
       (h → (length (good_bytes o i 0 (size_of o)) < length data)%nat)) s.
Proof.
  intros Hfuel (w & e & raw & ipos & b & rest & wr & -> & Ha & Hd & Hho & Hpr & Hh).
  pose proof (es_small o i Hwf) as Hesr. unfold write_round.
  apply wp_bind. eapply wp_fill; [done|done|done|]. intros ipos1 s1 Ha1 Hd1 Hend.
  apply wp_bind, wp_get. cbn [w_raw]. 
  assert (∃ raw', (if raw =? 0 then set_raw (buflen (gl s1)) (Wvars w e 0 0 raw false (e - w))
    else Wvars w e 0 0 raw false (e - w)) = Wvars w e 0 0 raw' false (e - w)) as [raw' ->]
    by (destruct (raw =? 0); by eexists).
  pose proof (ho_range _ _ _ _ Hho) as He.
  destruct (Z.eqb_spec (buflen (gl s1)) 0) as [Hz|Hnz].
  { apply wp_ret. split_and!; [done|done|]. exists e, ipos1, b. split_and!; [done|by eapply hd_pos|intros Hk; by apply Hend, Hh|].
    eapply progress_end; [done|done|]. intros Hk. destruct (Hend (Hh Hk)) as [_ [?|Hge]]; [lia|].
    destruct (hd_buf _ _ _ Hd1) as (m & _ & _ & ->). rewrite Hz. cbn. apply drop_ge. unfold size_of in Hge. lia. }
  apply wp_bind. eapply wp_pad_buf; [done|done|done|].
  intros c s2 Hc Hcl Hrest Hkern Ha2 Hbuf Hbl. apply wp_bind, wp_get. cbn [w_skip Z.ltb Z.compare].
  rewrite (aw_jffs2 _ _ _ _ Ha2).
  assert (h → Z.of_nat (length c) = es ∨ drop (Z.to_nat ipos1) (o_bytes img) = []) as Hlast.
  { intros Hk. destruct (Hend (Hh Hk)) as [_ [?|Hge]]; [left; lia|right]. apply drop_ge. unfold size_of in Hge. lia. }
  subst rest. eapply wp_put_block; [done|done|apply length_pad_to; lia|done|done|..].
  - intros b' e' s' Hlt Ha' Hbuf' Hbl' Hho' Hh'. split; [|cbn; pose proof (ho_range _ _ _ _ Hho'); lia].
    eexists _, _, _, _, _, (drop (Z.to_nat ipos1) (o_bytes img)), _.
    split_and!; [done|done| |done|by apply progress_step|].
    + split; [|lia|by eapply hd_pos]. eexists. split_and!; [done|apply length_pad_to; lia|]. by rewrite Hbl'.
    + intros Hk. apply Hh'. rewrite Hkern. by apply Hend, Hh.
  - intros s' Hgu Hcount. split_and!; [done|done|]. intros Hk.
    rewrite <- Hcount by (rewrite Hkern; by apply Hend, Hh).
    destruct (pr_exact _ _ _ _ Hpr Hk) as [->|[Hnil _]].
    + rewrite !length_app. lia.
    + apply app_eq_nil in Hnil as [-> _]. cbn in Hc. lia.
Qed.

Lemma wp_write_rounds (h : Prop) data fuel x mtd s :
  (Z.to_nat (size_of o) * S max_retries + max_retries < fuel)%nat → writing h data x s →
  wp (loop fuel (write_round fuel ifd fd mtd false 0) x)
    (λ r s', r.1 = false ∧ w_replaced r.2 = false ∧ ∃ pos ipos b, at_write pos ipos b s' ∧ 0 ≤ ipos ∧
       (h → healthy (kern s')) ∧ written h data b)
    (λ c s', c = 1 ∧ gave_up (kern s') ∧
       (h → (length (good_bytes o i 0 (size_of o)) < length data)%nat)) s.
Proof.
  intros Hfuel Hx. apply (wp_loop (write_round fuel ifd fd mtd false 0) (writing h data)
    (λ x, Z.to_nat (size_of o - w_e x))); [|done|].
  - intros x1 s1 Hx1. eapply wp_mono; [by apply wp_write_round| |done].
    intros [x2|[again x2]] s2; [done|]. done.
  - destruct Hx as (w & e & raw & ipos & b & rest & wr & -> & _ & _ & Hho & _).
    pose proof (ho_range _ _ _ _ Hho). cbn [w_e]. nia.
Qed.

End run.

(** ** Properties *)

Section properties.
Context {Ar : Arch} {T : Target} {K : Type} `{KernelLaws K}.
Context (junk dig : list Z).
Context (o : object) (i : mtd_info) (Hwf : wf_device o i).

(** [mtd_write] of an image to one device, under a kernel that may fail at
    any call, with short and interrupted reads: it never runs off the buffer
    and always ends; when it returns 0 the good blocks from the start of the
    device on hold, in order, what could be read of the image (what
    [image_check] has left in the buffer, then the rest of the file), each
    piece padded with 0xff to a block, and under a healthy kernel the image as
    a whole; bad blocks, the blocks after the image and all other files are
    untouched, and both files are where they should be.  When it gives up it
    leaves status 1, bad blocks and other files are untouched, and unless the
    kernel failed the image is longer than the good blocks of the device. *)
Lemma wp_mtd_write name id iid ifd img ipos m fuel (s : state K) :
  let v := view (kern s) in
  let data := take (Z.to_nat (buflen (gl s))) m ++ drop (Z.to_nat ipos) (o_bytes img) in
  names v name id o i → 58 ∉ name → refers v ifd iid ipos img → 0 ≤ ipos → iid ≠ id →
  buf (gl s) = Some m → length m = Z.to_nat (mi_erasesize i) → 0 ≤ buflen (gl s) ≤ mi_erasesize i →
  no_erase (gl s) = false → jffs2file (gl s) = None → tpl_uboot_args_part (gl s) = None →
  (Z.to_nat (size_of o) * S max_retries + max_retries < fuel)%nat →
  wp (mtd_write junk dig fuel ifd name 0)
    (λ r s', r = 0 ∧ ∃ ipos' b, written o i (healthy (kern s)) data b ∧
       view (kern s') = set_fd ifd (Some (iid, ipos')) (set_obj id (with_bytes b o) v))
    (λ c s', c = 1 ∧ gave_up o i v id (kern s') ∧
       (healthy (kern s) → (length (good_bytes o i 0 (size_of o)) < length data)%nat)) s.
Proof.
  intros v data Hn Hcol [Hifd Himg] Hip Hids Hm Hlm Hbl Hne Hjf Htpl Hfuel.
  pose proof (es_small o i Hwf) as Hesr. pose proof (wd_range _ _ Hwf) as Hrange.
  pose proof (nm_obj _ _ _ _ _ Hn) as Hobj. unfold mtd_write. rewrite split_colon_one by done.
  cbn [write_devices]. apply wp_bind, wp_bind. apply (wp_check_open name id o i); [done|..].
  { intros k Hv Hk. rewrite (proj2 (Z.ltb_lt (-1) 0)) by done. apply wp_exit. split_and!; [done| |done].
    exists (o_bytes o). rewrite with_bytes_id, insert_id by done. cbn. rewrite Hv. split_and!; [done|done|by intros x]. }
  intros fd k1 Hfd Hfree Hv1 Hh1. rewrite (proj2 (Z.ltb_ge fd 0)) by done.
  rewrite !s32_small by (rewrite ?(wd_size _ _ Hwf); lia). rewrite (wd_size _ _ Hwf).
  cbn [Z.ltb Z.compare]. apply wp_bind, wp_ret. unfold tpl_flag. apply wp_bind, wp_bind, wp_get.
  cbn [gl tpl_uboot_args_part set_info]. rewrite Htpl. apply wp_ret.
  rewrite bool_decide_eq_true_2 by done. cbn [negb set_we w_skip w_offset w_raw w_replaced w_bad].
  assert (ifd ≠ fd) as Hfds by (intros Heq; unfold v in Hifd; congruence).
  assert (writing o i v id iid ifd fd img (healthy (kern s)) data (Wvars 0 0 0 0 0 false 0)
    (State k1 (set_info (size_of o) (mi_erasesize i) (mi_type i) (gl s)))) as Hstart.
  { exists 0, 0, 0, ipos, (o_bytes o), data, []. split_and!; [done| | | | |done].
    - split; cbn; try done. rewrite Hv1. unfold wview. rewrite with_bytes_id, set_obj_id by done.
      rewrite set_fd_comm by done. f_equal. by rewrite set_fd_id.
    - split; cbn; [|done|done]. by exists m.
    - split; [lia|by exists 0|done|done|by intros x].
    - split; [exists []; split; [done|apply padded_nil]|]. intros _. by left. }
  apply wp_bind. eapply wp_mono; [eapply (wp_write_rounds o i Hwf v id iid ifd fd img); done|..|].
  - intros [again x] s2 (Hag & Hrep & pos & ip & b & Ha & Hip2 & Hh2 & Hw). cbn in Hag, Hrep. subst again.
    apply wp_ret. rewrite Hrep. apply wp_bind, wp_ret, wp_bind, wp_sys_close. cbn [kern gl].
    intros k3 Hv3 _. apply wp_bind, wp_bind, wp_get. cbn [gl]. rewrite (aw_tpl _ _ _ _ _ _ _ _ _ _ _ Ha).
    apply wp_ret, wp_ret. split; [done|]. exists ip, b. split; [done|]. cbn [kern].
    rewrite Hv3, (aw_view _ _ _ _ _ _ _ _ _ _ _ Ha). by apply wview_close.
  - intros c s2 (-> & Hgu & Hwhy). done.
Qed.

End properties.
End MtdWriteProps.
