(* ===== verification/MtdMain.v ===== *)
(** * The command line of mtd (package/system/mtd/src/mtd.c)

    [main]: the options, the command, the devices to erase first, and the
    command's function.  What [getopt] has found is an argument: the option
    letters with their arguments, in order, and the words that are left. *)

From S2P Require Import Prelude CLib Mtd MtdJffs2 MtdTrx MtdFix MtdTarget MtdWrite.
Import Mtd.
Open Scope Z_scope.
Open Scope cint_scope.

Module MtdMain.

Definition MAX_ARGS : nat := 8.

Inductive command :=
  | CMD_ERASE | CMD_WRITE | CMD_UNLOCK | CMD_JFFS2WRITE | CMD_FIXTRX | CMD_FIXSEAMA
  | CMD_FIXWRG | CMD_FIXWRGG | CMD_VERIFY | CMD_DUMP | CMD_RESETBC.

(** The local variables that options set. *)
Record options := Options {
  op_force : bool;
  op_boot : bool;
  op_erase : list (list Z);
  op_offset : Z;
  op_data_size : Z;
  op_part_offset : Z;
  op_dump_len : Z
}.
Definition no_options : options := Options false false [] 0 0 0 0.

Section main.
Context {Ar : Arch} {T : Target} {K : Type} `{Kernel K}.
Context (junk dig : list Z).
Context {md5_ctx : Type} (md5sum : list Z → K → option (list Z) * K) (md5_begin : md5_ctx)
  (md5_hash : list Z → md5_ctx → md5_ctx) (md5_end : md5_ctx → list Z).
(** [do_reboot]: it runs /sbin/reboot, and asks the kernel if that returns. *)
Context (do_reboot : K → K).

Definition usage {A} : M K A := exit_ 1.
Definition modify (f : globals → globals) : M K unit := g ← get; put (f g).

(** "errno = 0; strtoul(optarg, 0, 0); if (errno) usage();" *)
Definition number (arg : list Z) : M K Z :=
  if strtoul_erange arg 0 then usage else mret (strtoul arg 0).1.

(** One option; letters are ASCII codes. *)
Definition option_ (o : options) (ch : Z) (optarg : list Z) : M K options :=
  let '(Options force boot erase offset data_size part_offset dump_len) := o in
  if ch =? 102 (* f *) then mret (Options true boot erase offset data_size part_offset dump_len)
  else if ch =? 114 (* r *) then mret (Options force true erase offset data_size part_offset dump_len)
  else if ch =? 110 (* n *) then _ ← modify set_no_erase; mret o
  else if ch =? 106 (* j *) then _ ← modify (set_jffs2file (Some optarg)); mret o
  else if ch =? 115 (* s *) then n ← number optarg; _ ← modify (set_skip_bytes (s32 n)); mret o
  else if ch =? 113 (* q *) then mret o
  else if ch =? 101 (* e *) then
    (* the list is closed with a NULL *)
    if decide (S (length erase) < MAX_ARGS)%nat
    then mret (Options force boot (erase ++ [optarg]) offset data_size part_offset dump_len)
    else lift (Fault OutOfBounds)
  else if ch =? 100 (* d *) then _ ← modify (set_jffs2dir optarg); mret o
  else if ch =? 112 (* p *) then
    n ← number optarg; mret (Options force boot erase offset data_size n dump_len)
  else if ch =? 108 (* l *) then
    n ← number optarg; mret (Options force boot erase offset data_size part_offset n)
  else if ch =? 77 (* M *) then n ← number optarg; _ ← modify (set_trxmagic (u32 n)); mret o
  else if ch =? 111 (* o *) then
    n ← number optarg; mret (Options force boot erase n data_size part_offset dump_len)
  else if ch =? 99 (* c *) then
    n ← number optarg; mret (Options force boot erase offset n part_offset dump_len)
  else if ch =? 116 (* t *) then _ ← modify (set_tpl (Some optarg)); mret o
  else usage.
Fixpoint parse_options (o : options) (opts : list (Z * list Z)) : M K options :=
  match opts with
  | [] => mret o
  | (ch, optarg) :: opts => o ← option_ o ch optarg; parse_options o opts
  end.

(** What comes before "write" and "jffs2write" touch anything. *)
Definition check_device (device : list Z) : M K unit :=
  ok ← mtd_check device;
  if ok =? 0 then exit_ 1 else mret tt.
Definition open_image (force : bool) (file device : list Z) : M K Z :=
  imagefd ← (if bool_decide (file = cs "-") then mret 0
             else
               fd ← sys (k_open_ro file);
               if fd <? 0 then exit_ 1 else mret fd);
  _ ← check_device device;
  ok ← MtdWrite.image_check imagefd device;
  if (ok =? 0) && negb force then exit_ 1 else mret imagefd.

(** The command, [imagefd], [imagefile] and [device]. *)
Definition parse_command (force : bool) (argv : list (list Z)) : M K (command * Z * list Z * list Z) :=
  match argv with
  | [c; device] =>
      if bool_decide (c = cs "unlock") then mret (CMD_UNLOCK, 0, [], device)
      else if bool_decide (c = cs "erase") then mret (CMD_ERASE, 0, [], device)
      else if bool_decide (c = cs "resetbc") && has_resetbc then mret (CMD_RESETBC, 0, [], device)
      else if bool_decide (c = cs "fixtrx") && has_trx then mret (CMD_FIXTRX, 0, [], device)
      else if bool_decide (c = cs "fixseama") && has_seama then mret (CMD_FIXSEAMA, 0, [], device)
      else if bool_decide (c = cs "fixwrg") && has_wrg then mret (CMD_FIXWRG, 0, [], device)
      else if bool_decide (c = cs "fixwrgg") && has_wrgg then mret (CMD_FIXWRGG, 0, [], device)
      else if bool_decide (c = cs "dump") then mret (CMD_DUMP, 0, [], device)
      else usage
  | [c; file; device] =>
      if bool_decide (c = cs "verify") then mret (CMD_VERIFY, 0, file, device)
      else if bool_decide (c = cs "write") then
        imagefd ← open_image force file device;
        mret (CMD_WRITE, imagefd, file, device)
      else if bool_decide (c = cs "jffs2write") then
        _ ← check_device device;
        mret (CMD_JFFS2WRITE, 0, file, device)
      else usage
  | _ => usage
  end.

(** The devices of "-e"; was the device of the command one of them? *)
Fixpoint erase_first (fuel : nat) (device : list Z) (l : list (list Z)) (unlocked : bool) : M K bool :=
  match l with
  | [] => mret unlocked
  | e :: l =>
      _ ← mtd_unlock e;
      _ ← mtd_erase fuel e;
      erase_first fuel device l (if bool_decide (e = device) then true else unlocked)
  end.

Definition unlock_device (unlocked : bool) (device : list Z) : M K unit :=
  if unlocked then mret tt else _ ← mtd_unlock device; mret tt.

Definition run_command (fuel : nat) (cmd : command) (o : options) (unlocked : bool) (imagefd : Z)
    (imagefile device : list Z) : M K unit :=
  match cmd with
  | CMD_UNLOCK => unlock_device unlocked device
  | CMD_VERIFY =>
      _ ← MtdWrite.mtd_verify md5sum md5_begin md5_hash md5_end fuel device imagefile; mret tt
  | CMD_DUMP => _ ← MtdWrite.mtd_dump fuel device (s32 (op_offset o)) (s32 (op_dump_len o)); mret tt
  | CMD_ERASE =>
      _ ← unlock_device unlocked device;
      _ ← mtd_erase fuel device;
      mret tt
  | CMD_WRITE =>
      _ ← unlock_device unlocked device;
      _ ← MtdWrite.mtd_write junk dig fuel imagefd device (op_part_offset o);
      mret tt
  | CMD_JFFS2WRITE =>
      _ ← unlock_device unlocked device;
      g ← get;
      _ ← MtdJffs2.mtd_write_jffs2 fuel device imagefile (jffs2dir g);
      mret tt
  | CMD_FIXTRX => _ ← MtdTrx.mtd_fixtrx device (op_offset o) (op_data_size o); mret tt
  | CMD_RESETBC => _ ← MtdTarget.mtd_resetbc device; mret tt
  | CMD_FIXSEAMA => _ ← MtdFix.mtd_fixseama junk dig device 0 (op_data_size o); mret tt
  | CMD_FIXWRG => _ ← MtdFix.mtd_fixwrg junk dig device 0 (op_data_size o); mret tt
  | CMD_FIXWRGG => _ ← MtdFix.mtd_fixwrgg junk dig device 0 (op_data_size o); mret tt
  end.

Definition main (fuel : nat) (opts : list (Z * list Z)) (argv : list (list Z)) : M K Z :=
  o ← parse_options no_options opts;
  '(cmd, imagefd, imagefile, device) ← parse_command (op_force o) argv;
  unlocked ← erase_first fuel device (op_erase o) false;
  _ ← run_command fuel cmd o unlocked imagefd imagefile device;
  _ ← (if op_boot o then sys_ do_reboot else mret tt);
  mret 0.

End main.
End MtdMain.
