(* ===== verification/MtdMainProps.v ===== *)
(** * The command "mtd write"

    The check of the image, and the whole command: options, checks, unlocking
    and writing. *)

From S2P Require Import Prelude CLib Mtd MtdKernel MtdSim MtdDev MtdTrx MtdTrxProps MtdWrite MtdWriteProps MtdMain.
Import Mtd MtdKernel MtdSim MtdDev MtdWrite MtdWriteProps MtdMain.
Open Scope Z_scope.
Open Scope cint_scope.

Module MtdMainProps.

Section run.
Context {Ar : Arch} {T : Target} {K : Type} `{KernelLaws K}.
Context (o : object) (i : mtd_info) (Hwf : wf_device o i) (Hes : 32 ≤ mi_erasesize i).
Context (v : kview) (id iid : Z) (img : object) (device : list Z).
Context (Hn : names v device id o i) (Himg : v_obj v !! iid = Some img) (Hids : iid ≠ id)
  (Hcolon : 58 ∉ device) (Hbytes : bytes_wf (o_bytes img)).
Abbreviation es := (mi_erasesize i).
Implicit Types s : state K.

(** ** Accepted images *)

(** The format of an image, by its first word. *)
Definition format_of (trxmagic : Z) (w : list Z) : image_format :=
  if be_val w =? trxmagic then IF_TRX
  else if be_val w =? SEAMA_MAGIC then IF_SEAMA
  else if le_val w =? WRG_MAGIC then IF_WRG
  else if le_val w =? WRGG03_MAGIC then IF_WRGG03 else IF_UNKNOWN.

(** An image for the device "firmware" has to have a format that is known, on
    the Broadcom targets, and a TRX image has to fit. *)
Definition trx_fits (bytes : list Z) : Prop :=
  32 ≤ Z.of_nat (length bytes) ∧ MtdTrx.sizeof_trx_header ≤ u32_of (range bytes 4 4) ≤ size_of o.
Definition image_ok (trxmagic : Z) (bytes : list Z) : Prop :=
  4 ≤ Z.of_nat (length bytes) ∧
  (device = cs "firmware" →
   match format_of trxmagic (range bytes 0 4) with
   | IF_TRX => has_trx = true → trx_fits bytes
   | IF_UNKNOWN => target_brcm = false
   | _ => True
   end).
Lemma format_trx trxmagic w : format_of trxmagic w = IF_TRX → be_val w = trxmagic.
Proof. unfold format_of. intros E. repeat case_match; try done. by apply Z.eqb_eq. Qed.
(** Is the header of the image read again, in one piece? *)
Definition trx_checked (trxmagic : Z) (bytes : list Z) : Prop :=
  device = cs "firmware" ∧ has_trx = true ∧ format_of trxmagic (range bytes 0 4) = IF_TRX.

(** Can a [read] of the image be interrupted? *)
Definition interrupted : Prop := max_retries ≠ 0%nat ∧ whole_reads = false.
(** Why an image that is accepted otherwise can be refused by a kernel that does
    not fail: a [read] is interrupted, or the header comes in pieces. *)
Definition in_pieces (trxmagic : Z) (bytes : list Z) : Prop :=
  whole_reads = false ∧ (trx_checked trxmagic bytes ∨ max_retries ≠ 0%nat).

(** ** The state before the command's function runs *)

(** The image is open as [ifd], and read up to what is in the buffer. *)
Record image_read (ifd : Z) (g0 : globals) (s : state K) : Prop := {
  ir_view : ∃ ipos, view (kern s) = set_fd ifd (Some (iid, ipos)) v ∧ 0 ≤ ipos ∧
    match buf (gl s) with
    | Some m => length m = Z.to_nat es ∧
        take (Z.to_nat (buflen (gl s))) m ++ drop (Z.to_nat ipos) (o_bytes img) = o_bytes img
    | None => ipos = 0 ∧ buflen (gl s) = 0
    end;
  ir_len : 0 ≤ buflen (gl s) ≤ es;
  ir_erase : no_erase (gl s) = no_erase g0;
  ir_jffs2 : jffs2file (gl s) = jffs2file g0;
  ir_tpl : tpl_uboot_args_part (gl s) = tpl_uboot_args_part g0;
  ir_magic : opt_trxmagic (gl s) = opt_trxmagic g0;
  ir_format : imageformat (gl s) = imageformat g0
}.

Lemma names_set_fd fd x : names (set_fd fd x v) device id o i.
Proof. destruct Hn as [Hr Ho Hb Hi]. by split. Qed.
Lemma view_reopened fd k ifd x :
  v_fd (set_fd ifd x v) !! fd = None → view k = set_fd fd None (set_fd fd (Some (id, 0)) (set_fd ifd x v)) →
  view k = set_fd ifd x v.
Proof. intros Hf ->. by apply set_fd_undo. Qed.

(** ** [mtd_check], [mtd_unlock] *)

Lemma wp_mtd_check ifd g0 s Q E :
  image_read ifd g0 s → buf (gl s) = None →
  (∀ r s', image_read ifd g0 s' → buflen (gl s') = buflen (gl s) →
     (healthy (kern s) → healthy (kern s') ∧ r = 1 ∧ is_Some (buf (gl s'))) → Q r s') →
  wp (mtd_check device) Q E s.
Proof.
  intros [(ipos & Hv & Hp & Hb) Hl] Hbuf HQ. unfold mtd_check. rewrite split_colon_one by done.
  pose proof (es_small o i Hwf) as Hesr. pose proof (wd_range _ _ Hwf) as Hrange.
  rewrite Hbuf in Hb. destruct Hb as [-> Hz].
  cbn [mtd_check_list]. apply wp_bind, (wp_check_open device id o i); [rewrite Hv; apply names_set_fd|..].
  { intros k Hk Hnh. rewrite (proj2 (Z.ltb_lt (-1) 0)) by done. apply wp_ret, HQ; [|done|done].
    split; try done. exists 0. cbn. rewrite Hk, Hbuf. done. }
  intros fd k1 Hfd Hfree Hv1 Hh1. rewrite (proj2 (Z.ltb_ge fd 0)) by done. rewrite Hv in Hfree, Hv1.
  rewrite !s32_small by (rewrite ?(wd_size _ _ Hwf); lia).
  apply wp_bind, wp_get, wp_bind. cbn [gl buf set_info erasesize]. rewrite Hbuf.
  apply wp_bind, wp_sys_malloc. cbn [kern gl]. intros mem k2 Hv2 Hmem Hh2. apply wp_put. cbn [kern].
  apply wp_bind, wp_sys_close. cbn [kern gl]. intros k3 Hv3 Hh3. apply wp_ret. rewrite Hv2, Hv1 in Hv3.
  apply view_reopened in Hv3; [|done]. apply HQ; [|done|].
  - split; try done; cbn. exists 0. split_and!; [done|done|]. destruct mem as [m|]; [|done].
    rewrite size_t_small in Hmem by lia. split; [by apply Hmem|]. by rewrite Hz.
  - cbn. intros Hk. destruct (Hh2 (Hh1 Hk)) as [? ?]. auto.
Qed.

Lemma wp_mtd_unlock ifd g0 s Q E :
  image_read ifd g0 s →
  (∀ r s', image_read ifd g0 s' → buf (gl s') = buf (gl s) → (healthy (kern s) → healthy (kern s')) → Q r s') →
  (∀ s', image_read ifd g0 s' → ¬ healthy (kern s) → E 1 s') →
  wp (mtd_unlock device) Q E s.
Proof.
  intros [(ipos & Hv & Hp & Hb) Hl] HQ HE. apply (wp_unlock_device o i Hwf device id); [rewrite Hv; apply names_set_fd|done|..].
  - intros r k Hk Hh. apply HQ; [|done|done]. split; try done; cbn. exists ipos. by rewrite Hk.
  - intros k Hk Hnh. apply HE; [|done]. split; try done; cbn. exists ipos. by rewrite Hk.
Qed.

(** ** [image_check] *)

Lemma wp_magic_step ifd g0 s :
  image_read ifd g0 s →
  wp (magic_step ifd tt)
    (λ r s', image_read ifd g0 s' ∧ (is_Some (buf (gl s)) → is_Some (buf (gl s'))) ∧
       match r with
       | inl _ => (Z.to_nat (4 - buflen (gl s')) < Z.to_nat (4 - buflen (gl s)))%nat ∧
                  (healthy (kern s) → healthy (kern s'))
       | inr _ => healthy (kern s) → healthy (kern s') ∧
                  (is_Some (buf (gl s)) → 4 ≤ buflen (gl s') ∨ size_of img < 4 ∨ interrupted)
       end) (λ _ _, False) s.
Proof.
  intros Hir. pose proof Hir as [(ipos & Hv & Hp & Hb) Hl]. unfold magic_step.
  apply wp_bind, wp_get. destruct (Z.ltb_spec (buflen (gl s)) 4) as [Hlt|Hge].
  2: { apply wp_ret. split_and!; [done|done|]. intros Hk. split; [done|]. by left. }
  destruct (buf (gl s)) as [m|] eqn:Hm.
  2: { apply wp_bind. unfold read_buf. apply wp_bind, wp_get. rewrite Hm. apply wp_ret, wp_ret.
       split_and!; [done|done|]. intros Hk. split; [done|]. by intros []. }
  destruct Hb as [Hlm Hdata]. apply wp_bind.
  assert (refers (view (kern s)) ifd iid ipos img) as Hr by (rewrite Hv; by apply refers_set_fd).
  apply (wp_read_buf i iid ifd img (4 - buflen (gl s)) m ipos); [done|done|lia|lia|lia|done|done|..].
  - intros e k Hvk Hret Hh. apply wp_ret. split_and!; [|cbn; by rewrite Hm|].
    + split; try done. exists ipos. cbn. rewrite Hvk, Hm. done.
    + intros Hk. destruct (Hh Hk) as (? & Hr' & Hpart). split; [done|]. intros _. right. right. split; [|done].
      specialize (Hret Hr'). pose proof (law_retries (kern s)). lia.
  - intros c m' k Hvk Hc Hz Hlm' Hrest Hh. rewrite Hv, set_fd_twice in Hvk.
    set (s' := State k _). assert (image_read ifd g0 s') as Hir'.
    { split; cbn; try done; [|lia]. exists (ipos + c). rewrite Hvk, Hrest. split_and!; [done|lia|done|done]. }
    destruct (Z.ltb_spec c 1) as [Hc1|Hc1]; apply wp_ret; (split; [done|split; [done|]]).
    + intros Hk. split; [by apply Hh|]. intros _. right. assert (c = 0) as -> by lia.
      specialize (Hz eq_refl ltac:(lia)). left. apply (f_equal length) in Hdata. revert Hdata. unfold size_of in *.
      rewrite length_app, length_take, length_drop. lia.
    + split; [cbn; lia|done].
Qed.

Lemma wp_magic_loop ifd g0 s Q E :
  image_read ifd g0 s → buflen (gl s) = 0 →
  (∀ s', image_read ifd g0 s' → (is_Some (buf (gl s)) → is_Some (buf (gl s'))) →
     (healthy (kern s) → healthy (kern s') ∧
        (is_Some (buf (gl s)) → 4 ≤ buflen (gl s') ∨ size_of img < 4 ∨ interrupted)) → Q tt s') →
  wp (loop 5 (magic_step ifd) tt) Q E s.
Proof.
  intros Hir Hz HQ. set (I := λ (_ : unit) s', image_read ifd g0 s' ∧ (is_Some (buf (gl s)) → is_Some (buf (gl s'))) ∧
    (healthy (kern s) → healthy (kern s'))).
  apply (wp_loop_state (magic_step ifd) I (λ _ s', Z.to_nat (4 - buflen (gl s')))).
  - intros [] s1 (Hir1 & Hsome1 & Hh1). eapply wp_mono; [by eapply wp_magic_step| |done].
    intros [[]|[]] s2 (Hir2 & Hsome2 & Hr).
    + destruct Hr as [Hm Hh2]. split; [|done]. split_and!; auto.
    + apply HQ; [done|auto|]. intros Hk. destruct (Hr (Hh1 Hk)) as [? Hb]. auto.
  - done.
  - lia.
Qed.

(** The bytes in the buffer are the first ones of the image. *)
Lemma buffer_prefix ifd g0 s m x n :
  image_read ifd g0 s → buf (gl s) = Some m → 0 ≤ x → 0 ≤ n → x + n ≤ buflen (gl s) →
  mread m (Z.to_nat x) (Z.to_nat n) = Ret (range (o_bytes img) x n) ∧ buflen (gl s) ≤ size_of img.
Proof.
  intros [(ipos & Hv & Hp & Hb) Hl] Hm Hx Hnn Hle. rewrite Hm in Hb. destruct Hb as [Hlm Hd].
  split.
  - unfold mread. rewrite decide_True by lia. f_equal. unfold range. rewrite <- Hd.
    rewrite drop_app_le by (rewrite length_take; lia). rewrite take_app_le by (rewrite length_drop, length_take; lia).
    rewrite skipn_firstn_comm, take_take. f_equal. lia.
  - apply (f_equal length) in Hd. revert Hd. unfold size_of. rewrite length_app, length_take. lia.
Qed.

(** What the header says, once 32 bytes are there. *)
Lemma trx_header ifd g0 s m :
  image_read ifd g0 s → buf (gl s) = Some m → 32 ≤ buflen (gl s) →
  MtdTrx.field32 m MtdTrx.trx_magic = Ret (u32_of (range (o_bytes img) 0 4)) ∧
  MtdTrx.field32 m MtdTrx.trx_len = Ret (u32_of (range (o_bytes img) 4 4)) ∧ 32 ≤ size_of img.
Proof.
  intros Hir Hm Hl. destruct (buffer_prefix ifd g0 s m 0 4) as [H1 Hsz]; [done|done|lia..|].
  destruct (buffer_prefix ifd g0 s m 4 4) as [H2 _]; [done|done|lia..|]. unfold MtdTrx.field32.
  change MtdTrx.trx_magic with 0. change MtdTrx.trx_len with 4. change (Z.to_nat 4) with 4%nat in *.
  rewrite H1, H2. split_and!; [done|done|lia].
Qed.

(** The state with a buffer that [trx_check] has filled further. *)
Definition with_buf (m : list Z) (len : Z) (s : state K) : state K :=
  State (kern s) (set_buf (Some m) len (gl s)).

(** The test of the header, and of the size of the device. *)
Lemma wp_trx_test ifd g0 s m len Q E :
  image_read ifd g0 (with_buf m len s) → 32 ≤ len →
  be_val (range (o_bytes img) 0 4) = opt_trxmagic g0 →
  (∀ s', v_obj (view (kern s')) = v_obj v → ¬ trx_fits (o_bytes img) → Q (0, m, len) s') →
  (∀ s', image_read ifd g0 (with_buf m len s') → trx_fits (o_bytes img) →
     (healthy (kern s) → healthy (kern s')) → Q (1, m, len) s') →
  (∀ s', v_obj (view (kern s')) = v_obj v → ¬ healthy (kern s) → E 1 s') →
  wp (g ← get;
      magic ← lift (MtdTrx.field32 m MtdTrx.trx_magic);
      n ← lift (MtdTrx.field32 m MtdTrx.trx_len);
      if negb (ntohl magic =? opt_trxmagic g) || (n <? MtdTrx.sizeof_trx_header) then mret (0, m, len)
      else
        fd ← mtd_check_open device;
        if fd <? 0 then exit_ 1
        else
          g ← get;
          _ ← sys_ (k_close fd);
          if u32 (mtdsize g) <? n then mret (0, m, len) else mret (1, m, len)) Q E s.
Proof.
  intros Hir Hl Hmagic HQ0 HQ1 HE. pose proof Hir as [(ipos & Hv & Hp & Hb) Hlen]. cbn in Hv, Hb.
  destruct (trx_header ifd g0 (with_buf m len s) m) as (H1 & H2 & Hsz); [done..|].
  pose proof (es_small o i Hwf) as Hesr. pose proof (wd_range _ _ Hwf) as Hrange.
  apply wp_bind, wp_get. eapply wp_bind, wp_lift; [done|]. eapply wp_bind, wp_lift; [done|].
  assert (ntohl (u32_of (range (o_bytes img) 0 4)) = opt_trxmagic (gl s)) as ->.
  { rewrite ntohl_of; [|by apply Forall_take, Forall_drop|by rewrite length_range by (unfold size_of in Hsz; lia)].
    rewrite Hmagic. symmetry. apply (ir_magic _ _ _ Hir). }
  rewrite Z.eqb_refl. cbn [negb orb]. destruct (Z.ltb_spec (u32_of (range (o_bytes img) 4 4)) MtdTrx.sizeof_trx_header) as [Hn28|Hn28].
  { apply wp_ret, HQ0; [by rewrite Hv|]. intros [_ ?]. lia. }
  apply wp_bind, (wp_check_open device id o i); [rewrite Hv; apply names_set_fd|..].
  { intros k Hk Hnh. rewrite (proj2 (Z.ltb_lt (-1) 0)) by done. apply wp_exit, HE; [cbn; by rewrite Hk, Hv|done]. }
  intros fd k1 Hfd Hfree Hv1 Hh1. rewrite (proj2 (Z.ltb_ge fd 0)) by done. rewrite Hv in Hfree, Hv1.
  apply wp_bind, wp_get, wp_bind, wp_sys_close. cbn [kern gl mtdsize set_info]. intros k3 Hv3 Hh3.
  rewrite Hv1 in Hv3. apply view_reopened in Hv3; [|done].
  rewrite !s32_small by (rewrite ?(wd_size _ _ Hwf); lia). rewrite (wd_size _ _ Hwf), u32_small by lia.
  destruct (Z.ltb_spec (size_of o) (u32_of (range (o_bytes img) 4 4))) as [Hbig|Hfit]; apply wp_ret.
  - apply HQ0; [cbn; by rewrite Hv3|]. intros [_ ?]. lia.
  - apply HQ1; [|split; [unfold size_of in Hsz; lia|lia]|cbn; auto].
    split; try done; cbn; [by exists ipos|apply Hir..].
Qed.

Lemma wp_trx_check ifd g0 s m Q E :
  image_read ifd g0 s → buf (gl s) = Some m → 4 ≤ buflen (gl s) →
  be_val (range (o_bytes img) 0 4) = opt_trxmagic g0 →
  (device = cs "firmware" → ∀ len m' s', v_obj (view (kern s')) = v_obj v →
     (healthy (kern s) → whole_reads = true → ¬ trx_fits (o_bytes img)) → Q (0, m', len) s') →
  (∀ len m' s', image_read ifd g0 (with_buf m' len s') → (device = cs "firmware" → trx_fits (o_bytes img)) →
     (healthy (kern s) → healthy (kern s')) → Q (1, m', len) s') →
  (∀ s', v_obj (view (kern s')) = v_obj v → ¬ healthy (kern s) → E 1 s') →
  wp (MtdTrx.trx_check ifd device m (buflen (gl s))) Q E s.
Proof.
  intros Hir Hm Hl Hmagic HQ0 HQ1 HE. pose proof Hir as [(ipos & Hv & Hp & Hb) Hlen].
  rewrite Hm in Hb. destruct Hb as [Hlm Hd].
  assert (image_read ifd g0 (with_buf m (buflen (gl s)) s)) as Hir0 by (split; try apply Hir; by exists ipos).
  unfold MtdTrx.trx_check. case_bool_decide as Hfw; cbn [negb]; [|by apply wp_ret, HQ1].
  specialize (HQ0 Hfw). apply wp_bind. destruct (Z.ltb_spec (buflen (gl s)) 32) as [Hlt|Hge].
  - assert (refers (view (kern s)) ifd iid ipos img) as Hr by (rewrite Hv; by apply refers_set_fd).
    rewrite size_t_small by lia. apply wp_bind, (wp_sys_read ifd (32 - buflen (gl s)) iid ipos img); [done|lia|lia|..].
    + intros e k Hvk _ Hpart. apply wp_ret. rewrite (proj2 (Z.ltb_lt _ _)) by lia. apply wp_ret, HQ0.
      { cbn. by rewrite Hvk, Hv. }
      intros Hk Hw. destruct (Hpart Hk) as (_ & _ & ?). congruence.
    + intros bs k Hbs Hle _ Hvk Hh.
      destruct (read_more img m (Z.to_nat (buflen (gl s))) ipos bs) as (m' & Hw & Hlm' & Hrest); [done|lia|done|].
      eapply wp_bind, wp_lift; [done|]. apply wp_ret.
      rewrite Hv, set_fd_twice in Hvk.
      destruct (Z.ltb_spec (buflen (gl s) + Z.of_nat (length bs)) 32) as [Hs|Hs].
      { apply wp_ret, HQ0; [cbn; by rewrite Hvk|]. intros Hk Hwr [H32 _].
        destruct (Hh Hk) as [_ Hall]. specialize (Hall Hwr). apply (f_equal length) in Hd, Hall. revert Hd Hall.
        unfold range. rewrite !length_app, !length_take, !length_drop. lia. }
      eapply wp_trx_test; [|done|done|intros; by apply HQ0| |].
      * split; try apply Hir; cbn; [|lia]. exists (ipos + Z.of_nat (length bs)). split_and!; [done|lia|lia|].
        etrans; [|exact Hd]. rewrite <- Hrest. do 2 f_equal. lia.
      * cbn. intros s' Hir' Hfit Hh'. apply HQ1; [done..|]. intros Hk. apply Hh'. by apply Hh.
      * cbn. intros s' Hvo Hnh. apply HE; [done|]. intros Hk. apply Hnh. by apply Hh.
  - apply wp_ret. rewrite (proj2 (Z.ltb_ge _ _)) by lia.
    eapply wp_trx_test; [done|done|done|intros; by apply HQ0| |done].
    intros s' Hir' Hfit Hh'. by apply HQ1.
Qed.

(** An image that is let through is one of the good ones; one that is not is
    bad, unless a [read] was interrupted or a TRX header came in pieces. *)
Lemma wp_image_check ifd g0 s Q E :
  image_read ifd g0 s → imageformat g0 = IF_UNKNOWN → buflen (gl s) = 0 →
  (∀ s', v_obj (view (kern s')) = v_obj v →
     (healthy (kern s) → is_Some (buf (gl s)) →
        ¬ image_ok (opt_trxmagic g0) (o_bytes img) ∨ in_pieces (opt_trxmagic g0) (o_bytes img)) →
     Q 0 s') →
  (∀ f s', image_read ifd (set_format f g0) s' → is_Some (buf (gl s')) → image_ok (opt_trxmagic g0) (o_bytes img) →
     (healthy (kern s) → healthy (kern s')) → Q 1 s') →
  (∀ s', v_obj (view (kern s')) = v_obj v → ¬ healthy (kern s) → E 1 s') →
  wp (image_check ifd device) Q E s.
Proof.
  intros Hir Hf0 Hz HQ0 HQ1 HE. unfold image_check. apply wp_bind. eapply wp_magic_loop; [done|done|].
  intros s1 Hir1 Hsome1 Hend. pose proof Hir1 as [(ipos & Hv & Hp & Hb) Hlen]. apply wp_bind, wp_get.
  assert (v_obj (view (kern s1)) = v_obj v) as Hvo by (by rewrite Hv).
  destruct (Z.ltb_spec (buflen (gl s1)) 4) as [Hlt|Hge].
  { apply wp_ret, HQ0; [done|]. intros Hk Hs. destruct (Hend Hk) as [_ Hwhy].
    destruct (Hwhy Hs) as [?|[Hsz|[??]]]; [lia| |right; split; auto]. left. intros [H4 _]. unfold size_of in Hsz. lia. }
  destruct (buf (gl s1)) as [m|] eqn:Hm; [|lia]. unfold get_buf. apply wp_bind, wp_bind, wp_get.
  rewrite Hm. eapply wp_lift; [done|].
  destruct (buffer_prefix ifd g0 s1 m 0 4) as [Hw Hsz]; [done|done|lia..|]. change (Z.to_nat 4) with 4%nat in Hw.
  eapply wp_bind, wp_lift; [exact Hw|]. rewrite (ir_format _ _ _ Hir1), Hf0, (ir_magic _ _ _ Hir1).
  fold (format_of (opt_trxmagic g0) (range (o_bytes img) 0 4)).
  set (f := format_of (opt_trxmagic g0) (range (o_bytes img) 0 4)).
  apply wp_bind, wp_put. cbn [kern]. set (s2 := State (kern s1) (set_format f (gl s1))).
  assert (image_read ifd (set_format f g0) s2) as Hir2.
  { split; try apply Hir1; done. }
  assert ((device = cs "firmware" → match f with
     | IF_TRX => has_trx = true → trx_fits (o_bytes img) | IF_UNKNOWN => target_brcm = false | _ => True end) →
    image_ok (opt_trxmagic g0) (o_bytes img)) as Hok.
  { intros Hok. split; [unfold size_of in Hsz; lia|done]. }
  assert (∀ s', s' = s2 → image_ok (opt_trxmagic g0) (o_bytes img) → Q 1 s') as Hpass.
  { intros s' -> ?. apply (HQ1 f); [done|cbn; by rewrite Hm|done|]. intros Hk. by apply Hend. }
  destruct f eqn:Ef; cbv iota.
  - destruct target_brcm eqn:Ebr; cbn [andb]; [|apply wp_ret, Hpass; auto].
    case_bool_decide as Hfw; apply wp_ret; [|apply Hpass; [done|]; apply Hok; intros ?; by destruct Hfw].
    apply HQ0; [done|]. intros _ _. left. intros [_ Hno]. specialize (Hno Hfw). fold f in Hno. rewrite Ef in Hno; congruence.
  - destruct has_trx eqn:Etrx; [|apply wp_ret, Hpass; [done|]; apply Hok; done].
    assert (be_val (range (o_bytes img) 0 4) = opt_trxmagic g0) as Hbe by (by apply format_trx).
    apply wp_bind. apply (wp_trx_check ifd (set_format IF_TRX g0) s2 m); [exact Hir2|done|done|exact Hbe|..].
    + intros Hfw len m' s' Hvo' Hwhy. apply wp_bind, wp_get, wp_bind, wp_put, wp_ret, HQ0; [done|].
      intros Hk _. destruct whole_reads eqn:Hwr; [left|right; split; [done|by left]].
      destruct (Hend Hk) as [Hk1 _]. intros [_ Hfit]. specialize (Hfit Hfw). fold f in Hfit. rewrite Ef in Hfit.
      by apply (Hwhy Hk1 eq_refl), Hfit.
    + intros len m' s' Hir' Hfit Hh'. apply wp_bind, wp_get, wp_bind, wp_put, wp_ret, (HQ1 IF_TRX); [done|by eexists|auto|].
      cbn. intros Hk. apply Hh'. by apply Hend.
    + intros s' Hvo' Hnh. apply HE; [done|]. intros Hk. apply Hnh. by apply Hend.
  - apply wp_ret, Hpass; auto.
  - apply wp_ret, Hpass; auto.
  - apply wp_ret, Hpass; auto.
Qed.

(** ** The whole command *)

Context (junk dig : list Z).
Context {md5_ctx : Type} (md5sum : list Z → K → option (list Z) * K) (md5_begin : md5_ctx)
  (md5_hash : list Z → md5_ctx → md5_ctx) (md5_end : md5_ctx → list Z) (do_reboot : K → K).

Lemma parse_quiet op opts Q E s :
  Forall (λ x, x.1 = 113) opts → Q op s → wp (parse_options op opts) Q E s.
Proof.
  induction 1 as [|[ch arg] opts Hch Hrest IH]; intros HQ; [by apply wp_ret|]. cbn in Hch. subst ch.
  cbn [parse_options]. destruct op. by apply wp_bind, wp_ret, IH.
Qed.

(** Why an image is refused under a kernel that does not fail. *)
Definition refused (h : Prop) (trxmagic : Z) : Prop :=
  h → ¬ image_ok trxmagic (o_bytes img) ∨ in_pieces trxmagic (o_bytes img).

(** The image is opened and checked, and nothing has been written. *)
Lemma wp_open_image file s Q E :
  view (kern s) = v → v_node v !! file = Some iid → file ≠ cs "-" →
  buf (gl s) = None → buflen (gl s) = 0 → imageformat (gl s) = IF_UNKNOWN →
  (∀ ifd f s', image_read ifd (set_format f (gl s)) s' → is_Some (buf (gl s')) →
     image_ok (opt_trxmagic (gl s)) (o_bytes img) → (healthy (kern s) → healthy (kern s')) → Q ifd s') →
  (∀ s', v_obj (view (kern s')) = v_obj v → refused (healthy (kern s)) (opt_trxmagic (gl s)) → E 1 s') →
  wp (open_image false file device) Q E s.
Proof.
  intros Hv Hnode Hfile Hbuf Hbl Hfmt HQ HE. unfold open_image. rewrite bool_decide_eq_false_2 by done.
  apply wp_bind, wp_bind, wp_sys. intros ifd k [Ho Hh]%law_open_ro. rewrite Hv in Ho, Hh.
  destruct (Z.ltb_spec ifd 0) as [Hneg|Hpos].
  { apply wp_exit, HE; [|intros Hk; destruct (Hh Hk) as [_ Hok]; specialize (Hok ltac:(eauto)); lia].
    destruct Ho as [[_ Hvk]|[? _]]; [cbn; by rewrite Hvk|lia]. }
  destruct Ho as [[? _]|(_ & iid' & Hnode' & Hfree & Hvk)]; [lia|].
  assert (iid' = iid) as -> by congruence. apply wp_ret.
  assert (image_read ifd (gl s) (State k (gl s))) as Hir.
  { pose proof (es_small o i Hwf). split; try done; cbn; [|lia]. exists 0. rewrite Hvk, Hbuf. done. }
  unfold check_device. apply wp_bind, wp_bind. eapply wp_mtd_check; [done|done|].
  intros r s1 Hir1 Hbl1 Hh1. cbn [kern gl] in Hbl1, Hh1.
  assert (v_obj (view (kern s1)) = v_obj v) as Hvo1 by (destruct Hir1 as [(ip & -> & _) _]; done).
  destruct (Z.eqb_spec r 0) as [->|Hr].
  { apply wp_exit, HE; [done|]. intros Hk. destruct (Hh Hk) as [Hk1 _]. destruct (Hh1 Hk1) as (_ & [=] & _). }
  apply wp_ret, wp_bind. eapply wp_image_check; [exact Hir1|done|congruence|..].
  - intros s2 Hvo2 Hwhy. cbn [Z.eqb andb negb]. apply wp_exit, HE; [done|]. intros Hk.
    destruct (Hh Hk) as [Hk1 _]. destruct (Hh1 Hk1) as (Hk2 & _ & Hsome). by apply Hwhy.
  - intros f s2 Hir2 Hsome Hok Hh2. apply wp_ret, (HQ ifd f); [done|done|done|].
    intros Hk. apply Hh2, Hh1. by apply Hh.
  - intros s2 Hvo2 Hnh. apply HE; [done|]. intros Hk. exfalso. apply Hnh. apply Hh1. by apply Hh.
Qed.

(** C1: "mtd [-q] write FILE DEVICE", for one device with blocks of 32 bytes or
    more and a file that is not it and not "-", under a kernel that may fail at
    any call, with short and interrupted reads: it always ends and never runs off
    a buffer.  With status 0 the image is one the target accepts, and the good
    blocks of the device from its start on hold what could be read of the
    image, in order and padded with 0xff to blocks, under a healthy kernel the
    whole image; bad blocks, the rest of the device and all other files are as
    they were.  Otherwise the status is 1, and either nothing at all has been
    written, and unless the kernel failed the image is not one the target
    accepts; or it is one, at most good blocks of the device have changed, and
    unless the kernel failed the image is longer than all of them.  Only where
    reads of the image can be short or interrupted (it is not a regular file)
    may a good image be refused: a TRX image for "firmware", whose header is
    read in one go, or any image where a read can be interrupted. *)
Theorem main_write file opts fuel s :
  view (kern s) = v → v_node v !! file = Some iid → file ≠ cs "-" → Forall (λ x, x.1 = 113) opts →
  buf (gl s) = None → buflen (gl s) = 0 → imageformat (gl s) = IF_UNKNOWN →
  no_erase (gl s) = false → jffs2file (gl s) = None → tpl_uboot_args_part (gl s) = None →
  (Z.to_nat (size_of o) * S max_retries + max_retries < fuel)%nat →
  let ok := image_ok (opt_trxmagic (gl s)) (o_bytes img) in
  wp (main junk dig md5sum md5_begin md5_hash md5_end do_reboot fuel opts [cs "write"; file; device])
    (λ r s', r = 0 ∧ ok ∧ ∃ b, written o i (healthy (kern s)) (o_bytes img) b ∧
       v_obj (view (kern s')) = <[id := with_bytes b o]> (v_obj v))
    (λ c s', c = 1 ∧
       (v_obj (view (kern s')) = v_obj v ∧ refused (healthy (kern s)) (opt_trxmagic (gl s)) ∨
        ok ∧ gave_up o i v id (kern s') ∧
          (healthy (kern s) → (length (good_bytes o i 0 (size_of o)) < length (o_bytes img))%nat))) s.
Proof.
  intros Hv Hnode Hfile Hopts Hbuf Hbl Hfmt Hne Hjf Htpl Hfuel ok. unfold main.
  apply wp_bind, parse_quiet; [done|]. apply wp_bind. cbn [parse_command op_force no_options].
  rewrite !(bool_decide_eq_false_2 (cs "write" = _)) by done. rewrite bool_decide_eq_true_2 by done.
  apply wp_bind. eapply wp_open_image; [done..| |].
  2: { intros s' Hvo Href. split; [done|]. by left. }
  intros ifd f s1 Hir Hsome Hok Hh1. apply wp_ret. cbn [op_erase erase_first]. apply wp_bind, wp_ret.
  apply wp_bind. cbn [run_command unlock_device op_part_offset]. apply wp_bind, wp_bind.
  eapply wp_mtd_unlock; [done| |].
  2: { intros s2 Hir2 Hnh. split; [done|]. left. destruct Hir2 as [(ip & Hv2 & _) _]. split; [by rewrite Hv2|].
       intros Hk. destruct Hnh. by apply Hh1. }
  intros r s2 Hir2 Hb2 Hh2. apply wp_ret, wp_bind. rewrite <- Hb2 in Hsome.
  destruct Hir2 as [(ipos & Hv2 & Hp2 & Hd2) Hl2 He2 Hj2 Ht2 _ _]. destruct Hsome as [m Hm]. rewrite Hm in Hd2.
  destruct Hd2 as [Hlm Hd2].
  eapply wp_mono; [apply (wp_mtd_write junk dig o i Hwf device id iid ifd img ipos m fuel s2)|..].
  - rewrite Hv2. apply names_set_fd.
  - done.
  - rewrite Hv2. by apply refers_set_fd.
  - done.
  - done.
  - done.
  - done.
  - done.
  - by rewrite He2.
  - by rewrite Hj2.
  - by rewrite Ht2.
  - done.
  - cbn beta. intros w s3 (-> & ip & b & Hw & Hv3). apply wp_ret, wp_bind, wp_ret, wp_ret.
    split_and!; [done|done|]. exists b. rewrite Hd2 in Hw. split.
    + destruct Hw as (e & wr & Hho & Hpd & Hex). exists e, wr. split_and!; [done|done|]. auto.
    + rewrite Hv3. cbn. by rewrite Hv2.
  - cbn beta. intros c s3 (-> & (b & Hvo & Hlb & Hkept) & Hlong). rewrite Hd2 in Hlong. split; [done|]. right.
    split_and!; [done| |auto]. exists b. split_and!; [|done|done]. rewrite Hvo. by rewrite Hv2.
Qed.

End run.

(** ** A device and an image *)

Module DemoWrite.
(** Three blocks of 32 bytes of NAND flash, the second one bad; an image of 40 bytes. *)
Definition info : mtd_info := MtdInfo MTD_NANDFLASH 96 32 1.
Definition dev : object := Object (replicate 96 17) (Some info) [32].
Definition img : object := Object (Z.of_nat <$> seq 1 40) None [].
Definition files : kview :=
  View (Some proc_lines) {[ cs "/dev/mtd0" := 7; cs "/tmp/image" := 8 ]} {[ 7 := dev; 8 := img ]} ∅.
Definition start : state sim := State (Sim files []) initial_globals.
Definition run (plan : list bool) : out sim Z :=
  main (Ar := mipsel) (T := ath79) (replicate 64 0) (replicate 16 0) (md5_ctx := unit) (λ _ k, (None, k)) tt
    (λ _ _, tt) (λ _, []) id 97 [(113, [])] [cs "write"; cs "/tmp/image"; cs "firmware"]
    (State (Sim files plan) initial_globals).
Definition contents (x : out sim Z) : option (list Z) :=
  match x with Done _ s | Exited _ s => o_bytes <$> v_obj (view (kern s)) !! 7 | Broken _ => None end.

Lemma write_dev_wf : wf_device dev info.
Proof.
  split; [done|done|by exists 5|done|by exists 3| | | |by intros []].
  - apply (bool_decide_unpack _). by vm_compute.
  - intros x [->|[]%not_elem_of_nil]%elem_of_cons. by exists 1.
  - intros x [->|[]%not_elem_of_nil]%elem_of_cons. by vm_compute.
Qed.
Lemma write_names : names files (cs "firmware") 7 dev info.
Proof.
  split; [by vm_compute| |by vm_compute|done].
  intros id' [Hn|(lines & j & slash & Hp & Hf & Hn)]; [by vm_compute in Hn|].
  injection Hp as <-. assert (find_mtd proc_lines (quoted (cs "firmware")) = Some 0) as E by done.
  rewrite E in Hf. injection Hf as <-. destruct slash; vm_compute in Hn; congruence.
Qed.

(** The image goes around the bad block. *)
Example write_run :
  contents (run []) = Some ((Z.of_nat <$> seq 1 32) ++ replicate 32 17 ++ (Z.of_nat <$> seq 33 8) ++ replicate 24 255).
Proof. by vm_compute. Qed.
End DemoWrite.

Lemma main_write_witness :
  wp (main (Ar := mipsel) (T := ath79) (replicate 64 0) (replicate 16 0) (md5_ctx := unit) (λ _ k, (None, k)) tt
        (λ _ _, tt) (λ _, []) id 97 [(113, [])] [cs "write"; cs "/tmp/image"; cs "firmware"])
    (λ r s', r = 0 ∧ ∃ b, written DemoWrite.dev DemoWrite.info True (o_bytes DemoWrite.img) b ∧
       v_obj (view (kern s')) = <[7 := with_bytes b DemoWrite.dev]> (v_obj DemoWrite.files))
    (λ c s', c = 1) DemoWrite.start.
Proof.
  eapply wp_mono.
  - apply (main_write (Ar := mipsel) (T := ath79) DemoWrite.dev DemoWrite.info DemoWrite.write_dev_wf ltac:(cbn; lia)
      DemoWrite.files 7 8 DemoWrite.img (cs "firmware") DemoWrite.write_names);
      [by vm_compute|done|by apply (bool_decide_unpack _); vm_compute|by apply (bool_decide_unpack _); vm_compute|done|by vm_compute|done
      |by apply Forall_cons|done..|by apply Nat.ltb_lt; vm_compute].
  - cbn beta. intros r s' (-> & _ & b & (e & wr & Hho & Hpd & Hex) & Hv). split; [done|].
    exists b. split; [|done]. exists e, wr. split_and!; [done|done|]. intros _. by apply Hex.
  - by intros c s' [-> _].
Defined.

End MtdMainProps.
