(* ===== verification/MtdTargetProps.v ===== *)
(** * The boot count, and its reset

    What a boot loader finds in the log, and that [mtd_resetbc] makes it 0. *)

From S2P Require Import Prelude CLib Mtd MtdKernel MtdSim MtdDev MtdTarget.
Import Mtd MtdKernel MtdSim MtdDev MtdTarget.
Open Scope Z_scope.
Open Scope cint_scope.

Module MtdTargetProps.

Section run.
Context {Ar : Arch} {K : Type} `{KernelLaws K}.
Context (o : object) (i : mtd_info) (Hwf : wf_device o i).
Implicit Types s : state K.

(** ** The log *)

(** The distance of its entries: a write unit of the flash, at least 16 bytes. *)
Definition bc_inc : Z := if mi_writesize i <? 16 then 16 else mi_writesize i.
Definition bc_entries : Z := size_of o / bc_inc.
Definition bc_word (b : list Z) (off : Z) : Z := u32_of (range b off 4).

(** The first free entry from [k] on, of [n], and the count of the entry before
    it ([last] if there is none); no result if an entry is something else. *)
Fixpoint bc_scan (b : list Z) (n : nat) (k last : Z) : option (Z * Z) :=
  match n with
  | O => Some (k, last)
  | S n =>
      let m := bc_word b (k * bc_inc) in
      if m =? 0xffffffff then Some (k, last)
      else if m =? BOOTCOUNT_MAGIC then bc_scan b n (k + 1) (s32 (bc_word b (k * bc_inc + 4)))
      else None
  end.
Definition bc_find (b : list Z) : option (Z * Z) := bc_scan b (Z.to_nat bc_entries) 0 0.
(** The number of boot attempts that the log tells. *)
Definition boot_count (b : list Z) : option Z := snd <$> bc_find b.

Context (Hinc : bc_inc ≤ 2048).
Abbreviation size := (size_of o).

Lemma inc_range : 16 ≤ bc_inc ≤ 2048.
Proof. unfold bc_inc in *. case_match; lia. Qed.
Lemma entries_range : 0 ≤ bc_entries < 2 ^ 31 ∧ bc_entries * bc_inc ≤ size.
Proof.
  pose proof inc_range. pose proof (wd_range _ _ Hwf). unfold bc_entries.
  pose proof (Z.mul_div_le size bc_inc ltac:(lia)). pose proof (Z.div_pos size bc_inc ltac:(lia) ltac:(lia)).
  pose proof (Z.div_le_upper_bound size bc_inc size ltac:(lia) ltac:(nia)). lia.
Qed.
Lemma entry_fits k : 0 ≤ k < bc_entries → 0 ≤ k * bc_inc ∧ k * bc_inc + bc_inc ≤ size.
Proof. intros. pose proof inc_range. pose proof entries_range. nia. Qed.

(** ** The search *)

Lemma wp_read_over fd id pos page off s Q E :
  refers (view (kern s)) fd id pos o → healthy (kern s) → 0 ≤ off → off + 12 ≤ size →
  (∀ s', gl s' = gl s → view (kern s') = view (kern s) → healthy (kern s') →
     Q (range (o_bytes o) off 12 ++ drop 12 page) s') →
  (12 ≤ length page)%nat → wp (read_over fd page 12 off) Q E s.
Proof.
  intros Hr Hh Hoff Hfit HQ Hl. unfold read_over.
  apply wp_bind, (wp_sys_pread fd 12 off id pos o); [done|lia|].
  intros r k Hv _ _ Hk. destruct (Hk Hh) as [Hhk Hres]. rewrite Hres by done.
  assert (length (range (o_bytes o) off 12) = 12%nat) as Hlr by (apply length_range; unfold size_of in *; lia).
  eapply wp_lift; [apply mwrite_ret; rewrite Hlr; lia|]. rewrite Hlr. by apply HQ.
Qed.

Lemma wp_bc_step fd id pos k last page s :
  refers (view (kern s)) fd id pos o → healthy (kern s) → length page = 2048%nat → 0 ≤ k ≤ bc_entries →
  wp (bc_step fd bc_inc bc_entries (k, last, page))
    (λ r s', gl s' = gl s ∧ view (kern s') = view (kern s) ∧ healthy (kern s') ∧
       match r with
       | inl (k', last', page') => k' = k + 1 ∧ k' ≤ bc_entries ∧ length page' = 2048%nat ∧
           bc_scan (o_bytes o) (Z.to_nat (bc_entries - k)) k last =
           bc_scan (o_bytes o) (Z.to_nat (bc_entries - k')) k' last'
       | inr x => match x with Some (_, _, page') => length page' = 2048%nat | None => True end ∧
           bc_scan (o_bytes o) (Z.to_nat (bc_entries - k)) k last = fst <$> x
       end) (λ _ _, False) s.
Proof.
  intros Hr Hh Hl Hk. pose proof inc_range. pose proof entries_range as [He Hes]. pose proof (wd_range _ _ Hwf).
  unfold bc_step. rewrite u32_small by lia. destruct (Z.ltb_spec k bc_entries) as [Hlt|Hge].
  2: { apply wp_ret. split_and!; [done..|]. by replace (Z.to_nat (bc_entries - k)) with 0%nat by lia. }
  destruct (entry_fits k) as [Ho1 Ho2]; [lia|]. rewrite (u32_small (k * bc_inc)) by lia.
  apply wp_bind. eapply wp_read_over; [done|done|lia|lia| |lia]. intros s' Hg Hv Hh'.
  set (w := range (o_bytes o) (k * bc_inc) 12).
  assert (length w = 12%nat) as Hlw by (apply length_range; unfold size_of in *; lia).
  assert (∀ x, 0 ≤ x → x + 4 ≤ 12 → mread (w ++ drop 12 page) (Z.to_nat x) 4 =
    Ret (range (o_bytes o) (k * bc_inc + x) 4)) as Hfield.
  { intros x Hx Hx12. unfold mread. rewrite decide_True by (rewrite length_app, length_drop; lia). f_equal.
    rewrite drop_app_le by lia. rewrite take_app_le by (rewrite length_drop; lia).
    rewrite <- (range_range (o_bytes o) (k * bc_inc) 12 x 4) by (unfold size_of in *; lia). done. }
  eapply wp_bind, wp_lift; [apply (Hfield 0); lia|]. eapply wp_bind, wp_lift; [apply (Hfield 4); lia|].
  rewrite Z.add_0_r. fold (bc_word (o_bytes o) (k * bc_inc)). fold (bc_word (o_bytes o) (k * bc_inc + 4)).
  assert (length (w ++ drop 12 page) = 2048%nat) as Hlp by (rewrite length_app, length_drop; lia).
  replace (Z.to_nat (bc_entries - k)) with (S (Z.to_nat (bc_entries - (k + 1)))) by lia. cbn [bc_scan].
  destruct (Z.eqb_spec (bc_word (o_bytes o) (k * bc_inc)) 0xffffffff) as [Hf|Hf];
    destruct (Z.eqb_spec (bc_word (o_bytes o) (k * bc_inc)) BOOTCOUNT_MAGIC) as [Hm|Hm]; cbn [negb andb];
    try (rewrite Hf in Hm; discriminate Hm); apply wp_ret; (split; [done|split; [done|split; [done|]]]).
  - done.
  - rewrite u32_small by lia. split_and!; [done|lia|done|done].
  - done.
Qed.

Lemma wp_bc_loop fd id pos page s Q E :
  refers (view (kern s)) fd id pos o → healthy (kern s) → length page = 2048%nat →
  (∀ x s', gl s' = gl s → view (kern s') = view (kern s) → healthy (kern s') →
     match x with Some (_, _, page') => length page' = 2048%nat | None => True end →
     bc_find (o_bytes o) = fst <$> x → Q x s') →
  wp (loop (S (Z.to_nat (u32 bc_entries))) (bc_step fd bc_inc bc_entries) (0, 0, page)) Q E s.
Proof.
  intros Hr Hh Hl HQ. pose proof entries_range as [He _]. rewrite u32_small by lia.
  set (I := λ (a : Z * Z * list Z) s', let '(k, last, page) := a in
    0 ≤ k ≤ bc_entries ∧ length page = 2048%nat ∧ gl s' = gl s ∧ view (kern s') = view (kern s) ∧ healthy (kern s') ∧
    bc_find (o_bytes o) = bc_scan (o_bytes o) (Z.to_nat (bc_entries - k)) k last).
  apply (wp_loop (bc_step fd bc_inc bc_entries) I (λ a, Z.to_nat (bc_entries - a.1.1))).
  - intros [[k last] pg] s1 (Hk & Hlp & Hg & Hv & Hh1 & Hscan).
    eapply wp_mono; [eapply (wp_bc_step fd id pos); [by rewrite Hv|done..]| |done].
    intros [[[k' last'] pg']|x] s2 (Hg2 & Hv2 & Hh2 & Hrest).
    + destruct Hrest as (-> & Hk' & Hlp' & Hs'). split; [|cbn; lia].
      split_and!; [lia|lia|done|congruence|congruence|done|congruence].
    + destruct Hrest as [Hlp' Hs']. apply HQ; [congruence|congruence|done|done|congruence].
  - split_and!; [lia|lia|done|done|done|done|]. unfold bc_find. do 2 f_equal. lia.
  - cbn. lia.
Qed.

(** ** The new entry *)

Definition new_entry : list Z :=
  u32_bytes BOOTCOUNT_MAGIC ++ u32_bytes 0 ++ u32_bytes BOOTCOUNT_MAGIC ++ replicate (Z.to_nat (bc_inc - 12)) 255.
Lemma length_new_entry : length new_entry = Z.to_nat bc_inc.
Proof. pose proof inc_range. unfold new_entry. rewrite !length_app, !length_u32_bytes, length_replicate. lia. Qed.

Lemma erased_sub b off n x m :
  erased b off n → 0 ≤ off → off ≤ x → 0 ≤ m → x + m ≤ off + n → off + n ≤ Z.of_nat (length b) →
  range b x m = replicate (Z.to_nat m) 255.
Proof.
  intros He Hoff Hx Hm Hle Hl. replace x with (off + (x - off)) by lia.
  rewrite <- (range_range b off n) by lia. rewrite He. unfold range. rewrite drop_replicate, take_replicate. f_equal. lia.
Qed.
Lemma free_word b off n x :
  erased b off n → 0 ≤ off → off ≤ x → x + 4 ≤ off + n → off + n ≤ Z.of_nat (length b) → bc_word b x = 0xffffffff.
Proof.
  intros. unfold bc_word. rewrite (erased_sub b off n x 4) by (done || lia). unfold u32_of. by case_match.
Qed.
Lemma entry_words b off :
  0 ≤ off → off + bc_inc ≤ Z.of_nat (length b) →
  bc_word (splice b off new_entry) off = BOOTCOUNT_MAGIC ∧ bc_word (splice b off new_entry) (off + 4) = 0.
Proof.
  intros Ho Hl. pose proof inc_range. pose proof length_new_entry as Hle.
  assert (∀ x w p q, new_entry = p ++ w ++ q → length p = Z.to_nat x → length w = 4%nat → 0 ≤ x →
    range (splice b off new_entry) (off + x) 4 = w) as Hpart.
  { intros x w p q Hn Hp Hw Hx. assert (x + 4 ≤ bc_inc) as Hx4.
    { apply (f_equal length) in Hn. rewrite Hle, !length_app in Hn. lia. }
    rewrite <- (range_range _ off bc_inc) by (rewrite ?length_splice; lia).
    replace bc_inc with (Z.of_nat (length new_entry)) by lia. rewrite range_splice by lia.
    rewrite Hn. apply range_at; lia. }
  unfold bc_word. split.
  - rewrite <- (Z.add_0_r off) at 2. erewrite (Hpart 0 (u32_bytes BOOTCOUNT_MAGIC) []); [apply u32_of_bytes|done|done|apply length_u32_bytes|lia].
  - erewrite (Hpart 4 (u32_bytes 0) (u32_bytes BOOTCOUNT_MAGIC)); [apply u32_of_bytes|done|by rewrite length_u32_bytes|apply length_u32_bytes|lia].
Qed.

Lemma scan_bound b n k0 l0 k last : bc_scan b n k0 l0 = Some (k, last) → k0 ≤ k ≤ k0 + Z.of_nat n.
Proof.
  revert k0 l0. induction n as [|n IH]; intros k0 l0; cbn [bc_scan]; [intros [= <- <-]; lia|].
  case_match; [intros [= <- <-]; lia|]. case_match; [|done]. intros Hs%IH. lia.
Qed.
Lemma scan_prefix b b' n k0 l0 k last :
  bc_scan b n k0 l0 = Some (k, last) →
  (∀ j x, k0 ≤ j < k → x = 0 ∨ x = 4 → bc_word b' (j * bc_inc + x) = bc_word b (j * bc_inc + x)) →
  k0 ≤ k ∧ bc_scan b' n k0 l0 = bc_scan b' (n - Z.to_nat (k - k0)) k last.
Proof.
  revert k0 l0. induction n as [|n IH]; intros k0 l0 Hs Hw.
  { injection Hs as <- <-. split; [lia|]. by rewrite Z.sub_diag. }
  cbn [bc_scan] in Hs. destruct (Z.eqb_spec (bc_word b (k0 * bc_inc)) 0xffffffff) as [Hf|Hf].
  { injection Hs as <- <-. split; [lia|]. by rewrite Z.sub_diag, Nat.sub_0_r. }
  destruct (Z.eqb_spec (bc_word b (k0 * bc_inc)) BOOTCOUNT_MAGIC) as [Hm|Hm]; [|done].
  pose proof (scan_bound _ _ _ _ _ _ Hs) as Hle.
  destruct (IH (k0 + 1) _ Hs) as [_ Heq]. { intros j x Hj. apply Hw. lia. }
  split; [lia|]. replace (S n - Z.to_nat (k - k0))%nat with (n - Z.to_nat (k - (k0 + 1)))%nat by lia.
  rewrite <- Heq. cbn [bc_scan].
  assert (bc_word b' (k0 * bc_inc) = bc_word b (k0 * bc_inc)) as ->.
  { specialize (Hw k0 0 ltac:(lia) ltac:(auto)). by rewrite !Z.add_0_r in Hw. }
  rewrite (Hw k0 4) by (auto || lia). rewrite (proj2 (Z.eqb_neq _ 0xffffffff)) by done. by rewrite Hm.
Qed.

(** After an entry of a fresh log the count is 0. *)
Lemma count_reset b k last :
  length b = length (o_bytes o) → bc_find b = Some (k, last) → 0 ≤ k < bc_entries →
  erased b (k * bc_inc) (size - k * bc_inc) → boot_count (splice b (k * bc_inc) new_entry) = Some 0.
Proof.
  intros Hl Hf Hk He. pose proof inc_range. pose proof length_new_entry as Hle. pose proof entries_range as [_ Hes].
  destruct (entry_fits k) as [Ho1 Ho2]; [lia|]. unfold size_of in Ho2, He. rewrite <- Hl in Ho2, He.
  destruct (entry_words b (k * bc_inc)) as [Hw1 Hw2]; [lia..|].
  set (b' := splice b (k * bc_inc) new_entry) in *.
  assert (∀ x, 0 ≤ x → x + 4 ≤ k * bc_inc ∨ k * bc_inc + bc_inc ≤ x → bc_word b' x = bc_word b x) as Hout.
  { intros x Hx Hor. unfold bc_word. f_equal.
    apply (range_ext b b' (k * bc_inc) (Z.of_nat (length new_entry))); [by apply splice_same_outside; lia|lia..]. }
  unfold boot_count, bc_find. destruct (scan_prefix b b' _ 0 0 k last Hf) as [_ ->].
  { intros j x Hj Hx. apply Hout; [nia|]. left. nia. }
  rewrite Z.sub_0_r. replace (Z.to_nat bc_entries - Z.to_nat k)%nat with (S (Z.to_nat (bc_entries - (k + 1)))) by lia.
  cbn [bc_scan]. rewrite Hw1, Hw2. cbn [Z.eqb]. change (BOOTCOUNT_MAGIC =? 0xffffffff) with false.
  rewrite Z.eqb_refl. destruct (decide (k + 1 = bc_entries)) as [Hlast|Hlast].
  { replace (Z.to_nat (bc_entries - (k + 1))) with 0%nat by lia. done. }
  replace (Z.to_nat (bc_entries - (k + 1))) with (S (Z.to_nat (bc_entries - (k + 2)))) by lia. cbn [bc_scan].
  destruct (entry_fits (k + 1)) as [Hn1 Hn2]; [lia|].
  rewrite Hout by lia. unfold size_of in Hn2. rewrite <- Hl in Hn2.
  rewrite (free_word b _ _ ((k + 1) * bc_inc) He) by lia. done.
Qed.

Lemma page_entry page :
  length page = 2048%nat →
  (page ← mset page 0 255 (Z.to_nat bc_inc);
   page ← mwrite page 0 (u32_bytes BOOTCOUNT_MAGIC ++ u32_bytes 0 ++ u32_bytes BOOTCOUNT_MAGIC);
   mread page 0 (Z.to_nat bc_inc)) = Ret new_entry.
Proof.
  intros Hl. pose proof inc_range. unfold mset. rewrite mwrite_ret by (rewrite length_replicate; lia).
  cbn [mbind result_bind take app]. set (h := u32_bytes _ ++ u32_bytes 0 ++ _).
  assert (length h = 12%nat) as Hh by (unfold h; by rewrite !length_app, !length_u32_bytes).
  rewrite mwrite_ret by (rewrite Hh, !length_app, !length_replicate; lia). cbn [mbind result_bind take app].
  rewrite Hh. unfold mread.
  rewrite decide_True by (rewrite !length_app, Hh, !length_drop, !length_app, !length_drop, !length_replicate; lia).
  f_equal. rewrite !take_0, drop_0, !app_nil_l, (drop_app_le (replicate _ _)), drop_replicate by (rewrite length_replicate; lia).
  rewrite app_assoc, take_app_length' by (rewrite length_app, Hh, length_replicate; lia).
  unfold h, new_entry. rewrite <- !app_assoc. do 4 f_equal. lia.
Qed.

(** The rest of the log, from its first free entry [k] on, is erased. *)
Definition log_free (b : list Z) (k : Z) : Prop := k < bc_entries → erased b (k * bc_inc) (size - k * bc_inc).
(** The count is 0 now, by a new entry, or a new log where the old one was full. *)
Definition bc_done (v : kview) (id k : Z) (v' : kview) : Prop :=
  ∃ b, v' = set_obj id (with_bytes b o) v ∧ boot_count b = Some 0 ∧
    (k < bc_entries → same_outside (o_bytes o) b (k * bc_inc) bc_inc).

Lemma wp_new_entry fd id v b k last s Q E :
  view (kern s) = set_fd fd (Some (id, 0)) (set_obj id (with_bytes b o) v) → healthy (kern s) → o_bad o = [] →
  length b = length (o_bytes o) → bc_find b = Some (k, last) → 0 ≤ k < bc_entries → log_free b k →
  (∀ s', view (kern s') = set_fd fd (Some (id, 0)) (set_obj id (with_bytes (splice b (k * bc_inc) new_entry) o) v) →
     boot_count (splice b (k * bc_inc) new_entry) = Some 0 → Q bc_inc s') →
  wp (sys (k_pwrite fd new_entry (u32 (k * bc_inc)))) Q E s.
Proof.
  intros Hv Hh Hbad Hl Hf Hk Hfree HQ. pose proof inc_range. pose proof length_new_entry as Hle.
  pose proof (wd_range _ _ Hwf) as Hrange. destruct (entry_fits k) as [Ho1 Ho2]; [lia|].
  specialize (Hfree (proj2 Hk)). rewrite u32_small by lia.
  apply (wp_sys_pwrite fd new_entry (k * bc_inc) id 0 (with_bytes b o) i);
    [rewrite Hv; apply refers_set_fd; apply lookup_insert_eq|apply Hwf|lia|].
  rewrite Hle, Z2Nat.id by lia. cbn [o_bytes with_bytes]. intros r b' k' Hv' Hs' Hdata Hh'.
  destruct (Hh' Hh) as [_ Hr]. assert (r = bc_inc) as ->.
  { apply Hr; [unfold size_of in *; cbn; lia|]. intros x. cbn. rewrite Hbad. by intros []%not_elem_of_nil. }
  assert (b' = splice b (k * bc_inc) new_entry) as ->.
  { unfold size_of in *. apply splice_unique; [lia|lia|by rewrite Hle, Z2Nat.id by lia|].
    rewrite Hle, Z2Nat.id by lia. apply Hdata; [done|]. eapply (erased_sub b); [exact Hfree|lia..]. }
  apply HQ; [cbn [kern]|by eapply count_reset].
  rewrite Hv', Hv. change (set_fd fd (Some (id, 0)) (set_obj id (with_bytes (splice b (k * bc_inc) new_entry) o)
    (set_obj id (with_bytes b o) v)) = set_fd fd (Some (id, 0)) (set_obj id (with_bytes (splice b (k * bc_inc) new_entry) o) v)).
  by rewrite set_obj_twice.
Qed.

Lemma wp_bc_reset fd id v k last page s Q E :
  v_obj v !! id = Some o → view (kern s) = set_fd fd (Some (id, 0)) v → healthy (kern s) → o_bad o = [] →
  length page = 2048%nat → bc_find (o_bytes o) = Some (k, last) → log_free (o_bytes o) k →
  (last = 0 → Q 0 s) →
  (∀ s' v', last ≠ 0 → view (kern s') = set_fd fd (Some (id, 0)) v' → bc_done v id k v' → Q 0 s') →
  wp (bc_reset fd bc_inc bc_entries size k last page) Q E s.
Proof.
  intros Hobj Hv Hh Hbad Hl Hf Hfree HQ0 HQ. pose proof inc_range. pose proof entries_range as [He Hes].
  pose proof (wd_range _ _ Hwf) as Hrange. pose proof length_new_entry as Hle.
  unfold bc_reset. destruct (Z.eqb_spec last 0) as [Hz|Hz]; [by apply wp_ret, HQ0|].
  destruct (scan_bound _ _ _ _ _ _ Hf) as [Hk0 Hk1].
  assert (∀ b k0 l0 s1, view (kern s1) = set_fd fd (Some (id, 0)) (set_obj id (with_bytes b o) v) →
    healthy (kern s1) → length b = length (o_bytes o) → bc_find b = Some (k0, l0) → 0 ≤ k0 < bc_entries →
    log_free b k0 → (k < bc_entries → k0 = k ∧ b = o_bytes o) →
    wp (page ← lift (mset page 0 255 (Z.to_nat bc_inc));
        page ← lift (mwrite page 0 (u32_bytes BOOTCOUNT_MAGIC ++ u32_bytes 0 ++ u32_bytes BOOTCOUNT_MAGIC));
        bs ← lift (mread page 0 (Z.to_nat bc_inc));
        ret ← sys (k_pwrite fd bs (u32 (k0 * bc_inc)));
        mret (if ret <? 0 then -4 else 0)) Q E s1) as Hput.
  { intros b k0 l0 s1 Hv1 Hh1 Hlb Hf1 Hk Hfr Hsame. pose proof (page_entry page Hl) as Hpage.
    destruct (mset page 0 255 (Z.to_nat bc_inc)) as [p1|] eqn:E1; [|done]. cbn [mbind result_bind] in Hpage.
    eapply wp_bind, wp_lift; [done|]. destruct (mwrite p1 0 _) as [p2|] eqn:E2; [|done]. cbn [mbind result_bind] in Hpage.
    eapply wp_bind, wp_lift; [done|]. eapply wp_bind, wp_lift; [done|]. apply wp_bind.
    eapply wp_new_entry; [done..|]. intros s2 Hv2 Hc. rewrite (proj2 (Z.ltb_ge _ _)) by lia. apply wp_ret.
    eapply HQ; [done|done|]. eexists. split_and!; [done|done|]. intros Hlt. destruct (Hsame Hlt) as [-> ->].
    destruct (entry_fits k) as [? ?]; [lia|]. replace bc_inc with (Z.of_nat (length new_entry)) at 3 by lia.
    apply splice_same_outside; unfold size_of in *; lia. }
  rewrite u32_small by lia. apply wp_bind. destruct (Z.eqb_spec k bc_entries) as [Hfull|Hroom].
  - apply wp_bind, wp_sys. intros r k1 (Hch & Hhk)%law_erase; [|lia|lia].
    assert (refers (view (kern s)) fd id 0 o) as Hr by (rewrite Hv; by apply refers_set_fd).
    destruct (Hhk Hh) as [Hh1 Hok]. assert (0 ≤ r) as Hr0.
    { eapply Hok; [done|apply Hwf|apply Hwf|apply Z.divide_0_r|lia|]. intros x. rewrite Hbad. by intros []%not_elem_of_nil. }
    rewrite (proj2 (Z.ltb_ge r 0)) by done. apply wp_ret.
    destruct (Hch _ _ _ Hr) as (b & Hv1 & Hs1 & Her). specialize (Her Hr0).
    assert (length b = length (o_bytes o)) as Hlb by (by destruct Hs1 as [-> _]).
    assert (0 < bc_entries) as Hpos.
    { destruct (decide (bc_entries = 0)) as [E0|]; [|lia]. unfold bc_find in Hf. rewrite E0 in Hf. by injection Hf as _ <-. }
    assert (log_free b 0) as Hfr by (intros _; by rewrite Z.mul_0_l, Z.sub_0_r).
    eapply (Hput b 0 0); [cbn [kern]; by rewrite Hv1, Hv|done|done| |lia|done|lia].
    unfold bc_find. replace (Z.to_nat bc_entries) with (S (Z.to_nat (bc_entries - 1))) by lia. cbn [bc_scan].
    unfold size_of in *. rewrite (free_word b 0 (Z.of_nat (length (o_bytes o)))) by (done || nia). done.
  - apply wp_ret. eapply (Hput (o_bytes o) k last); [|done|done|done|lia|done|done].
    by rewrite with_bytes_id, set_obj_id.
Qed.

(** C35: [mtd_resetbc] makes the boot count 0: on a device without bad blocks,
    whose write units are at most the 2048 bytes of [page] and whose log is
    free from its first free entry on, under a kernel that does not fail, it
    writes nothing if the count is 0 already; otherwise it adds an entry with
    count 0 behind the others, which stay as they are, or starts a new log
    where the old one is full, so that the loader then finds the count 0; and
    if an entry is neither free nor one of the loader's it returns -2 and
    writes nothing. *)
Theorem resetbc_correct name id s :
  let v := view (kern s) in
  names v name id o i → healthy (kern s) → o_bad o = [] →
  (∀ k last, bc_find (o_bytes o) = Some (k, last) → log_free (o_bytes o) k) →
  wp (mtd_resetbc name)
    (λ r s', match bc_find (o_bytes o) with
       | None => r = -2 ∧ view (kern s') = v
       | Some (k, last) => r = 0 ∧
           (last = 0 ∧ view (kern s') = v ∨ last ≠ 0 ∧ bc_done v id k (view (kern s')))
       end) (λ _ _, False) s.
Proof.
  intros v Hn Hh Hbad Hfree. pose proof (nm_obj _ _ _ _ _ Hn) as Hobj. pose proof inc_range as Hir.
  pose proof entries_range as [He _]. pose proof (wd_range _ _ Hwf).
  unfold mtd_resetbc. apply wp_bind, (wp_check_open name id o i); [done|by intros|].
  intros fd k1 _ Hfd Hv1 Hh1. specialize (Hh1 Hh). assert (refers (view k1) fd id 0 o) as Hr by (rewrite Hv1; by apply refers_set_fd).
  apply wp_bind, wp_sys. cbn [kern gl]. intros info k2 (Hv2 & _ & Hinfo)%law_getinfo.
  destruct (Hinfo Hh1) as [Hh2 Hi]. rewrite (Hi _ _ _ Hr), (wd_info _ _ Hwf).
  change (if mi_writesize i <? BC_OFFSET_INCREMENT_MIN then BC_OFFSET_INCREMENT_MIN else mi_writesize i) with bc_inc.
  rewrite (wd_size _ _ Hwf). fold bc_entries. rewrite s32_small by lia. apply wp_bind, wp_bind.
  eapply (wp_bc_loop fd id 0); [cbn [kern]; by rewrite Hv2|done|apply length_replicate|].
  intros x s3 _ Hv3 Hh3 Hlp Hfind. cbn [kern] in Hv3. rewrite Hv2, Hv1 in Hv3. rewrite Hfind.
  destruct x as [[[k last] page]|]; cbn [fmap option_fmap option_map fst].
  2: { apply wp_ret, wp_bind, wp_sys_close. intros k4 Hv4 _. apply wp_ret. split; [done|].
       cbn [kern]. rewrite Hv4, Hv3. by apply set_fd_undo. }
  cbn in Hfind. eapply (wp_bc_reset fd id v k last page); [done|done|done|done|done|done|by eapply Hfree| |].
  - intros Hz. apply wp_bind, wp_sys_close. intros k4 Hv4 _. apply wp_ret. split; [done|]. left. split; [done|].
    cbn [kern]. rewrite Hv4, Hv3. by apply set_fd_undo.
  - intros s4 v' Hz Hv4 Hdone. apply wp_bind, wp_sys_close. intros k5 Hv5 _. apply wp_ret. split; [done|]. right.
    split; [done|]. cbn [kern]. rewrite Hv5, Hv4. destruct Hdone as (b & -> & Hc). rewrite set_fd_undo by done.
    by exists b.
Qed.

End run.

(** ** A log *)

Module DemoLog.
(** Two blocks of 32 bytes: two entries, the second with count 5, then free. *)
Definition info : mtd_info := MtdInfo 3 64 32 1.
Definition entry (count : list Z) : list Z :=
  [0x11; 0x08; 0x11; 0x20] ++ count ++ [0; 0; 0; 0] ++ replicate 4 255.
Definition dev : object :=
  Object (entry [4; 0; 0; 0] ++ entry [5; 0; 0; 0] ++ replicate 32 255) (Some info) [].
Definition start : state sim := State (one_device dev) initial_globals.

Lemma log_dev_wf : wf_device dev info.
Proof.
  split; [done|done|by exists 5|done|by exists 2| |by intros x []%not_elem_of_nil..|done].
  apply (bool_decide_unpack _). by vm_compute.
Qed.
Lemma log_found : bc_find (Ar := mipsel) dev info (o_bytes dev) = Some (2, 5).
Proof. by vm_compute. Qed.
End DemoLog.

Lemma resetbc_correct_witness :
  wp (mtd_resetbc (Ar := mipsel) (cs "firmware"))
    (λ r s', r = 0 ∧ ∃ b, view (kern s') = set_obj 7 (with_bytes b DemoLog.dev) (view (kern DemoLog.start)) ∧
       boot_count (Ar := mipsel) DemoLog.dev DemoLog.info b = Some 0) (λ _ _, False) DemoLog.start.
Proof.
  eapply wp_mono.
  - apply (resetbc_correct (Ar := mipsel) DemoLog.dev DemoLog.info DemoLog.log_dev_wf ltac:(by vm_compute)
      (cs "firmware") 7 DemoLog.start); [by apply one_device_names|done|done|].
    intros k last Hf. rewrite DemoLog.log_found in Hf. injection Hf as <- <-. by intros _.
  - rewrite DemoLog.log_found. intros r s' (-> & [[? _]|[_ (b & Hv & Hc & _)]]); [done|]. split; [done|]. by exists b.
  - done.
Defined.

End MtdTargetProps.
