(* ===== verification/MtdEraseProps.v ===== *)
(** * The command "mtd erase" *)

From S2P Require Import Prelude CLib Mtd MtdKernel MtdSim MtdDev MtdMain.
Import Mtd MtdKernel MtdSim MtdDev MtdMain.
Open Scope Z_scope.
Open Scope cint_scope.

Module MtdEraseProps.

Section run.
Context {Ar : Arch} {T : Target} {K : Type} `{KernelLaws K}.
Context (o : object) (i : mtd_info) (Hwf : wf_device o i).
Context (v : kview) (id : Z) (device : list Z) (Hn : names v device id o i) (Hcolon : 58 ∉ device).
Abbreviation es := (mi_erasesize i).
Implicit Types s : state K.

(** The device holds [b], and the good blocks before [e] are erased, if the
    kernel does not fail. *)
Definition erased_to (h : Prop) (b : list Z) (e : Z) : Prop :=
  length b = length (o_bytes o) ∧ bad_kept o i b ∧
  (h → Forall (λ x, x = 255) (good_bytes (with_bytes b o) i 0 e)).
Definition device_at (fd : Z) (b : list Z) (s : state K) : Prop :=
  view (kern s) = set_fd fd (Some (id, 0)) (set_obj id (with_bytes b o) v).

Lemma erased_good (h : Prop) b b' e :
  erased_to h b e → same_outside b b' e es → (h → erased b' e es) → e ∉ o_bad o → (es | e) → 0 ≤ e < size_of o →
  erased_to h b' (e + es).
Proof.
  intros (Hl & Hk & Hg) Hs Her Hgood Hd He. pose proof (es_small o i Hwf) as Hesr.
  assert (length b' = length (o_bytes o)) as Hl' by (by destruct Hs as [-> _]). split_and!; [done| |].
  - by eapply (bad_kept_step o i Hwf b b' e); [..|lia| |].
  - intros Hh. rewrite (good_bytes_next o i Hwf b' e (good_bytes (with_bytes b o) i 0 e)); try done.
    + apply Forall_app. split; [by apply Hg|]. case_match; [done|]. rewrite (Her Hh). by apply Forall_replicate.
    + by apply (good_bytes_ext o i b b' e es); [|lia..|left; lia].
Qed.
Lemma erased_bad (h : Prop) b e :
  erased_to h b e → e ∈ o_bad o → (es | e) → erased_to h b (e + es).
Proof.
  intros (Hl & Hk & Hg) Hin Hd. pose proof (wd_bad_in _ _ Hwf e Hin) as He. split_and!; [done|done|].
  intros Hh. rewrite (good_bytes_next o i Hwf b e _ Hl Hd He eq_refl).
  rewrite (proj2 (bad_block_iff o i Hwf e)) by done. rewrite app_nil_r. by apply Hg.
Qed.

Lemma wp_mtd_erase_step (h : Prop) fd b e s :
  v_fd v !! fd = None → device_at fd b s → erasesize (gl s) = es → mtdsize (gl s) = size_of o →
  mtdtype (gl s) = mi_type i → erased_to h b e → (es | e) → 0 ≤ e ≤ size_of o → (h → healthy (kern s)) →
  wp (mtd_erase_step fd e)
    (λ r s', gl s' = gl s ∧ (h → healthy (kern s')) ∧ ∃ b', device_at fd b' s' ∧
       match r with
       | inl e' => e' = e + es ∧ e + es ≤ size_of o ∧ erased_to h b' e'
       | inr _ => erased_to h b' (size_of o)
       end)
    (λ c s', c = 1 ∧ ¬ h ∧ ∃ b', v_obj (view (kern s')) = <[id := with_bytes b' o]> (v_obj v) ∧
       length b' = length (o_bytes o) ∧ bad_kept o i b') s.
Proof.
  intros Hfd Hv Hes Hsz Hty Her Hd He Hh. pose proof (es_small o i Hwf) as Hesr.
  pose proof (wd_range _ _ Hwf) as Hrange. unfold mtd_erase_step. apply wp_bind, wp_get.
  rewrite Hsz, Hes, (u32_small (size_of o)), (u32_small es) by lia. destruct (Z.ltb_spec e (size_of o)) as [Hlt|Hge].
  2: { apply wp_ret. split_and!; [done|done|]. exists b. replace (size_of o) with e by lia. done. }
  destruct (next_block o i Hwf e) as [Hd' Hfit]; [done|lia|].
  assert (refers (view (kern s)) fd id 0 (with_bytes b o)) as Hr
    by (rewrite Hv; apply refers_set_fd; apply lookup_insert_eq).
  apply wp_bind, (wp_block_is_bad fd e id 0 (with_bytes b o) i); [done|done|lia|..].
  2: { intros k Hvk Hbad. split_and!; [done| |exists b; cbn; rewrite Hvk, Hv; split_and!; [done|apply Her..]].
       intros Hk. destruct Her as [Hlb _]. specialize (Hbad (Hh Hk)). unfold size_of in *. cbn in Hbad. lia. }
  intros r k Hvk Hbad Hhk. change (bad_block (with_bytes b o) i e) with (bad_block o i e) in Hbad.
  destruct (Z.eqb_spec r 0) as [Hz|Hz].
  - rewrite bool_decide_eq_true_2 in Hbad by done.
    assert (e ∉ o_bad o) as Hgood by (rewrite <- (bad_block_iff o i Hwf); by destruct (bad_block o i e)).
    destruct (law_unlock fd e es k) as [Hvu Hhu].
    apply wp_bind, wp_bind, wp_sys_, wp_bind, wp_sys. cbn [kern gl]. intros r2 k2 (Hch & Hhe)%law_erase; [|lia|lia].
    rewrite Hvu, Hvk in Hch. destruct (Hch _ _ _ Hr) as (b2 & Hv2 & Hs2 & Her2). cbn [o_bytes with_bytes] in Hs2.
    apply wp_ret, wp_ret. split_and!; [done|intros Hk; by apply Hhe, Hhu, Hhk, Hh|].
    exists b2. split.
    + unfold device_at. cbn [kern]. rewrite Hv2, Hv.
      change (set_fd fd (Some (id, 0)) (set_obj id (with_bytes b2 o) (set_obj id (with_bytes b o) v)) =
        set_fd fd (Some (id, 0)) (set_obj id (with_bytes b2 o) v)). by rewrite set_obj_twice.
    + rewrite u32_small by lia. split_and!; [done|done|]. apply (erased_good h b b2 e); try done; [|lia].
      intros Hk. apply Her2. destruct (Hhe (Hhu (Hhk (Hh Hk)))) as [_ Hok]. rewrite Hvu, Hvk in Hok.
      eapply Hok; [done|apply Hwf|done|done| |exact (good_block o i Hwf e Hd Hgood)].
      unfold size_of in *. cbn. destruct Her as [-> _]. done.
  - rewrite bool_decide_eq_false_2 in Hbad by done.
    assert (e ∈ o_bad o) as Hin by (apply (bad_block_iff o i Hwf); by destruct (bad_block o i e)).
    apply wp_bind, wp_ret, wp_ret. split_and!; [done|auto|]. exists b. split.
    + unfold device_at. cbn [kern]. by rewrite Hvk.
    + rewrite u32_small by lia. split_and!; [done|done|]. by apply erased_bad.
Qed.

(** [mtd_erase] as a whole. *)
Lemma wp_mtd_erase fuel s Q E :
  view (kern s) = v → (Z.to_nat (size_of o) < fuel)%nat →
  (∀ b s', view (kern s') = set_obj id (with_bytes b o) v → erased_to (healthy (kern s)) b (size_of o) →
     (healthy (kern s) → healthy (kern s')) → Q 0 s') →
  (∀ b s', v_obj (view (kern s')) = <[id := with_bytes b o]> (v_obj v) → length b = length (o_bytes o) →
     bad_kept o i b → ¬ healthy (kern s) → E 1 s') →
  wp (mtd_erase fuel device) Q E s.
Proof.
  intros Hv Hfuel HQ HE. pose proof (es_small o i Hwf) as Hesr. pose proof (wd_range _ _ Hwf) as Hrange.
  pose proof (nm_obj _ _ _ _ _ Hn) as Hobj.
  unfold mtd_erase. apply wp_bind, (wp_check_open device id o i); [by rewrite Hv|..].
  { intros k Hk Hnh. rewrite (proj2 (Z.ltb_lt (-1) 0)) by done. apply wp_exit, (HE (o_bytes o)); [|done|by intros x|done].
    cbn. by rewrite Hk, Hv, with_bytes_id, insert_id. }
  intros fd k1 Hfd Hfree Hv1 Hh1. rewrite (proj2 (Z.ltb_ge fd 0)) by done. rewrite Hv in Hfree, Hv1.
  rewrite !s32_small by (rewrite ?(wd_size _ _ Hwf); lia). rewrite (wd_size _ _ Hwf).
  set (g := set_info (size_of o) es (mi_type i) (gl s)). set (h := healthy (kern s)) in *.
  set (I := λ (e : Z) s', gl s' = g ∧ (h → healthy (kern s')) ∧ (es | e) ∧ 0 ≤ e ≤ size_of o ∧
    ∃ b, device_at fd b s' ∧ erased_to h b e).
  apply wp_bind. apply (wp_loop (mtd_erase_step fd) I (λ e, Z.to_nat (size_of o - e))).
  - intros e s1 (Hg & Hh & Hd & He & b & Hdev & Her).
    eapply wp_mono; [eapply (wp_mtd_erase_step h fd b e); try done; by rewrite Hg|..].
    + intros [e'|[]] s2 (Hg2 & Hh2 & b2 & Hdev2 & Hrest).
      * destruct Hrest as (-> & Hfit & Her2). split; [|lia]. split_and!; [congruence|done| |lia|lia|by exists b2].
        by apply Z.divide_add_r.
      * apply wp_bind, wp_sys_close. intros k3 Hv3 Hh3. apply wp_ret, (HQ b2); [|done|cbn; auto].
        cbn [kern]. rewrite Hv3, Hdev2. by apply set_fd_undo.
    + intros c s2 (-> & Hnh & b2 & Hv2 & Hl2 & Hk2). by apply (HE b2).
  - split_and!; [done|done|by exists 0|lia|lia|]. exists (o_bytes o). split.
    + unfold device_at. cbn [kern]. by rewrite with_bytes_id, set_obj_id.
    + split_and!; [done|by intros x|]. intros _. apply Forall_nil. done.
  - lia.
Qed.

Context (junk dig : list Z).
Context {md5_ctx : Type} (md5sum : list Z → K → option (list Z) * K) (md5_begin : md5_ctx)
  (md5_hash : list Z → md5_ctx → md5_ctx) (md5_end : md5_ctx → list Z) (do_reboot : K → K).

(** C34: "mtd erase DEVICE", under a kernel that may fail at any call, always
    ends; bad blocks and other files are untouched; it leaves status 0 (also
    when the erasure of a block fails), and under a healthy kernel every byte
    of every good block is then 0xff, or status 1, only if the kernel failed. *)
Theorem main_erase fuel s :
  view (kern s) = v → (Z.to_nat (size_of o) < fuel)%nat →
  wp (main junk dig md5sum md5_begin md5_hash md5_end do_reboot fuel [] [cs "erase"; device])
    (λ r s', r = 0 ∧ ∃ b, view (kern s') = set_obj id (with_bytes b o) v ∧
       erased_to (healthy (kern s)) b (size_of o))
    (λ c s', c = 1 ∧ ¬ healthy (kern s) ∧ ∃ b, v_obj (view (kern s')) = <[id := with_bytes b o]> (v_obj v) ∧
       length b = length (o_bytes o) ∧ bad_kept o i b) s.
Proof.
  intros Hv Hfuel. pose proof (nm_obj _ _ _ _ _ Hn) as Hobj. unfold main. cbn [parse_options op_force no_options].
  apply wp_bind, wp_ret, wp_bind. cbn [parse_command]. rewrite bool_decide_eq_false_2 by done.
  rewrite bool_decide_eq_true_2 by done. apply wp_ret. cbn [op_erase erase_first]. apply wp_bind, wp_ret, wp_bind.
  cbn [run_command unlock_device]. apply wp_bind, wp_bind. apply (wp_unlock_device o i Hwf device id);
    [by rewrite Hv|done|..].
  2: { intros k Hk Hnh. split_and!; [done|done|]. exists (o_bytes o). cbn.
       rewrite Hk, Hv, with_bytes_id, insert_id by done. split_and!; [done|done|by intros x]. }
  intros r k Hk Hh. apply wp_ret, wp_bind. eapply wp_mtd_erase; [cbn [kern]; congruence|done|..]; cbn [kern].
  - intros b s' Hv' Her Hh'. apply wp_ret, wp_bind, wp_ret, wp_ret. split; [done|]. exists b. split; [done|].
    destruct Her as (? & ? & ?). split_and!; auto.
  - intros b s' Hv' Hl Hbk Hnh. split_and!; [done|auto|]. by exists b.
Qed.

End run.

(** ** A device *)

Module DemoErase.
(** Three blocks of 32 bytes of NAND flash, the second one bad. *)
Definition info : mtd_info := MtdInfo MTD_NANDFLASH 96 32 1.
Definition dev : object := Object (replicate 96 17) (Some info) [32].
Definition start : state sim := State (one_device dev) initial_globals.

Lemma erase_dev_wf : wf_device dev info.
Proof.
  split; [done|done|by exists 5|done|by exists 3| | | |by intros []].
  - apply (bool_decide_unpack _). by vm_compute.
  - intros x [->|[]%not_elem_of_nil]%elem_of_cons. by exists 1.
  - intros x [->|[]%not_elem_of_nil]%elem_of_cons. by vm_compute.
Qed.
End DemoErase.

Lemma main_erase_witness :
  wp (main (Ar := mipsel) (T := ath79) (replicate 64 0) (replicate 16 0) (md5_ctx := unit) (λ _ k, (None, k)) tt
        (λ _ _, tt) (λ _, []) id 97 [] [cs "erase"; cs "firmware"])
    (λ r s', r = 0 ∧ ∃ b, view (kern s') = set_obj 7 (with_bytes b DemoErase.dev) (view (kern DemoErase.start)) ∧
       erased_to DemoErase.dev DemoErase.info True b 96) (λ _ _, False) DemoErase.start.
Proof.
  eapply wp_mono.
  - apply (main_erase (Ar := mipsel) (T := ath79) DemoErase.dev DemoErase.info DemoErase.erase_dev_wf
      (view (kern DemoErase.start)) 7 (cs "firmware") (one_device_names DemoErase.dev DemoErase.info eq_refl));
      [by apply (bool_decide_unpack _); vm_compute|done|by apply Nat.ltb_lt; vm_compute].
  - cbn beta. intros r s' (-> & b & Hv & Hl & Hk & Her). split; [done|]. exists b. split; [done|].
    split; [done|split; [done|]]. intros _. by apply Her.
  - cbn beta. intros c s' (_ & Hnh & _). by apply Hnh.
Defined.

End MtdEraseProps.
