(* ===== verification/MtdJffs2Props.v ===== *)
(** * jffs2 data: what is written can be read back

    The nodes of a block as data, their bytes, the walk over them, and the
    addition of a directory entry to a block. *)

From S2P Require Import Prelude CLib Mtd MtdCrc MtdKernel MtdSim MtdDev MtdJffs2.
Import Mtd MtdCrc MtdKernel MtdSim MtdDev MtdJffs2.
Open Scope Z_scope.
Open Scope cint_scope.

Module MtdJffs2Props.

Section nodes.
Context {Ar : Arch}.

(** ** Nodes and their bytes *)

(** The nodes the tool writes; the words of an inode are those from [isize] to
    [dsize]. *)
Inductive node :=
  | Clean
  | Dirent (name : list Z) (ty pino version ino : Z)
  | Inode (ino version mode : Z) (fields data : list Z).

Definition node_len (n : node) : Z :=
  match n with
  | Clean => 12
  | Dirent name _ _ _ _ => 40 + Z.of_nat (length name)
  | Inode _ _ _ _ data => 68 + Z.of_nat (length data)
  end.
(** The header of a node with the CRC-32 (without final complement, from 0) of
    its first two words. *)
Definition header_bytes (ty len : Z) : list Z :=
  let h := u16_bytes 0x1985 ++ u16_bytes ty ++ u32_bytes len in h ++ u32_bytes (crc32_serial h 0).
Definition dirent_front (name : list Z) (ty pino version ino : Z) : list Z :=
  header_bytes 0xe001 (40 + Z.of_nat (length name)) ++ u32_bytes pino ++ u32_bytes version ++ u32_bytes ino ++
  u32_bytes 0 ++ [Z.of_nat (length name); ty; 0; 0].
Definition inode_front (ino version mode : Z) (fields data : list Z) : list Z :=
  header_bytes 0xe002 (68 + Z.of_nat (length data)) ++ u32_bytes ino ++ u32_bytes version ++ u32_bytes mode ++
  u16_bytes 0 ++ u16_bytes 0 ++ mjoin (u32_bytes <$> fields) ++ [0; 0; 0; 0].
Definition node_bytes (n : node) : list Z :=
  match n with
  | Clean => CLEANMARKER
  | Dirent name ty pino version ino =>
      let d := dirent_front name ty pino version ino in
      d ++ u32_bytes (crc32_serial d 0) ++ u32_bytes (crc32_serial name 0) ++ name
  | Inode ino version mode fields data =>
      let d := inode_front ino version mode fields data in
      d ++ u32_bytes (crc32_serial data 0) ++ u32_bytes (crc32_serial d 0) ++ data
  end.
(** Nodes start at multiples of 4. *)
Definition node_space (n : node) : Z := ((node_len n + 3) / 4) * 4.
Definition padded_node (n : node) : list Z :=
  node_bytes n ++ replicate (Z.to_nat (node_space n - node_len n)) 255.
Definition layout (ns : list node) : list Z := mjoin (padded_node <$> ns).

(** Numbers that the variables of the code can hold; a name is a C string of
    at most 255 bytes. *)
Definition node_wf (n : node) : Prop :=
  match n with
  | Clean => True
  | Dirent name ty pino version ino =>
      bytes_wf name ∧ (0 ∉ name) ∧ Z.of_nat (length name) ≤ 255 ∧ 0 ≤ ty < 256 ∧
      0 ≤ pino < 2 ^ 31 ∧ 0 ≤ version < 2 ^ 31 ∧ 0 ≤ ino < 2 ^ 31
  | Inode ino version mode fields data =>
      length fields = 7%nat ∧ Z.of_nat (length data) < 2 ^ 30
  end.

#[export] Instance node_wf_dec n : Decision (node_wf n).
Proof. destruct n; unfold node_wf, bytes_wf; apply _. Defined.

(** What a node tells the walk, which looks for the directory [dir] below the
    root: a name counts as [dir] when it is a prefix of it. *)
Definition effect (dir : list Z) (j : jffs2_vars) (n : node) : jffs2_vars :=
  match n with
  | Dirent name _ pino version ino =>
      let j := if bool_decide (dir ≠ [] ∧ pino = 1 ∧ name `prefix_of` dir) then set_target_ino ino j else j in
      set_last_version (Z.max (last_version j) version) (set_last_ino (Z.max (last_ino j) ino) j)
  | _ => j
  end.

(** ** Sizes *)

Lemma length_u16_bytes z : length (u16_bytes z) = 2%nat.
Proof. unfold u16_bytes. case_match; [apply length_be_bytes|apply length_le_bytes]. Qed.
Lemma length_header ty len : length (header_bytes ty len) = 12%nat.
Proof. unfold header_bytes. by rewrite !length_app, !length_u16_bytes, !length_u32_bytes. Qed.
Lemma length_words ws : length (mjoin (u32_bytes <$> ws)) = (4 * length ws)%nat.
Proof. 
  induction ws as [|w ws IH]; [done|]. rewrite fmap_cons.
  change (mjoin (u32_bytes w :: (u32_bytes <$> ws))) with (u32_bytes w ++ mjoin (u32_bytes <$> ws)).
  rewrite length_app, length_u32_bytes, IH. cbn. lia.
Qed.
Lemma length_node n : node_wf n → Z.of_nat (length (node_bytes n)) = node_len n.
Proof.
  destruct n as [|name ty pino version ino|ino version mode fields data]; cbn.
  - intros _. unfold CLEANMARKER. by case_match.
  - intros _. unfold dirent_front. rewrite !length_app, length_header, !length_u32_bytes. cbn. lia.
  - intros [Hf _]. unfold inode_front. rewrite !length_app, length_header, !length_u32_bytes, !length_u16_bytes, length_words, Hf.
    cbn. lia.
Qed.
Lemma node_len_range n : node_wf n → 12 ≤ node_len n < 2 ^ 31 - 4.
Proof. destruct n; cbn; lia. Qed.
Lemma node_space_range n : node_len n ≤ node_space n < node_len n + 4.
Proof. unfold node_space. pose proof (Z.div_mod (node_len n + 3) 4). pose proof (Z.mod_pos_bound (node_len n + 3) 4). lia. Qed.
Lemma length_padded n : node_wf n → Z.of_nat (length (padded_node n)) = node_space n.
Proof.
  intros Hn. pose proof (length_node n Hn). pose proof (node_space_range n).
  unfold padded_node. rewrite length_app, length_replicate. lia.
Qed.
Lemma PAD_space n : node_wf n → PAD (node_len n) = node_space n.
Proof.
  intros Hn. pose proof (node_len_range n Hn). unfold PAD, node_space. rewrite u32_small by lia.
  change 0xfffffffc with (Z.ldiff (Z.ones 32) (Z.ones 2)).
  assert (∀ a, 0 ≤ a < 2 ^ 32 → a .& Z.ldiff (Z.ones 32) (Z.ones 2) = Z.ldiff a (Z.ones 2)) as ->.
  { intros a Ha. apply Z.bits_inj'. intros k Hk. rewrite Z.land_spec, !Z.ldiff_spec, !Z.testbit_ones by lia.
    destruct (decide (k < 32)).
    - by rewrite (proj2 (Z.leb_le 0 k)), (proj2 (Z.ltb_lt k 32)) by lia.
    - rewrite (bits_above a 32) by lia. done. }
  2: lia. by rewrite Z.ldiff_ones_r, Z.shiftl_mul_pow2, Z.shiftr_div_pow2 by lia.
Qed.

(** ** Reading a node *)

Lemma field32_at b pre a w c pos x :
  b = pre ++ a ++ w ++ c → pos = Z.of_nat (length pre) → x = Z.of_nat (length a) → length w = 4%nat →
  MtdJffs2.field32 b (pos + x) = Ret (u32_of w).
Proof.
  intros -> -> -> Hw. unfold field32. erewrite (mread_at _ (pre ++ a) w c); [done|by rewrite <- app_assoc| |done].
  rewrite length_app. lia.
Qed.
Lemma field16_at b pre a z c pos x :
  b = pre ++ a ++ u16_bytes z ++ c → pos = Z.of_nat (length pre) → x = Z.of_nat (length a) → 0 ≤ z < 2 ^ 16 →
  field16 b (pos + x) = Ret z.
Proof.
  intros -> -> -> Hz. unfold field16.
  erewrite (mread_at _ (pre ++ a) (u16_bytes z) c); [|by rewrite <- app_assoc|rewrite length_app; lia|by rewrite length_u16_bytes].
  cbn [mbind result_bind]. f_equal. unfold u16_bytes. case_match; [rewrite be_val_bytes|rewrite le_val_bytes]; by apply Z.mod_small.
Qed.

(** The type of a node. *)
Definition node_type (n : node) : Z := match n with Clean => 0x2003 | Dirent _ _ _ _ _ => 0xe001 | Inode _ _ _ _ _ => 0xe002 end.
Lemma header_crc ty len : ∃ x, header_bytes ty len = u16_bytes 0x1985 ++ u16_bytes ty ++ u32_bytes len ++ u32_bytes x.
Proof. eexists. unfold header_bytes. by rewrite <- !app_assoc. Qed.
Lemma node_header_bytes n : node_wf n →
  ∃ c r, node_bytes n = u16_bytes 0x1985 ++ u16_bytes (node_type n) ++ u32_bytes (node_len n) ++ c ++ r ∧ length c = 4%nat.
Proof.
  destruct n as [|name ty pino version ino|ino version mode fields data]; cbn [node_bytes node_type node_len]; intros _.
  - unfold CLEANMARKER, u16_bytes, u32_bytes. destruct big_endian.
    + by exists [0xf0; 0x60; 0xdc; 0x98], [].
    + by exists [0xb1; 0xb0; 0x1e; 0xe4], [].
  - destruct (header_crc 0xe001 (40 + Z.of_nat (length name))) as [x Hx]. unfold dirent_front at 1. rewrite Hx.
    eexists (u32_bytes x), _. rewrite <- !app_assoc. split; [reflexivity|apply length_u32_bytes].
  - destruct (header_crc 0xe002 (68 + Z.of_nat (length data))) as [x Hx]. unfold inode_front at 1. rewrite Hx.
    eexists (u32_bytes x), _. rewrite <- !app_assoc. split; [reflexivity|apply length_u32_bytes].
Qed.

Lemma same_text_spec b pre name rest dir :
  b = pre ++ name ++ rest → 0 ∉ name →
  same_text b (length pre) dir (length name) = Ret (bool_decide (name `prefix_of` dir)).
Proof.
  intros ->. revert pre dir. induction name as [|c name IH]; intros pre dir Hz.
  { cbn. by rewrite bool_decide_eq_true_2 by apply prefix_nil. }
  apply not_elem_of_cons in Hz as [Hc Hz]. cbn [same_text length].
  assert ((pre ++ (c :: name) ++ rest) !! length pre = Some c) as -> by (rewrite lookup_app_r by lia; by rewrite Nat.sub_diag).
  destruct (Z.eqb_spec c (hd 0 dir)) as [Heq|Hne]; cbn [negb].
  - rewrite (proj2 (Z.eqb_neq c 0)) by congruence. destruct dir as [|d dir]; [cbn in Heq; congruence|].
    cbn in Heq. subst d. cbn [tail]. specialize (IH (pre ++ [c]) dir Hz). rewrite length_app in IH. cbn in IH.
    rewrite Nat.add_1_r, <- app_assoc in IH. etrans; [exact IH|]. f_equal. apply bool_decide_ext.
    split; [apply prefix_cons|apply prefix_cons_inv_2].
  - rewrite bool_decide_eq_false_2; [done|]. intros [r ->]. done.
Qed.

Lemma set_last_ino_id j : set_last_ino (last_ino j) j = j.
Proof. by destruct j. Qed.
Lemma set_last_version_id j : set_last_version (last_version j) j = j.
Proof. by destruct j. Qed.

Lemma parse_dirent_spec b pre rest dir name ty pino version ino j :
  b = pre ++ node_bytes (Dirent name ty pino version ino) ++ rest →
  node_wf (Dirent name ty pino version ino) → 0 ≤ last_ino j < 2 ^ 31 → 0 ≤ last_version j < 2 ^ 31 →
  parse_dirent b dir (Z.of_nat (length pre)) j = Ret (effect dir j (Dirent name ty pino version ino)).
Proof.
  intros Hb (Hname & Hz & Hlen & Hty & Hp & Hv & Hi) Hli Hlv. cbn [node_bytes] in Hb. cbv zeta in Hb.
  revert Hb. generalize (crc32_serial (dirent_front name ty pino version ino) 0) (crc32_serial name 0). intros c1 c2 Hb.
  unfold dirent_front in Hb.
  set (h := header_bytes _ _) in Hb. assert (length h = 12%nat) as Hh by apply length_header. rewrite <- !app_assoc in Hb.
  unfold parse_dirent.
  erewrite (field32_at b pre h (u32_bytes pino) _ _ 12); [|exact Hb|done|lia|apply length_u32_bytes].
  erewrite (field32_at b pre (h ++ u32_bytes pino) (u32_bytes version) _ _ 16); [|by rewrite <- !app_assoc|done|by rewrite length_app, length_u32_bytes, Hh|apply length_u32_bytes].
  erewrite (field32_at b pre (h ++ u32_bytes pino ++ u32_bytes version) (u32_bytes ino) _ _ 20);
    [|by rewrite <- !app_assoc|done|by rewrite !length_app, !length_u32_bytes, Hh|apply length_u32_bytes].
  cbn [mbind result_bind]. rewrite !u32_of_bytes, !u32_small by lia.
  set (f := h ++ u32_bytes pino ++ u32_bytes version ++ u32_bytes ino ++ u32_bytes 0) in *.
  assert (length f = 28%nat) as Hf by (unfold f; by rewrite !length_app, !length_u32_bytes, Hh).
  set (l := Z.of_nat (length name)) in *.
  erewrite (mread_at b (pre ++ f) [l]); [|unfold f; rewrite Hb, <- !app_assoc; reflexivity|rewrite length_app, Hf; lia|done].
  cbn [mbind result_bind hd].
  assert (∃ q, b = (pre ++ q) ++ name ++ rest ∧ length q = 40%nat) as (q & Hbq & Hq).
  { exists (f ++ [l; ty; 0; 0] ++ u32_bytes c1 ++ u32_bytes c2). split.
    - rewrite Hb. unfold f. by rewrite <- !app_assoc.
    - rewrite !length_app, Hf, !length_u32_bytes. done. }
  assert (same_text b (Z.to_nat (Z.of_nat (length pre) + 40)) dir (Z.to_nat l) = Ret (bool_decide (name `prefix_of` dir))) as Hst.
  { replace (Z.to_nat (Z.of_nat (length pre) + 40)) with (length (pre ++ q)) by (rewrite length_app; lia).
    replace (Z.to_nat l) with (length name) by lia. by eapply same_text_spec. }
  assert ((if negb (bool_decide (dir = [])) && (pino =? 1)
    then same_text b (Z.to_nat (Z.of_nat (length pre) + 40)) dir (Z.to_nat l) else Ret false) =
    Ret (bool_decide (dir ≠ [] ∧ pino = 1 ∧ name `prefix_of` dir))) as ->.
  { rewrite Hst. destruct (decide (dir = [])) as [->|Hd].
    { rewrite bool_decide_eq_true_2 by done. by rewrite (bool_decide_eq_false_2 (_ ∧ _)) by tauto. }
    rewrite (bool_decide_eq_false_2 (dir = [])) by done. cbn [negb andb]. destruct (Z.eqb_spec pino 1) as [->|Hp1].
    - f_equal. apply bool_decide_ext. tauto.
    - by rewrite (bool_decide_eq_false_2 (_ ∧ _)) by tauto. }
  cbn [mbind result_bind effect]. rewrite !s32_small by lia. f_equal.
  set (j' := if bool_decide _ then set_target_ino ino j else j).
  assert (last_ino j' = last_ino j ∧ last_version j' = last_version j) as [E1 E2]
    by (unfold j'; clear; destruct (bool_decide _); split; reflexivity).
  rewrite E1, E2, (u32_small (last_ino j)) by lia.
  assert ((if last_ino j <? ino then set_last_ino ino j' else j') = set_last_ino (Z.max (last_ino j) ino) j') as ->.
  { destruct (Z.ltb_spec (last_ino j) ino); [by rewrite Z.max_r by lia|]. by rewrite Z.max_l, <- E1, set_last_ino_id by lia. }
  cbn [last_version set_last_ino]. rewrite E2, (u32_small (last_version j)) by lia.
  destruct (Z.ltb_spec (last_version j) version); [by rewrite (Z.max_r (last_version j)) by lia|].
  rewrite (Z.max_l (last_version j)) by lia.
  rewrite <- E2. by destruct j'.
Qed.

Lemma effect_range dir j n : node_wf n → 0 ≤ last_ino j < 2 ^ 31 → 0 ≤ last_version j < 2 ^ 31 →
  0 ≤ last_ino (effect dir j n) < 2 ^ 31 ∧ 0 ≤ last_version (effect dir j n) < 2 ^ 31.
Proof.
  destruct n as [|name ty pino version ino|]; cbn [effect node_wf]; [done| |done].
  intros (_ & _ & _ & _ & _ & Hv & Hi) Hli Hlv.
  set (j' := if bool_decide _ then set_target_ino ino j else j).
  assert (last_ino j' = last_ino j ∧ last_version j' = last_version j) as [E1 E2]
    by (unfold j'; clear; destruct (bool_decide _); split; reflexivity).
  cbn [last_ino last_version set_last_ino set_last_version]. rewrite E1, E2. lia.
Qed.

Lemma layout_cons n ns : layout (n :: ns) = padded_node n ++ layout ns.
Proof. done. Qed.

Lemma length_layout ns : Forall node_wf ns → 12 * Z.of_nat (length ns) ≤ Z.of_nat (length (layout ns)).
Proof.
  induction 1 as [|n ns Hn Hns IH]; [done|]. rewrite layout_cons, length_app, Nat2Z.inj_add, length_padded by done.
  pose proof (node_len_range n Hn). pose proof (node_space_range n). cbn. lia.
Qed.

(** A walk from the end of [pre]. *)
Lemma parse_nodes_spec es b dir n ns fuel pre j :
  b = pre ++ layout ns ++ replicate n 255 → n ≠ 0%nat → n ≠ 1%nat → Z.of_nat (length b) = es → es < 2 ^ 31 →
  Forall node_wf ns → 0 ≤ last_ino j < 2 ^ 31 → 0 ≤ last_version j < 2 ^ 31 → (length ns < fuel)%nat →
  parse_nodes fuel es b dir (Z.of_nat (length pre)) j = Ret (foldl (effect dir) j ns).
Proof.
  revert fuel pre j. induction ns as [|a ns IH]; intros fuel pre j Hb Hn0 Hn1 Hes Hes' Hwf Hli Hlv Hfuel.
  all: destruct fuel as [|fuel]; [cbn in Hfuel; lia|]; cbn [parse_nodes foldl].
  all: assert (Z.of_nat (length pre) < u32 es) as Hlt;
    [rewrite u32_small by lia; rewrite <- Hes, Hb, !length_app, length_replicate; lia|];
    rewrite (proj2 (Z.ltb_lt _ _) Hlt).
  - destruct n as [|[|n]]; [done..|]. cbn in Hb. unfold field16.
    rewrite (mread_at b pre [255; 255] (replicate n 255) (Z.to_nat (Z.of_nat (length pre))) 2) by (done || lia). cbn [mbind result_bind].
    assert ((if big_endian then be_val [255; 255] else le_val [255; 255]) = 65535) as -> by by case_match. done.
  - apply Forall_cons in Hwf as [Ha Hwf]. pose proof (node_len_range a Ha) as Hlen.
    destruct (node_header_bytes a Ha) as (c & r & Hnb & Hc).
    rewrite layout_cons in Hb. unfold padded_node in Hb.
    assert (b = pre ++ node_bytes a ++ (replicate (Z.to_nat (node_space a - node_len a)) 255 ++ layout ns ++ replicate n 255)) as Hb'
      by (rewrite Hb, <- !app_assoc; done).
    pose proof Hb' as Hf. rewrite Hnb, <- !app_assoc in Hf.
    assert (field16 b (Z.of_nat (length pre)) = Ret 0x1985) as ->.
    { rewrite <- (Z.add_0_r (Z.of_nat (length pre))). eapply (field16_at b pre [] 0x1985); [exact Hf|done|done|lia]. }
    cbn [mbind result_bind]. rewrite Z.eqb_refl. cbn [negb].
    erewrite (field32_at b pre (u16_bytes 0x1985 ++ u16_bytes (node_type a)) (u32_bytes (node_len a)) _ _ 4);
      [|rewrite <- !app_assoc; exact Hf|done|by rewrite length_app, !length_u16_bytes|apply length_u32_bytes].
    cbn [mbind result_bind]. rewrite u32_of_bytes, (u32_small (node_len a)) by lia.
    erewrite (field16_at b pre (u16_bytes 0x1985) (node_type a) _ _ 2);
      [|exact Hf|done|by rewrite length_u16_bytes|destruct a; cbn; lia].
    cbn [mbind result_bind]. rewrite PAD_space by done.
    pose proof (length_padded a Ha) as Hpad.
    assert (u32 (Z.of_nat (length pre) + node_space a) = Z.of_nat (length (pre ++ padded_node a))) as Hpos.
    { rewrite length_app, Nat2Z.inj_add, Hpad. apply u32_small.
      apply (f_equal (λ l, Z.of_nat (length l))) in Hb. fold (padded_node a) in Hb.
      rewrite Hes, !length_app in Hb. lia. }
    rewrite Hpos.
    assert ((if node_type a =? JFFS2_NODETYPE_DIRENT then parse_dirent b dir (Z.of_nat (length pre)) j else Ret j)
            = Ret (effect dir j a)) as ->.
    { destruct a as [|name ty pino version ino|]; cbn [node_type]; [done| |done].
      change (0xe001 =? JFFS2_NODETYPE_DIRENT) with true. cbn match. by eapply parse_dirent_spec. }
    cbn [mbind result_bind]. destruct (effect_range dir j a) as [Hi Hv]; try done.
    apply IH; try done; [|cbn in Hfuel; lia].
    rewrite Hb. unfold padded_node. by rewrite <- !app_assoc.
Qed.

(** C37: [mtd_parse_jffs2data] reads back what a block holds.  Of a block of
    [erasesize] bytes that holds the nodes [ns], one after the other at
    multiples of 4, and is erased from there on (for two bytes or more), the
    walk ends without reading outside the block, calls nothing, and leaves the
    variables as if [effect] had been applied for each node in turn: the
    largest inode number and the largest version are remembered, and the
    directory is the last entry of the root whose name is a prefix of [dir]. *)
Theorem parse_layout {K} `{Kernel K} (s : state K) dir n ns :
  Z.of_nat (length (layout ns ++ replicate n 255)) = erasesize (gl s) → erasesize (gl s) < 2 ^ 31 →
  (2 ≤ n)%nat → Forall node_wf ns →
  0 ≤ last_ino (jffs2 (gl s)) < 2 ^ 31 → 0 ≤ last_version (jffs2 (gl s)) < 2 ^ 31 →
  mtd_parse_jffs2data (layout ns ++ replicate n 255) dir s =
  Done tt (State (kern s) (set_jffs2 (foldl (effect dir) (jffs2 (gl s)) ns) (gl s))).
Proof.
  intros Hes Hes' Hn Hns Hli Hlv. unfold mtd_parse_jffs2data, modj, mbind, M_bind, get, put, lift. cbn [gl].
  rewrite (parse_nodes_spec _ _ dir n ns _ [] (jffs2 (gl s))); try done; [lia..|].
  pose proof (length_layout ns Hns). rewrite u32_small by lia. rewrite length_app in Hes. lia.
Qed.

(** ** Writing a directory entry *)

Lemma u16_bytes_wf z : bytes_wf (u16_bytes z).
Proof. unfold u16_bytes. case_match; [apply be_bytes_wf|apply le_bytes_wf]. Qed.
Lemma header_wf ty len : bytes_wf (header_bytes ty len).
Proof. unfold header_bytes. repeat apply Forall_app_2; first [apply u16_bytes_wf|apply u32_bytes_wf]. Qed.
Lemma crc_serial b : bytes_wf b → crc 0 b = Ret (crc32_serial b 0).
Proof.
  intros Hb. unfold crc, crc32. rewrite Nat2Z.id. rewrite <- (app_nil_r b) at 2.
  by rewrite crc32_loop_foldl, crc32_foldl.
Qed.
Lemma node_header_ok ty len : 0 ≤ len < 2 ^ 32 → node_header ty len = Ret (header_bytes ty len).
Proof.
  intros Hl. unfold node_header. rewrite u32_small by done. rewrite crc_serial; [done|].
  repeat apply Forall_app_2; first [apply u16_bytes_wf|apply u32_bytes_wf].
Qed.
Lemma dirent_front_wf name ty pino version ino : node_wf (Dirent name ty pino version ino) →
  bytes_wf (dirent_front name ty pino version ino).
Proof.
  intros (_ & _ & Hlen & Hty & _). unfold dirent_front.
  apply Forall_app_2; [apply header_wf|]. do 4 (apply Forall_app_2; [apply u32_bytes_wf|]).
  repeat (apply Forall_cons; split; [lia|]). by apply Forall_nil.
Qed.
(** The bytes [add_dirent] builds are those of the node, without the name. *)
Lemma raw_dirent_ok name ty pino version ino : node_wf (Dirent name ty pino version ino) →
  ∃ de, raw_dirent name ty pino version ino = Ret de ∧ length de = 40%nat ∧
    node_bytes (Dirent name ty pino version ino) = de ++ name.
Proof.
  intros Hwf. pose proof (dirent_front_wf _ _ _ _ _ Hwf) as Hd. destruct Hwf as (Hname & _ & Hlen & Hty & Hp & Hv & Hi).
  unfold raw_dirent. rewrite (crc_serial name) by done. cbn [mbind result_bind]. unfold sizeof_dirent, JFFS2_NODETYPE_DIRENT.
  rewrite node_header_ok by lia. cbn [mbind result_bind].
  rewrite (u32_small pino), (u32_small version), (u32_small ino), (u8_small (Z.of_nat (length name))) by lia.
  change (header_bytes 0xe001 (40 + Z.of_nat (length name)) ++ u32_bytes pino ++ u32_bytes version ++ u32_bytes ino ++
    u32_bytes 0 ++ [Z.of_nat (length name); ty; 0; 0]) with (dirent_front name ty pino version ino).
  rewrite crc_serial by done. cbn [mbind result_bind]. eexists. split; [reflexivity|]. split.
  - unfold dirent_front. rewrite !length_app, length_header, !length_u32_bytes. done.
  - cbn [node_bytes]. cbv zeta. by rewrite <- !app_assoc.
Qed.

End nodes.

Section append.
Context {Ar : Arch} {K : Type} `{Kernel K}.

Lemma set_jffs2_twice a b g : set_jffs2 a (set_jffs2 b g) = set_jffs2 a g.
Proof. done. Qed.
Lemma wp_modj f Q E (s : state K) :
  Q tt (State (kern s) (set_jffs2 (f (jffs2 (gl s))) (gl s))) → wp (modj f) Q E s.
Proof. done. Qed.
Lemma wp_getj Q E (s : state K) : Q (jffs2 (gl s)) s → wp getj Q E s.
Proof. done. Qed.
(** Bytes [b] of the buffer become [b']. *)
Lemma wp_poke pos a b c b' Q E (s : state K) :
  jbuf (jffs2 (gl s)) = Some (a ++ b ++ c) → pos = Z.of_nat (length a) → length b' = length b →
  Q tt (State (kern s) (set_jffs2 (set_jbuf (Some (a ++ b' ++ c)) (jffs2 (gl s))) (gl s))) →
  wp (poke pos b') Q E s.
Proof.
  intros Hj -> Hl HQ. unfold poke. apply wp_bind, wp_getj. rewrite Hj.
  eapply wp_bind, wp_lift; [|by apply wp_modj]. rewrite (proj2 (Z.ltb_ge _ 0)) by lia.
  apply mwrite_at with b; [done|lia|done].
Qed.
(** Padding to a multiple of 4 within the block. *)
Lemma wp_pad4 a b c Q E (s : state K) :
  jbuf (jffs2 (gl s)) = Some (a ++ b ++ c) → ofs (jffs2 (gl s)) = Z.of_nat (length a) →
  Z.of_nat (length b) = (Z.of_nat (length a) + 3) / 4 * 4 - Z.of_nat (length a) →
  Z.of_nat (length a) + Z.of_nat (length b) < erasesize (gl s) →
  Q tt (State (kern s) (set_jffs2 (set_ofs (Z.of_nat (length a) + Z.of_nat (length b))
       (set_jbuf (Some (a ++ replicate (length b) 255 ++ c)) (jffs2 (gl s)))) (gl s))) →
  wp (pad 4) Q E s.
Proof.
  intros Hj Ho Hb Hlt HQ. unfold pad. apply wp_bind, wp_get. rewrite Ho. set (n := Z.of_nat (length a)) in *.
  apply wp_bind. apply (wp_lift (rem n 4) (n mod 4)); [unfold rem; cbn; by rewrite Z.rem_mod_nonneg by lia|].
  pose proof (Z.div_mod n 4) as Hd. pose proof (Z.mod_pos_bound n 4) as Hm.
  pose proof (Z.div_mod (n + 3) 4) as Hd'. pose proof (Z.mod_pos_bound (n + 3) 4) as Hm'.
  destruct (Z.eqb_spec (n mod 4) 0) as [Hz|Hz].
  - assert (length b = 0%nat) as Hb0 by lia. rewrite (proj2 (Z.ltb_lt n _)) by lia. cbn [andb]. apply wp_ret.
    rewrite Hb0 in HQ. destruct b; [|done]. cbn in HQ. revert HQ. rewrite Z.add_0_r, <- Ho.
    cbn in Hj. rewrite <- Hj. destruct s as [k g]. cbn. by destruct g as [??????????? ? []].
  - cbn [andb]. rewrite (proj2 (Z.ltb_lt n _)) by lia.
    assert (4 - n mod 4 = Z.of_nat (length b)) as Hpad by lia. rewrite Hpad, Nat2Z.id.
    apply wp_bind, wp_bind, (wp_poke n a b c); [done|done|by rewrite length_replicate|].
    apply wp_modj. apply wp_bind, wp_getj. cbn [gl kern jffs2 set_jffs2 ofs set_ofs erasesize].
    apply wp_bind. apply (wp_lift _ (n + Z.of_nat (length b))).
    { unfold rem. rewrite (proj2 (Z.eqb_neq _ 0)) by lia. by rewrite Z.rem_small by lia. }
    apply wp_bind, wp_modj. rewrite (proj2 (Z.eqb_neq _ 0)) by lia. apply wp_ret. exact HQ.
Qed.

Lemma layout_app ns ms : layout (ns ++ ms) = layout ns ++ layout ms.
Proof. unfold layout. rewrite fmap_app. apply join_app. Qed.
Lemma layout_aligned ns : Forall node_wf ns → (4 | Z.of_nat (length (layout ns))).
Proof.
  induction 1 as [|n ns Hn Hns IH]; [by exists 0|]. rewrite layout_cons, length_app, Nat2Z.inj_add, length_padded by done.
  apply Z.divide_add_r; [|done]. by exists ((node_len n + 3) / 4).
Qed.

(** The test for room of [add_dirent] is false below the end of the block. *)
Lemma room_test o es n : 0 ≤ o < es → es < 2 ^ 31 → 0 ≤ n < 2 ^ 31 → (size_t (o - es) <? size_t n) = false.
Proof.
  intros Ho He Hn. unfold size_t. assert (2 ^ 32 ≤ 2 ^ long_bits) as Hl by (destruct long_bits_ok as [-> | ->]; lia).
  apply Z.ltb_ge. rewrite (Z.mod_small n) by lia. rewrite <- (Z.mod_unique (o - es) (2 ^ long_bits) (-1) (o - es + 2 ^ long_bits)); lia.
Qed.
(** Any block can be cut in pieces of given lengths. *)
Lemma cut (l : list Z) n : (n ≤ length l)%nat → ∃ a b, l = a ++ b ∧ length a = n ∧ b = drop n l.
Proof. intros Hn. exists (take n l), (drop n l). by rewrite take_drop, length_take_le. Qed.

(** A block that is empty is begun with a clean marker. *)
Definition started (ns : list node) : list node := match ns with [] => [Clean] | _ => ns end.
Lemma started_wf ns : Forall node_wf ns → Forall node_wf (started ns).
Proof. destruct ns; [by constructor|done]. Qed.
Lemma layout_started ns : Forall node_wf ns → (length (layout ns) ≤ length (layout (started ns)))%nat ∧ (12 ≤ length (layout (started ns)))%nat.
Proof.
  intros Hns. pose proof (length_layout _ (started_wf ns Hns)) as Hl. destruct ns; [split; [apply Nat.le_0_l|]|split; [done|]];
    cbn [started length] in *; lia.
Qed.
Lemma wp_prep ns free Q E (s : state K) :
  let j := jffs2 (gl s) in
  let n := length (layout (started ns)) in
  jbuf j = Some (layout ns ++ free) → ofs j = Z.of_nat (length (layout ns)) → Forall node_wf ns →
  Z.of_nat (length (layout ns ++ free)) = erasesize (gl s) → Z.of_nat n < erasesize (gl s) →
  Q tt (State (kern s) (set_jffs2 (set_ofs (Z.of_nat n)
    (set_jbuf (Some (layout (started ns) ++ drop (n - length (layout ns)) free)) j)) (gl s))) →
  wp prep_eraseblock Q E s.
Proof.
  intros j n Hbuf Hofs Hns Hlen Hn HQ. unfold n in Hn, HQ. clear n. unfold prep_eraseblock, prep_with. apply wp_bind, wp_getj. fold j.
  destruct ns as [|m ns].
  - change (layout []) with (@nil Z) in *.
    assert (layout (started []) = CLEANMARKER) as Ecl by (change ((CLEANMARKER ++ []) ++ [] = CLEANMARKER); by rewrite !app_nil_r).
    rewrite Ecl in Hn, HQ.
    cbn [app length] in *. assert (length CLEANMARKER = 12%nat) as Hc by (unfold CLEANMARKER; by case_match).
    rewrite Hc in Hn. rewrite Hc in HQ. rewrite Hofs. change (0 <? Z.of_nat 0) with false. cbn [add_data_fuel].
    apply wp_bind, wp_get. fold j. rewrite Hc, Hofs, (proj2 (Z.ltb_ge _ _)) by lia. apply wp_bind, wp_ret, wp_bind, wp_getj. fold j.
    destruct (cut free 12) as (f & r & -> & Hf & Hr); [lia|].
    apply wp_bind, (wp_poke _ [] f r); [done|done|lia|]. apply wp_modj. rewrite Hofs. change (12 - 0)%nat with 12%nat in HQ.
    rewrite <- Hr in HQ. exact HQ.
  - pose proof (length_layout _ Hns) as Hl. cbn [length] in Hl. rewrite (proj2 (Z.ltb_lt 0 _)) by lia. apply wp_ret.
    cbn [started] in *. rewrite Nat.sub_diag, drop_0, <- Hbuf, <- Hofs in HQ.
    revert HQ. unfold j. destruct s as [k g]. cbn. by destruct g as [??????????? ? []].
Qed.

(** The entry itself, in a block that has been begun. *)
Lemma wp_add_entry (s : state K) ns free name ty parent :
  let j := jffs2 (gl s) in
  let d := Dirent name ty parent (last_version j) (last_ino j + 1) in
  jbuf j = Some (layout ns ++ free) → ofs j = Z.of_nat (length (layout ns)) → Forall node_wf ns → node_wf d →
  last_ino j + 2 < 2 ^ 31 → last_version j + 1 < 2 ^ 31 → 0 ≤ last_ino j →
  Z.of_nat (length (layout ns ++ free)) = erasesize (gl s) → erasesize (gl s) < 2 ^ 31 →
  ofs j + node_space d < erasesize (gl s) →
  wp (_ ← modj (λ j, set_last_ino (s32 (last_ino j + 1)) j);
      j ← getj;
      _ ← poke (ofs j) (replicate (Z.to_nat sizeof_dirent) 0);
      de ← lift (raw_dirent name ty parent (last_version j) (last_ino j));
      _ ← modj (λ j, set_last_version (s32 (last_version j + 1)) (set_last_ino (s32 (last_ino j + 1)) j));
      _ ← poke (ofs j) de;
      _ ← poke (ofs j + sizeof_dirent) name;
      _ ← modj (set_ofs (ofs j + (sizeof_dirent + u8 (Z.of_nat (length name)))));
      _ ← pad 4;
      mret (last_ino j))
    (λ r s', r = last_ino j + 1 ∧ s' = State (kern s) (set_jffs2
       (Jffs2 (last_ino j + 2) (last_version j + 1)
          (Some (layout (ns ++ [d]) ++ drop (Z.to_nat (node_space d)) free))
          (ofs j + node_space d) (outfd j) (mtdofs j) (target_ino j)) (gl s))) (λ _ _, False) s.
Proof.
  intros j d Hbuf Hofs Hns Hd Hi Hv Hi0 Hlen Hes Hroom.
  pose proof Hd as (_ & _ & Hname & _). pose proof (node_space_range d) as Hsp. pose proof (length_node d Hd) as Hnb.
  destruct (raw_dirent_ok name ty parent (last_version j) (last_ino j + 1) Hd) as (de & Hde & Hlde & Hbytes). fold d in Hbytes.
  assert (node_len d = 40 + Z.of_nat (length name)) as Hnl by done.
  pose proof Hlen as Hlen'. rewrite length_app in Hlen'.
  destruct (cut free 40) as (f1 & r1 & Hf1 & Hl1 & Hr1); [lia|]. rewrite Hf1, length_app in Hlen'.
  destruct (cut r1 (length name)) as (f2 & r2 & Hf2 & Hl2 & Hr2); [lia|]. rewrite Hf2, length_app in Hlen'.
  destruct (cut r2 (Z.to_nat (node_space d - node_len d))) as (f3 & f4 & Hf3 & Hl3 & Hr3); [lia|].
  assert (f4 = drop (Z.to_nat (node_space d)) free) as Hf4.
  { rewrite Hr3, Hr2, Hr1, !drop_drop. f_equal. lia. }
  rewrite Hf1, Hf2, Hf3 in Hbuf.
  assert (node_space d - node_len d = (Z.of_nat (length (layout ns ++ de ++ name)) + 3) / 4 * 4 - Z.of_nat (length (layout ns ++ de ++ name))) as Hpad.
  { destruct (layout_aligned ns Hns) as [q Hq]. rewrite !length_app, !Nat2Z.inj_add, Hlde, Hq.
    unfold node_space. replace (q * 4 + (Z.of_nat 40 + Z.of_nat (length name)) + 3) with (node_len d + 3 + q * 4) by lia.
    rewrite Z.div_add by lia. lia. }
  apply wp_bind, wp_modj. fold j. rewrite s32_small by lia.
  apply wp_bind, wp_getj. cbn [gl kern jffs2 set_jffs2 ofs set_last_ino last_ino last_version].
  apply wp_bind, (wp_poke _ (layout ns) f1 (f2 ++ f3 ++ f4)); [done|done|by rewrite length_replicate, Hl1|].
  eapply wp_bind, wp_lift; [exact Hde|]. apply wp_bind, wp_modj.
  apply wp_bind, (wp_poke _ (layout ns) (replicate 40 0) (f2 ++ f3 ++ f4)); [done|done|by rewrite length_replicate|].
  apply wp_bind, (wp_poke _ (layout ns ++ de) f2 (f3 ++ f4)); [|unfold sizeof_dirent; rewrite length_app; lia|done|].
  { cbn [gl kern jffs2 set_jffs2 jbuf set_jbuf]. by rewrite <- !app_assoc. }
  apply wp_bind, wp_modj. apply wp_bind, (wp_pad4 (layout ns ++ de ++ name) f3 f4).
  { cbn [gl kern jffs2 set_jffs2 jbuf set_jbuf set_ofs]. by rewrite <- !app_assoc. }
  { cbn [gl kern jffs2 set_jffs2 ofs set_ofs]. rewrite u8_small by lia. unfold sizeof_dirent. rewrite !length_app. lia. }
  { rewrite Hl3. lia. }
  { cbn [gl kern jffs2 set_jffs2 erasesize]. rewrite !length_app, Hl3. lia. }
  apply wp_ret. split; [done|]. cbn [kern gl]. f_equal.
  rewrite !set_jffs2_twice. f_equal. cbn [jffs2 set_jffs2]. fold j.
  rewrite layout_app, layout_cons. unfold padded_node. rewrite Hbytes, <- Hf4, Hl3, app_nil_r.
  cbn [last_ino last_version set_jbuf set_ofs set_last_ino set_last_version].
  rewrite (s32_small (last_ino j + 1 + 1)), (s32_small (last_version j + 1)) by (destruct Hd; lia).
  unfold set_ofs, set_jbuf, set_last_version, set_last_ino. cbn [last_ino last_version jbuf ofs outfd mtdofs target_ino].
  f_equal; [lia|by rewrite <- !app_assoc|]. rewrite !length_app. lia.
Qed.

(** C36: [add_dirent] appends a node.  When the nodes [ns] are in the buffer of
    one block, or nothing is, in which case a clean marker is put first, and the
    new entry, of a name of at most 255 bytes, ends before the end of the block,
    [add_dirent] calls nothing and returns the inode number after the last one;
    the buffer then holds the nodes and the new entry, padded with 0xff to a
    multiple of 4 and with both checksums right, and the rest of the buffer as it
    was; the inode number has grown by 2 (it is incremented twice) and the
    version by 1, neither of which overflows. *)
Theorem add_dirent_appends (s : state K) ns free name ty parent :
  let j := jffs2 (gl s) in
  let d := Dirent name ty parent (last_version j) (last_ino j + 1) in
  let written := layout (started ns ++ [d]) in
  jbuf j = Some (layout ns ++ free) → ofs j = Z.of_nat (length (layout ns)) → Forall node_wf ns → node_wf d →
  last_ino j + 2 < 2 ^ 31 → last_version j + 1 < 2 ^ 31 → 0 ≤ last_ino j →
  Z.of_nat (length (layout ns ++ free)) = erasesize (gl s) → erasesize (gl s) < 2 ^ 31 →
  Z.of_nat (length written) < erasesize (gl s) →
  wp (add_dirent name ty parent)
    (λ r s', r = last_ino j + 1 ∧ s' = State (kern s) (set_jffs2
       (Jffs2 (last_ino j + 2) (last_version j + 1)
          (Some (written ++ drop (length written - length (layout ns)) free))
          (Z.of_nat (length written)) (outfd j) (mtdofs j) (target_ino j)) (gl s))) (λ _ _, False) s.
Proof.
  intros j d written Hbuf Hofs Hns Hd Hi Hv Hi0 Hlen Hes Hroom.
  pose proof (started_wf ns Hns) as Hns'. destruct (layout_started ns Hns) as [Hle H12].
  set (ns' := started ns) in *. pose proof (length_padded d Hd) as Hpl.
  assert (length written = length (layout ns') + Z.to_nat (node_space d))%nat as Hwl.
  { unfold written. rewrite layout_app, length_app, layout_cons, app_nil_r. lia. }
  pose proof Hd as (_ & _ & Hname & _). pose proof (node_space_range d) as Hsp. pose proof (length_node d Hd) as Hnb.
  assert (node_len d = 40 + Z.of_nat (length name)) as Hnl by done.
  unfold add_dirent. apply wp_bind, wp_get. fold j.
  pose proof Hlen as Hlen'. rewrite length_app in Hlen'. rewrite room_test by (unfold sizeof_dirent; lia).
  apply wp_bind, wp_ret, wp_bind, (wp_prep ns free); [done|done|done|done|fold ns'; lia|]. fold j ns'.
  set (free' := drop (length (layout ns') - length (layout ns)) free).
  assert (length free' = length (layout ns) + length free - length (layout ns'))%nat as Hfl by (unfold free'; rewrite length_drop; lia).
  replace (length written - length (layout ns))%nat
    with (length (layout ns') - length (layout ns) + Z.to_nat (node_space d))%nat by lia.
  rewrite <- drop_drop. fold free'. 
  eapply wp_mono; [apply (wp_add_entry _ ns' free'); cbn [gl jffs2 set_jffs2 set_ofs set_jbuf last_ino last_version jbuf ofs erasesize];
    try done; [rewrite length_app; lia|fold d; lia]| |done].
  cbn beta. intros r s' [-> ->]. split; [done|].
  cbn [gl kern jffs2 set_jffs2 set_ofs set_jbuf last_ino last_version ofs outfd mtdofs target_ino]. fold d written.
  rewrite set_jffs2_twice. do 3 f_equal. lia.
Qed.

(** The monad's equations, for a run that is followed to its fault. *)
Lemma bind_get {A} (f : globals → M K A) s : (get ≫= f) s = f (gl s) s.
Proof. done. Qed.
Lemma bind_getj {A} (f : jffs2_vars → M K A) s : (getj ≫= f) s = f (jffs2 (gl s)) s.
Proof. done. Qed.
Lemma bind_modj {A} (h : jffs2_vars → jffs2_vars) (f : unit → M K A) s :
  (modj h ≫= f) s = f tt (State (kern s) (set_jffs2 (h (jffs2 (gl s))) (gl s))).
Proof. done. Qed.
Lemma bind_ret {A B} (a : A) (f : A → M K B) s : (mret a ≫= f) s = f a s.
Proof. done. Qed.
Lemma bind_assoc {A B C} (m : M K A) (f : A → M K B) (h : B → M K C) s :
  ((m ≫= f) ≫= h) s = (m ≫= (λ a, f a ≫= h)) s.
Proof. unfold mbind, M_bind. by destruct (m s). Qed.

Lemma bind_poke_out {A} pos m bs (f : unit → M K A) s :
  jbuf (jffs2 (gl s)) = Some m → 0 ≤ pos → Z.of_nat (length m) < pos + Z.of_nat (length bs) →
  (poke pos bs ≫= f) s = Broken OutOfBounds.
Proof.
  intros Hm Hp Hl. unfold poke. rewrite bind_assoc, bind_getj, Hm, (proj2 (Z.ltb_ge _ 0)) by lia.
  unfold mwrite. rewrite decide_False by lia. done.
Qed.

(** C38: the room for a directory entry is not checked.  When fewer than 40
    bytes are left in the block, [add_dirent] does not go on to the next block,
    as it means to, but writes behind the end of the buffer. *)
Theorem add_dirent_overflow (s : state K) m name ty parent :
  jbuf (jffs2 (gl s)) = Some m → Z.of_nat (length m) = erasesize (gl s) → erasesize (gl s) < 2 ^ 31 →
  0 < ofs (jffs2 (gl s)) < erasesize (gl s) → erasesize (gl s) < ofs (jffs2 (gl s)) + 40 →
  Z.of_nat (length name) < 2 ^ 30 →
  add_dirent name ty parent s = Broken OutOfBounds.
Proof.
  intros Hm Hl Hes Hofs Hroom Hn. unfold add_dirent. rewrite bind_get, room_test by (unfold sizeof_dirent; lia).
  rewrite bind_ret. unfold prep_eraseblock, prep_with. cbv beta. rewrite bind_assoc, bind_getj, (proj2 (Z.ltb_lt 0 _)) by lia.
  rewrite bind_ret, bind_modj, bind_getj. apply bind_poke_out with m; cbn [gl jffs2 set_jffs2 ofs set_last_ino]; [done|lia|].
  rewrite length_replicate. unfold sizeof_dirent. lia.
Qed.

End append.

(** ** A block *)

Module DemoBlock.
Definition blank : jffs2_vars := Jffs2 1 0 None 0 (-1) 0 0.
Definition nodes : list node :=
  [Clean; Dirent (cs "etc") 4 1 0 2; Inode 2 1 0x41ed [0; 0; 0; 0; 0; 0; 0] []; Dirent (cs "hosts") 8 2 1 4].
(** A block of 256 bytes, of which the nodes take 172. *)
Definition globals_with (j : jffs2_vars) : globals := set_jffs2 j (set_info 1024 256 3 initial_globals).
Definition dev : object := Object (replicate 1024 255) None [].
Definition start (j : jffs2_vars) : state sim := State (one_device dev) (globals_with j).
(** The buffer after the last node but one, and one in which 24 bytes are left. *)
Definition filled : jffs2_vars :=
  Jffs2 3 1 (Some (layout (Ar := mipsel) (take 3 nodes) ++ replicate 132 255)) 124 3 0 2.
Definition full : jffs2_vars := Jffs2 3 1 (Some (replicate 256 255)) 232 3 0 2.

Lemma block_nodes_wf : Forall node_wf nodes.
Proof. apply (bool_decide_unpack _). by vm_compute. Qed.
End DemoBlock.

Lemma parse_layout_witness :
  mtd_parse_jffs2data (Ar := mipsel) (layout (Ar := mipsel) DemoBlock.nodes ++ replicate 84 255) (cs "etc")
    (DemoBlock.start DemoBlock.blank) =
  Done tt (DemoBlock.start (Jffs2 4 1 None 0 (-1) 0 2)).
Proof.
  rewrite (parse_layout (Ar := mipsel) (DemoBlock.start DemoBlock.blank) (cs "etc") 84 DemoBlock.nodes);
    [by vm_compute|by vm_compute|done|lia|apply DemoBlock.block_nodes_wf|done|done].
Defined.

Lemma add_dirent_appends_witness :
  wp (add_dirent (Ar := mipsel) (cs "hosts") 8 2)
    (λ r s', r = 4 ∧ s' = DemoBlock.start (Jffs2 5 2 (Some (layout (Ar := mipsel) DemoBlock.nodes ++ replicate 84 255)) 172 3 0 2))
    (λ _ _, False) (DemoBlock.start DemoBlock.filled).
Proof.
  eapply wp_mono.
  - apply (add_dirent_appends (Ar := mipsel) (DemoBlock.start DemoBlock.filled) (take 3 DemoBlock.nodes) (replicate 132 255));
      [done|by vm_compute|apply Forall_take, DemoBlock.block_nodes_wf|apply (bool_decide_unpack _); by vm_compute|done..
      |by vm_compute|done|by vm_compute].
  - by intros r s' [-> ->].
  - done.
Defined.

Lemma add_dirent_overflow_witness :
  add_dirent (Ar := mipsel) (cs "hosts") 8 2 (DemoBlock.start DemoBlock.full) = Broken OutOfBounds.
Proof.
  apply (add_dirent_overflow (Ar := mipsel) (DemoBlock.start DemoBlock.full) (replicate 256 255)); by vm_compute.
Defined.

End MtdJffs2Props.
