(* ===== verification/MtdImagetag.v ===== *)
(** * Broadcom image tags (package/system/mtd/src/imagetag.c)

    For brcm63xx this file takes the place of trx.c: the header of an image is
    a tag of 256 bytes with decimal numbers in text fields and CRC-32 values in
    the byte order of the CPU.  [mtd_fixtrx] takes the root file system, whose
    contents change, out of the tag. *)

From S2P Require Import Prelude CLib Mtd MtdCrc MtdTrx.
Import Mtd MtdCrc.
Open Scope Z_scope.
Open Scope cint_scope.

Module MtdImagetag.

(** ** [struct bcm_tag] *)

Definition IMAGE_LEN : Z := 10.
Definition tag_total_length : Z := 62.
Definition tag_cfe_length : Z := 84.
Definition tag_root_length : Z := 106.
Definition tag_kernel_length : Z := 128.
Definition tag_fskernel_crc : Z := 196.
Definition tag_image_crc : Z := 216.
Definition tag_rootfs_crc : Z := 220.
Definition tag_kernel_crc : Z := 224.
Definition tag_header_crc : Z := 236.
Definition sizeof_bcm_tag : Z := 256.
Definition CRC_START : Z := 0xFFFFFFFF.

(** The string at the start of [w]. *)
Fixpoint upto_nul (w : list Z) : list Z :=
  match w with
  | [] => []
  | c :: w => if c =? 0 then [] else c :: upto_nul w
  end.
(** What [strncpy(_, block + pos, len)] copies: it reads [len] bytes, or up to
    a NUL. *)
Definition field_text (block : list Z) (pos len : Z) : result (list Z) :=
  let w := take (Z.to_nat len) (drop (Z.to_nat pos) block) in
  if decide (length w = Z.to_nat len ∨ 0 ∈ w) then Ret (upto_nul w) else Fault OutOfBounds.
(** ... and the [len] bytes that it leaves. *)
Definition padded (s : list Z) (len : Z) : list Z := s ++ replicate (Z.to_nat len - length s) 0.

Section imagetag.
Context {Ar : Arch} {K : Type} `{Kernel K}.

(** [strntoul(block + pos, NULL, 10, len)] *)
Definition strntoul (block : list Z) (pos len : Z) : M K Z :=
  mem ← sys (k_malloc (len + 1));
  if mem is None then mret 0
  else
    s ← lift (field_text block pos len);
    mret (u32 (strtoul s 10).1).

(** One round of [while (fd && (compute_len >= sizeof(readbuf)))]: a read that
    fails counts as -1 bytes. *)
Definition crc_step (fd : Z) (x : Z * Z * Z) : M K (Z * Z * Z + Z * Z * Z) :=
  let '(crc, compute_len, offset) := x in
  if (fd =? 0) || (compute_len <? 1024) then mret (inr x)
  else
    res ← sys (k_pread fd 1024 (off_t offset));
    match res with
    | None => mret (inl (crc, size_t (compute_len + 1), offset - 1))
    | Some bs =>
        let n := Z.of_nat (length bs) in
        crc ← lift (crc32 crc bs n);
        mret (inl (crc, size_t (compute_len - n), offset + n))
    end.
Definition compute_crc32 (crc start compute_len fd : Z) : M K Z :=
  '(crc, compute_len, offset) ← loop (S (Z.to_nat compute_len)) (crc_step fd) (crc, compute_len, start);
  if (fd =? 0) || (compute_len <=? 0) then mret crc
  else
    res ← sys (k_pread fd compute_len (off_t offset));
    match res with
    | None => mret crc
    | Some bs => lift (crc32 crc bs (Z.of_nat (length bs)))
    end.

(** The root file system taken out of the tag at [pos]. *)
Definition tag_fix (block : list Z) (pos : Z) : result (list Z) :=
  block ← mwrite block (Z.to_nat (pos + tag_root_length)) (cs "0" ++ [0]);
  kernel ← field_text block (pos + tag_kernel_length) IMAGE_LEN;
  block ← mwrite block (Z.to_nat (pos + tag_total_length)) (padded kernel IMAGE_LEN);
  crc ← mread block (Z.to_nat (pos + tag_kernel_crc)) 4;
  block ← mwrite block (Z.to_nat (pos + tag_image_crc)) crc;
  block ← mwrite block (Z.to_nat (pos + tag_fskernel_crc)) crc;
  block ← mwrite block (Z.to_nat (pos + tag_rootfs_crc)) (u32_bytes CRC_START);
  crc ← crc32 CRC_START (drop (Z.to_nat pos) block) tag_header_crc;
  mwrite block (Z.to_nat (pos + tag_header_crc)) (u32_bytes crc).

(** The header at the start of the mapping of the block device. *)
Definition trx_fixup (fd : Z) (name : list Z) : M K Z :=
  info ← sys (k_getinfo fd);
  match info with
  | None => mret (-1)
  | Some i =>
      let len := u32 (mi_size i) in
      if len =? 0 then mret (-1)
      else
        bfd ← mtd_open name true;
        ptr ← sys (k_mmap bfd len);
        match ptr with
        | None => _ ← sys_ (k_close bfd); mret (-1)
        | Some m =>
            cfelen ← strntoul m tag_cfe_length IMAGE_LEN;
            if negb (cfelen =? 0) then exit_ 1
            else
              headercrc ← compute_crc32 CRC_START 0 tag_header_crc fd;
              want ← lift (MtdTrx.field32 m tag_header_crc);
              if negb (headercrc =? want) then exit_ 1
              else
                m ← lift (tag_fix m 0);
                _ ← sys_ (k_msync bfd m);
                _ ← sys_ (k_close bfd);
                mret 0
        end
  end.

(** The image and what has been read of it as for trx.c; here the tag is read
    to the start of [buf]. *)
Definition trx_check (imagefd : Z) (mtd b : list Z) (len : Z) : M K (Z * list Z * Z) :=
  if negb (bool_decide (mtd = cs "linux")) then mret (1, b, len)
  else
    r ← sys (k_read imagefd sizeof_bcm_tag);
    '(b, len) ← match r with
                | inl _ => mret (b, -1)
                | inr bs => b ← lift (mwrite b 0 bs); mret (b, Z.of_nat (length bs))
                end;
    (* an [int] is compared with a [size_t] *)
    if size_t len <? sizeof_bcm_tag then mret (0, b, len)
    else
      crc ← lift (crc32buf b tag_header_crc);
      want ← lift (MtdTrx.field32 b tag_header_crc);
      if negb (want =? crc) then mret (0, b, len)
      else
        fd ← mtd_check_open mtd;
        if fd <? 0 then exit_ 1
        else
          imageLen ← strntoul b tag_total_length IMAGE_LEN;
          g ← get;
          _ ← sys_ (k_close fd);
          if u32 (mtdsize g) <? imageLen then mret (0, b, len)
          else mret (1, b, len).

(** From the allocation of [buf] on. *)
Definition tag_fix_at (fd block_offset offset : Z) : M K Z :=
  g ← get;
  mem ← sys (k_malloc (size_t (erasesize g)));
  if mem is None then exit_ 1
  else
    res ← sys (k_pread fd (size_t (erasesize g)) (off_t block_offset));
    match res with
    | None => exit_ 1
    | Some block =>
        if negb (Z.of_nat (length block) =? erasesize g) then exit_ 1
        else
          cfelen ← strntoul block (offset + tag_cfe_length) IMAGE_LEN;
          if negb (cfelen =? 0) then exit_ 1
          else
            headercrc ← compute_crc32 CRC_START offset tag_header_crc fd;
            want ← lift (MtdTrx.field32 block (offset + tag_header_crc));
            if negb (headercrc =? want) then exit_ 1
            else
              rootfslen ← strntoul block (offset + tag_root_length) IMAGE_LEN;
              if rootfslen =? 0 then
                _ ← sys_ (k_close fd);
                mret 0
              else
                block ← lift (tag_fix block offset);
                r ← mtd_erase_block fd block_offset;
                if r =? 0 then
                  res ← sys (k_pwrite fd block (off_t block_offset));
                  if res =? erasesize g then
                    _ ← sys_ (k_close fd);
                    mret 0
                  else exit_ 1
                else exit_ 1
    end.
(** The block offset is taken with the block size of the device that was
    opened last. *)
Definition mtd_fixtrx (mtd : list Z) (offset data_size : Z) : M K Z :=
  g ← get;
  let block_offset := offset .& block_mask (erasesize g) in
  let offset := size_t (offset - block_offset) in
  fd ← mtd_check_open mtd;
  if fd <? 0 then exit_ 1
  else
    g ← get;
    if size_t (mtdsize g) <? size_t (block_offset + erasesize g) then exit_ 1
    else tag_fix_at fd block_offset offset.

End imagetag.
End MtdImagetag.
