(* ===== verification/MtdImagetagProps.v ===== *)
(** * Broadcom image tags: what the fix-up leaves on the flash *)

From S2P Require Import Prelude CLib Mtd MtdCrc MtdKernel MtdSim MtdDev MtdTrx MtdImagetag.
Import Mtd MtdCrc MtdKernel MtdSim MtdDev MtdImagetag.
Open Scope Z_scope.
Open Scope cint_scope.

Module MtdImagetagProps.

(** ** Tags *)

Section spec.
Context {Ar : Arch}.
Implicit Types c b : list Z.

Definition text_of c (pos : Z) : list Z := upto_nul (range c pos IMAGE_LEN).
Definition num_of c (pos : Z) : Z := u32 (strtoul (text_of c pos) 10).1.
Definition tag_crc c : Z := crc32_serial (range c 0 tag_header_crc) CRC_START.
Definition tag_valid c : Prop := u32_of (range c tag_header_crc 4) = tag_crc c.

(** The tag without the root file system: the fields but for the last one ... *)
Definition tag_fields c : list Z :=
  let c := splice c tag_root_length (cs "0" ++ [0]) in
  let c := splice c tag_total_length (padded (text_of c tag_kernel_length) IMAGE_LEN) in
  let crc := range c tag_kernel_crc 4 in
  splice (splice (splice c tag_image_crc crc) tag_fskernel_crc crc) tag_rootfs_crc (u32_bytes CRC_START).
(** ... and with it. *)
Definition tag_update c : list Z := splice (tag_fields c) tag_header_crc (u32_bytes (tag_crc (tag_fields c))).

Lemma upto_nul_le w : (length (upto_nul w) ≤ length w)%nat.
Proof. induction w as [|a w IH]; cbn; [done|]. destruct (a =? 0); cbn; lia. Qed.
Lemma upto_nul_wf w : bytes_wf w → bytes_wf (upto_nul w).
Proof. induction 1 as [|a w Ha Hw IH]; cbn; [constructor|]. destruct (a =? 0); by constructor. Qed.
Lemma length_padded_text w n : (length w ≤ Z.to_nat n)%nat → length (padded w n) = Z.to_nat n.
Proof. intros Hw. unfold padded. rewrite length_app, length_replicate. lia. Qed.
Lemma length_text c p : (length (text_of c p) ≤ 10)%nat.
Proof. unfold text_of. etrans; [apply upto_nul_le|]. apply range_length_le. Qed.

(** A range that a change does not meet. *)
Lemma range_apart c x bs p n :
  0 ≤ x → x + Z.of_nat (length bs) ≤ Z.of_nat (length c) → 0 ≤ p → 0 ≤ n →
  p + n ≤ x ∨ x + Z.of_nat (length bs) ≤ p → range (splice c x bs) p n = range c p n.
Proof.
  intros. apply (range_ext c _ x (Z.of_nat (length bs))); [by apply splice_same_outside|lia..].
Qed.
Lemma range_apart_fields c x bs p n : 256 ≤ Z.of_nat (length c) → 0 ≤ x → x + Z.of_nat (length bs) ≤ 256 → 0 ≤ p → 0 ≤ n →
  p + n ≤ x ∨ x + Z.of_nat (length bs) ≤ p → range (splice c x bs) p n = range c p n.
Proof. intros. apply range_apart; lia. Qed.
Lemma mwrite_splice c p bs : 0 ≤ p → p + Z.of_nat (length bs) ≤ Z.of_nat (length c) →
  mwrite c (Z.to_nat p) bs = Ret (splice c p bs).
Proof. intros Hp Hm. rewrite mwrite_ret by lia. unfold splice. do 4 f_equal. lia. Qed.
Lemma field_text_ret c p : 0 ≤ p → p + 10 ≤ Z.of_nat (length c) → field_text c p IMAGE_LEN = Ret (text_of c p).
Proof.
  intros Hp Hl. unfold field_text, text_of. fold (range c p IMAGE_LEN). rewrite decide_True; [done|]. left.
  apply length_range; unfold IMAGE_LEN; lia.
Qed.
Lemma mread_range c p : 0 ≤ p → p + 4 ≤ Z.of_nat (length c) → mread c (Z.to_nat p) 4 = Ret (range c p 4).
Proof. intros Hp Hl. unfold mread. rewrite decide_True by lia. done. Qed.
Lemma crc_range c n val : bytes_wf c → 0 ≤ val < 2 ^ 32 → 0 ≤ n ≤ Z.of_nat (length c) →
  crc32 val c n = Ret (crc32_serial (range c 0 n) val).
Proof.
  intros Hw Hv Hn. unfold crc32, range. cbn [drop]. change (Z.to_nat 0) with 0%nat. rewrite drop_0.
  rewrite <- (take_drop (Z.to_nat n) c) at 1.
  assert (length (take (Z.to_nat n) c) = Z.to_nat n) as E by (rewrite length_take; lia).
  rewrite <- E at 1. rewrite crc32_loop_foldl, crc32_foldl; [done|by apply Forall_take|done].
Qed.

Lemma crc_whole bs val : crc32 val bs (Z.of_nat (length bs)) = Ret (foldl crc32_step val bs).
Proof. unfold crc32. rewrite Nat2Z.id. rewrite <- (crc32_loop_foldl bs [] val). by rewrite app_nil_r. Qed.

Lemma splice_wf c p bs : bytes_wf c → bytes_wf bs → bytes_wf (splice c p bs).
Proof. intros Hc Hb. unfold splice. repeat apply Forall_app_2; [by apply Forall_take|done|by apply Forall_drop]. Qed.

(** ** The fields of the new tag *)

Section update.
Context (c : list Z) (Hwf : bytes_wf c) (Hlen : 256 ≤ Z.of_nat (length c)).

Let c1 := splice c tag_root_length (cs "0" ++ [0]).
Let c2 := splice c1 tag_total_length (padded (text_of c1 tag_kernel_length) IMAGE_LEN).
Let c3 := splice c2 tag_image_crc (range c2 tag_kernel_crc 4).
Let c4 := splice c3 tag_fskernel_crc (range c2 tag_kernel_crc 4).
Let c5 := splice c4 tag_rootfs_crc (u32_bytes CRC_START).

Lemma len_padded d p : length (padded (text_of d p) IMAGE_LEN) = 10%nat.
Proof. apply length_padded_text, length_text. Qed.
Lemma lens : length c1 = length c ∧ length c2 = length c ∧ length c3 = length c ∧ length c4 = length c ∧ length c5 = length c.
Proof.
  assert (∀ d p bs, 0 ≤ p → p + Z.of_nat (length bs) ≤ 256 → length d = length c → length (splice d p bs) = length c) as Hl.
  { intros d p bs Hp Hb E. rewrite length_splice by lia. done. }
  assert (length c1 = length c) as E1 by (by apply Hl).
  assert (length c2 = length c) as E2 by (apply Hl; rewrite ?len_padded; done).
  assert (length (range c2 tag_kernel_crc 4) = 4%nat) as E4 by (apply length_range; unfold tag_kernel_crc; lia).
  assert (length c3 = length c) as E3 by (apply Hl; rewrite ?E4; done).
  assert (length c4 = length c) as E5 by (apply Hl; rewrite ?E4; done).
  split_and!; try done. apply Hl; rewrite ?length_u32_bytes; done.
Qed.
Lemma fields_wf : bytes_wf c5.
Proof.
  assert (∀ d p n, bytes_wf d → bytes_wf (range d p n)) as Hr by (intros; by apply Forall_take, Forall_drop).
  assert (bytes_wf c1) as H1 by (apply splice_wf; [done|]; apply (bool_decide_unpack _); vm_compute; exact I).
  assert (bytes_wf c2) as H2.
  { apply splice_wf; [done|]. unfold padded. apply Forall_app_2; [by apply upto_nul_wf, Hr|]. apply Forall_replicate. split; done. }
  assert (bytes_wf c3) as H3 by (apply splice_wf; auto).
  assert (bytes_wf c4) as H4 by (apply splice_wf; auto).
  apply splice_wf; [done|apply u32_bytes_wf].
Qed.
Lemma update_len : length (tag_update c) = length c.
Proof.
  destruct lens as (_ & _ & _ & _ & E5). unfold tag_update. change (tag_fields c) with c5.
  rewrite length_splice; [done|unfold tag_header_crc; lia|rewrite length_u32_bytes; unfold tag_header_crc; lia].
Qed.
(** The checksum is that of the new fields. *)
Lemma update_valid : tag_valid (tag_update c).
Proof.
  destruct lens as (_ & _ & _ & _ & E5). unfold tag_valid, tag_update. change (tag_fields c) with c5.
  pose proof (length_u32_bytes (tag_crc c5)) as L. set (d := splice c5 tag_header_crc (u32_bytes (tag_crc c5))).
  assert (tag_crc d = tag_crc c5) as ->.
  { unfold tag_crc, d. rewrite range_apart_fields; [done|lia|done|rewrite L; done|done|done|left; done]. }
  pose proof (range_splice c5 tag_header_crc (u32_bytes (tag_crc c5))) as Hr. rewrite L in Hr. change (Z.of_nat 4) with 4 in Hr.
  unfold d. rewrite Hr by (unfold tag_header_crc; lia). rewrite u32_of_bytes. apply u32_small.
  apply crc32_serial_range; [|done]. apply Forall_take, Forall_drop, fields_wf.
Qed.
(** What the last change leaves of a field before it, and so on back. *)
Lemma update_root : num_of (tag_update c) tag_root_length = 0.
Proof.
  destruct lens as (E1 & E2 & E3 & E4 & E5). pose proof (length_u32_bytes (tag_crc c5)) as L.
  assert (length (range c2 tag_kernel_crc 4) = 4%nat) as L4 by (apply length_range; unfold tag_kernel_crc; lia).
  assert (range (tag_update c) tag_root_length 2 = cs "0" ++ [0]) as E.
  { unfold tag_update. change (tag_fields c) with c5. pose proof (range_splice c tag_root_length (cs "0" ++ [0])) as Hr.
    change (Z.of_nat (length (cs "0" ++ [0]))) with 2 in Hr.
    rewrite range_apart_fields by (rewrite ?L; unfold tag_header_crc, tag_root_length; lia).
    unfold c5. rewrite range_apart_fields by (rewrite ?length_u32_bytes; unfold tag_rootfs_crc, tag_root_length; lia).
    unfold c4. rewrite range_apart_fields by (rewrite ?L4; unfold tag_fskernel_crc, tag_root_length; lia).
    unfold c3. rewrite range_apart_fields by (rewrite ?L4; unfold tag_image_crc, tag_root_length; lia).
    unfold c2. rewrite range_apart_fields by (rewrite ?len_padded; unfold tag_total_length, tag_root_length; lia).
    apply Hr; unfold tag_root_length; lia. }
  unfold num_of, text_of. change IMAGE_LEN with (2 + 8). rewrite range_app by (unfold tag_root_length; lia).
  rewrite E. change (upto_nul _) with (fmt_u 0). by rewrite strtoul_fmt_u.
Qed.

(** Behind other bytes nothing is different. *)
Lemma tag_fix_behind pre : tag_fix (pre ++ c) (Z.of_nat (length pre)) = Ret (pre ++ tag_update c).
Proof.
  assert (∀ d p bs, 0 ≤ p → p + Z.of_nat (length bs) ≤ Z.of_nat (length d) →
    mwrite (pre ++ d) (Z.to_nat (Z.of_nat (length pre) + p)) bs = Ret (pre ++ splice d p bs)) as Hw.
  { intros d p bs Hp Hl. rewrite mwrite_splice by (rewrite ?length_app; lia). f_equal. unfold splice.
    rewrite take_app_ge, drop_app_ge, <- app_assoc by lia. do 3 f_equal; [|f_equal]; f_equal; lia. }
  assert (∀ d p n, 0 ≤ p → range (pre ++ d) (Z.of_nat (length pre) + p) n = range d p n) as Hr.
  { intros d p n Hp. unfold range. rewrite drop_app_ge by lia. do 2 f_equal. lia. }
  destruct lens as (E1 & E2 & E3 & E4 & E5). unfold tag_fix.
  assert (length (range c2 tag_kernel_crc 4) = 4%nat) as L4 by (apply length_range; unfold tag_kernel_crc; lia).
  rewrite (Hw c) by (cbn; unfold tag_root_length; lia). cbn [mbind result_bind]. fold c1.
  rewrite field_text_ret by (rewrite ?length_app; unfold tag_kernel_length; lia). cbn [mbind result_bind].
  unfold text_of at 1. rewrite Hr by (unfold tag_kernel_length; lia). fold (text_of c1 tag_kernel_length).
  rewrite (Hw c1) by (rewrite ?len_padded; unfold tag_total_length; lia). cbn [mbind result_bind]. fold c2.
  rewrite mread_range by (rewrite ?length_app; unfold tag_kernel_crc; lia). cbn [mbind result_bind].
  rewrite Hr by (unfold tag_kernel_crc; lia).
  rewrite (Hw c2) by (rewrite ?L4; unfold tag_image_crc; lia). cbn [mbind result_bind]. fold c3.
  rewrite (Hw c3) by (rewrite ?L4; unfold tag_fskernel_crc; lia). cbn [mbind result_bind]. fold c4.
  rewrite (Hw c4) by (rewrite ?length_u32_bytes; unfold tag_rootfs_crc; lia). cbn [mbind result_bind]. fold c5.
  rewrite drop_app_length' by lia.
  rewrite crc_range; [|apply fields_wf|done|unfold tag_header_crc; lia]. cbn [mbind result_bind].
  by rewrite (Hw c5) by (rewrite ?length_u32_bytes; unfold tag_header_crc; lia).
Qed.
End update.

End spec.

(** ** The run *)

Section run.
Context {Ar : Arch} {K : Type} `{KernelLaws K}.
Context (o : object) (i : mtd_info) (Hwf : wf_device o i).
Implicit Types s : state K.

(** The tag is at [p], whole within the first block. *)
Context (p : Z) (Hp : 0 ≤ p) (Hfit : p + sizeof_bcm_tag ≤ mi_erasesize i).

Let b := o_bytes o.
Let es := mi_erasesize i.
(** The first block, up to the tag and from it on. *)
Let pre := range b 0 p.
Let c := range b p (es - p).
(** The bytes of the device from the tag on. *)
Definition tag_at (d : list Z) : list Z := drop (Z.to_nat p) d.

Lemma tag_range d x n : 0 ≤ x → range (tag_at d) x n = range d (p + x) n.
Proof. intros Hx. unfold range, tag_at. rewrite drop_drop. do 2 f_equal. lia. Qed.

Lemma block_facts : bytes_wf c ∧ p + 256 ≤ es < 2 ^ 31 ∧ length c = Z.to_nat (es - p) ∧ es ≤ Z.of_nat (length b) ∧ size_of o < 2 ^ 31.
Proof.
  pose proof (wd_es_le _ _ Hwf) as Hle. pose proof (wd_range _ _ Hwf) as Hr. pose proof (es_small o i Hwf) as Hsm.
  pose proof (wd_bytes _ _ Hwf) as Hb. unfold sizeof_bcm_tag in Hfit. unfold size_of in *. fold b in Hle, Hr, Hb. fold es in Hle, Hsm, Hfit.
  split; [by apply Forall_take, Forall_drop|]. split; [lia|]. split; [apply length_range; lia|]. unfold size_of. fold b. lia.
Qed.

Lemma length_pre : length pre = Z.to_nat p.
Proof. destruct block_facts as (_ & Hesr & _ & Hle & _). apply length_range; lia. Qed.
Lemma block_split : range b 0 es = pre ++ c.
Proof.
  destruct block_facts as (_ & Hesr & _). unfold pre, c. rewrite <- (Z.add_0_l p) at 2. rewrite <- range_app by lia. f_equal. lia.
Qed.
(** A field of the tag, as it is read from the block and from the device. *)
Lemma range_block x n : 0 ≤ x → 0 ≤ n → x + n ≤ 256 → range (range b 0 es) (p + x) n = range (tag_at b) x n.
Proof. intros Hx Hn Hle. destruct block_facts as (_ & Hesr & _ & Hb & _). rewrite tag_range by done. by rewrite range_range, Z.add_0_l by lia. Qed.
Lemma range_c x n : 0 ≤ x → 0 ≤ n → x + n ≤ 256 → range c x n = range (tag_at b) x n.
Proof. intros Hx Hn Hle. destruct block_facts as (_ & Hesr & _ & Hb & _). rewrite tag_range by done. unfold c. by rewrite range_range by lia. Qed.

Lemma wp_strntoul x Q E s : 0 ≤ x → x + 10 ≤ 256 →
  (∀ n k, view k = view (kern s) → (healthy (kern s) → healthy k ∧ n = num_of (tag_at b) x) → Q n (State k (gl s))) →
  wp (strntoul (range b 0 es) (p + x) IMAGE_LEN) Q E s.
Proof.
  intros Hx Hl HQ. destruct block_facts as (Hb & Hesr & Hlen & Hle & _). unfold strntoul. apply wp_bind, wp_sys_malloc.
  intros mem k Hv _ Hh. destruct mem as [mem|].
  - eapply wp_bind, wp_lift; [apply field_text_ret; rewrite ?length_range; lia|]. apply wp_ret, HQ; [done|].
    intros Hk. destruct (Hh Hk). split; [done|]. unfold num_of, text_of. by rewrite range_block.
  - apply wp_ret, HQ; [done|]. intros Hk. by destruct (Hh Hk) as [_ []].
Qed.
(** The checksum of the bytes on the device, if they can be read. *)
Lemma wp_compute_crc fd id pos Q E s : at_device o i fd id pos s → fd ≠ 0 →
  (∀ n k, view k = view (kern s) → (healthy (kern s) → healthy k ∧ n = tag_crc (tag_at b)) → Q n (State k (gl s))) →
  wp (compute_crc32 CRC_START p tag_header_crc fd) Q E s.
Proof.
  intros Had Hfd HQ. destruct block_facts as (_ & Hesr & _ & Hle & H31). unfold compute_crc32.
  assert (crc_step fd (CRC_START, tag_header_crc, p) = mret (inr (CRC_START, tag_header_crc, p))) as Estep
    by (unfold crc_step; by rewrite orb_true_r).
  apply wp_bind. cbn [loop]. rewrite Estep. apply wp_bind, wp_ret, wp_ret.
  rewrite (proj2 (Z.eqb_neq fd 0)) by done. change (tag_header_crc <=? 0) with false. cbn [orb].
  rewrite off_t_small by lia. apply wp_bind, (wp_sys_pread fd tag_header_crc p id pos o); [apply Had|done|].
  intros res k Hv Hl Hr Hh. assert (healthy (kern s) → res = Some (range b p tag_header_crc)) as Hres.
  { intros Hk. destruct (Hh Hk) as [_ Hx]. by apply Hx. }
  destruct res as [bs|].
  - eapply wp_lift; [apply crc_whole|]. apply HQ; [done|]. intros Hk. destruct (Hh Hk) as [Hk' _]. split; [done|].
    specialize (Hres Hk). injection Hres as ->. unfold tag_crc. rewrite tag_range, Z.add_0_r by done. apply crc32_foldl; [|done].
    apply Forall_take, Forall_drop, (wd_bytes _ _ Hwf).
  - apply wp_ret, HQ; [done|]. intros Hk. by specialize (Hres Hk).
Qed.

(** The first block as part of the device. *)
Lemma splice_block : splice b 0 (pre ++ tag_update c) = splice b p (tag_update c).
Proof.
  destruct block_facts as (_ & Hesr & _ & Hb & _). pose proof length_pre as Hl. unfold splice.
  rewrite Z.add_0_l, length_app, Hl. change (take (Z.to_nat 0) b) with (@nil Z). cbn [app]. rewrite <- app_assoc.
  unfold pre at 1, range. change (Z.to_nat 0) with 0%nat. rewrite drop_0. do 3 f_equal. lia.
Qed.
Lemma update_on_device :
  tag_valid (tag_at (splice b p (tag_update c))) ∧ num_of (tag_at (splice b p (tag_update c))) tag_root_length = 0.
Proof.
  destruct block_facts as (Hb & Hesr & Hlen & Hle & _). assert (256 ≤ Z.of_nat (length c)) as Hl by lia.
  assert (Z.of_nat (length (tag_update c)) = es - p) as Hu by (rewrite update_len; lia).
  assert (∀ x n, 0 ≤ x → 0 ≤ n → x + n ≤ 256 →
    range (tag_at (splice b p (tag_update c))) x n = range (tag_update c) x n) as Hr.
  { intros x n Hx Hn Hxn. rewrite tag_range by done. pose proof (range_splice b p (tag_update c)) as Hr.
    rewrite Hu in Hr. rewrite <- (Hr ltac:(lia) ltac:(lia)) at 2. symmetry. apply range_range; [lia..|].
    rewrite length_splice; lia. }
  unfold tag_valid, tag_crc, num_of, text_of. unfold tag_header_crc, tag_root_length, IMAGE_LEN.
  rewrite !Hr by lia. split; [apply (update_valid c Hb Hl)|apply (update_root c Hl)].
Qed.

(** What a finished run leaves: the root file system was out of the tag
    already, or it is now. *)
Definition tag_done (v : kview) (id : Z) (h : Prop) (v' : kview) : Prop :=
  ∃ b', v' = set_obj id (with_bytes b' o) v ∧
    (b' = b ∧ (h → num_of (tag_at b) tag_root_length = 0) ∨
     b' = splice b p (tag_update c) ∧ tag_valid (tag_at b') ∧ num_of (tag_at b') tag_root_length = 0).
Definition tag_refused : Prop := num_of (tag_at b) tag_cfe_length ≠ 0 ∨ ¬ tag_valid (tag_at b) ∨ 0 ∈ o_bad o.

Lemma wp_tag_fix_at fd id v s :
  v_obj v !! id = Some o → v_fd v !! fd = None → fd ≠ 0 → view (kern s) = set_fd fd (Some (id, 0)) v →
  at_device o i fd id 0 s →
  wp (tag_fix_at fd 0 p) (λ r s', r = 0 ∧ tag_done v id (healthy (kern s)) (view (kern s')))
    (λ x s', x = 1 ∧ left_in_block o i v id 0 (view (kern s')) ∧ (healthy (kern s) → tag_refused)) s.
Proof.
  intros Hobj Hfree Hfd Hv Had. destruct block_facts as (Hb & Hesr & Hlen & Hle & H31).
  set (E := λ (x : Z) s', x = 1 ∧ left_in_block o i v id 0 (view (kern s')) ∧ (healthy (kern s) → tag_refused)).
  assert (∀ k g, view k = set_fd fd (Some (id, 0)) v → (healthy (kern s) → tag_refused) → E 1 (State k g)) as Hquit.
  { intros k g Hvk ?. split; [done|]. split; [apply left_same; [done|cbn [kern]; by rewrite Hvk]|done]. }
  unfold tag_fix_at. apply wp_bind, wp_get. rewrite (ad_es _ _ _ _ _ _ Had). fold es.
  rewrite (size_t_small es) by lia. apply wp_bind, wp_sys_malloc. rewrite Hv. intros mem k1 Hv1 _ Hh1.
  destruct mem as [mem|]; [|apply wp_exit, Hquit; [done|intros Hh; by destruct (Hh1 Hh) as [_ []]]].
  assert (refers (set_fd fd (Some (id, 0)) v) fd id 0 o) as Href by (by apply refers_set_fd).
  rewrite off_t_small by lia. apply wp_bind, (wp_sys_pread fd es 0 id 0 o); [by cbn [kern]; rewrite Hv1|lia|].
  cbn [kern gl]. rewrite Hv1. intros res k2 Hv2 _ Hres Hh2.
  assert (healthy (kern s) → healthy k2 ∧ res = Some (range b 0 es)) as Hh2'.
  { intros Hh. destruct (Hh1 Hh) as [Hk1 _]. destruct (Hh2 Hk1) as [? Hr]. split; [done|]. apply Hr. lia. }
  destruct res as [block|]; [|apply wp_exit, Hquit; [done|by intros [_ ?]%Hh2']].
  destruct (Z.eqb_spec (Z.of_nat (length block)) es) as [Hbl|Hbl]; cbn [negb].
  2: { apply wp_exit, Hquit; [done|]. intros [_ [= ->]]%Hh2'. rewrite length_range in Hbl; lia. }
  rewrite (Hres block eq_refl Hbl). fold b.
  apply wp_bind, wp_strntoul; [done|done|]. cbn [kern gl]. rewrite Hv2. intros cfe k3 Hv3 Hh3.
  assert (healthy (kern s) → healthy k3 ∧ cfe = num_of (tag_at b) tag_cfe_length) as Hh3'.
  { intros Hh. apply Hh3. by apply Hh2'. }
  destruct (Z.eqb_spec cfe 0) as [Hcfe|Hcfe]; cbn [negb].
  2: { apply wp_exit, Hquit; [done|]. intros [_ ->]%Hh3'. by left. }
  apply wp_bind, (wp_compute_crc fd id 0); [split; cbn [kern gl]; [by rewrite Hv3|apply Had..]|done|].
  cbn [kern gl]. rewrite Hv3. intros crc k4 Hv4 Hh4.
  assert (healthy (kern s) → healthy k4 ∧ crc = tag_crc (tag_at b)) as Hh4'.
  { intros Hh. apply Hh4. by apply Hh3'. }
  eapply wp_bind, wp_lift.
  { unfold MtdTrx.field32. rewrite mread_range by (rewrite ?length_range; unfold tag_header_crc; lia). cbn [mbind result_bind]. reflexivity. }
  rewrite range_block by done.
  destruct (Z.eqb_spec crc (u32_of (range (tag_at b) tag_header_crc 4))) as [Hcrc|Hcrc]; cbn [negb].
  2: { apply wp_exit, Hquit; [done|]. intros [_ ->]%Hh4'. right. left. unfold tag_valid. congruence. }
  apply wp_bind, wp_strntoul; [done|done|]. cbn [kern gl]. rewrite Hv4. intros root k5 Hv5 Hh5.
  assert (healthy (kern s) → healthy k5 ∧ root = num_of (tag_at b) tag_root_length) as Hh5'.
  { intros Hh. apply Hh5. by apply Hh4'. }
  destruct (Z.eqb_spec root 0) as [Hroot|Hroot].
  - apply wp_bind, wp_sys_close. cbn [kern gl]. rewrite Hv5. intros k6 Hv6 _. apply wp_ret. split; [done|].
    exists b. cbn [kern]. rewrite Hv6, set_fd_undo by done. unfold b at 1. rewrite with_bytes_id, set_obj_id by done.
    split; [done|]. left. split; [done|]. intros [_ <-]%Hh5'. done.
  - pose proof length_pre as Hlp. rewrite block_split. eapply wp_bind, wp_lift.
    { replace p with (Z.of_nat (length pre)) by lia. apply tag_fix_behind; [done|lia]. }
    apply (wp_replace_block o i Hwf fd id v 0 (pre ++ tag_update c)); cbn [kern gl].
    + done.
    + split; cbn [kern gl]; [by rewrite Hv5|apply Had..].
    + apply Z.divide_0_r.
    + done.
    + fold es. unfold size_of. fold b. lia.
    + rewrite length_app, update_len, Hlp, Hlen by lia. fold es. lia.
    + intros k6 Hv6 _. apply wp_bind, wp_sys_close. cbn [kern gl]. intros k7 Hv7 _. apply wp_ret. split; [done|].
      exists (splice b p (tag_update c)). cbn [kern]. rewrite Hv7, Hv6. fold b. rewrite splice_block. rewrite set_fd_undo by done.
      split; [done|]. right. split; [done|]. apply update_on_device.
    + intros s' Hleft Hbad. split; [done|]. split; [done|]. intros Hh. right. right. apply Hbad. by apply Hh5'.
Qed.

(** C32: [mtd_fixtrx] of the build for Broadcom image tags, for an offset that
    leaves the 256 bytes of the tag in the first block of the device, with no
    other device opened before ([main] opens none) or one of the same block size,
    with the standard input open and under a kernel that may fail at any call: it
    never runs off a buffer and always ends, and when it returns, either nothing has changed, and unless
    the kernel failed the root file system was out of the tag already, or the
    tag says that there is none and has the checksum of its new contents, and
    the rest of the device is as it was; when it gives up it leaves status 1 and has
    changed at most the first block, and unless the kernel failed the tag has
    a boot loader, its checksum is wrong or the block is bad. *)
Theorem imagetag_correct name id ds s :
  let v := view (kern s) in
  names v name id o i → is_Some (v_fd v !! 0) →
  erasesize (gl s) = 0 ∨ erasesize (gl s) = mi_erasesize i →
  wp (mtd_fixtrx name p ds) (λ r s', r = 0 ∧ tag_done v id (healthy (kern s)) (view (kern s')))
    (λ x s', x = 1 ∧ left_in_block o i v id 0 (view (kern s')) ∧ (healthy (kern s) → tag_refused)) s.
Proof.
  intros v Hn Hin Hes. destruct block_facts as (Hb & Hesr & Hlen & Hle & H31). pose proof (wd_range _ _ Hwf) as Hrange.
  pose proof (nm_obj _ _ _ _ _ Hn) as Hobj. unfold mtd_fixtrx. apply wp_bind, wp_get.
  assert (p .& block_mask (erasesize (gl s)) = 0) as ->.
  { destruct Hes as [-> | ->]; [apply Z.land_0_r|].
    rewrite (block_mask_block o i Hwf) by (pose proof long_bits_32; fold es; lia).
    unfold block_of. fold es. rewrite Z.mod_small by lia. lia. }
  rewrite Z.sub_0_r, (size_t_small p) by lia. apply wp_bind, (wp_check_open name id o i); [done|..].
  { intros k Hv Hk. rewrite (proj2 (Z.ltb_lt (-1) 0)) by done. apply wp_exit.
    split; [done|]. split; [apply left_same; [done|cbn [kern]; by rewrite Hv]|done]. }
  intros fd k1 Hfd Hfree Hv1 Hh1. rewrite (proj2 (Z.ltb_ge fd 0)) by done.
  assert (fd ≠ 0) as Hfd0 by (intros ->; fold v in Hfree; rewrite Hfree in Hin; by destruct Hin).
  apply wp_bind, wp_get. cbn [gl set_info erasesize mtdsize]. rewrite Z.add_0_l.
  rewrite !s32_small by (rewrite ?(wd_size _ _ Hwf); fold es; lia). rewrite (wd_size _ _ Hwf).
  fold es. rewrite (size_t_small es), (size_t_small (size_of o)) by lia.
  rewrite (proj2 (Z.ltb_ge (size_of o) es)) by (unfold size_of; fold b; lia).
  eapply wp_mono; [apply (wp_tag_fix_at fd id v); try done|cbn [kern]|].
  - split; cbn [kern gl set_info erasesize mtdsize mtdtype]; [|done..]. rewrite Hv1. by apply refers_set_fd.
  - intros r s' (-> & b' & Hv' & Hwhy). split; [done|]. exists b'. split; [done|]. naive_solver.
  - intros x s' (-> & Hleft & Hwhy). split; [done|]. split; [done|]. intros Hh. by apply Hwhy, Hh1.
Qed.

End run.

(** ** A device *)

Module DemoTag.
(** Two blocks of 512 bytes of NOR flash; the tag, 32 bytes into the first one,
    has a kernel of 100 bytes and a root file system of 50. *)
Definition info : mtd_info := MtdInfo 3 1024 512 1.
Definition fields : list Z :=
  splice (splice (splice (splice (splice (replicate 256 0) tag_total_length (cs "150")) tag_cfe_length (cs "0"))
    tag_root_length (cs "50")) tag_kernel_length (cs "100")) tag_kernel_crc [1; 2; 3; 4].
Definition tag : list Z := splice fields tag_header_crc (u32_bytes (A := mipsel) (tag_crc fields)).
Definition dev : object := Object (replicate 32 255 ++ tag ++ replicate 736 255) (Some info) [].
(** The standard input is an empty file. *)
Definition kernel : sim :=
  Sim (set_fd 0 (Some (8, 0)) (set_obj 8 (Object [] None []) (view (one_device dev)))) [].
Definition start : state sim := State kernel initial_globals.

Lemma tag_dev_wf : wf_device dev info.
Proof.
  split; [done|done|by exists 9|done|by exists 2| |by intros x []%not_elem_of_nil..|done].
  apply (bool_decide_unpack _). by vm_compute.
Qed.
Lemma tag_dev_names : names (view kernel) (cs "firmware") 7 dev info.
Proof. destruct (one_device_names dev info eq_refl) as [Hr Ho Hb Hi]. by split. Qed.

(** The lengths of the tag afterwards: of the image, the root file system and
    the kernel; the checksum of the image is that of the kernel. *)
Definition tag_after (o : out sim Z) : option (list Z * list (list Z) * bool) :=
  match o with
  | Done _ s =>
      c ← drop 32 ∘ o_bytes <$> v_obj (view (kern s)) !! 7;
      Some (range c tag_image_crc 4, text_of c <$> [tag_total_length; tag_root_length; tag_kernel_length],
            u32_of (A := mipsel) (range c tag_header_crc 4) =? tag_crc c)
  | _ => None
  end.
Example tag_run_fixed :
  tag_after (mtd_fixtrx (Ar := mipsel) (cs "firmware") 32 0 start) =
    Some ([1; 2; 3; 4], [cs "100"; cs "0"; cs "100"], true).
Proof. by vm_compute. Qed.
End DemoTag.

Lemma imagetag_correct_witness :
  let s := DemoTag.start in
  wp (mtd_fixtrx (Ar := mipsel) (cs "firmware") 32 0)
    (λ r s', r = 0 ∧ tag_done (Ar := mipsel) DemoTag.dev DemoTag.info 32 (view (kern s)) 7 (healthy (kern s)) (view (kern s')))
    (λ x s', x = 1 ∧ left_in_block DemoTag.dev DemoTag.info (view (kern s)) 7 0 (view (kern s')) ∧
       (healthy (kern s) → tag_refused (Ar := mipsel) DemoTag.dev 32)) s.
Proof.
  apply (imagetag_correct (Ar := mipsel) DemoTag.dev DemoTag.info DemoTag.tag_dev_wf 32 ltac:(done) ltac:(done)
    (cs "firmware") 7 0 DemoTag.start); [exact DemoTag.tag_dev_names|by eexists|by left].
Defined.

End MtdImagetagProps.
