(* ===== verification/MtdFis.v ===== *)
(** * RedBoot partition tables (package/system/mtd/src/fis.c)

    The table is the first block of the device "FIS directory": records of 256
    bytes up to one without a name.  With FIS_SUPPORT the tool can replace
    partitions by new ones when it writes an image.  The code works on a
    mapping of the block; a pointer into it is an offset here. *)

From S2P Require Import Prelude CLib Mtd MtdCrc MtdTrx.
Import Mtd MtdCrc.
Open Scope Z_scope.
Open Scope cint_scope.

Module MtdFis.

(** [struct fis_image_desc] by the offsets of its fields. *)
Definition fis_flash_base : Z := 16.
Definition fis_mem_base : Z := 20.
Definition fis_size : Z := 24.
Definition fis_entry_point : Z := 28.
Definition fis_data_length : Z := 32.
Definition fis_crc_desc : Z := 248.
Definition fis_crc_file : Z := 252.
Definition sizeof_fis_image_desc : Z := 256.

Record fis_part := FisPart {
  p_name : list Z;      (** [unsigned char name[16]] *)
  p_offset : Z;
  p_loadaddr : Z;
  p_size : Z;
  p_length : Z;
  p_crc : Z
}.

(** The static variables; [fis_desc] is the contents of the mapping. *)
Record fis_vars := FisVars {
  fis_fd : Z;
  fis_desc : option (list Z);
  fis_erasesize : Z
}.
Definition fis_initial : fis_vars := FisVars (-1) None 0.

(** ** The table *)

(** [!strncmp(a, b, n)] *)
Fixpoint strncmp_eq (a b : list Z) (n : nat) {struct n} : result bool :=
  match n with
  | O => Ret true
  | S n =>
      match a, b with
      | x :: a, y :: b => if x =? y then if x =? 0 then Ret true else strncmp_eq a b n else Ret false
      | _, _ => Fault OutOfBounds
      end
  end.
(** Is the record at [pos] one of the partitions? *)
Fixpoint is_part (m : list Z) (pos : Z) (parts : list fis_part) : result bool :=
  match parts with
  | [] => Ret false
  | p :: parts =>
      same ← strncmp_eq (drop (Z.to_nat pos) m) (p_name p) 16;
      if (same : bool) then Ret true else is_part m pos parts
  end.

(** [while (desc < end) { if (!desc->hdr.name[0] || ...) break; ...; desc++; }] *)
Fixpoint each_desc {A} (fuel : nat) (m : list Z) (end_ pos : Z) (body : Z → A → result A) (a : A) : result A :=
  match fuel with
  | O => Fault OutOfFuel
  | S fuel =>
      if pos <? end_ then
        c ← of_option OutOfBounds (m !! Z.to_nat pos);
        if (c =? 0) || (c =? 0xff) then Ret a
        else
          a ← body pos a;
          each_desc fuel m end_ (pos + sizeof_fis_image_desc) body a
      else Ret a
  end.
Definition all_descs {A} (m : list Z) (end_ : Z) (body : Z → A → result A) (a : A) : result A :=
  each_desc (S (Z.to_nat end_)) m end_ 0 body a.

(** [memmove(&m[dst], &m[src], n)] and [memset(&m[pos], v, n)] for any [size_t]. *)
Definition memmove (m : list Z) (dst src n : Z) : result (list Z) :=
  if (src + n <=? Z.of_nat (length m)) && (dst + n <=? Z.of_nat (length m)) then
    w ← mread m (Z.to_nat src) (Z.to_nat n);
    mwrite m (Z.to_nat dst) w
  else Fault OutOfBounds.
Definition memset (m : list Z) (pos v n : Z) : result (list Z) :=
  if pos + n <=? Z.of_nat (length m) then mset m (Z.to_nat pos) v (Z.to_nat n) else Fault OutOfBounds.

Definition count_old (m : list Z) (old : list fis_part) (pos found : Z) : result Z :=
  b ← is_part m pos old;
  Ret (if (b : bool) then found + 1 else found).

Section fis.
Context {Ar : Arch} {K : Type} `{Kernel K}.

(** The first loop of [fis_remap]: the highest address, and the first and the
    last of the partitions to replace. *)
Definition scan_old (m : list Z) (old : list fis_part) (pos : Z) (x : Z * option Z * option Z) :
    result (Z * option Z * option Z) :=
  let '(offset, first, last) := x in
  base ← MtdTrx.field32 m (pos + fis_flash_base);
  let offset := if offset <? base then base else offset in
  b ← is_part m pos old;
  Ret (if (b : bool) then (offset, Some (default pos first), Some pos) else (offset, first, last)).
(** The second one: the lowest address above that of [last_fb]. *)
Definition scan_next (m : list Z) (last_fb pos offset : Z) : result Z :=
  base ← MtdTrx.field32 m (pos + fis_flash_base);
  top ← MtdTrx.field32 m (last_fb + fis_flash_base);
  Ret (if (top <? base) && (base <? offset) then base else offset).

(** Room for the new records: what is behind the old ones is moved. *)
Definition shift_descs (m : list Z) (end_ desc last : Z) : result (list Z) :=
  if desc =? last then Ret m
  else
    let tmp := if last <? desc then desc else last in
    m ← memmove m desc last (size_t (end_ - tmp));
    if desc <? last then
      let tmp := end_ - (last - desc) in
      memset m tmp 0xff (size_t (tmp - end_))
    else Ret m.

(** One round of the last loop, and the size of the partition. *)
Definition put_desc (m : list Z) (desc offset size : Z) (part : fis_part) : result (list Z * Z) :=
  m ← memset m desc 0 sizeof_fis_image_desc;
  m ← mwrite m (Z.to_nat desc) (p_name part);
  m ← MtdTrx.set_field32 m (desc + fis_crc_desc) 0;
  m ← MtdTrx.set_field32 m (desc + fis_crc_file) (p_crc part);
  m ← MtdTrx.set_field32 m (desc + fis_flash_base) offset;
  m ← MtdTrx.set_field32 m (desc + fis_mem_base) (p_loadaddr part);
  m ← MtdTrx.set_field32 m (desc + fis_entry_point) (p_loadaddr part);
  let hsize := if 0 <? p_size part then p_size part else size in
  m ← MtdTrx.set_field32 m (desc + fis_size) hsize;
  m ← MtdTrx.set_field32 m (desc + fis_data_length) (if 0 <? p_length part then p_length part else hsize);
  Ret (m, hsize).
Fixpoint put_descs (m : list Z) (desc offset size : Z) (new : list fis_part) : result (list Z) :=
  match new with
  | [] => Ret m
  | part :: new =>
      '(m, hsize) ← put_desc m desc offset size part;
      put_descs m (desc + sizeof_fis_image_desc) (u32 (offset + hsize)) (u32 (size - hsize)) new
  end.

(** [fis_remap] on the mapping. *)
Definition remap (m : list Z) (end_ : Z) (old new : list fis_part) : result (list Z) :=
  '(offset, first, last) ← all_descs m end_ (scan_old m old) (0, None, None);
  first ← of_option NullDeref first;
  last ← of_option NullDeref last;
  fbase ← MtdTrx.field32 m (first + fis_flash_base);
  lbase ← MtdTrx.field32 m (last + fis_flash_base);
  let '(first_fb, last_fb) := if lbase <? fbase then (last, first) else (first, last) in
  offset ← all_descs m end_ (scan_next m last_fb) offset;
  base ← MtdTrx.field32 m (first_fb + fis_flash_base);
  let size := u32 (offset - base) in
  let last := last + sizeof_fis_image_desc in
  let desc := first + Z.of_nat (length new) * sizeof_fis_image_desc in
  m ← shift_descs m end_ desc last;
  put_descs m first base size new.

(** ** The functions *)

Definition fis_close (v : fis_vars) : M K fis_vars :=
  _ ← (if 0 <=? fis_fd v then sys_ (k_close (fis_fd v)) else mret tt);
  mret (FisVars (-1) None (fis_erasesize v)).

(** The result is [fis_desc]. *)
Definition fis_open (v : fis_vars) : M K fis_vars :=
  v ← (if 0 <=? fis_fd v then fis_close v else mret v);
  fd ← mtd_check_open (cs "FIS directory");
  if fd <? 0 then fis_close (FisVars fd (fis_desc v) (fis_erasesize v))
  else
    _ ← sys_ (k_close fd);
    fd ← mtd_open (cs "FIS directory") true;
    if fd <? 0 then fis_close (FisVars fd (fis_desc v) (fis_erasesize v))
    else
      g ← get;
      ptr ← sys (k_mmap fd (size_t (erasesize g)));
      match ptr with
      | None => fis_close (FisVars fd (fis_desc v) (erasesize g))
      | Some m => mret (FisVars fd (Some m) (erasesize g))
      end.

Definition fis_validate (old new : list fis_part) (v : fis_vars) : M K (Z * fis_vars) :=
  v ← fis_open v;
  match fis_desc v with
  | None => mret (-1, v)
  | Some m =>
      i ← (if existsb (λ p, p_size p =? 0) (take (length new - 1) new) then mret (-1)
           else
             found ← lift (all_descs m (fis_erasesize v) (count_old m old) 0);
             mret (if found =? Z.of_nat (length old) then 1 else -1));
      v ← fis_close v;
      mret (i, v)
  end.

Definition fis_remap (old new : list fis_part) (v : fis_vars) : M K (Z * fis_vars) :=
  v ← fis_open v;
  match fis_desc v with
  | None => mret (-1, v)
  | Some m =>
      m ← lift (remap m (fis_erasesize v) old new);
      _ ← sys_ (k_msync (fis_fd v) m);
      v ← fis_close v;
      mret (0, v)
  end.

(** ** The code of [mtd_write] under FIS_SUPPORT (mtd.c) *)

Definition MAX_ARGS : nat := 8.

(** The parts of a string between separators, and those that [strtok] gives. *)
Fixpoint fields_at (sep : Z) (s : list Z) : list (list Z) :=
  match s with
  | [] => [[]]
  | c :: s =>
      if c =? sep then [] :: fields_at sep s
      else match fields_at sep s with w :: ws => (c :: w) :: ws | [] => [[c]] end
  end.
Definition tokens (sep : Z) (s : list Z) : list (list Z) := filter (λ w, w ≠ []) (fields_at sep s).

(** The devices to be written: their names are copied without a test of their
    length, into the fields behind [name] when they are longer. *)
Fixpoint old_parts_of (names : list (list Z)) : result (list fis_part) :=
  match names with
  | [] => Ret []
  | w :: names =>
      if decide (16 < length w)%nat then Fault OutOfBounds
      else
        ps ← old_parts_of names;
        Ret (FisPart (w ++ replicate (16 - length w) 0) 0 0 0 0 0 :: ps)
  end.
(** The layout: name:size:address, ... *)
Definition new_part_of (word : list Z) : result fis_part :=
  match tokens 58 word with
  | [] => Fault NullDeref
  | name :: rest =>
      let name := take 15 name in
      let name := name ++ replicate (16 - length name) 0 in
      Ret match rest with
          | [] => FisPart name 0 0 0 0 0
          | [size] => FisPart name 0 0 (u32 (strtoul size 0).1) 0 0
          | size :: addr :: _ => FisPart name 0 (u32 (strtoul addr 16).1) (u32 (strtoul size 0).1) 0 0
          end
  end.
Fixpoint new_parts_of (words : list (list Z)) : result (list fis_part) :=
  match words with
  | [] => Ret []
  | w :: words => p ← new_part_of w; ps ← new_parts_of words; Ret (p :: ps)
  end.

(** The old and the new partitions and the one that the first bytes belong to. *)
Definition fis_begin (mtd layout : list Z) (part_offset : Z) (v : fis_vars) :
    M K (list fis_part * list fis_part * option nat * fis_vars) :=
  old ← lift (old_parts_of (fields_at 58 mtd));
  new ← lift (new_parts_of (tokens 44 layout));
  if decide (MAX_ARGS < length old ∨ MAX_ARGS < length new)%nat then lift (Fault OutOfBounds)
  else
    '(ret, v) ← fis_validate old new v;
    if ret <? 0 then exit_ 1
    else mret (old, new, if part_offset =? 0 then Some 0%nat else None, v).

(** After a block has been written: its bytes count for the partition it
    belongs to.  [parts] is the array of [MAX_ARGS] partitions. *)
Definition fis_account (buf : list Z) (buflen_raw : Z) (parts : list fis_part) (cur : option nat) :
    result (list fis_part * option nat) :=
  match cur with
  | None => Ret (parts, None)
  | Some c =>
      p ← of_option OutOfBounds (parts !! c);
      let c := if negb (p_size p =? 0) && (Z.of_nat c <? Z.of_nat MAX_ARGS - 1) &&
                  (p_size p <? u32 (p_length p + buflen_raw)) then S c else c in
      p ← of_option OutOfBounds (parts !! c);
      crc ← crc32 (p_crc p) buf buflen_raw;
      Ret (<[c := FisPart (p_name p) (p_offset p) (p_loadaddr p) (p_size p) (u32 (p_length p + buflen_raw)) crc]> parts, Some c)
  end.

End fis.
End MtdFis.
