(* ===== verification/MtdFisProps.v ===== *)
(** * RedBoot partition tables: what [fis_remap] makes of a table *)

From S2P Require Import Prelude CLib Mtd MtdKernel MtdSim MtdDev MtdTrx MtdImagetag MtdFis.
Import Mtd MtdKernel MtdSim MtdDev MtdImagetag MtdFis.
Open Scope Z_scope.
Open Scope cint_scope.

Module MtdFisProps.

Section spec.
Context {Ar : Arch}.
Implicit Types d : list Z.
Implicit Types ds tl : list (list Z).

(** ** Records *)

Definition desc_ok d : Prop := length d = 256%nat ∧ bytes_wf d.
Definition used d : bool := match d with c :: _ => negb ((c =? 0) || (c =? 0xff)) | [] => false end.
(** The table ends before [tl]. *)
Definition ends_at tl : Prop := match tl with d :: _ => used d = false | [] => True end.
Definition word d (x : Z) : Z := u32_of (range d x 4).
Definition base_of d : Z := word d fis_flash_base.
Definition len_of d : Z := word d fis_size.
(** The name of a record or a partition, before a NUL and at most 16 bytes. *)
Definition name_of (w : list Z) : list Z := upto_nul (take 16 w).
Definition named (parts : list fis_part) d : Prop := name_of d ∈ (name_of ∘ p_name) <$> parts.
#[export] Instance named_dec parts d : Decision (named parts d).
Proof. unfold named. apply _. Defined.

(** The record that is written for a partition. *)
Definition image_desc (p : fis_part) (base size : Z) : list Z :=
  p_name p ++ u32_bytes (u32 base) ++ u32_bytes (u32 (p_loadaddr p)) ++ u32_bytes (u32 size) ++
  u32_bytes (u32 (p_loadaddr p)) ++ u32_bytes (u32 (if 0 <? p_length p then p_length p else size)) ++
  replicate 212 0 ++ u32_bytes (u32 0) ++ u32_bytes (u32 (p_crc p)).
Fixpoint lay (base avail : Z) (new : list fis_part) : list (list Z) :=
  match new with
  | [] => []
  | p :: new =>
      let size := if 0 <? p_size p then p_size p else avail in
      image_desc p base size :: lay (u32 (base + size)) (u32 (avail - size)) new
  end.

Record part_ok (p : fis_part) : Prop := {
  po_name : length (p_name p) = 16%nat;
  po_size : 0 ≤ p_size p < 2 ^ 32;
  po_load : 0 ≤ p_loadaddr p < 2 ^ 32;
  po_length : 0 ≤ p_length p < 2 ^ 32;
  po_crc : 0 ≤ p_crc p < 2 ^ 32
}.

(** ** Names *)

Lemma strncmp_eq_names a b n : (n ≤ length a)%nat → (n ≤ length b)%nat →
  strncmp_eq a b n = Ret (bool_decide (upto_nul (take n a) = upto_nul (take n b))).
Proof.
  revert a b. induction n as [|n IH]; intros a b Ha Hb; [by rewrite bool_decide_eq_true_2|].
  destruct a as [|x a], b as [|y b]; cbn in Ha, Hb; try lia. cbn [strncmp_eq take upto_nul].
  destruct (Z.eqb_spec x y) as [->|Hxy].
  - destruct (Z.eqb_spec y 0) as [->|Hy]; [by rewrite bool_decide_eq_true_2|]. rewrite IH by lia. f_equal.
    apply bool_decide_ext. split; congruence.
  - destruct (Z.eqb_spec x 0), (Z.eqb_spec y 0); rewrite bool_decide_eq_false_2; naive_solver.
Qed.
Lemma is_part_named A d C parts : desc_ok d → Forall part_ok parts →
  is_part (A ++ d ++ C) (Z.of_nat (length A)) parts = Ret (bool_decide (named parts d)).
Proof.
  intros [Hd _] Hp. induction Hp as [|p parts [Hn _ _ _ _] Hp IH]; [done|]. cbn [is_part].
  rewrite Nat2Z.id, drop_app_length, strncmp_eq_names by (rewrite ?length_app; lia). cbn [mbind result_bind].
  rewrite take_app_le by lia. fold (name_of d) (name_of (p_name p)).
  destruct (bool_decide_reflect (name_of d = name_of (p_name p))) as [Heq|Hne]; [|rewrite IH]; f_equal; symmetry.
  - apply bool_decide_eq_true_2. unfold named. cbn [fmap list_fmap]. rewrite elem_of_cons. by left.
  - apply bool_decide_ext. unfold named. cbn [fmap list_fmap]. rewrite elem_of_cons. naive_solver.
Qed.

(** ** Tables *)

Lemma length_table ds : Forall desc_ok ds → length (mjoin ds) = (256 * length ds)%nat.
Proof. induction 1 as [|d ds [Hd _] H IH]; [done|]. change (mjoin (d :: ds)) with (d ++ mjoin ds). rewrite length_app, IH. cbn [length]. lia. Qed.
Lemma field_at A d C x : length d = 256%nat → 0 ≤ x → x + 4 ≤ 256 →
  MtdTrx.field32 (A ++ d ++ C) (Z.of_nat (length A) + x) = Ret (word d x).
Proof.
  intros Hd Hx Hx4. unfold MtdTrx.field32, mread. rewrite decide_True by (rewrite !length_app; lia). cbn [mbind result_bind].
  unfold word, range. do 2 f_equal. rewrite drop_app_ge by lia.
  replace (_ - length A)%nat with (Z.to_nat x) by lia. rewrite drop_app_le, take_app_le by (rewrite ?length_drop; lia). done.
Qed.

(** A loop over the records, as a fold. *)
Fixpoint fold_descs {A} (f : Z → list Z → A → A) (pos : Z) ds (a : A) : A :=
  match ds with [] => a | d :: ds => fold_descs f (pos + 256) ds (f pos d a) end.
Lemma walk_app {A} (f : Z → list Z → A → A) pos l1 l2 a :
  fold_descs f pos (l1 ++ l2) a = fold_descs f (pos + 256 * Z.of_nat (length l1)) l2 (fold_descs f pos l1 a).
Proof.
  revert pos a. induction l1 as [|d l1 IH]; intros pos a; cbn [app fold_descs length]; [f_equal; lia|].
  rewrite IH. f_equal. lia.
Qed.

Lemma each_desc_walk {A} (f : Z → list Z → A → A) (body : Z → A → result A) before ds tl fuel a :
  Forall desc_ok (before ++ ds ++ tl) → Forall (λ d, used d = true) ds → ends_at tl → (length ds < fuel)%nat →
  (∀ l1 d l2 a, before ++ ds ++ tl = l1 ++ d :: l2 → body (256 * Z.of_nat (length l1)) a = Ret (f (256 * Z.of_nat (length l1)) d a)) →
  let m := mjoin (before ++ ds ++ tl) in
  each_desc fuel m (Z.of_nat (length m)) (256 * Z.of_nat (length before)) body a =
    Ret (fold_descs f (256 * Z.of_nat (length before)) ds a).
Proof.
  intros Hok Hu He Hf Hbody m. assert (length m = 256 * length (before ++ ds ++ tl))%nat as Hm by (by apply length_table).
  revert before fuel a m Hok Hf Hbody Hm. induction Hu as [|d ds Hd Hu IH]; intros before [|fuel] a m Hok Hf Hbody Hm; cbn [length] in Hf; try lia.
  - cbn [each_desc fold_descs]. destruct (Z.ltb_spec (256 * Z.of_nat (length before)) (Z.of_nat (length m))) as [Hlt|]; [|done].
    destruct tl as [|d tl]; [rewrite Hm, !length_app in Hlt; cbn in Hlt; lia|]. cbn in He.
    apply Forall_app in Hok as [Hb Hok]. cbn [app] in Hok. apply Forall_cons in Hok as [[Hl _] Hok].
    assert (m = mjoin before ++ d ++ mjoin tl) as -> by (unfold m; by rewrite join_app).
    rewrite lookup_app_r by (rewrite length_table by done; lia). rewrite length_table by done.
    replace (_ - _)%nat with 0%nat by lia. destruct d as [|c d]; [done|]. cbn [app lookup list_lookup of_option mbind result_bind].
    cbn in He. by destruct ((c =? 0) || (c =? 255)).
  - cbn [each_desc fold_descs]. pose proof Hok as [Hb Hok2]%Forall_app. cbn [app] in Hok2. apply Forall_cons in Hok2 as [[Hl Hw] Hok2].
    rewrite (proj2 (Z.ltb_lt _ _)) by (rewrite Hm, !length_app; cbn [length app]; lia).
    assert (m !! Z.to_nat (256 * Z.of_nat (length before)) = d !! 0%nat) as ->.
    { assert (m = mjoin before ++ d ++ mjoin (ds ++ tl)) as -> by (unfold m; by rewrite join_app).
      rewrite lookup_app_r by (rewrite length_table by done; lia). rewrite length_table by done.
      replace (_ - _)%nat with 0%nat by lia. rewrite lookup_app_l by lia. done. }
    rewrite (Hbody before d (ds ++ tl)) by done.
    destruct d as [|c d]; [done|]. cbn [lookup list_lookup of_option mbind result_bind]. cbn in Hd.
    destruct ((c =? 0) || (c =? 255)); [done|]. clear Hd.
    specialize (IH (before ++ [c :: d]) fuel (f (256 * Z.of_nat (length before)) (c :: d) a)).
    cbv zeta in IH. rewrite <- !(assoc_L (++)) in IH. cbn [app] in IH, m. fold m in IH.
    assert (256 * Z.of_nat (length before) + 256 = 256 * Z.of_nat (length (before ++ [c :: d]))) as E
      by (rewrite length_app; cbn [length]; lia).
    unfold sizeof_fis_image_desc. rewrite E. apply IH; [done|lia|done|]. rewrite Hm, !length_app. cbn [length app]. rewrite length_app. lia.
Qed.

(** ** The scans *)

Definition top (l : list Z) (o : Z) : Z := foldl Z.max o l.
Definition see_old (old : list fis_part) (pos : Z) d (x : Z * option Z * option Z) : Z * option Z * option Z :=
  let '(o, first, last) := x in
  let o := Z.max o (base_of d) in
  if bool_decide (named old d) then (o, Some (default pos first), Some pos) else (o, first, last).
Definition see_next (lim : Z) (_ : Z) d (o : Z) : Z :=
  if (lim <? base_of d) && (base_of d <? o) then base_of d else o.

Lemma walk_others old pos l o first last_ : Forall (λ d, ¬ named old d) l →
  fold_descs (see_old old) pos l (o, first, last_) = (top (base_of <$> l) o, first, last_).
Proof.
  intros Hl. revert pos o. induction Hl as [|d l Hd Hl IH]; intros pos o; cbn [fold_descs see_old]; [done|].
  rewrite bool_decide_eq_false_2 by done. apply IH.
Qed.
Lemma walk_after_first old pos l o x last_ : ∃ last',
  fold_descs (see_old old) pos l (o, Some x, last_) = (top (base_of <$> l) o, Some x, last').
Proof.
  revert pos o last_. induction l as [|d l IH]; intros pos o last_; cbn [fold_descs see_old]; [by eexists|].
  case_bool_decide; apply IH.
Qed.
Lemma walk_old old pos a r z o : named old a → last (a :: r) = Some z → named old z →
  fold_descs (see_old old) pos (a :: r) (o, None, None) =
    (top (base_of <$> a :: r) o, Some pos, Some (pos + 256 * Z.of_nat (length r))).
Proof.
  intros Ha Hz Hnz. cbn [fold_descs see_old]. rewrite bool_decide_eq_true_2 by done. cbn [default].
  destruct r as [|y r _] using rev_ind; [cbn; do 2 f_equal; lia|].
  rewrite app_comm_cons, last_snoc in Hz. injection Hz as ->. rewrite walk_app.
  destruct (walk_after_first old (pos + 256) r (Z.max o (base_of a)) pos (Some pos)) as [last' ->].
  cbn [fold_descs see_old]. rewrite bool_decide_eq_true_2 by done. cbn [default].
  rewrite length_app, fmap_cons, fmap_app. cbn [length fmap list_fmap]. unfold top. cbn [foldl]. rewrite foldl_app. cbn [foldl].
  do 2 f_equal. lia.
Qed.

(** The address at which the space of the old partitions ends: the next one in
    use, or, when there is none, that of the last of them. *)
Definition follows ds (lim off : Z) : Prop :=
  (off = lim ∧ ∀ d, d ∈ ds → base_of d ≤ lim) ∨
  (lim < off ∧ off ∈ base_of <$> ds ∧ ∀ d, d ∈ ds → lim < base_of d → off ≤ base_of d).

Lemma top_spec l o : o ≤ top l o ∧ (∀ x, x ∈ l → x ≤ top l o) ∧ (top l o = o ∨ top l o ∈ l).
Proof.
  revert o. induction l as [|y l IH]; intros o; cbn.
  - split; [done|]. split; [by intros x []%not_elem_of_nil|by left].
  - fold (top l (Z.max o y)). destruct (IH (Z.max o y)) as (H1 & H2 & H3). split; [lia|]. split.
    + intros x [->|?]%elem_of_cons; [lia|auto].
    + rewrite elem_of_cons. destruct H3 as [->|?]; [|auto]. destruct (Z.max_spec o y) as [[_ ->]|[_ ->]]; auto.
Qed.
Lemma next_spec lim pos ds o : let o' := fold_descs (see_next lim) pos ds o in
  (o' = o ∨ (lim < o' ∧ o' ∈ base_of <$> ds)) ∧ o' ≤ o ∧ ∀ d, d ∈ ds → lim < base_of d → o' ≤ base_of d.
Proof.
  revert pos o. induction ds as [|d ds IH]; intros pos o; cbn [fold_descs].
  - split; [by left|]. split; [done|by intros ? []%not_elem_of_nil].
  - destruct (IH (pos + 256) (see_next lim pos d o)) as (H1 & H2 & H3). cbv zeta. rewrite fmap_cons, elem_of_cons.
    unfold see_next in *. destruct (Z.ltb_spec lim (base_of d)), (Z.ltb_spec (base_of d) o); cbn [andb] in *;
      (split; [intuition lia|]); (split; [lia|]); intros e [->|He]%elem_of_cons ?; auto; lia.
Qed.
Lemma scans_follow lim pos ds : lim ∈ base_of <$> ds → 0 ≤ lim →
  follows ds lim (fold_descs (see_next lim) pos ds (top (base_of <$> ds) 0)).
Proof.
  intros Hl H0. destruct (top_spec (base_of <$> ds) 0) as (T0 & T1 & T2). pose proof (T1 _ Hl) as Hle.
  destruct (next_spec lim pos ds (top (base_of <$> ds) 0)) as (N1 & N2 & N3).
  set (t := top (base_of <$> ds) 0) in *. set (n := fold_descs _ _ _ _) in *.
  destruct (decide (t = lim)) as [Et|Ht].
  - left. destruct N1 as [->|[? Hin]]; [|specialize (T1 _ Hin); lia]. split; [done|].
    intros d Hd. rewrite <- Et. apply T1. by apply list_elem_of_fmap_2.
  - right. destruct N1 as [->|[? ?]]; [|done]. split; [lia|]. split; [|done]. destruct T2; [lia|done].
Qed.

(** ** Writing records *)

Lemma mwrite_within A B C x bs : 0 ≤ x → x + Z.of_nat (length bs) ≤ Z.of_nat (length B) →
  mwrite (A ++ B ++ C) (Z.to_nat (Z.of_nat (length A) + x)) bs = Ret (A ++ splice B x bs ++ C).
Proof.
  intros Hx Hb. rewrite mwrite_ret by (rewrite !length_app; lia). f_equal. unfold splice.
  rewrite take_app_ge, (take_app_le B), (drop_app_ge A), (drop_app_le B) by lia. rewrite <- !(assoc_L (++)).
  do 2 f_equal; [f_equal; lia|]. do 3 f_equal. lia.
Qed.
Lemma mwrite_within0 A B C bs : (length bs ≤ length B)%nat →
  mwrite (A ++ B ++ C) (Z.to_nat (Z.of_nat (length A))) bs = Ret (A ++ splice B 0 bs ++ C).
Proof. intros Hb. rewrite <- mwrite_within by lia. by rewrite Z.add_0_r. Qed.
Lemma set_in A B C x v : length B = 256%nat → 0 ≤ x → x + 4 ≤ 256 →
  MtdTrx.set_field32 (A ++ B ++ C) (Z.of_nat (length A) + x) v = Ret (A ++ splice B x (u32_bytes (u32 v)) ++ C).
Proof. intros HB Hx Hb. apply mwrite_within; [done|]. rewrite length_u32_bytes. lia. Qed.
Lemma image_desc_fields (n a l s e c z : list Z) : length n = 16%nat → Forall (λ w, length w = 4%nat) [a; l; s; e; c; z] →
  splice (splice (splice (splice (splice (splice (splice (splice (replicate 256 0) 0 n) fis_crc_desc z) fis_crc_file c)
    fis_flash_base a) fis_mem_base l) fis_entry_point l) fis_size s) fis_data_length e =
  n ++ a ++ l ++ s ++ l ++ e ++ replicate 212 0 ++ z ++ c.
Proof.
  intros Hn Hw. rewrite !Forall_cons in Hw. destruct Hw as (Ha & Hl & Hs & He & Hc & Hz & _).
  do 17 (destruct n as [|? n]; try discriminate). do 5 (destruct a as [|? a]; try discriminate).
  do 5 (destruct l as [|? l]; try discriminate). do 5 (destruct s as [|? s]; try discriminate).
  do 5 (destruct e as [|? e]; try discriminate). do 5 (destruct c as [|? c]; try discriminate).
  do 5 (destruct z as [|? z]; try discriminate). reflexivity.
Qed.

Definition part_len (avail : Z) (p : fis_part) : Z := if 0 <? p_size p then p_size p else avail.
Lemma put_desc_ret A B C base avail p : length B = 256%nat → part_ok p →
  put_desc (A ++ B ++ C) (Z.of_nat (length A)) base avail p =
    Ret (A ++ image_desc p base (part_len avail p) ++ C, part_len avail p).
Proof.
  intros HB [Hn _ _ _ _]. unfold put_desc, memset. fold (part_len avail p). set (len := part_len avail p).
  rewrite (proj2 (Z.leb_le _ _)) by (rewrite !length_app; unfold sizeof_fis_image_desc; lia). unfold mset.
  rewrite mwrite_within0 by (rewrite ?length_replicate; unfold sizeof_fis_image_desc; lia). cbn [mbind result_bind].
  assert (splice B 0 (replicate (Z.to_nat sizeof_fis_image_desc) 0) = replicate 256 0) as ->.
  { unfold splice. rewrite length_replicate. rewrite drop_ge by (unfold sizeof_fis_image_desc; lia). apply app_nil_r. }
  assert (∀ W x w, length W = 256%nat → 0 ≤ x → x + Z.of_nat (length w) ≤ 256 → length (splice W x w) = 256%nat) as Hl.
  { intros W x w HW Hx Hw. rewrite length_splice by lia. done. }
  assert (∀ v, length (u32_bytes (u32 v)) = 4%nat) as H4 by (intros v; apply length_u32_bytes).
  rewrite mwrite_within0 by (rewrite Hn, length_replicate; lia). cbn [mbind result_bind].
  do 7 (rewrite set_in; [cbn [mbind result_bind]|repeat (apply Hl; [|done|rewrite ?Hn, ?H4; done]); done|done|done]).
  rewrite image_desc_fields; [done|done|]. repeat (apply Forall_cons; split; [apply H4|]). by apply Forall_nil.
Qed.
Lemma length_image_desc p b s : length (p_name p) = 16%nat → length (image_desc p b s) = 256%nat.
Proof. intros Hn. unfold image_desc. rewrite !length_app, Hn, !length_u32_bytes, length_replicate. done. Qed.
Lemma put_descs_ret new : ∀ A B C base avail, length B = (256 * length new)%nat → Forall part_ok new →
  put_descs (A ++ B ++ C) (Z.of_nat (length A)) base avail new = Ret (A ++ mjoin (lay base avail new) ++ C).
Proof.
  induction new as [|p new IH]; intros A B C base avail HB Hp; cbn [length] in HB.
  - destruct B; [done|cbn in HB; lia].
  - apply Forall_cons in Hp as [Hp Hps]. pose proof (length_image_desc p base (part_len avail p) (po_name _ Hp)) as Hl.
    rewrite <- (take_drop 256 B), <- (assoc_L (++)). cbn [put_descs].
    rewrite put_desc_ret; [|rewrite length_take; lia|done]. cbn [mbind result_bind].
    change (mjoin (lay base avail (p :: new))) with (image_desc p base (part_len avail p) ++
      mjoin (lay (u32 (base + part_len avail p)) (u32 (avail - part_len avail p)) new)).
    rewrite <- (assoc_L (++)), !(assoc_L (++) A).
    replace (Z.of_nat (length A) + sizeof_fis_image_desc) with (Z.of_nat (length (A ++ image_desc p base (part_len avail p))))
      by (rewrite length_app, Hl; unfold sizeof_fis_image_desc; lia).
    apply IH; [rewrite length_drop; lia|done].
Qed.

Lemma size_t_negative k : 0 < k < 2 ^ 31 → 2 ^ 31 < size_t (- k).
Proof.
  intros Hk. pose proof long_bits_32 as Hb. unfold size_t. set (n := 2 ^ long_bits) in *.
  replace (- k) with (n - k + -1 * n) by lia. rewrite Z_mod_plus_full, Z.mod_small by lia. lia.
Qed.

(** What is behind the old records moves back. *)
Lemma shift_ret P O R (N : Z) : Z.of_nat (length O) ≤ N → N ≤ Z.of_nat (length O + length R) →
  Z.of_nat (length (P ++ O ++ R)) < 2 ^ 31 → ∃ B, Z.of_nat (length B) = N ∧
  shift_descs (P ++ O ++ R) (Z.of_nat (length (P ++ O ++ R))) (Z.of_nat (length P) + N) (Z.of_nat (length P) + Z.of_nat (length O)) =
    Ret (P ++ B ++ take (length O + length R - Z.to_nat N) R).
Proof.
  intros HO HN Hm. exists (take (Z.to_nat N) (O ++ R)). split; [rewrite length_take, length_app; lia|].
  unfold shift_descs. set (m := P ++ O ++ R) in *.
  assert (length m = length P + (length O + length R))%nat as Em by (unfold m; by rewrite !length_app).
  destruct (Z.eqb_spec (Z.of_nat (length P) + N) (Z.of_nat (length P) + Z.of_nat (length O))) as [E|E].
  - replace (Z.to_nat N) with (length O) by lia. rewrite take_app_length. by rewrite take_ge by lia.
  - rewrite (proj2 (Z.ltb_lt (Z.of_nat (length P) + Z.of_nat (length O)) _)) by lia.
    rewrite (proj2 (Z.ltb_ge (Z.of_nat (length P) + N) _)), size_t_small by lia. unfold memmove.
    rewrite !(proj2 (Z.leb_le _ _)) by lia. cbn [andb]. unfold mread. rewrite decide_True by lia. cbn [mbind result_bind].
    set (w := take _ _). assert (w = take (length O + length R - Z.to_nat N) R) as Ew.
    { unfold w. rewrite Em. unfold m. rewrite (assoc_L (++)), drop_app_ge by (rewrite length_app; lia).
      replace (_ - length (P ++ O))%nat with 0%nat by (rewrite length_app; lia). rewrite drop_0. f_equal. lia. }
    assert (length w = length O + length R - Z.to_nat N)%nat as Lw by (rewrite Ew, length_take; lia).
    rewrite mwrite_ret by lia. cbn [mbind result_bind]. f_equal.
    rewrite (drop_ge m) by lia. rewrite app_nil_r, <- Ew. unfold m.
    rewrite take_app_ge by lia. rewrite <- (assoc_L (++)). do 3 f_equal. lia.
Qed.

(** ** What the new records say *)

Record describes (p : fis_part) d : Prop := {
  ds_name : take 16 d = p_name p;
  ds_mem : word d fis_mem_base = p_loadaddr p;
  ds_entry : word d fis_entry_point = p_loadaddr p;
  ds_size : 0 < p_size p → len_of d = p_size p;
  ds_length : word d fis_data_length = if 0 <? p_length p then p_length p else len_of d;
  ds_crc : word d fis_crc_file = p_crc p
}.
(** Records one after the other from address [b] to address [e]. *)
Fixpoint chain (b e : Z) ds : Prop :=
  match ds with [] => b = e | d :: ds => base_of d = b ∧ chain (b + len_of d) e ds end.

Lemma word_at X w Y x : Z.of_nat (length X) = x → length w = 4%nat → word (X ++ w ++ Y) x = u32_of w.
Proof.
  intros Hx Hw. unfold word, range. rewrite drop_app_length' by lia. change (Z.to_nat 4) with 4%nat. by rewrite take_app_length'.
Qed.
Lemma image_words p b s : length (p_name p) = 16%nat →
  let d := image_desc p b s in
  base_of d = u32 b ∧ word d fis_mem_base = u32 (p_loadaddr p) ∧ len_of d = u32 s ∧
  word d fis_entry_point = u32 (p_loadaddr p) ∧
  word d fis_data_length = u32 (if 0 <? p_length p then p_length p else s) ∧ word d fis_crc_file = u32 (p_crc p).
Proof.
  intros Hn d. unfold d, image_desc, base_of, len_of.
  set (n := p_name p) in *. set (z := replicate 212 0).
  assert (∀ v, u32_of (u32_bytes (u32 v)) = u32 v) as Hv by (intros v; rewrite u32_of_bytes; apply u32_small, u32_range).
  assert (∀ v, length (u32_bytes (u32 v)) = 4%nat) as H4 by (intros v; apply length_u32_bytes).
  assert (∀ X v Y x, Z.of_nat (length X) = x → word (X ++ u32_bytes (u32 v) ++ Y) x = u32 v) as Hw
    by (intros; by rewrite word_at).
  split; [apply Hw; by rewrite Hn|]. rewrite !(assoc_L (++) n).
  split; [apply Hw; by rewrite length_app, Hn, H4|]. rewrite !(assoc_L (++) (n ++ _)).
  split; [apply Hw; by rewrite !length_app, Hn, !H4|]. rewrite !(assoc_L (++) ((n ++ _) ++ _)).
  split; [apply Hw; by rewrite !length_app, Hn, !H4|]. rewrite !(assoc_L (++) (((n ++ _) ++ _) ++ _)).
  split; [apply Hw; by rewrite !length_app, Hn, !H4|].
  rewrite <- (app_nil_r (u32_bytes (u32 (p_crc p)))). rewrite !(assoc_L (++)). rewrite <- (assoc_L (++) _ _ []).
  apply Hw. rewrite !length_app, Hn, !H4. unfold z. by rewrite length_replicate.
Qed.

Lemma lay_describes new : ∀ base avail, Forall part_ok new → 0 ≤ avail < 2 ^ 32 → Forall2 describes new (lay base avail new).
Proof.
  induction new as [|p new IH]; intros base avail Hp Ha; [constructor|]. apply Forall_cons in Hp as [Hp Hps]. cbn [lay].
  fold (part_len avail p). pose proof Hp as [Hn ? ? ? ?]. constructor; [|apply IH; [done|apply u32_range]].
  assert (0 ≤ part_len avail p < 2 ^ 32) as Hl by (unfold part_len; case_match; lia).
  destruct (image_words p base (part_len avail p) Hn) as (_ & E1 & E2 & E3 & E4 & E5).
  split; rewrite ?E1, ?E2, ?E3, ?E4, ?E5, ?u32_small by (try case_match; lia); try done.
  - unfold image_desc. by rewrite take_app_length'.
  - intros Hs. unfold part_len. by rewrite (proj2 (Z.ltb_lt _ _)).
Qed.

Definition sizes (l : list fis_part) : Z := foldr Z.add 0 (p_size <$> l).
(** The last partition takes what is left when it has no size. *)
Lemma lay_chain ps p : ∀ base avail, Forall part_ok (ps ++ [p]) → Forall (λ q, 0 < p_size q) ps →
  sizes (ps ++ [p]) ≤ avail → 0 ≤ base → base + avail < 2 ^ 32 →
  chain base (base + if 0 <? p_size p then sizes (ps ++ [p]) else avail) (lay base avail (ps ++ [p])).
Proof.
  unfold sizes. induction ps as [|q ps IH]; intros base avail Hok Hps Hs Hb He; cbn [app fmap list_fmap foldr lay chain] in *.
  - apply Forall_singleton in Hok as [Hn ? _ _ _]. set (s := if 0 <? p_size p then _ else avail).
    assert (s = if 0 <? p_size p then p_size p + 0 else avail) as Es by (unfold s; case_match; lia).
    assert (0 ≤ s ≤ avail) by (rewrite Es; case_match; lia).
    destruct (image_words p base s Hn) as (-> & _ & -> & _). rewrite !u32_small by lia. split; [done|]. lia.
  - apply Forall_cons in Hok as [[Hn ? _ _ _] Hok]. apply Forall_cons in Hps as [Hq Hps]. rewrite (proj2 (Z.ltb_lt 0 (p_size q))) by done.
    assert (0 ≤ foldr Z.add 0 (p_size <$> ps ++ [p])) as H0.
    { clear -Hok. induction Hok as [|x l [_ ? _ _ _] Hl IHl]; cbn; [done|lia]. }
    destruct (image_words q base (p_size q) Hn) as (-> & _ & -> & _). rewrite !u32_small by lia. split; [done|].
    specialize (IH (base + p_size q) (avail - p_size q) Hok Hps ltac:(lia) ltac:(lia) ltac:(lia)).
    destruct (0 <? p_size p); [rewrite Z.add_assoc|]; [done|]. by replace (base + avail) with (base + p_size q + (avail - p_size q)) by lia.
Qed.

(** ** The table *)

(** [olds], from the first partition to replace to the last one, between the
    other records that are used, and the free ones. *)
Record replaceable (pre olds post tl : list (list Z)) (old : list fis_part) (a z : list Z) : Prop := {
  rp_ok : Forall desc_ok ((pre ++ olds ++ post) ++ tl);
  rp_small : Z.of_nat (length (mjoin ((pre ++ olds ++ post) ++ tl))) < 2 ^ 31;
  rp_used : Forall (λ d, used d = true) (pre ++ olds ++ post);
  rp_end : ends_at tl;
  rp_old : Forall part_ok old;
  rp_pre : Forall (λ d, ¬ named old d) pre;
  rp_post : Forall (λ d, ¬ named old d) post;
  rp_first : head olds = Some a ∧ named old a;
  rp_last : last olds = Some z ∧ named old z
}.

Lemma word_range d x : desc_ok d → 0 ≤ x → x + 4 ≤ 256 → 0 ≤ word d x < 2 ^ 32.
Proof.
  intros [Hl Hw] Hx Hx4. apply u32_of_range; [by apply Forall_take, Forall_drop|]. apply length_range; lia.
Qed.
Lemma mjoin_at (l1 l2 : list (list Z)) d : mjoin (l1 ++ d :: l2) = mjoin l1 ++ d ++ mjoin l2.
Proof. by rewrite join_app. Qed.

Lemma take_table n : ∀ ds, Forall desc_ok ds → take (256 * n) (mjoin ds) = mjoin (take n ds).
Proof.
  induction n as [|n IH]; intros ds Hok; [done|]. destruct Hok as [|d ds [Hd _] Hok]; [by rewrite !take_nil|].
  change (mjoin (d :: ds)) with (d ++ mjoin ds). cbn [take]. change (mjoin (d :: take n ds)) with (d ++ mjoin (take n ds)).
  rewrite take_app_ge by lia. f_equal. rewrite Hd. rewrite <- IH by done. f_equal. lia.
Qed.

Section table.
Context (pre olds post tl : list (list Z)) (old : list fis_part) (a z : list Z).
Context (Hr : replaceable pre olds post tl old a z).
Let ds := pre ++ olds ++ post.
Let m := mjoin (ds ++ tl).
Let base := Z.min (base_of a) (base_of z).

Lemma table_field l1 d l2 x : ds ++ tl = l1 ++ d :: l2 → 0 ≤ x → x + 4 ≤ 256 →
  MtdTrx.field32 m (256 * Z.of_nat (length l1) + x) = Ret (word d x).
Proof.
  intros E Hx Hx4. pose proof (rp_ok _ _ _ _ _ _ _ Hr) as Hok. fold ds in Hok. unfold m. rewrite E in *. rewrite mjoin_at.
  apply Forall_app in Hok as [H1 [[Hd _] _]%Forall_cons].
  replace (256 * Z.of_nat (length l1)) with (Z.of_nat (length (mjoin l1))) by (rewrite length_table by done; lia).
  by apply field_at.
Qed.
Lemma table_named l1 d l2 : ds ++ tl = l1 ++ d :: l2 →
  is_part m (256 * Z.of_nat (length l1)) old = Ret (bool_decide (named old d)).
Proof.
  intros E. pose proof (rp_ok _ _ _ _ _ _ _ Hr) as Hok. fold ds in Hok. unfold m. rewrite E in *. rewrite mjoin_at.
  apply Forall_app in Hok as [H1 [Hd _]%Forall_cons].
  replace (256 * Z.of_nat (length l1)) with (Z.of_nat (length (mjoin l1))) by (rewrite length_table by done; lia).
  apply is_part_named; [done|apply Hr].
Qed.
Lemma table_loop {A} (f : Z → list Z → A → A) (body : Z → A → result A) x :
  (∀ l1 d l2 y, ds ++ tl = l1 ++ d :: l2 → body (256 * Z.of_nat (length l1)) y = Ret (f (256 * Z.of_nat (length l1)) d y)) →
  all_descs m (Z.of_nat (length m)) body x = Ret (fold_descs f 0 ds x).
Proof.
  intros Hb. pose proof (length_table _ (rp_ok _ _ _ _ _ _ _ Hr)) as Hl. fold ds in Hl.
  apply (each_desc_walk f body [] ds tl); [apply Hr..| |done]. unfold m. rewrite Hl, length_app. lia.
Qed.

(** The first and the last record with their places. *)
Lemma table_ends : ∃ r r', olds = a :: r ∧ olds = r' ++ [z] ∧ length r' = length r.
Proof.
  destruct (rp_first _ _ _ _ _ _ _ Hr) as [Ha _]. destruct (rp_last _ _ _ _ _ _ _ Hr) as [Hz _].
  apply last_Some in Hz as [r' E]. destruct olds as [|a' r] eqn:Eo; [done|]. injection Ha as ->.
  exists r, r'. split; [done|]. split; [done|]. apply (f_equal length) in E. rewrite length_app in E. cbn in E. lia.
Qed.
Lemma scan_old_table :
  all_descs m (Z.of_nat (length m)) (scan_old m old) (0, None, None) =
    Ret (top (base_of <$> ds) 0, Some (256 * Z.of_nat (length pre)), Some (256 * Z.of_nat (length pre + (length olds - 1)))).
Proof.
  destruct table_ends as (r & r' & E & E' & Hl).
  rewrite (table_loop (see_old old)).
  - f_equal. unfold ds. rewrite !walk_app. rewrite (walk_others _ _ pre) by apply Hr. rewrite E.
    rewrite (walk_old _ _ _ _ z); [|by apply Hr|rewrite <- E; by apply Hr|by apply Hr].
    rewrite walk_others by apply Hr. unfold top. rewrite <- !foldl_app, <- !fmap_app. do 2 f_equal. cbn [length]. lia.
  - intros l1 d l2 [[o f] l] Es. unfold scan_old. rewrite (table_field l1 d l2) by (done || unfold fis_flash_base; lia).
    cbn [mbind result_bind]. rewrite (table_named l1 d l2) by done. cbn [mbind result_bind see_old].
    change (word d fis_flash_base) with (base_of d). replace (if o <? base_of d then base_of d else o) with (Z.max o (base_of d)); [done|].
    destruct (Z.ltb_spec o (base_of d)); lia.
Qed.

Lemma scan_next_table l1 e l2 x : ds ++ tl = l1 ++ e :: l2 →
  all_descs m (Z.of_nat (length m)) (scan_next m (256 * Z.of_nat (length l1))) x = Ret (fold_descs (see_next (base_of e)) 0 ds x).
Proof.
  intros E. apply table_loop. intros l1' d l2' y E'. unfold scan_next.
  rewrite (table_field l1' d l2'), (table_field l1 e l2) by (done || unfold fis_flash_base; lia). done.
Qed.
Lemma in_table d : d ∈ olds → d ∈ ds ∧ 0 ≤ base_of d < 2 ^ 32.
Proof.
  intros Hd. assert (d ∈ ds) as Hin by (unfold ds; set_solver). split; [done|].
  apply word_range; [|unfold fis_flash_base; lia..]. pose proof (rp_ok _ _ _ _ _ _ _ Hr) as Hok.
  rewrite Forall_forall in Hok. apply Hok, elem_of_app. by left.
Qed.

Lemma remap_runs new : ∃ off, follows ds (Z.max (base_of a) (base_of z)) off ∧ base ≤ off < 2 ^ 32 ∧
  remap m (Z.of_nat (length m)) old new =
    (m' ← shift_descs m (Z.of_nat (length m)) (256 * Z.of_nat (length pre) + 256 * Z.of_nat (length new))
            (256 * Z.of_nat (length pre) + 256 * Z.of_nat (length olds));
     put_descs m' (256 * Z.of_nat (length pre)) base (u32 (off - base)) new).
Proof.
  destruct table_ends as (r & r' & E & E' & Hl).
  assert (ds ++ tl = pre ++ a :: (r ++ post ++ tl)) as Ea by (unfold ds; rewrite E; by rewrite <- !(assoc_L (++))).
  assert (ds ++ tl = (pre ++ r') ++ z :: (post ++ tl)) as Ez by (unfold ds; rewrite E'; by rewrite <- !(assoc_L (++))).
  destruct (in_table a) as [Ia Ra]; [rewrite E; set_solver|]. destruct (in_table z) as [Iz Rz]; [rewrite E'; set_solver|].
  set (lim := Z.max (base_of a) (base_of z)). set (off := fold_descs (see_next lim) 0 ds (top (base_of <$> ds) 0)).
  assert (follows ds lim off) as Hf.
  { apply scans_follow; [|unfold lim; lia].
    unfold lim. destruct (Z.max_spec (base_of a) (base_of z)) as [[_ ->]|[_ ->]]; by apply list_elem_of_fmap_2. }
  exists off. split; [done|]. split.
  { destruct Hf as [[-> _]|(? & (d & -> & Hd)%list_elem_of_fmap & _)]; [unfold base, lim; lia|].
    split; [unfold base, lim in *; lia|]. pose proof (rp_ok _ _ _ _ _ _ _ Hr) as Hok. rewrite Forall_forall in Hok.
    apply word_range; [|unfold fis_flash_base; lia..]. apply Hok, elem_of_app. by left. }
  unfold remap. rewrite scan_old_table. cbn [mbind result_bind of_option].
  assert (length pre + (length olds - 1) = length (pre ++ r'))%nat as -> by (rewrite E, length_app; cbn [length]; lia).
  rewrite (table_field pre a _ _ Ea), (table_field _ z _ _ Ez) by (unfold fis_flash_base; lia). cbn [mbind result_bind].
  change (word a fis_flash_base) with (base_of a). change (word z fis_flash_base) with (base_of z).
  assert (256 * Z.of_nat (length (pre ++ r')) + sizeof_fis_image_desc = 256 * Z.of_nat (length pre) + 256 * Z.of_nat (length olds)) as Elast
    by (rewrite E, length_app; cbn [length]; unfold sizeof_fis_image_desc; lia).
  assert (256 * Z.of_nat (length pre) + Z.of_nat (length new) * sizeof_fis_image_desc =
    256 * Z.of_nat (length pre) + 256 * Z.of_nat (length new)) as Edesc by (unfold sizeof_fis_image_desc; lia).
  destruct (Z.ltb_spec (base_of z) (base_of a)).
  - rewrite (scan_next_table pre a _ _ Ea). cbn [mbind result_bind].
    rewrite (table_field _ z _ _ Ez) by (unfold fis_flash_base; lia). cbn [mbind result_bind].
    rewrite Elast, Edesc. change (word z fis_flash_base) with (base_of z).
    replace (base_of z) with base by (unfold base; lia). replace (base_of a) with lim by (unfold lim; lia). done.
  - rewrite (scan_next_table _ z _ _ Ez). cbn [mbind result_bind].
    rewrite (table_field _ a _ _ Ea) by (unfold fis_flash_base; lia). cbn [mbind result_bind].
    rewrite Elast, Edesc. change (word a fis_flash_base) with (base_of a).
    replace (base_of a) with base by (unfold base; lia). replace (base_of z) with lim by (unfold lim; lia). done.
Qed.

(** The mapping in three parts. *)
Lemma table_parts : ∃ P O R, m = P ++ O ++ R ∧ P = mjoin pre ∧ R = mjoin (post ++ tl) ∧
  length P = (256 * length pre)%nat ∧ length O = (256 * length olds)%nat ∧ length R = (256 * (length post + length tl))%nat ∧
  Forall desc_ok (post ++ tl).
Proof.
  exists (mjoin pre), (mjoin olds), (mjoin (post ++ tl)). pose proof (rp_ok _ _ _ _ _ _ _ Hr) as Hok.
  rewrite <- !(assoc_L (++)) in Hok. apply Forall_app in Hok as [H1 [H2 H3]%Forall_app].
  rewrite !length_table by done. rewrite length_app.
  split; [unfold m, ds; by rewrite <- !(assoc_L (++)), join_app, (join_app olds)|]. done.
Qed.

(** C33: [fis_remap] on a table in which the partitions to replace lie together,
    with at least as many new ones and free records for the additional ones:
    it stays inside the mapping and ends, the records before and behind the
    old partitions stay as they are and in order, with the new ones between
    them, and free records are dropped at the end; every new record has the
    name, addresses, length and checksum that were asked for, and when the
    sizes fit, the new partitions lie one after the other from the address
    where the first of the old ones began, and a last one without a size ends
    at the next address in use. *)
Theorem remap_correct ps p :
  let new := ps ++ [p] in
  Forall part_ok new → Forall (λ q, 0 < p_size q) ps →
  (length olds ≤ length new)%nat → (length new ≤ length olds + length tl)%nat →
  ∃ off news, follows ds (Z.max (base_of a) (base_of z)) off ∧
    remap m (Z.of_nat (length m)) old new =
      Ret (mjoin (pre ++ news ++ post ++ take (length olds + length tl - length new) tl)) ∧
    Forall2 describes new news ∧
    (sizes new ≤ off - base → chain base (if 0 <? p_size p then base + sizes new else off) news).
Proof.
  intros new Hnew Hps Hge Hroom. destruct (remap_runs new) as (off & Hf & Hoff & Erun).
  destruct table_parts as (P & O & R & Em & EP & ER & LP & LO & LR & Hok). pose proof (rp_small _ _ _ _ _ _ _ Hr) as Hsm. fold ds m in Hsm.
  assert (0 ≤ base) as Hb0.
  { destruct table_ends as (r & r' & E & E' & _). destruct (in_table a) as [_ ?]; [rewrite E; set_solver|].
    destruct (in_table z) as [_ ?]; [rewrite E'; set_solver|]. unfold base. lia. }
  exists off, (lay base (off - base) new). split; [done|]. split; [|split].
  - rewrite Erun. rewrite u32_small by lia. rewrite Em in Hsm |- *.
    destruct (shift_ret P O R (256 * Z.of_nat (length new))) as (B & HB & EB); [lia|lia|done|].
    replace (256 * Z.of_nat (length pre)) with (Z.of_nat (length P)) by lia.
    replace (256 * Z.of_nat (length olds)) with (Z.of_nat (length O)) by lia. rewrite EB. cbn [mbind result_bind].
    rewrite put_descs_ret by (done || lia). f_equal. rewrite EP, ER, !join_app. do 2 f_equal. rewrite <- join_app.
    replace (_ - _)%nat with (256 * (length post + (length olds + length tl - length new)))%nat by (rewrite ER in LR; lia).
    rewrite take_table by done. rewrite take_app_ge, join_app by lia. do 3 f_equal. lia.
  - apply lay_describes; [done|lia].
  - intros Hs. pose proof (lay_chain ps p base (off - base) Hnew Hps Hs Hb0 ltac:(lia)) as Hc. fold new in Hc.
    destruct (0 <? p_size p); [done|]. by replace (base + (off - base)) with off in Hc by lia.
Qed.

(** With fewer new partitions than old ones the length that is given to
    [memset] is negative. *)
Lemma remap_shrinks new : (length new < length olds)%nat → remap m (Z.of_nat (length m)) old new = Fault OutOfBounds.
Proof.
  intros Hlt. destruct (remap_runs new) as (off & _ & _ & ->).
  destruct table_parts as (P & O & R & Em & _ & _ & LP & LO & LR & _). pose proof (rp_small _ _ _ _ _ _ _ Hr) as Hsm. fold ds m in Hsm.
  assert (length m = length P + (length O + length R))%nat as Lm by (by rewrite Em, !length_app).
  unfold shift_descs. set (desc := 256 * Z.of_nat (length pre) + 256 * Z.of_nat (length new)).
  set (last_ := 256 * Z.of_nat (length pre) + 256 * Z.of_nat (length olds)). assert (desc < last_ ≤ Z.of_nat (length m)) as Hd by lia.
  rewrite (proj2 (Z.eqb_neq desc last_)), (proj2 (Z.ltb_lt desc last_)), (proj2 (Z.ltb_ge last_ desc)) by lia.
  rewrite (size_t_small (Z.of_nat (length m) - last_)) by lia. unfold memmove. rewrite !(proj2 (Z.leb_le _ _)) by lia. cbn [andb].
  unfold mread. rewrite decide_True by lia. cbn [mbind result_bind].
  destruct (mwrite _ _ _) as [m'|e] eqn:Ew; [|unfold mwrite in Ew; rewrite decide_True in Ew by (rewrite length_take; lia); done].
  apply mwrite_length in Ew. cbn [mbind result_bind]. unfold memset. rewrite (proj2 (Z.leb_gt _ _)); [done|]. rewrite Ew.
  pose proof (size_t_negative (last_ - desc) ltac:(lia)) as Hn.
  replace (Z.of_nat (length m) - (last_ - desc) - Z.of_nat (length m)) with (- (last_ - desc)) by lia. lia.
Qed.

End table.
End spec.

(** ** A table *)

Module DemoFis.
Definition part (name : string) (size : Z) : fis_part := FisPart (padded (cs name) 16) 0 0x80000000 size 0 7.
(** A kernel and a root file system take the place of "linux". *)
Definition old : list fis_part := [part "linux" 0].
Definition kernel : fis_part := part "kernel" 50.
Definition rootfs : fis_part := part "rootfs" 0.
Definition record (name : string) (base size : Z) : list Z := image_desc (Ar := mipsel) (part name size) base size.
Definition redboot : list Z := record "RedBoot" 0 100.
Definition linux : list Z := record "linux" 100 300.
Definition fis : list Z := record "FIS directory" 400 100.
Definition unused : list Z := replicate 256 255.
Definition table : list Z := mjoin ([redboot] ++ [linux] ++ [fis] ++ [unused]).

Lemma parts_ok : Forall part_ok (old ++ [kernel; rootfs]).
Proof. repeat (apply Forall_cons; split; [split; vm_compute; done|]). by apply Forall_nil. Qed.
Lemma fis_replaceable : replaceable [redboot] [linux] [fis] [unused] old linux linux.
Proof.
  split.
  - assert (∀ d, bool_decide (length d = 256%nat) && bool_decide (bytes_wf d) = true → desc_ok d) as Hd.
    { intros d [?%bool_decide_eq_true ?%bool_decide_eq_true]%andb_true_iff. done. }
    repeat (apply Forall_cons; split; [apply Hd; vm_compute; done|]). by apply Forall_nil.
  - by vm_compute.
  - repeat (apply Forall_cons; split; [by vm_compute|]). by apply Forall_nil.
  - done.
  - apply (Forall_app _ _ [kernel; rootfs]), parts_ok.
  - apply Forall_singleton. apply (bool_decide_unpack _). by vm_compute.
  - apply Forall_singleton. apply (bool_decide_unpack _). by vm_compute.
  - split; [done|]. apply (bool_decide_unpack _). by vm_compute.
  - split; [done|]. apply (bool_decide_unpack _). by vm_compute.
Qed.

(** The whole run, on a device of one block: what is in use afterwards, with
    names, addresses and sizes. *)
Definition info : mtd_info := MtdInfo 3 1024 1024 1.
Definition start : state sim :=
  State (Sim (View (Some [cs "mtd0: 00000400 00000400 " ++ [34] ++ cs "FIS directory" ++ [34; 10]])
           {[ cs "/dev/mtd0" := 7; cs "/dev/mtdblock0" := 7 ]} {[ 7 := Object table (Some info) [] ]} ∅) []) initial_globals.
Definition rows (m : list Z) : list (list Z * Z * Z) :=
  (λ k, let d := range m (256 * k) 256 in (name_of d, base_of (Ar := mipsel) d, len_of (Ar := mipsel) d)) <$> [0; 1; 2; 3].
Definition rows_after (o : out sim (Z * fis_vars)) : option (Z * list (list Z * Z * Z)) :=
  match o with Done r s => x ← v_obj (view (kern s)) !! 7; Some (r.1, rows (o_bytes x)) | _ => None end.
Example fis_run_remap :
  rows_after (fis_remap (Ar := mipsel) old [kernel; rootfs] fis_initial start) =
    Some (0, [(cs "RedBoot", 0, 100); (cs "kernel", 100, 50); (cs "rootfs", 150, 250); (cs "FIS directory", 400, 100)]).
Proof. by vm_compute. Qed.
Definition validated (new : list fis_part) : option Z :=
  match fis_validate (Ar := mipsel) old new fis_initial start with Done r _ => Some r.1 | _ => None end.
Example fis_run_validate : validated [kernel; rootfs] = Some 1 ∧ validated [rootfs; kernel] = Some (-1).
Proof. by vm_compute. Qed.
(** The layout on the command line, and the bytes of two blocks. *)
Definition asked : out sim (list fis_part * list fis_part * option nat * fis_vars) :=
  fis_begin (Ar := mipsel) (cs "linux") (cs "kernel:0x32:80000000,rootfs") 0 fis_initial start.
Example fis_run_begin :
  match asked with
  | Done (old, new, cur, _) _ => Some (old, (λ p, (name_of (p_name p), p_loadaddr p, p_size p)) <$> new, cur)
  | _ => None
  end = Some ([FisPart (padded (cs "linux") 16) 0 0 0 0 0], [(cs "kernel", 0x80000000, 50); (cs "rootfs", 0, 0)], Some 0%nat).
Proof. by vm_compute. Qed.
Definition blocks_counted : option (list Z * option nat) :=
  match fis_account (replicate 40 1) 40 [kernel; rootfs] (Some 0%nat) with
  | Ret (ps, cur) =>
      match fis_account (replicate 40 2) 40 ps cur with Ret (ps, cur) => Some (map p_length ps, cur) | Fault _ => None end
  | Fault _ => None
  end.
Example fis_run_account : blocks_counted = Some ([40; 40], Some 1%nat).
Proof. by vm_compute. Qed.
End DemoFis.

Lemma remap_correct_witness :
  let m := DemoFis.table in
  ∃ off news, follows (Ar := mipsel) [DemoFis.redboot; DemoFis.linux; DemoFis.fis] 100 off ∧
    remap (Ar := mipsel) m (Z.of_nat (length m)) DemoFis.old [DemoFis.kernel; DemoFis.rootfs] =
      Ret (mjoin ([DemoFis.redboot] ++ news ++ [DemoFis.fis] ++ [])) ∧
    Forall2 (describes (Ar := mipsel)) [DemoFis.kernel; DemoFis.rootfs] news ∧
    (50 ≤ off - 100 → chain (Ar := mipsel) 100 off news).
Proof.
  pose proof (remap_correct (Ar := mipsel) [DemoFis.redboot] [DemoFis.linux] [DemoFis.fis] [DemoFis.unused] DemoFis.old
    DemoFis.linux DemoFis.linux DemoFis.fis_replaceable [DemoFis.kernel] DemoFis.rootfs) as Hc.
  apply Hc; [|by apply Forall_singleton|cbn; lia|cbn; lia].
  apply (Forall_app _ DemoFis.old), DemoFis.parts_ok.
Defined.

End MtdFisProps.
